(* ===== verification/_CoqProject ===== *)
-Q . S2P
Prelude.v
Blockwise.v
Bitops.v
Limbs.v
X25519.v
Aes.v
Ctr.v
Gcm.v
Gf2.v
Simd.v
FusionLoad.v
FusionAes.v
FusionGhash.v
FusionGcm.v
FusionCore.v
FusionText.v
FusionEncrypt.v
FusionDecrypt.v
Chacha20.v
Poly1305.v
Constants.v
Wire.v
Monad.v
Buffer.v
Base64.v
Asn1.v
Crypto.v
Fips180.v
Sha2.v
Drbg.v
MinicryptoAead.v
Ffx.v
MinicryptoAes.v
Fusion.v
Record.v
Extensions.v
KeySchedule.v
Messages.v
Minicrypto.v
MinicryptoPem.v
Hello.v
Esni.v
Context.v
Handshake.v
Client.v
CertCompress.v
Server.v
Api.v
Frame.v
Auth.v
Locality.v
Stream.v
Transfer.v
Simulation.v
