(* ===== verification/Prelude.v ===== *)
(** * A verification development for picotls

    picotls is an implementation of TLS 1.3 in C ([src/lib/picotls.c], with its public
    header [src/include/picotls.h]) that leaves the cryptographic primitives to
    backends.  This library models its protocol engine, the record layer, the codecs
    and the backend "minicrypto" down to the hash functions and ciphers of the cifra
    library, and proves what makes each part correct.

    ** How the code is modelled

    Memory.  An octet is a [Z] below 2^8, an object in memory is the list of its octets
    and a pointer into it a cursor (a [nat], or the suffix it points to).  A C integer is
    a [Z] (a [size_t] that indexes memory a [nat]); every place where the C type can
    wrap around says so with [u8] ... [u64].  A function that can fail returns
    [res A]: [Ok], [Err code] with picotls' own error code, or [Stuck fault] for what C
    gives no meaning to (a read or write outside of an object, a signed overflow, a failed
    assertion, a null dereference, a loop that has not ended within its fuel).  So a theorem that a
    result is not [Stuck] is a theorem of memory safety and of termination.

    State.  Functions that change the connection are computations of the monad of
    [Monad]: they end normally, or leave with a code and the state reached by then, or
    are undefined.  The state [conn] of [Context] is the connection ([ptls_t]), the
    output, the values written through the properties, and a trace of the calls to
    the application.  Callbacks of the application are functions of their arguments and
    of the number of the call, so that they may answer differently each time.

    Loops.  A loop that is not structural has fuel, given by the calling definition from
    the sizes of its arguments: the number of octets left for the readers and the record
    and message loops (each iteration consumes one), 64 for the doubling of a buffer's
    capacity, the number of blocks for HKDF and the hash functions, the octets to be
    processed for the loops of the fusion engine.  The theorems show
    that the fuel is enough, since running out of it is the fault [OutOfFuel].

    Parameters.  What is not in the repository, or is a replaceable backend, is a
    parameter with the documented laws as a class: [Allocator] (Buffer), [HashLaws] and
    [AeadLaws] (Crypto), [CipherLaws] (Ffx), [Uecc] (whose functions may fail),
    [Curve25519] and [KxLaws] (Minicrypto), [Brotli] (CertCompress).  [Sha2], [MinicryptoAead] and [MinicryptoAes]
    prove [HashLaws], [AeadLaws] and [CipherLaws] for the code of the minicrypto backend,
    and [Minicrypto] proves [Curve25519Laws] for the code of cifra from the
    commutativity of the function of RFC 7748; [Crypto] has toy instances, on which [Simulation] runs complete handshakes.

    Allocation.  Where the outcome of an allocation is visible in the code's results it is an
    input: in [Buffer], [Base64] (the outcomes of the pushes), [Minicrypto],
    [MinicryptoPem], [Ffx], [CertCompress] and [Fusion].  In the key schedule, the HKDF
    functions, the hash contexts and the handshake functions allocations are taken to
    succeed: their [PTLS_ERROR_NO_MEMORY] exits end the connection and are not modelled.

    Standards.  The theorems about algorithms compare the code with references written from the
    standards and not from the code: [Fips180] computes the constants of SHA-2 from the
    roots of the primes, [rfc_derive] and [HkdfLabel] (KeySchedule) spell out the
    octets of RFC 8446, [rfc8439_inner_block] (Chacha20) works on the matrix of RFC 8439,
    [rfc8446_table] (Extensions) is the table of RFC 8446, section 4.2.

    ** The files, in the order of dependence

    - [Prelude] (this file): integers, octet lists, the type [res], tactics, hints.
    - [Constants]: the numeric constants of [picotls.h] and [picotls.c].
    - [Wire]: [ptls_decode16] ... [ptls_decode_quicint], [ptls_decode_open_block],
      the writers.  [Monad]: stateful computations.
    - [Buffer]: [ptls_buffer_t] with allocation, growth, scrubbing, block patching.
    - [Base64]: [src/lib/pembase64.c].  [Asn1]: [src/lib/asn1.c].  [Ffx]:
      [src/lib/ffx.c].
    - [Crypto]: HMAC, HKDF, HKDF labels, traffic keys, nonces, [ptls_mem_equal].
    - [Blockwise], [Bitops], [Aes], [Chacha20], [Poly1305], [Sha2]: the cifra files of
      these names under [src/deps/cifra/src/], with the contexts that [ptls_define_hash]
      makes; [Fips180] is the reference for [Sha2]; [Ctr] is the counter mode of [modes.c] and [Gcm] is [gcm.c] with [gf128.c].
      [X25519]: [curve25519.tweetnacl.c] on the numbers of [Limbs].  [Drbg]: [drbg.c] and
      [src/lib/cifra/random.c].
      [MinicryptoAead]: [src/lib/cifra/chacha20.c].  [MinicryptoAes]:
      [src/lib/cifra/aes-common.h], [aes128.c] and [aes256.c].
      [Minicrypto]: [src/lib/uecc.c] and [src/lib/cifra/x25519.c].
      [MinicryptoPem]: [src/lib/minicrypto-pem.c].
    - [Simd]: memory in pages and the vector intrinsics; [Gf2]: polynomials over GF(2).
      [FusionLoad], [FusionAes], [FusionGhash], [FusionGcm], [Fusion]: the parts of
      [src/lib/fusion.c]; [FusionCore], [FusionText], [FusionEncrypt], [FusionDecrypt]: the
      proofs about its interleaved loops.
    - [CertCompress]: [src/lib/certificate_compression.c].
    - [Record]: records, their encryption and reassembly.  [Extensions]: the walk through
      extension blocks.  [KeySchedule]: secrets and transcripts.  [Messages]: tickets,
      certificates, key shares, negotiation loops.  [Hello]: the hello decoders.
      [Esni]: encrypted server names.
    - [Context], [Handshake], [Client], [Server], [Api]: the connection, the functions
      both sides share, [client_handle_*], [server_handle_*], and the entry points
      ([ptls_handshake], [ptls_receive], [ptls_send], ...), as in [picotls.c].
    - [Frame], [Auth], [Locality], [Stream], [Transfer]: the proofs about whole
      connections ([Locality]: no handler looks at the buffer its message came from).
      [Simulation]: executed handshakes and the witnesses that need one.

    ** What the theorems show

    - Authentication: a handshake completes only after the handler met a Finished that is
      the HMAC of RFC 8446 over the transcript of that moment and, unless a session is
      resumed, a certificate and a signature over the transcript that the verifier
      accepted ([Auth.client_authenticates_server],
      [Auth.server_authenticates_client]), for every sequence of messages; the handlers refine an explicit state machine
      ([Auth.client_refines_state_machine], [Auth.server_refines_state_machine]).
    - Transfer: what one end sends the other receives, across key updates
      ([Transfer.send_receive_roundtrip]); records round-trip
      ([Record.record_layer_roundtrip]); the segmentation of the input does not matter
      ([Record.segmentation_independent]); the handshake messages reach the handlers of the
      client and the server in order however they are cut into records
      ([Stream.handshake_stream_delivered]); early data that cannot be decrypted is
      skipped up to a limit ([Stream.skipped_early_data_bounded]).
    - Safety of the decoders on every input: [Hello.decode_client_hello_safe],
      [Client.decode_server_hello_safe], [Asn1.asn1_validation_total],
      [Base64.load_pem_total]; which extension blocks are accepted and which code the
      others get ([Extensions.extensions_walked]).
    - Agreement with the standards: the key schedule of RFC 8446, HMAC (RFC 2104), HKDF
      (RFC 5869), SHA-2 (FIPS 180-4), AES (FIPS 197), AES-GCM (SP 800-38D),
      ChaCha20-Poly1305 (RFC 8439), X25519 (RFC 7748), Hash_DRBG (SP 800-90A); nonces never
      repeat and HKDF labels are unambiguous.  The fusion engine, which runs AES and GHASH
      interleaved and in place, seals and opens as SP 800-38D says
      ([Fusion.fusion_encrypt_is_sp800_38d], [Fusion.fusion_decrypt_is_sp800_38d]).
    - Round trips: blocks, variable-length integers, base64, PEM, session identifiers, certificate
      messages (compressed ones too), server names, encrypted server names, private
      keys, format-preserving encryption; a signature of the minicrypto backend is the
      DER encoding of micro-ecc's ([Minicrypto.ecdsa_signature_der]).
    - Refinement: buffers append ([Buffer.buffer_push_refines_append]), hash contexts
      hold what they were fed ([Sha2.hash_contexts_refine]), parallel transcripts are
      those of the selected suite ([KeySchedule.select_one_refines_single]).

    ** What is not modelled, and why

    The OpenSSL and bcrypt backends call libraries outside of the repository; their
    interfaces are the records of [Crypto] and the callbacks of [Context].  The curve
    arithmetic of micro-ecc, which is vendored, is a parameter with laws.  Time, [inet_pton] and the entropy
    of the operating system are inputs, and so are the random octets that a connection
    asks its context for.  Freeing memory and the getters have no counterpart where
    values need no release; probes and debug output are omitted (key-log calls are
    events of the trace).  [ptls_set_context] from inside of a callback, the tests, the
    command-line tool and the fuzzers are left out. *)

From stdpp Require Export base list list_numbers numbers option.
From Stdlib Require Export ZArith Lia.
From Stdlib Require Ascii String.
From Stdlib Require Export (notations) Ascii String.

Declare Scope picotls_scope.
Delimit Scope picotls_scope with ptls.
Global Open Scope Z_scope.

(** ** Bytes and machine integers

    An octet is a [Z] in [[0, 256)]; a C unsigned integer of width [w] is a [Z]
    in [[0, 2^w)], and every conversion the C code performs is written with the
    wrap-around function of the target width. *)

Notation bytes := (list Z).

Definition u8 (v : Z) : Z := v mod 2 ^ 8.
Definition u16 (v : Z) : Z := v mod 2 ^ 16.
Definition u24 (v : Z) : Z := v mod 2 ^ 24.
Definition u32 (v : Z) : Z := v mod 2 ^ 32.
Definition u64 (v : Z) : Z := v mod 2 ^ 64.

Definition SIZE_MAX : Z := 2 ^ 64 - 1.
Definition UINT64_MAX : Z := 2 ^ 64 - 1.
Definition UINT32_MAX : Z := 2 ^ 32 - 1.
Definition UINT16_MAX : Z := 2 ^ 16 - 1.

(** [is_byte b] and [is_bytes l]: the values a [uint8_t] and a [uint8_t[]] hold. *)
Definition is_byte (b : Z) : Prop := 0 <= b < 2 ^ 8.
Notation is_bytes l := (Forall is_byte l).

(** C character and string literals, as the octets they stand for. *)
Definition chr (a : Ascii.ascii) : Z := Z.of_N (Ascii.N_of_ascii a).
Arguments chr a%_char.
Definition str (s : String.string) : bytes := map chr (String.list_ascii_of_string s).
Arguments str s%_string.

(** Octets written in hexadecimal. *)
Definition hex_digit (a : Ascii.ascii) : Z := let c := chr a in if c <? 58 then c - 48 else c - 87.
Fixpoint hex (s : String.string) : bytes :=
  match s with
  | String.String a (String.String b s) => 16 * hex_digit a + hex_digit b :: hex s
  | _ => []
  end.
Arguments hex s%_string.

#[export] Instance is_byte_dec b : Decision (is_byte b).
Proof. unfold is_byte. apply _. Defined.

(** ** Results of C code

    [Ok a]: control reaches the next statement with value [a].
    [Err c]: the function returns (or jumps to its [Exit] label) with the
    non-zero code [c].
    [Stuck f]: the C program has no defined behaviour from here (or aborts);
    [OutOfFuel] marks a loop whose iteration bound was too small, and every
    theorem that says "not stuck" therefore also says that the loops end. *)

Inductive fault : Type :=
| AssertFail
| OutOfBounds
| NullDeref
| Uninitialized
| Aborted
| SignedOverflow
| OutOfFuel.

Inductive res (A : Type) : Type :=
| Ok (a : A)
| Err (code : Z)
| Stuck (f : fault).
Arguments Ok {A} a.
Arguments Err {A} code.
Arguments Stuck {A} f.

#[export] Instance fault_eq_dec : EqDecision fault.
Proof. solve_decision. Defined.
#[export] Instance res_eq_dec {A} `{EqDecision A} : EqDecision (res A).
Proof. solve_decision. Defined.

Definition res_bind {A B} (m : res A) (k : A -> res B) : res B :=
  match m with
  | Ok a => k a
  | Err c => Err c
  | Stuck f => Stuck f
  end.

Notation "'let!' x ':=' m 'in' k" := (res_bind m (fun x => k))
  (at level 10, x name, m at level 200, k at level 200, only parsing) : picotls_scope.
Notation "'let!' ' x ':=' m 'in' k" := (res_bind m (fun x => k))
  (at level 10, x strict pattern, m at level 200, k at level 200, only parsing) : picotls_scope.
Global Open Scope picotls_scope.

(** ** Assignment to a field of a structure

    [r <| f := v |>] is [r] after [r.f = v].  A record declares its [Eta]
    expansion; the update of a field is obtained by abstracting the projection
    in it. *)
Class Eta (R : Type) := eta_expand : R -> R.
Class Field {R F : Type} (proj : R -> F) := field_update : F -> R -> R.
Ltac solve_field :=
  lazymatch goal with
  | |- @Field ?R ?F ?proj =>
      let inst := constr:(_ : Eta R) in
      let expanded := eval red in inst in
      let abstracted := eval pattern proj in expanded in
      lazymatch abstracted with
      | ?rebuild _ => let t := eval cbv beta in (fun (v : F) (r : R) => rebuild (fun _ => v) r) in exact t
      end
  end.
#[export] Hint Extern 0 (Field _) => solve_field : typeclass_instances.
Notation "r '<|' f ':=' v '|>'" := (field_update (proj:=f) v r)
  (at level 1, left associativity, f at level 9, v at level 200, format "r  <| f  :=  v |>") : picotls_scope.
Arguments field_update {R F} proj {_} v r /.

(** [assert(b)]: a failed assertion aborts the program. *)
Definition c_assert (b : bool) : res unit := if b then Ok tt else Stuck AssertFail.

(** [guard b c]: [if (!b) { ret = c; goto Exit; }]. *)
Definition guard (b : bool) (c : Z) : res unit := if b then Ok tt else Err c.

(** The postcondition calculus for [res]: [m] is not stuck, and its value, if it
    returns one, satisfies [Q]; error returns satisfy [E]. *)
Definition res_post {A} (Q : A -> Prop) (E : Z -> Prop) (m : res A) : Prop :=
  match m with
  | Ok a => Q a
  | Err c => E c
  | Stuck _ => False
  end.

Notation safe_post Q m := (res_post Q (fun _ => True) m).

Lemma res_post_bind {A B} (Q : A -> Prop) (R : B -> Prop) E m (k : A -> res B) :
  res_post Q E m -> (forall a, Q a -> res_post R E (k a)) -> res_post R E (res_bind m k).
Proof. destruct m; simpl; auto. Qed.

Lemma wp_bind {A B} (R : B -> Prop) E m (k : A -> res B) :
  res_post (fun a => res_post R E (k a)) E m -> res_post R E (res_bind m k).
Proof. destruct m; simpl; auto. Qed.

Lemma res_post_mono {A} (Q Q' : A -> Prop) (E E' : Z -> Prop) m :
  res_post Q E m -> (forall a, Q a -> Q' a) -> (forall c, E c -> E' c) -> res_post Q' E' m.
Proof. destruct m; simpl; auto. Qed.

Lemma res_post_guard (b : bool) c (Q : unit -> Prop) (E : Z -> Prop) :
  (b = true -> Q tt) -> (b = false -> E c) -> res_post Q E (guard b c).
Proof. destruct b; simpl; auto. Qed.

Lemma res_bind_ok {A B} (m : res A) (k : A -> res B) b :
  res_bind m k = Ok b <-> exists a, m = Ok a /\ k a = Ok b.
Proof. destruct m; simpl; naive_solver. Qed.

Lemma res_post_ok {A} (Q : A -> Prop) E m a : res_post Q E m -> m = Ok a -> Q a.
Proof. by intros H ->. Qed.

Lemma res_post_not_stuck {A} (Q : A -> Prop) E m f : res_post Q E m -> m <> Stuck f.
Proof. by destruct m. Qed.

(** ** Automation

    [res_steps] walks through a [res] computation under [res_post], splitting
    the conditionals; [inv_ok] turns "this computation returned [Ok]" into what
    every step returned. *)

Ltac inv_ok :=
  repeat match goal with
  | H : res_bind _ _ = Ok _ |- _ =>
      let a := fresh "a" in let H1 := fresh "Hm" in
      apply res_bind_ok in H as (a & H1 & H)
  | H : guard ?b _ = Ok _ |- _ => destruct b eqn:?; simpl in H; [clear H | discriminate H]
  | H : c_assert ?b = Ok _ |- _ => destruct b eqn:?; simpl in H; [clear H | discriminate H]
  | H : Ok _ = Ok _ |- _ => injection H as H
  | H : Err _ = Ok _ |- _ => discriminate H
  | H : Stuck _ = Ok _ |- _ => discriminate H
  | H : (if ?b then _ else _) = Ok _ |- _ => destruct b eqn:?
  | x : prod _ _ |- _ => destruct x
  | H : (_, _) = (_, _) |- _ => injection H as ? ?
  | x : unit |- _ => destruct x
  end; subst.

(** Boolean tests of the code to propositions. *)
Ltac b2p :=
  repeat match goal with
  | H : (_ =? _) = true |- _ => apply Z.eqb_eq in H
  | H : (_ =? _) = false |- _ => apply Z.eqb_neq in H
  | H : (_ <? _) = true |- _ => apply Z.ltb_lt in H
  | H : (_ <? _) = false |- _ => apply Z.ltb_ge in H
  | H : (_ <=? _) = true |- _ => apply Z.leb_le in H
  | H : (_ <=? _) = false |- _ => apply Z.leb_gt in H
  | H : (_ =? _)%nat = true |- _ => apply Nat.eqb_eq in H
  | H : (_ =? _)%nat = false |- _ => apply Nat.eqb_neq in H
  | H : (_ <? _)%nat = true |- _ => apply Nat.ltb_lt in H
  | H : (_ <? _)%nat = false |- _ => apply Nat.ltb_ge in H
  | H : (_ <=? _)%nat = true |- _ => apply Nat.leb_le in H
  | H : (_ <=? _)%nat = false |- _ => apply Nat.leb_gt in H
  | H : negb _ = true |- _ => apply negb_true_iff in H
  | H : negb _ = false |- _ => apply negb_false_iff in H
  | H : _ && _ = true |- _ => apply andb_true_iff in H as [? ?]
  | H : _ || _ = false |- _ => apply orb_false_iff in H as [? ?]
  end.

(** [wp] walks through a [res] computation under [res_post] (weakest
    preconditions); [wp_hook] is extended by the components with their rules. *)
Ltac wp_hook := fail.
Ltac wp_step :=
  match goal with
  | |- res_post _ _ (res_bind _ _) => apply wp_bind
  | |- res_post _ _ (Ok _) => cbn [res_post fst snd]
  | |- res_post _ _ (Err _) => cbn [res_post]
  | |- res_post _ _ (guard _ _) => apply res_post_guard; intros; b2p
  | |- res_post _ _ (let '(_, _) := ?x in _) => is_var x; destruct x; cbn [fst snd] in *
  | |- res_post _ _ (if ?b then _ else _) => destruct b eqn:?; b2p
  | |- res_post _ _ _ => wp_hook
  | |- forall _, _ => intro
  | |- context [match ?x with pair _ _ => _ end] => is_var x; destruct x; cbn [fst snd] in *
  end.
Ltac wp := repeat wp_step; cbn [fst snd] in *.

(** [lia] with [/] and [mod] by literals. *)
Ltac modlia := Z.div_mod_to_equations; lia.

Create HintDb ptls.

(** ** Arithmetic of octets *)

Lemma pow2_pos n : 0 <= n -> 0 < 2 ^ n.
Proof. intros. by apply Z.pow_pos_nonneg. Qed.

Lemma testbit_high b n i : 0 <= n -> 0 <= b < 2 ^ n -> n <= i -> Z.testbit b i = false.
Proof.
  intros Hn Hb Hi. rewrite <- (Z.mod_small b (2 ^ n)) by done.
  by apply Z.mod_pow2_bits_high.
Qed.

(** [a << n | b] is an addition when [b] fits in the vacated bits. *)
Lemma lor_shiftl_add a b n :
  0 <= n -> 0 <= b < 2 ^ n -> Z.lor (Z.shiftl a n) b = a * 2 ^ n + b.
Proof.
  intros Hn Hb.
  assert (Hland : Z.land (Z.shiftl a n) b = 0).
  { apply Z.bits_inj'; intros i Hi. rewrite Z.land_spec, Z.bits_0.
    destruct (decide (i < n)).
    - by rewrite Z.shiftl_spec_low.
    - rewrite (testbit_high b n i) by lia. apply andb_false_r. }
  rewrite <- Z.shiftl_mul_pow2 by done.
  rewrite Z.add_nocarry_lxor by done. symmetry. by apply Z.lxor_lor.
Qed.

Lemma lor_range n a b : 0 <= n -> 0 <= a < 2 ^ n -> 0 <= b < 2 ^ n -> 0 <= Z.lor a b < 2 ^ n.
Proof.
  intros Hn Ha Hb. assert (E : Z.lor a b = Z.lor a b mod 2 ^ n).
  { apply Z.bits_inj'. intros i Hi. rewrite Z.lor_spec. destruct (decide (i < n)).
    - rewrite Z.mod_pow2_bits_low by lia. by rewrite Z.lor_spec.
    - rewrite Z.mod_pow2_bits_high by lia. rewrite (testbit_high a n), (testbit_high b n) by lia. done. }
  rewrite E. apply Z.mod_pos_bound, pow2_pos, Hn.
Qed.

Lemma land_ones_mod a n : 0 <= n -> Z.land a (Z.ones n) = a mod 2 ^ n.
Proof. intros. by apply Z.land_ones. Qed.

Lemma chr_byte a : is_byte (chr a).
Proof. unfold is_byte, chr. destruct a as [[] [] [] [] [] [] [] []]; vm_compute; intuition congruence. Qed.

Lemma str_bytes s : is_bytes (str s).
Proof. apply List.Forall_forall. intros x (a & <- & _)%in_map_iff. apply chr_byte. Qed.

#[export] Hint Resolve str_bytes : ptls.

Lemma u8_range v : is_byte (u8 v).
Proof. unfold is_byte, u8. apply Z.mod_pos_bound. lia. Qed.

Lemma u8_id v : is_byte v -> u8 v = v.
Proof. unfold is_byte, u8. apply Z.mod_small. Qed.
Lemma land_byte a b : is_byte a -> is_byte b -> is_byte (Z.land a b).
Proof.
  unfold is_byte. intros Ha Hb. split; [apply Z.land_nonneg; lia|].
  rewrite <- (Z.mod_small a (2 ^ 8)), <- Z.land_ones, <- Z.land_assoc, (Z.land_comm _ b), Z.land_assoc by lia.
  rewrite Z.land_ones by lia. apply Z.mod_pos_bound. lia.
Qed.
Lemma lxor_byte a b : is_byte a -> is_byte b -> is_byte (Z.lxor a b).
Proof.
  intros Ha Hb. rewrite <- (u8_id a Ha), <- (u8_id b Hb).
  replace (Z.lxor (u8 a) (u8 b)) with (u8 (Z.lxor a b)); [apply u8_range|].
  unfold u8. apply Z.bits_inj'; intros i Hi. rewrite Z.lxor_spec. destruct (decide (i < 8)).
  - by rewrite !Z.mod_pow2_bits_low, Z.lxor_spec by lia.
  - by rewrite !Z.mod_pow2_bits_high by lia.
Qed.
Lemma lor_byte a b : is_byte a -> is_byte b -> is_byte (Z.lor a b).
Proof.
  intros Ha Hb. rewrite <- (u8_id a Ha), <- (u8_id b Hb).
  replace (Z.lor (u8 a) (u8 b)) with (u8 (Z.lor a b)); [apply u8_range|].
  unfold u8. apply Z.bits_inj'; intros i Hi. rewrite Z.lor_spec. destruct (decide (i < 8)).
  - by rewrite !Z.mod_pow2_bits_low, Z.lor_spec by lia.
  - by rewrite !Z.mod_pow2_bits_high by lia.
Qed.
Lemma land_ff v : Z.land v 0xff = u8 v.
Proof. change 0xff with (Z.ones 8). by rewrite land_ones_mod. Qed.

#[export] Hint Resolve u8_range : ptls.

(** [is_bytes] of explicit lists. *)
Ltac solve_bytes :=
  repeat first
    [ apply List.Forall_nil
    | apply List.Forall_cons
    | apply Forall_app_2
    | solve [auto with ptls]
    | done ].

(** Big-endian encoding of the low [n] octets of [v], and its inverse written as
    the accumulation loop the decoders use. *)
Fixpoint be (n : nat) (v : Z) : bytes :=
  match n with
  | O => []
  | S n' => u8 (Z.shiftr v (8 * Z.of_nat n')) :: be n' v
  end.

Definition be_step (acc b : Z) : Z := Z.lor (Z.shiftl acc 8) b.
Definition of_be (l : bytes) : Z := foldl be_step 0 l.

Lemma length_be n v : length (be n v) = n.
Proof. induction n; simpl; congruence. Qed.

Lemma be_bytes n v : is_bytes (be n v).
Proof. induction n; simpl; constructor; auto using u8_range. Qed.

#[export] Hint Resolve be_bytes : ptls.
Create Rewrite HintDb ptls_len.
#[export] Hint Rewrite length_be @length_app @length_cons @length_nil @length_take @length_drop
  @length_replicate @length_insert : ptls_len.

Lemma be_step_add acc b : is_byte b -> be_step acc b = acc * 2 ^ 8 + b.
Proof. intros. apply lor_shiftl_add; [lia | done]. Qed.

Lemma foldl_be_step acc l :
  is_bytes l -> foldl be_step acc l = acc * 2 ^ (8 * Z.of_nat (length l)) + of_be l.
Proof.
  unfold of_be. revert acc. induction l as [|b l IH]; intros acc Hl; simpl.
  - lia.
  - inversion Hl as [|? ? Hb Hl']; subst.
    rewrite (IH (be_step acc b)), (IH (be_step 0 b)) by done.
    rewrite !be_step_add by done.
    replace (8 * Z.of_nat (S (length l))) with (8 + 8 * Z.of_nat (length l)) by lia.
    rewrite Z.pow_add_r by lia. ring.
Qed.

Lemma of_be_cons b l :
  is_byte b -> is_bytes l -> of_be (b :: l) = b * 2 ^ (8 * Z.of_nat (length l)) + of_be l.
Proof.
  intros Hb Hl. unfold of_be at 1. simpl. rewrite foldl_be_step by done.
  rewrite be_step_add by done. f_equal.
Qed.

Lemma of_be_range l : is_bytes l -> 0 <= of_be l < 2 ^ (8 * Z.of_nat (length l)).
Proof.
  induction 1 as [|b l Hb Hl IH].
  - simpl. unfold of_be. simpl. lia.
  - rewrite of_be_cons by done. simpl length.
    replace (8 * Z.of_nat (S (length l))) with (8 + 8 * Z.of_nat (length l)) by lia.
    rewrite Z.pow_add_r by lia. unfold is_byte in Hb. nia.
Qed.

Lemma of_be_be n v : of_be (be n v) = v mod 2 ^ (8 * Z.of_nat n).
Proof.
  induction n as [|n IH].
  - simpl. by rewrite Z.mod_1_r.
  - simpl be. rewrite of_be_cons by auto with ptls. rewrite IH, length_be.
    unfold u8. rewrite Z.shiftr_div_pow2 by lia.
    replace (8 * Z.of_nat (S n)) with (8 * Z.of_nat n + 8) by lia.
    rewrite Z.pow_add_r by lia.
    rewrite (Z.rem_mul_r v (2 ^ (8 * Z.of_nat n)) (2 ^ 8)) by (pose proof (pow2_pos (8 * Z.of_nat n)); lia).
    ring.
Qed.

Lemma of_be_be_small n v : 0 <= v < 2 ^ (8 * Z.of_nat n) -> of_be (be n v) = v.
Proof. intros. rewrite of_be_be. by apply Z.mod_small. Qed.

(** Two octet strings of the same length with the same value are equal. *)
Lemma of_be_inj l1 l2 :
  is_bytes l1 -> is_bytes l2 -> length l1 = length l2 -> of_be l1 = of_be l2 -> l1 = l2.
Proof.
  intros H1. revert l2. induction H1 as [|b l Hb Hl IH]; intros l2 H2 Hlen Heq.
  - by destruct l2.
  - destruct l2 as [|b2 l2]; [done|]. inversion H2; subst. simpl in Hlen. injection Hlen as Hlen.
    rewrite !of_be_cons in Heq by done. rewrite <- Hlen in Heq.
    pose proof (of_be_range l Hl) as R1. pose proof (of_be_range l2 ltac:(done)) as R2.
    rewrite <- Hlen in R2. set (M := 2 ^ (8 * Z.of_nat (length l))) in *.
    assert (b = b2) by nia. subst. f_equal. apply IH; [done..|lia].
Qed.

Lemma be_of_be l : is_bytes l -> be (length l) (of_be l) = l.
Proof.
  intros Hl. apply of_be_inj; auto with ptls; [by rewrite length_be|].
  apply of_be_be_small, of_be_range, Hl.
Qed.

Lemma be_mod n v : be n (v mod 2 ^ (8 * Z.of_nat n)) = be n v.
Proof. apply of_be_inj; auto with ptls; [by rewrite !length_be | by rewrite !of_be_be, Zmod_mod]. Qed.

Lemma be_app n m v : be (n + m) v = be n (Z.shiftr v (8 * Z.of_nat m)) ++ be m v.
Proof.
  induction n as [|n IH]; [done|]. cbn [Nat.add be app]. rewrite IH. f_equal. f_equal. rewrite Z.shiftr_shiftr by lia. f_equal. lia.
Qed.

(** The same, least significant octet first. *)
Fixpoint le (n : nat) (v : Z) : bytes :=
  match n with
  | O => []
  | S n => u8 v :: le n (v / 2 ^ 8)
  end.
Fixpoint of_le (l : bytes) : Z :=
  match l with
  | [] => 0
  | b :: l => b + 2 ^ 8 * of_le l
  end.

Lemma length_le n v : length (le n v) = n.
Proof. revert v. induction n as [|n IH]; intros v; cbn; [done | by rewrite IH]. Qed.

Lemma le_bytes n v : is_bytes (le n v).
Proof. revert v. induction n as [|n IH]; intros v; cbn; constructor; auto using u8_range. Qed.

#[export] Hint Resolve le_bytes : ptls.

Lemma of_le_le n v : of_le (le n v) = v mod 2 ^ (8 * Z.of_nat n).
Proof.
  revert v. induction n as [|n IH]; intros v; cbn [le of_le]; [by rewrite Z.mod_1_r|].
  rewrite IH. replace (8 * Z.of_nat (S n)) with (8 + 8 * Z.of_nat n) by lia. rewrite Z.pow_add_r by lia.
  unfold u8. rewrite (Z.rem_mul_r v (2 ^ 8)) by (pose proof (pow2_pos (8 * Z.of_nat n)); lia). done.
Qed.

Lemma of_le_range l : is_bytes l -> 0 <= of_le l < 2 ^ (8 * Z.of_nat (length l)).
Proof.
  induction 1 as [|b l Hb Hl IH]; cbn [of_le length]; [cbn; lia|].
  replace (8 * Z.of_nat (S (length l))) with (8 + 8 * Z.of_nat (length l)) by lia. rewrite Z.pow_add_r by lia. unfold is_byte in Hb. nia.
Qed.

Lemma le_of_le l : is_bytes l -> le (length l) (of_le l) = l.
Proof.
  induction 1 as [|b l Hb Hl IH]; [done|]. cbn [length le of_le]. unfold is_byte in Hb.
  f_equal; [unfold u8; rewrite Z.mul_comm, Z.mod_add, Z.mod_small; lia|].
  rewrite Z.mul_comm, Z.div_add, Z.div_small by lia. exact IH.
Qed.

Lemma le_mod n v : le n (v mod 2 ^ (8 * Z.of_nat n)) = le n v.
Proof. rewrite <- of_le_le. pose proof (le_of_le (le n v) (le_bytes n v)) as H. by rewrite length_le in H. Qed.

Lemma of_le_app l1 l2 : of_le (l1 ++ l2) = of_le l1 + 2 ^ (8 * Z.of_nat (length l1)) * of_le l2.
Proof.
  induction l1 as [|b l1 IH]; [cbn; lia|]. cbn [app of_le length]. rewrite IH.
  replace (8 * Z.of_nat (S (length l1))) with (8 + 8 * Z.of_nat (length l1)) by lia. rewrite Z.pow_add_r by lia. ring.
Qed.

(** ** Memory

    A C object of type [uint8_t[]] is a list of octets, a pointer into it an
    offset. [rd] is the dereference, undefined outside of the object. *)

Definition rd (mem : bytes) (p : nat) : res Z :=
  match mem !! p with
  | Some b => Ok b
  | None => Stuck OutOfBounds
  end.

(** [slice mem s e] is the content of [ptls_iovec_init(s, e - s)]. *)
Definition slice (mem : bytes) (s e : nat) : bytes := take (e - s) (drop s mem).

(** [at_mem mem p bs]: the octets [bs] are stored in [mem] from offset [p] on. *)
Definition at_mem (mem : bytes) (p : nat) (bs : bytes) : Prop :=
  take (length bs) (drop p mem) = bs.

Lemma length_slice mem s e : (e <= length mem)%nat -> length (slice mem s e) = (e - s)%nat.
Proof. intros. unfold slice. rewrite length_take, length_drop. lia. Qed.

Lemma slice_bytes mem s e : is_bytes mem -> is_bytes (slice mem s e).
Proof. intros. unfold slice. by apply Forall_take, Forall_drop. Qed.

Lemma slice_nil mem s : slice mem s s = [].
Proof. unfold slice. by rewrite Nat.sub_diag. Qed.

Lemma slice_full mem : slice mem 0 (length mem) = mem.
Proof. unfold slice. rewrite drop_0, Nat.sub_0_r. apply firstn_all. Qed.

Lemma at_mem_nil mem p : at_mem mem p [].
Proof. done. Qed.

Lemma at_mem_lookup mem p bs i b :
  at_mem mem p bs -> bs !! i = Some b -> mem !! (p + i)%nat = Some b.
Proof.
  intros Hat Hi. rewrite <- Hat in Hi. apply lookup_take_Some in Hi as [Hi _].
  by rewrite lookup_drop in Hi.
Qed.

Lemma at_mem_cons mem p b bs :
  at_mem mem p (b :: bs) <-> mem !! p = Some b /\ at_mem mem (S p) bs.
Proof.
  unfold at_mem. simpl length. split.
  - intros H. destruct (drop p mem) as [|b' l] eqn:E; simpl in H; [done|].
    injection H as -> H. split.
    + rewrite <- (Nat.add_0_r p), <- lookup_drop, E. done.
    + replace (S p) with (p + 1)%nat by lia. rewrite <- drop_drop, E. done.
  - intros [Hb H]. rewrite (drop_S _ _ _ Hb). simpl. by f_equal.
Qed.

Lemma at_mem_app mem p bs1 bs2 :
  at_mem mem p (bs1 ++ bs2) <-> at_mem mem p bs1 /\ at_mem mem (p + length bs1) bs2.
Proof.
  revert p. induction bs1 as [|b bs1 IH]; intros p; simpl.
  - rewrite Nat.add_0_r. pose proof (at_mem_nil mem p). tauto.
  - rewrite !at_mem_cons, IH. replace (p + S (length bs1))%nat with (S p + length bs1)%nat by lia.
    tauto.
Qed.

Lemma at_mem_intro pre bs post : at_mem (pre ++ bs ++ post) (length pre) bs.
Proof. unfold at_mem. rewrite drop_app_length, take_app_length. done. Qed.

Lemma at_mem_self bs : at_mem bs 0 bs.
Proof. unfold at_mem. by rewrite drop_0, firstn_all. Qed.

Lemma at_mem_slice mem p bs : at_mem mem p bs -> slice mem p (p + length bs) = bs.
Proof. unfold at_mem, slice. by replace (p + length bs - p)%nat with (length bs) by lia. Qed.

Lemma at_mem_le mem p bs :
  at_mem mem p bs -> bs <> [] -> (p + length bs <= length mem)%nat.
Proof.
  intros H Hne. apply (f_equal length) in H. rewrite length_take, length_drop in H.
  destruct bs; [done|]. cbn [length] in *. lia.
Qed.

Lemma slice_at_mem mem s e : (s <= e <= length mem)%nat -> at_mem mem s (slice mem s e).
Proof.
  intros. unfold at_mem. rewrite length_slice by lia. done.
Qed.

Lemma rd_at mem p b : mem !! p = Some b -> rd mem p = Ok b.
Proof. unfold rd. by intros ->. Qed.

Lemma rd_safe mem p (Q : Z -> Prop) E :
  (p < length mem)%nat -> (forall b, mem !! p = Some b -> Q b) -> res_post Q E (rd mem p).
Proof.
  intros Hp HQ. unfold rd. destruct (lookup_lt_is_Some_2 mem p Hp) as [b Hb].
  rewrite Hb. simpl. auto.
Qed.

Lemma is_bytes_lookup (mem : bytes) p b : is_bytes mem -> mem !! p = Some b -> is_byte b.
Proof. intros H Hb. by eapply Forall_lookup_1. Qed.
