(* ===== verification/Blockwise.v ===== *)
(** * Blockwise: block buffering of the cifra library

    [src/deps/cifra/src/blockwise.c] and the octet and word helpers of
    [src/deps/cifra/src/bitops.h]. Hash functions and authenticators of the
    minicrypto backend feed their input through [cf_blockwise_accumulate], stream
    ciphers through [cf_blockwise_xor]. The state is the buffer [partial] with its
    count [npartial] and the context that the callback [process] changes.

    Main results: whatever the pieces, the callback sees the blocks of the
    concatenated input, in order ([accumulate_absorbs], [acc_pad_absorbs]), and a
    text is combined with consecutive octets of the key stream ([xor_streams]). *)
From S2P Require Import Prelude.

(** ** bitops.h *)

Definition rotr (w x n : Z) : Z := Z.lor (Z.shiftr x n) (Z.shiftl x (w - n) mod 2 ^ w).
Definition rotr32 (x n : Z) : Z := rotr 32 x n.
Definition rotr64 (x n : Z) : Z := rotr 64 x n.
Definition rotl32 (x n : Z) : Z := Z.lor (u32 (Z.shiftl x n)) (Z.shiftr x (32 - n)).

Definition read32_be (buf : bytes) (p : nat) : res Z :=
  let! b0 := rd buf p in let! b1 := rd buf (p + 1) in let! b2 := rd buf (p + 2) in let! b3 := rd buf (p + 3) in
  Ok (Z.lor (Z.lor (Z.lor (Z.shiftl b0 24) (Z.shiftl b1 16)) (Z.shiftl b2 8)) b3).
Definition read32_le (buf : bytes) (p : nat) : res Z :=
  let! b3 := rd buf (p + 3) in let! b2 := rd buf (p + 2) in let! b1 := rd buf (p + 1) in let! b0 := rd buf p in
  Ok (Z.lor (Z.lor (Z.lor (Z.shiftl b3 24) (Z.shiftl b2 16)) (Z.shiftl b1 8)) b0).
Definition read64_be (buf : bytes) (p : nat) : res Z :=
  let! hi := read32_be buf p in let! lo := read32_be buf (p + 4) in Ok (Z.lor (Z.shiftl hi 32) lo).
Definition write32_be (v : Z) : bytes := [u8 (Z.shiftr v 24); u8 (Z.shiftr v 16); u8 (Z.shiftr v 8); u8 v].
Definition write32_le (v : Z) : bytes := [u8 v; u8 (Z.shiftr v 8); u8 (Z.shiftr v 16); u8 (Z.shiftr v 24)].
Definition write64_be (v : Z) : bytes :=
  [u8 (Z.shiftr v 56); u8 (Z.shiftr v 48); u8 (Z.shiftr v 40); u8 (Z.shiftr v 32);
   u8 (Z.shiftr v 24); u8 (Z.shiftr v 16); u8 (Z.shiftr v 8); u8 v].
Definition write64_le (v : Z) : bytes :=
  [u8 v; u8 (Z.shiftr v 8); u8 (Z.shiftr v 16); u8 (Z.shiftr v 24);
   u8 (Z.shiftr v 32); u8 (Z.shiftr v 40); u8 (Z.shiftr v 48); u8 (Z.shiftr v 56)].

(** [xor_bb]: the exclusive or of the first [len] octets. *)
Fixpoint xor_bb (x y : bytes) (len : nat) {struct len} : res bytes :=
  match len with
  | O => Ok []
  | S len =>
      match x, y with
      | a :: x, b :: y => let! rest := xor_bb x y len in Ok (u8 (Z.lxor a b) :: rest)
      | _, _ => Stuck OutOfBounds
      end
  end.

(** [mask_u32]: all ones if [x == y], else zero, without a branch. *)
Definition mask_u32 (x y : Z) : Z :=
  let diff := Z.lxor x y in
  let diff_is_zero := Z.land (u32 (Z.lnot diff)) (u32 (diff - 1)) in
  u32 (- Z.shiftr diff_is_zero 31).

(** [incr_le v len]: the integer stored at [v], least significant octet first. The
    loop compares the index with [len] after the increment of an octet whose carry
    goes on, so that [len = 0] does not stop it. *)
Fixpoint incr_le_loop (fuel : nat) (v : bytes) (i len : nat) : res bytes :=
  match fuel with
  | O => Stuck OutOfFuel
  | S fuel =>
      let! b := rd v i in
      let b := u8 (b + 1) in
      let v := <[i := b]> v in
      if negb (b =? 0) then Ok v
      else if (S i =? len)%nat then Ok v
      else incr_le_loop fuel v (S i) len
  end.
Definition incr_le (v : bytes) (len : nat) : res bytes := incr_le_loop (S (length v)) v 0 len.

(** ** blockwise.c *)

(** [memcpy(dst + off, src, n)] and [memset(dst + off, byte, n)] *)
Definition copy_to (dst : bytes) (off : nat) (src : bytes) (n : nat) : res bytes :=
  if (length dst <? off + n)%nat || (length src <? n)%nat then Stuck OutOfBounds
  else Ok (take off dst ++ take n src ++ drop (off + n) dst).
Definition memset_to (dst : bytes) (off : nat) (byte : Z) (n : nat) : res bytes := copy_to dst off (replicate n byte) n.

(** [memcpy] of [n] octets from [src + off] *)
Definition copy_from (src : bytes) (off n : nat) : res bytes :=
  if (length src <? off + n)%nat then Stuck OutOfBounds else Ok (take n (drop off src)).

Section Accumulate.
Context {C : Type} (nblock : nat) (process process_final : C -> bytes -> res C).

(** What the functions change: [partial], [*npartial] and the context. *)
Notation acc := (bytes * nat * C)%type.

(** If there is partial data, it is completed first. *)
Definition fill_partial (st : acc) (bufin : bytes) : res (acc * bytes) :=
  let '(partial, npartial, ctx) := st in
  if negb (npartial =? 0)%nat && negb (length bufin =? 0)%nat then
    let space := (nblock - npartial)%nat in
    let taken := Nat.min space (length bufin) in
    let! partial := copy_to partial npartial bufin taken in
    let bufin := drop taken bufin in
    let npartial := (npartial + taken)%nat in
    if (npartial =? nblock)%nat then
      let! ctx := (if (length bufin =? 0)%nat then process_final else process) ctx partial in
      Ok (partial, O, ctx, bufin)
    else Ok (partial, npartial, ctx, bufin)
  else Ok (st, bufin).

(** Full blocks are processed in place. *)
Fixpoint whole_blocks (fuel : nat) (npartial : nat) (ctx : C) (bufin : bytes) : res (C * bytes) :=
  if (length bufin <? nblock)%nat then Ok (ctx, bufin)
  else match fuel with
  | O => Stuck OutOfFuel
  | S fuel =>
      let! _ := c_assert (npartial =? 0)%nat in
      let! ctx := (if (length bufin =? nblock)%nat then process_final else process) ctx (take nblock bufin) in
      whole_blocks fuel npartial ctx (drop nblock bufin)
  end.

(** The rest is buffered. *)
Fixpoint buffer_rest (fuel : nat) (partial : bytes) (npartial : nat) (bufin : bytes) : res (bytes * nat) :=
  if (length bufin =? 0)%nat then Ok (partial, npartial)
  else match fuel with
  | O => Stuck OutOfFuel
  | S fuel =>
      let space := (nblock - npartial)%nat in
      let taken := Nat.min space (length bufin) in
      let! partial := copy_to partial npartial bufin taken in
      let npartial := (npartial + taken)%nat in
      let! _ := c_assert (npartial <? nblock)%nat in
      buffer_rest fuel partial npartial (drop taken bufin)
  end.

Definition cf_blockwise_accumulate_final (st : acc) (inp : bytes) : res acc :=
  let! _ := c_assert (st.1.2 <? nblock)%nat in
  let! '(partial, npartial, ctx, bufin) := fill_partial st inp in
  let! '(ctx, bufin) := whole_blocks (length inp) npartial ctx bufin in
  let! '(partial, npartial) := buffer_rest (length inp) partial npartial bufin in
  Ok (partial, npartial, ctx).
End Accumulate.

Definition cf_blockwise_accumulate {C} (nblock : nat) (process : C -> bytes -> res C) (st : bytes * nat * C) (inp : bytes)
    : res (bytes * nat * C) :=
  cf_blockwise_accumulate_final nblock process process st inp.

Section Padding.
Context {C : Type} (nblock : nat) (process : C -> bytes -> res C).

(** [filled]: the whole of the buffer holds [byte] already. *)
Fixpoint acc_byte_loop (fuel : nat) (filled : bool) (st : bytes * nat * C) (byte : Z) (nbytes : nat) : res (bytes * nat * C) :=
  if (nbytes =? 0)%nat then Ok st
  else match fuel with
  | O => Stuck OutOfFuel
  | S fuel =>
      let '(partial, npartial, ctx) := st in
      let start := npartial in
      let count := Nat.min nbytes (nblock - start) in
      let! partial := if negb filled then memset_to partial start byte count else Ok partial in
      let filled := if (start =? 0)%nat && (count =? nblock)%nat then true else filled in
      if (start + count =? nblock)%nat then
        let! ctx := process ctx partial in
        acc_byte_loop fuel filled (partial, O, ctx) byte (nbytes - count)
      else acc_byte_loop fuel filled (partial, (npartial + count)%nat, ctx) byte (nbytes - count)
  end.
Definition cf_blockwise_acc_byte (st : bytes * nat * C) (byte : Z) (nbytes : nat) : res (bytes * nat * C) :=
  acc_byte_loop nbytes false st byte nbytes.

Definition cf_blockwise_acc_pad (st : bytes * nat * C) (fbyte mbyte lbyte : Z) (nbytes : nat) : res (bytes * nat * C) :=
  match nbytes with
  | 0 => Ok st
  | 1 => cf_blockwise_accumulate nblock process st [u8 (Z.lxor fbyte lbyte)]
  | 2 =>
      let! st := cf_blockwise_accumulate nblock process st [fbyte] in
      cf_blockwise_accumulate nblock process st [lbyte]
  | _ =>
      let! st := cf_blockwise_accumulate nblock process st [fbyte] in
      if negb (lbyte =? mbyte)%Z then
        let! st := cf_blockwise_acc_byte st mbyte (nbytes - 2) in
        cf_blockwise_accumulate nblock process st [lbyte]
      else cf_blockwise_acc_byte st mbyte (nbytes - 1)
  end%nat.
End Padding.

(** [cf_blockwise_xor]: [npartial] octets at the end of [partial] are unused key
    stream; [process] fills the buffer. *)
Fixpoint blockwise_xor_loop {C} (nblock : nat) (process : C -> res (bytes * C)) (fuel : nat) (st : bytes * nat * C) (inb : bytes)
    : res (bytes * (bytes * nat * C)) :=
  if (length inb =? 0)%nat then Ok ([], st)
  else match fuel with
  | O => Stuck OutOfFuel
  | S fuel =>
      let '(partial, npartial, ctx) := st in
      let! '(partial, npartial, ctx) :=
        if (npartial =? 0)%nat then let! '(partial, ctx) := process ctx in Ok (partial, nblock, ctx)
        else Ok (partial, npartial, ctx) in
      let offset := (nblock - npartial)%nat in
      let taken := Nat.min npartial (length inb) in
      let! out := xor_bb inb (drop offset partial) taken in
      let! '(outb, st) := blockwise_xor_loop nblock process fuel (partial, (npartial - taken)%nat, ctx) (drop taken inb) in
      Ok (out ++ outb, st)
  end.
Definition cf_blockwise_xor {C} (nblock : nat) (process : C -> res (bytes * C)) (st : bytes * nat * C) (inp : bytes)
    : res (bytes * (bytes * nat * C)) :=
  let! _ := c_assert (st.1.2 <? nblock)%nat in
  blockwise_xor_loop nblock process (length inp) st inp.

(** ** Words *)

Lemma rd_drop (b : bytes) p i : rd b (p + i) = rd (drop p b) i.
Proof. unfold rd. by rewrite lookup_drop. Qed.

Lemma drop_split4 (b : bytes) p : (p + 4 <= length b)%nat -> exists b0 b1 b2 b3 r, drop p b = b0 :: b1 :: b2 :: b3 :: r.
Proof.
  intros H. assert (Hl : (4 <= length (drop p b))%nat) by (rewrite length_drop; lia).
  destruct (drop p b) as [|b0 [|b1 [|b2 [|b3 r]]]]; cbn in Hl; try lia. by exists b0, b1, b2, b3, r.
Qed.

Lemma write32_be_spec v : write32_be v = be 4 v.
Proof. unfold write32_be. cbn [be]. by rewrite Z.shiftr_0_r. Qed.
Lemma write64_be_spec v : write64_be v = be 8 v.
Proof. unfold write64_be. cbn [be]. by rewrite Z.shiftr_0_r. Qed.

Lemma read32_be_spec b p : (p + 4 <= length b)%nat -> read32_be b p = Ok (of_be (take 4 (drop p b))).
Proof.
  intros H. destruct (drop_split4 b p H) as (b0 & b1 & b2 & b3 & r & E). unfold read32_be.
  rewrite <- (Nat.add_0_r p) at 1. rewrite !rd_drop, E. cbn [rd lookup list_lookup res_bind take]. f_equal.
  unfold of_be, be_step. cbn [foldl]. rewrite !Z.shiftl_lor, !Z.shiftl_shiftl by lia. by rewrite Z.shiftl_0_l, Z.lor_0_l.
Qed.

Lemma read64_be_spec b p : (p + 8 <= length b)%nat -> read64_be b p = Ok (of_be (take 8 (drop p b))).
Proof.
  intros H. unfold read64_be. rewrite !read32_be_spec by lia. cbn [res_bind]. f_equal.
  destruct (drop_split4 b p ltac:(lia)) as (b0 & b1 & b2 & b3 & r & E). destruct (drop_split4 b (p + 4) ltac:(lia)) as (c0 & c1 & c2 & c3 & r' & E').
  assert (Er : r = c0 :: c1 :: c2 :: c3 :: r') by (rewrite <- E', <- drop_drop, E; done). rewrite E', E, Er.
  cbn [take]. rewrite take_0. unfold of_be, be_step. cbn [foldl]. rewrite !Z.shiftl_lor, !Z.shiftl_shiftl, !Z.shiftl_0_l, !Z.lor_0_l, !Z.lor_assoc by lia. done.
Qed.

Lemma read32_le_spec b p : (p + 4 <= length b)%nat -> is_bytes b -> read32_le b p = Ok (of_le (take 4 (drop p b))).
Proof.
  intros H Hb. destruct (drop_split4 b p H) as (b0 & b1 & b2 & b3 & r & E). assert (Hd : is_bytes (drop p b)) by (by apply Forall_drop).
  rewrite E in Hd. apply Forall_cons_1 in Hd as [H0 Hd]. apply Forall_cons_1 in Hd as [H1 Hd]. apply Forall_cons_1 in Hd as [H2 Hd]. apply Forall_cons_1 in Hd as [H3 _].
  assert (Er : read32_le b p = Ok (of_be [b3; b2; b1; b0])).
  { unfold read32_le. pose proof (rd_drop b p 0) as R0. rewrite Nat.add_0_r in R0. rewrite R0, !rd_drop, E. cbn [rd lookup list_lookup res_bind]. f_equal.
    unfold of_be, be_step. cbn [foldl]. rewrite !Z.shiftl_lor, !Z.shiftl_shiftl by lia. by rewrite Z.shiftl_0_l, Z.lor_0_l. }
  rewrite Er, E. cbn [take of_le]. rewrite take_0. f_equal. rewrite !of_be_cons by (done || solve_bytes). cbn [length of_le]. unfold of_be. cbn [foldl]. lia.
Qed.

Lemma write32_le_spec v : write32_le v = le 4 v.
Proof. unfold write32_le. cbn [le]. rewrite !Z.shiftr_div_pow2, !Z.div_div by lia. done. Qed.

Lemma write64_le_spec v : write64_le v = le 8 v.
Proof. unfold write64_le. cbn [le]. rewrite !Z.shiftr_div_pow2, !Z.div_div by lia. done. Qed.

(** The counter at the front of [v] is incremented. *)
Lemma incr_le_loop_spec fuel v i len :
  is_bytes v -> (i < len <= length v)%nat -> (length v < fuel + i)%nat ->
  incr_le_loop fuel v i len = Ok (take i v ++ le (len - i) (of_le (take (len - i) (drop i v)) + 1) ++ drop len v).
Proof.
  revert v i. induction fuel as [|fuel IH]; intros v i Hv Hi Hf; [lia|]. cbn [incr_le_loop].
  destruct (lookup_lt_is_Some_2 v i ltac:(lia)) as [b Hb]. rewrite (rd_at _ _ _ Hb). cbn [res_bind].
  pose proof (is_bytes_lookup _ _ _ Hv Hb) as Hbb. replace (len - i)%nat with (S (len - S i)) by lia. rewrite (drop_S _ _ _ Hb). cbn [take of_le].
  set (r := take (len - S i) (drop (S i) v)). assert (Hr : is_bytes r) by (by apply Forall_take, Forall_drop).
  assert (Hlr : length r = (len - S i)%nat) by (unfold r; rewrite length_take, length_drop; lia). cbn [le app].
  rewrite insert_take_drop by lia. unfold is_byte in Hbb. destruct (Z.eqb_spec (u8 (b + 1)) 0) as [E|E]; cbn [negb].
  - assert (b = 255) as -> by (unfold u8 in E; modlia).
    replace ((255 + 2 ^ 8 * of_le r + 1) / 2 ^ 8) with (of_le r + 1) by modlia. replace (u8 (255 + 2 ^ 8 * of_le r + 1)) with 0 by (unfold u8; modlia).
    change (u8 (255 + 1)) with 0. destruct (Nat.eqb_spec (S i) len) as [<- | Hne].
    + rewrite Nat.sub_diag. done.
    + assert (Hl : length (take i v) = i) by (rewrite length_take; lia).
      rewrite IH; [| | rewrite length_app; cbn [length]; rewrite length_drop; lia..].
      2: { apply Forall_app_2; [by apply Forall_take|]. constructor; [done | by apply Forall_drop]. }
      rewrite take_app_ge, drop_app_ge, drop_app_ge by lia. rewrite Hl. replace (S i - i)%nat with 1%nat by lia.
      replace (len - i)%nat with (S (len - S i)) by lia. cbn [take drop]. rewrite take_0, drop_0, drop_drop, <- app_assoc. cbn [app].
      replace (S i + (len - S i))%nat with len by lia. done.
  - assert (Hb' : b + 1 < 256) by (assert (b <> 255) by (intros ->; by vm_compute in E); lia).
    replace ((b + 2 ^ 8 * of_le r + 1) / 2 ^ 8) with (of_le r) by modlia. replace (u8 (b + 2 ^ 8 * of_le r + 1)) with (b + 1) by (unfold u8; modlia).
    rewrite u8_id by (unfold is_byte; lia). rewrite <- Hlr, le_of_le by done. do 3 f_equal. unfold r.
    rewrite <- (take_drop (len - S i) (drop (S i) v)) at 1. rewrite drop_drop. by replace (S i + (len - S i))%nat with len by lia.
Qed.

Lemma incr_le_spec v len :
  is_bytes v -> (0 < len <= length v)%nat -> incr_le v len = Ok (le len (of_le (take len v) + 1) ++ drop len v).
Proof. intros Hv Hl. unfold incr_le. rewrite incr_le_loop_spec by (done || lia). by rewrite Nat.sub_0_r, take_0, drop_0. Qed.

(** ** What is absorbed *)

(** The state after [msg] was fed: the whole blocks of [msg] were processed in order,
    the rest is in the buffer. *)
Record absorbed {C} (nblock : nat) (step : C -> bytes -> C) (c0 : C) (msg : bytes) (st : bytes * nat * C) : Prop := {
  absorbed_partial : length st.1.1 = nblock;
  absorbed_npartial : (st.1.2 < nblock)%nat;
  absorbed_blocks : exists bs, Forall (fun b => length b = nblock) bs /\ msg = concat bs ++ take st.1.2 st.1.1 /\ st.2 = foldl step c0 bs
}.

(** The blocks of a message. *)
Fixpoint blocks_of (nblock : nat) (n : nat) (msg : bytes) : list bytes :=
  match n with
  | O => []
  | S n => take nblock msg :: blocks_of nblock n (drop nblock msg)
  end.

Lemma length_blocks_of nblock n msg : length (blocks_of nblock n msg) = n.
Proof. revert msg. induction n as [|n IH]; intros msg; cbn; [done | by rewrite IH]. Qed.

Lemma blocks_of_lookup nblock n t msg : (t < n)%nat -> blocks_of nblock n msg !! t = Some (take nblock (drop (t * nblock) msg)).
Proof.
  revert t msg. induction n as [|n IH]; intros t msg Ht; [lia|]. destruct t as [|t]; cbn [blocks_of].
  - by rewrite Nat.mul_0_l, drop_0.
  - cbn. rewrite (IH t) by lia. by rewrite drop_drop.
Qed.

Lemma copy_to_ok dst off src n :
  (off + n <= length dst)%nat -> (n <= length src)%nat -> copy_to dst off src n = Ok (take off dst ++ take n src ++ drop (off + n) dst).
Proof. intros. unfold copy_to. by rewrite !(proj2 (Nat.ltb_ge _ _)) by lia. Qed.

Lemma copy_from_ok src off n : (off + n <= length src)%nat -> copy_from src off n = Ok (take n (drop off src)).
Proof. intros. unfold copy_from. by rewrite (proj2 (Nat.ltb_ge _ _)) by lia. Qed.

Lemma length_copied_to (dst src : bytes) off n :
  (off + n <= length dst)%nat -> (n <= length src)%nat -> length (take off dst ++ take n src ++ drop (off + n) dst) = length dst.
Proof. intros. rewrite !length_app, !length_take, length_drop. lia. Qed.

Lemma take_copied_to (dst src : bytes) off n :
  (off + n <= length dst)%nat -> (n <= length src)%nat -> take (off + n) (take off dst ++ take n src ++ drop (off + n) dst) = take off dst ++ take n src.
Proof. intros. rewrite app_assoc, take_app_le by (rewrite !length_app, !length_take; lia). apply take_ge. rewrite !length_app, !length_take. lia. Qed.

Lemma concat_blocks_inj (nblock : nat) (bs bs' : list bytes) (r r' : bytes) :
  Forall (fun b => length b = nblock) bs -> Forall (fun b => length b = nblock) bs' -> (length r < nblock)%nat -> (length r' < nblock)%nat ->
  concat bs ++ r = concat bs' ++ r' -> bs = bs' /\ r = r'.
Proof.
  intros Hbs. revert bs'. induction Hbs as [|b bs Hb Hbs IH]; intros bs' Hbs' Hr Hr' E.
  - destruct Hbs' as [|b' bs' Hb' Hbs']; [done|]. apply (f_equal length) in E. cbn in E. rewrite !length_app in E. lia.
  - destruct Hbs' as [|b' bs' Hb' Hbs'].
    + apply (f_equal length) in E. cbn in E. rewrite !length_app in E. lia.
    + cbn in E. rewrite <- !app_assoc in E. apply app_inj_1 in E as [-> E]; [|congruence].
      by destruct (IH _ Hbs' Hr Hr' E) as [-> ->].
Qed.

Lemma blocks_of_concat nblock bs r :
  Forall (fun b => length b = nblock) bs -> blocks_of nblock (length bs) (concat bs ++ r) = bs.
Proof.
  induction 1 as [|b bs Hb Hbs IH]; [done|]. cbn [length blocks_of concat]. rewrite <- app_assoc.
  rewrite <- Hb at 1. rewrite take_app_length, drop_app_length' by done. by rewrite IH.
Qed.

Lemma length_concat_blocks (nblock : nat) (bs : list bytes) : Forall (fun b => length b = nblock) bs -> length (concat bs) = (length bs * nblock)%nat.
Proof. induction 1 as [|b bs Hb Hbs IH]; [done|]. cbn. rewrite length_app, IH. lia. Qed.

Section Absorb.
Context {C : Type} (nblock : nat) (process : C -> bytes -> res C) (step : C -> bytes -> C) (c0 : C).
Hypotheses (Hn : (0 < nblock)%nat) (Hprocess : forall c b, length b = nblock -> process c b = Ok (step c b)).

Lemma absorbed_nil (partial : bytes) : length partial = nblock -> absorbed nblock step c0 [] (partial, O, c0).
Proof. intros. constructor; [done | done |]. by exists []. Qed.

Lemma whole_blocks_spec fuel ctx bufin :
  (length bufin <= fuel)%nat ->
  exists bs r, whole_blocks nblock process process fuel 0 ctx bufin = Ok (foldl step ctx bs, r) /\
    bufin = concat bs ++ r /\ (length r < nblock)%nat /\ Forall (fun b => length b = nblock) bs.
Proof using Hn Hprocess.
  revert ctx bufin. induction fuel as [|fuel IH]; intros ctx bufin Hf; cbn [whole_blocks]; destruct (Nat.ltb_spec (length bufin) nblock) as [Hlt|Hge].
  - by exists [], bufin.
  - lia.
  - by exists [], bufin.
  - cbn [c_assert Nat.eqb res_bind]. assert (Hb : length (take nblock bufin) = nblock) by (rewrite length_take; lia).
    assert (E : (if (length bufin =? nblock)%nat then process else process) ctx (take nblock bufin) = Ok (step ctx (take nblock bufin)))
      by (destruct (_ =? _)%nat; by apply Hprocess).
    rewrite E. cbn [res_bind]. destruct (IH (step ctx (take nblock bufin)) (drop nblock bufin)) as (bs & r & -> & Hr & Hlen & Hbs); [rewrite length_drop; lia|].
    exists (take nblock bufin :: bs), r. split_and!; [done | cbn; by rewrite <- app_assoc, <- Hr, take_drop | done | by constructor].
Qed.

Lemma buffer_rest_spec fuel (partial bufin : bytes) :
  length partial = nblock -> (length bufin < nblock)%nat -> (length bufin <= fuel)%nat ->
  exists partial', buffer_rest nblock fuel partial 0 bufin = Ok (partial', length bufin) /\ length partial' = nblock /\ take (length bufin) partial' = bufin.
Proof.
  intros Hp Hb Hf. destruct (decide (bufin = [])) as [-> | Hne]; [exists partial; by destruct fuel|].
  assert (length bufin <> 0)%nat by (destruct bufin; [done | cbn; lia]).
  destruct fuel as [|fuel]; [lia|]. cbn [buffer_rest]. rewrite (proj2 (Nat.eqb_neq _ _)) by done. rewrite Nat.sub_0_r, Nat.min_r by lia.
  rewrite copy_to_ok by lia. cbn [res_bind Nat.add]. rewrite (proj2 (Nat.ltb_lt _ _)) by lia. cbn [c_assert res_bind].
  rewrite drop_all, firstn_all, take_0. cbn [app]. eexists. split_and!; [by destruct fuel | rewrite length_app, length_drop; lia | by rewrite take_app_length].
Qed.

(** More octets in the buffer, which is then full or not. *)
Lemma absorbed_part msg partial npartial ctx partial' x :
  absorbed nblock step c0 msg (partial, npartial, ctx) -> length partial' = nblock -> (npartial + length x < nblock)%nat ->
  take (npartial + length x) partial' = take npartial partial ++ x -> absorbed nblock step c0 (msg ++ x) (partial', (npartial + length x)%nat, ctx).
Proof.
  intros [Hp Hnp (bs & Hbs & Hmsg & Hctx)] Hlen Hx Ht. cbn in Hmsg, Hctx. constructor; cbn; [done | done |].
  exists bs. split_and!; [done | by rewrite Ht, Hmsg, <- app_assoc | done].
Qed.

Lemma absorbed_full msg partial npartial ctx partial' x :
  absorbed nblock step c0 msg (partial, npartial, ctx) -> length partial' = nblock -> (npartial + length x = nblock)%nat ->
  take (npartial + length x) partial' = take npartial partial ++ x -> absorbed nblock step c0 (msg ++ x) (partial', O, step ctx partial').
Proof.
  intros [Hp Hnp (bs & Hbs & Hmsg & Hctx)] Hlen Hx Ht. cbn in Hnp, Hmsg, Hctx. constructor; cbn; [done | lia |].
  rewrite take_ge in Ht by lia. exists (bs ++ [partial']). split_and!; [apply Forall_app_2; by repeat constructor | |].
  - rewrite concat_app. cbn. rewrite !app_nil_r, Ht. by rewrite Hmsg, <- app_assoc.
  - by rewrite foldl_app, <- Hctx.
Qed.

Lemma fill_partial_spec msg st inp :
  absorbed nblock step c0 msg st ->
  exists st' r, fill_partial nblock process process st inp = Ok (st', r) /\
    exists inp', inp = inp' ++ r /\ absorbed nblock step c0 (msg ++ inp') st' /\ (r = [] \/ st'.1.2 = O).
Proof using Hn Hprocess.
  destruct st as [[partial npartial] ctx]. intros Ha. pose proof Ha as [Hp Hnp _]. cbn in Hp, Hnp. cbn [fill_partial].
  destruct (Nat.eqb_spec npartial 0) as [E0|E0]; [|destruct (Nat.eqb_spec (length inp) 0) as [E1|E1]]; cbn [negb andb].
  - exists (partial, npartial, ctx), inp. split; [done|]. exists []. rewrite (app_nil_r msg). split_and!; [done | done | by right].
  - apply nil_length_inv in E1 as ->. exists (partial, npartial, ctx), []. split; [done|]. exists []. rewrite (app_nil_r msg).
    split_and!; [done | done | by left].
  - set (taken := Nat.min (nblock - npartial) (length inp)). rewrite copy_to_ok by (unfold taken; lia). cbn [res_bind].
    pose proof (length_copied_to partial inp npartial taken ltac:(unfold taken; lia) ltac:(unfold taken; lia)) as Hlen.
    pose proof (take_copied_to partial inp npartial taken ltac:(unfold taken; lia) ltac:(unfold taken; lia)) as Htake.
    set (partial' := take npartial partial ++ _) in *.
    assert (Hx : length (take taken inp) = taken) by (rewrite length_take; unfold taken; lia). rewrite <- Hx in Htake at 1.
    destruct (Nat.eqb_spec (npartial + taken) nblock) as [E2|E2].
    + assert (Hs : (if (length (drop taken inp) =? 0)%nat then process else process) ctx partial' = Ok (step ctx partial'))
        by (destruct (_ =? _)%nat; apply Hprocess; lia).
      rewrite Hs. cbn [res_bind]. do 2 eexists. split; [done|]. exists (take taken inp). split_and!; [by rewrite take_drop | | by right].
      apply (absorbed_full _ _ _ _ _ _ Ha); [lia | lia | done].
    + do 2 eexists. split; [done|]. exists (take taken inp). split_and!; [by rewrite take_drop | | left; apply drop_ge; unfold taken in *; lia].
      replace (npartial + taken)%nat with (npartial + length (take taken inp))%nat by lia. apply (absorbed_part _ _ _ _ _ _ Ha); [lia | unfold taken in *; lia | done].
Qed.

(** [cf_blockwise_accumulate] feeds its input. *)
Lemma accumulate_absorbs msg st inp :
  absorbed nblock step c0 msg st ->
  exists st', cf_blockwise_accumulate nblock process st inp = Ok st' /\ absorbed nblock step c0 (msg ++ inp) st'.
Proof using Hn Hprocess.
  intros Ha. unfold cf_blockwise_accumulate, cf_blockwise_accumulate_final.
  rewrite (proj2 (Nat.ltb_lt _ _)) by apply Ha. cbn [c_assert res_bind].
  destruct (fill_partial_spec msg st inp Ha) as ([[partial npartial] ctx] & r & -> & inp' & -> & Ha' & Hr). cbn [res_bind].
  destruct Hr as [-> | E]; [|cbn in E; subst npartial].
  - exists (partial, npartial, ctx). rewrite app_nil_r. split; [|done].
    assert (W : forall fuel, whole_blocks nblock process process fuel npartial ctx [] = Ok (ctx, []))
      by (intros [|fuel]; cbn [whole_blocks]; by rewrite (proj2 (Nat.ltb_lt _ _)) by (cbn; lia)).
    rewrite W. cbn [res_bind]. by destruct (length inp').
  - destruct Ha' as [Hp Hnp (bs & Hbs & Hmsg & Hctx)]. cbn in Hp, Hnp, Hmsg, Hctx.
    destruct (whole_blocks_spec (length (inp' ++ r)) ctx r) as (bs' & r' & -> & Hr & Hr' & Hbs'); [rewrite length_app; lia|]. cbn [res_bind].
    destruct (buffer_rest_spec (length (inp' ++ r)) partial r') as (partial' & -> & Hlen & Htake); [done | done | rewrite Hr, !length_app; lia|].
    cbn [res_bind]. eexists. split; [done|]. constructor; cbn; [done | done |]. exists (bs ++ bs'). split_and!; [by apply Forall_app_2 | |].
    + rewrite app_assoc, Hmsg, Htake, concat_app, Hr. rewrite app_nil_r. by rewrite app_assoc.
    + by rewrite foldl_app, <- Hctx.
Qed.

Lemma acc_byte_loop_absorbs fuel filled msg st byte nbytes :
  absorbed nblock step c0 msg st -> (filled = true -> st.1.1 = replicate nblock byte) -> (nbytes <= fuel)%nat ->
  exists st', acc_byte_loop nblock process fuel filled st byte nbytes = Ok st' /\ absorbed nblock step c0 (msg ++ replicate nbytes byte) st'.
Proof using Hn Hprocess.
  revert filled msg st nbytes. induction fuel as [|fuel IH]; intros filled msg st nbytes Ha Hfill Hf; cbn [acc_byte_loop].
  - assert (nbytes = O) as -> by lia. exists st. by rewrite app_nil_r.
  - destruct (Nat.eqb_spec nbytes 0) as [-> | Hne]; [exists st; by rewrite app_nil_r|].
    destruct st as [[partial start] ctx]. pose proof Ha as [Hp Hnp _]. cbn in Hp, Hnp, Hfill. set (count := Nat.min nbytes (nblock - start)).
    assert (Hstep : exists partial', (if negb filled then memset_to partial start byte count else Ok partial) = Ok partial' /\
      length partial' = nblock /\ take (start + count) partial' = take start partial ++ replicate count byte /\ (filled = true -> partial' = replicate nblock byte)).
    { destruct filled; cbn [negb].
      - exists partial. specialize (Hfill eq_refl). split_and!; [done | done | | done].
        rewrite Hfill, !take_replicate, <- replicate_add. f_equal. unfold count. lia.
      - unfold memset_to. rewrite copy_to_ok by (rewrite ?length_replicate; unfold count; lia). eexists.
        split_and!; [done | rewrite length_copied_to; [done | unfold count; lia | by rewrite length_replicate] | | done].
        rewrite take_copied_to by (rewrite ?length_replicate; unfold count; lia). rewrite (take_ge (replicate _ _)); [done | by rewrite length_replicate]. }
    destruct Hstep as (partial' & -> & Hlen & Htake & Hfill'). cbn [res_bind].
    assert (Hfull : (if (start =? 0)%nat && (count =? nblock)%nat then true else filled) = true -> partial' = replicate nblock byte).
    { destruct (Nat.eqb_spec start 0) as [-> |], (Nat.eqb_spec count nblock) as [E|]; cbn [andb]; try done.
      intros _. rewrite Nat.add_0_l, take_0, E in Htake. by rewrite take_ge in Htake by lia. }
    set (filled' := if _ && _ then true else filled) in *.
    assert (Hx : count = length (replicate count byte)) by (by rewrite length_replicate). rewrite Hx in Htake at 1.
    replace (replicate nbytes byte) with (replicate count byte ++ replicate (nbytes - count) byte) by (rewrite <- replicate_add; f_equal; unfold count; lia).
    rewrite app_assoc. destruct (Nat.eqb_spec (start + count) nblock) as [E|E].
    + rewrite Hprocess by done. cbn [res_bind]. apply IH; [|done | unfold count; lia].
      apply (absorbed_full _ _ _ _ _ _ Ha); [done | lia | done].
    + apply IH; [|done | unfold count; lia]. replace (start + count)%nat with (start + length (replicate count byte))%nat by lia. apply (absorbed_part _ _ _ _ _ _ Ha); [done | unfold count in *; lia | done].
Qed.

(** [cf_blockwise_acc_pad] feeds a first octet, middle octets and a last one. *)
Definition padding (fbyte mbyte lbyte : Z) (nbytes : nat) : bytes :=
  match nbytes with
  | O => []
  | 1%nat => [u8 (Z.lxor fbyte lbyte)]
  | S (S n) => fbyte :: replicate n mbyte ++ [lbyte]
  end.

Lemma acc_pad_absorbs msg st fbyte mbyte lbyte nbytes :
  absorbed nblock step c0 msg st ->
  exists st', cf_blockwise_acc_pad nblock process st fbyte mbyte lbyte nbytes = Ok st' /\ absorbed nblock step c0 (msg ++ padding fbyte mbyte lbyte nbytes) st'.
Proof using Hn Hprocess.
  intros Ha. destruct nbytes as [|[|n]]; [exists st; by rewrite app_nil_r | by apply accumulate_absorbs|].
  destruct (accumulate_absorbs msg st [fbyte] Ha) as (st1 & E1 & Ha1). cbn [padding].
  destruct n as [|n].
  - cbn [cf_blockwise_acc_pad replicate app]. rewrite E1. cbn [res_bind]. destruct (accumulate_absorbs _ st1 [lbyte] Ha1) as (st2 & E2 & Ha2).
    exists st2. split; [done|]. by rewrite <- app_assoc in Ha2.
  - cbn [cf_blockwise_acc_pad]. rewrite E1. cbn [res_bind]. rewrite cons_middle, app_assoc.
    destruct (Z.eqb_spec lbyte mbyte) as [-> | Hne]; cbn [negb].
    + destruct (acc_byte_loop_absorbs (S (S n)) false _ st1 mbyte (S (S n)) Ha1) as (st2 & E2 & Ha2); [done | done|].
      exists st2. split; [exact E2|]. by rewrite <- replicate_cons_app.
    + destruct (acc_byte_loop_absorbs (S n) false _ st1 mbyte (S n) Ha1) as (st2 & E2 & Ha2); [done | done|].
      unfold cf_blockwise_acc_byte. replace (S (S (S n)) - 2)%nat with (S n) by lia. rewrite E2. cbn [res_bind].
      destruct (accumulate_absorbs _ st2 [lbyte] Ha2) as (st3 & E3 & Ha3). exists st3. split; [done|]. by rewrite <- (app_assoc _ (replicate _ _)) in Ha3.
Qed.

(** The context and the buffered rest are determined by what was fed. *)
Lemma absorbed_inv msg st :
  absorbed nblock step c0 msg st ->
  st.1.2 = (length msg mod nblock)%nat /\ st.2 = foldl step c0 (blocks_of nblock (length msg / nblock) msg) /\
  take st.1.2 st.1.1 = drop (length msg / nblock * nblock) msg.
Proof.
  intros [Hp Hnp (bs & Hbs & Hmsg & Hctx)]. pose proof (length_concat_blocks _ _ Hbs) as Hl.
  assert (Ht : length (take st.1.2 st.1.1) = st.1.2) by (rewrite length_take; lia).
  assert (Hlm : length msg = (st.1.2 + length bs * nblock)%nat) by (rewrite Hmsg, length_app; lia).
  rewrite Hlm, Nat.Div0.mod_add, Nat.mod_small, Nat.div_add, Nat.div_small by lia. cbn [Nat.add].
  split_and!; [done | by rewrite Hmsg, blocks_of_concat | by rewrite Hmsg, <- Hl, drop_app_length].
Qed.
End Absorb.

(** ** Key streams *)

(** [input] combined with the octets of [stream] from [pos] on. *)
Definition xor_stream (stream : nat -> Z) (pos : nat) (input : bytes) : bytes := imap (fun j b => u8 (Z.lxor b (stream (pos + j)%nat))) input.

Lemma xor_stream_app s p x y : xor_stream s p (x ++ y) = xor_stream s p x ++ xor_stream s (p + length x) y.
Proof.
  unfold xor_stream. rewrite imap_app. f_equal. apply imap_ext. intros i b _. unfold compose. by rewrite Nat.add_assoc.
Qed.

Lemma length_xor_stream s p x : length (xor_stream s p x) = length x.
Proof. apply length_imap. Qed.

Lemma xor_bb_stream s p (x y : bytes) n :
  (n <= length x)%nat -> (forall i, (i < n)%nat -> y !! i = Some (s (p + i)%nat)) -> xor_bb x y n = Ok (xor_stream s p (take n x)).
Proof.
  revert p x y. induction n as [|n IH]; intros p x y Hx Hy; [done|]. destruct x as [|a x]; [cbn in Hx; lia|].
  pose proof (Hy O ltac:(lia)) as H0. destruct y as [|b y]; [done|]. injection H0 as ->. cbn [xor_bb].
  rewrite (IH (S p)); [| cbn in Hx; lia | intros i Hi; replace (S p + i)%nat with (p + S i)%nat by lia; apply (Hy (S i)); lia].
  cbn [res_bind take]. f_equal. unfold xor_stream. cbn [imap]. f_equal. apply imap_ext. intros j c _. unfold compose. by replace (p + S j)%nat with (S p + j)%nat by lia.
Qed.

Section Keystream.
Context {C : Type} (nblock : nat) (process : C -> res (bytes * C)) (block : nat -> bytes) (state : nat -> C).
Hypotheses (Hn : (0 < nblock)%nat) (Hlen : forall k, length (block k) = nblock) (Hprocess : forall k, process (state k) = Ok (block k, state (S k))).

(** Octet [i] of the blocks produced one after the other. *)
Definition keystream (i : nat) : Z := default 0 (block (i / nblock)%nat !! (i mod nblock)%nat).

(** [pos] octets of the stream have been used. *)
Record streaming (pos : nat) (st : bytes * nat * C) : Prop := {
  streaming_npartial : (st.1.2 < nblock)%nat;
  streaming_state : exists k, st.2 = state k /\ (pos + st.1.2 = k * nblock)%nat /\ (st.1.2 = O \/ (exists j, k = S j /\ st.1.1 = block j))
}.

Lemma keystream_at j i : (i < nblock)%nat -> block j !! i = Some (keystream (j * nblock + i)).
Proof using Hn Hlen.
  intros Hi. unfold keystream. rewrite Nat.add_comm, Nat.div_add, Nat.div_small, Nat.Div0.mod_add, Nat.mod_small by lia. cbn [Nat.add].
  destruct (lookup_lt_is_Some_2 (block j) i) as [b ->]; [by rewrite Hlen | done].
Qed.

(** The buffer is refilled when it is empty. *)
Lemma streaming_refill pos partial npartial ctx :
  streaming pos (partial, npartial, ctx) ->
  exists n j, (if (npartial =? 0)%nat then let! '(partial, ctx) := process ctx in Ok (partial, nblock, ctx) else Ok (partial, npartial, ctx)) =
      Ok (block j, n, state (S j)) /\ (0 < n <= nblock)%nat /\ pos = (j * nblock + (nblock - n))%nat.
Proof using Hn Hprocess.
  intros [Hnp (k & Hk & Hpos & Hpart)]. cbn in Hnp, Hk, Hpos, Hpart. subst ctx. destruct (Nat.eqb_spec npartial 0) as [-> | Hne].
  - rewrite Hprocess. cbn [res_bind]. exists nblock, k. split_and!; [done | lia | lia | lia].
  - destruct Hpart as [? | (j & -> & ->)]; [lia|]. exists npartial, j. split_and!; [done | lia | lia | nia].
Qed.

Lemma blockwise_xor_loop_streams fuel pos st inb :
  streaming pos st -> (length inb <= fuel)%nat ->
  exists st', blockwise_xor_loop nblock process fuel st inb = Ok (xor_stream keystream pos inb, st') /\ streaming (pos + length inb) st'.
Proof using Hn Hlen Hprocess.
  revert pos st inb. induction fuel as [|fuel IH]; intros pos st inb Hst Hf; cbn [blockwise_xor_loop]; destruct (Nat.eqb_spec (length inb) 0) as [E|E].
  - apply nil_length_inv in E as ->. exists st. by rewrite Nat.add_0_r.
  - lia.
  - apply nil_length_inv in E as ->. exists st. by rewrite Nat.add_0_r.
  - destruct st as [[partial npartial] ctx]. destruct (streaming_refill _ _ _ _ Hst) as (n & j & -> & Hnn & Hpos). cbn [res_bind].
    set (taken := Nat.min n (length inb)). assert (Ht : length (take taken inb) = taken) by (rewrite length_take; unfold taken; lia).
    rewrite (xor_bb_stream keystream pos).
    2: unfold taken; lia.
    2: { intros i Hi. rewrite lookup_drop, keystream_at by (unfold taken in *; lia). do 2 f_equal. lia. }
    cbn [res_bind]. destruct (IH (pos + taken)%nat (block j, (n - taken)%nat, state (S j)) (drop taken inb)) as (st' & -> & Hst').
    + constructor; cbn; [unfold taken; lia|]. exists (S j). split_and!; [done | unfold taken; nia |]. right. by exists j.
    + rewrite length_drop. unfold taken. lia.
    + cbn [res_bind]. exists st'. split.
      * do 2 f_equal. rewrite <- (take_drop taken inb) at 3. by rewrite xor_stream_app, Ht.
      * rewrite length_drop in Hst'. replace (pos + length inb)%nat with (pos + taken + (length inb - taken))%nat by (unfold taken; lia). done.
Qed.

(** [cf_blockwise_xor] combines its input with the next octets of the key stream. *)
Lemma xor_streams pos st inp :
  streaming pos st -> exists st', cf_blockwise_xor nblock process st inp = Ok (xor_stream keystream pos inp, st') /\ streaming (pos + length inp) st'.
Proof using Hn Hlen Hprocess.
  intros Hst. unfold cf_blockwise_xor. rewrite (proj2 (Nat.ltb_lt _ _)) by apply Hst. cbn [c_assert res_bind].
  by apply blockwise_xor_loop_streams.
Qed.
End Keystream.

Lemma keystream_byte nblock (block : nat -> bytes) i : (forall k, is_bytes (block k)) -> is_byte (keystream nblock block i).
Proof. intros Hb. unfold keystream. destruct (_ !! _) as [b|] eqn:E; cbn; [|done]. by eapply is_bytes_lookup. Qed.
