(* ===== verification/Bitops.v ===== *)
(** * Bitops: table look-ups without branches, counters and words as octets

    The functions of [src/deps/cifra/src/bitops.h] that AES and GCM use, beside those in
    [Blockwise]: selection of a table entry by masks, the big-endian counter. The
    second part relates bit operations on words to operations on their octets. *)
From S2P Require Import Prelude Blockwise.

(** ** bitops.h *)

(** All ones if [x == y], else zero. The [uint8_t] keeps the low octet of the
    difference test: right for values below 2^8 only. *)
Definition mask_u8 (x y : Z) : Z :=
  let diff := Z.lxor x y in
  let diff_is_zero := u8 (Z.land (u32 (Z.lnot diff)) (u32 (diff - 1))) in
  u8 (- Z.shiftr diff_is_zero 7).

Definition masked (mask r item : Z) : Z := u8 (Z.lor (Z.land r (Z.lnot mask)) (Z.land item mask)).

(** [tab] has the [n] entries the C functions are told about; [ii] counts them. *)
Fixpoint select_u8_loop (i : Z) (tab : bytes) (ii r : Z) : Z :=
  match tab with
  | [] => r
  | item :: tab => select_u8_loop i tab (ii + 1) (masked (mask_u8 i ii) r item)
  end.
Definition select_u8 (i : Z) (tab : bytes) : Z := select_u8_loop i tab 0 0.

Fixpoint select_u8x4_loop (a b c d : Z) (tab : bytes) (i ra rb rc rd : Z) : Z * Z * Z * Z :=
  match tab with
  | [] => (ra, rb, rc, rd)
  | item :: tab =>
      select_u8x4_loop a b c d tab (i + 1) (masked (mask_u8 a i) ra item) (masked (mask_u8 b i) rb item)
        (masked (mask_u8 c i) rc item) (masked (mask_u8 d i) rd item)
  end.
Definition select_u8x4 (a b c d : Z) (tab : bytes) : Z * Z * Z * Z := select_u8x4_loop a b c d tab 0 0 0 0 0.

(** [out ^= if0 or if1] on four words. *)
Definition select_xor128 (out if0 if1 : list Z) (bit : Z) : list Z :=
  let mask1 := mask_u32 bit 1 in
  let mask0 := u32 (Z.lnot mask1) in
  zip_with Z.lxor out (zip_with (fun x y => Z.lor (Z.land x mask0) (Z.land y mask1)) if0 if1).

(** [incr_be(v + off, len)], [len] not 0. *)
Fixpoint incr_be_loop (len : nat) (v : bytes) (off : nat) : res bytes :=
  let! b := rd v (off + len) in
  let b := u8 (b + 1) in
  let v := <[(off + len)%nat := b]> v in
  if negb (b =? 0) then Ok v
  else match len with
  | O => Ok v
  | S len => incr_be_loop len v off
  end.
Definition incr_be (v : bytes) (off len : nat) : res bytes :=
  match len with
  | O => Stuck OutOfBounds
  | S len => incr_be_loop len v off
  end.

(** ** Selection *)

(** A property of all octets, by enumeration. *)
Lemma byte_forall (P : Z -> bool) b : forallb P (map Z.of_nat (seq 0 256)) = true -> is_byte b -> P b = true.
Proof.
  intros H Hb. rewrite forallb_forall in H. apply H. unfold is_byte in Hb. apply in_map_iff. exists (Z.to_nat b). split; [lia|]. apply in_seq. lia.
Qed.

Lemma mask_u8_spec x y : is_byte x -> is_byte y -> mask_u8 x y = if x =? y then 255 else 0.
Proof.
  intros Hx Hy. pose (f := fun diff => u8 (- Z.shiftr (u8 (Z.land (u32 (Z.lnot diff)) (u32 (diff - 1)))) 7)).
  change (mask_u8 x y) with (f (Z.lxor x y)).
  assert (E : (f (Z.lxor x y) =? (if Z.lxor x y =? 0 then 255 else 0)) = true).
  { apply (byte_forall (fun d => f d =? (if d =? 0 then 255 else 0))); [by vm_compute | by apply lxor_byte]. }
  apply Z.eqb_eq in E. rewrite E. destruct (Z.eqb_spec x y) as [->|Hne]; [by rewrite Z.lxor_nilpotent|].
  destruct (Z.eqb_spec (Z.lxor x y) 0) as [H0|]; [|done]. by apply Z.lxor_eq in H0.
Qed.

Lemma masked_all r item : is_byte r -> is_byte item -> masked 255 r item = item.
Proof.
  intros Hr Hi. unfold masked. change (Z.lnot 255) with (- 2 ^ 8). change 255 with (Z.ones 8). rewrite (Z.land_ones item) by lia.
  rewrite (Z.mod_small item) by done. replace (Z.land r (- 2 ^ 8)) with 0; [by rewrite Z.lor_0_l, u8_id|].
  symmetry. apply Z.bits_inj'. intros i Hn. rewrite Z.land_spec, Z.bits_0. destruct (decide (i < 8)).
  - change (- 2 ^ 8) with (Z.lnot (Z.ones 8)). rewrite Z.lnot_spec, Z.ones_spec_low by lia. apply andb_false_r.
  - by rewrite (testbit_high r 8) by (done || lia).
Qed.

Lemma masked_none r item : is_byte r -> masked 0 r item = r.
Proof. intros Hr. unfold masked. rewrite Z.land_0_r, Z.lor_0_r, Z.land_m1_r. by rewrite u8_id. Qed.

Lemma select_u8_loop_spec i tab ii r :
  is_byte i -> is_byte r -> is_bytes tab -> 0 <= ii -> ii + Z.of_nat (length tab) <= 256 ->
  select_u8_loop i tab ii r = if (ii <=? i) && (i <? ii + Z.of_nat (length tab)) then tab !!! Z.to_nat (i - ii) else r.
Proof.
  intros Hi. revert ii r. induction tab as [|item tab IH]; intros ii r Hr Ht Hii Hlen; cbn [select_u8_loop length] in *.
  - destruct (Z.leb_spec ii i), (Z.ltb_spec i (ii + Z.of_nat 0)); cbn; done || lia.
  - apply Forall_cons_1 in Ht as [Hitem Ht]. rewrite mask_u8_spec by (done || unfold is_byte; lia).
    destruct (Z.eqb_spec i ii) as [-> |Hne].
    + rewrite masked_all, IH by (done || lia). rewrite (proj2 (Z.leb_gt _ _)) by lia. cbn [andb].
      rewrite Z.leb_refl, (proj2 (Z.ltb_lt _ _)), Z.sub_diag by lia. done.
    + rewrite masked_none, IH by (done || lia). destruct (Z.leb_spec (ii + 1) i), (Z.leb_spec ii i); try lia; cbn [andb]; [|done].
      replace (ii + Z.of_nat (S (length tab))) with (ii + 1 + Z.of_nat (length tab)) by lia. destruct (_ <? _); [|done].
      replace (Z.to_nat (i - ii)) with (S (Z.to_nat (i - (ii + 1)))) by lia. done.
Qed.

Lemma select_u8_spec i tab :
  is_byte i -> is_bytes tab -> i < Z.of_nat (length tab) <= 256 -> select_u8 i tab = tab !!! Z.to_nat i.
Proof.
  intros Hi Ht Hl. unfold select_u8. rewrite select_u8_loop_spec by (done || lia).
  unfold is_byte in Hi. rewrite (proj2 (Z.leb_le _ _)), (proj2 (Z.ltb_lt _ _)) by lia. cbn [andb]. by rewrite Z.sub_0_r.
Qed.

Lemma select_u8x4_spec a b c d tab :
  select_u8x4 a b c d tab = (select_u8 a tab, select_u8 b tab, select_u8 c tab, select_u8 d tab).
Proof.
  unfold select_u8x4, select_u8.
  assert (H : forall i ra rb rc rd, select_u8x4_loop a b c d tab i ra rb rc rd =
    (select_u8_loop a tab i ra, select_u8_loop b tab i rb, select_u8_loop c tab i rc, select_u8_loop d tab i rd)); [|intros; apply H].
  induction tab as [|item tab IH]; intros; cbn [select_u8x4_loop select_u8_loop]; [done | apply IH].
Qed.

(** ** The counter *)

Lemma be_snoc n v : be (S n) v = be n (v / 2 ^ 8) ++ [u8 v].
Proof. rewrite <- Nat.add_1_r, be_app. cbn [be]. by rewrite Z.shiftr_0_r, Z.shiftr_div_pow2 by lia. Qed.

Lemma of_be_snoc l b : is_byte b -> of_be (l ++ [b]) = of_be l * 2 ^ 8 + b.
Proof. intros Hb. unfold of_be. rewrite foldl_app. by apply be_step_add. Qed.

Lemma incr_be_loop_eq len pre x b post :
  length x = len ->
  incr_be_loop len (pre ++ x ++ b :: post) (length pre) =
    let v := pre ++ x ++ u8 (b + 1) :: post in
    if negb (u8 (b + 1) =? 0) then Ok v else match len with O => Ok v | S len => incr_be_loop len v (length pre) end.
Proof.
  intros <-.
  assert (Hat : (pre ++ x ++ b :: post) !! (length pre + length x)%nat = Some b)
    by (rewrite lookup_app_r, Nat.add_comm, Nat.add_sub, lookup_app_r, Nat.sub_diag by lia; done).
  assert (Hins : forall b', <[(length pre + length x)%nat := b']> (pre ++ x ++ b :: post) = pre ++ x ++ b' :: post)
    by (intros; rewrite insert_app_r; f_equal; rewrite <- (Nat.add_0_r (length x)) at 1; by rewrite insert_app_r).
  destruct (length x) as [|n] eqn:E; cbn [incr_be_loop]; rewrite (rd_at _ _ _ Hat); cbn [res_bind]; by rewrite Hins.
Qed.

Lemma incr_be_loop_spec len pre x b post :
  is_bytes x -> is_byte b -> length x = len ->
  incr_be_loop len (pre ++ x ++ b :: post) (length pre) = Ok (pre ++ be (S len) (of_be (x ++ [b]) + 1) ++ post).
Proof.
  revert x b post. induction len as [|len IH]; intros x b post Hx Hb Hl; rewrite incr_be_loop_eq by done; cbv zeta; rewrite of_be_snoc by done.
  - apply nil_length_inv in Hl as ->. cbn [app]. change (of_be []) with 0. rewrite Z.mul_0_l, Z.add_0_l. change (be 1 (b + 1)) with [u8 (Z.shiftr (b + 1) 0)].
    rewrite Z.shiftr_0_r. by destruct (_ =? 0).
  - rewrite be_snoc. unfold is_byte in Hb. destruct (Z.eqb_spec (u8 (b + 1)) 0) as [E|E]; cbn [negb].
    + assert (b = 255) as -> by (unfold u8 in E; modlia). destruct x as [|y x _] using rev_ind; [done|].
      apply Forall_app in Hx as [Hx Hy]. apply Forall_cons_1 in Hy as [Hy _]. rewrite length_app in Hl. cbn [length] in Hl.
      rewrite <- (app_assoc x). cbn [app]. rewrite IH by (done || lia). rewrite E, <- !app_assoc. cbn [app].
      replace ((of_be (x ++ [y]) * 2 ^ 8 + 255 + 1) / 2 ^ 8) with (of_be (x ++ [y]) + 1) by modlia.
      replace (u8 (of_be (x ++ [y]) * 2 ^ 8 + 255 + 1)) with 0 by (unfold u8; modlia). done.
    + assert (Hb' : b + 1 < 256) by (assert (b <> 255) by (intros ->; by vm_compute in E); lia).
      replace ((of_be x * 2 ^ 8 + b + 1) / 2 ^ 8) with (of_be x) by modlia.
      replace (u8 (of_be x * 2 ^ 8 + b + 1)) with (b + 1) by (unfold u8; modlia).
      rewrite u8_id by (unfold is_byte; lia). rewrite <- Hl, be_of_be by done. by rewrite <- app_assoc.
Qed.

Lemma incr_be_spec pre x post :
  is_bytes x -> x <> [] -> incr_be (pre ++ x ++ post) (length pre) (length x) = Ok (pre ++ be (length x) (of_be x + 1) ++ post).
Proof.
  intros Hx Hne. destruct x as [|b x _] using rev_ind; [done|]. rewrite length_app, Nat.add_1_r. cbn [incr_be]. rewrite <- !app_assoc. cbn [app].
  apply Forall_app in Hx as [Hx Hb]. apply Forall_cons_1 in Hb as [Hb _]. by apply incr_be_loop_spec.
Qed.

(** ** Bit operations octet by octet *)

(** [be_step] for digits of [k] bits. *)
Definition shift_in (k acc b : Z) : Z := Z.lor (Z.shiftl acc k) b.

Section Bitwise.
Context (k : Z) (Hk : 0 <= k).
Notation digit b := (0 <= b < 2 ^ k).

Lemma shift_in_testbit a b n : digit b -> 0 <= n -> Z.testbit (shift_in k a b) n = if n <? k then Z.testbit b n else Z.testbit a (n - k).
Proof using Hk.
  intros Hb Hn. unfold shift_in. rewrite Z.lor_spec. destruct (Z.ltb_spec n k).
  - by rewrite Z.shiftl_spec_low.
  - rewrite Z.shiftl_spec, (testbit_high b k) by (done || lia). apply orb_false_r.
Qed.

Context (op : Z -> Z -> Z) (f : bool -> bool -> bool).
Hypotheses (Hop : forall x y n, Z.testbit (op x y) n = f (Z.testbit x n) (Z.testbit y n)) (Hdigit : forall a b, digit a -> digit b -> digit (op a b)).

Lemma foldl_bitwise x y l l' :
  Forall (fun b => digit b) l -> Forall (fun b => digit b) l' -> length l = length l' ->
  op (foldl (shift_in k) x l) (foldl (shift_in k) y l') = foldl (shift_in k) (op x y) (zip_with op l l').
Proof using Hk Hop Hdigit.
  intros Hl. revert x y l'. induction Hl as [|b l Hb Hl IH]; intros x y l' Hl' E; destruct l' as [|b' l']; try done.
  apply Forall_cons_1 in Hl' as [Hb' Hl']. cbn [foldl zip_with]. rewrite IH by (done || (cbn in E; lia)). f_equal.
  apply Z.bits_inj'. intros n Hn. rewrite Hop, !shift_in_testbit by auto. destruct (_ <? _); by rewrite Hop.
Qed.
End Bitwise.

Lemma of_be_lxor l l' : is_bytes l -> is_bytes l' -> length l = length l' -> Z.lxor (of_be l) (of_be l') = of_be (zip_with Z.lxor l l').
Proof. apply (foldl_bitwise 8 ltac:(lia) Z.lxor xorb Z.lxor_spec lxor_byte). Qed.

Lemma of_be_land l l' : is_bytes l -> is_bytes l' -> length l = length l' -> Z.land (of_be l) (of_be l') = of_be (zip_with Z.land l l').
Proof. apply (foldl_bitwise 8 ltac:(lia) Z.land andb Z.land_spec land_byte). Qed.

Lemma of_be_scale k l : is_bytes l -> is_bytes (map (Z.mul k) l) -> of_be (map (Z.mul k) l) = k * of_be l.
Proof.
  induction 1 as [|b l Hb Hl IH]; intros Hk; cbn [map] in *; [change (of_be []) with 0; lia|]. apply Forall_cons_1 in Hk as [Hkb Hk].
  rewrite !of_be_cons, length_map, IH by done. ring.
Qed.

(** ** Words of four octets *)

Lemma of_be4 a b c d : is_bytes [a; b; c; d] -> of_be [a; b; c; d] = ((a * 2 ^ 8 + b) * 2 ^ 8 + c) * 2 ^ 8 + d.
Proof.
  intros H. repeat (apply Forall_cons_1 in H as [? H]). rewrite !of_be_cons by (solve_bytes). cbn [length]. change (of_be []) with 0. lia.
Qed.

(** [word4] and [byte] of aes.c *)
Lemma shifted_word a b c d :
  is_bytes [a; b; c; d] ->
  Z.lor (Z.lor (Z.lor (u32 (Z.shiftl a 24)) (u32 (Z.shiftl b 16))) (u32 (Z.shiftl c 8))) d = of_be [a; b; c; d].
Proof.
  intros H. repeat (apply Forall_cons_1 in H as [? H]). unfold is_byte, u32 in *. rewrite !Z.mod_small by (rewrite Z.shiftl_mul_pow2; lia).
  unfold of_be, be_step. cbn [foldl]. rewrite !Z.shiftl_lor, !Z.shiftl_shiftl, Z.shiftl_0_l, Z.lor_0_l by lia. done.
Qed.
