(* ===== verification/Limbs.v ===== *)
(** * Limbs: long integers as lists of words

    The arithmetic of [curve25519.tweetnacl.c] and of [uECC.c] represents integers as
    arrays of words, least significant first.  [lval w l] is the integer that the words
    [l] of [w] bits represent; the words of an intermediate result may be negative or
    larger than [2 ^ w].  Signed arithmetic of 64 bits is checked: an overflow, which C
    gives no meaning to, is a fault. *)
From S2P Require Import Prelude.

Definition lval (w : Z) (l : list Z) : Z := foldr (fun x v => x + 2 ^ w * v) 0 l.
Notation is_limb w := (fun x => 0 <= x < 2 ^ w).

(** An expression of type [int64_t] *)
Definition i64 (x : Z) : res Z := if (- 2 ^ 63 <=? x) && (x <? 2 ^ 63) then Ok x else Stuck SignedOverflow.

Lemma i64_ok x : - 2 ^ 63 <= x < 2 ^ 63 -> i64 x = Ok x.
Proof. intros H. unfold i64. by rewrite (proj2 (Z.leb_le _ _)), (proj2 (Z.ltb_lt _ _)) by lia. Qed.

Lemma rd_ok l i x : l !! i = Some x -> rd l i = Ok x.
Proof. intros H. unfold rd. by rewrite H. Qed.

Section Radix.
Context (w : Z) (Hw : 0 < w).
Notation B := (2 ^ w).

Lemma lval_cons x l : lval w (x :: l) = x + B * lval w l.
Proof. done. Qed.

Lemma radix_app n m : B ^ Z.of_nat (n + m) = B ^ Z.of_nat n * B ^ Z.of_nat m.
Proof. by rewrite Nat2Z.inj_add, Z.pow_add_r by lia. Qed.

Lemma radix_S n : B ^ Z.of_nat (S n) = B * B ^ Z.of_nat n.
Proof. change (S n) with (1 + n)%nat. rewrite (radix_app 1 n). f_equal. apply Z.pow_1_r. Qed.

Lemma radix_pos n : 0 < B ^ Z.of_nat n.
Proof. apply Z.pow_pos_nonneg; [apply Z.pow_pos_nonneg|]; lia. Qed.

Lemma lval_app a b : lval w (a ++ b) = lval w a + B ^ Z.of_nat (length a) * lval w b.
Proof.
  induction a as [|x a IH]; cbn [app length]; [cbn [lval foldr]; lia|]. rewrite !lval_cons, IH, radix_S. ring.
Qed.

Lemma lval_replicate n : lval w (replicate n 0) = 0.
Proof. induction n as [|n IH]; [done|]. cbn [replicate]. rewrite lval_cons, IH. lia. Qed.

Lemma lval_bound l : Forall (is_limb w) l -> 0 <= lval w l < B ^ Z.of_nat (length l).
Proof.
  induction 1 as [|x l Hx _ IH]; [done|]. rewrite lval_cons. cbn [length]. rewrite radix_S. pose proof (radix_pos (length l)). nia.
Qed.

(** An array element is written. *)
Lemma lval_insert l i x y : l !! i = Some x -> lval w (<[i := y]> l) = lval w l + (y - x) * B ^ Z.of_nat i.
Proof.
  revert i. induction l as [|z l IH]; [done|]. intros [|i] Hl.
  - injection Hl as ->. cbn [insert list_insert]. rewrite !lval_cons, Z.pow_0_r. lia.
  - change (<[S i := y]> (z :: l)) with (z :: <[i := y]> l). rewrite !lval_cons, radix_S. rewrite (IH i Hl). ring.
Qed.

Lemma lval_inj a b : Forall (is_limb w) a -> Forall (is_limb w) b -> length a = length b -> lval w a = lval w b -> a = b.
Proof.
  intros Ha. revert b. induction Ha as [|x a Hx Ha IH]; intros b Hb Hl; destruct Hb as [|y b Hy Hb]; try done. injection Hl as Hl. rewrite !lval_cons. intros H.
  assert (E : lval w a = lval w b) by (destruct (Z.lt_trichotomy (lval w a) (lval w b)) as [?|[?|?]]; nia).
  assert (x = y) as -> by nia. f_equal. by apply IH.
Qed.

Lemma lval_scale c l : lval w (map (Z.mul c) l) = c * lval w l.
Proof. induction l as [|x l IH]; [cbn; lia|]. cbn [map]. rewrite !lval_cons, IH. ring. Qed.

Lemma lval_zip f s a b : (forall x y, f x y = x + s * y) -> length a = length b -> lval w (zip_with f a b) = lval w a + s * lval w b.
Proof.
  intros Hf. revert b. induction a as [|x a IH]; intros [|y b] Hl; try done; [cbn; lia|]. injection Hl as Hl.
  cbn [zip_with]. rewrite !lval_cons, (IH b Hl), Hf. ring.
Qed.

(** A bit of the integer is a bit of a word. *)
Lemma lval_testbit l k x j :
  Forall (is_limb w) l -> l !! k = Some x -> 0 <= j < w -> Z.testbit (lval w l) (w * Z.of_nat k + j) = Z.testbit x j.
Proof.
  intros Hl. revert k. induction Hl as [|y l Hy Hl IH]; [done|]. intros k Hk Hj. rewrite lval_cons, Z.add_comm, Z.mul_comm, <- lor_shiftl_add, Z.lor_spec by lia.
  destruct k as [|k].
  - injection Hk as ->. rewrite Z.mul_0_r, Z.add_0_l, Z.shiftl_spec_low by lia. done.
  - rewrite Z.shiftl_spec_high, (testbit_high y w), orb_false_r by (rewrite ?Nat2Z.inj_succ; nia). rewrite <- (IH k) by done. f_equal. rewrite Nat2Z.inj_succ. ring.
Qed.

Lemma lval_top l n x : Forall (is_limb w) l -> length l = S n -> l !! n = Some x -> lval w l / B ^ Z.of_nat n = x.
Proof.
  intros Hl Hn Hx. rewrite <- (take_drop n l), (drop_S _ _ _ Hx), (drop_ge l) by lia. rewrite lval_app, length_take, Nat.min_l by lia.
  pose proof (lval_bound _ (Forall_take _ n l Hl)) as H. rewrite length_take, Nat.min_l in H by lia. cbn [lval foldr].
  symmetry. apply Z.div_unique_pos with (r := lval w (take n l)); [done | ring].
Qed.
End Radix.

Lemma of_le_lval l : of_le l = lval 8 l.
Proof. induction l as [|b l IH]; [done|]. cbn [of_le]. by rewrite IH, lval_cons. Qed.

(** ** Arrays in the middle of a loop *)

Lemma lookup_mid {A} (d r : list A) x : (d ++ x :: r) !! length d = Some x.
Proof. by apply list_lookup_middle. Qed.
Lemma lookup_mid1 {A} (d r : list A) x y : (d ++ x :: y :: r) !! (length d + 1)%nat = Some y.
Proof. rewrite lookup_app_r by lia. by replace (length d + 1 - length d)%nat with 1%nat by lia. Qed.
Lemma insert_mid {A} (d r : list A) x z : <[length d := z]> (d ++ x :: r) = d ++ z :: r.
Proof. rewrite insert_app_r_alt by lia. by rewrite Nat.sub_diag. Qed.
Lemma insert_mid1 {A} (d r : list A) x y z : <[(length d + 1)%nat := z]> (d ++ x :: y :: r) = d ++ x :: z :: r.
Proof. rewrite insert_app_r_alt by lia. by replace (length d + 1 - length d)%nat with 1%nat by lia. Qed.

(** ** Bounds *)

(** Every word is between [-b] and [b]. *)
Definition bounded (b : Z) (l : list Z) : Prop := Forall (fun x => - b <= x <= b) l.

Lemma bounded_lookup b l i x : bounded b l -> l !! i = Some x -> - b <= x <= b.
Proof. intros H Hl. exact (proj1 (Forall_lookup _ _) H i x Hl). Qed.
Lemma bounded_mono b b' l : bounded b l -> b <= b' -> bounded b' l.
Proof. intros H Hb. eapply Forall_impl; [|exact H]. cbn. lia. Qed.
Lemma bounded_insert b l i x : bounded b l -> - b <= x <= b -> bounded b (<[i := x]> l).
Proof. intros. by apply Forall_insert. Qed.
Lemma limbs_bounded w b l : Forall (is_limb w) l -> 2 ^ w <= b -> bounded b l.
Proof. intros H Hb. eapply Forall_impl; [|exact H]. cbn. lia. Qed.
