(* ===== verification/X25519.v ===== *)
(** * X25519: the Diffie-Hellman function of the minicrypto backend

    [src/deps/cifra/src/curve25519.tweetnacl.c], which [curve25519.c] includes: field
    elements are sixteen signed words with a radix of [2 ^ 16].  Main result: for every
    scalar and every point [cf_curve25519_mul] computes the function X25519 of RFC 7748,
    and no signed operation of it overflows ([x25519_is_rfc7748]). *)
From S2P Require Import Prelude Blockwise Limbs.
From Stdlib Require Import Zpow_facts.

(** ** curve25519.tweetnacl.c *)

(** [typedef int64_t gf[16]] *)
#[local] Notation gf := (list Z).
Definition gf0 : gf := replicate 16 0.
Definition gf1 : gf := 1 :: replicate 15 0.
Definition _121665 : gf := 0xDB41 :: 1 :: replicate 14 0.
Definition _9 : bytes := 9 :: replicate 31 0.

(** The shifts of negative words are arithmetic, as compilers define them. *)
Definition car_turn (i : nat) (o : gf) : res gf :=
  let! x := rd o i in
  let! x := i64 (x + Z.shiftl 1 16) in
  let o := <[i := x]> o in
  let c := Z.shiftr x 16 in
  let! c1 := i64 (c - 1) in
  let! c37 := i64 (37 * c1) in
  let! s := i64 (c1 + c37 * (if (i =? 15)%nat then 1 else 0)) in
  let k := ((i + 1) * (if (i <? 15)%nat then 1 else 0))%nat in
  let! y := rd o k in
  let! y := i64 (y + s) in
  let o := <[k := y]> o in
  let! x := rd o i in
  let! sh := i64 (Z.shiftl c 16) in
  let! x := i64 (x - sh) in
  Ok (<[i := x]> o).
Fixpoint car_loop (n i : nat) (o : gf) : res gf :=
  match n with
  | O => Ok o
  | S n => let! o := car_turn i o in car_loop n (S i) o
  end.
Definition car25519 (o : gf) : res gf := car_loop 16 0 o.

Fixpoint sel_loop (n i : nat) (mask : Z) (p q : gf) : res (gf * gf) :=
  match n with
  | O => Ok (p, q)
  | S n =>
      let! x := rd p i in
      let! y := rd q i in
      let tmp := Z.land mask (Z.lxor x y) in
      sel_loop n (S i) mask (<[i := Z.lxor x tmp]> p) (<[i := Z.lxor y tmp]> q)
  end.
Definition sel25519 (p q : gf) (b : Z) : res (gf * gf) := sel_loop 16 0 (Z.lnot (b - 1)) p q.

(** [m[i] = t[i] - 0xffff - ((m[i - 1] >> 16) & 1); m[i - 1] &= 0xffff], from [i] on *)
Fixpoint borrow_loop (n i : nat) (t m : gf) : res gf :=
  match n with
  | O => Ok m
  | S n =>
      let! x := rd t i in
      let! y := rd m (i - 1) in
      let! v := i64 (x - 0xffff - Z.land (Z.shiftr y 16) 1) in
      borrow_loop n (S i) t (<[(i - 1)%nat := Z.land y 0xffff]> (<[i := v]> m))
  end.
(** One turn of the loop on [j]: the contents of [m] before it do not matter. *)
Definition reduce_once (t m : gf) : res (gf * gf) :=
  let! t0 := rd t 0 in
  let! m0 := i64 (t0 - 0xffed) in
  let! m := borrow_loop 14 1 t (<[0%nat := m0]> m) in
  let! t15 := rd t 15 in
  let! m14 := rd m 14 in
  let! m15 := i64 (t15 - 0x7fff - Z.land (Z.shiftr m14 16) 1) in
  let m := <[15%nat := m15]> m in
  let b := Z.land (Z.shiftr m15 16) 1 in
  let m := <[14%nat := Z.land m14 0xffff]> m in
  sel25519 t m (1 - b).
Definition pack25519 (n : gf) : res bytes :=
  let! t := car25519 n in
  let! t := car25519 t in
  let! t := car25519 t in
  let! '(t, m) := reduce_once t gf0 in
  let! '(t, _) := reduce_once t m in
  Ok (flat_map (fun x => [Z.land x 0xff; u8 (Z.shiftr x 8)]) (take 16 t)).

Fixpoint unpack_loop (n i : nat) (b : bytes) : res gf :=
  match n with
  | O => Ok []
  | S n =>
      let! lo := rd b (2 * i) in
      let! hi := rd b (2 * i + 1) in
      let! rest := unpack_loop n (S i) b in
      Ok (lo + Z.shiftl hi 8 :: rest)
  end.
Definition unpack25519 (n : bytes) : res gf :=
  let! o := unpack_loop 16 0 n in
  let! top := rd o 15 in
  Ok (<[15%nat := Z.land top 0x7fff]> o).

Fixpoint pointwise (op : Z -> Z -> Z) (n i : nat) (a b : gf) : res gf :=
  match n with
  | O => Ok []
  | S n =>
      let! x := rd a i in
      let! y := rd b i in
      let! z := i64 (op x y) in
      let! rest := pointwise op n (S i) a b in
      Ok (z :: rest)
  end.
Definition gf_add (a b : gf) : res gf := pointwise Z.add 16 0 a b.
Definition gf_sub (a b : gf) : res gf := pointwise Z.sub 16 0 a b.

Fixpoint mul_row (n j i : nat) (x : Z) (b t : list Z) : res (list Z) :=
  match n with
  | O => Ok t
  | S n =>
      let! y := rd b j in
      let! p := i64 (x * y) in
      let! z := rd t (i + j) in
      let! z := i64 (z + p) in
      mul_row n (S j) i x b (<[(i + j)%nat := z]> t)
  end.
Fixpoint mul_rows (n i : nat) (a b t : list Z) : res (list Z) :=
  match n with
  | O => Ok t
  | S n =>
      let! x := rd a i in
      let! t := mul_row 16 0 i x b t in
      mul_rows n (S i) a b t
  end.
Fixpoint fold_loop (n i : nat) (t : list Z) : res (list Z) :=
  match n with
  | O => Ok t
  | S n =>
      let! hi := rd t (i + 16) in
      let! p := i64 (38 * hi) in
      let! lo := rd t i in
      let! v := i64 (lo + p) in
      fold_loop n (S i) (<[i := v]> t)
  end.
Definition gf_mul (a b : gf) : res gf :=
  let! t := mul_rows 16 0 a b (replicate 31 0) in
  let! t := fold_loop 15 0 t in
  let! o := car25519 (take 16 t) in
  car25519 o.
Definition gf_sqr (a : gf) : res gf := gf_mul a a.

(** [for (a = n - 1; a >= 0; a--)] *)
Fixpoint inv_loop (n : nat) (c i : gf) : res gf :=
  match n with
  | O => Ok c
  | S a =>
      let! c := gf_sqr c in
      let! c := if negb (a =? 2)%nat && negb (a =? 4)%nat then gf_mul c i else Ok c in
      inv_loop a c i
  end.
Definition inv25519 (i : gf) : res gf := inv_loop 254 i i.

(** The clamped scalar [z] *)
Definition clamp (n : bytes) : res bytes :=
  let! z := copy_from n 0 31 in
  let! n31 := rd n 31 in
  let z := z ++ [Z.lor (Z.land n31 127) 64] in
  let! z0 := rd z 0 in
  Ok (<[0%nat := Z.land z0 248]> z).

(** The contents of [a], [b], [c] and [d] *)
Definition gf4 : Type := gf * gf * gf * gf.

Definition ladder_step (x : gf) (r : Z) (s : gf4) : res gf4 :=
  let '(a, b, c, d) := s in
  let! '(a, b) := sel25519 a b r in
  let! '(c, d) := sel25519 c d r in
  let! e := gf_add a c in
  let! a := gf_sub a c in
  let! c := gf_add b d in
  let! b := gf_sub b d in
  let! d := gf_sqr e in
  let! f := gf_sqr a in
  let! a := gf_mul c a in
  let! c := gf_mul b e in
  let! e := gf_add a c in
  let! a := gf_sub a c in
  let! b := gf_sqr a in
  let! c := gf_sub d f in
  let! a := gf_mul c _121665 in
  let! a := gf_add a d in
  let! c := gf_mul c a in
  let! a := gf_mul d f in
  let! d := gf_mul b x in
  let! b := gf_sqr e in
  let! '(a, b) := sel25519 a b r in
  let! '(c, d) := sel25519 c d r in
  Ok (a, b, c, d).

(** [for (i = n - 1; i >= 0; i--)] *)
Fixpoint ladder_loop (n : nat) (z : bytes) (x : gf) (s : gf4) : res gf4 :=
  match n with
  | O => Ok s
  | S i =>
      let! k := rd z (i / 8) in
      let r := Z.land (Z.shiftr k (Z.of_nat (i mod 8))) 1 in
      let! s := ladder_step x r s in
      ladder_loop i z x s
  end.

Definition cf_curve25519_mul (n p : bytes) : res bytes :=
  let! z := clamp n in
  let! x := unpack25519 p in
  let! '(a, b, c, d) := ladder_loop 255 z x (gf1, x, gf0, gf1) in
  let! c := inv25519 c in
  let! a := gf_mul a c in
  pack25519 a.
Definition cf_curve25519_mul_base (n : bytes) : res bytes := cf_curve25519_mul n _9.

(** ** RFC 7748, section 5 *)

Definition p25519 : Z := 2 ^ 255 - 19.
#[local] Notation fadd x y := ((x + y) mod p25519).
#[local] Notation fsub x y := ((x - y) mod p25519).
#[local] Notation fmul x y := ((x * y) mod p25519).

Definition decodeUCoordinate (u : bytes) : Z := of_le (<[31%nat := Z.land (u !!! 31%nat) 127]> u).
Definition decodeScalar25519 (k : bytes) : Z :=
  of_le (<[31%nat := Z.lor (Z.land (k !!! 31%nat) 127) 64]> (<[0%nat := Z.land (k !!! 0%nat) 248]> k)).
Definition cswap {A} (swap : bool) (x y : A) : A * A := if swap then (y, x) else (x, y).

Definition rfc7748_arith (x_1 x_2 z_2 x_3 z_3 : Z) : Z * Z * Z * Z :=
  let A := fadd x_2 z_2 in
  let AA := fmul A A in
  let B := fsub x_2 z_2 in
  let BB := fmul B B in
  let E := fsub AA BB in
  let C := fadd x_3 z_3 in
  let D := fsub x_3 z_3 in
  let DA := fmul D A in
  let CB := fmul C B in
  (fmul AA BB, fmul E (fadd AA (fmul 121665 E)), fmul (fadd DA CB) (fadd DA CB), fmul x_1 (fmul (fsub DA CB) (fsub DA CB))).

(** [for t = n - 1 down to 0] *)
Fixpoint rfc7748_loop (n : nat) (k x_1 x_2 z_2 x_3 z_3 : Z) (swap : bool) : Z * Z :=
  match n with
  | O => let '(x_2, x_3) := cswap swap x_2 x_3 in let '(z_2, z_3) := cswap swap z_2 z_3 in (x_2, z_2)
  | S t =>
      let k_t := Z.testbit k (Z.of_nat t) in
      let '(x_2, x_3) := cswap (xorb swap k_t) x_2 x_3 in
      let '(z_2, z_3) := cswap (xorb swap k_t) z_2 z_3 in
      let '(x_2, z_2, x_3, z_3) := rfc7748_arith x_1 x_2 z_2 x_3 z_3 in
      rfc7748_loop t k x_1 x_2 z_2 x_3 z_3 k_t
  end.
Definition rfc7748_ladder (k u : Z) : Z :=
  let x_1 := u mod p25519 in
  let '(x_2, z_2) := rfc7748_loop 255 k x_1 1 0 x_1 1 false in
  fmul x_2 (Zpow_mod z_2 (p25519 - 2) p25519).
Definition rfc7748_X25519 (k u : bytes) : bytes := le 32 (rfc7748_ladder (decodeScalar25519 k) (decodeUCoordinate u)).

(** ** Carries *)

Lemma shiftl16 x : Z.shiftl x 16 = x * 2 ^ 16.
Proof. by rewrite Z.shiftl_mul_pow2 by lia. Qed.
Lemma shiftr16 x : Z.shiftr x 16 = x / 2 ^ 16.
Proof. by rewrite Z.shiftr_div_pow2 by lia. Qed.

(** The words from the one with [x] on, after the carries, and the carry out of them. *)
Fixpoint carried (x : Z) (l : list Z) : list Z * Z :=
  match l with
  | [] => ([x mod 2 ^ 16], x / 2 ^ 16)
  | y :: l => let '(ds, c) := carried (y + x / 2 ^ 16) l in (x mod 2 ^ 16 :: ds, c)
  end.

Lemma carried_spec x l ds c :
  carried x l = (ds, c) ->
  length ds = S (length l) /\ Forall (is_limb 16) ds /\ lval 16 ds + (2 ^ 16) ^ Z.of_nat (S (length l)) * c = lval 16 (x :: l).
Proof.
  revert x ds c. induction l as [|y l IH]; intros x ds c; cbn [carried].
  - intros [= <- <-]. split_and!; [done | constructor; [modlia | done]|]. cbn [length]. rewrite radix_S by lia. cbn [length lval foldr]. modlia.
  - destruct (carried (y + x / 2 ^ 16) l) as [ds' c'] eqn:E. intros [= <- <-]. destruct (IH _ _ _ E) as (Hl & Hd & Hv).
    split_and!; [cbn [length]; lia | constructor; [modlia | done] |]. cbn [length] in *. rewrite radix_S by lia. rewrite !lval_cons in *.
    pose proof (Z.div_mod x (2 ^ 16) ltac:(lia)). lia.
Qed.

Lemma carried_bound x l ds c : carried x l = (ds, c) -> bounded (2 ^ 62) l -> - 2 ^ 63 < x < 2 ^ 63 -> - 2 ^ 47 <= c <= 2 ^ 47.
Proof.
  revert x ds c. induction l as [|y l IH]; intros x ds c; cbn [carried].
  - intros [= <- <-] _ Hx. split; modlia.
  - destruct (carried (y + x / 2 ^ 16) l) as [ds' c'] eqn:E. intros [= <- <-] Hb Hx. inversion_clear Hb as [|? ? Hy Hb'].
    apply (IH _ _ _ E Hb'). modlia.
Qed.

(** Checked operations within the range, and reads of known elements. *)
Ltac i64s := repeat (rewrite i64_ok by modlia; cbn [res_bind]).

Lemma car_turn_inner d x y l :
  (length d < 15)%nat -> - 2 ^ 62 - 2 ^ 47 <= x <= 2 ^ 62 + 2 ^ 47 -> - 2 ^ 62 <= y <= 2 ^ 62 ->
  car_turn (length d) (d ++ x :: y :: l) = Ok (d ++ x mod 2 ^ 16 :: y + x / 2 ^ 16 :: l).
Proof.
  intros Hl Hx Hy. unfold car_turn. rewrite (rd_ok _ _ x) by apply lookup_mid. cbn [res_bind].
  rewrite shiftl16. i64s. rewrite shiftr16. replace ((x + 1 * 2 ^ 16) / 2 ^ 16) with (x / 2 ^ 16 + 1) by modlia. i64s.
  rewrite (proj2 (Nat.eqb_neq _ _)), (proj2 (Nat.ltb_lt _ _)), Nat.mul_1_r by lia. i64s.
  rewrite insert_mid, (rd_ok _ _ y) by apply lookup_mid1. cbn [res_bind]. i64s. rewrite insert_mid1, (rd_ok _ _ _ (lookup_mid _ _ _)). cbn [res_bind].
  rewrite shiftl16. i64s. rewrite insert_mid. do 2 f_equal. f_equal; [|f_equal]; modlia.
Qed.

(** The carry out of the last word returns to the first, as [2 ^ 256] is 38. *)
Lemma car_turn_last d0 d x :
  length d = 14%nat -> - 2 ^ 62 <= d0 <= 2 ^ 62 -> - 2 ^ 62 - 2 ^ 47 <= x <= 2 ^ 62 + 2 ^ 47 ->
  car_turn 15 (d0 :: d ++ [x]) = Ok (d0 + 38 * (x / 2 ^ 16) :: d ++ [x mod 2 ^ 16]).
Proof.
  intros Hl Hd0 Hx. assert (H15 : 15%nat = length (d0 :: d)) by (cbn [length]; lia). unfold car_turn.
  rewrite (rd_ok _ 15 x) by (rewrite H15; apply (lookup_mid (d0 :: d))). cbn [res_bind].
  rewrite shiftl16. i64s. rewrite shiftr16. replace ((x + 1 * 2 ^ 16) / 2 ^ 16) with (x / 2 ^ 16 + 1) by modlia. cbn [Nat.eqb Nat.ltb Nat.leb Nat.mul Nat.add]. i64s.
  rewrite H15. change (d0 :: d ++ [x]) with ((d0 :: d) ++ [x]). rewrite insert_mid. rewrite (rd_ok _ 0 d0) by done. cbn [res_bind]. i64s.
  change (<[0%nat := ?z]> ((d0 :: d) ++ ?r)) with ((z :: d) ++ r). change (length (d0 :: d)) with (S (length d)).
  rewrite (rd_ok _ _ (x + 1 * 2 ^ 16)) by apply (lookup_mid (_ :: d)). cbn [res_bind]. rewrite shiftl16. i64s.
  rewrite (insert_mid (_ :: d)). cbn [app]. do 2 f_equal; [|do 2 f_equal]; modlia.
Qed.

(** From the word with [x] on *)
Lemma car_loop_spec l x d ds c :
  carried x l = (ds, c) -> (length d + S (length l) = 16)%nat -> bounded (2 ^ 62) (d ++ l) -> - 2 ^ 62 - 2 ^ 47 <= x <= 2 ^ 62 + 2 ^ 47 ->
  car_loop (S (length l)) (length d) (d ++ x :: l) = Ok (alter (fun v => v + 38 * c) 0%nat (d ++ ds)).
Proof.
  revert x d ds. induction l as [|y l IH]; intros x d ds E Hlen Hb Hx; cbn [carried] in E.
  all: apply Forall_app in Hb as [Hbd Hbl].
  - injection E as <- <-. destruct d as [|d0 d]; [done|]. inversion_clear Hbd as [|? ? Hd0 _]. cbn [length] in Hlen |- *.
    cbn [car_loop]. replace (S (length d)) with 15%nat by lia. change ((d0 :: d) ++ [x]) with (d0 :: d ++ [x]).
    rewrite car_turn_last by lia. done.
  - destruct (carried (y + x / 2 ^ 16) l) as [ds' c'] eqn:E'. injection E as <- <-. inversion_clear Hbl as [|? ? Hy Hbl'].
    cbn [length] in Hlen |- *. change (car_loop (S (S (length l))) ?i ?o) with (res_bind (car_turn i o) (car_loop (S (length l)) (S i))).
    rewrite car_turn_inner by lia. cbn [res_bind].
    replace (S (length d)) with (length (d ++ [x mod 2 ^ 16])) by (rewrite length_app; cbn; lia).
    rewrite (cons_middle (x mod 2 ^ 16) d (_ :: l)), (cons_middle (x mod 2 ^ 16) d ds'), !app_assoc. apply IH; [done | rewrite length_app; cbn; lia | | modlia].
    apply Forall_app_2; [apply Forall_app_2; [done | constructor; [modlia | done]] | done].
Qed.

(** The words after one round of carries: digits, and the excess in the first one. *)
Lemma car25519_spec o :
  length o = 16%nat -> bounded (2 ^ 62) o ->
  exists d0 ds, car25519 o = Ok (d0 + 38 * (lval 16 o / 2 ^ 256) :: ds) /\ length ds = 15%nat /\ Forall (is_limb 16) (d0 :: ds) /\
    lval 16 (d0 :: ds) = lval 16 o mod 2 ^ 256 /\ - 2 ^ 47 <= lval 16 o / 2 ^ 256 <= 2 ^ 47.
Proof.
  intros Hl Hb. destruct o as [|x l]; [done|]. cbn [length] in Hl. apply Nat.succ_inj in Hl. inversion_clear Hb as [|? ? Hx Hbl].
  destruct (carried x l) as [ds c] eqn:E. destruct (carried_spec _ _ _ _ E) as (Hd & Hds & Hv). pose proof (carried_bound _ _ _ _ E Hbl ltac:(lia)) as Hc.
  pose proof (lval_bound 16 ltac:(lia) _ Hds) as Hbd. rewrite Hd in Hbd. replace (S (length l)) with 16%nat in * by lia. change ((2 ^ 16) ^ Z.of_nat 16) with (2 ^ 256) in *.
  assert (Hq : lval 16 (x :: l) / 2 ^ 256 = c) by (rewrite <- Hv; symmetry; apply Z.div_unique_pos with (r := lval 16 ds); lia).
  assert (Hr : lval 16 (x :: l) mod 2 ^ 256 = lval 16 ds) by (rewrite <- Hv; symmetry; apply Z.mod_unique_pos with (q := c); lia).
  destruct ds as [|d0 ds]; [done|]. exists d0, ds. rewrite Hq, Hr. split; [|split; [cbn [length] in Hd; lia | split; [exact Hds | split; [reflexivity | exact Hc]]]].
  unfold car25519. replace 16%nat with (S (length l)) by lia. apply (car_loop_spec l x [] (d0 :: ds) c E); [cbn; lia | done | lia].
Qed.

(** ** Field elements *)

Lemma p25519_pos : 0 < p25519.
Proof. done. Qed.
#[local] Opaque p25519.

(** The value without what is above 2^256, which counts 38-fold modulo the prime. *)
Lemma folded v : (v mod 2 ^ 256 + 38 * (v / 2 ^ 256)) mod p25519 = v mod p25519.
Proof.
  pose proof (Z.div_mod v (2 ^ 256) ltac:(lia)) as H. set (q := v / 2 ^ 256) in *. set (r := v mod 2 ^ 256) in *.
  replace v with (r + 38 * q + (2 * q) * p25519); [by rewrite Z.mod_add|]. rewrite H. change p25519 with (2 ^ 255 - 19). ring.
Qed.

(** [o] holds the field element [v] in words of at most [b]. *)
Record repr (b : Z) (o : gf) (v : Z) : Prop := {
  repr_length : length o = 16%nat;
  repr_bound : bounded b o;
  repr_value : lval 16 o mod p25519 = v
}.

Lemma repr_mono b b' o v : repr b o v -> b <= b' -> repr b' o v.
Proof. intros [Hl Hb Hv] H. split; [done | by eapply bounded_mono | done]. Qed.

(** The words after a multiplication *)
#[local] Notation loose := (2 ^ 16 + 38).

(** Two rounds leave digits and a small excess in the first one. *)
Lemma car_settled b o v :
  repr b o v -> b <= 2 ^ 62 ->
  exists e0 es c, (let! o := car25519 o in car25519 o) = Ok (e0 + 38 * c :: es) /\ length es = 15%nat /\ Forall (is_limb 16) (e0 :: es) /\
    -1 <= c <= 1 /\ lval 16 (e0 + 38 * c :: es) mod p25519 = v.
Proof.
  intros [Hl Hb Hv] Hle. destruct (car25519_spec o Hl (bounded_mono _ _ _ Hb Hle)) as (d0 & ds & -> & Hds & Hlimbs & Hval & Hc). cbn [res_bind].
  set (c := lval 16 o / 2 ^ 256) in *. set (o1 := d0 + 38 * c :: ds). pose proof Hlimbs as Hlimbs0. inversion_clear Hlimbs0 as [|? ? Hd0 Hlimbs'].
  assert (Ho1 : lval 16 o1 = lval 16 o mod 2 ^ 256 + 38 * c) by (rewrite <- Hval; unfold o1; rewrite !lval_cons; ring).
  destruct (car25519_spec o1) as (e0 & es & -> & Hes & Helimbs & Heval & _); [unfold o1; cbn; lia | constructor; [lia | by apply (limbs_bounded 16)] |].
  exists e0, es, (lval 16 o1 / 2 ^ 256). split; [done|]. split; [lia|]. split; [done|]. split.
  - rewrite Ho1. pose proof (Z.mod_pos_bound (lval 16 o) (2 ^ 256) ltac:(lia)). split; [apply Z.div_le_lower_bound | apply Z.lt_succ_r, Z.div_lt_upper_bound]; lia.
  - rewrite <- Hv, <- (folded (lval 16 o)). fold c. rewrite <- Ho1, <- (folded (lval 16 o1)), <- Heval. f_equal. rewrite !lval_cons. ring.
Qed.

Lemma car_twice b o v : repr b o v -> b <= 2 ^ 62 -> exists o', (let! o := car25519 o in car25519 o) = Ok o' /\ repr loose o' v.
Proof.
  intros Hr Hle. destruct (car_settled b o v Hr Hle) as (e0 & es & c & -> & Hl & Hlimbs & Hc & Hv). eexists. split; [reflexivity|].
  inversion_clear Hlimbs as [|? ? He0 Hlimbs']. split; [cbn [length]; lia | constructor; [lia | by apply (limbs_bounded 16)] | done].
Qed.

Lemma pointwise_spec op n i (a b : gf) :
  (i + n = length a)%nat -> length b = length a -> (forall j x y, a !! j = Some x -> b !! j = Some y -> - 2 ^ 63 <= op x y < 2 ^ 63) ->
  pointwise op n i a b = Ok (zip_with op (drop i a) (drop i b)).
Proof.
  intros Hn Hl Hop. revert i Hn. induction n as [|n IH]; intros i Hn; cbn [pointwise].
  - by rewrite (drop_ge a) by lia.
  - destruct (lookup_lt_is_Some_2 a i ltac:(lia)) as [x Hx]. destruct (lookup_lt_is_Some_2 b i ltac:(lia)) as [y Hy].
    rewrite (rd_ok _ _ _ Hx), (rd_ok _ _ _ Hy). cbn [res_bind]. rewrite i64_ok by by eapply Hop. cbn [res_bind]. rewrite IH by lia.
    by rewrite (drop_S _ _ _ Hx), (drop_S _ _ _ Hy).
Qed.

Lemma bounded_zip op b b1 b2 (x y : gf) :
  bounded b1 x -> bounded b2 y -> (forall u v, - b1 <= u <= b1 -> - b2 <= v <= b2 -> - b <= op u v <= b) -> bounded b (zip_with op x y).
Proof.
  intros Hx Hy H. apply Forall_lookup. intros i z. rewrite lookup_zip_with_Some. intros (u & v & -> & Hu & Hv).
  apply H; by eapply bounded_lookup.
Qed.

Lemma gf_pointwise s op b1 b2 a b u v :
  (forall x y, op x y = x + s * y) -> s = 1 \/ s = -1 -> repr b1 a u -> repr b2 b v -> b1 + b2 < 2 ^ 63 ->
  exists o, pointwise op 16 0 a b = Ok o /\ repr (b1 + b2) o ((u + s * v) mod p25519).
Proof.
  intros Hop Hs [Hla Hba Hva] [Hlb Hbb Hvb] Hle. rewrite pointwise_spec; [|lia | lia |].
  - eexists. split; [reflexivity|]. rewrite !drop_0. split.
    + rewrite length_zip_with. lia.
    + eapply bounded_zip; [exact Hba | exact Hbb|]. intros x y Hx Hy. rewrite Hop. destruct Hs as [-> | ->]; lia.
    + rewrite (lval_zip 16 op s) by (done || lia). subst u v. rewrite (Zplus_mod (lval 16 a mod _)), Zmod_mod, Zmult_mod_idemp_r, <- Zplus_mod. done.
  - intros j x y Hx Hy. apply (bounded_lookup _ _ _ _ Hba) in Hx. apply (bounded_lookup _ _ _ _ Hbb) in Hy. rewrite Hop. destruct Hs as [-> | ->]; lia.
Qed.

Lemma gf_add_spec b1 b2 a b u v :
  repr b1 a u -> repr b2 b v -> b1 + b2 < 2 ^ 63 -> exists o, gf_add a b = Ok o /\ repr (b1 + b2) o (fadd u v).
Proof.
  intros Ha Hb Hle. destruct (gf_pointwise 1 Z.add _ _ _ _ _ _ ltac:(intros; ring) (or_introl eq_refl) Ha Hb Hle) as (o & Ho & Hr).
  exists o. split; [done|]. by rewrite Z.mul_1_l in Hr.
Qed.
Lemma gf_sub_spec b1 b2 a b u v :
  repr b1 a u -> repr b2 b v -> b1 + b2 < 2 ^ 63 -> exists o, gf_sub a b = Ok o /\ repr (b1 + b2) o (fsub u v).
Proof.
  intros Ha Hb Hle. destruct (gf_pointwise (-1) Z.sub _ _ _ _ _ _ ltac:(intros; ring) (or_intror eq_refl) Ha Hb Hle) as (o & Ho & Hr).
  exists o. split; [done|]. by replace (u - v) with (u + -1 * v) by ring.
Qed.

(** ** Multiplication *)

(** [t] is within [u], and within [u - m] from position [k] on. *)
Definition room (u m : Z) (k : nat) (t : list Z) : Prop := bounded u t /\ bounded (u - m) (drop k t).

Lemma room_next u m k t z x : 0 <= m -> room u m k t -> t !! k = Some z -> - m <= x <= m -> room u m (S k) (<[k := z + x]> t) /\ - u <= z + x <= u.
Proof.
  intros Hm [Hb Hr] Hz Hx. rewrite (drop_S _ _ _ Hz) in Hr. inversion_clear Hr as [|? ? Hz' Hr']. assert (- u <= z + x <= u) by lia. split; [|done]. split.
  - by apply bounded_insert.
  - by rewrite drop_insert_lt by lia.
Qed.

Lemma mul_row_spec u m n j i x b t :
  0 <= m -> 0 <= u <= 2 ^ 62 -> m <= 2 ^ 62 -> (j + n = length b)%nat -> (i + length b <= length t)%nat -> (forall k y, b !! k = Some y -> - m <= x * y <= m) -> room u m (i + j) t ->
  exists t', mul_row n j i x b t = Ok t' /\ length t' = length t /\ bounded u t' /\
    lval 16 t' = lval 16 t + x * (2 ^ 16) ^ Z.of_nat (i + j) * lval 16 (drop j b).
Proof.
  intros Hm Hu Hm' Hn Hl Hxy. revert j t Hn Hl. induction n as [|n IH]; intros j t Hn Hl Hr; cbn [mul_row].
  - exists t. destruct Hr as [Hb _]. rewrite (drop_ge b) by lia. cbn [lval foldr]. split_and!; [done | done | done | ring].
  - destruct (lookup_lt_is_Some_2 b j ltac:(lia)) as [y Hy]. destruct (lookup_lt_is_Some_2 t (i + j) ltac:(lia)) as [z Hz].
    destruct (room_next _ _ _ _ _ (x * y) Hm Hr Hz (Hxy _ _ Hy)) as [Hr' Hbz]. pose proof (Hxy _ _ Hy) as Hb.
    rewrite (rd_ok _ _ _ Hy), (rd_ok _ _ _ Hz). cbn [res_bind]. rewrite (i64_ok (x * y)) by lia. cbn [res_bind]. rewrite i64_ok by lia. cbn [res_bind].
    destruct (IH (S j) (<[(i + j)%nat := z + x * y]> t)) as (t' & -> & Hl' & Hb' & Hv'); [lia | by rewrite length_insert | by rewrite Nat.add_succ_r|].
    exists t'. rewrite length_insert in Hl'. split_and!; [done | done | done |]. rewrite Hv', (lval_insert 16 _ _ _ _ Hz), (drop_S _ _ _ Hy), lval_cons.
    rewrite Nat.add_succ_r, radix_S by lia. ring.
Qed.

Lemma mul_rows_spec m n i a b t :
  0 <= m <= 2 ^ 52 -> (i + n = length a)%nat -> length a = 16%nat -> length b = 16%nat -> length t = 31%nat ->
  (forall k k' x y, a !! k = Some x -> b !! k' = Some y -> - m <= x * y <= m) -> bounded (Z.of_nat i * m) t ->
  exists t', mul_rows n i a b t = Ok t' /\ length t' = 31%nat /\ bounded (16 * m) t' /\
    lval 16 t' = lval 16 t + (2 ^ 16) ^ Z.of_nat i * lval 16 (drop i a) * lval 16 b.
Proof.
  intros Hm Hn Ha Hb Ht Hxy. revert i t Hn Ht. induction n as [|n IH]; intros i t Hn Ht Hbt; cbn [mul_rows].
  - exists t. rewrite drop_ge by lia. replace i with 16%nat in Hbt by lia. cbn [lval foldr]. split_and!; [done | done | done | ring].
  - destruct (lookup_lt_is_Some_2 a i ltac:(lia)) as [x Hx]. rewrite (rd_ok _ _ _ Hx). cbn [res_bind].
    destruct (mul_row_spec (Z.of_nat (S i) * m) m 16 0 i x b t) as (t1 & -> & Hl1 & Hb1 & Hv1); [lia | nia | lia | lia | lia | | |].
    { intros k y Hy. by eapply Hxy. }
    { split; [eapply bounded_mono; [exact Hbt | lia]|]. apply Forall_drop. eapply bounded_mono; [exact Hbt | lia]. }
    cbn [res_bind]. destruct (IH (S i) t1) as (t' & -> & Hl' & Hb' & Hv'); [lia | lia | done|]. exists t'. split_and!; [done | done | done|].
    rewrite Hv', Hv1, (drop_S _ _ _ Hx), lval_cons, Nat.add_0_r, drop_0, radix_S by lia. ring.
Qed.

(** The high half is folded onto the low half. *)
Lemma fold_loop_spec d a m h0 h :
  length a = length h -> length h0 = length d -> (length d + length a = 15)%nat -> bounded (2 ^ 56) (a ++ h) ->
  fold_loop (length a) (length d) (d ++ a ++ m :: h0 ++ h) = Ok (d ++ zip_with (fun lo hi => lo + 38 * hi) a h ++ m :: h0 ++ h).
Proof.
  revert d h0 h. induction a as [|x a IH]; intros d h0 h Hl Hl0 Hlen Hb; [done|]. destruct h as [|y h]; [done|]. cbn [length] in *. cbn [fold_loop].
  assert (Hy : (d ++ (x :: a) ++ m :: h0 ++ y :: h) !! (length d + 16)%nat = Some y).
  { rewrite lookup_app_r by lia. replace (length d + 16 - length d)%nat with (length (x :: a) + (1 + length h0))%nat by (cbn [length]; lia).
    rewrite lookup_app_r by lia. replace (length (x :: a) + (1 + length h0) - length (x :: a))%nat with (S (length h0)) by lia.
    change ((m :: ?l) !! S ?k) with (l !! k). by apply list_lookup_middle. }
  apply Forall_app in Hb as [Hba Hbh]. inversion_clear Hba as [|? ? Hx Hba']. inversion_clear Hbh as [|? ? Hy' Hbh'].
  rewrite (rd_ok _ _ _ Hy). cbn [res_bind]. rewrite i64_ok by lia. cbn [res_bind]. rewrite (rd_ok _ _ x) by apply lookup_mid. cbn [res_bind].
  rewrite i64_ok by lia. cbn [res_bind app]. rewrite insert_mid. cbn [zip_with]. replace (S (length d)) with (length (d ++ [x + 38 * y])) by (rewrite length_app; cbn; lia).
  rewrite (cons_middle _ d (a ++ _)), (cons_middle y h0 h), !(app_assoc h0). rewrite (app_assoc d [_]). rewrite IH.
  - by rewrite <- app_assoc.
  - lia.
  - rewrite !length_app. cbn. lia.
  - rewrite length_app. cbn. lia.
  - by apply Forall_app_2.
Qed.

Lemma gf_mul_spec b1 b2 a b u v :
  repr b1 a u -> repr b2 b v -> 0 <= b1 -> 0 <= b2 -> b1 * b2 <= 2 ^ 52 -> exists o, gf_mul a b = Ok o /\ repr loose o (fmul u v).
Proof.
  intros [Hla Hba Hva] [Hlb Hbb Hvb] Hb1 Hb2 Hle. unfold gf_mul.
  destruct (mul_rows_spec (2 ^ 52) 16 0 a b (replicate 31 0)) as (t & -> & Hlt & Hbt & Hvt); [done | lia | done | done | done | | by apply Forall_replicate |].
  { intros k k' x y Hx Hy. apply (bounded_lookup _ _ _ _ Hba) in Hx. apply (bounded_lookup _ _ _ _ Hbb) in Hy. nia. }
  cbn [res_bind]. assert (Ht : t = take 15 t ++ t !!! 15%nat :: drop 16 t).
  { destruct (lookup_lt_is_Some_2 t 15 ltac:(lia)) as [m Hm]. rewrite (list_lookup_total_correct _ _ _ Hm), <- (drop_S _ _ _ Hm). symmetry. apply take_drop. }
  set (lo := take 15 t) in *. set (m := t !!! 15%nat) in *. set (hi := drop 16 t) in *.
  assert (Hlo : length lo = 15%nat) by (unfold lo; rewrite length_take; lia). assert (Hhi : length hi = 15%nat) by (unfold hi; rewrite length_drop; lia).
  rewrite Ht in Hbt. apply Forall_app in Hbt as [Hblo Hbm]. inversion_clear Hbm as [|? ? Hm Hbhi].
  assert (Hlohi : bounded (2 ^ 56) (lo ++ hi)) by (by apply Forall_app_2).
  pose proof (fold_loop_spec [] lo m [] hi ltac:(lia) eq_refl Hlo Hlohi) as Hf. cbn [app length] in Hf.
  rewrite Hlo in Hf. rewrite Ht, Hf. cbn [res_bind]. set (z := zip_with _ lo hi) in *.
  assert (Hz : length z = 15%nat) by (unfold z; rewrite length_zip_with; lia). rewrite cons_middle, app_assoc, take_app_length' by (rewrite length_app; cbn; lia).
  apply (car_twice (2 ^ 62)); [|done]. split.
  - rewrite length_app. cbn. lia.
  - apply Forall_app_2; [|constructor; [lia | done]]. eapply bounded_zip; [exact Hblo | exact Hbhi|]. cbn. lia.
  - subst u v. rewrite <- Zmult_mod. rewrite drop_0, lval_replicate, Z.mul_1_l, Z.add_0_l in Hvt by lia. rewrite <- Hvt, Ht, !lval_app, !lval_cons, Hlo, Hz.
    unfold z. rewrite (lval_zip 16 _ 38) by (done || lia). set (l := lval 16 lo). set (h := lval 16 hi). change (lval 16 []) with 0.
    replace (l + (2 ^ 16) ^ Z.of_nat 15 * (m + 2 ^ 16 * h)) with (l + 38 * h + (2 ^ 16) ^ Z.of_nat 15 * (m + 2 ^ 16 * 0) + (2 * h) * p25519)
      by (change p25519 with (2 ^ 255 - 19); change ((2 ^ 16) ^ Z.of_nat 15) with (2 ^ 240); ring).
    by rewrite Z.mod_add.
Qed.

(** ** Selection, inversion *)

Lemma sel_loop_spec (s : bool) p q d e :
  length p = length q -> length d = length e ->
  sel_loop (length p) (length d) (if s then -1 else 0) (d ++ p) (e ++ q) = Ok (if s then (d ++ q, e ++ p) else (d ++ p, e ++ q)).
Proof.
  revert q d e. induction p as [|x p IH]; intros q d e Hl Hd; cbn [sel_loop length].
  { destruct q; [|done]. by destruct s. }
  destruct q as [|y q]; [done|]. injection Hl as Hl. rewrite (rd_ok _ _ x) by apply lookup_mid. rewrite Hd, (rd_ok _ _ y) by apply lookup_mid. cbn [res_bind].
  rewrite insert_mid. rewrite <- Hd at 2. rewrite insert_mid.
  assert (E : Z.lxor x (Z.land (if s then -1 else 0) (Z.lxor x y)) = (if s then y else x) /\ Z.lxor y (Z.land (if s then -1 else 0) (Z.lxor x y)) = (if s then x else y)).
  { destruct s; [rewrite Z.land_m1_l | rewrite Z.land_0_l, !Z.lxor_0_r; done]. rewrite (Z.lxor_comm x y) at 2.
    by rewrite <- !Z.lxor_assoc, !Z.lxor_nilpotent, !Z.lxor_0_l. }
  destruct E as [-> ->]. rewrite (cons_middle _ d p), (cons_middle _ e q), !app_assoc.
  replace (S (length e)) with (length (d ++ [if s then y else x])) by (rewrite length_app; cbn; lia).
  rewrite IH; [|done | rewrite !length_app; cbn; lia]. rewrite <- !app_assoc. by destruct s.
Qed.

Lemma sel25519_spec s p q : length p = 16%nat -> length q = 16%nat -> sel25519 p q (Z.b2z s) = Ok (cswap s p q).
Proof.
  intros Hp Hq. unfold sel25519. replace (Z.lnot (Z.b2z s - 1)) with (if s then -1 else 0) by (by destruct s).
  pose proof (sel_loop_spec s p q [] [] ltac:(lia) eq_refl) as H. cbn [app length] in H. rewrite Hp in H. rewrite H. by destruct s.
Qed.

(** The exponent that the additions to [e] in [inv_loop] lead to. *)
Fixpoint inv_exponent (n : nat) (e : Z) : Z :=
  match n with
  | O => e
  | S a => inv_exponent a (2 * e + (if negb (a =? 2)%nat && negb (a =? 4)%nat then 1 else 0))
  end.

Lemma inv_loop_spec n c i e v :
  0 <= e -> repr loose i v -> repr loose c (v ^ e mod p25519) -> exists o, inv_loop n c i = Ok o /\ repr loose o (v ^ inv_exponent n e mod p25519).
Proof.
  intros He Hi. revert c e He. induction n as [|a IH]; intros c e He Hc; cbn [inv_loop inv_exponent]; [by exists c|].
  destruct (gf_mul_spec _ _ _ _ _ _ Hc Hc ltac:(lia) ltac:(lia) ltac:(lia)) as (c1 & E1 & H1). unfold gf_sqr. rewrite E1. cbn [res_bind].
  rewrite <- Zmult_mod, <- Z.pow_add_r in H1 by lia. replace (e + e) with (2 * e) in H1 by lia. destruct (negb (a =? 2)%nat && negb (a =? 4)%nat).
  - destruct (gf_mul_spec _ _ _ _ _ _ H1 Hi ltac:(lia) ltac:(lia) ltac:(lia)) as (c2 & -> & H2). cbn [res_bind]. apply IH; [lia|].
    rewrite Zmult_mod_idemp_l, Z.mul_comm, <- Z.pow_succ_r in H2 by lia. exact H2.
  - cbn [res_bind]. apply IH; [lia|]. by rewrite Z.add_0_r.
Qed.

Lemma inv25519_spec i v : repr loose i v -> exists o, inv25519 i = Ok o /\ repr loose o (Zpow_mod v (p25519 - 2) p25519).
Proof.
  intros Hi. rewrite Zpow_mod_correct by done. change (p25519 - 2) with (inv_exponent 254 1). apply inv_loop_spec; [lia | done|].
  rewrite Z.pow_1_r. destruct Hi as [Hl Hb Hv]. split; [done | done|]. by rewrite <- Hv, Zmod_mod.
Qed.

(** ** The canonical form *)

Lemma land_1 x : Z.land x 1 = x mod 2.
Proof. apply (Z.land_ones x 1). lia. Qed.
Lemma land_ffff x : Z.land x 0xffff = x mod 2 ^ 16.
Proof. apply (Z.land_ones x 16). lia. Qed.

(** [m[i - 1]] and the words behind it, when [y] is in [m[i - 1]] and [ts] is the rest of [t]. *)
Fixpoint borrows (y : Z) (ts : list Z) : list Z :=
  match ts with
  | [] => [y]
  | x :: ts => y mod 2 ^ 16 :: borrows (x - 0xffff - y / 2 ^ 16 mod 2) ts
  end.

Lemma borrow_loop_spec (ts tl d m ml t0 : list Z) y :
  length ts = length m -> length t0 = S (length d) -> Forall (is_limb 16) ts -> - 2 ^ 16 <= y < 2 ^ 16 ->
  borrow_loop (length ts) (length t0) (t0 ++ ts ++ tl) (d ++ y :: m ++ ml) = Ok (d ++ borrows y ts ++ ml).
Proof.
  revert d m t0 y. induction ts as [|x ts IH]; intros d m t0 y Hl Ht Hts Hy; cbn [borrow_loop length borrows].
  { by destruct m. }
  destruct m as [|z m]; [done|]. injection Hl as Hl. inversion_clear Hts as [|? ? Hx Hts'].
  rewrite (rd_ok _ _ x) by apply (lookup_mid t0). cbn [res_bind]. replace (length t0 - 1)%nat with (length d) by lia.
  rewrite (rd_ok _ _ y) by apply lookup_mid. cbn [res_bind]. rewrite shiftr16, land_1, land_ffff. set (b := y / 2 ^ 16 mod 2).
  assert (0 <= b < 2) by (apply Z.mod_pos_bound; lia). rewrite i64_ok by lia. cbn [res_bind]. replace (length t0) with (length d + 1)%nat by lia.
  change ((z :: m) ++ ml) with (z :: m ++ ml). rewrite insert_mid1, insert_mid. change ((x :: ts) ++ tl) with ([x] ++ ts ++ tl).
  change ((y mod 2 ^ 16 :: ?l) ++ ml) with (y mod 2 ^ 16 :: l ++ ml).
  rewrite (app_assoc t0 [x]), (cons_middle (y mod 2 ^ 16) d (_ :: m ++ ml)), (cons_middle (y mod 2 ^ 16) d (borrows _ ts ++ ml)), !(app_assoc d).
  replace (S (length d + 1)) with (length (t0 ++ [x])) by (rewrite length_app; cbn; lia).
  apply IH; [done | rewrite !length_app; cbn; lia | done | lia].
Qed.

Lemma borrows_spec ts y :
  Forall (is_limb 16) ts -> - 2 ^ 16 <= y < 2 ^ 16 ->
  exists ds l, borrows y ts = ds ++ [l] /\ length ds = length ts /\ Forall (is_limb 16) ds /\ - 2 ^ 16 <= l < 2 ^ 16 /\
    lval 16 (ds ++ [l]) = lval 16 (y :: ts) - 2 ^ 16 * lval 16 (replicate (length ts) 0xffff).
Proof.
  revert y. induction ts as [|x ts IH]; intros y Hts Hy; cbn [borrows].
  - exists [], y. split_and!; [done | done | done | lia | lia |]. cbn [app length replicate lval foldr]. lia.
  - inversion_clear Hts as [|? ? Hx Hts']. assert (Hb : y = y mod 2 ^ 16 - 2 ^ 16 * (y / 2 ^ 16 mod 2)) by modlia. set (b := y / 2 ^ 16 mod 2) in *.
    assert (0 <= b < 2) by (apply Z.mod_pos_bound; lia). destruct (IH (x - 0xffff - b) Hts' ltac:(lia)) as (ds & l & -> & Hl & Hds & Hr & Hv).
    exists (y mod 2 ^ 16 :: ds), l. split_and!; [done | cbn [length]; lia | constructor; [modlia | done] | lia | lia |].
    cbn [app length replicate]. rewrite !lval_cons, Hv, lval_cons. lia.
Qed.

Lemma reduce_once_spec t m :
  length t = 16%nat -> Forall (is_limb 16) t -> length m = 16%nat ->
  exists t' m', reduce_once t m = Ok (t', m') /\ length t' = 16%nat /\ Forall (is_limb 16) t' /\ length m' = 16%nat /\
    lval 16 t' = if p25519 <=? lval 16 t then lval 16 t - p25519 else lval 16 t.
Proof.
  intros Hl Ht Hm. destruct t as [|t0 ts]; [done|]. destruct (exists_last (l := ts)) as (ts' & t15 & ->); [by destruct ts|].
  rewrite length_cons, length_app in Hl. cbn [length] in Hl. assert (Hts : length ts' = 14%nat) by lia. destruct m as [|z m]; [done|]. cbn [length] in Hm.
  destruct (exists_last (l := m)) as (m' & z' & ->); [by destruct m|]. rewrite length_app in Hm. cbn [length] in Hm.
  pose proof Ht as Ht'. inversion_clear Ht' as [|? ? H0 Hts']. apply Forall_app in Hts' as [Hts' H15]. inversion_clear H15 as [|? ? Ht15 _].
  unfold reduce_once. rewrite (rd_ok _ 0 t0) by done. cbn [res_bind]. rewrite i64_ok by lia. cbn [res_bind]. change (<[0%nat := ?v]> (z :: ?l)) with (v :: l).
  set (y := t0 - 0xffed). pose proof (borrow_loop_spec ts' [t15] [] m' [z'] [t0] y ltac:(lia) eq_refl Hts' ltac:(unfold y; lia)) as Hloop.
  rewrite Hts in Hloop. cbn [app length] in Hloop. rewrite Hloop. cbn [res_bind].
  destruct (borrows_spec ts' y Hts' ltac:(unfold y; lia)) as (ds & l & -> & Hds & Hdl & Hr & Hv). rewrite Hts in Hds, Hv.
  rewrite (rd_ok _ 15 t15) by (replace 15%nat with (length (t0 :: ts')) by (cbn; lia); apply (lookup_mid (t0 :: ts'))). cbn [res_bind].
  rewrite <- app_assoc. cbn [app]. rewrite (rd_ok _ 14 l) by (rewrite <- Hds; apply lookup_mid). cbn [res_bind]. rewrite shiftr16, land_1, land_ffff.
  set (b := l / 2 ^ 16 mod 2). assert (Hl' : l = l mod 2 ^ 16 - 2 ^ 16 * b) by (unfold b; modlia). assert (Hb : 0 <= b < 2) by (apply Z.mod_pos_bound; lia).
  rewrite i64_ok by lia. cbn [res_bind]. set (m15 := t15 - 0x7fff - b). replace 15%nat with (length ds + 1)%nat by lia. replace 14%nat with (length ds) by lia.
  rewrite insert_mid1, insert_mid, shiftr16, land_1. set (mm := ds ++ l mod 2 ^ 16 :: [m15]).
  assert (Hmm : length mm = 16%nat) by (unfold mm; rewrite length_app; cbn; lia).
  assert (Hval : lval 16 mm = lval 16 (t0 :: ts' ++ [t15]) - p25519).
  { unfold mm. rewrite (lval_app 16 ds [l]), Hds in Hv. rewrite (lval_app 16 ds (_ :: _)), Hds, (lval_cons 16 t0), (lval_app 16 ts'), Hts.
    rewrite (lval_cons 16 y) in Hv. change (lval 16 (replicate 14 65535)) with (2 ^ 224 - 1) in Hv. change ((2 ^ 16) ^ Z.of_nat 14) with (2 ^ 224) in *.
    change p25519 with (2 ^ 255 - 19). rewrite !lval_cons in *. change (lval 16 []) with 0 in *. unfold m15, y in *. lia. }
  assert (Hlow : 0 <= lval 16 (ds ++ [l mod 2 ^ 16]) < 2 ^ 240).
  { pose proof (lval_bound 16 ltac:(lia) (ds ++ [l mod 2 ^ 16])) as H. rewrite length_app, Hds in H. apply H. apply Forall_app_2; [done | constructor; [modlia | done]]. }
  assert (Hsplit : lval 16 mm = lval 16 (ds ++ [l mod 2 ^ 16]) + 2 ^ 240 * m15).
  { unfold mm. change (l mod 2 ^ 16 :: [m15]) with ([l mod 2 ^ 16] ++ [m15]). rewrite app_assoc, lval_app, length_app, Hds. cbn [length Nat.add lval foldr]. change ((2 ^ 16) ^ Z.of_nat 15) with (2 ^ 240). lia. }
  rewrite Hval in Hsplit. set (T := lval 16 (t0 :: ts' ++ [t15])) in *. set (s := p25519 <=? T).
  assert (Hs : 1 - m15 / 2 ^ 16 mod 2 = Z.b2z s).
  { unfold s. destruct (Z.leb_spec p25519 T); cbn [Z.b2z]; [assert (0 <= m15) by nia | assert (m15 < 0) by nia]; unfold m15 in *; modlia. }
  rewrite Hs, sel25519_spec by (cbn [length]; rewrite ?length_app; cbn; lia). unfold cswap. destruct s eqn:Es; do 2 eexists; (split; [reflexivity|]).
  - apply Z.leb_le in Es. assert (0 <= m15) by nia. split_and!; [lia | | cbn [length]; rewrite length_app; cbn; lia | exact Hval].
    unfold mm. apply Forall_app_2; [done|]. constructor; [modlia|]. constructor; [unfold m15 in *; lia | done].
  - split_and!; [cbn [length]; rewrite length_app; cbn; lia | done | lia | done].
Qed.

(** A third round leaves digits only. *)
Lemma car_thrice b o v :
  repr b o v -> b <= 2 ^ 62 ->
  exists t, (let! o := (let! o := car25519 o in car25519 o) in car25519 o) = Ok t /\ length t = 16%nat /\ Forall (is_limb 16) t /\ lval 16 t mod p25519 = v.
Proof.
  intros Hr Hle. destruct (car_settled b o v Hr Hle) as (e0 & es & c & -> & Hl & Hlimbs & Hc & Hv). cbn [res_bind].
  pose proof (lval_bound 16 ltac:(lia) _ Hlimbs) as HE. cbn [length] in HE. rewrite Hl in HE. change ((2 ^ 16) ^ Z.of_nat 16) with (2 ^ 256) in HE. rewrite lval_cons in HE.
  inversion_clear Hlimbs as [|? ? He0 Hlimbs'].
  destruct (car25519_spec (e0 + 38 * c :: es)) as (f0 & fs & -> & Hfl & Hflimbs & Hfv & _); [cbn; lia | constructor; [lia | by apply (limbs_bounded 16)]|].
  eexists. split; [reflexivity|]. split; [cbn [length]; lia|]. inversion_clear Hflimbs as [|? ? Hf0 Hflimbs']. pose proof (lval_bound 16 ltac:(lia) _ Hflimbs') as HF.
  rewrite Hfl in HF. change ((2 ^ 16) ^ Z.of_nat 15) with (2 ^ 240) in HF. set (V := lval 16 (e0 + 38 * c :: es)) in *. split.
  - constructor; [|done]. assert (HV : V = e0 + 2 ^ 16 * lval 16 es + 38 * c) by (unfold V; rewrite lval_cons; ring). rewrite lval_cons in Hfv.
    pose proof (Z.div_mod V (2 ^ 256) ltac:(lia)). assert (V / 2 ^ 256 = 0 \/ V / 2 ^ 256 = 1 \/ V / 2 ^ 256 = -1) as [E | [E | E]].
    { assert (-1 <= V / 2 ^ 256) by (apply Z.div_le_lower_bound; lia). assert (V / 2 ^ 256 < 2) by (apply Z.div_lt_upper_bound; lia). lia. }
    all: rewrite E in *; lia.
  - rewrite <- Hv, <- (folded V), <- Hfv. f_equal. rewrite !lval_cons. ring.
Qed.

Lemma octets_of_words t : Forall (is_limb 16) t -> flat_map (fun x => [Z.land x 0xff; u8 (Z.shiftr x 8)]) t = le (2 * length t) (lval 16 t).
Proof.
  induction 1 as [|x t Hx _ IH]; [done|]. cbn [flat_map length app]. replace (2 * S (length t))%nat with (S (S (2 * length t))) by lia. cbn [le].
  rewrite IH, land_ff, Z.shiftr_div_pow2, lval_cons by lia. unfold u8. f_equal; [|f_equal]; [modlia | modlia | f_equal; modlia].
Qed.

Lemma pack25519_spec b o v : repr b o v -> b <= 2 ^ 62 -> pack25519 o = Ok (le 32 v).
Proof.
  intros Hr Hle. destruct (car_thrice b o v Hr Hle) as (t & Hcar & Hl & Ht & Hv). unfold pack25519.
  destruct (car25519 o) as [o1| |]; try discriminate Hcar. cbn [res_bind] in *. destruct (car25519 o1) as [o2| |]; try discriminate Hcar. cbn [res_bind] in *.
  rewrite Hcar. cbn [res_bind]. destruct (reduce_once_spec t gf0 Hl Ht eq_refl) as (t1 & m1 & -> & Hl1 & Ht1 & Hm1 & Hv1). cbn [res_bind].
  destruct (reduce_once_spec t1 m1 Hl1 Ht1 Hm1) as (t2 & m2 & -> & Hl2 & Ht2 & _ & Hv2). cbn [res_bind].
  rewrite take_ge, octets_of_words, Hl2 by (done || lia). do 2 f_equal. rewrite Hv2, Hv1, <- Hv. set (T := lval 16 t) in *.
  assert (HT : 0 <= T < 2 * p25519 + 38) by (pose proof (lval_bound 16 ltac:(lia) _ Ht) as H; rewrite Hl in H; exact H).
  pose proof p25519_pos as Hp. assert (Hp' : 38 < p25519) by done. clear - HT Hp Hp'.
  destruct (Z.leb_spec p25519 T); [destruct (Z.leb_spec p25519 (T - p25519)) | destruct (Z.leb_spec p25519 T); [lia|]].
  - apply Z.mod_unique_pos with (q := 2); lia.
  - apply Z.mod_unique_pos with (q := 1); lia.
  - symmetry. apply Z.mod_small. lia.
Qed.

(** ** The ladder *)

Ltac gf_op H o Ho := destruct H as (o & -> & Ho); [lia.. |]; cbn [res_bind].

Lemma square_of_difference u v : fmul (fsub u v) (fsub u v) = fmul (fsub v u) (fsub v u).
Proof. rewrite <- !Zmult_mod. f_equal. ring. Qed.

Section Ladder.
Context (x : gf) (x_1 : Z).
Hypothesis Hx : repr loose x x_1.

(** The state holds [x_2], [x_3], [z_2] and [z_3]. *)
Definition holds (s : gf4) (x_2 x_3 z_2 z_3 : Z) : Prop :=
  let '(a, b, c, d) := s in repr loose a x_2 /\ repr loose b x_3 /\ repr loose c z_2 /\ repr loose d z_3.

Lemma sel_repr s a b u v : repr loose a u -> repr loose b v ->
  exists a' b', sel25519 a b (Z.b2z s) = Ok (a', b') /\ repr loose a' (cswap s u v).1 /\ repr loose b' (cswap s u v).2.
Proof. intros Ha Hb. rewrite sel25519_spec by (apply Ha || apply Hb). destruct s; by do 2 eexists. Qed.

Lemma repr_121665 : repr loose _121665 121665.
Proof. split; [done | repeat constructor; done | done]. Qed.

Lemma ladder_step_spec (k : bool) s x_2 x_3 z_2 z_3 :
  holds s x_2 x_3 z_2 z_3 ->
  let '(y_2, w_2, y_3, w_3) := rfc7748_arith x_1 (cswap k x_2 x_3).1 (cswap k z_2 z_3).1 (cswap k x_2 x_3).2 (cswap k z_2 z_3).2 in
  exists s', ladder_step x (Z.b2z k) s = Ok s' /\ holds s' (cswap k y_2 y_3).1 (cswap k y_2 y_3).2 (cswap k w_2 w_3).1 (cswap k w_2 w_3).2.
Proof.
  destruct s as [[[a b] c] d]. intros (Ha & Hb & Hc & Hd). unfold ladder_step.
  destruct (sel_repr k a b _ _ Ha Hb) as (a1 & b1 & -> & Ha1 & Hb1). cbn [res_bind]. destruct (sel_repr k c d _ _ Hc Hd) as (c1 & d1 & -> & Hc1 & Hd1). cbn [res_bind].
  destruct (cswap k x_2 x_3) as [u2 u3]. destruct (cswap k z_2 z_3) as [t2 t3]. cbn [fst snd] in *. unfold rfc7748_arith.
  gf_op (gf_add_spec _ _ _ _ _ _ Ha1 Hc1) A HA. gf_op (gf_sub_spec _ _ _ _ _ _ Ha1 Hc1) B HB.
  gf_op (gf_add_spec _ _ _ _ _ _ Hb1 Hd1) C HC. gf_op (gf_sub_spec _ _ _ _ _ _ Hb1 Hd1) D HD. unfold gf_sqr.
  gf_op (gf_mul_spec _ _ _ _ _ _ HA HA) AA HAA. gf_op (gf_mul_spec _ _ _ _ _ _ HB HB) BB HBB.
  gf_op (gf_mul_spec _ _ _ _ _ _ HC HB) CB HCB. gf_op (gf_mul_spec _ _ _ _ _ _ HD HA) DA HDA.
  gf_op (gf_add_spec _ _ _ _ _ _ HCB HDA) S_ HS. gf_op (gf_sub_spec _ _ _ _ _ _ HCB HDA) M HM.
  gf_op (gf_mul_spec _ _ _ _ _ _ HM HM) MM HMM. gf_op (gf_sub_spec _ _ _ _ _ _ HAA HBB) E HE.
  gf_op (gf_mul_spec _ _ _ _ _ _ HE repr_121665) E1 HE1. gf_op (gf_add_spec _ _ _ _ _ _ HE1 HAA) F HF.
  gf_op (gf_mul_spec _ _ _ _ _ _ HE HF) z2 Hz2. gf_op (gf_mul_spec _ _ _ _ _ _ HAA HBB) x2 Hx2.
  gf_op (gf_mul_spec _ _ _ _ _ _ HMM Hx) z3 Hz3. gf_op (gf_mul_spec _ _ _ _ _ _ HS HS) x3 Hx3.
  rewrite (Z.add_comm _ (fmul (fadd u2 t2) (fadd u2 t2))), (Z.mul_comm _ 121665) in Hz2. rewrite (Z.add_comm (fmul _ (fsub u2 t2))) in Hx3.
  rewrite Z.mul_comm, square_of_difference in Hz3.
  destruct (sel_repr k _ _ _ _ Hx2 Hx3) as (a2 & b2 & -> & Ha2 & Hb2). cbn [res_bind]. destruct (sel_repr k _ _ _ _ Hz2 Hz3) as (c2 & d2 & -> & Hc2 & Hd2). cbn [res_bind].
  eexists. split; [reflexivity|]. by split_and!.
Qed.

(** RFC 7748 delays the second exchange of an iteration. *)
Lemma ladder_loop_spec n z k s x_2 x_3 z_2 z_3 swap :
  is_bytes z -> (n <= 8 * length z)%nat -> of_le z = k ->
  holds s (cswap swap x_2 x_3).1 (cswap swap x_2 x_3).2 (cswap swap z_2 z_3).1 (cswap swap z_2 z_3).2 ->
  exists a b c d, ladder_loop n z x s = Ok (a, b, c, d) /\
    repr loose a (rfc7748_loop n k x_1 x_2 z_2 x_3 z_3 swap).1 /\ repr loose c (rfc7748_loop n k x_1 x_2 z_2 x_3 z_3 swap).2.
Proof.
  intros Hz Hn Hk. revert s x_2 x_3 z_2 z_3 swap. induction n as [|i IH]; intros s x_2 x_3 z_2 z_3 swap Hs; cbn [ladder_loop rfc7748_loop].
  - destruct s as [[[a b] c] d]. exists a, b, c, d. split; [done|]. destruct Hs as (Ha & _ & Hc & _). by destruct swap.
  - destruct (lookup_lt_is_Some_2 z (i / 8) ltac:(apply Nat.Div0.div_lt_upper_bound; lia)) as [o Ho]. rewrite (rd_ok _ _ _ Ho). cbn [res_bind].
    assert (Hbit : Z.land (Z.shiftr o (Z.of_nat (i mod 8))) 1 = Z.b2z (Z.testbit k (Z.of_nat i))).
    { rewrite land_1, <- Z.bit0_mod, Z.shiftr_spec, Z.add_0_l, <- Hk, of_le_lval by lia. f_equal. symmetry.
      rewrite <- (lval_testbit 8 ltac:(lia) z (i / 8) o (Z.of_nat (i mod 8)) Hz Ho); [f_equal; pose proof (Nat.div_mod_eq i 8); lia|].
      pose proof (Nat.mod_upper_bound i 8 ltac:(lia)). lia. }
    rewrite Hbit. set (k_t := Z.testbit k (Z.of_nat i)). pose proof (ladder_step_spec k_t s _ _ _ _ Hs) as Hstep.
    assert (Hsw : forall u v : Z, cswap k_t (cswap swap u v).1 (cswap swap u v).2 = cswap (xorb swap k_t) u v) by (by intros; destruct swap, k_t).
    rewrite !Hsw in Hstep. destruct (cswap (xorb swap k_t) x_2 x_3) as [u2 u3]. destruct (cswap (xorb swap k_t) z_2 z_3) as [t2 t3]. cbn [fst snd] in Hstep.
    destruct (rfc7748_arith x_1 u2 t2 u3 t3) as [[[y2 w2] y3] w3]. destruct Hstep as (s' & -> & Hs'). cbn [res_bind]. apply IH; [lia | done].
Qed.
End Ladder.

(** ** The arguments *)

Lemma unpack_loop_spec n i b :
  length b = (2 * (i + n))%nat -> is_bytes b ->
  exists o, unpack_loop n i b = Ok o /\ length o = n /\ Forall (is_limb 16) o /\ lval 16 o = of_le (drop (2 * i) b).
Proof.
  intros Hl Hb. revert i Hl. induction n as [|n IH]; intros i Hl; cbn [unpack_loop].
  - exists []. rewrite drop_ge by lia. done.
  - destruct (lookup_lt_is_Some_2 b (2 * i) ltac:(lia)) as [lo Hlo]. destruct (lookup_lt_is_Some_2 b (2 * i + 1) ltac:(lia)) as [hi Hhi].
    pose proof (is_bytes_lookup _ _ _ Hb Hlo) as Blo. pose proof (is_bytes_lookup _ _ _ Hb Hhi) as Bhi. unfold is_byte in *.
    rewrite (rd_ok _ _ _ Hlo), (rd_ok _ _ _ Hhi). cbn [res_bind]. destruct (IH (S i) ltac:(lia)) as (o & -> & Ho & Hlimbs & Hv). cbn [res_bind].
    eexists. split; [reflexivity|]. rewrite Z.shiftl_mul_pow2 by lia. split_and!; [cbn; lia | constructor; [lia | done]|].
    rewrite lval_cons, Hv, (drop_S _ _ _ Hlo). replace (S (2 * i)) with (2 * i + 1)%nat by lia. rewrite (drop_S _ _ _ Hhi).
    replace (S (2 * i + 1)) with (2 * S i)%nat by lia. cbn [of_le]. ring.
Qed.

Lemma unpack25519_spec u :
  length u = 32%nat -> is_bytes u -> exists o, unpack25519 u = Ok o /\ repr loose o (decodeUCoordinate u mod p25519).
Proof.
  intros Hl Hb. unfold unpack25519. destruct (unpack_loop_spec 16 0 u Hl Hb) as (o & -> & Ho & Hlimbs & Hv). cbn [res_bind]. rewrite drop_0 in Hv.
  destruct (lookup_lt_is_Some_2 o 15 ltac:(lia)) as [top Ht]. destruct (lookup_lt_is_Some_2 u 31 ltac:(lia)) as [b Hb31]. rewrite (rd_ok _ _ _ Ht). cbn [res_bind].
  assert (H16 : 0 <= top < 2 ^ 16) by (exact (proj1 (Forall_lookup _ _) Hlimbs _ _ Ht)). pose proof (is_bytes_lookup _ _ _ Hb Hb31) as H8. unfold is_byte in H8.
  change 0x7fff with (Z.ones 15). rewrite Z.land_ones by lia. eexists. split; [reflexivity|]. split.
  - by rewrite length_insert.
  - apply bounded_insert; [by apply (limbs_bounded 16) | modlia].
  - f_equal. unfold decodeUCoordinate. rewrite (list_lookup_total_correct _ _ _ Hb31). change 127 with (Z.ones 7). rewrite Z.land_ones by lia.
    rewrite of_le_lval, (lval_insert 16 _ _ _ _ Ht), (lval_insert 8 _ _ _ _ Hb31), Hv, of_le_lval. do 1 f_equal.
    assert (Etop : top / 2 ^ 8 = b).
    { rewrite <- (lval_top 16 ltac:(lia) o 15 top Hlimbs Ho Ht), <- (lval_top 8 ltac:(lia) u 31 b Hb Hl Hb31), <- of_le_lval, <- Hv. apply Z.div_div; done. }
    change ((2 ^ 16) ^ Z.of_nat 15) with (2 ^ 240). change ((2 ^ 8) ^ Z.of_nat 31) with (2 ^ 248). modlia.
Qed.

Lemma clamp_spec n :
  length n = 32%nat -> is_bytes n -> exists z, clamp n = Ok z /\ length z = 32%nat /\ is_bytes z /\ of_le z = decodeScalar25519 n.
Proof.
  intros Hl Hb. destruct n as [|n0 n]; [done|]. destruct (exists_last (l := n)) as (m & n31 & ->); [by destruct n|]. cbn [length] in Hl.
  rewrite length_app in Hl. cbn [length] in Hl. assert (Hm : length m = 30%nat) by lia. assert (H31 : 31%nat = length (n0 :: m)) by (cbn; lia).
  assert (Hn31 : (n0 :: m ++ [n31]) !! 31%nat = Some n31) by (rewrite H31; apply (lookup_mid (n0 :: m))).
  assert (Hz : clamp (n0 :: m ++ [n31]) = Ok (Z.land n0 248 :: m ++ [Z.lor (Z.land n31 127) 64])).
  { unfold clamp. rewrite copy_from_ok by (cbn [length]; rewrite length_app; cbn; lia). cbn [res_bind]. rewrite (rd_ok _ _ _ Hn31). cbn [res_bind]. rewrite drop_0.
    change (n0 :: m ++ [n31]) with ((n0 :: m) ++ [n31]). rewrite H31, take_app_length. done. }
  eexists. split; [exact Hz|]. inversion_clear Hb as [|? ? H0 Hb']. apply Forall_app in Hb' as [Hbm H31']. inversion_clear H31' as [|? ? Hb31 _].
  split; [cbn [length]; rewrite length_app; cbn; lia|]. split.
  - constructor; [by apply land_byte|]. apply Forall_app_2; [done|]. constructor; [|done]. apply lor_byte; [by apply land_byte | done].
  - unfold decodeScalar25519. rewrite (list_lookup_total_correct _ _ _ Hn31). change ((n0 :: ?l) !!! 0%nat) with n0. change (<[0%nat := ?v]> (n0 :: ?l)) with (v :: l).
    rewrite H31. change (length (n0 :: m)) with (length (Z.land n0 248 :: m)). change (?v :: m ++ [n31]) with ((v :: m) ++ [n31]). by rewrite insert_mid.
Qed.

Lemma gf0_repr : repr loose gf0 0.
Proof. split; [done | by apply Forall_replicate | done]. Qed.
Lemma gf1_repr : repr loose gf1 1.
Proof. split; [done | repeat constructor; done | done]. Qed.

Lemma curve25519_mul_spec n p :
  length n = 32%nat -> is_bytes n -> length p = 32%nat -> is_bytes p -> cf_curve25519_mul n p = Ok (rfc7748_X25519 n p).
Proof.
  intros Hn Hbn Hp Hbp. unfold cf_curve25519_mul, rfc7748_X25519, rfc7748_ladder.
  destruct (clamp_spec n Hn Hbn) as (z & -> & Hz & Hbz & Hk). cbn [res_bind]. destruct (unpack25519_spec p Hp Hbp) as (x & -> & Hx). cbn [res_bind].
  set (x_1 := decodeUCoordinate p mod p25519) in *. set (k := decodeScalar25519 n) in *.
  destruct (ladder_loop_spec x x_1 Hx 255 z k (gf1, x, gf0, gf1) 1 x_1 0 1 false Hbz ltac:(lia) Hk) as (a & b & c & d & -> & Ha & Hc).
  { split_and!; auto using gf0_repr, gf1_repr. }
  cbn [res_bind]. destruct (rfc7748_loop 255 k x_1 1 0 x_1 1 false) as [x_2 z_2]. cbn [fst snd] in *.
  destruct (inv25519_spec c z_2 Hc) as (c' & -> & Hc'). cbn [res_bind]. gf_op (gf_mul_spec _ _ _ _ _ _ Ha Hc') o Ho.
  by apply (pack25519_spec _ _ _ Ho).
Qed.

(** C9: [cf_curve25519_mul] computes X25519 of RFC 7748 for every scalar and every
    point of 32 octets, the points with non-canonical coordinates included: the
    Montgomery ladder, the inversion by Fermat's theorem and the conversion to the
    canonical form are the RFC's, no 64-bit operation overflows, and no access leaves
    its array. *)
Theorem x25519_is_rfc7748 n p :
  length n = 32%nat -> is_bytes n -> length p = 32%nat -> is_bytes p ->
  cf_curve25519_mul n p = Ok (rfc7748_X25519 n p) /\ cf_curve25519_mul_base n = Ok (rfc7748_X25519 n _9).
Proof. intros Hn Hbn Hp Hbp. split; apply curve25519_mul_spec; try done. by repeat constructor. Qed.

(** Section 5.2 *)
Definition rfc_scalar : bytes := hex "a546e36bf0527c9d3b16154b82465edd62144c0ac1fc5a18506a2244ba449ac4".
Definition rfc_point : bytes := hex "e6db6867583030db3594c1a424b15f7c726624ec26b3353b10a903a6d0ab1c4c".

Lemma x25519_is_rfc7748_witness :
  cf_curve25519_mul rfc_scalar rfc_point = Ok (rfc7748_X25519 rfc_scalar rfc_point) /\ cf_curve25519_mul_base rfc_scalar = Ok (rfc7748_X25519 rfc_scalar _9).
Proof. apply (x25519_is_rfc7748 rfc_scalar rfc_point); try reflexivity; apply (bool_decide_unpack _); vm_compute; exact I. Defined.
