(* ===== verification/Aes.v ===== *)
(** * Aes: the block cipher of the minicrypto backend

    [src/deps/cifra/src/aes.c]: AES on columns packed into 32-bit words, with table
    look-ups that touch the whole table. Main results: encryption is the Cipher of
    FIPS 197 for keys of 128, 192 and 256 bits, and decryption inverts it
    ([aes_encrypt_spec], [aes_decrypt_spec]). *)
From Stdlib Require Import Btauto.
From S2P Require Import Prelude Blockwise Bitops.

(** ** aes.c *)

Definition S_box : bytes :=
  hex "637c777bf26b6fc53001672bfed7ab76ca82c97dfa5947f0add4a2af9ca472c0b7fd9326363ff7cc34a5e5f171d8311504c723c31896059a071280e2eb27b275" ++
  hex "09832c1a1b6e5aa0523bd6b329e32f8453d100ed20fcb15b6acbbe394a4c58cfd0efaafb434d338545f9027f503c9fa851a3408f929d38f5bcb6da2110fff3d2" ++
  hex "cd0c13ec5f974417c4a77e3d645d197360814fdc222a908846eeb814de5e0bdbe0323a0a4906245cc2d3ac629195e479e7c8376d8dd54ea96c56f4ea657aae08" ++
  hex "ba78252e1ca6b4c6e8dd741f4bbd8b8a703eb5664803f60e613557b986c11d9ee1f8981169d98e949b1e87e9ce5528df8ca1890dbfe6426841992d0fb054bb16".
Definition Rcon : bytes := hex "8d01020408102040801b36".
Definition S_inv : bytes :=
  hex "52096ad53036a538bf40a39e81f3d7fb7ce339829b2fff87348e4344c4dee9cb547b9432a6c2233dee4c950b42fac34e082ea16628d924b2765ba2496d8bd125" ++
  hex "72f8f66486689816d4a45ccc5d65b6926c704850fdedb9da5e154657a78d9d8490d8ab008cbcd30af7e45805b8b34506d02c1e8fca3f0f02c1afbd0301138a6b" ++
  hex "3a9111414f67dcea97f2cfcef0b4e67396ac7422e7ad3585e2f937e81c75df6e47f11a711d29c5896fb7620eaa18be1bfc563e4bc6d279209adbc0fe78cd5af4" ++
  hex "1fdda8338807c731b11210592780ec5f60517fa919b54a0d2de57a9f93c99cefa0e03b4dae2af5b0c8ebbb3c83539961172b047eba77d626e169146355210c7d".

Definition AES_BLOCKSZ : nat := 16.
Definition AES128_ROUNDS : nat := 10.
Definition AES192_ROUNDS : nat := 12.
Definition AES256_ROUNDS : nat := 14.
Definition CF_AES_MAXROUNDS : nat := AES256_ROUNDS.

Definition word4 (a b c d : Z) : Z :=
  Z.lor (Z.lor (Z.lor (u32 (Z.shiftl a 24)) (u32 (Z.shiftl b 16))) (u32 (Z.shiftl c 8))) d.
Definition byte (w x : Z) : Z := Z.land (Z.shiftr w (Z.shiftl (3 - x) 3)) 0xff.
Definition round_constant (i : nat) : res Z := let! r := rd Rcon i in Ok (u32 (Z.shiftl r 24)).
Definition rot_word (w : Z) : Z := rotl32 w 8.

Definition sub_word (w : Z) (sbox : bytes) : Z :=
  let '(a, b, c, d) := select_u8x4 (byte w 0) (byte w 1) (byte w 2) (byte w 3) sbox in
  word4 a b c d.

Record cf_aes_context := mk_aes { rounds : nat; ks : list Z }.

Definition write_word (w : list Z) (i : nat) (v : Z) : res (list Z) :=
  if (i <? length w)%nat then Ok (<[i := v]> w) else Stuck OutOfBounds.

(** The first [nk] words are the key. *)
Fixpoint key_words (n i : nat) (key : bytes) (w : list Z) : res (list Z) :=
  match n with
  | O => Ok w
  | S n =>
      let! v := read32_be key (i * 4) in
      let! w := write_word w i v in
      key_words n (S i) key w
  end.

(** [n] turns of the second loop, from index [i] on. *)
Fixpoint schedule_loop (n i nk i_div_nk i_mod_nk : nat) (w : list Z) : res (list Z) :=
  match n with
  | O => Ok w
  | S n =>
      let! temp := rd w (i - 1) in
      let '(i_div_nk, i_mod_nk) := if (i_mod_nk =? nk)%nat then (S i_div_nk, O) else (i_div_nk, i_mod_nk) in
      let! temp :=
        if (i_mod_nk =? 0)%nat then let! rc := round_constant i_div_nk in Ok (Z.lxor (sub_word (rot_word temp) S_box) rc)
        else if (6 <? nk)%nat && (i_mod_nk =? 4)%nat then Ok (sub_word temp S_box)
        else Ok temp in
      let! prev := rd w (i - nk) in
      let! w := write_word w i (Z.lxor prev temp) in
      schedule_loop n (S i) nk i_div_nk (S i_mod_nk) w
  end.

Definition aes_schedule (ctx : cf_aes_context) (key : bytes) (nkey : nat) : res cf_aes_context :=
  let nb := (AES_BLOCKSZ / 4)%nat in
  let nk := (nkey / 4)%nat in
  let n := (nb * (rounds ctx + 1))%nat in
  let! w := key_words nk 0 key (ks ctx) in
  let! w := schedule_loop (n - nk) nk nk 1 0 w in
  Ok (mk_aes (rounds ctx) w).

(** After [memset(ctx, 0, sizeof *ctx)] *)
Definition aes_cleared : cf_aes_context := mk_aes 0 (replicate (AES_BLOCKSZ / 4 * (CF_AES_MAXROUNDS + 1)) 0).

Definition cf_aes_init (key : bytes) (nkey : nat) : res cf_aes_context :=
  match nkey with
  | 16 => aes_schedule (mk_aes AES128_ROUNDS (ks aes_cleared)) key nkey
  | 24 => aes_schedule (mk_aes AES192_ROUNDS (ks aes_cleared)) key nkey
  | 32 => aes_schedule (mk_aes AES256_ROUNDS (ks aes_cleared)) key nkey
  | _ => Stuck Aborted
  end%nat.

(** [uint32_t state[4]] *)
Inductive aes_state := St (s0 s1 s2 s3 : Z).

Definition add_round_key (s : aes_state) (rk : list Z) (off : nat) : res aes_state :=
  let 'St s0 s1 s2 s3 := s in
  let! k0 := rd rk off in let! k1 := rd rk (off + 1) in let! k2 := rd rk (off + 2) in let! k3 := rd rk (off + 3) in
  Ok (St (Z.lxor s0 k0) (Z.lxor s1 k1) (Z.lxor s2 k2) (Z.lxor s3 k3)).

Definition sub_block (s : aes_state) : aes_state :=
  let 'St s0 s1 s2 s3 := s in St (sub_word s0 S_box) (sub_word s1 S_box) (sub_word s2 S_box) (sub_word s3 S_box).

Definition shift_rows (s : aes_state) : aes_state :=
  let 'St s0 s1 s2 s3 := s in
  St (word4 (byte s0 0) (byte s1 1) (byte s2 2) (byte s3 3)) (word4 (byte s1 0) (byte s2 1) (byte s3 2) (byte s0 3))
     (word4 (byte s2 0) (byte s3 1) (byte s0 2) (byte s1 3)) (word4 (byte s3 0) (byte s0 1) (byte s1 2) (byte s2 3)).

Definition gf_poly_mul2 (x : Z) : Z :=
  Z.lxor (u32 (Z.shiftl (Z.land x 0x7f7f7f7f) 1)) (u32 (Z.shiftr (Z.land x 0x80808080) 7 * 0x1b)).

Definition mix_column (x : Z) : Z :=
  let x2 := gf_poly_mul2 x in
  Z.lxor (Z.lxor (Z.lxor x2 (rotr32 (Z.lxor x x2) 24)) (rotr32 x 16)) (rotr32 x 8).

Definition mix_columns (s : aes_state) : aes_state :=
  let 'St s0 s1 s2 s3 := s in St (mix_column s0) (mix_column s1) (mix_column s2) (mix_column s3).

Definition read_state (inp : bytes) : res aes_state :=
  let! s0 := read32_be inp 0 in let! s1 := read32_be inp 4 in let! s2 := read32_be inp 8 in let! s3 := read32_be inp 12 in
  Ok (St s0 s1 s2 s3).
Definition write_state (s : aes_state) : bytes :=
  let 'St s0 s1 s2 s3 := s in write32_be s0 ++ write32_be s1 ++ write32_be s2 ++ write32_be s3.

Fixpoint encrypt_rounds (n : nat) (s : aes_state) (w : list Z) (round_keys : nat) : res (aes_state * nat) :=
  match n with
  | O => Ok (s, round_keys)
  | S n =>
      let! s := add_round_key (mix_columns (shift_rows (sub_block s))) w round_keys in
      encrypt_rounds n s w (round_keys + 4)
  end.

Definition known_rounds (ctx : cf_aes_context) : bool :=
  (rounds ctx =? AES128_ROUNDS)%nat || (rounds ctx =? AES192_ROUNDS)%nat || (rounds ctx =? AES256_ROUNDS)%nat.

Definition cf_aes_encrypt (ctx : cf_aes_context) (inp : bytes) : res bytes :=
  let! _ := c_assert (known_rounds ctx) in
  let! s := read_state inp in
  let! s := add_round_key s (ks ctx) 0 in
  let! '(s, round_keys) := encrypt_rounds (rounds ctx - 1) s (ks ctx) 4 in
  let! s := add_round_key (shift_rows (sub_block s)) (ks ctx) round_keys in
  Ok (write_state s).

Definition inv_sub_block (s : aes_state) : aes_state :=
  let 'St s0 s1 s2 s3 := s in St (sub_word s0 S_inv) (sub_word s1 S_inv) (sub_word s2 S_inv) (sub_word s3 S_inv).

Definition inv_shift_rows (s : aes_state) : aes_state :=
  let 'St s0 s1 s2 s3 := s in
  St (word4 (byte s0 0) (byte s3 1) (byte s2 2) (byte s1 3)) (word4 (byte s1 0) (byte s0 1) (byte s3 2) (byte s2 3))
     (word4 (byte s2 0) (byte s1 1) (byte s0 2) (byte s3 3)) (word4 (byte s3 0) (byte s2 1) (byte s1 2) (byte s0 3)).

Definition inv_mix_column (x : Z) : Z :=
  let x2 := gf_poly_mul2 x in
  let x4 := gf_poly_mul2 x2 in
  let x9 := Z.lxor x (gf_poly_mul2 x4) in
  let x11 := Z.lxor x2 x9 in
  let x13 := Z.lxor x4 x9 in
  Z.lxor (Z.lxor (Z.lxor (Z.lxor (Z.lxor x x2) x13) (rotr32 x11 24)) (rotr32 x13 16)) (rotr32 x9 8).

Definition inv_mix_columns (s : aes_state) : aes_state :=
  let 'St s0 s1 s2 s3 := s in St (inv_mix_column s0) (inv_mix_column s1) (inv_mix_column s2) (inv_mix_column s3).

Fixpoint decrypt_rounds (n : nat) (s : aes_state) (w : list Z) (round_keys : nat) : res (aes_state * nat) :=
  match n with
  | O => Ok (s, round_keys)
  | S n =>
      let! s := add_round_key (inv_sub_block (inv_shift_rows s)) w round_keys in
      decrypt_rounds n (inv_mix_columns s) w (round_keys - 4)
  end.

Definition cf_aes_decrypt (ctx : cf_aes_context) (inp : bytes) : res bytes :=
  let! _ := c_assert (known_rounds ctx) in
  let! s := read_state inp in
  let! s := add_round_key s (ks ctx) (rounds ctx * 4) in
  let! '(s, round_keys) := decrypt_rounds (rounds ctx - 1) s (ks ctx) (rounds ctx * 4 - 4) in
  let! s := add_round_key (inv_sub_block (inv_shift_rows s)) (ks ctx) round_keys in
  Ok (write_state s).

(** ** FIPS 197 *)

(** The field with 256 elements (section 4): multiplication by [x], and by [a]. *)
Definition xtime (b : Z) : Z := if b <? 128 then 2 * b else Z.lxor (2 * b) 0x11b.
Fixpoint gf_mul_loop (n : nat) (a b : Z) : Z :=
  match n with
  | O => 0
  | S n => Z.lxor (if Z.odd a then b else 0) (gf_mul_loop n (a / 2) (xtime b))
  end.
Definition gf_mul (a b : Z) : Z := gf_mul_loop 8 a b.

(** The S-box (section 5.1.1): the inverse, [b^254], followed by an affine map. *)
Definition gf_inverse (b : Z) : Z :=
  (Nat.iter 7 (fun '(acc, sq) => let sq := gf_mul sq sq in (gf_mul acc sq, sq)) (1, b)).1.
Definition affine_bit (b i : Z) : bool :=
  xorb (Z.testbit b i) (xorb (Z.testbit b ((i + 4) mod 8)) (xorb (Z.testbit b ((i + 5) mod 8))
    (xorb (Z.testbit b ((i + 6) mod 8)) (xorb (Z.testbit b ((i + 7) mod 8)) (Z.testbit 0x63 i))))).
Definition sbox (b : Z) : Z :=
  foldr (fun i acc => Z.b2z (affine_bit (gf_inverse b) (Z.of_nat i)) * 2 ^ Z.of_nat i + acc) 0 (seq 0 8).

(** The state is the list of its 16 octets, column by column. *)
Definition SubBytes (st : bytes) : bytes := map sbox st.
Definition ShiftRows (st : bytes) : bytes := map (fun i => st !!! ((i + 4 * (i mod 4)) mod 16)%nat) (seq 0 16).
Definition mix (col : bytes) : bytes :=
  map (fun i => Z.lxor (Z.lxor (Z.lxor (gf_mul 2 (col !!! i)) (gf_mul 3 (col !!! ((i + 1) mod 4)%nat))) (col !!! ((i + 2) mod 4)%nat))
                       (col !!! ((i + 3) mod 4)%nat)) (seq 0 4).
Definition MixColumns (st : bytes) : bytes := concat (map mix (blocks_of 4 4 st)).
Definition AddRoundKey (st k : bytes) : bytes := zip_with Z.lxor st k.

(** Key expansion (section 5.2): [w] holds the words so far. *)
Definition fips_rcon (j : nat) : bytes := [Nat.iter (j - 1) xtime 1; 0; 0; 0].
Definition RotWord (w : bytes) : bytes := drop 1 w ++ take 1 w.
Definition expand_step (nk : nat) (w : list bytes) : list bytes :=
  let i := length w in
  let temp := w !!! (i - 1)%nat in
  let temp :=
    if (i mod nk =? 0)%nat then zip_with Z.lxor (map sbox (RotWord temp)) (fips_rcon (i / nk))
    else if (6 <? nk)%nat && (i mod nk =? 4)%nat then map sbox temp
    else temp in
  w ++ [zip_with Z.lxor (w !!! (i - nk)%nat) temp].
Definition KeyExpansion (nk nr : nat) (key : bytes) : list bytes := Nat.iter (4 * (nr + 1) - nk) (expand_step nk) (blocks_of 4 nk key).
Definition round_key (w : list bytes) (r : nat) : bytes := concat (take 4 (drop (4 * r) w)).

Definition Cipher (nk nr : nat) (key inp : bytes) : bytes :=
  let w := KeyExpansion nk nr key in
  let st := foldl (fun st r => AddRoundKey (MixColumns (ShiftRows (SubBytes st))) (round_key w r)) (AddRoundKey inp (round_key w 0)) (seq 1 (nr - 1)) in
  AddRoundKey (ShiftRows (SubBytes st)) (round_key w nr).

(** The number of rounds for a key of [nkey] octets, and the cipher with this key. *)
Definition fips_rounds (nkey : nat) : nat := (nkey / 4 + 6)%nat.
Definition fips_aes (key inp : bytes) : bytes := Cipher (length key / 4) (fips_rounds (length key)) key inp.

(** Appendix C *)
Example fips_aes128 : fips_aes (hex "000102030405060708090a0b0c0d0e0f") (hex "00112233445566778899aabbccddeeff") = hex "69c4e0d86a7b0430d8cdb78070b4c55a".
Proof. by vm_compute. Qed.
Example fips_aes256 :
  fips_aes (hex "000102030405060708090a0b0c0d0e0f101112131415161718191a1b1c1d1e1f") (hex "00112233445566778899aabbccddeeff") =
    hex "8ea2b7ca516745bfeafc49904b496089".
Proof. by vm_compute. Qed.

(** ** The S-box *)

Lemma S_box_spec b : is_byte b -> S_box !!! Z.to_nat b = sbox b.
Proof. intros Hb. apply Z.eqb_eq. by apply (byte_forall (fun b => S_box !!! Z.to_nat b =? sbox b)); [vm_compute|]. Qed.

Lemma S_inv_spec b : is_byte b -> S_inv !!! Z.to_nat (S_box !!! Z.to_nat b) = b.
Proof. intros Hb. apply Z.eqb_eq. by apply (byte_forall (fun b => S_inv !!! Z.to_nat (S_box !!! Z.to_nat b) =? b)); [vm_compute|]. Qed.

Lemma S_box_bytes : is_bytes S_box.
Proof. apply (bool_decide_unpack _). by vm_compute. Qed.
Lemma S_inv_bytes : is_bytes S_inv.
Proof. apply (bool_decide_unpack _). by vm_compute. Qed.

Lemma table_byte (tab : bytes) i : is_bytes tab -> is_byte (tab !!! i).
Proof.
  intros Ht. destruct (tab !! i) as [b|] eqn:E.
  - rewrite (list_lookup_total_correct _ _ _ E). by apply (is_bytes_lookup tab i).
  - rewrite list_lookup_total_alt, E. by split.
Qed.

Lemma sbox_byte b : is_byte b -> is_byte (sbox b).
Proof. intros Hb. rewrite <- S_box_spec by done. apply table_byte, S_box_bytes. Qed.

(** ** Words *)

Ltac bytes4 H := repeat (apply Forall_cons_1 in H as [? H]); clear H; unfold is_byte in *.

Lemma byte_spec a b c d :
  is_bytes [a; b; c; d] ->
  byte (of_be [a; b; c; d]) 0 = a /\ byte (of_be [a; b; c; d]) 1 = b /\ byte (of_be [a; b; c; d]) 2 = c /\ byte (of_be [a; b; c; d]) 3 = d.
Proof.
  intros H. unfold byte. rewrite !land_ff, !of_be4 by done. unfold u8. bytes4 H.
  change (Z.shiftl (3 - 0) 3) with 24. change (Z.shiftl (3 - 1) 3) with 16. change (Z.shiftl (3 - 2) 3) with 8. change (Z.shiftl (3 - 3) 3) with 0.
  rewrite !Z.shiftr_div_pow2, Z.pow_0_r by lia. change (2 ^ 24) with (2 ^ 8 * 2 ^ 8 * 2 ^ 8). change (2 ^ 16) with (2 ^ 8 * 2 ^ 8).
  split_and!; modlia.
Qed.

Lemma sub_word_spec tab a b c d :
  is_bytes tab -> length tab = 256%nat -> is_bytes [a; b; c; d] ->
  sub_word (of_be [a; b; c; d]) tab = of_be (map (fun b => tab !!! Z.to_nat b) [a; b; c; d]).
Proof.
  intros Ht Hl H. unfold sub_word. destruct (byte_spec a b c d H) as (-> & -> & -> & ->). rewrite select_u8x4_spec.
  pose proof H as H'. bytes4 H'. rewrite !select_u8_spec by (done || lia). unfold word4. rewrite shifted_word; [done|].
  repeat constructor; by apply table_byte.
Qed.

Lemma rotl_split k hi lo :
  0 < k < 32 -> 0 <= hi < 2 ^ k -> 0 <= lo < 2 ^ (32 - k) -> rotl32 (hi * 2 ^ (32 - k) + lo) k = lo * 2 ^ k + hi.
Proof.
  intros Hk Hhi Hlo. unfold rotl32, u32. rewrite Z.shiftr_div_pow2, Z.shiftl_mul_pow2 by lia.
  pose proof (pow2_pos k ltac:(lia)). pose proof (pow2_pos (32 - k) ltac:(lia)).
  assert (Hp : 2 ^ 32 = 2 ^ (32 - k) * 2 ^ k) by (rewrite <- Z.pow_add_r by lia; f_equal; lia). rewrite Hp.
  rewrite Z.mul_mod_distr_r by lia. rewrite Z.add_comm, Z.mod_add, Z.mod_small, Z.add_comm, Z.div_add_l, Z.div_small, Z.add_0_r by lia.
  rewrite <- (Z.shiftl_mul_pow2 lo) by lia. by rewrite lor_shiftl_add, Z.shiftl_mul_pow2 by lia.
Qed.

Lemma rotr_rotl x n : rotr32 x n = rotl32 x (32 - n).
Proof. unfold rotr32, rotr, rotl32. rewrite Z.lor_comm. do 2 f_equal. lia. Qed.

Lemma rotl_word8 a b c d : is_bytes [a; b; c; d] -> rotl32 (of_be [a; b; c; d]) 8 = of_be [b; c; d; a].
Proof.
  intros H. pose proof H as H'. bytes4 H'. rewrite !of_be4 by solve_bytes.
  etransitivity; [|etransitivity; [apply (rotl_split 8 a ((b * 2 ^ 8 + c) * 2 ^ 8 + d)); lia | lia]]; f_equal; lia.
Qed.
Lemma rotl_word16 a b c d : is_bytes [a; b; c; d] -> rotl32 (of_be [a; b; c; d]) 16 = of_be [c; d; a; b].
Proof.
  intros H. pose proof H as H'. bytes4 H'. rewrite !of_be4 by solve_bytes.
  etransitivity; [|etransitivity; [apply (rotl_split 16 (a * 2 ^ 8 + b) (c * 2 ^ 8 + d)); lia | lia]]; f_equal; lia.
Qed.
Lemma rotl_word24 a b c d : is_bytes [a; b; c; d] -> rotl32 (of_be [a; b; c; d]) 24 = of_be [d; a; b; c].
Proof.
  intros H. pose proof H as H'. bytes4 H'. rewrite !of_be4 by solve_bytes.
  etransitivity; [|etransitivity; [apply (rotl_split 24 ((a * 2 ^ 8 + b) * 2 ^ 8 + c) d); lia | lia]]; f_equal; lia.
Qed.

Lemma xtime_byte b : is_byte b -> is_byte (xtime b).
Proof.
  intros Hb. assert (E : ((0 <=? xtime b) && (xtime b <? 256)) = true) by (by apply (byte_forall (fun b => (0 <=? xtime b) && (xtime b <? 256))); [vm_compute|]).
  unfold is_byte. apply andb_true_iff in E as [? ?]. b2p. lia.
Qed.

Lemma map_bytes (f : Z -> Z) l : (forall b, is_byte b -> is_byte (f b)) -> is_bytes l -> is_bytes (map f l).
Proof. intros Hf. induction 1; constructor; auto. Qed.

Lemma map_ext_bytes (f g : Z -> Z) l : (forall b, is_byte b -> f b = g b) -> is_bytes l -> map f l = map g l.
Proof. intros Hf. induction 1 as [|b l Hb Hl IH]; [done|]. cbn [map]. by rewrite Hf, IH. Qed.

(** The three octet functions the packed doubling is made of. *)
Lemma doubling_byte b :
  is_byte b ->
  is_byte (2 * Z.land b 0x7f) /\ is_byte (b / 128) /\ is_byte (27 * (b / 128)) /\ Z.land b 0x80 = 128 * (b / 128) /\
  Z.lxor (2 * Z.land b 0x7f) (27 * (b / 128)) = xtime b.
Proof.
  intros Hb. assert (E : let x := 2 * Z.land b 0x7f in
    ((0 <=? x) && (x <? 256) && (Z.land b 0x80 =? 128 * (b / 128)) && (Z.lxor x (27 * (b / 128)) =? xtime b)) = true).
  { apply (byte_forall (fun b => let x := 2 * Z.land b 0x7f in
      (0 <=? x) && (x <? 256) && (Z.land b 0x80 =? 128 * (b / 128)) && (Z.lxor x (27 * (b / 128)) =? xtime b))); [by vm_compute | done]. }
  cbv zeta in E. b2p. unfold is_byte in *. split_and!; try lia; modlia.
Qed.

Lemma gf_poly_mul2_spec l : is_bytes l -> length l = 4%nat -> gf_poly_mul2 (of_be l) = of_be (map xtime l).
Proof.
  intros Hl Hlen. unfold gf_poly_mul2. change 0x7f7f7f7f with (of_be (replicate 4 0x7f)). change 0x80808080 with (of_be (replicate 4 0x80)).
  rewrite !of_be_land by (done || by apply Forall_replicate). rewrite !zip_with_replicate_r_eq by done.
  assert (Hlow : is_bytes (map (Z.mul 2) (map (fun b => Z.land b 0x7f) l))) by (rewrite map_map; apply map_bytes; [apply doubling_byte | done]).
  assert (Htop : is_bytes (map (fun b => b / 128) l)) by (apply map_bytes; [apply doubling_byte | done]).
  assert (Hred : is_bytes (map (Z.mul 27) (map (fun b => b / 128) l))) by (rewrite map_map; apply map_bytes; [apply doubling_byte | done]).
  change (flip Z.land 0x7f <$> l) with (map (fun b => Z.land b 0x7f) l). change (flip Z.land 0x80 <$> l) with (map (fun b => Z.land b 0x80) l).
  rewrite (map_ext_bytes (fun b => Z.land b 0x80) (fun b => 128 * (b / 128)) l) by (done || apply doubling_byte).
  rewrite <- (map_map (fun b => b / 128) (Z.mul 128)).
  assert (Hmul : is_bytes (map (Z.mul 128) (map (fun b => b / 128) l))).
  { rewrite map_map. apply map_bytes; [|done]. intros b Hb. destruct (doubling_byte b Hb) as (_ & _ & _ & <- & _). by apply land_byte. }
  rewrite (of_be_scale 128), Z.shiftl_mul_pow2, Z.shiftr_div_pow2 by (done || lia). change (2 ^ 7) with 128. rewrite Z.mul_comm, (Z.mul_comm 128), Z.div_mul by lia.
  assert (Hx : is_bytes (map (fun b => Z.land b 0x7f) l)) by (apply map_bytes; [intros; by apply land_byte | done]).
  rewrite (Z.mul_comm _ 27). change (2 ^ 1) with 2. rewrite <- !of_be_scale by done.
  assert (Hsmall : forall x, is_bytes x -> length x = 4%nat -> u32 (of_be x) = of_be x).
  { intros x Hb Hl4. pose proof (of_be_range x Hb) as R. rewrite Hl4 in R. by apply Z.mod_small. }
  rewrite !Hsmall, of_be_lxor by (done || by rewrite !length_map). f_equal. rewrite !map_map. clear -Hl.
  induction Hl as [|b l Hb Hl IH]; [done|]. cbn [map zip_with]. rewrite IH. f_equal. by apply doubling_byte.
Qed.

(** ** MixColumns *)

Lemma xtime_shift b : is_byte b -> xtime b = Z.lxor (Z.shiftl b 1) (if Z.testbit b 7 then 0x11b else 0).
Proof.
  intros Hb. apply Z.eqb_eq.
  by apply (byte_forall (fun b => xtime b =? Z.lxor (Z.shiftl b 1) (if Z.testbit b 7 then 0x11b else 0))); [vm_compute|].
Qed.

(** Equations between exclusive ors, bit by bit. *)
Ltac xor_solve := apply Z.bits_inj'; intros ? _; rewrite ?Z.lxor_spec; btauto.

Lemma xtime_lxor a b : is_byte a -> is_byte b -> xtime (Z.lxor a b) = Z.lxor (xtime a) (xtime b).
Proof.
  intros Ha Hb. rewrite !xtime_shift by auto using lxor_byte. rewrite Z.shiftl_lxor, Z.lxor_spec.
  destruct (Z.testbit a 7), (Z.testbit b 7); cbn [xorb]; rewrite ?Z.lxor_0_r; xor_solve.
Qed.

Lemma gf_mul2 b : is_byte b -> gf_mul 2 b = xtime b.
Proof. intros Hb. apply Z.eqb_eq. by apply (byte_forall (fun b => gf_mul 2 b =? xtime b)); [vm_compute|]. Qed.
Lemma gf_mul3 b : is_byte b -> gf_mul 3 b = Z.lxor b (xtime b).
Proof. intros Hb. apply Z.eqb_eq. by apply (byte_forall (fun b => gf_mul 3 b =? Z.lxor b (xtime b))); [vm_compute|]. Qed.

(** Explicit octets, and exclusive ors of words of them. *)
Ltac solve_octets :=
  repeat first [assumption | apply List.Forall_nil | apply List.Forall_cons | apply lxor_byte | apply xtime_byte | apply sbox_byte].
Ltac merge_words := repeat (rewrite of_be_lxor by (reflexivity || solve_octets); cbn [zip_with]).

(** The columns as four octets. *)
Lemma mix4 a b c d :
  is_bytes [a; b; c; d] ->
  mix [a; b; c; d] =
    [Z.lxor (Z.lxor (Z.lxor (xtime a) (Z.lxor b (xtime b))) c) d; Z.lxor (Z.lxor (Z.lxor (xtime b) (Z.lxor c (xtime c))) d) a;
     Z.lxor (Z.lxor (Z.lxor (xtime c) (Z.lxor d (xtime d))) a) b; Z.lxor (Z.lxor (Z.lxor (xtime d) (Z.lxor a (xtime a))) b) c].
Proof. intros H. repeat (apply Forall_cons_1 in H as [? H]). unfold mix. cbn -[Z.lxor gf_mul]. by rewrite !gf_mul2, !gf_mul3 by done. Qed.

Lemma mix_column_spec a b c d : is_bytes [a; b; c; d] -> mix_column (of_be [a; b; c; d]) = of_be (mix [a; b; c; d]).
Proof.
  intros H. pose proof H as H'. repeat (apply Forall_cons_1 in H' as [? H']). unfold mix_column. rewrite gf_poly_mul2_spec by done. cbn [map].
  merge_words. rewrite !rotr_rotl. change (32 - 24) with 8. change (32 - 16) with 16. change (32 - 8) with 24.
  rewrite rotl_word8, rotl_word16, rotl_word24 by solve_octets.
  merge_words. by rewrite mix4.
Qed.

(** The inverse, with the coefficients 14, 11, 13 and 9. *)
Definition nine (b : Z) : Z := Z.lxor b (xtime (xtime (xtime b))).
Definition unmix1 (a b c d : Z) : Z :=
  Z.lxor (Z.lxor (Z.lxor (Z.lxor (Z.lxor a (xtime a)) (Z.lxor (xtime (xtime a)) (nine a))) (Z.lxor (xtime b) (nine b))) (Z.lxor (xtime (xtime c)) (nine c))) (nine d).

Lemma inv_mix_column_spec a b c d :
  is_bytes [a; b; c; d] -> inv_mix_column (of_be [a; b; c; d]) = of_be [unmix1 a b c d; unmix1 b c d a; unmix1 c d a b; unmix1 d a b c].
Proof.
  intros H. pose proof H as H'. repeat (apply Forall_cons_1 in H' as [? H']). unfold inv_mix_column.
  rewrite !gf_poly_mul2_spec by (reflexivity || cbn [map]; solve_octets). cbn [map]. merge_words.
  rewrite !rotr_rotl. change (32 - 24) with 8. change (32 - 16) with 16. change (32 - 8) with 24.
  rewrite rotl_word8, rotl_word16, rotl_word24 by solve_octets.
  merge_words. done.
Qed.

Lemma unmix_mix a b c d : is_bytes [a; b; c; d] -> inv_mix_column (of_be (mix [a; b; c; d])) = of_be [a; b; c; d].
Proof.
  intros H. pose proof H as H'. repeat (apply Forall_cons_1 in H' as [? H']). rewrite mix4, inv_mix_column_spec by solve_octets.
  unfold unmix1, nine. repeat rewrite xtime_lxor by solve_octets. repeat (f_equal; try xor_solve).
Qed.

(** ** The state *)

Definition block (st : bytes) : Prop := length st = 16%nat /\ is_bytes st.
Definition state_of (st : bytes) : aes_state :=
  St (of_be (take 4 st)) (of_be (take 4 (drop 4 st))) (of_be (take 4 (drop 8 st))) (of_be (take 4 (drop 12 st))).

(** The sixteen octets of a block. *)
Ltac octets16 st H :=
  let Hl := fresh "Hl" in
  destruct H as [Hl H]; do 16 (destruct st as [|? st]; [discriminate Hl|]); destruct st; [clear Hl | discriminate Hl];
  repeat (apply Forall_cons_1 in H as [? H]).

Lemma read_state_spec inp : block inp -> read_state inp = Ok (state_of inp).
Proof. intros [Hl _]. unfold read_state. rewrite !read32_be_spec by lia. done. Qed.

Lemma write_state_spec st : block st -> write_state (state_of st) = st.
Proof.
  intros H. octets16 st H. unfold write_state, state_of. cbn [take drop]. rewrite !write32_be_spec.
  rewrite !(be_of_be [_; _; _; _]) by solve_octets. done.
Qed.

Lemma sub_block_spec st : block st -> sub_block (state_of st) = state_of (SubBytes st).
Proof.
  intros H. octets16 st H. unfold sub_block, state_of, SubBytes. cbn [take drop map].
  rewrite !sub_word_spec by (apply S_box_bytes || reflexivity || solve_octets). cbn [map]. by rewrite !S_box_spec by done.
Qed.

Lemma shift_rows_spec st : block st -> shift_rows (state_of st) = state_of (ShiftRows st).
Proof.
  intros H. octets16 st H. unfold shift_rows, state_of, ShiftRows. cbn [take drop].
  repeat match goal with |- context [byte (of_be [?a; ?b; ?c; ?d]) _] =>
    destruct (byte_spec a b c d ltac:(solve_octets)) as (-> & -> & -> & ->) end.
  unfold word4. rewrite !shifted_word by solve_octets. done.
Qed.

Lemma state_of_columns (a b c d : bytes) :
  length a = 4%nat -> length b = 4%nat -> length c = 4%nat -> length d = 4%nat ->
  state_of (concat [a; b; c; d]) = St (of_be a) (of_be b) (of_be c) (of_be d).
Proof.
  intros Ha Hb Hc Hd. cbn [concat]. rewrite app_nil_r. unfold state_of.
  rewrite (take_app_length' a), (drop_app_length' a), (take_app_length' b) by done.
  rewrite (drop_app_ge a), (drop_app_ge a), Ha by lia. cbn [Nat.sub]. rewrite (drop_app_length' b), (take_app_length' c) by done.
  rewrite (drop_app_ge b), Hb by lia. cbn [Nat.sub]. rewrite (drop_app_length' c), take_ge by lia. done.
Qed.

Lemma length_mix col : length (mix col) = 4%nat.
Proof. done. Qed.

Lemma mix_columns_spec st : block st -> mix_columns (state_of st) = state_of (MixColumns st).
Proof.
  intros H. octets16 st H. unfold MixColumns. cbn [blocks_of take drop map]. rewrite state_of_columns by apply length_mix.
  unfold mix_columns, state_of. cbn [take drop]. by rewrite !mix_column_spec by solve_octets.
Qed.

Lemma inv_sub_block_spec st : block st -> inv_sub_block (state_of (SubBytes st)) = state_of st.
Proof.
  intros H. octets16 st H. unfold inv_sub_block, state_of, SubBytes. cbn [take drop map].
  rewrite !sub_word_spec by (apply S_inv_bytes || reflexivity || solve_octets). cbn [map]. by rewrite <- !S_box_spec, !S_inv_spec by done.
Qed.

Lemma inv_shift_rows_spec st : block st -> inv_shift_rows (state_of (ShiftRows st)) = state_of st.
Proof.
  intros H. octets16 st H. unfold inv_shift_rows, state_of, ShiftRows. cbn -[byte word4 of_be].
  repeat match goal with |- context [byte (of_be [?a; ?b; ?c; ?d]) _] =>
    destruct (byte_spec a b c d ltac:(solve_octets)) as (-> & -> & -> & ->) end.
  unfold word4. by rewrite !shifted_word by solve_octets.
Qed.

Lemma inv_mix_columns_spec st : block st -> inv_mix_columns (state_of (MixColumns st)) = state_of st.
Proof.
  intros H. octets16 st H. unfold MixColumns. cbn [blocks_of take drop map]. rewrite state_of_columns by apply length_mix.
  unfold inv_mix_columns. by rewrite !unmix_mix by solve_octets.
Qed.

Lemma SubBytes_block st : block st -> block (SubBytes st).
Proof. intros [Hl Hb]. split; [by unfold SubBytes; rewrite length_map | by apply map_bytes; [apply sbox_byte|]]. Qed.

Lemma ShiftRows_block st : block st -> block (ShiftRows st).
Proof.
  intros [Hl Hb]. split; [by unfold ShiftRows; rewrite length_map, length_seq|].
  unfold ShiftRows. apply List.Forall_forall. intros x (i & <- & _)%in_map_iff. by apply table_byte.
Qed.

Lemma MixColumns_block st : block st -> block (MixColumns st).
Proof.
  intros H. octets16 st H. unfold MixColumns. cbn [blocks_of take drop map concat]. rewrite !mix4 by solve_octets. cbn [app].
  split; [reflexivity | solve_octets].
Qed.

Lemma AddRoundKey_block st k : block st -> block k -> block (AddRoundKey st k).
Proof.
  intros [Hl Hb] [Hlk Hbk]. unfold AddRoundKey. split; [rewrite length_zip_with; lia|].
  clear Hl Hlk. revert k Hbk. induction Hb as [|b st Hb Hst IH]; intros k Hk; cbn [zip_with]; [constructor|].
  destruct Hk as [|b' k Hb' Hk]; constructor; [by apply lxor_byte | by apply IH].
Qed.

(** ** Round keys *)

(** The words of the key schedule, and the array that holds them. *)
Definition key_word (x : bytes) : Prop := length x = 4%nat /\ is_bytes x.
Definition holds_key (words : list bytes) (w : list Z) : Prop := Forall key_word words /\ forall i x, words !! i = Some x -> w !! i = Some (of_be x).

Lemma round_key_words words r :
  (4 * r + 4 <= length words)%nat ->
  exists x0 x1 x2 x3, round_key words r = x0 ++ x1 ++ x2 ++ x3 /\
    words !! (4 * r)%nat = Some x0 /\ words !! (4 * r + 1)%nat = Some x1 /\ words !! (4 * r + 2)%nat = Some x2 /\ words !! (4 * r + 3)%nat = Some x3.
Proof.
  intros Hl. assert (Hd : forall i, words !! (4 * r + i)%nat = drop (4 * r) words !! i) by (intros; by rewrite lookup_drop).
  pose proof (Hd 0%nat) as H0. rewrite Nat.add_0_r in H0. rewrite H0, !Hd. unfold round_key.
  assert (Hlen : (4 <= length (drop (4 * r) words))%nat) by (rewrite length_drop; lia).
  destruct (drop (4 * r) words) as [|x0 [|x1 [|x2 [|x3 t]]]]; cbn in Hlen; try lia. exists x0, x1, x2, x3.
  cbn [take concat]. rewrite take_0. cbn [concat]. by rewrite app_nil_r.
Qed.

Lemma round_key_block words w r : holds_key words w -> (4 * r + 4 <= length words)%nat -> block (round_key words r).
Proof.
  intros [Hf _] Hl. destruct (round_key_words words r Hl) as (x0 & x1 & x2 & x3 & -> & H0 & H1 & H2 & H3).
  pose proof (Forall_lookup_1 _ _ _ _ Hf H0) as [? ?]. pose proof (Forall_lookup_1 _ _ _ _ Hf H1) as [? ?].
  pose proof (Forall_lookup_1 _ _ _ _ Hf H2) as [? ?]. pose proof (Forall_lookup_1 _ _ _ _ Hf H3) as [? ?].
  split; [rewrite !length_app; lia | by repeat apply Forall_app_2].
Qed.

Lemma add_round_key_spec words w r st :
  holds_key words w -> (4 * r + 4 <= length words)%nat -> block st ->
  add_round_key (state_of st) w (4 * r) = Ok (state_of (AddRoundKey st (round_key words r))).
Proof.
  intros [Hf Hw] Hl H. destruct (round_key_words words r Hl) as (x0 & x1 & x2 & x3 & -> & H0 & H1 & H2 & H3).
  unfold add_round_key, state_of at 1. rewrite (rd_at _ _ _ (Hw _ _ H0)), (rd_at _ _ _ (Hw _ _ H1)), (rd_at _ _ _ (Hw _ _ H2)), (rd_at _ _ _ (Hw _ _ H3)). cbn [res_bind].
  pose proof (Forall_lookup_1 _ _ _ _ Hf H0) as [L0 B0]. pose proof (Forall_lookup_1 _ _ _ _ Hf H1) as [L1 B1].
  pose proof (Forall_lookup_1 _ _ _ _ Hf H2) as [L2 B2]. pose proof (Forall_lookup_1 _ _ _ _ Hf H3) as [L3 B3]. clear H0 H1 H2 H3.
  octets16 st H. cbn [take drop]. rewrite !of_be_lxor by (reflexivity || solve_octets || (cbn [length]; lia)).
  destruct x0 as [|? [|? [|? [|? [|]]]]], x1 as [|? [|? [|? [|? [|]]]]], x2 as [|? [|? [|? [|? [|]]]]], x3 as [|? [|? [|? [|? [|]]]]]; try discriminate.
  reflexivity.
Qed.

(** ** The key schedule *)

Lemma iter_inner {A} (f : A -> A) n x : Nat.iter (S n) f x = Nat.iter n f (f x).
Proof. induction n as [|n IH]; [done|]. change (Nat.iter (S (S n)) f x) with (f (Nat.iter (S n) f x)). by rewrite IH. Qed.

Lemma round_constant_spec j : (1 <= j <= 10)%nat -> round_constant j = Ok (of_be (fips_rcon j)) /\ key_word (fips_rcon j).
Proof.
  intros Hj. assert (Hin : In j (seq 1 10)) by (apply in_seq; lia).
  assert (H : Forall (fun j => round_constant j = Ok (of_be (fips_rcon j)) /\ length (fips_rcon j) = 4%nat /\ is_bytes (fips_rcon j)) (seq 1 10)).
  { apply (bool_decide_unpack _). by vm_compute. }
  rewrite List.Forall_forall in H. by apply H.
Qed.

Lemma sub_word_key x : key_word x -> sub_word (of_be x) S_box = of_be (map sbox x) /\ key_word (map sbox x).
Proof.
  intros [Hl Hb]. split; [|split; [by rewrite length_map | by apply map_bytes; [apply sbox_byte|]]].
  destruct x as [|a [|b [|c [|d [|]]]]]; try discriminate. rewrite sub_word_spec by (apply S_box_bytes || done).
  f_equal. apply map_ext_bytes; [apply S_box_spec | done].
Qed.

Lemma rot_word_key x : key_word x -> rot_word (of_be x) = of_be (RotWord x) /\ key_word (RotWord x).
Proof.
  intros [Hl Hb]. destruct x as [|a [|b [|c [|d [|]]]]]; try discriminate. split; [by apply rotl_word8|].
  repeat (apply Forall_cons_1 in Hb as [? Hb]). split; [done | cbn; solve_octets].
Qed.

Lemma lxor_key x y : key_word x -> key_word y -> Z.lxor (of_be x) (of_be y) = of_be (zip_with Z.lxor x y) /\ key_word (zip_with Z.lxor x y).
Proof.
  intros [Hlx Hbx] [Hly Hby]. split; [apply of_be_lxor; by rewrite ?Hlx|].
  destruct x as [|a [|b [|c [|d [|]]]]]; try discriminate. destruct y as [|a' [|b' [|c' [|d' [|]]]]]; try discriminate.
  repeat (apply Forall_cons_1 in Hbx as [? Hbx]). repeat (apply Forall_cons_1 in Hby as [? Hby]). split; [done | cbn [zip_with]; solve_octets].
Qed.

Lemma holds_key_snoc words w x :
  holds_key words w -> key_word x -> (length words < length w)%nat -> holds_key (words ++ [x]) (<[length words := of_be x]> w).
Proof.
  intros [Hf Hw] Hx Hl. split; [by apply Forall_app_2; [|constructor]|]. intros i y Hi. destruct (decide (i < length words)%nat) as [Hlt|Hge].
  - rewrite lookup_app_l in Hi by done. rewrite list_lookup_insert_ne by lia. by apply Hw.
  - assert (i = length words) as -> by (apply lookup_lt_Some in Hi; rewrite length_app in Hi; cbn in Hi; lia).
    rewrite lookup_app_r, Nat.sub_diag in Hi by done. injection Hi as <-. by apply list_lookup_insert_eq.
Qed.

Lemma schedule_loop_spec nk n words w dv md :
  (0 < nk <= length words)%nat -> (1 <= dv)%nat -> (md <= nk)%nat -> length words = (dv * nk + md)%nat ->
  holds_key words w -> (length words + n <= length w)%nat -> (length words + n <= 11 * nk)%nat ->
  exists w', schedule_loop n (length words) nk dv md w = Ok w' /\ holds_key (Nat.iter n (expand_step nk) words) w' /\ length w' = length w.
Proof.
  intros Hnk. revert words w dv md Hnk. induction n as [|n IH]; intros words w dv md Hnk Hdv Hmd Hi Hk Hlw Hr; [by exists w|].
  rewrite iter_inner. cbn [schedule_loop]. pose proof Hk as [Hf Hw].
  destruct (lookup_lt_is_Some_2 words (length words - 1)%nat ltac:(lia)) as [x Hx]. rewrite (rd_at _ _ _ (Hw _ _ Hx)). cbn [res_bind].
  destruct (lookup_lt_is_Some_2 words (length words - nk)%nat ltac:(lia)) as [y Hy].
  pose proof (Forall_lookup_1 _ _ _ _ Hf Hx) as Kx. pose proof (Forall_lookup_1 _ _ _ _ Hf Hy) as Ky.
  assert (exists dv' md', (if (md =? nk)%nat then (S dv, O) else (dv, md)) = (dv', md') /\ (length words mod nk = md')%nat /\ (length words / nk = dv')%nat /\
    (md' < nk)%nat /\ (1 <= dv')%nat /\ length words = (dv' * nk + md')%nat) as (dv' & md' & -> & Em & Ed & Hmd' & Hdv' & Hi').
  { destruct (Nat.eqb_spec md nk) as [-> |Hne].
    - exists (S dv), O. assert (E : length words = (S dv * nk)%nat) by lia. rewrite E, Nat.Div0.mod_mul, Nat.div_mul by lia. split_and!; (reflexivity || lia).
    - exists dv, md. rewrite Hi, Nat.add_comm, Nat.Div0.mod_add, Nat.div_add, Nat.mod_small, Nat.div_small by lia. split_and!; (reflexivity || lia). }
  assert (Hdv10 : (dv' <= 10)%nat) by nia.
  set (temp := if (md' =? 0)%nat then zip_with Z.lxor (map sbox (RotWord x)) (fips_rcon dv')
               else if (6 <? nk)%nat && (md' =? 4)%nat then map sbox x else x).
  assert (Ht : (if (md' =? 0)%nat then let! rc := round_constant dv' in Ok (Z.lxor (sub_word (rot_word (of_be x)) S_box) rc)
                else if (6 <? nk)%nat && (md' =? 4)%nat then Ok (sub_word (of_be x) S_box) else Ok (of_be x)) = Ok (of_be temp) /\ key_word temp).
  { unfold temp. destruct (md' =? 0)%nat.
    - destruct (round_constant_spec dv' ltac:(lia)) as [-> Kr]. cbn [res_bind]. destruct (rot_word_key x Kx) as [-> Kro].
      destruct (sub_word_key _ Kro) as [-> Ks]. destruct (lxor_key _ _ Ks Kr) as [-> Kl]. done.
    - destruct (_ && _); [|done]. destruct (sub_word_key x Kx) as [-> Ks]. done. }
  destruct Ht as [-> Kt]. cbn [res_bind]. rewrite (rd_at _ _ _ (Hw _ _ Hy)). cbn [res_bind]. destruct (lxor_key y temp Ky Kt) as [-> Kn].
  unfold write_word. rewrite (proj2 (Nat.ltb_lt _ _)) by lia. cbn [res_bind].
  assert (Es : expand_step nk words = words ++ [zip_with Z.lxor y temp]).
  { unfold expand_step. rewrite Em, Ed, (list_lookup_total_correct _ _ _ Hx), (list_lookup_total_correct _ _ _ Hy). done. }
  rewrite Es. pose proof (holds_key_snoc words w _ Hk Kn ltac:(lia)) as Hk'. 
  destruct (IH (words ++ [zip_with Z.lxor y temp]) (<[length words := of_be (zip_with Z.lxor y temp)]> w) dv' (S md')) as (w' & Hw' & Hh & Hl');
    rewrite ?length_insert, ?length_app; cbn [length]; try lia; [done|].
  rewrite length_app in Hw'. cbn [length] in Hw'. rewrite Nat.add_1_r in Hw'. rewrite length_insert in Hl'. by exists w'.
Qed.

Lemma blocks_of_snoc nblock n (msg : bytes) : blocks_of nblock (S n) msg = blocks_of nblock n msg ++ [take nblock (drop (n * nblock) msg)].
Proof.
  revert msg. induction n as [|n IH]; intros msg; [cbn; by rewrite drop_0|]. change (blocks_of nblock (S (S n)) msg) with (take nblock msg :: blocks_of nblock (S n) (drop nblock msg)).
  rewrite IH, drop_drop. done.
Qed.

Lemma key_words_spec n i key w :
  is_bytes key -> (4 * (i + n) <= length key)%nat -> (i + n <= length w)%nat -> holds_key (blocks_of 4 i key) w ->
  exists w', key_words n i key w = Ok w' /\ holds_key (blocks_of 4 (i + n) key) w' /\ length w' = length w.
Proof.
  intros Hb. revert i w. induction n as [|n IH]; intros i w Hk Hw Hh; cbn [key_words]; [exists w; by rewrite Nat.add_0_r|].
  rewrite read32_be_spec by lia. cbn [res_bind]. unfold write_word. rewrite (proj2 (Nat.ltb_lt _ _)) by lia. cbn [res_bind].
  assert (Kw : key_word (take 4 (drop (i * 4) key))) by (split; [rewrite length_take, length_drop; lia | by apply Forall_take, Forall_drop]).
  pose proof (holds_key_snoc _ w _ Hh Kw ltac:(rewrite length_blocks_of; lia)) as Hh'. rewrite length_blocks_of, <- blocks_of_snoc in Hh'.
  destruct (IH (S i) (<[i := of_be (take 4 (drop (i * 4) key))]> w)) as (w' & -> & Hw' & Hl'); rewrite ?length_insert; try lia; [done|].
  exists w'. rewrite Nat.add_succ_comm in Hw'. by rewrite length_insert in Hl'.
Qed.

Lemma length_expand nk n words : length (Nat.iter n (expand_step nk) words) = (length words + n)%nat.
Proof. revert words. induction n as [|n IH]; intros words; [cbn; lia|]. rewrite iter_inner, IH. unfold expand_step. rewrite length_app. cbn. lia. Qed.

(** A context set up with [key]. *)
Record aes_ready (key : bytes) (ctx : cf_aes_context) : Prop := {
  ready_size : (length key = 16 \/ length key = 24 \/ length key = 32)%nat;
  ready_rounds : rounds ctx = fips_rounds (length key);
  ready_key : holds_key (KeyExpansion (length key / 4) (fips_rounds (length key)) key) (ks ctx)
}.

Lemma aes_schedule_spec key :
  is_bytes key -> (length key = 16 \/ length key = 24 \/ length key = 32)%nat ->
  exists w, aes_schedule (mk_aes (fips_rounds (length key)) (ks aes_cleared)) key (length key) = Ok (mk_aes (fips_rounds (length key)) w) /\
    holds_key (KeyExpansion (length key / 4) (fips_rounds (length key)) key) w.
Proof.
  intros Hb Hs. unfold aes_schedule. cbn [rounds ks]. set (nk := (length key / 4)%nat). set (w0 := ks aes_cleared).
  assert (Hnk : (length key = 4 * nk /\ nk <= 8 /\ 4 <= nk)%nat) by (unfold nk; destruct Hs as [-> | [-> | ->]]; cbn; lia).
  assert (Hw0 : length w0 = 60%nat) by done. clearbody w0.
  destruct (key_words_spec nk 0 key w0 Hb ltac:(lia) ltac:(lia)) as (w1 & -> & H1 & L1); [by split|]. cbn [res_bind Nat.add] in *.
  assert (Hr : fips_rounds (length key) = (nk + 6)%nat) by done. rewrite Hr. change (AES_BLOCKSZ / 4)%nat with 4%nat.
  pose proof (length_blocks_of 4 nk key) as Lb.
  destruct (schedule_loop_spec nk (4 * (nk + 6 + 1) - nk) (blocks_of 4 nk key) w1 1 0) as (w2 & H2 & Hh & _); rewrite ?Lb; try lia; [done|].
  rewrite Lb in H2. rewrite H2. cbn [res_bind]. by exists w2.
Qed.

Lemma cf_aes_init_spec key :
  is_bytes key -> (length key = 16 \/ length key = 24 \/ length key = 32)%nat -> exists ctx, cf_aes_init key (length key) = Ok ctx /\ aes_ready key ctx.
Proof.
  intros Hb Hs. destruct (aes_schedule_spec key Hb Hs) as (w & Ha & Hh). exists (mk_aes (fips_rounds (length key)) w). split; [|by constructor].
  rewrite <- Ha. destruct Hs as [-> | [-> | ->]]; done.
Qed.

(** ** The cipher *)

Definition fips_round (words : list bytes) (st : bytes) (r : nat) : bytes := AddRoundKey (MixColumns (ShiftRows (SubBytes st))) (round_key words r).

Section Rounds.
Context (words : list bytes) (w : list Z).
Hypothesis Hkey : holds_key words w.

Lemma round_block st r : block st -> (4 * r + 4 <= length words)%nat -> block (fips_round words st r).
Proof using Hkey.
  intros Hst Hr. apply AddRoundKey_block; [by apply MixColumns_block, ShiftRows_block, SubBytes_block | by apply (round_key_block words w)].
Qed.

Lemma rounds_block n r st : block st -> (4 * (r + n) <= length words)%nat -> block (foldl (fips_round words) st (seq r n)).
Proof using Hkey.
  revert r st. induction n as [|n IH]; intros r st Hst Hl; [done|]. cbn [seq foldl]. apply IH; [apply round_block; [done | lia] | lia].
Qed.

Lemma encrypt_rounds_spec n r st :
  block st -> (4 * (r + n) <= length words)%nat ->
  encrypt_rounds n (state_of st) w (4 * r) = Ok (state_of (foldl (fips_round words) st (seq r n)), (4 * (r + n))%nat).
Proof using Hkey.
  revert r st. induction n as [|n IH]; intros r st Hst Hl; cbn [encrypt_rounds seq foldl]; [by rewrite Nat.add_0_r|].
  rewrite sub_block_spec, shift_rows_spec, mix_columns_spec by auto using SubBytes_block, ShiftRows_block.
  rewrite (add_round_key_spec words) by (done || lia || auto using SubBytes_block, ShiftRows_block, MixColumns_block). cbn [res_bind].
  replace (4 * r + 4)%nat with (4 * S r)%nat by lia. change (AddRoundKey _ _) with (fips_round words st r).
  rewrite IH by (lia || (apply round_block; [done | lia])). do 3 f_equal. lia.
Qed.

Lemma AddRoundKey_twice st k : length st = length k -> AddRoundKey (AddRoundKey st k) k = st.
Proof.
  revert k. induction st as [|b st IH]; intros [|b' k] H; try done. cbn in *. f_equal; [|apply IH; lia].
  by rewrite Z.lxor_assoc, Z.lxor_nilpotent, Z.lxor_0_r.
Qed.

Lemma remove_round_key st r :
  block st -> (4 * r + 4 <= length words)%nat -> add_round_key (state_of (AddRoundKey st (round_key words r))) w (4 * r) = Ok (state_of st).
Proof using Hkey.
  intros Hst Hr. pose proof (round_key_block words w r Hkey Hr) as Hb. rewrite (add_round_key_spec words) by (done || by apply AddRoundKey_block).
  rewrite AddRoundKey_twice; [done|]. destruct Hst as [-> _], Hb as [-> _]. done.
Qed.

Lemma decrypt_rounds_spec n st :
  block st -> (4 * n + 4 <= length words)%nat ->
  decrypt_rounds n (state_of (ShiftRows (SubBytes (foldl (fips_round words) st (seq 1 n))))) w (4 * n) = Ok (state_of (ShiftRows (SubBytes st)), O).
Proof using Hkey.
  intros Hst. induction n as [|n IH]; intros Hl; [done|]. cbn [decrypt_rounds]. rewrite seq_S, foldl_app. cbn [foldl].
  set (prev := foldl (fips_round words) st (seq 1 n)) in *. assert (Hp : block prev) by (apply rounds_block; [done | lia]).
  assert (Hm : block (MixColumns (ShiftRows (SubBytes prev)))) by auto using SubBytes_block, ShiftRows_block, MixColumns_block.
  assert (Hr : block (fips_round words prev (1 + n))) by (apply round_block; [done | lia]).
  rewrite inv_shift_rows_spec, inv_sub_block_spec by auto using SubBytes_block. unfold fips_round.
  change (1 + n)%nat with (S n). rewrite remove_round_key by (done || lia). cbn [res_bind].
  rewrite inv_mix_columns_spec by auto using SubBytes_block, ShiftRows_block. replace (4 * S n - 4)%nat with (4 * n)%nat by lia. apply IH. lia.
Qed.
End Rounds.

Lemma fips_aes_rounds key :
  (length key = 16 \/ length key = 24 \/ length key = 32)%nat -> length (KeyExpansion (length key / 4) (fips_rounds (length key)) key) = (4 * fips_rounds (length key) + 4)%nat.
Proof. intros Hs. unfold KeyExpansion. rewrite length_expand, length_blocks_of. unfold fips_rounds. destruct Hs as [-> | [-> | ->]]; done. Qed.

Section Ready.
Context (key : bytes) (ctx : cf_aes_context).
Hypothesis Hready : aes_ready key ctx.

Lemma ready_known : known_rounds ctx = true.
Proof using Hready. unfold known_rounds. rewrite (ready_rounds _ _ Hready). by destruct (ready_size _ _ Hready) as [-> | [-> | ->]]. Qed.

Lemma fips_aes_block inp : block inp -> block (fips_aes key inp).
Proof using Hready.
  intros Hi. destruct Hready as [Hs _ Hk]. pose proof (fips_aes_rounds key Hs) as Hl. unfold fips_aes, Cipher. fold fips_round.
  assert (1 <= fips_rounds (length key))%nat by (unfold fips_rounds; lia).
  apply AddRoundKey_block; [|by apply (round_key_block _ (ks ctx)); [|lia]]. apply ShiftRows_block, SubBytes_block.
  apply (rounds_block _ _ Hk); [|lia]. apply AddRoundKey_block; [done | apply (round_key_block _ _ _ Hk); lia].
Qed.

Lemma aes_encrypt_spec inp : block inp -> cf_aes_encrypt ctx inp = Ok (fips_aes key inp).
Proof using Hready.
  intros Hi. pose proof (fips_aes_block inp Hi) as Hout. unfold cf_aes_encrypt. rewrite ready_known, (ready_rounds _ _ Hready), (read_state_spec inp Hi). cbn [c_assert res_bind].
  destruct Hready as [Hs _ Hk]. pose proof (fips_aes_rounds key Hs) as Hl. set (words := KeyExpansion _ _ _) in *. set (nr := fips_rounds (length key)) in *.
  assert (1 <= nr)%nat by (unfold nr, fips_rounds; lia).
  rewrite (add_round_key_spec words _ 0) by (done || lia). cbn [res_bind].
  assert (H0 : block (AddRoundKey inp (round_key words 0))) by (apply AddRoundKey_block; [done | apply (round_key_block _ _ _ Hk); lia]).
  change 4%nat with (4 * 1)%nat at 1. rewrite (encrypt_rounds_spec words (ks ctx) Hk) by (done || lia). cbn [res_bind].
  pose proof (rounds_block words (ks ctx) Hk (nr - 1) 1 _ H0 ltac:(lia)) as H1.
  rewrite sub_block_spec, shift_rows_spec by auto using SubBytes_block. replace (1 + (nr - 1))%nat with nr by lia.
  rewrite (add_round_key_spec words) by (done || lia || auto using SubBytes_block, ShiftRows_block). cbn [res_bind]. by rewrite write_state_spec.
Qed.

Lemma aes_decrypt_spec inp : block inp -> cf_aes_decrypt ctx (fips_aes key inp) = Ok inp.
Proof using Hready.
  intros Hi. pose proof (fips_aes_block inp Hi) as Hout. unfold cf_aes_decrypt. rewrite ready_known, (ready_rounds _ _ Hready), (read_state_spec _ Hout). cbn [c_assert res_bind].
  destruct Hready as [Hs _ Hk]. pose proof (fips_aes_rounds key Hs) as Hl. unfold fips_aes, Cipher. set (words := KeyExpansion _ _ _) in *. set (nr := fips_rounds (length key)) in *.
  assert (1 <= nr)%nat by (unfold nr, fips_rounds; lia). fold (fips_round words).
  assert (H0 : block (AddRoundKey inp (round_key words 0))) by (apply AddRoundKey_block; [done | apply (round_key_block _ _ _ Hk); lia]).
  pose proof (rounds_block words (ks ctx) Hk (nr - 1) 1 _ H0 ltac:(lia)) as H1. rewrite (Nat.mul_comm nr 4).
  rewrite (remove_round_key words (ks ctx) Hk) by (lia || auto using SubBytes_block, ShiftRows_block). cbn [res_bind].
  replace (4 * nr - 4)%nat with (4 * (nr - 1))%nat by lia. rewrite (decrypt_rounds_spec words (ks ctx) Hk) by (done || lia). cbn [res_bind].
  rewrite inv_shift_rows_spec, inv_sub_block_spec by auto using SubBytes_block. rewrite (remove_round_key words (ks ctx) Hk _ 0) by (done || lia). cbn [res_bind].
  by rewrite write_state_spec.
Qed.
End Ready.
