(* ===== verification/Ctr.v ===== *)
(** * Ctr: counter mode

    The block cipher interface of [src/deps/cifra/src/prp.h] and the counter mode of
    [src/deps/cifra/src/modes.c]. Main result: with the counter at any place in the
    nonce, the text is combined with the encryptions of the successive counter blocks,
    whatever its pieces ([ctr_streams]). *)
From S2P Require Import Prelude Blockwise Bitops Aes.

(** ** prp.h *)

Record cf_prp (C : Type) := mk_prp {
  blocksz : nat;
  prp_encrypt : C -> bytes -> res bytes;
  prp_decrypt : C -> bytes -> res bytes
}.
Arguments mk_prp {C}.
Arguments blocksz {C}.
Arguments prp_encrypt {C}.
Arguments prp_decrypt {C}.
Definition CF_MAXBLOCK : nat := 16.

Definition cf_aes : cf_prp cf_aes_context := mk_prp AES_BLOCKSZ cf_aes_encrypt cf_aes_decrypt.

(** ** modes.c *)

(** The object behind [prpctx] does not change after its initialisation. *)
Record cf_ctr (C : Type) := mk_ctr {
  ctr_prp : cf_prp C;
  ctr_prpctx : C;
  ctr_nonce : bytes;
  ctr_keymat : bytes;
  ctr_nkeymat : nat;
  counter_offset : nat;
  counter_width : nat
}.
Arguments mk_ctr {C}.
Arguments ctr_prp {C}.
Arguments ctr_prpctx {C}.
Arguments ctr_nonce {C}.
Arguments ctr_keymat {C}.
Arguments ctr_nkeymat {C}.
Arguments counter_offset {C}.
Arguments counter_width {C}.
#[export] Instance eta_ctr {C} : Eta (cf_ctr C) := fun r =>
  mk_ctr (ctr_prp r) (ctr_prpctx r) (ctr_nonce r) (ctr_keymat r) (ctr_nkeymat r) (counter_offset r) (counter_width r).

Section Code.
Context {C : Type}.

Definition cf_ctr_init (prp : cf_prp C) (prpctx : C) (nonce : bytes) : res (cf_ctr C) :=
  let! nonce := copy_from nonce 0 (blocksz prp) in
  let! nonce := copy_to (replicate CF_MAXBLOCK 0) 0 nonce (blocksz prp) in
  Ok (mk_ctr prp prpctx nonce (replicate CF_MAXBLOCK 0) 0 0 (blocksz prp)).

Definition cf_ctr_custom_counter (ctx : cf_ctr C) (offset width : nat) : res (cf_ctr C) :=
  let! _ := c_assert (blocksz (ctr_prp ctx) <=? offset + width)%nat in
  Ok (ctx <| counter_offset := offset |> <| counter_width := width |>).

Definition ctr_next_block (ctx : cf_ctr C) : res (bytes * cf_ctr C) :=
  let! out := prp_encrypt (ctr_prp ctx) (ctr_prpctx ctx) (ctr_nonce ctx) in
  let! nonce := incr_be (ctr_nonce ctx) (counter_offset ctx) (counter_width ctx) in
  Ok (out, ctx <| ctr_nonce := nonce |>).

Definition cf_ctr_cipher (ctx : cf_ctr C) (input : bytes) : res (bytes * cf_ctr C) :=
  let! '(output, (keymat, nkeymat, ctx)) :=
    cf_blockwise_xor (blocksz (ctr_prp ctx)) ctr_next_block (ctr_keymat ctx, ctr_nkeymat ctx, ctx) input in
  Ok (output, ctx <| ctr_keymat := keymat |> <| ctr_nkeymat := nkeymat |>).

Definition cf_ctr_discard_block (ctx : cf_ctr C) : cf_ctr C := ctx <| ctr_nkeymat := O |>.
End Code.

(** ** Block ciphers with 16-octet blocks *)

(** [E] is what [prp] computes with the context [prpctx]. *)
Class BlockCipher {C} (prp : cf_prp C) (prpctx : C) (E : bytes -> bytes) : Prop := {
  block_size : blocksz prp = 16%nat;
  block_encrypts b : block b -> prp_encrypt prp prpctx b = Ok (E b);
  block_result b : block b -> block (E b)
}.

#[export] Instance aes_block_cipher key ctx : aes_ready key ctx -> BlockCipher cf_aes ctx (fips_aes key).
Proof. intros Hr. constructor; [done | intros; by apply aes_encrypt_spec | intros; by apply (fips_aes_block key ctx)]. Qed.

(** ** The key stream *)

(** Counter block [k]: the big-endian counter of [width] octets at [offset] is [k] ahead. *)
Definition counter_block (nonce : bytes) (offset width : nat) (k : nat) : bytes :=
  take offset nonce ++ be width (of_be (take width (drop offset nonce)) + Z.of_nat k) ++ drop (offset + width) nonce.
Definition ctr_stream (E : bytes -> bytes) (nonce : bytes) (offset width : nat) : nat -> Z :=
  keystream 16 (fun k => E (counter_block nonce offset width k)).

Section Stream.
Context {C : Type} (prp : cf_prp C) (prpctx : C) (E : bytes -> bytes) `{HE : !BlockCipher prp prpctx E}.
Context (nonce : bytes) (offset width : nat).
Hypotheses (Hnonce : block nonce) (Hplace : (offset + width = 16)%nat).

Lemma counter_split k : counter_block nonce offset width k = take offset nonce ++ be width (of_be (drop offset nonce) + Z.of_nat k).
Proof.
  destruct Hnonce as [Hl _]. unfold counter_block. rewrite (take_ge (drop offset nonce)) by (rewrite length_drop; lia).
  rewrite (drop_ge nonce (offset + width)) by lia. by rewrite app_nil_r.
Qed.

Lemma counter_is_block k : block (counter_block nonce offset width k).
Proof.
  rewrite counter_split. destruct Hnonce as [Hl Hb]. split; [rewrite length_app, length_take, length_be; lia|].
  apply Forall_app_2; [by apply Forall_take | apply be_bytes].
Qed.

Lemma counter_0 : counter_block nonce offset width 0 = nonce.
Proof.
  rewrite counter_split. destruct Hnonce as [Hl Hb]. rewrite Z.add_0_r. replace width with (length (drop offset nonce)) by (rewrite length_drop; lia).
  rewrite be_of_be by (by apply Forall_drop). apply take_drop.
Qed.

Hypothesis Hwidth : (0 < width)%nat.

Lemma counter_next k : incr_be (counter_block nonce offset width k) offset width = Ok (counter_block nonce offset width (S k)).
Proof.
  rewrite !counter_split. destruct Hnonce as [Hl Hb]. set (v := of_be (drop offset nonce)).
  pose proof (incr_be_spec (take offset nonce) (be width (v + Z.of_nat k)) [] (be_bytes _ _)) as H. rewrite !app_nil_r, length_be in H.
  assert (Hlt : length (take offset nonce) = offset) by (rewrite length_take; lia). rewrite Hlt in H. rewrite H.
  - do 2 f_equal. rewrite of_be_be, <- be_mod, Zplus_mod_idemp_l, be_mod. f_equal. lia.
  - intros Hnil. apply (f_equal length) in Hnil. rewrite length_be in Hnil. cbn in Hnil. lia.
Qed.

Definition ctr_state (keymat : bytes) (nkeymat : nat) (k : nat) : cf_ctr C :=
  mk_ctr prp prpctx (counter_block nonce offset width k) keymat nkeymat offset width.

Lemma next_block_streams km n k :
  ctr_next_block (ctr_state km n k) = Ok (E (counter_block nonce offset width k), ctr_state km n (S k)).
Proof.
  unfold ctr_next_block. cbn [ctr_state ctr_prp ctr_prpctx ctr_nonce counter_offset counter_width].
  rewrite (block_encrypts _ (counter_is_block k)). cbn [res_bind]. rewrite counter_next. done.
Qed.

(** [pos] octets of the key stream have been used. *)
Definition ctr_at (pos : nat) (ctx : cf_ctr C) : Prop :=
  streaming 16 (fun k => E (counter_block nonce offset width k)) (ctr_state (ctr_keymat ctx) (ctr_nkeymat ctx)) pos (ctr_keymat ctx, ctr_nkeymat ctx, ctx).

Lemma ctr_streams pos ctx input :
  ctr_at pos ctx ->
  exists ctx', cf_ctr_cipher ctx input = Ok (xor_stream (ctr_stream E nonce offset width) pos input, ctx') /\ ctr_at (pos + length input) ctx'.
Proof.
  intros Hat. assert (Hsz : blocksz (ctr_prp ctx) = 16%nat) by (destruct Hat as [_ (k & Hk & _)]; cbn [snd] in Hk; rewrite Hk; apply HE).
  unfold cf_ctr_cipher. rewrite Hsz.
  destruct (xor_streams 16 ctr_next_block (fun k => E (counter_block nonce offset width k)) (ctr_state (ctr_keymat ctx) (ctr_nkeymat ctx))
    (Nat.lt_0_succ 15) (fun k => proj1 (block_result _ (counter_is_block k))) (next_block_streams _ _) pos (ctr_keymat ctx, ctr_nkeymat ctx, ctx) input Hat) as ([[km n] c] & -> & Hst).
  cbn [res_bind]. eexists. split; [reflexivity|].
  destruct Hst as [Hn (k & Hk & Hpos & Hpart)]. cbn [fst snd] in Hn, Hk, Hpos, Hpart. subst c. constructor; cbn [fst snd]; [exact Hn|]. exists k. split_and!; [reflexivity | exact Hpos | exact Hpart].
Qed.

Lemma ctr_stream_byte i : is_byte (ctr_stream E nonce offset width i).
Proof. apply keystream_byte. intros k. apply block_result, counter_is_block. Qed.
End Stream.

Section Start.
Context {C : Type} (prp : cf_prp C) (prpctx : C) (E : bytes -> bytes) `{HE : !BlockCipher prp prpctx E}.

Lemma ctr_init_spec nonce : block nonce -> exists ctx, cf_ctr_init prp prpctx nonce = Ok ctx /\ ctr_at prp prpctx E nonce 0 16 0 ctx.
Proof.
  intros Hn. pose proof Hn as [Hl Hb]. unfold cf_ctr_init. rewrite block_size, copy_from_ok by lia. cbn [res_bind]. rewrite drop_0, take_ge by lia.
  rewrite copy_to_ok by (rewrite ?length_replicate; unfold CF_MAXBLOCK; lia). cbn [res_bind]. eexists. split; [reflexivity|].
  constructor; [cbn; lia|]. exists O. split_and!; [|done | by left]. cbn [snd]. unfold ctr_state. cbn [ctr_keymat ctr_nkeymat].
  rewrite counter_0 by (done || lia). f_equal. rewrite take_0, (take_ge nonce), (drop_ge (replicate _ _)) by (rewrite ?length_replicate; unfold CF_MAXBLOCK; lia). by rewrite app_nil_r.
Qed.

(** The counter is moved before the first block. *)
Lemma ctr_custom_spec nonce offset width ctx :
  block nonce -> (offset + width = 16)%nat -> cf_ctr_init prp prpctx nonce = Ok ctx ->
  exists ctx', cf_ctr_custom_counter ctx offset width = Ok ctx' /\ ctr_at prp prpctx E nonce offset width 0 ctx'.
Proof.
  intros Hn Hp Hi. destruct (ctr_init_spec nonce Hn) as (ctx0 & Hi' & Hat). rewrite Hi in Hi'. injection Hi' as <-.
  destruct Hat as [H1 (k & Hk & Hpos & _)]. cbn [fst snd] in H1, Hk, Hpos. assert (k = O /\ ctr_nkeymat ctx = O) as [-> Hz] by lia.
  unfold cf_ctr_custom_counter. rewrite Hk. cbn [ctr_state ctr_prp]. rewrite block_size, (proj2 (Nat.leb_le _ _)) by lia. cbn [c_assert res_bind].
  rewrite Hz. generalize (ctr_keymat ctx) as km. intros km. eexists. split; [reflexivity|]. unfold ctr_state.
  constructor; cbn [field_update fst snd ctr_prp ctr_prpctx ctr_nonce ctr_keymat ctr_nkeymat counter_offset counter_width]; [lia|].
  exists O. split_and!; [|done | by left]. unfold ctr_state. by rewrite !counter_0 by (done || lia).
Qed.
End Start.
