(* ===== verification/Gcm.v ===== *)
(** * Gcm: Galois/counter mode

    [src/deps/cifra/src/gf128.c] and [src/deps/cifra/src/gcm.c]: multiplication in the
    field with 2^128 elements on four 32-bit words, the incremental GHASH, and the
    authenticated encryption built from GHASH and counter mode. Main results: the field
    multiplication is the one of SP 800-38D ([gf128_mul_spec]), and encryption and
    decryption are the authenticated encryption of SP 800-38D with the block cipher
    ([gcm_encrypt_spec], [gcm_decrypt_spec]), for nonces of every length. *)
From S2P Require Import Prelude Blockwise Bitops Aes Ctr.

(** ** gf128.c *)

(** [uint32_t[4]] *)
Notation cf_gf128 := (list Z).

Definition cf_gf128_tobytes_be (inp : cf_gf128) : bytes :=
  write32_be (inp !!! 0%nat) ++ write32_be (inp !!! 1%nat) ++ write32_be (inp !!! 2%nat) ++ write32_be (inp !!! 3%nat).
Definition cf_gf128_frombytes_be (inp : bytes) : res cf_gf128 :=
  let! o0 := read32_be inp 0 in let! o1 := read32_be inp 4 in let! o2 := read32_be inp 8 in let! o3 := read32_be inp 12 in
  Ok [o0; o1; o2; o3].

(** One word of [cf_gf128_double_le]: the bit that leaves the word before comes in. *)
Definition shift_word (inword borrow : Z) : Z := Z.lor (Z.shiftr inword 1) (u32 (Z.shiftl borrow 31)).
Definition cf_gf128_double_le (inp : cf_gf128) : cf_gf128 :=
  let borrow := 0 in
  let out0 := shift_word (inp !!! 0%nat) borrow in
  let borrow := Z.land (inp !!! 0%nat) 1 in
  let out1 := shift_word (inp !!! 1%nat) borrow in
  let borrow := Z.land (inp !!! 1%nat) 1 in
  let out2 := shift_word (inp !!! 2%nat) borrow in
  let borrow := Z.land (inp !!! 2%nat) 1 in
  let out3 := shift_word (inp !!! 3%nat) borrow in
  let borrow := Z.land (inp !!! 3%nat) 1 in
  [Z.lxor out0 (u32 (Z.shiftl (select_u8 borrow [0x00; 0xe1]) 24)); out1; out2; out3].

Definition cf_gf128_add (x y : cf_gf128) : cf_gf128 := zip_with Z.lxor x y.

Fixpoint gf128_mul_loop (n i : nat) (x Z_ V : cf_gf128) : cf_gf128 :=
  match n with
  | O => Z_
  | S n =>
      let word := x !!! (i / 32)%nat in
      let bit := Z.land (Z.shiftr word (31 - Z.land (Z.of_nat i) 31)) 1 in
      gf128_mul_loop n (S i) x (select_xor128 Z_ (replicate 4 0) V bit) (cf_gf128_double_le V)
  end.
Definition cf_gf128_mul (x y : cf_gf128) : cf_gf128 := gf128_mul_loop 128 0 x (replicate 4 0) y.

(** ** gcm.c *)

Inductive ghash_phase := STATE_INVALID | STATE_AAD | STATE_CIPHER.
#[export] Instance ghash_phase_eq_dec : EqDecision ghash_phase.
Proof. solve_decision. Defined.

Record ghash_ctx := mk_ghash {
  gh_H : cf_gf128;
  gh_Y : cf_gf128;
  gh_buffer : bytes;
  gh_buffer_used : nat;
  gh_len_aad : Z;
  gh_len_cipher : Z;
  gh_state : ghash_phase
}.
#[export] Instance eta_ghash : Eta ghash_ctx := fun r =>
  mk_ghash (gh_H r) (gh_Y r) (gh_buffer r) (gh_buffer_used r) (gh_len_aad r) (gh_len_cipher r) (gh_state r).

Definition ghash_cleared : ghash_ctx := mk_ghash (replicate 4 0) (replicate 4 0) (replicate 16 0) 0 0 0 STATE_INVALID.
Definition ghash_init (H : bytes) : res ghash_ctx :=
  let! h := cf_gf128_frombytes_be H in
  Ok (ghash_cleared <| gh_H := h |> <| gh_state := STATE_AAD |>).

Definition ghash_block (ctx : ghash_ctx) (data : bytes) : res ghash_ctx :=
  let! gfdata := cf_gf128_frombytes_be data in
  let Y := cf_gf128_add gfdata (gh_Y ctx) in
  Ok (ctx <| gh_Y := cf_gf128_mul Y (gh_H ctx) |>).

Definition ghash_add (ctx : ghash_ctx) (buf : bytes) : res ghash_ctx :=
  let! '(buffer, used, ctx) := cf_blockwise_accumulate 16 ghash_block (gh_buffer ctx, gh_buffer_used ctx, ctx) buf in
  Ok (ctx <| gh_buffer := buffer |> <| gh_buffer_used := used |>).

Definition ghash_add_pad (ctx : ghash_ctx) : res ghash_ctx :=
  if (gh_buffer_used ctx =? 0)%nat then Ok ctx
  else
    let! buffer := memset_to (gh_buffer ctx) (gh_buffer_used ctx) 0 (16 - gh_buffer_used ctx) in
    let! ctx := ghash_block (ctx <| gh_buffer := buffer |>) buffer in
    Ok (ctx <| gh_buffer_used := O |>).

Definition ghash_add_aad (ctx : ghash_ctx) (buf : bytes) : res ghash_ctx :=
  let! _ := c_assert (bool_decide (gh_state ctx = STATE_AAD)) in
  ghash_add (ctx <| gh_len_aad := u64 (gh_len_aad ctx + Z.of_nat (length buf)) |>) buf.

Definition ghash_add_cipher (ctx : ghash_ctx) (buf : bytes) : res ghash_ctx :=
  let! ctx :=
    if bool_decide (gh_state ctx = STATE_AAD) then
      let! ctx := ghash_add_pad ctx in Ok (ctx <| gh_state := STATE_CIPHER |>)
    else Ok ctx in
  let! _ := c_assert (bool_decide (gh_state ctx = STATE_CIPHER)) in
  ghash_add (ctx <| gh_len_cipher := u64 (gh_len_cipher ctx + Z.of_nat (length buf)) |>) buf.

Definition ghash_final (ctx : ghash_ctx) : res (bytes * ghash_ctx) :=
  let! ctx :=
    if bool_decide (gh_state ctx = STATE_AAD) || bool_decide (gh_state ctx = STATE_CIPHER) then
      let! ctx := ghash_add_pad ctx in Ok (ctx <| gh_state := STATE_INVALID |>)
    else Ok ctx in
  let! ctx := ghash_add ctx (write64_be (u64 (gh_len_aad ctx * 8))) in
  let! ctx := ghash_add ctx (write64_be (u64 (gh_len_cipher ctx * 8))) in
  let! _ := c_assert (gh_buffer_used ctx =? 0)%nat in
  Ok (cf_gf128_tobytes_be (gh_Y ctx), ctx).

Record cf_gcm_ctx (C : Type) := mk_gcm {
  gcm_ctr : cf_ctr C;
  gcm_gh : ghash_ctx;
  gcm_Y0 : bytes;
  gcm_e_Y0 : bytes
}.
Arguments mk_gcm {C}.
Arguments gcm_ctr {C}.
Arguments gcm_gh {C}.
Arguments gcm_Y0 {C}.
Arguments gcm_e_Y0 {C}.

Section Code.
Context {C : Type} (prp : cf_prp C) (prpctx : C).

(** The hash key and the first counter block [Y0]. *)
Definition gcm_hash_key : res bytes := prp_encrypt prp prpctx (replicate 16 0).
Definition gcm_first_counter (H nonce : bytes) : res bytes :=
  if (length nonce =? 12)%nat then Ok (nonce ++ [0; 0; 0; 1])
  else
    let! gh := ghash_init H in
    let! gh := ghash_add_cipher gh nonce in
    let! '(Y0, _) := ghash_final gh in
    Ok Y0.

Definition cf_gcm_encrypt_init (header nonce : bytes) : res (cf_gcm_ctx C) :=
  let! H := gcm_hash_key in
  let! Y0 := gcm_first_counter H nonce in
  let! gh := ghash_init H in
  let! gh := ghash_add_aad gh header in
  let! ctr := cf_ctr_init prp prpctx Y0 in
  let! ctr := cf_ctr_custom_counter ctr 12 4 in
  let! '(e_Y0, ctr) := cf_ctr_cipher ctr (replicate 16 0) in
  Ok (mk_gcm ctr gh Y0 e_Y0).

Definition cf_gcm_encrypt_update (gcmctx : cf_gcm_ctx C) (plain : bytes) : res (bytes * cf_gcm_ctx C) :=
  let! '(cipher, ctr) := cf_ctr_cipher (gcm_ctr gcmctx) plain in
  let! gh := ghash_add_cipher (gcm_gh gcmctx) cipher in
  Ok (cipher, mk_gcm ctr gh (gcm_Y0 gcmctx) (gcm_e_Y0 gcmctx)).

(** The context is cleared. *)
Definition cf_gcm_encrypt_final (gcmctx : cf_gcm_ctx C) (ntag : nat) : res bytes :=
  let! '(full_tag, _) := ghash_final (gcm_gh gcmctx) in
  let! _ := c_assert ((1 <? ntag) && (ntag <=? 16))%nat in
  xor_bb full_tag (gcm_e_Y0 gcmctx) ntag.

(** The ciphertext and the tag. *)
Definition cf_gcm_encrypt (plain header nonce : bytes) (ntag : nat) : res (bytes * bytes) :=
  let! gcmctx := cf_gcm_encrypt_init header nonce in
  let! '(cipher, gcmctx) := cf_gcm_encrypt_update gcmctx plain in
  let! tag := cf_gcm_encrypt_final gcmctx ntag in
  Ok (cipher, tag).

(** [mem_eq] compares the first [ntag] octets; [None] is a non-zero result. *)
Definition cf_gcm_decrypt (cipher header nonce tag : bytes) (ntag : nat) : res (option bytes) :=
  let! H := gcm_hash_key in
  let! Y0 := gcm_first_counter H nonce in
  let! gh := ghash_init H in
  let! gh := ghash_add_aad gh header in
  let! ctr := cf_ctr_init prp prpctx Y0 in
  let! ctr := cf_ctr_custom_counter ctr 12 4 in
  let! '(e_Y0, ctr) := cf_ctr_cipher ctr (replicate 16 0) in
  let! gh := ghash_add_cipher gh cipher in
  let! '(full_tag, _) := ghash_final gh in
  let! _ := c_assert ((1 <? ntag) && (ntag <=? 16))%nat in
  let! full_tag := xor_bb full_tag e_Y0 ntag in
  if (length tag <? ntag)%nat then Stuck OutOfBounds
  else if bool_decide (full_tag = take ntag tag) then
    let! '(plain, _) := cf_ctr_cipher ctr cipher in Ok (Some plain)
  else Ok None.
End Code.

(** ** SP 800-38D *)

(** Section 6.3: blocks are integers of 128 bits, the leftmost bit of a block is bit 127. *)
Definition gcm_R : Z := 0xe1 * 2 ^ 120.
Definition gcm_shift (V : Z) : Z := if Z.odd V then Z.lxor (V / 2) gcm_R else V / 2.
Fixpoint gcm_mul_loop (n : nat) (X Z_ V : Z) : Z :=
  match n with
  | O => Z_
  | S n => gcm_mul_loop n X (if Z.testbit X (Z.of_nat n) then Z.lxor Z_ V else Z_) (gcm_shift V)
  end.
Definition gcm_mul (X Y : Z) : Z := gcm_mul_loop 128 X 0 Y.

(** Section 6.4 *)
Definition GHASH (H : Z) (X : bytes) : Z :=
  foldl (fun Y B => gcm_mul (Z.lxor Y (of_be B)) H) 0 (blocks_of 16 (length X / 16) X).

(** Section 7.1 *)
Definition gcm_pad (x : bytes) : bytes := replicate ((16 - length x mod 16) mod 16) 0.
Definition gcm_lengths (a c : bytes) : bytes := be 8 (8 * Z.of_nat (length a)) ++ be 8 (8 * Z.of_nat (length c)).
Definition gcm_auth_data (a c : bytes) : bytes := a ++ gcm_pad a ++ c ++ gcm_pad c ++ gcm_lengths a c.

Section Spec.
Context (E : bytes -> bytes).
Definition gcm_H : Z := of_be (E (replicate 16 0)).
Definition gcm_J0 (iv : bytes) : bytes :=
  if (length iv =? 12)%nat then iv ++ [0; 0; 0; 1] else be 16 (GHASH gcm_H (gcm_auth_data [] iv)).
Definition gcm_crypt (iv text : bytes) : bytes := xor_stream (ctr_stream E (gcm_J0 iv) 12 4) 16 text.
Definition gcm_tag (iv a c : bytes) (t : nat) : bytes :=
  take t (zip_with Z.lxor (be 16 (GHASH gcm_H (gcm_auth_data a c))) (E (gcm_J0 iv))).
End Spec.

(** ** The field *)

Definition gf (x : cf_gf128) : Prop := length x = 4%nat /\ Forall (fun w => 0 <= w < 2 ^ 32) x.
Definition gf_val (x : cf_gf128) : Z := foldl (shift_in 32) 0 x.

Lemma gf_cases x : gf x -> exists a b c d, x = [a; b; c; d] /\ 0 <= a < 2 ^ 32 /\ 0 <= b < 2 ^ 32 /\ 0 <= c < 2 ^ 32 /\ 0 <= d < 2 ^ 32.
Proof.
  intros [Hl Hf]. destruct x as [|a [|b [|c [|d [|]]]]]; try discriminate. repeat (apply Forall_cons_1 in Hf as [? Hf]). by exists a, b, c, d.
Qed.

Lemma gf_val4 a b c d :
  0 <= b < 2 ^ 32 -> 0 <= c < 2 ^ 32 -> 0 <= d < 2 ^ 32 -> gf_val [a; b; c; d] = ((a * 2 ^ 32 + b) * 2 ^ 32 + c) * 2 ^ 32 + d.
Proof. intros. unfold gf_val, shift_in. cbn [foldl]. rewrite !lor_shiftl_add by lia. by rewrite Z.shiftl_0_l, Z.lor_0_l. Qed.

Lemma of_be_app x y : is_bytes y -> of_be (x ++ y) = of_be x * 2 ^ (8 * Z.of_nat (length y)) + of_be y.
Proof. intros Hy. unfold of_be. rewrite foldl_app. by apply foldl_be_step. Qed.

Lemma frombytes_spec b : block b -> exists x, cf_gf128_frombytes_be b = Ok x /\ gf x /\ gf_val x = of_be b.
Proof.
  intros [Hl Hb]. unfold cf_gf128_frombytes_be. rewrite !read32_be_spec by lia. cbn [res_bind]. eexists. split; [reflexivity|].
  assert (Hw : forall p, (p + 4 <= 16)%nat -> 0 <= of_be (take 4 (drop p b)) < 2 ^ 32).
  { intros p Hp. assert (Hlp : length (take 4 (drop p b)) = 4%nat) by (rewrite length_take, length_drop; lia).
    pose proof (of_be_range (take 4 (drop p b)) (Forall_take _ _ _ (Forall_drop _ _ _ Hb))) as R. by rewrite Hlp in R. }
  split; [split; [done | repeat constructor; apply Hw; lia]|]. rewrite gf_val4 by (apply Hw; lia).
  assert (Hs : forall p, is_bytes (drop p b)) by (intros; by apply Forall_drop).
  assert (Hsplit : forall p, (p + 4 <= 16)%nat -> of_be (drop p b) = of_be (take 4 (drop p b)) * 2 ^ (8 * Z.of_nat (16 - p - 4)) + of_be (drop (p + 4) b)).
  { intros p Hp. rewrite <- (take_drop 4 (drop p b)) at 1. rewrite drop_drop, of_be_app by done. by rewrite length_drop, Hl, Nat.sub_add_distr. }
  rewrite <- (drop_0 b) at 5. rewrite (Hsplit 0%nat), (Hsplit (0 + 4)%nat), (Hsplit (0 + 4 + 4)%nat), (Hsplit (0 + 4 + 4 + 4)%nat) by lia.
  rewrite (drop_ge b (0 + 4 + 4 + 4 + 4)) by lia. change (of_be []) with 0. cbn [Nat.add Nat.sub]. lia.
Qed.

Lemma tobytes_spec x : gf x -> cf_gf128_tobytes_be x = be 16 (gf_val x).
Proof.
  intros Hx. destruct (gf_cases x Hx) as (a & b & c & d & -> & Ha & Hb & Hc & Hd). unfold cf_gf128_tobytes_be.
  cbn [lookup_total list_lookup_total]. rewrite !write32_be_spec, gf_val4 by done. set (v := _ + d).
  change (be 16 v) with (be (4 + 12) v). rewrite (be_app 4 12 v). change (be 12 v) with (be (4 + 8) v). rewrite (be_app 4 8 v).
  change (be 8 v) with (be (4 + 4) v). rewrite (be_app 4 4 v). rewrite !Z.shiftr_div_pow2 by lia.
  change (8 * Z.of_nat 12) with 96. change (8 * Z.of_nat 8) with 64. change (8 * Z.of_nat 4) with 32.
  assert (Hbe : forall w u q, u = q * 2 ^ 32 + w -> 0 <= w < 2 ^ 32 -> be 4 u = be 4 w).
  { intros w u q -> Hw. rewrite <- (be_mod 4 (q * 2 ^ 32 + w)). f_equal. change (8 * Z.of_nat 4) with 32. rewrite Z.add_comm, Z.mod_add, Z.mod_small by lia. done. }
  assert (Hq : forall q r k, 0 < k -> 0 <= r < k -> (q * k + r) / k = q) by (intros; rewrite Z.div_add_l, Z.div_small by lia; lia).
  replace (v / 2 ^ 96) with a by (unfold v; symmetry; replace (_ + d) with (a * 2 ^ 96 + ((b * 2 ^ 32 + c) * 2 ^ 32 + d)) by ring; apply Hq; lia).
  replace (v / 2 ^ 64) with (a * 2 ^ 32 + b) by (unfold v; symmetry; replace (_ + d) with ((a * 2 ^ 32 + b) * 2 ^ 64 + (c * 2 ^ 32 + d)) by ring; apply Hq; lia).
  replace (v / 2 ^ 32) with ((a * 2 ^ 32 + b) * 2 ^ 32 + c) by (unfold v; symmetry; apply Hq; lia).
  rewrite (Hbe b (a * 2 ^ 32 + b) a), (Hbe c ((a * 2 ^ 32 + b) * 2 ^ 32 + c) (a * 2 ^ 32 + b)), (Hbe d v ((a * 2 ^ 32 + b) * 2 ^ 32 + c)) by (done || lia). done.
Qed.

Lemma gf_val_add x y : gf x -> gf y -> gf (cf_gf128_add x y) /\ gf_val (cf_gf128_add x y) = Z.lxor (gf_val x) (gf_val y).
Proof.
  intros [Hlx Hx] [Hly Hy].
  assert (Hd : forall a b, 0 <= a < 2 ^ 32 -> 0 <= b < 2 ^ 32 -> 0 <= Z.lxor a b < 2 ^ 32).
  { intros a b Ha Hb. assert (E : Z.lxor a b = Z.lxor a b mod 2 ^ 32); [|rewrite E; apply Z.mod_pos_bound; lia].
    apply Z.bits_inj'. intros i Hi. rewrite Z.lxor_spec. destruct (decide (i < 32)).
    - rewrite Z.mod_pow2_bits_low by lia. by rewrite Z.lxor_spec.
    - rewrite Z.mod_pow2_bits_high by lia. by rewrite (testbit_high a 32), (testbit_high b 32) by lia. }
  split; [|symmetry; apply (foldl_bitwise 32 ltac:(lia) Z.lxor xorb Z.lxor_spec Hd); [done | done | lia]].
  split; [unfold cf_gf128_add; rewrite length_zip_with; lia|]. unfold cf_gf128_add. clear Hlx Hly. revert y Hy.
  induction Hx as [|a x Ha Hx IH]; intros y Hy; [constructor|]. destruct Hy as [|b y Hb Hy]; constructor; auto.
Qed.

Lemma select_bit b : 0 <= b < 2 -> select_u8 b [0; 0xe1] = 0xe1 * b.
Proof. intros Hb. assert (b = 0 \/ b = 1) as [-> | ->] by lia; done. Qed.

Lemma shift_word_spec w borrow : 0 <= w < 2 ^ 32 -> 0 <= borrow < 2 -> shift_word w borrow = borrow * 2 ^ 31 + w / 2 /\ 0 <= shift_word w borrow < 2 ^ 32.
Proof.
  intros Hw Hb. unfold shift_word. rewrite Z.lor_comm. unfold u32. rewrite Z.mod_small by (rewrite Z.shiftl_mul_pow2; lia).
  rewrite Z.shiftr_div_pow2 by lia. change (2 ^ 1) with 2. rewrite lor_shiftl_add by modlia. split; [done | modlia].
Qed.

Lemma double_spec x : gf x -> gf (cf_gf128_double_le x) /\ gf_val (cf_gf128_double_le x) = gcm_shift (gf_val x).
Proof.
  intros Hx. destruct (gf_cases x Hx) as (a & b & c & d & -> & Ha & Hb & Hc & Hd). unfold cf_gf128_double_le. cbn [lookup_total list_lookup_total].
  change 1 with (Z.ones 1). rewrite !Z.land_ones by lia. change (2 ^ 1) with 2.
  pose proof (Z.mod_pos_bound a 2 ltac:(lia)) as Ra. pose proof (Z.mod_pos_bound b 2 ltac:(lia)) as Rb. pose proof (Z.mod_pos_bound c 2 ltac:(lia)) as Rc. pose proof (Z.mod_pos_bound d 2 ltac:(lia)) as Rd.
  destruct (shift_word_spec a 0 Ha ltac:(lia)) as [Ea Oa]. destruct (shift_word_spec b (a mod 2) Hb Ra) as [Eb Ob].
  destruct (shift_word_spec c (b mod 2) Hc Rb) as [Ec Oc]. destruct (shift_word_spec d (c mod 2) Hd Rc) as [Ed Od].
  rewrite select_bit by done. set (out := [shift_word a 0; shift_word b (a mod 2); shift_word c (b mod 2); shift_word d (c mod 2)]).
  set (red := [u32 (Z.shiftl (225 * (d mod 2)) 24); 0; 0; 0]).
  assert (Hout : gf out) by (split; [done | repeat (apply List.Forall_cons; [assumption|]); apply List.Forall_nil]).
  assert (Hred : gf red) by (split; [done | apply List.Forall_cons; [apply Z.mod_pos_bound; lia | repeat (apply List.Forall_cons; [lia|]); apply List.Forall_nil]]).
  destruct (gf_val_add out red Hout Hred) as [Hg Hv]. unfold cf_gf128_add, out, red in Hg, Hv. cbn [zip_with] in Hg, Hv. rewrite !Z.lxor_0_r in Hg, Hv.
  split; [exact Hg|]. rewrite Hv. fold out red.
  assert (Hhalf : gf_val out = gf_val [a; b; c; d] / 2).
  { unfold out. rewrite !gf_val4 by done. rewrite Ea, Eb, Ec, Ed. clear. apply (Z.div_unique_pos _ _ _ (d mod 2)); modlia. }
  assert (Hodd : Z.odd (gf_val [a; b; c; d]) = (d mod 2 =? 1)).
  { rewrite gf_val4 by done. rewrite Z.odd_add, Z.odd_mul. cbn [Z.odd Z.pow Z.pow_pos Pos.iter Z.mul]. rewrite andb_false_r, xorb_false_l.
    rewrite Zmod_odd. by destruct (Z.odd d). }
  unfold gcm_shift. rewrite Hodd, Hhalf. unfold red. rewrite gf_val4 by lia. unfold u32.
  assert (d mod 2 = 0 \/ d mod 2 = 1) as [-> | ->] by lia; cbn [Z.eqb Pos.eqb].
  - change (Z.shiftl (225 * 0) 24 mod 2 ^ 32) with 0. cbn [Z.mul Z.add]. apply Z.lxor_0_r.
  - reflexivity.
Qed.

Lemma gf_val_bit x n : gf x -> 0 <= n < 128 -> Z.testbit (gf_val x) n = Z.testbit (x !!! Z.to_nat (3 - n / 32)) (n mod 32).
Proof.
  intros Hx Hn. destruct (gf_cases x Hx) as (a & b & c & d & -> & Ha & Hb & Hc & Hd). unfold gf_val. cbn [foldl].
  rewrite !shift_in_testbit by lia. assert (n / 32 = 0 \/ n / 32 = 1 \/ n / 32 = 2 \/ n / 32 = 3) as Hq by modlia.
  destruct Hq as [Hq | [Hq | [Hq | Hq]]]; rewrite Hq; cbn -[Z.testbit Z.modulo shift_in].
  - rewrite (proj2 (Z.ltb_lt n 32)) by modlia. f_equal. modlia.
  - rewrite (proj2 (Z.ltb_ge n 32)) by modlia. rewrite shift_in_testbit by (lia || modlia). rewrite (proj2 (Z.ltb_lt _ 32)) by modlia. f_equal. modlia.
  - rewrite (proj2 (Z.ltb_ge n 32)) by modlia. rewrite shift_in_testbit by (lia || modlia). rewrite (proj2 (Z.ltb_ge _ 32)) by modlia.
    rewrite shift_in_testbit by (lia || modlia). rewrite (proj2 (Z.ltb_lt _ 32)) by modlia. f_equal. modlia.
  - rewrite (proj2 (Z.ltb_ge n 32)) by modlia. rewrite shift_in_testbit by (lia || modlia). rewrite (proj2 (Z.ltb_ge _ 32)) by modlia.
    rewrite shift_in_testbit by (lia || modlia). rewrite (proj2 (Z.ltb_ge _ 32)) by modlia.
    rewrite shift_in_testbit by (lia || modlia). rewrite (proj2 (Z.ltb_lt _ 32)) by modlia. f_equal. modlia.
Qed.

Lemma mul_bit x i :
  gf x -> (i < 128)%nat ->
  Z.land (Z.shiftr (x !!! (i / 32)%nat) (31 - Z.land (Z.of_nat i) 31)) 1 = Z.b2z (Z.testbit (gf_val x) (127 - Z.of_nat i)).
Proof.
  intros Hx Hi. rewrite gf_val_bit by (done || lia). change 31 with (Z.ones 5) at 2. change 1 with (Z.ones 1). rewrite !Z.land_ones by lia.
  rewrite Z.testbit_spec' by (apply Z.mod_pos_bound; lia). change (2 ^ 1) with 2. change (2 ^ 5) with 32. rewrite Z.shiftr_div_pow2 by modlia.
  do 2 f_equal; [f_equal; apply Nat2Z.inj; rewrite Z2Nat.id, Nat2Z.inj_div by modlia; change (Z.of_nat 32) with 32; modlia | f_equal; modlia].
Qed.

Lemma select_xor_spec Z_ V (b : bool) : gf Z_ -> gf V -> select_xor128 Z_ (replicate 4 0) V (Z.b2z b) = if b then cf_gf128_add Z_ V else Z_.
Proof.
  intros HZ HV. destruct (gf_cases Z_ HZ) as (a & b' & c & d & -> & _). destruct (gf_cases V HV) as (v0 & v1 & v2 & v3 & -> & H0 & H1 & H2 & H3).
  unfold select_xor128, cf_gf128_add. destruct b; cbn [Z.b2z replicate zip_with].
  - change (mask_u32 1 1) with (Z.ones 32). change (u32 (Z.lnot (Z.ones 32))) with 0. by rewrite !Z.land_0_r, !Z.lor_0_l, !Z.land_ones, !Z.mod_small by (lia || done).
  - change (mask_u32 0 1) with 0. by rewrite !Z.land_0_r, !Z.lor_0_r, !Z.land_0_l, !Z.lxor_0_r.
Qed.

Lemma mul_loop_spec n i x Z_ V :
  gf x -> gf Z_ -> gf V -> (n + i = 128)%nat ->
  gf (gf128_mul_loop n i x Z_ V) /\ gf_val (gf128_mul_loop n i x Z_ V) = gcm_mul_loop n (gf_val x) (gf_val Z_) (gf_val V).
Proof.
  intros Hx. revert i Z_ V. induction n as [|n IH]; intros i Z_ V HZ HV Hi; cbn [gf128_mul_loop gcm_mul_loop]; [done|].
  rewrite mul_bit, select_xor_spec by (done || lia). replace (127 - Z.of_nat i) with (Z.of_nat n) by lia. destruct (double_spec V HV) as [HV' EV]. rewrite <- EV.
  destruct (Z.testbit _ _).
  - destruct (gf_val_add Z_ V HZ HV) as [HA <-]. apply IH; [done | done | lia].
  - apply IH; [done | done | lia].
Qed.

Lemma gf_zero : gf (replicate 4 0).
Proof. split; [done|]. by apply Forall_replicate. Qed.

Lemma gf128_mul_spec x y : gf x -> gf y -> gf (cf_gf128_mul x y) /\ gf_val (cf_gf128_mul x y) = gcm_mul (gf_val x) (gf_val y).
Proof. intros Hx Hy. apply (mul_loop_spec 128 0 x (replicate 4 0) y Hx gf_zero Hy). lia. Qed.

(** ** GHASH *)

Definition block_words (b : bytes) : cf_gf128 :=
  [of_be (take 4 (drop 0 b)); of_be (take 4 (drop 4 b)); of_be (take 4 (drop 8 b)); of_be (take 4 (drop 12 b))].
Definition hash_step (h Y : cf_gf128) (b : bytes) : cf_gf128 := cf_gf128_mul (cf_gf128_add (block_words b) Y) h.
Definition ghash_step (ctx : ghash_ctx) (b : bytes) : ghash_ctx := ctx <| gh_Y := hash_step (gh_H ctx) (gh_Y ctx) b |>.

Lemma frombytes_words b : length b = 16%nat -> cf_gf128_frombytes_be b = Ok (block_words b).
Proof. intros Hl. unfold cf_gf128_frombytes_be. by rewrite !read32_be_spec by lia. Qed.

Lemma ghash_block_step ctx b : length b = 16%nat -> ghash_block ctx b = Ok (ghash_step ctx b).
Proof. intros Hl. unfold ghash_block. by rewrite frombytes_words. Qed.

Lemma foldl_ghash_step ctx bs : foldl ghash_step ctx bs = ctx <| gh_Y := foldl (hash_step (gh_H ctx)) (gh_Y ctx) bs |>.
Proof. revert ctx. induction bs as [|b bs IH]; intros ctx; cbn [foldl]; [by destruct ctx | by rewrite IH]. Qed.

Lemma words_block b : block b -> gf (block_words b) /\ gf_val (block_words b) = of_be b.
Proof. intros Hb. destruct (frombytes_spec b Hb) as (x & E & H). rewrite frombytes_words in E by apply Hb. by injection E as <-. Qed.

Lemma foldl_hash_step h Y bs :
  gf h -> gf Y -> Forall block bs ->
  gf (foldl (hash_step h) Y bs) /\ gf_val (foldl (hash_step h) Y bs) = foldl (fun Y B => gcm_mul (Z.lxor Y (of_be B)) (gf_val h)) (gf_val Y) bs.
Proof.
  intros Hh HY Hbs. revert Y HY. induction Hbs as [|b bs Hb Hbs IH]; intros Y HY; cbn [foldl]; [done|].
  destruct (words_block b Hb) as [Hw Ew]. destruct (gf_val_add (block_words b) Y Hw HY) as [Ha Ea]. destruct (gf128_mul_spec _ h Ha Hh) as [Hm Em].
  rewrite Z.lxor_comm, <- Ew, <- Ea, <- Em. by apply IH.
Qed.

(** [ctx] has been fed [msg]; the counters and the phase are as given. *)
Record hashed (h : cf_gf128) (msg : bytes) (la lc : Z) (phase : ghash_phase) (ctx : ghash_ctx) : Prop := {
  hashed_H : gh_H ctx = h;
  hashed_aad : gh_len_aad ctx = la;
  hashed_cipher : gh_len_cipher ctx = lc;
  hashed_phase : gh_state ctx = phase;
  hashed_msg : absorbed 16 (hash_step h) (replicate 4 0) msg (gh_buffer ctx, gh_buffer_used ctx, gh_Y ctx)
}.

(** The same buffer seen with the whole context. *)
Lemma hashed_absorbed h msg la lc phase ctx :
  hashed h msg la lc phase ctx -> absorbed 16 ghash_step (ctx <| gh_Y := replicate 4 0 |>) msg (gh_buffer ctx, gh_buffer_used ctx, ctx).
Proof.
  intros [Hh _ _ _ [Hp Hn (bs & Hbs & Hm & HY)]]. cbn [fst snd] in *. constructor; cbn [fst snd]; [done | done|]. exists bs. split_and!; [done | done|].
  rewrite foldl_ghash_step. cbn [field_update gh_H gh_Y gh_buffer gh_buffer_used gh_len_aad gh_len_cipher gh_state]. rewrite Hh, <- HY. rewrite <- Hh. by destruct ctx.
Qed.

Lemma ghash_add_spec h msg la lc phase ctx buf :
  hashed h msg la lc phase ctx -> exists ctx', ghash_add ctx buf = Ok ctx' /\ hashed h (msg ++ buf) la lc phase ctx'.
Proof.
  intros Hh. pose proof (hashed_absorbed _ _ _ _ _ _ Hh) as Ha. unfold ghash_add.
  destruct (accumulate_absorbs 16 ghash_block ghash_step _ ltac:(lia) ltac:(intros; by apply ghash_block_step) _ _ buf Ha) as ([[p n] c] & -> & Ha'). cbn [res_bind].
  eexists. split; [reflexivity|]. destruct Ha' as [Hp Hn (bs & Hbs & Hm & Hc)]. cbn [fst snd] in *. rewrite foldl_ghash_step in Hc. rewrite Hc. destruct Hh as [HH Hla Hlc Hst _].
  constructor; cbn [field_update gh_H gh_Y gh_buffer gh_buffer_used gh_len_aad gh_len_cipher gh_state]; try done.
  constructor; cbn [fst snd]; [done | done|]. exists bs. by rewrite HH.
Qed.

Lemma pad_count_used msg : (length msg mod 16 <> 0)%nat -> gcm_pad msg = replicate (16 - length msg mod 16) 0.
Proof. intros Hne. unfold gcm_pad. pose proof (Nat.mod_upper_bound (length msg) 16 ltac:(lia)). by rewrite (Nat.mod_small (16 - _)) by lia. Qed.

Lemma ghash_add_pad_spec h msg la lc phase ctx :
  hashed h msg la lc phase ctx -> exists ctx', ghash_add_pad ctx = Ok ctx' /\ hashed h (msg ++ gcm_pad msg) la lc phase ctx' /\ gh_buffer_used ctx' = O.
Proof.
  intros Hh. pose proof (absorbed_inv 16 _ _ ltac:(lia) _ _ (hashed_msg _ _ _ _ _ _ Hh)) as (Hu & _ & _). cbn [fst snd] in Hu. unfold ghash_add_pad.
  destruct (Nat.eqb_spec (gh_buffer_used ctx) 0) as [E|E].
  - exists ctx. unfold gcm_pad. rewrite <- Hu, E. cbn [Nat.sub Nat.modulo Nat.divmod fst replicate]. by rewrite app_nil_r.
  - destruct Hh as [HH Hla Hlc Hst Ha]. pose proof (absorbed_partial _ _ _ _ _ Ha) as Hp. pose proof (absorbed_npartial _ _ _ _ _ Ha) as Hn. cbn [fst snd] in Hp, Hn.
    set (used := gh_buffer_used ctx) in *. unfold memset_to. rewrite copy_to_ok by (rewrite ?length_replicate; lia). cbn [res_bind].
    rewrite (take_ge (replicate _ _)) by (rewrite length_replicate; lia). rewrite (drop_ge (gh_buffer ctx)), app_nil_r by lia.
    set (buf := take used (gh_buffer ctx) ++ replicate (16 - used) 0). assert (Hlb : length buf = 16%nat) by (unfold buf; rewrite length_app, length_take, length_replicate; lia).
    rewrite ghash_block_step by done. cbn [res_bind]. eexists. split; [reflexivity|]. split; [|done].
    constructor; cbn [ghash_step field_update gh_H gh_Y gh_buffer gh_buffer_used gh_len_aad gh_len_cipher gh_state]; try done.
    rewrite HH, pad_count_used, <- Hu by lia.
    apply (absorbed_full 16 (hash_step h) _ (Nat.lt_0_succ 15) msg (gh_buffer ctx) used (gh_Y ctx) buf (replicate (16 - used) 0) Ha Hlb); rewrite length_replicate; [lia|].
    replace (used + (16 - used))%nat with (length buf) by lia. by rewrite firstn_all.
Qed.

(** The hash of additional data [a] and ciphertext [c]: no ciphertext has come yet, or the
    additional data has been padded. *)
Definition fed (h : cf_gf128) (a c : bytes) (ctx : ghash_ctx) : Prop :=
  let la := u64 (Z.of_nat (length a)) in
  (c = [] /\ hashed h a la 0 STATE_AAD ctx) \/ hashed h (a ++ gcm_pad a ++ c) la (u64 (Z.of_nat (length c))) STATE_CIPHER ctx.

Lemma ghash_init_spec H : block H -> exists h ctx, ghash_init H = Ok ctx /\ hashed h [] 0 0 STATE_AAD ctx /\ gf h /\ gf_val h = of_be H.
Proof.
  intros HH. unfold ghash_init. destruct (frombytes_spec H HH) as (h & -> & Hg & Hv). cbn [res_bind]. exists h. eexists. split; [reflexivity|].
  split; [|done]. constructor; try done. apply absorbed_nil; [lia | done].
Qed.

Lemma ghash_add_aad_spec h ctx a : hashed h [] 0 0 STATE_AAD ctx -> exists ctx', ghash_add_aad ctx a = Ok ctx' /\ fed h a [] ctx'.
Proof.
  intros Hh. unfold ghash_add_aad. rewrite (hashed_phase _ _ _ _ _ _ Hh), (hashed_aad _ _ _ _ _ _ Hh). cbn [bool_decide decide_rel ghash_phase_eq_dec c_assert res_bind].
  destruct (ghash_add_spec h [] (u64 (0 + Z.of_nat (length a))) 0 STATE_AAD (ctx <| gh_len_aad := u64 (0 + Z.of_nat (length a)) |>) a) as (ctx' & -> & Hh');
    [destruct Hh; by constructor|]. exists ctx'. split; [done|]. left. split; [done | exact Hh'].
Qed.

Lemma ghash_add_cipher_spec h a c ctx buf :
  fed h a c ctx -> exists ctx', ghash_add_cipher ctx buf = Ok ctx' /\ hashed h (a ++ gcm_pad a ++ c ++ buf) (u64 (Z.of_nat (length a))) (u64 (Z.of_nat (length (c ++ buf)))) STATE_CIPHER ctx'.
Proof.
  intros Hf.
  assert (Hs : exists ctx1, (if bool_decide (gh_state ctx = STATE_AAD) then let! ctx := ghash_add_pad ctx in Ok (ctx <| gh_state := STATE_CIPHER |>) else Ok ctx) = Ok ctx1 /\
    hashed h (a ++ gcm_pad a ++ c) (u64 (Z.of_nat (length a))) (u64 (Z.of_nat (length c))) STATE_CIPHER ctx1).
  { destruct Hf as [[-> Hh] | Hh]; rewrite (hashed_phase _ _ _ _ _ _ Hh).
    - rewrite bool_decide_eq_true_2 by done. destruct (ghash_add_pad_spec _ _ _ _ _ _ Hh) as (ctx1 & -> & Hh1 & _). cbn [res_bind].
      eexists. split; [reflexivity|]. rewrite app_nil_r. destruct Hh1. by constructor.
    - rewrite bool_decide_eq_false_2 by done. by exists ctx. }
  destruct Hs as (ctx1 & Es & Hh). unfold ghash_add_cipher. rewrite Es. cbn [res_bind]. rewrite (hashed_phase _ _ _ _ _ _ Hh), bool_decide_eq_true_2 by done. cbn [c_assert res_bind].
  destruct (ghash_add_spec h (a ++ gcm_pad a ++ c) (u64 (Z.of_nat (length a))) (u64 (Z.of_nat (length (c ++ buf)))) STATE_CIPHER
    (ctx1 <| gh_len_cipher := u64 (gh_len_cipher ctx1 + Z.of_nat (length buf)) |>) buf) as (ctx' & -> & Hh').
  - destruct Hh as [? ? Hlc ? ?]. constructor; try done. cbn [field_update gh_len_cipher]. rewrite Hlc, length_app. unfold u64. rewrite Zplus_mod_idemp_l. f_equal. lia.
  - exists ctx'. split; [done|]. by rewrite <- !app_assoc in Hh'.
Qed.

Lemma padded_length x : ((length x + length (gcm_pad x)) mod 16 = 0)%nat.
Proof.
  unfold gcm_pad. rewrite length_replicate. pose proof (Nat.mod_upper_bound (length x) 16 ltac:(lia)).
  rewrite (Nat.div_mod_eq (length x) 16) at 1. set (m := (length x mod 16)%nat) in *. destruct (decide (m = 0)%nat) as [-> |].
  - rewrite Nat.sub_0_r, Nat.Div0.mod_same, Nat.add_0_r, Nat.add_0_r, Nat.mul_comm. apply Nat.Div0.mod_mul.
  - rewrite (Nat.mod_small (16 - m)) by lia. replace (16 * (length x / 16) + m + (16 - m))%nat with (S (length x / 16) * 16)%nat by lia. apply Nat.Div0.mod_mul.
Qed.

Lemma gcm_pad_prefix x y : (length x mod 16 = 0)%nat -> gcm_pad (x ++ y) = gcm_pad y.
Proof.
  intros Hx. unfold gcm_pad. rewrite length_app. rewrite Nat.Div0.add_mod, Hx, Nat.add_0_l. by rewrite Nat.Div0.mod_mod.
Qed.

Lemma gcm_pad_bytes x : is_bytes (gcm_pad x).
Proof. by apply Forall_replicate. Qed.

Lemma blocks_bytes (bs : list bytes) : Forall (fun b => length b = 16%nat) bs -> is_bytes (concat bs) -> Forall block bs.
Proof.
  induction 1 as [|b bs Hl Hbs IH]; intros Hb; constructor; cbn [concat] in Hb; apply Forall_app in Hb as [Hb1 Hb2]; [by split | by apply IH].
Qed.

(** Everything fed was whole blocks: the accumulator is GHASH of it. *)
Lemma hashed_value h msg la lc phase ctx :
  hashed h msg la lc phase ctx -> gf h -> is_bytes msg -> (length msg mod 16 = 0)%nat ->
  gh_buffer_used ctx = O /\ gf (gh_Y ctx) /\ gf_val (gh_Y ctx) = GHASH (gf_val h) msg.
Proof.
  intros [_ _ _ _ Ha] Hh Hb Hm. pose proof (absorbed_inv 16 _ _ (Nat.lt_0_succ 15) _ _ Ha) as (Hu & HY & _). cbn [fst snd] in Hu, HY. rewrite Hm in Hu. split; [done|].
  pose proof (absorbed_blocks _ _ _ _ _ Ha) as (bs & Hbs & Hmsg & HY'). cbn [fst snd] in Hmsg, HY'. rewrite Hu, take_0, app_nil_r in Hmsg.
  assert (Hbl : Forall block bs) by (apply blocks_bytes; [done | by rewrite <- Hmsg]).
  destruct (foldl_hash_step h (replicate 4 0) bs Hh gf_zero Hbl) as [Hg Hv]. rewrite HY'. split; [done|]. rewrite Hv. unfold GHASH.
  assert (Eb : blocks_of 16 (length msg / 16) msg = bs); [|by rewrite Eb].
  rewrite Hmsg, (length_concat_blocks 16 bs Hbs), Nat.div_mul by lia. pose proof (blocks_of_concat 16 bs [] Hbs) as E. by rewrite app_nil_r in E.
Qed.

Lemma ghash_final_spec h a c ctx :
  fed h a c ctx -> gf h -> is_bytes a -> is_bytes c -> exists ctx', ghash_final ctx = Ok (be 16 (GHASH (gf_val h) (gcm_auth_data a c)), ctx').
Proof.
  intros Hf Hh Ha Hc. set (la := u64 (Z.of_nat (length a))). set (lc := u64 (Z.of_nat (length c))).
  assert (Hs : exists ctx1, (if bool_decide (gh_state ctx = STATE_AAD) || bool_decide (gh_state ctx = STATE_CIPHER) then let! ctx := ghash_add_pad ctx in Ok (ctx <| gh_state := STATE_INVALID |>) else Ok ctx) = Ok ctx1 /\
    hashed h (a ++ gcm_pad a ++ c ++ gcm_pad c) la lc STATE_INVALID ctx1).
  { assert (bool_decide (gh_state ctx = STATE_AAD) || bool_decide (gh_state ctx = STATE_CIPHER) = true) as ->
      by (destruct Hf as [[_ Hh0] | Hh0]; by rewrite (hashed_phase _ _ _ _ _ _ Hh0)).
    destruct Hf as [[-> Hh0] | Hh0];
      destruct (ghash_add_pad_spec _ _ _ _ _ _ Hh0) as (ctx1 & -> & Hh1 & _); cbn [res_bind]; eexists; (split; [reflexivity|]).
    - change (gcm_pad []) with (@nil Z). rewrite !app_nil_r. destruct Hh1. by constructor.
    - rewrite app_assoc, gcm_pad_prefix, <- !app_assoc in Hh1 by (rewrite length_app; apply padded_length). destruct Hh1. by constructor. }
  destruct Hs as (ctx1 & Es & Hh1). unfold ghash_final. rewrite Es. cbn [res_bind]. rewrite (hashed_aad _ _ _ _ _ _ Hh1).
  destruct (ghash_add_spec _ _ _ _ _ _ (write64_be (u64 (la * 8))) Hh1) as (ctx2 & -> & Hh2). cbn [res_bind]. rewrite (hashed_cipher _ _ _ _ _ _ Hh2).
  destruct (ghash_add_spec _ _ _ _ _ _ (write64_be (u64 (lc * 8))) Hh2) as (ctx3 & -> & Hh3). cbn [res_bind].
  assert (Ew : forall n, write64_be (u64 (u64 n * 8)) = be 8 (8 * n)).
  { intros n. rewrite write64_be_spec. unfold u64. change (2 ^ 64) with (2 ^ (8 * Z.of_nat 8)). rewrite Zmult_mod_idemp_l, be_mod. f_equal. lia. }
  unfold la, lc in Hh3. rewrite !Ew in Hh3. rewrite <- !app_assoc in Hh3. fold (gcm_lengths a c) in Hh3. fold (gcm_auth_data a c) in Hh3.
  destruct (hashed_value _ _ _ _ _ _ Hh3 Hh) as (Hu & Hg & Hv).
  - unfold gcm_auth_data, gcm_lengths. repeat apply Forall_app_2; auto using gcm_pad_bytes, be_bytes.
  - unfold gcm_auth_data. rewrite app_assoc, length_app. rewrite Nat.Div0.add_mod. rewrite (length_app a), padded_length, Nat.add_0_l, Nat.Div0.mod_mod.
    rewrite app_assoc, length_app, Nat.Div0.add_mod, (length_app c), padded_length, Nat.add_0_l, Nat.Div0.mod_mod. unfold gcm_lengths. by rewrite length_app, !length_be.
  - rewrite Hu. cbn [Nat.eqb c_assert res_bind]. eexists. rewrite tobytes_spec, Hv by done. reflexivity.
Qed.

(** ** The mode *)

Lemma xor_bb_spec x y n : is_bytes x -> is_bytes y -> (n <= length x)%nat -> (n <= length y)%nat -> xor_bb x y n = Ok (take n (zip_with Z.lxor x y)).
Proof.
  revert x y. induction n as [|n IH]; intros x y Hx Hy Hlx Hly; [by rewrite take_0|]. destruct Hx as [|a x Ha Hx], Hy as [|b y Hb Hy]; cbn in Hlx, Hly; try lia.
  cbn [xor_bb zip_with take]. rewrite IH by (done || lia). cbn [res_bind]. by rewrite u8_id by (by apply lxor_byte).
Qed.

Lemma zero_block : block (replicate 16 0).
Proof. split; [done|]. by apply Forall_replicate. Qed.

Section Mode.
Context {C : Type} (prp : cf_prp C) (prpctx : C) (E : bytes -> bytes) `{HE : !BlockCipher prp prpctx E}.

Lemma hash_key_spec : gcm_hash_key prp prpctx = Ok (E (replicate 16 0)) /\ block (E (replicate 16 0)).
Proof. unfold gcm_hash_key. split; [apply block_encrypts, zero_block | apply block_result, zero_block]. Qed.

Lemma J0_block iv : is_bytes iv -> block (gcm_J0 E iv).
Proof.
  intros Hb. unfold gcm_J0. destruct (Nat.eqb_spec (length iv) 12) as [Hl|_].
  - split; [rewrite length_app, Hl; done|]. apply Forall_app_2; [done | by repeat constructor].
  - split; [apply length_be | apply be_bytes].
Qed.

Lemma first_counter_spec iv : is_bytes iv -> gcm_first_counter (E (replicate 16 0)) iv = Ok (gcm_J0 E iv).
Proof.
  intros Hb. unfold gcm_first_counter, gcm_J0. destruct (_ =? 12)%nat; [done|]. destruct hash_key_spec as [_ HH].
  destruct (ghash_init_spec _ HH) as (h & gh & -> & Hh & Hg & Hv). cbn [res_bind].
  destruct (ghash_add_cipher_spec h [] [] gh iv) as (gh1 & -> & Hh1); [by left|]. cbn [res_bind].
  destruct (ghash_final_spec h [] iv gh1 ltac:(right; exact Hh1) Hg ltac:(constructor) Hb) as (gh2 & ->). cbn [res_bind]. by rewrite Hv.
Qed.

Section Message.
Context (iv a : bytes).
Hypotheses (Hiv : is_bytes iv) (Ha : is_bytes a).
Notation J0 := (gcm_J0 E iv).
Notation stream := (ctr_stream E J0 12 4).

(** The context after [text] was encrypted. *)
Record gcm_at (text : bytes) (ctx : cf_gcm_ctx C) : Prop := {
  at_ctr : ctr_at prp prpctx E J0 12 4 (16 + length text) (gcm_ctr ctx);
  at_hash : exists h, fed h a (gcm_crypt E iv text) (gcm_gh ctx) /\ gf h /\ gf_val h = gcm_H E;
  at_e_Y0 : gcm_e_Y0 ctx = E J0
}.

Lemma first_stream_block : xor_stream stream 0 (replicate 16 0) = E J0.
Proof.
  pose proof (J0_block iv Hiv) as HJ. pose proof (block_result (BlockCipher := HE) _ HJ) as [Hl Hb]. apply list_eq. intros i.
  unfold xor_stream. rewrite list_lookup_imap. destruct (decide (i < 16)%nat) as [Hi|Hi].
  - rewrite lookup_replicate_2 by done. cbn [fmap option_fmap option_map Nat.add]. rewrite Z.lxor_0_l.
    unfold ctr_stream, keystream. rewrite Nat.div_small, Nat.mod_small, counter_0 by (done || lia).
    destruct (lookup_lt_is_Some_2 (E J0) i ltac:(lia)) as [b Hbi]. rewrite Hbi. cbn [default]. by rewrite u8_id by (by apply (is_bytes_lookup (E J0) i)).
  - rewrite (lookup_ge_None_2 (replicate _ _)) by (rewrite length_replicate; lia). cbn. by rewrite lookup_ge_None_2 by lia.
Qed.

(** What both directions start with. *)
Lemma start_spec :
  exists h gh gh1 ctr ctr1 ctr2, ghash_init (E (replicate 16 0)) = Ok gh /\ ghash_add_aad gh a = Ok gh1 /\ fed h a [] gh1 /\ gf h /\ gf_val h = gcm_H E /\
    cf_ctr_init prp prpctx J0 = Ok ctr /\ cf_ctr_custom_counter ctr 12 4 = Ok ctr1 /\ cf_ctr_cipher ctr1 (replicate 16 0) = Ok (E J0, ctr2) /\
    ctr_at prp prpctx E J0 12 4 16 ctr2.
Proof.
  pose proof (J0_block iv Hiv) as HJ. destruct hash_key_spec as [_ HH]. destruct (ghash_init_spec _ HH) as (h & gh & Egh & Hh & Hg & Hv).
  destruct (ghash_add_aad_spec h gh a Hh) as (gh1 & Eaad & Hf). destruct (ctr_init_spec prp prpctx E _ HJ) as (ctr & Ectr & _).
  destruct (ctr_custom_spec prp prpctx E _ 12 4 ctr HJ eq_refl Ectr) as (ctr1 & Ecu & Hat).
  destruct (ctr_streams prp prpctx E J0 12 4 HJ eq_refl ltac:(lia) 0 ctr1 (replicate 16 0) Hat) as (ctr2 & Ec & Hat2). rewrite first_stream_block in Ec.
  by exists h, gh, gh1, ctr, ctr1, ctr2.
Qed.

Lemma gcm_encrypt_init_spec : exists ctx, cf_gcm_encrypt_init prp prpctx a iv = Ok ctx /\ gcm_at [] ctx.
Proof.
  destruct start_spec as (h & gh & gh1 & ctr & ctr1 & ctr2 & E1 & E2 & Hf & Hg & Hv & E3 & E4 & E5 & Hat).
  unfold cf_gcm_encrypt_init. rewrite (proj1 hash_key_spec). cbn [res_bind]. rewrite first_counter_spec by done. cbn [res_bind].
  rewrite E1. cbn [res_bind]. rewrite E2. cbn [res_bind]. rewrite E3. cbn [res_bind]. rewrite E4. cbn [res_bind]. rewrite E5. cbn [res_bind].
  eexists. split; [reflexivity|]. constructor; [exact Hat | by exists h | done].
Qed.

Lemma gcm_crypt_bytes text : is_bytes (gcm_crypt E iv text).
Proof. apply Forall_lookup. intros i b. unfold gcm_crypt, xor_stream. rewrite list_lookup_imap. destruct (text !! i); cbn; [intros [= <-]; apply u8_range | done]. Qed.

Lemma gcm_encrypt_update_spec text ctx x :
  gcm_at text ctx -> exists ctx', cf_gcm_encrypt_update ctx x = Ok (xor_stream stream (16 + length text) x, ctx') /\ gcm_at (text ++ x) ctx'.
Proof.
  intros [Hat (h & Hf & Hg & Hv) He]. pose proof (J0_block iv Hiv) as HJ. unfold cf_gcm_encrypt_update.
  destruct (ctr_streams prp prpctx E J0 12 4 HJ eq_refl ltac:(lia) _ _ x Hat) as (ctr & -> & Hat'). cbn [res_bind].
  destruct (ghash_add_cipher_spec h a _ (gcm_gh ctx) (xor_stream stream (16 + length text) x) Hf) as (gh & -> & Hh). cbn [res_bind].
  eexists. split; [reflexivity|]. assert (Ec : gcm_crypt E iv (text ++ x) = gcm_crypt E iv text ++ xor_stream stream (16 + length text) x) by apply xor_stream_app.
  constructor; cbn [gcm_ctr gcm_gh gcm_e_Y0]; [by rewrite length_app, Nat.add_assoc | | done].
  exists h. split; [|done]. right. by rewrite Ec.
Qed.

Lemma tag_spec x n : (1 < n <= 16)%nat ->
  xor_bb (be 16 (GHASH (gcm_H E) (gcm_auth_data a x))) (E J0) n = Ok (gcm_tag E iv a x n).
Proof.
  intros Hn. pose proof (block_result (BlockCipher := HE) _ (J0_block iv Hiv)) as [Hl Hb]. unfold gcm_tag.
  apply xor_bb_spec; [apply be_bytes | done | rewrite length_be; lia | lia].
Qed.

Lemma gcm_encrypt_final_spec text ctx n :
  gcm_at text ctx -> (1 < n <= 16)%nat -> cf_gcm_encrypt_final ctx n = Ok (gcm_tag E iv a (gcm_crypt E iv text) n).
Proof.
  intros [_ (h & Hf & Hg & Hv) He] Hn. unfold cf_gcm_encrypt_final. destruct (ghash_final_spec h a _ _ Hf Hg Ha (gcm_crypt_bytes text)) as (gh & ->). cbn [res_bind].
  rewrite (proj2 (Nat.ltb_lt 1 n)), (proj2 (Nat.leb_le n 16)) by lia. cbn [andb c_assert res_bind]. rewrite He, Hv. by apply tag_spec.
Qed.

(** In one call, as [cf_gcm_decrypt] expects it. *)
Lemma gcm_one_shot text n :
  (1 < n <= 16)%nat ->
  exists tag, cf_gcm_encrypt prp prpctx text a iv n = Ok (gcm_crypt E iv text, tag) /\ tag = gcm_tag E iv a (gcm_crypt E iv text) n.
Proof.
  intros Hn. unfold cf_gcm_encrypt. destruct gcm_encrypt_init_spec as (ctx & -> & Hat). cbn [res_bind].
  destruct (gcm_encrypt_update_spec [] ctx text Hat) as (ctx' & -> & Hat'). cbn [res_bind app]. rewrite (gcm_encrypt_final_spec text) by done.
  cbn [res_bind]. by eexists.
Qed.

Lemma gcm_decrypt_spec c tag n :
  is_bytes c -> (1 < n <= 16)%nat -> (n <= length tag)%nat ->
  cf_gcm_decrypt prp prpctx c a iv tag n = Ok (if bool_decide (gcm_tag E iv a c n = take n tag) then Some (gcm_crypt E iv c) else None).
Proof.
  intros Hc Hn Ht. destruct start_spec as (h & gh & gh1 & ctr & ctr1 & ctr2 & E1 & E2 & Hf & Hg & Hv & E3 & E4 & E5 & Hat).
  unfold cf_gcm_decrypt. rewrite (proj1 hash_key_spec). cbn [res_bind]. rewrite first_counter_spec by done. cbn [res_bind].
  rewrite E1. cbn [res_bind]. rewrite E2. cbn [res_bind]. rewrite E3. cbn [res_bind]. rewrite E4. cbn [res_bind]. rewrite E5. cbn [res_bind].
  destruct (ghash_add_cipher_spec h a [] gh1 c Hf) as (gh2 & -> & Hh). cbn [res_bind].
  destruct (ghash_final_spec h a c gh2 ltac:(right; exact Hh) Hg Ha Hc) as (gh3 & ->). cbn [res_bind].
  rewrite (proj2 (Nat.ltb_lt 1 n)), (proj2 (Nat.leb_le n 16)) by lia. cbn [andb c_assert res_bind]. rewrite Hv, tag_spec by done. cbn [res_bind].
  rewrite (proj2 (Nat.ltb_ge _ _)) by lia. destruct (bool_decide _); [|done].
  destruct (ctr_streams prp prpctx E J0 12 4 (J0_block iv Hiv) eq_refl ltac:(lia) _ _ c Hat) as (ctr3 & -> & _). done.
Qed.

Lemma length_gcm_tag c n : (n <= 16)%nat -> length (gcm_tag E iv a c n) = n.
Proof.
  intros Hn. pose proof (block_result (BlockCipher := HE) _ (J0_block iv Hiv)) as [Hl _]. unfold gcm_tag. rewrite length_take, length_zip_with, length_be. lia.
Qed.

Lemma gcm_tag_bytes c n : is_bytes (gcm_tag E iv a c n).
Proof.
  pose proof (block_result (BlockCipher := HE) _ (J0_block iv Hiv)) as HJ. unfold gcm_tag. apply Forall_take.
  apply (AddRoundKey_block (be 16 _)); [split; [apply length_be | apply be_bytes] | done].
Qed.
End Message.
End Mode.
