(* ===== verification/Gf2.v ===== *)
(** * Gf2: polynomials over the field with two elements

    A polynomial is the number whose bits are its coefficients: addition is [N.lxor],
    multiplication is the carry-less product [pmul].  The file makes them a ring for the
    tactic [ring], which knows that [x + x = 0], and then the quotient by the reflected
    polynomial of GCM, in which the bits of a block are in the reverse order
    ([z^128 + z^127 + z^126 + z^121 + 1]): an equivalence [x ~ y] with a ring of its own,
    an inverse of [z], and the uniqueness of a representative below 2^128.  Main result:
    the multiplication of SP 800-38D is a product in this quotient ([gcm_mul_product]). *)
From S2P Require Import Prelude Aes Gcm.
From Stdlib Require Import Ring Ring_theory Setoid Morphisms NArith.
Local Open Scope N_scope.

(** ** The ring *)

Fixpoint pmul_pos (p : positive) (b : N) : N :=
  match p with
  | xH => b
  | xO p => N.double (pmul_pos p b)
  | xI p => N.lxor b (N.double (pmul_pos p b))
  end.
Definition pmul (a b : N) : N := match a with N0 => 0 | Npos p => pmul_pos p b end.

Declare Scope gf2_scope.
Delimit Scope gf2_scope with gf2.
Infix "⊕" := N.lxor (at level 50, left associativity) : gf2_scope.
Infix "⊗" := pmul (at level 40, left associativity) : gf2_scope.
Local Open Scope gf2_scope.

Lemma double_lxor a b : N.double (a ⊕ b) = N.double a ⊕ N.double b.
Proof. destruct a as [|p], b as [|q]; try reflexivity; cbv [N.lxor N.double N.succ_double]; cbn [Pos.lxor]; destruct (Pos.lxor p q); reflexivity. Qed.
Lemma succ_double_lxor a b : N.succ_double (a ⊕ b) = N.succ_double a ⊕ N.double b.
Proof. destruct a as [|p], b as [|q]; try reflexivity; cbv [N.lxor N.double N.succ_double]; cbn [Pos.lxor]; destruct (Pos.lxor p q); reflexivity. Qed.
Lemma succ_double_lxor2 a b : N.double (a ⊕ b) = N.succ_double a ⊕ N.succ_double b.
Proof. destruct a as [|p], b as [|q]; try reflexivity; cbv [N.lxor N.double N.succ_double]; cbn [Pos.lxor]; destruct (Pos.lxor p q); reflexivity. Qed.

Lemma pmul_double a b : N.double a ⊗ b = N.double (a ⊗ b).
Proof. by destruct a. Qed.
Lemma pmul_succ_double a b : N.succ_double a ⊗ b = b ⊕ N.double (a ⊗ b).
Proof. destruct a; [cbn; by rewrite N.lxor_0_r | done]. Qed.

Lemma pmul_lxor_r a b c : a ⊗ (b ⊕ c) = a ⊗ b ⊕ a ⊗ c.
Proof.
  induction a as [|a IH|a IH] using N.binary_ind; [done | |].
  - by rewrite !pmul_double, IH, double_lxor.
  - rewrite !pmul_succ_double, IH, double_lxor. rewrite !N.lxor_assoc. f_equal. rewrite <- !N.lxor_assoc. f_equal. apply N.lxor_comm.
Qed.

Lemma pmul_lxor_l a b c : (a ⊕ b) ⊗ c = a ⊗ c ⊕ b ⊗ c.
Proof.
  revert b. induction a as [|a IH|a IH] using N.binary_ind; intros b; [by rewrite N.lxor_0_l | |];
    destruct b as [|b _|b _] using N.binary_ind; rewrite ?N.lxor_0_r; try done.
  - by rewrite <- double_lxor, !pmul_double, IH, double_lxor.
  - rewrite (N.lxor_comm (N.double a)), <- succ_double_lxor, !pmul_succ_double, pmul_double, (N.lxor_comm b), IH, double_lxor.
    by rewrite <- !N.lxor_assoc, (N.lxor_comm c).
  - by rewrite <- succ_double_lxor, !pmul_succ_double, pmul_double, IH, double_lxor, N.lxor_assoc.
  - rewrite <- succ_double_lxor2, pmul_double, !pmul_succ_double, IH, double_lxor.
    rewrite (N.lxor_comm c (N.double (b ⊗ c))), N.lxor_assoc. rewrite <- (N.lxor_assoc _ _ c), <- (N.lxor_assoc c).
    by rewrite (N.lxor_comm c), (N.lxor_assoc _ c c), N.lxor_nilpotent, N.lxor_0_r.
Qed.

Lemma pmul_0_r a : a ⊗ 0 = 0.
Proof. induction a as [|a IH|a IH] using N.binary_ind; [done | by rewrite pmul_double, IH | by rewrite pmul_succ_double, IH]. Qed.
Lemma pmul_1_l a : 1 ⊗ a = a.
Proof. done. Qed.

Lemma pmul_double_r a b : a ⊗ N.double b = N.double (a ⊗ b).
Proof.
  induction a as [|a IH|a IH] using N.binary_ind; [done | by rewrite !pmul_double, IH |].
  by rewrite !pmul_succ_double, IH, double_lxor.
Qed.
Lemma pmul_1_r a : a ⊗ 1 = a.
Proof. induction a as [|a IH|a IH] using N.binary_ind; [done | by rewrite pmul_double, IH |]. rewrite pmul_succ_double, IH. by destruct a. Qed.

Lemma pmul_comm a b : a ⊗ b = b ⊗ a.
Proof.
  revert b. induction a as [|a IH|a IH] using N.binary_ind; intros b; [by rewrite pmul_0_r | by rewrite pmul_double, pmul_double_r, IH |].
  assert (E : N.succ_double a = 1 ⊕ N.double a) by (by destruct a). rewrite E at 2.
  by rewrite pmul_succ_double, pmul_lxor_r, pmul_1_r, pmul_double_r, IH.
Qed.

Lemma pmul_assoc a b c : a ⊗ (b ⊗ c) = a ⊗ b ⊗ c.
Proof.
  induction a as [|a IH|a IH] using N.binary_ind; [done | by rewrite !pmul_double, IH |].
  by rewrite !pmul_succ_double, IH, pmul_lxor_l, pmul_double.
Qed.

Lemma gf2_ring : ring_theory 0 1 N.lxor pmul N.lxor id (@eq N).
Proof.
  constructor; intros; unfold id; rewrite ?N.lxor_assoc; auto using N.lxor_0_l, N.lxor_comm, N.lxor_assoc, pmul_1_l, pmul_comm, pmul_assoc, pmul_lxor_l, N.lxor_nilpotent.
Qed.

(** The coefficients are those of the field: [x + x = 0]. *)
Definition coefficient (b : bool) : N := if b then 1 else 0.
Lemma gf2_morph : ring_morph 0 1 N.lxor pmul N.lxor id eq false true xorb andb xorb id Bool.eqb coefficient.
Proof.
  constructor; try done; try (by intros [] []).
Qed.
Ltac gf2_cst t := match t with 0 => constr:(false) | 1 => constr:(true) | _ => constr:(InitialRing.NotConstant) end.
Add Ring gf2 : gf2_ring (morphism gf2_morph, constants [gf2_cst]).


(** ** Degrees *)

Lemma log2_lxor_lt a b : N.log2 a < N.log2 b -> N.log2 (a ⊕ b) = N.log2 b.
Proof.
  intros Hlt. apply N.log2_bits_unique.
  - rewrite N.lxor_spec, (N.bits_above_log2 a) by done. rewrite N.bit_log2; [done|]. intros ->. by apply N.nlt_0_r in Hlt.
  - intros m Hm. by rewrite N.lxor_spec, !N.bits_above_log2 by lia.
Qed.

Lemma pmul_log2 a b : a <> 0 -> b <> 0 -> a ⊗ b <> 0 /\ N.log2 (a ⊗ b) = N.log2 a + N.log2 b.
Proof.
  intros Ha Hb. induction a as [|a IH|a IH] using N.binary_ind; [done | |].
  - destruct IH as [Hn IH]; [by intros ->|]. rewrite pmul_double. split; [by destruct (a ⊗ b)|].
    rewrite !N.double_spec, !N.log2_double, IH by (lia || by intros ->). lia.
  - rewrite pmul_succ_double. destruct (decide (a = 0)) as [->|Ha']; [cbn [pmul N.double]; rewrite N.lxor_0_r; by split|].
    destruct (IH Ha') as [Hn IH']. assert (Hl : N.log2 (b ⊕ N.double (a ⊗ b)) = N.succ (N.log2 a + N.log2 b)).
    { rewrite log2_lxor_lt; rewrite N.double_spec, N.log2_double; lia. }
    split; [|rewrite Hl, N.succ_double_spec, N.log2_succ_double by lia; lia]. intros E. rewrite E in Hl. cbn in Hl. lia.
Qed.

Lemma below_pow2 a n : a <> 0 -> a < 2 ^ n <-> N.log2 a < n.
Proof. intros Ha. apply N.log2_lt_pow2. lia. Qed.

Lemma pmul_below a b n m : 0 < n -> 0 < m -> a < 2 ^ n -> b < 2 ^ m -> a ⊗ b < 2 ^ (n + m - 1).
Proof.
  intros Hn Hm Ha Hb. destruct (decide (a = 0)) as [->|Ha0]; [apply N.neq_0_lt_0, N.pow_nonzero; lia|].
  destruct (decide (b = 0)) as [->|Hb0]; [rewrite pmul_0_r; apply N.neq_0_lt_0, N.pow_nonzero; lia|].
  destruct (pmul_log2 a b Ha0 Hb0) as [H0 Hl]. rewrite below_pow2 in * by done. lia.
Qed.

Lemma lxor_below a b n : a < 2 ^ n -> b < 2 ^ n -> a ⊕ b < 2 ^ n.
Proof.
  intros Ha Hb. destruct (decide (a ⊕ b = 0)) as [->|H0]; [apply N.neq_0_lt_0, N.pow_nonzero; lia|].
  rewrite below_pow2 by done. pose proof (N.log2_lxor a b) as Hl. destruct (decide (n = 0)) as [->|Hn]; [cbn in *; assert (a = 0) as -> by lia; assert (b = 0) as -> by lia; done|].
  assert (forall c, c < 2 ^ n -> N.log2 c < n) as Hc.
  { intros c Hc. destruct (decide (c = 0)) as [->|]; [cbn; lia | by apply below_pow2]. }
  pose proof (Hc a Ha). pose proof (Hc b Hb). lia.
Qed.

Lemma pmul_pow2 n a : 2 ^ n ⊗ a = 2 ^ n * a.
Proof.
  induction n as [|n IH] using N.peano_ind; [cbn; by destruct a|].
  rewrite N.pow_succ_r', <- N.double_spec, pmul_double, IH. by rewrite !N.double_spec, N.mul_assoc.
Qed.

(** A number is its low [n] bits and the rest. *)
Lemma split_at n a : a = 2 ^ n ⊗ (a / 2 ^ n) ⊕ a mod 2 ^ n.
Proof.
  rewrite pmul_pow2, <- N.add_nocarry_lxor; [apply N.div_mod, N.pow_nonzero; done|].
  apply N.bits_inj_0. intros k. rewrite N.land_spec. destruct (N.lt_ge_cases k n).
  - by rewrite N.mul_comm, N.mul_pow2_bits_low.
  - by rewrite N.mod_pow2_bits_high, andb_false_r.
Qed.

Lemma glue n a b : b < 2 ^ n -> 2 ^ n * a + b = 2 ^ n ⊗ a ⊕ b.
Proof.
  intros Hb. rewrite (split_at n (2 ^ n * a + b)). f_equal; [f_equal|].
  - symmetry. by apply N.div_unique with b.
  - symmetry. by apply N.mod_unique with a.
Qed.

(** ** The quotient *)

Definition gcm_poly : N := 2 ^ 128 + 2 ^ 127 + 2 ^ 126 + 2 ^ 121 + 1.
Definition sim (a b : N) : Prop := exists m, a = b ⊕ m ⊗ gcm_poly.
Infix "≃" := sim (at level 70) : gf2_scope.

#[export] Instance sim_equiv : Equivalence sim.
Proof.
  split.
  - intros a. exists 0. ring.
  - intros a b [m ->]. exists m. ring.
  - intros a b c [m ->] [k ->]. exists (m ⊕ k). ring.
Qed.
#[export] Instance lxor_sim : Proper (sim ==> sim ==> sim) N.lxor.
Proof. intros a a' [m ->] b b' [k ->]. exists (m ⊕ k). ring. Qed.
#[export] Instance pmul_sim : Proper (sim ==> sim ==> sim) pmul.
Proof. intros a a' [m ->] b b' [k ->]. exists (m ⊗ b' ⊕ a' ⊗ k ⊕ m ⊗ k ⊗ gcm_poly). ring. Qed.
#[export] Instance id_sim : Proper (sim ==> sim) id.
Proof. by intros a b H. Qed.

Lemma lxor_move a b c : a = b ⊕ c -> c = a ⊕ b.
Proof. intros ->. ring. Qed.
Lemma eq_sim a b : a = b -> a ≃ b.
Proof. by intros ->. Qed.

Lemma gfq_ring : ring_theory 0 1 N.lxor pmul N.lxor id sim.
Proof. constructor; intros; apply eq_sim; unfold id; ring. Qed.
Lemma gfq_ext : ring_eq_ext N.lxor pmul id sim.
Proof. constructor; apply _. Qed.
Lemma gfq_morph : ring_morph 0 1 N.lxor pmul N.lxor id sim false true xorb andb xorb id Bool.eqb coefficient.
Proof. constructor; try done; try (by intros [] []). Qed.
Add Ring gfq : gfq_ring (morphism gfq_morph, setoid sim_equiv gfq_ext, constants [gf2_cst]).

(** A class has one representative of at most 128 bits. *)
Lemma sim_unique a b : a < 2 ^ 128 -> b < 2 ^ 128 -> a ≃ b -> a = b.
Proof.
  intros Ha Hb [m E]. assert (Hm : m ⊗ gcm_poly = a ⊕ b) by (by apply lxor_move).
  destruct (decide (m = 0)) as [->|Hm0]; [rewrite E; cbn [pmul]; apply N.lxor_0_r|]. exfalso.
  destruct (pmul_log2 m gcm_poly Hm0 ltac:(done)) as [H0 Hl]. rewrite Hm in H0, Hl. pose proof (lxor_below a b 128 Ha Hb) as Hlt.
  apply below_pow2 in Hlt; [|done]. rewrite Hl in Hlt. change (N.log2 gcm_poly) with 128 in Hlt. lia.
Qed.

(** The inverse of [z] is the constant [R] of the standard. *)
Definition zinv : N := 0xe1 * 2 ^ 120.
Definition zinvs (n : nat) : N := Nat.iter n (pmul zinv) 1.
Lemma zinvs_S n : zinvs (S n) = zinv ⊗ zinvs n.
Proof. reflexivity. Qed.
Lemma zinv_spec : 2 ⊗ zinv ≃ 1.
Proof. exists 1. reflexivity. Qed.

Lemma zinvs_spec n : 2 ^ N.of_nat n ⊗ zinvs n ≃ 1.
Proof.
  induction n as [|n IH]; [reflexivity|]. rewrite Nat2N.inj_succ, N.pow_succ_r'. change (zinvs (S n)) with (zinv ⊗ zinvs n).
  change 2 with (2 ^ 1) at 1. rewrite <- pmul_pow2. change (2 ^ 1) with 2.
  transitivity ((2 ⊗ zinv) ⊗ (2 ^ N.of_nat n ⊗ zinvs n)); [ring|]. rewrite IH, zinv_spec. ring.
Qed.

(** A multiple of [z^n] determines the other factor. *)
Lemma zinvs_cancel n a b : 2 ^ N.of_nat n ⊗ a ≃ b -> a ≃ zinvs n ⊗ b.
Proof. intros H. rewrite <- H. transitivity ((2 ^ N.of_nat n ⊗ zinvs n) ⊗ a); [rewrite zinvs_spec; ring | ring]. Qed.

#[global] Opaque zinvs.

(** ** SP 800-38D *)

Lemma gcm_shift_N V : exists W, gcm_shift (Z.of_N V) = Z.of_N W /\ W ≃ zinv ⊗ V /\ (V < 2 ^ 128 -> W < 2 ^ 128).
Proof.
  unfold gcm_shift. assert (Z.odd (Z.of_N V) = N.odd V) as -> by (by destruct V as [|[]]). rewrite <- (N2Z.inj_div V 2 : _ = (Z.of_N V / 2)%Z).
  assert (EV : V = 2 ⊗ (V / 2) ⊕ coefficient (N.odd V)).
  { rewrite (split_at 1 V) at 1. change (2 ^ 1) with 2. f_equal. rewrite <- N.bit0_odd, <- N.bit0_mod. by destruct (N.testbit V 0). }
  assert (Hlt : V < 2 ^ 128 -> V / 2 < 2 ^ 128) by (intros; apply N.Div0.div_lt_upper_bound; lia).
  destruct (N.odd V); cbn [coefficient] in EV.
  - exists (V / 2 ⊕ zinv). change gcm_R with (Z.of_N zinv). rewrite N2Z.inj_lxor. split_and!; [done | | intros; apply lxor_below; [auto | done]].
    rewrite EV at 2. transitivity ((2 ⊗ zinv) ⊗ (V / 2) ⊕ zinv); [rewrite zinv_spec; ring | ring].
  - exists (V / 2). split_and!; [done | | done]. rewrite EV at 2. transitivity ((2 ⊗ zinv) ⊗ (V / 2)); [rewrite zinv_spec; ring | ring].
Qed.

Lemma mod_pow2_succ X n : X mod 2 ^ N.succ n = 2 ^ n ⊗ coefficient (N.testbit X n) ⊕ X mod 2 ^ n.
Proof.
  apply N.bits_inj. intros k. rewrite N.lxor_spec. destruct (N.lt_trichotomy k n) as [H|[->|H]].
  - rewrite !N.mod_pow2_bits_low by lia. rewrite pmul_pow2, N.mul_comm, N.mul_pow2_bits_low by done. by rewrite xorb_false_l.
  - rewrite N.mod_pow2_bits_low, N.mod_pow2_bits_high by lia. rewrite pmul_pow2, N.mul_comm, N.mul_pow2_bits_high, N.sub_diag by lia. by destruct (N.testbit X n).
  - rewrite !N.mod_pow2_bits_high by lia. rewrite pmul_pow2, N.mul_comm, N.mul_pow2_bits_high by lia.
    destruct (N.testbit X n); cbn [coefficient]; [rewrite N.bits_above_log2 by (cbn; lia) | rewrite N.bits_0]; done.
Qed.

Lemma gcm_mul_loop_N n X Y V :
  Y < 2 ^ 128 -> V < 2 ^ 128 ->
  exists W, gcm_mul_loop n (Z.of_N X) (Z.of_N Y) (Z.of_N V) = Z.of_N W /\ W < 2 ^ 128 /\
    W ≃ Y ⊕ V ⊗ 2 ⊗ zinvs n ⊗ (X mod 2 ^ N.of_nat n).
Proof.
  revert Y V. induction n as [|n IH]; intros Y V HY HV; cbn [gcm_mul_loop].
  - exists Y. split_and!; [done | done|]. rewrite N.mod_1_r. ring.
  - destruct (gcm_shift_N V) as (V' & -> & EV & HV'). rewrite <- nat_N_Z, N2Z.inj_testbit.
    set (b := N.testbit X (N.of_nat n)). set (Y' := Y ⊕ coefficient b ⊗ V).
    assert (EY : (if b then Z.lxor (Z.of_N Y) (Z.of_N V) else Z.of_N Y) = Z.of_N Y').
    { unfold Y'. destruct b; cbn [coefficient pmul pmul_pos]; [by rewrite N2Z.inj_lxor | by rewrite N.lxor_0_r]. }
    assert (HY' : Y' < 2 ^ 128).
    { unfold Y'. apply lxor_below; [done|]. destruct b; cbn [coefficient pmul pmul_pos]; done. }
    rewrite EY. destruct (IH Y' V' HY' (HV' HV)) as (W & -> & HW & EW). exists W. split_and!; [done | done|].
    rewrite EW, EV, Nat2N.inj_succ, mod_pow2_succ. fold b. unfold Y'. rewrite zinvs_S.
    set (c := coefficient b). set (x := X mod _). set (zn := 2 ^ N.of_nat n). set (wn := zinvs n). pose proof (zinvs_spec n : zn ⊗ wn ≃ 1) as Hn.
    transitivity (Y ⊕ V ⊗ (2 ⊗ zinv) ⊗ (zn ⊗ wn) ⊗ c ⊕ zinv ⊗ V ⊗ 2 ⊗ wn ⊗ x); [rewrite Hn, zinv_spec; ring | ring].
Qed.

(** The product of the standard divides by [z^127]. *)
Lemma gcm_mul_product X Y :
  X < 2 ^ 128 -> Y < 2 ^ 128 ->
  exists W, gcm_mul (Z.of_N X) (Z.of_N Y) = Z.of_N W /\ W < 2 ^ 128 /\ W ≃ X ⊗ (2 ⊗ Y) ⊗ zinvs 128.
Proof.
  intros HX HY. destruct (gcm_mul_loop_N 128 X 0 Y ltac:(done) HY) as (W & E & HW & EW). exists W. split_and!; [done | done|].
  rewrite EW, N.mod_small by done. ring.
Qed.
