(* ===== verification/Simd.v ===== *)
(** * Simd: memory and the vector instructions of x86

    The memory that the vector code of [src/lib/fusion.c] works on: a finite map from
    addresses to octets, in which the mapped addresses are whole pages.  A vector register
    ([__m128i]) is the list of its 16 octets, the least significant one first, so that a
    load is the octets of memory as they are.  The intrinsics are defined as Intel's
    manual describes them; the AES instructions are the layers of FIPS 197.  Main
    results: what each of them means for the number in the register ([reg_val]). *)
From stdpp Require Import gmap.
From S2P Require Import Prelude Limbs Bitops Aes Gf2.

(** ** Memory *)

Notation memory := (gmap Z Z).
Definition page_size : Z := 4096.

Fixpoint load (m : memory) (p : Z) (n : nat) : res bytes :=
  match n with
  | O => Ok []
  | S n =>
      match m !! p with
      | None => Stuck OutOfBounds
      | Some b => let! rest := load m (p + 1) n in Ok (b :: rest)
      end
  end.

Fixpoint store (m : memory) (p : Z) (bs : bytes) : res memory :=
  match bs with
  | [] => Ok m
  | b :: bs => match m !! p with None => Stuck OutOfBounds | Some _ => store (<[p := b]> m) (p + 1) bs end
  end.

(** ** Intrinsics *)

Notation m128 := bytes (only parsing).

Definition dword (v : m128) (i : nat) : bytes := take 4 (drop (4 * i) v).
Definition qword (v : m128) (i : nat) : Z := of_le (take 8 (drop (8 * i) v)).
Definition of_qwords (q0 q1 : Z) : m128 := le 8 q0 ++ le 8 q1.
Definition bit (imm : Z) (i : Z) : nat := if Z.testbit imm i then 1 else 0.

Definition _mm_setzero_si128 : m128 := replicate 16 0.
Definition _mm_loadu_si128 (m : memory) (p : Z) : res m128 := load m p 16.
Definition _mm_load_si128 (m : memory) (p : Z) : res m128 := if p mod 16 =? 0 then load m p 16 else Stuck OutOfBounds.
Definition _mm_storeu_si128 (m : memory) (p : Z) (v : m128) : res memory := store m p v.
Definition _mm_xor_si128 (a b : m128) : m128 := zip_with Z.lxor a b.
Definition _mm_and_si128 (a b : m128) : m128 := zip_with Z.land a b.
Definition _mm_or_si128 (a b : m128) : m128 := zip_with Z.lor a b.
Definition _mm_shuffle_epi8 (v pattern : m128) : m128 :=
  map (fun k => if 128 <=? k then 0 else v !!! Z.to_nat (Z.land k 15)) pattern.
Definition _mm_shuffle_epi32 (v : m128) (imm : Z) : m128 :=
  concat (map (fun i => dword v (Z.to_nat (Z.land (Z.shiftr imm (2 * i)) 3))) [0; 1; 2; 3]).
Definition _mm_slli_epi64 (v : m128) (n : Z) : m128 := of_qwords (u64 (Z.shiftl (qword v 0) n)) (u64 (Z.shiftl (qword v 1) n)).
Definition _mm_srli_epi64 (v : m128) (n : Z) : m128 := of_qwords (Z.shiftr (qword v 0) n) (Z.shiftr (qword v 1) n).
Definition _mm_slli_si128 (v : m128) (n : nat) : m128 := take 16 (replicate n 0 ++ v).
Definition _mm_srli_si128 (v : m128) (n : nat) : m128 := drop n v ++ replicate n 0.
Definition _mm_add_epi64 (a b : m128) : m128 := of_qwords (u64 (qword a 0 + qword b 0)) (u64 (qword a 1 + qword b 1)).
Definition signed32 (x : Z) : Z := if x <? 2 ^ 31 then x else x - 2 ^ 32.
Definition _mm_cmplt_epi32 (a b : m128) : m128 :=
  concat (map (fun i => replicate 4 (if signed32 (of_le (dword a i)) <? signed32 (of_le (dword b i)) then 0xff else 0)) (seq 0 4)).
Definition _mm_insert_epi32 (v : m128) (x : Z) (i : nat) : m128 := take (4 * i) v ++ le 4 x ++ drop (4 * i + 4) v.
Definition _mm_insert_epi64 (v : m128) (x : Z) (i : nat) : m128 := take (8 * i) v ++ le 8 x ++ drop (8 * i + 8) v.
Definition _mm_set_epi32 (e3 e2 e1 e0 : Z) : m128 := le 4 e0 ++ le 4 e1 ++ le 4 e2 ++ le 4 e3.
Definition _mm_cmpeq_epi8 (a b : m128) : m128 := zip_with (fun x y => if x =? y then 0xff else 0) a b.
Definition _mm_movemask_epi8 (v : m128) : Z := foldr (fun b acc => (if 128 <=? b then 1 else 0) + 2 * acc) 0 v.

(** PCLMULQDQ *)
Definition _mm_clmulepi64_si128 (a b : m128) (imm : Z) : m128 :=
  le 16 (Z.of_N (pmul (Z.to_N (qword a (bit imm 0))) (Z.to_N (qword b (bit imm 4))))).

(** AES-NI: the rows are shifted before the octets are substituted. *)
Definition _mm_aesenc_si128 (v k : m128) : m128 := AddRoundKey (MixColumns (SubBytes (ShiftRows v))) k.
Definition _mm_aesenclast_si128 (v k : m128) : m128 := AddRoundKey (SubBytes (ShiftRows v)) k.
Definition _mm_aeskeygenassist_si128 (v : m128) (rcon : Z) : m128 :=
  let x1 := map sbox (dword v 1) in
  let x3 := map sbox (dword v 3) in
  x1 ++ zip_with Z.lxor (RotWord x1) [rcon; 0; 0; 0] ++ x3 ++ zip_with Z.lxor (RotWord x3) [rcon; 0; 0; 0].

(** ** Facts about memory *)

(** The octets at [p]; the memory is mapped by pages. *)
Definition holds_at (m : memory) (p : Z) (bs : bytes) : Prop := forall i b, bs !! i = Some b -> m !! (p + Z.of_nat i) = Some b.
Definition mapped (m : memory) (p : Z) (n : nat) : Prop := forall i, (i < n)%nat -> is_Some (m !! (p + Z.of_nat i)).
Definition paged (m : memory) : Prop := forall a b, a / page_size = b / page_size -> is_Some (m !! a) -> is_Some (m !! b).
Definition octets (m : memory) : Prop := map_Forall (fun _ b => is_byte b) m.

Lemma addr_0 p : p + Z.of_nat 0 = p.
Proof. lia. Qed.
Lemma holds_nil m p : holds_at m p [].
Proof. by intros i b H. Qed.
Lemma holds_cons m p b bs : holds_at m p (b :: bs) <-> m !! p = Some b /\ holds_at m (p + 1) bs.
Proof.
  split.
  - intros H. split; [specialize (H 0%nat b eq_refl); by rewrite addr_0 in H|]. intros i c Hc. specialize (H (S i) c Hc). rewrite <- H. f_equal. lia.
  - intros [H0 H] [|i] c Hc; [injection Hc as <-; by rewrite addr_0|]. rewrite <- (H i c Hc). f_equal. lia.
Qed.
Lemma holds_at_app m p x y : holds_at m p (x ++ y) <-> holds_at m p x /\ holds_at m (p + Z.of_nat (length x)) y.
Proof.
  revert p. induction x as [|b x IH]; intros p; cbn [app length].
  - rewrite addr_0. split; [intros H; split; [apply holds_nil | done] | by intros [_ H]].
  - rewrite !holds_cons, IH. replace (p + 1 + Z.of_nat (length x)) with (p + Z.of_nat (S (length x))) by lia. tauto.
Qed.
Lemma holds_take m p n bs : holds_at m p bs -> holds_at m p (take n bs).
Proof. intros H. rewrite <- (take_drop n bs) in H. apply holds_at_app in H as [H _]. exact H. Qed.
Lemma holds_drop m p n bs : (n <= length bs)%nat -> holds_at m p bs -> holds_at m (p + Z.of_nat n) (drop n bs).
Proof. intros Hn H. rewrite <- (take_drop n bs) in H. apply holds_at_app in H as [_ H]. rewrite length_take, Nat.min_l in H by done. exact H. Qed.
Lemma holds_mapped m p bs : holds_at m p bs -> mapped m p (length bs).
Proof. intros H i Hi. destruct (lookup_lt_is_Some_2 bs i Hi) as [b Hb]. exists b. by apply H. Qed.
Lemma mapped_holds m p n : octets m -> mapped m p n -> exists bs, holds_at m p bs /\ length bs = n /\ is_bytes bs.
Proof.
  intros Ho. revert p. induction n as [|n IH]; intros p H; [exists []; split_and!; [apply holds_nil | done | constructor]|].
  destruct (H 0%nat ltac:(lia)) as [b Hb]. rewrite addr_0 in Hb.
  destruct (IH (p + 1)) as (bs & Hbs & Hl & Hby); [intros i Hi; destruct (H (S i) ltac:(lia)) as [c Hc]; exists c; rewrite <- Hc; f_equal; lia|].
  exists (b :: bs). split_and!; [by apply holds_cons | cbn; lia | constructor; [by apply (Ho p) | done]].
Qed.
Lemma mapped_sub m p n k l : mapped m p n -> (k + l <= n)%nat -> mapped m (p + Z.of_nat k) l.
Proof. intros H Hk i Hi. rewrite <- Z.add_assoc, <- Nat2Z.inj_add. apply H. lia. Qed.

Lemma mapped_weaken m p n k : mapped m p n -> (k <= n)%nat -> mapped m p k.
Proof. intros H Hk i Hi. apply H. lia. Qed.

Lemma load_ok m p bs n : holds_at m p bs -> length bs = n -> load m p n = Ok bs.
Proof.
  intros H <-. revert p H. induction bs as [|b bs IH]; intros p H; [done|]. apply holds_cons in H as [H0 H].
  cbn [length load]. by rewrite H0, (IH (p + 1) H).
Qed.

Lemma store_ok m p bs : mapped m p (length bs) -> exists m', store m p bs = Ok m' /\
  (forall a, m' !! a = if (p <=? a) && (a <? p + Z.of_nat (length bs)) then bs !! Z.to_nat (a - p) else m !! a).
Proof.
  revert m p. induction bs as [|b bs IH]; intros m p H; cbn [store length].
  - exists m. split; [done|]. intros a. rewrite addr_0. destruct (Z.leb_spec p a), (Z.ltb_spec a p); done || lia.
  - destruct (H 0%nat ltac:(cbn; lia)) as [c Hc]. rewrite addr_0 in Hc. rewrite Hc.
    destruct (IH (<[p := b]> m) (p + 1)) as (m' & -> & Hm').
    { intros i Hi. destruct (decide (p = p + 1 + Z.of_nat i)); [lia|]. rewrite lookup_insert_ne by done.
      destruct (H (S i) ltac:(cbn; lia)) as [d Hd]. exists d. rewrite <- Hd. f_equal. lia. }
    exists m'. split; [done|]. intros a. rewrite Hm'. destruct (decide (a = p)) as [->|Hne].
    + rewrite (proj2 (Z.leb_gt (p + 1) p)), (proj2 (Z.leb_le p p)), (proj2 (Z.ltb_lt p (p + Z.of_nat (S (length bs))))) by lia. cbn [andb]. rewrite lookup_insert_eq, Z.sub_diag. reflexivity.
    + rewrite lookup_insert_ne by done. replace (p + 1 + Z.of_nat (length bs)) with (p + Z.of_nat (S (length bs))) by lia.
      destruct (Z.leb_spec p a), (Z.leb_spec (p + 1) a); try lia; [|done]. cbn [andb]. destruct (_ <? _); [|done].
      by replace (Z.to_nat (a - p)) with (S (Z.to_nat (a - (p + 1)))) by lia.
Qed.

(** ** Registers *)

Definition reg_val (v : m128) : N := Z.to_N (of_le v).
Definition lo (v : m128) : N := Z.to_N (qword v 0).
Definition hi (v : m128) : N := Z.to_N (qword v 1).
Local Open Scope gf2_scope.

Lemma block_app a b : length a = 8%nat -> length b = 8%nat -> is_bytes a -> is_bytes b -> block (a ++ b).
Proof. intros Ha Hb Hya Hyb. split; [rewrite length_app; lia | by apply Forall_app_2]. Qed.
Lemma block_halves v : block v -> v = take 8 v ++ drop 8 v /\ length (take 8 v) = 8%nat /\ length (drop 8 v) = 8%nat /\ is_bytes (take 8 v) /\ is_bytes (drop 8 v).
Proof. intros [Hl Hb]. rewrite take_drop, length_take, length_drop. split_and!; [done | lia | lia | by apply Forall_take | by apply Forall_drop]. Qed.

Lemma lo_app a b : length a = 8%nat -> lo (a ++ b) = Z.to_N (of_le a).
Proof. intros Ha. unfold lo, qword. change (8 * 0)%nat with 0%nat. by rewrite drop_0, take_app_length' by lia. Qed.
Lemma hi_app a b : length a = 8%nat -> length b = 8%nat -> hi (a ++ b) = Z.to_N (of_le b).
Proof. intros Ha Hb. unfold hi, qword. change (8 * 1)%nat with 8%nat. rewrite drop_app_length' by lia. by rewrite take_ge by lia. Qed.

Lemma half_bound (b : bytes) : is_bytes b -> length b = 8%nat -> (Z.to_N (of_le b) < 2 ^ 64)%N.
Proof. intros Hb Hl. pose proof (of_le_range b Hb) as H. rewrite Hl in H. change (2 ^ (8 * Z.of_nat 8)) with (2 ^ 64) in H. lia. Qed.

Lemma reg_split v : block v -> reg_val v = 2 ^ 64 ⊗ hi v ⊕ lo v /\ (hi v < 2 ^ 64)%N /\ (lo v < 2 ^ 64)%N.
Proof.
  intros Hv. destruct (block_halves v Hv) as (E & H1 & H2 & B1 & B2). rewrite E. rewrite lo_app, hi_app by done.
  pose proof (half_bound _ B1 H1). pose proof (half_bound _ B2 H2). split_and!; [|done..]. rewrite <- glue by done.
  unfold reg_val. rewrite of_le_app, H1. change (2 ^ (8 * Z.of_nat 8)) with (2 ^ 64). pose proof (of_le_range _ B1). pose proof (of_le_range _ B2). lia.
Qed.

Lemma reg_bound v : block v -> (reg_val v < 2 ^ 128)%N.
Proof. intros [Hl Hb]. pose proof (of_le_range v Hb) as H. rewrite Hl in H. change (2 ^ (8 * Z.of_nat 16)) with (2 ^ 128) in H. unfold reg_val. lia. Qed.

Lemma reg_inj v w : block v -> block w -> reg_val v = reg_val w -> v = w.
Proof.
  intros [Hlv Hv] [Hlw Hw] E. rewrite <- (le_of_le v), <- (le_of_le w), Hlv, Hlw by done. f_equal.
  pose proof (of_le_range v Hv). pose proof (of_le_range w Hw). unfold reg_val in E. lia.
Qed.

(** Bitwise operations on octets and on the number they make. *)
Lemma of_le_bitwise (op : Z -> Z -> Z) (bop : bool -> bool -> bool) a b :
  (forall x y n, Z.testbit (op x y) n = bop (Z.testbit x n) (Z.testbit y n)) -> (forall x y, is_byte x -> is_byte y -> is_byte (op x y)) -> op 0 0 = 0 ->
  is_bytes a -> is_bytes b -> length a = length b -> of_le (zip_with op a b) = op (of_le a) (of_le b).
Proof.
  intros Hop Hbyte H0 Ha. revert b. induction Ha as [|x a Hx Ha IH]; intros b Hb Hl; destruct b as [|y b]; try done.
  apply Forall_cons_1 in Hb as [Hy Hb]. cbn [zip_with of_le]. injection Hl as Hl. rewrite IH by done.
  assert (E : forall c B, is_byte c -> c + 2 ^ 8 * B = shift_in 8 B c) by (intros c B Hc; unfold shift_in, is_byte in *; rewrite lor_shiftl_add by lia; lia).
  rewrite !E by auto. apply Z.bits_inj'. intros n Hn. rewrite Hop. unfold is_byte in *. pose proof (Hbyte x y Hx Hy) as Hxy. unfold is_byte in Hxy.
  rewrite !shift_in_testbit by lia. destruct (_ <? _); by rewrite Hop.
Qed.

Lemma xor_block a b : block a -> block b -> block (_mm_xor_si128 a b).
Proof. apply AddRoundKey_block. Qed.
Lemma halves_zip (op : Z -> Z -> Z) (a b : m128) n : take n (zip_with op a b) = zip_with op (take n a) (take n b) /\ drop n (zip_with op a b) = zip_with op (drop n a) (drop n b).
Proof.
  revert a b. induction n as [|n IH]; intros [|x a] [|y b]; try done; cbn [zip_with take drop]; rewrite ?take_0; try done.
  - split; [done|]. by destruct (drop n a).
  - destruct (IH a b) as [-> ->]. done.
Qed.

Lemma lxor_N x y : 0 <= x -> 0 <= y -> Z.to_N (Z.lxor x y) = Z.to_N x ⊕ Z.to_N y.
Proof. intros. rewrite <- (Z2N.id x), <- (Z2N.id y), <- N2Z.inj_lxor, !N2Z.id by done. by rewrite ?N2Z.id. Qed.

Lemma lohi_xor a b : block a -> block b -> lo (_mm_xor_si128 a b) = lo a ⊕ lo b /\ hi (_mm_xor_si128 a b) = hi a ⊕ hi b.
Proof.
  intros Ha Hb. destruct (block_halves a Ha) as (_ & H1 & H2 & B1 & B2). destruct (block_halves b Hb) as (_ & K1 & K2 & C1 & C2).
  unfold lo, hi, qword, _mm_xor_si128. change (8 * 0)%nat with 0%nat. change (8 * 1)%nat with 8%nat. rewrite !drop_0.
  destruct (halves_zip Z.lxor a b 8) as [-> ->]. rewrite !(take_ge (drop 8 _)), (take_ge (zip_with _ _ _)) by (rewrite ?length_zip_with; lia).
  rewrite !(of_le_bitwise Z.lxor xorb) by (apply Z.lxor_spec || apply lxor_byte || done || congruence).
  split; apply lxor_N; apply of_le_range; done.
Qed.

Lemma reg_xor a b : block a -> block b -> reg_val (_mm_xor_si128 a b) = reg_val a ⊕ reg_val b.
Proof.
  intros Ha Hb. unfold reg_val, _mm_xor_si128. rewrite (of_le_bitwise Z.lxor xorb) by (apply Z.lxor_spec || apply lxor_byte || apply Ha || apply Hb || done || (destruct Ha, Hb; congruence)).
  apply lxor_N; apply of_le_range; [apply Ha | apply Hb].
Qed.

Lemma le16_block v : block (le 16 v).
Proof. split; [apply length_le | apply le_bytes]. Qed.

Lemma clmul_spec a b imm :
  block a -> block b -> block (_mm_clmulepi64_si128 a b imm) /\
  reg_val (_mm_clmulepi64_si128 a b imm) = (if Z.testbit imm 0 then hi a else lo a) ⊗ (if Z.testbit imm 4 then hi b else lo b).
Proof.
  intros Ha Hb. split; [apply le16_block|]. unfold _mm_clmulepi64_si128, reg_val. rewrite of_le_le. change (2 ^ (8 * Z.of_nat 16)) with (2 ^ 128).
  unfold bit. destruct (reg_split a Ha) as (_ & Ha1 & Ha0). destruct (reg_split b Hb) as (_ & Hb1 & Hb0). unfold hi, lo in *.
  assert (H : forall x y, (x < 2 ^ 64)%N -> (y < 2 ^ 64)%N -> Z.to_N (Z.of_N (x ⊗ y) mod 2 ^ 128) = x ⊗ y).
  { intros x y Hx Hy. pose proof (pmul_below x y 64 64 ltac:(done) ltac:(done) Hx Hy) as H. change (64 + 64 - 1)%N with 127%N in H. rewrite Z.mod_small by lia. apply N2Z.id. }
  destruct (Z.testbit imm 0), (Z.testbit imm 4); by apply H.
Qed.

Lemma swap_spec v : block v -> block (_mm_shuffle_epi32 v 78) /\ lo (_mm_shuffle_epi32 v 78) = hi v /\ hi (_mm_shuffle_epi32 v 78) = lo v.
Proof.
  intros Hv. assert (E : _mm_shuffle_epi32 v 78 = drop 8 v ++ take 8 v) by (destruct Hv as [Hl _]; do 17 (destruct v as [|? v]; try discriminate); reflexivity).
  destruct (block_halves v Hv) as (_ & H1 & H2 & B1 & B2). rewrite E. rewrite lo_app, hi_app by done. split; [by apply block_app|].
  unfold lo, hi, qword. change (8 * 0)%nat with 0%nat. change (8 * 1)%nat with 8%nat. by rewrite drop_0, (take_ge (drop 8 v)) by lia.
Qed.

Lemma slli_spec v : block v -> block (_mm_slli_si128 v 8) /\ lo (_mm_slli_si128 v 8) = 0%N /\ hi (_mm_slli_si128 v 8) = lo v.
Proof.
  intros Hv. destruct (block_halves v Hv) as (_ & H1 & H2 & B1 & B2).
  assert (E : _mm_slli_si128 v 8 = replicate 8 0 ++ take 8 v) by (unfold _mm_slli_si128; rewrite take_app_ge, length_replicate by (rewrite length_replicate; lia); done).
  rewrite E, lo_app, hi_app by (rewrite ?length_replicate; done). split_and!; [|done|].
  - apply block_app; rewrite ?length_replicate; try done. by apply Forall_replicate.
  - unfold lo, qword. change (8 * 0)%nat with 0%nat. by rewrite drop_0.
Qed.
Lemma srli_spec v : block v -> block (_mm_srli_si128 v 8) /\ lo (_mm_srli_si128 v 8) = hi v /\ hi (_mm_srli_si128 v 8) = 0%N.
Proof.
  intros Hv. destruct (block_halves v Hv) as (_ & H1 & H2 & B1 & B2). unfold _mm_srli_si128. rewrite lo_app, hi_app by (rewrite ?length_replicate; done). split_and!; [| |done].
  - apply block_app; rewrite ?length_replicate; try done. by apply Forall_replicate.
  - unfold hi, qword. change (8 * 1)%nat with 8%nat. by rewrite (take_ge (drop 8 v)) by lia.
Qed.

(** Reversing the octets exchanges the two byte orders. *)
Lemma of_le_rev l : is_bytes l -> of_le (rev l) = of_be l.
Proof.
  induction 1 as [|b l Hb Hl IH]; [done|]. cbn [rev]. rewrite of_le_app, IH, length_rev, of_be_cons by done. cbn [of_le]. lia.
Qed.
Lemma rev_block v : block v -> block (rev v).
Proof. intros [Hl Hb]. split; [by rewrite length_rev | by apply Forall_rev]. Qed.

(** ** What a store changes *)

Definition apart (p n q k : Z) : Prop := p + n <= q \/ q + k <= p.

Record stored (m : memory) (p : Z) (bs : bytes) (m' : memory) : Prop := {
  stored_here : holds_at m' p bs;
  stored_else : forall a, a < p \/ p + Z.of_nat (length bs) <= a -> m' !! a = m !! a;
  stored_mapped : forall a, is_Some (m' !! a) <-> is_Some (m !! a);
  stored_octets : octets m -> is_bytes bs -> octets m'
}.

Lemma store_spec m p bs : mapped m p (length bs) -> exists m', store m p bs = Ok m' /\ stored m p bs m'.
Proof.
  intros Hm. destruct (store_ok m p bs Hm) as (m' & E & Hm'). exists m'. split; [done|]. constructor.
  - intros i b Hb. pose proof (lookup_lt_Some _ _ _ Hb). rewrite Hm', (proj2 (Z.leb_le _ _)), (proj2 (Z.ltb_lt _ _)) by lia. cbn [andb]. rewrite <- Hb. f_equal. lia.
  - intros a Ha. rewrite Hm'. destruct (Z.leb_spec p a), (Z.ltb_spec a (p + Z.of_nat (length bs))); done || lia.
  - intros a. rewrite Hm'. destruct (Z.leb_spec p a), (Z.ltb_spec a (p + Z.of_nat (length bs))); cbn [andb]; try done.
    split; intros _; [|apply lookup_lt_is_Some_2; lia]. replace a with (p + Z.of_nat (Z.to_nat (a - p))) by lia. apply Hm. lia.
  - intros Ho Hb a b Ha. rewrite Hm' in Ha. destruct ((p <=? a) && (a <? p + Z.of_nat (length bs))); [by apply (Forall_lookup_1 _ _ _ _ Hb Ha) | by apply (Ho a)].
Qed.

Lemma stored_holds m p bs m' q xs :
  stored m p bs m' -> apart q (Z.of_nat (length xs)) p (Z.of_nat (length bs)) -> holds_at m q xs -> holds_at m' q xs.
Proof. intros Hs Ha Hq i b Hb. pose proof (lookup_lt_Some _ _ _ Hb). rewrite (stored_else _ _ _ _ Hs); [by apply Hq|]. unfold apart in Ha. lia. Qed.
Lemma stored_maps m p bs m' q n : stored m p bs m' -> mapped m q n -> mapped m' q n.
Proof. intros Hs Hq i Hi. apply (stored_mapped _ _ _ _ Hs). by apply Hq. Qed.
Lemma stored_paged m p bs m' : stored m p bs m' -> paged m -> paged m'.
Proof. intros Hs Hp a b Hab Ha. apply (stored_mapped _ _ _ _ Hs). apply (Hp a b Hab). by apply (stored_mapped _ _ _ _ Hs). Qed.
