(* ===== verification/FusionLoad.v ===== *)
(** * FusionLoad: reading and writing incomplete blocks

    [loadn] and [storen] of [src/lib/fusion.c], and the loop that gathers blocks for
    GHASH.  [loadn] reads 16 octets although only [l] of them belong to the object, in a
    way that never touches a page it does not know to be mapped.  Main results: [loadn]
    does not fault and returns the [l] octets padded with zeros ([loadn_spec]); the
    gathering loop delivers the padded blocks in order ([fill_spec]). *)
From stdpp Require Import gmap.
From S2P Require Import Prelude Limbs Bitops Blockwise Aes Gcm Gf2 Simd.

(** ** fusion.c *)

Definition loadn_mask : bytes := replicate 16 0xff ++ replicate 15 0.
Definition loadn_shuffle : bytes := map Z.of_nat (seq 0 16) ++ replicate 15 0x80.

Definition loadn (m : memory) (p : Z) (l : nat) : res m128 :=
  let! mask := if (l <=? 16)%nat then copy_from loadn_mask (16 - l) 16 else Stuck OutOfBounds in
  let mod4k := p mod 4096 in
  let! v :=
    if (mod4k <=? 4080) || (4096 <? mod4k + Z.of_nat l) then _mm_loadu_si128 m p
    else
      let shift := Z.land p 15 in
      let! pattern := copy_from loadn_shuffle (Z.to_nat shift) 16 in
      let! a := _mm_load_si128 m (p - shift) in
      Ok (_mm_shuffle_epi8 a pattern) in
  Ok (_mm_and_si128 v mask).

Definition storen (m : memory) (p : Z) (l : nat) (v : m128) : res memory := store m p (take l v).

(** The loops that fill [gdatabuf]: [n] places are left; the result tells whether fewer
    than 16 octets were left, and has the new cursor, length and contents. *)
Fixpoint fill (n : nat) (m : memory) (p : Z) (len : nat) (buf : list m128) : res (bool * Z * nat * list m128) :=
  match n with
  | O => Ok (false, p, len, buf)
  | S n =>
      if (len <? 16)%nat then
        if negb (len =? 0)%nat then let! v := loadn m p len in Ok (true, p, 0%nat, buf ++ [v]) else Ok (true, p, len, buf)
      else
        let! v := _mm_loadu_si128 m p in
        fill n m (p + 16) (len - 16) (buf ++ [v])
  end.

(** ** [loadn] *)

Lemma mask_at l : (1 <= l <= 16)%nat -> copy_from loadn_mask (16 - l) 16 = Ok (replicate l 0xff ++ replicate (16 - l) 0).
Proof. intros Hl. do 17 (destruct l as [|l]; [lia || reflexivity|]). lia. Qed.

Lemma and_mask v l : is_bytes v -> (l <= length v)%nat -> zip_with Z.land v (replicate l 0xff ++ replicate (length v - l) 0) = take l v ++ replicate (length v - l) 0.
Proof.
  intros Hv. revert l. induction Hv as [|b v Hb Hv IH]; intros l Hl; [by destruct l|]. destruct l as [|l]; cbn [replicate length Nat.sub app zip_with take].
  - rewrite Z.land_0_r. f_equal. specialize (IH 0%nat ltac:(lia)). by rewrite Nat.sub_0_r in IH.
  - rewrite land_ff, (u8_id b) by done. f_equal. apply IH. cbn in Hl. lia.
Qed.

Lemma shuffle_at shift v :
  (shift <= 15)%nat -> length v = 16%nat ->
  exists pattern, copy_from loadn_shuffle shift 16 = Ok pattern /\ _mm_shuffle_epi8 v pattern = drop shift v ++ replicate shift 0.
Proof.
  intros Hs Hl. do 17 (destruct v as [|? v]; try discriminate). do 16 (destruct shift as [|shift]; [eexists; split; reflexivity|]). lia.
Qed.

Lemma holds_eq m p x y : holds_at m p x -> holds_at m p y -> length x = length y -> x = y.
Proof.
  intros Hx Hy Hl. apply list_eq. intros i. destruct (x !! i) as [b|] eqn:Ex.
  - destruct (y !! i) as [c|] eqn:Ey; [|apply lookup_ge_None in Ey; apply lookup_lt_Some in Ex; lia].
    pose proof (Hx i b Ex) as H. rewrite (Hy i c Ey) in H. by injection H as ->.
  - apply lookup_ge_None in Ex. symmetry. apply lookup_ge_None. lia.
Qed.

(** The 16 octets at [p], of which the first ones are known. *)
Lemma load_around m p bs :
  octets m -> mapped m p 16 -> holds_at m p bs -> (length bs <= 16)%nat -> exists v, load m p 16 = Ok v /\ block v /\ take (length bs) v = bs.
Proof.
  intros Ho Hm Hbs Hl. destruct (mapped_holds m p 16 Ho Hm) as (v & Hv & Lv & Bv). exists v. split_and!; [by apply load_ok | done|].
  apply (holds_eq m p); [by apply holds_take | done | rewrite length_take; lia].
Qed.

(** Every octet of a page with a mapped octet is mapped. *)
Lemma page_mapped m p n a : paged m -> is_Some (m !! a) -> (forall i, (i < n)%nat -> (p + Z.of_nat i) / page_size = a / page_size) -> mapped m p n.
Proof. intros Hp Ha Hq i Hi. apply (Hp a); [by rewrite Hq | done]. Qed.

Lemma loadn_spec m p bs :
  paged m -> octets m -> holds_at m p bs -> (1 <= length bs <= 16)%nat -> loadn m p (length bs) = Ok (bs ++ replicate (16 - length bs) 0).
Proof.
  intros Hp Ho Hbs Hl. unfold loadn. set (l := length bs) in *. rewrite (proj2 (Nat.leb_le _ _)), mask_at by lia. cbn [res_bind].
  assert (Hfirst : is_Some (m !! p)) by (rewrite <- (addr_0 p); apply (holds_mapped m p bs Hbs); lia).
  assert (Hgo : forall v, block v -> take l v = bs -> _mm_and_si128 v (replicate l 255 ++ replicate (16 - l) 0) = bs ++ replicate (16 - l) 0).
  { intros v [Lv Bv] E. pose proof (and_mask v l Bv ltac:(lia)) as H. rewrite E, Lv in H. exact H. }
  destruct ((p mod 4096 <=? 4080) || (4096 <? p mod 4096 + Z.of_nat l)) eqn:Ec.
  - assert (Hm : mapped m p 16).
    { apply orb_true_iff in Ec as [Ec | Ec]; b2p.
      - apply (page_mapped m p 16 p Hp Hfirst). intros i Hi. unfold page_size. modlia.
      - assert (Hlast : is_Some (m !! (p + Z.of_nat (l - 1)))) by (apply (holds_mapped m p bs Hbs); lia).
        intros i Hi. destruct (decide ((p + Z.of_nat i) / page_size = p / page_size)) as [E|E]; [by apply (Hp p)|].
        apply (Hp (p + Z.of_nat (l - 1))); [|done]. unfold page_size in *. modlia. }
    destruct (load_around m p bs Ho Hm Hbs ltac:(lia)) as (v & E & Bv & Et). unfold _mm_loadu_si128. rewrite E. cbn [res_bind]. by rewrite Hgo.
  - b2p. change 15 with (Z.ones 4). rewrite Z.land_ones by lia. change (2 ^ 4) with 16. set (shift := p mod 16).
    assert (Hs : 0 <= shift <= 15) by (unfold shift; modlia). assert (Hmod : p mod 4096 = 4080 + shift) by (unfold shift; modlia).
    assert (Hm : mapped m (p - shift) 16) by (apply (page_mapped m (p - shift) 16 p Hp Hfirst); intros i Hi; unfold page_size; modlia).
    destruct (mapped_holds m (p - shift) 16 Ho Hm) as (a & Ha & La & Ba).
    destruct (shuffle_at (Z.to_nat shift) a ltac:(lia) La) as (pattern & -> & Es). cbn [res_bind]. unfold _mm_load_si128.
    assert (((p - shift) mod 16 =? 0) = true) as -> by (apply Z.eqb_eq; unfold shift; modlia). rewrite (load_ok m _ a) by done. cbn [res_bind]. rewrite Es.
    rewrite Hgo; [done | |].
    + split; [rewrite length_app, length_drop, length_replicate; lia | apply Forall_app_2; [by apply Forall_drop | by apply Forall_replicate]].
    + rewrite take_app_le by (rewrite length_drop; lia). apply (holds_eq m p); [| done | rewrite length_take, length_drop; lia].
      apply holds_take. replace p with (p - shift + Z.of_nat (Z.to_nat shift)) at 1 by lia. apply holds_drop; [lia | done].
Qed.

(** ** Blocks padded with zeros *)

Definition pblocks (x : bytes) : list bytes := blocks_of 16 ((length x + 15) / 16) (x ++ gcm_pad x).

Lemma pblocks_nil : pblocks [] = [].
Proof. done. Qed.

Lemma pblocks_full x : (16 <= length x)%nat -> pblocks x = take 16 x :: pblocks (drop 16 x).
Proof.
  intros Hx. unfold pblocks. rewrite length_drop. assert (Hl : ((length x + 15) / 16 = S ((length x - 16 + 15) / 16))%nat).
  { replace (length x + 15)%nat with (length x - 16 + 15 + 1 * 16)%nat by lia. rewrite Nat.div_add by lia. lia. }
  rewrite Hl. cbn [blocks_of]. rewrite take_app_le, drop_app_le by lia. do 3 f_equal. unfold gcm_pad. rewrite length_drop. do 3 f_equal.
  replace (length x) with (length x - 16 + 1 * 16)%nat at 1 by lia. by rewrite Nat.Div0.mod_add.
Qed.

Lemma pblocks_split n x : (16 * n <= length x)%nat -> pblocks x = blocks_of 16 n x ++ pblocks (drop (16 * n) x).
Proof.
  revert x. induction n as [|n IH]; intros x Hx; [by rewrite drop_0|]. rewrite pblocks_full by lia. cbn [blocks_of app]. rewrite IH by (rewrite length_drop; lia).
  rewrite drop_drop. do 4 f_equal. lia.
Qed.

Lemma pblocks_part x : (1 <= length x <= 16)%nat -> pblocks x = [x ++ replicate (16 - length x) 0].
Proof.
  intros Hx. destruct (decide (length x = 16%nat)) as [E|E].
  - rewrite pblocks_full, take_ge, drop_ge, pblocks_nil by lia. by rewrite E, app_nil_r.
  - unfold pblocks. assert (((length x + 15) / 16 = 1)%nat) as -> by (symmetry; apply (Nat.div_unique _ _ _ (length x - 1)); lia). cbn [blocks_of].
    unfold gcm_pad. rewrite (Nat.mod_small (length x)), Nat.mod_small by lia. by rewrite take_ge by (rewrite length_app, length_replicate; lia).
Qed.

Lemma length_pblocks x : length (pblocks x) = ((length x + 15) / 16)%nat.
Proof. apply length_blocks_of. Qed.

Lemma pblocks_block x : is_bytes x -> Forall block (pblocks x).
Proof.
  remember (length x) as n eqn:En. revert x En. induction n as [n IH] using lt_wf_ind. intros x -> Hx.
  destruct (decide (length x = 0)%nat) as [E|E]; [destruct x; [constructor | done]|]. destruct (decide (16 <= length x)%nat).
  - rewrite pblocks_full by done. constructor; [split; [rewrite length_take; lia | by apply Forall_take]|].
    apply (IH (length (drop 16 x))); [rewrite length_drop; lia | done | by apply Forall_drop].
  - rewrite pblocks_part by lia. constructor; [|constructor]. split; [rewrite length_app, length_replicate; lia | apply Forall_app_2; [done | by apply Forall_replicate]].
Qed.

(** ** The gathering loop *)

Lemma holds_prefix m p k x : holds_at m p x -> (k <= length x)%nat -> holds_at m p (take k x) /\ holds_at m (p + Z.of_nat k) (drop k x).
Proof. intros H Hk. split; [by apply holds_take | by apply holds_drop]. Qed.

Lemma fill_spec n m p x buf :
  paged m -> octets m -> is_bytes x -> holds_at m p (take (16 * n) x) ->
  exists stopped p' k taken, fill n m p (length x) buf = Ok (stopped, p', (length x - k)%nat, buf ++ taken) /\
    pblocks x = taken ++ pblocks (drop k x) /\ (k <= length x)%nat /\ (k <= 16 * n)%nat /\ p <= p' <= p + Z.of_nat k /\ (length taken <= n)%nat /\
    (if stopped then (k = length x /\ length x < 16 * n)%nat else k = (16 * n)%nat /\ length taken = n /\ p' = p + Z.of_nat k) /\
    length taken = ((k + 15) / 16)%nat.
Proof.
  intros Hp Ho. revert p x buf. induction n as [|n IH]; intros p x buf Hx Hh; cbn [fill].
  - exists false, p, 0%nat, []. rewrite Nat.sub_0_r, app_nil_r, drop_0. cbn [length]. split_and!; done || lia.
  - destruct (Nat.ltb_spec (length x) 16) as [Hlt|Hge].
    + destruct (Nat.eqb_spec (length x) 0) as [E|E]; cbn [negb].
      * exists true, p, 0%nat, []. rewrite Nat.sub_0_r, app_nil_r, drop_0. cbn [length]. split_and!; done || lia.
      * rewrite take_ge in Hh by lia. rewrite loadn_spec by (done || lia). cbn [res_bind]. exists true, p, (length x), [x ++ replicate (16 - length x) 0].
        rewrite Nat.sub_diag, drop_all, pblocks_nil, app_nil_r, pblocks_part by lia.
        split_and!; try done; try lia; [cbn; lia|]. cbn [length]. apply (Nat.div_unique _ _ _ (length x - 1)); lia.
    + unfold _mm_loadu_si128. assert (H16 : holds_at m p (take 16 x)).
      { replace (take 16 x) with (take 16 (take (16 * S n) x)) by (rewrite take_take; f_equal; lia). by apply holds_take. }
      rewrite (load_ok m p (take 16 x)) by (done || (rewrite length_take; lia)). cbn [res_bind].
      destruct (IH (p + 16) (drop 16 x) (buf ++ [take 16 x])) as (stopped & p' & k & taken & E & Hb & Hk & Hkn & Hpp & Ht & Hst & Hlt); [by apply Forall_drop| |].
      { replace (take (16 * n) (drop 16 x)) with (drop 16 (take (16 * S n) x)).
        - change (p + 16) with (p + Z.of_nat 16). apply holds_drop; [rewrite length_take; lia | done].
        - rewrite (take_drop_commute x (16 * n) 16). do 2 f_equal. lia. }
      rewrite length_drop in *. rewrite E. exists stopped, p', (16 + k)%nat, (take 16 x :: taken).
      rewrite <- app_assoc. cbn [app]. rewrite pblocks_full, Hb, drop_drop by done. cbn [length].
      replace (length x - 16 - k)%nat with (length x - (16 + k))%nat by lia.
      split_and!; try done; try lia.
      * destruct stopped; [lia|]. destruct Hst as (? & ? & ?). split_and!; lia.
      * rewrite Hlt. replace (16 + k + 15)%nat with (k + 15 + 1 * 16)%nat by lia. rewrite Nat.div_add by lia. lia.
Qed.

(** From octet [a] of an object on *)
Lemma gather_spec n m p x a base buf :
  paged m -> octets m -> is_bytes x -> (a <= length x)%nat -> ((a < length x)%nat -> p = base + Z.of_nat a) -> holds_at m (base + Z.of_nat a) (take (16 * n) (drop a x)) ->
  exists stopped p' k taken, fill n m p (length x - a) buf = Ok (stopped, p', (length x - (a + k))%nat, buf ++ taken) /\ pblocks (drop a x) = taken ++ pblocks (drop (a + k) x) /\
    (a + k <= length x)%nat /\ (k <= 16 * n)%nat /\ p <= p' <= p + Z.of_nat k /\ (length taken <= n)%nat /\ length taken = ((k + 15) / 16)%nat /\
    (if stopped then (a + k)%nat = length x else length taken = n /\ k = (16 * n)%nat /\ p' = p + Z.of_nat k).
Proof.
  intros Hp Ho Hx Ha Hptr Hrd. assert (Hrd' : holds_at m p (take (16 * n) (drop a x))).
  { destruct (decide (a < length x)%nat) as [Hlt|]; [by rewrite Hptr | rewrite drop_ge, take_nil by lia; apply holds_nil]. }
  destruct (fill_spec n m p (drop a x) buf Hp Ho) as (stopped & p' & k & taken & Ef & Hpb & Hk & Hkn & Hp' & Ht & Hst & Htl); [by apply Forall_drop | exact Hrd'|].
  rewrite length_drop in *. exists stopped, p', k, taken. rewrite drop_drop in Hpb. replace (length x - (a + k))%nat with (length x - a - k)%nat by lia.
  split_and!; try done; try lia. destruct stopped; [lia|]. destruct Hst as (? & ? & ?). done.
Qed.

Lemma few_blocks k n : ((k + 15) / 16 < n)%nat -> (k <= 16 * (n - 1))%nat.
Proof. intros H. pose proof (Nat.div_mod (k + 15) 16 ltac:(lia)). pose proof (Nat.mod_upper_bound (k + 15) 16 ltac:(lia)). lia. Qed.
