(* ===== verification/FusionAes.v ===== *)
(** * FusionAes: AES of the fusion engine

    [expand_key], [ptls_fusion_aesecb_init], [aesecb_encrypt] and
    [ptls_fusion_aesecb_encrypt] of [src/lib/fusion.c]: the key schedule computed four
    words at a time with AESKEYGENASSIST, and a block encrypted with the AES
    instructions.  Main results: the round keys are those of FIPS 197 for keys of 128 and
    256 bits ([fusion_init_spec]) and the block is the one of the standard
    ([aes_block_spec]). *)
From stdpp Require Import gmap.
From S2P Require Import Prelude Limbs Bitops Blockwise Aes Gcm Gf2 Simd.

(** ** fusion.c *)

Definition PTLS_FUSION_AES128_ROUNDS : nat := 10.
Definition PTLS_FUSION_AES256_ROUNDS : nat := 14.

(** The round keys that have been written, from [keys[0]] on. *)
Record ptls_fusion_aesecb_context_t := mk_ecb { ecb_keys : list m128; ecb_rounds : nat }.
Definition get_key (keys : list m128) (i : nat) : res m128 := match keys !! i with Some k => Ok k | None => Stuck Uninitialized end.
Definition put_key (keys : list m128) (i : nat) (k : m128) : res (list m128) :=
  if (i =? length keys)%nat && (i <? PTLS_FUSION_AES256_ROUNDS + 1)%nat then Ok (keys ++ [k]) else Stuck OutOfBounds.

Definition expand_key (key temp : m128) : m128 :=
  let key := _mm_xor_si128 key (_mm_slli_si128 key 4) in
  let key := _mm_xor_si128 key (_mm_slli_si128 key 4) in
  let key := _mm_xor_si128 key (_mm_slli_si128 key 4) in
  _mm_xor_si128 key temp.

Definition _MM_SHUFFLE (z y x w : Z) : Z := Z.lor (Z.lor (Z.shiftl z 6) (Z.shiftl y 4)) (Z.lor (Z.shiftl x 2) w).

(** [EXPAND(R)] for each [R]; the result is [i] and the keys at [Done]. *)
Fixpoint expand_all (rcons : list Z) (key_size rounds i : nat) (keys : list m128) : res (nat * list m128) :=
  match rcons with
  | [] => Ok (i, keys)
  | R :: rcons =>
      let! old := get_key keys (i - key_size / 16) in
      let! last := get_key keys (i - 1) in
      let! keys := put_key keys i (expand_key old (_mm_shuffle_epi32 (_mm_aeskeygenassist_si128 last R) (_MM_SHUFFLE 3 3 3 3))) in
      if (i =? rounds)%nat then Ok (i, keys)
      else
        let i := S i in
        if (24 <? key_size)%nat then
          let! old := get_key keys (i - key_size / 16) in
          let! last := get_key keys (i - 1) in
          let! keys := put_key keys i (expand_key old (_mm_shuffle_epi32 (_mm_aeskeygenassist_si128 last R) (_MM_SHUFFLE 2 2 2 2))) in
          expand_all rcons key_size rounds (S i) keys
        else expand_all rcons key_size rounds i keys
  end.

Definition fusion_rcons : list Z := [0x1; 0x2; 0x4; 0x8; 0x10; 0x20; 0x40; 0x80; 0x1b; 0x36].

Definition ptls_fusion_aesecb_init (is_enc : bool) (key : bytes) (key_size : nat) : res ptls_fusion_aesecb_context_t :=
  let! _ := c_assert is_enc in
  let! rounds :=
    if (key_size =? 16)%nat then Ok PTLS_FUSION_AES128_ROUNDS
    else if (key_size =? 32)%nat then Ok PTLS_FUSION_AES256_ROUNDS
    else Stuck AssertFail in
  let! k0 := copy_from key 0 16 in
  let! keys := put_key [] 0 k0 in
  let! keys := if (key_size =? 32)%nat then let! k1 := copy_from key 16 16 in put_key keys 1 k1 else Ok keys in
  let! '(i, keys) := expand_all fusion_rcons key_size rounds (length keys) keys in
  let! _ := c_assert (i =? rounds)%nat in
  Ok (mk_ecb keys rounds).

(** [for (i = i0; i < ctx->rounds; ++i)], [n] rounds *)
Fixpoint aesenc_rounds (keys : list m128) (n i : nat) (v : m128) : res m128 :=
  match n with
  | O => Ok v
  | S n => let! k := get_key keys i in aesenc_rounds keys n (S i) (_mm_aesenc_si128 v k)
  end.
Definition aesecb_encrypt (ctx : ptls_fusion_aesecb_context_t) (v : m128) : res m128 :=
  let! k := get_key (ecb_keys ctx) 0 in
  let! v := aesenc_rounds (ecb_keys ctx) (ecb_rounds ctx - 1) 1 (_mm_xor_si128 v k) in
  let! k := get_key (ecb_keys ctx) (Nat.max 1 (ecb_rounds ctx)) in
  Ok (_mm_aesenclast_si128 v k).

Definition ptls_fusion_aesecb_encrypt (ctx : ptls_fusion_aesecb_context_t) (m : memory) (dst src : Z) : res memory :=
  let! v := _mm_loadu_si128 m src in
  let! v := aesecb_encrypt ctx v in
  _mm_storeu_si128 m dst v.

(** ** Four words of the schedule *)

(** The word added to the first of them. *)
Definition fips_temp (nk n : nat) (y : bytes) : bytes :=
  if (n mod nk =? 0)%nat then zip_with Z.lxor (map sbox (RotWord y)) (fips_rcon (n / nk))
  else if (6 <? nk)%nat && (n mod nk =? 4)%nat then map sbox y
  else y.

Lemma expand_step_at nk w n x y :
  length w = S n -> (S n >= nk)%nat -> w !! (S n - nk)%nat = Some x -> w !! n = Some y ->
  expand_step nk w = w ++ [zip_with Z.lxor x (fips_temp nk (S n) y)].
Proof.
  intros Hl Hn Hx Hy. unfold expand_step. rewrite Hl. replace (S n - 1)%nat with n by lia.
  by rewrite (list_lookup_total_correct _ _ _ Hx), (list_lookup_total_correct _ _ _ Hy).
Qed.

Notation xor4 := (zip_with Z.lxor).
Lemma expand_four nk i w a b c d y :
  (nk = 4 \/ nk = 8)%nat -> length w = (4 * i)%nat -> (nk <= 4 * i)%nat ->
  take 4 (drop (4 * i - nk) w) = [a; b; c; d] -> w !! (4 * i - 1)%nat = Some y ->
  let a' := xor4 a (fips_temp nk (4 * i) y) in let b' := xor4 b a' in let c' := xor4 c b' in
  Nat.iter 4 (expand_step nk) w = w ++ [a'; b'; c'; xor4 d c'].
Proof.
  intros Hnk Hl Hn Ht Hy a' b' c'.
  assert (Hx : forall j x, [a; b; c; d] !! j = Some x -> w !! (4 * i - nk + j)%nat = Some x).
  { intros j x Hj. rewrite <- Ht in Hj. rewrite lookup_take_lt in Hj by (apply lookup_lt_Some in Hj; rewrite length_take in Hj; lia). by rewrite lookup_drop in Hj. }
  assert (Hid : forall j z, (1 <= j <= 3)%nat -> fips_temp nk (4 * i + j) z = z).
  { intros j z Hj. unfold fips_temp. assert (Hm : ((4 * i + j) mod nk <> 0 /\ (4 * i + j) mod nk <> 4)%nat).
    { destruct Hnk as [-> | ->]; split; intros E; pose proof (Nat.div_mod (4 * i + j)) as D; [specialize (D 4%nat) | specialize (D 4%nat) | specialize (D 8%nat) | specialize (D 8%nat)];
        pose proof (Nat.mod_upper_bound (4 * i + j) 4); lia. }
    destruct Hm as [H1 H2]. rewrite (proj2 (Nat.eqb_neq _ _) H1), (proj2 (Nat.eqb_neq _ _) H2). by rewrite andb_false_r. }
  assert (Hw : forall t j x, [a; b; c; d] !! j = Some x -> (w ++ t) !! (4 * i - nk + j)%nat = Some x).
  { intros t j x Hj. pose proof (Hx j x Hj) as H. rewrite lookup_app_l; [done|]. by apply lookup_lt_Some in H. }
  assert (Hlast : forall t k x, t !! k = Some x -> (w ++ t) !! (4 * i + k)%nat = Some x) by (intros t k x Hk; rewrite lookup_app_r, Hl by lia; by replace (4 * i + k - 4 * i)%nat with k by lia).
  rewrite !iter_inner. change (Nat.iter 0 _ ?x) with x.
  rewrite (expand_step_at nk w (4 * i - 1) a y) by (lia || done || (replace (S (4 * i - 1) - nk)%nat with (4 * i - nk + 0)%nat by lia; by apply Hx)).
  replace (S (4 * i - 1)) with (4 * i)%nat by lia. fold a'.
  rewrite (expand_step_at nk (w ++ [a']) (4 * i) b a');
    [| rewrite length_app; cbn; lia | lia | replace (S (4 * i) - nk)%nat with (4 * i - nk + 1)%nat by lia; by apply Hw | pose proof (Hlast [a'] 0%nat a' eq_refl) as H; rewrite Nat.add_0_r in H; exact H].
  replace (S (4 * i)) with (4 * i + 1)%nat by lia. rewrite Hid by lia. fold b'. rewrite <- app_assoc. cbn [app].
  rewrite (expand_step_at nk (w ++ [a'; b']) (4 * i + 1) c b');
    [| rewrite length_app; cbn; lia | lia | replace (S (4 * i + 1) - nk)%nat with (4 * i - nk + 2)%nat by lia; by apply Hw | by apply Hlast].
  replace (S (4 * i + 1)) with (4 * i + 2)%nat by lia. rewrite Hid by lia. fold c'. rewrite <- app_assoc. cbn [app].
  rewrite (expand_step_at nk (w ++ [a'; b'; c']) (4 * i + 2) d c');
    [| rewrite length_app; cbn; lia | lia | replace (S (4 * i + 2) - nk)%nat with (4 * i - nk + 3)%nat by lia; by apply Hw | by apply Hlast].
  replace (S (4 * i + 2)) with (4 * i + 3)%nat by lia. rewrite Hid by lia. rewrite <- app_assoc. done.
Qed.

(** The same words in a register. *)
Ltac words4 x := let L := fresh in let B := fresh in destruct x as [|? [|? [|? [|? [|]]]]]; try discriminate.

Lemma expand_key_words a b c d t :
  length a = 4%nat -> length b = 4%nat -> length c = 4%nat -> length d = 4%nat -> length t = 4%nat ->
  let a' := xor4 a t in let b' := xor4 b a' in let c' := xor4 c b' in
  expand_key (a ++ b ++ c ++ d) (t ++ t ++ t ++ t) = a' ++ b' ++ c' ++ xor4 d c'.
Proof.
  intros Ha Hb Hc Hd Ht. words4 a. words4 b. words4 c. words4 d. words4 t. clear. cbn [app zip_with]. unfold expand_key, _mm_slli_si128, _mm_xor_si128.
  cbn [replicate app take zip_with]. rewrite ?Z.lxor_0_r. repeat (apply (f_equal2 cons); [xor_solve|]). reflexivity.
Qed.

Lemma assist_rot a b c d R :
  length a = 4%nat -> length b = 4%nat -> length c = 4%nat -> length d = 4%nat ->
  let t := xor4 (map sbox (RotWord d)) [R; 0; 0; 0] in
  _mm_shuffle_epi32 (_mm_aeskeygenassist_si128 (a ++ b ++ c ++ d) R) (_MM_SHUFFLE 3 3 3 3) = t ++ t ++ t ++ t.
Proof. intros Ha Hb Hc Hd. words4 a. words4 b. words4 c. words4 d. reflexivity. Qed.

Lemma assist_sub a b c d R :
  length a = 4%nat -> length b = 4%nat -> length c = 4%nat -> length d = 4%nat ->
  let t := map sbox d in
  _mm_shuffle_epi32 (_mm_aeskeygenassist_si128 (a ++ b ++ c ++ d) R) (_MM_SHUFFLE 2 2 2 2) = t ++ t ++ t ++ t.
Proof. intros Ha Hb Hc Hd. words4 a. words4 b. words4 c. words4 d. reflexivity. Qed.

(** ** The schedule *)

(** The first [i] round keys. *)
Record scheduled (nk : nat) (words : list bytes) (i : nat) (keys : list m128) : Prop := {
  sched_nk : (nk = 4 \/ nk = 8)%nat;
  sched_start : (nk <= 4 * i)%nat;
  sched_length : length words = (4 * i)%nat;
  sched_words : Forall key_word words;
  sched_keys : keys = map (round_key words) (seq 0 i)
}.

Lemma round_key_app words t r : (4 * r + 4 <= length words)%nat -> round_key (words ++ t) r = round_key words r.
Proof. intros H. unfold round_key. rewrite drop_app_le by lia. by rewrite take_app_le by (rewrite length_drop; lia). Qed.

Lemma get_round_key nk words i keys r : scheduled nk words i keys -> (r < i)%nat -> get_key keys r = Ok (round_key words r).
Proof. intros [_ _ _ _ ->] Hr. unfold get_key. rewrite list_lookup_fmap, lookup_seq_lt by done. done. Qed.

(** The word that a register adds, selected by [sel]. *)
Definition assist_word (sel R : Z) (d : bytes) : bytes := if sel =? _MM_SHUFFLE 3 3 3 3 then xor4 (map sbox (RotWord d)) [R; 0; 0; 0] else map sbox d.

Lemma key_word_xor x y : key_word x -> key_word y -> key_word (xor4 x y).
Proof. intros Hx Hy. by apply lxor_key. Qed.

Lemma schedule_next nk words i keys R sel :
  scheduled nk words i keys -> (i < 15)%nat -> (sel = _MM_SHUFFLE 3 3 3 3 \/ sel = _MM_SHUFFLE 2 2 2 2) ->
  (forall d, fips_temp nk (4 * i) d = assist_word sel R d) -> is_byte R ->
  exists old last, get_key keys (i - nk / 4) = Ok old /\ get_key keys (i - 1) = Ok last /\
    exists keys', put_key keys i (expand_key old (_mm_shuffle_epi32 (_mm_aeskeygenassist_si128 last R) sel)) = Ok keys' /\
    scheduled nk (Nat.iter 4 (expand_step nk) words) (S i) keys'.
Proof.
  intros Hs Hi Hsel Htemp HR. pose proof Hs as [Hnk Hn Hl Hf Hk]. assert (Hq : (nk = 4 * (nk / 4) /\ 1 <= nk / 4 <= i)%nat) by (destruct Hnk as [-> | ->]; cbn; lia).
  exists (round_key words (i - nk / 4)), (round_key words (i - 1)). split_and!; [apply (get_round_key _ _ _ _ _ Hs); lia | apply (get_round_key _ _ _ _ _ Hs); lia|].
  destruct (round_key_words words (i - nk / 4) ltac:(lia)) as (a & b & c & d & Eo & Ha & Hb & Hc & Hd).
  destruct (round_key_words words (i - 1) ltac:(lia)) as (e & f & g & y & El & He & Hf' & Hg & Hy). rewrite Eo, El.
  pose proof (Forall_lookup_1 _ _ _ _ Hf Ha) as Ka. pose proof (Forall_lookup_1 _ _ _ _ Hf Hb) as Kb. pose proof (Forall_lookup_1 _ _ _ _ Hf Hc) as Kc. pose proof (Forall_lookup_1 _ _ _ _ Hf Hd) as Kd.
  pose proof (Forall_lookup_1 _ _ _ _ Hf He) as Ke. pose proof (Forall_lookup_1 _ _ _ _ Hf Hf') as Kf. pose proof (Forall_lookup_1 _ _ _ _ Hf Hg) as Kg. pose proof (Forall_lookup_1 _ _ _ _ Hf Hy) as Ky.
  set (t := assist_word sel R y).
  assert (Kt : key_word t).
  { unfold t, assist_word. destruct (sel =? _); [apply key_word_xor; [apply sub_word_key, rot_word_key, Ky | split; [done | apply List.Forall_cons; [done | by apply (Forall_replicate _ 3 0)]]] | by apply sub_word_key]. }
  assert (Ea : _mm_shuffle_epi32 (_mm_aeskeygenassist_si128 (e ++ f ++ g ++ y) R) sel = t ++ t ++ t ++ t).
  { unfold t, assist_word. destruct Hsel as [-> | ->]; [apply assist_rot | apply assist_sub]; apply Ke || apply Kf || apply Kg || apply Ky. }
  rewrite Ea, expand_key_words by (apply Ka || apply Kb || apply Kc || apply Kd || apply Kt).
  set (a' := xor4 a t). set (b' := xor4 b a'). set (c' := xor4 c b'). set (d' := xor4 d c').
  assert (Ka' : key_word a') by (by apply key_word_xor). assert (Kb' : key_word b') by (by apply key_word_xor).
  assert (Kc' : key_word c') by (by apply key_word_xor). assert (Kd' : key_word d') by (by apply key_word_xor).
  assert (Ew : Nat.iter 4 (expand_step nk) words = words ++ [a'; b'; c'; d']).
  { unfold d', c', b', a', t. rewrite <- Htemp. apply (expand_four nk i words a b c d y Hnk Hl Hn).
    - replace (4 * i - nk)%nat with (4 * (i - nk / 4))%nat by lia. apply list_eq. intros j. destruct (decide (j < 4)%nat) as [Hj|Hj].
      + rewrite lookup_take_lt, lookup_drop by done. destruct j as [|[|[|[|]]]]; try lia; cbn [lookup list_lookup]; [by rewrite Nat.add_0_r | done..].
      + rewrite (lookup_ge_None_2 (take _ _)) by (rewrite length_take; lia). symmetry. apply lookup_ge_None_2. cbn. lia.
    - by replace (4 * i - 1)%nat with (4 * (i - 1) + 3)%nat by lia. }
  exists (map (round_key (words ++ [a'; b'; c'; d'])) (seq 0 (S i))). rewrite Ew.
  assert (Hlast : round_key (words ++ [a'; b'; c'; d']) i = a' ++ b' ++ c' ++ d').
  { unfold round_key. rewrite drop_app_length' by lia. cbn [take concat]. by rewrite app_nil_r. }
  assert (Hold : map (round_key (words ++ [a'; b'; c'; d'])) (seq 0 i) = keys).
  { rewrite Hk. apply map_ext_in. intros r Hr. apply in_seq in Hr. apply round_key_app. lia. }
  split; [|constructor; [done | lia | rewrite length_app; cbn; lia | apply Forall_app_2; [done | do 4 (apply List.Forall_cons; [assumption|]); apply List.Forall_nil] | done]].
  unfold put_key. assert (length keys = i) as -> by (by rewrite Hk, length_map, length_seq). rewrite Nat.eqb_refl, (proj2 (Nat.ltb_lt _ _)) by (unfold PTLS_FUSION_AES256_ROUNDS; lia). cbn [andb].
  rewrite seq_S, map_app, Hold. cbn [map Nat.add]. by rewrite Hlast.
Qed.

Definition rcon (j : nat) : Z := Nat.iter (j - 1) xtime 1.
Lemma rcon_byte j : is_byte (rcon j).
Proof. unfold rcon. generalize (j - 1)%nat. intros n. induction n as [|n IH]; [done | by apply xtime_byte]. Qed.

Lemma iter_add {A} (f : A -> A) n m x : Nat.iter (n + m) f x = Nat.iter m f (Nat.iter n f x).
Proof. rewrite Nat.add_comm. induction m as [|m IH]; [done|]. change (Nat.iter (S m + n) f x) with (f (Nat.iter (m + n) f x)). by rewrite IH. Qed.

Lemma temp_rot nk i j d : (nk = 4 \/ nk = 8)%nat -> (4 * i = j * nk)%nat -> fips_temp nk (4 * i) d = assist_word (_MM_SHUFFLE 3 3 3 3) (rcon j) d.
Proof.
  intros Hnk E. unfold fips_temp. rewrite E. assert (nk <> 0)%nat by lia. rewrite Nat.Div0.mod_mul, Nat.div_mul by done. reflexivity.
Qed.
Lemma temp_sub i j d : (i = 2 * j + 1)%nat -> fips_temp 8 (4 * i) d = assist_word (_MM_SHUFFLE 2 2 2 2) (rcon j) d.
Proof. intros ->. unfold fips_temp. replace (4 * (2 * j + 1))%nat with (4 + j * 8)%nat by lia. by rewrite Nat.Div0.mod_add. Qed.

Lemma expand_128 n j words keys :
  (1 <= j)%nat -> (j + n = 10)%nat -> scheduled 4 words j keys ->
  exists keys', expand_all (map rcon (seq j (S n))) 16 10 j keys = Ok (10%nat, keys') /\ scheduled 4 (Nat.iter (4 * S n) (expand_step 4) words) 11 keys'.
Proof.
  revert j words keys. induction n as [|n IH]; intros j words keys Hj Hn Hs; cbn [seq map expand_all]; change (16 / 16)%nat with (4 / 4)%nat;
    destruct (schedule_next 4 words j keys (rcon j) (_MM_SHUFFLE 3 3 3 3) Hs ltac:(lia) ltac:(by left) ltac:(intros d; by apply temp_rot; lia || (left; done)) (rcon_byte j))
      as (old & last & -> & -> & keys1 & Hput & Hs1); cbn [res_bind]; rewrite Hput; cbn [res_bind].
  - assert (j = 10%nat) as -> by lia. exists keys1. done.
  - rewrite (proj2 (Nat.eqb_neq j 10)) by lia. change (24 <? 16)%nat with false. cbn iota.
    destruct (IH (S j) _ keys1 ltac:(lia) ltac:(lia) Hs1) as (keys' & E & Hs'). exists keys'. split; [exact E|]. replace (4 * S (S n))%nat with (4 + 4 * S n)%nat by lia. by rewrite iter_add.
Qed.

Lemma expand_256 n j words keys k :
  (1 <= j)%nat -> (j + n = 7)%nat -> scheduled 8 words (2 * j) keys ->
  exists keys', expand_all (map rcon (seq j (S n + k))) 32 14 (2 * j) keys = Ok (14%nat, keys') /\ scheduled 8 (Nat.iter (8 * n + 4) (expand_step 8) words) 15 keys'.
Proof.
  revert j words keys. induction n as [|n IH]; intros j words keys Hj Hn Hs; cbn [Nat.add seq map expand_all]; change (32 / 16)%nat with (8 / 4)%nat;
    destruct (schedule_next 8 words (2 * j) keys (rcon j) (_MM_SHUFFLE 3 3 3 3) Hs ltac:(lia) ltac:(by left) ltac:(intros d; apply temp_rot; lia || (right; done)) (rcon_byte j))
      as (old & last & -> & -> & keys1 & Hput & Hs1); cbn [res_bind]; rewrite Hput; cbn [res_bind].
  - assert (j = 7%nat) as -> by lia. exists keys1. done.
  - rewrite (proj2 (Nat.eqb_neq (2 * j) 14)) by lia. change (24 <? 32)%nat with true. cbn iota.
    destruct (schedule_next 8 _ (S (2 * j)) keys1 (rcon j) (_MM_SHUFFLE 2 2 2 2) Hs1 ltac:(lia) ltac:(by right) ltac:(intros d; apply temp_sub; lia) (rcon_byte j))
      as (old' & last' & -> & -> & keys2 & Hput2 & Hs2). cbn [res_bind]. rewrite Hput2. cbn [res_bind].
    replace (S (S (2 * j))) with (2 * S j)%nat in * by lia. destruct (IH (S j) _ keys2 ltac:(lia) ltac:(lia) Hs2) as (keys' & E & Hs'). exists keys'. split; [exact E|].
    replace (8 * S n + 4)%nat with (4 + (4 + (8 * n + 4)))%nat by lia. rewrite (iter_add _ 4 (4 + _)), (iter_add _ 4 (8 * n + 4)). exact Hs'.
Qed.

(** ** A context with its key *)

Definition fusion_key (key : bytes) : Prop := (length key = 16 \/ length key = 32)%nat /\ is_bytes key.
Definition key_words (key : bytes) : list bytes := KeyExpansion (length key / 4) (fips_rounds (length key)) key.
Record ecb_ready (key : bytes) (ctx : ptls_fusion_aesecb_context_t) : Prop := {
  ecb_key : fusion_key key;
  ecb_count : ecb_rounds ctx = fips_rounds (length key);
  ecb_sched : scheduled (length key / 4) (key_words key) (S (fips_rounds (length key))) (ecb_keys ctx)
}.

Lemma ready_unique key c1 c2 : ecb_ready key c1 -> ecb_ready key c2 -> ecb_keys c1 = ecb_keys c2.
Proof. intros [_ _ [_ _ _ _ E1]] [_ _ [_ _ _ _ E2]]. congruence. Qed.

Lemma first_keys n key : is_bytes key -> length key = (16 * n)%nat -> (n = 1 \/ n = 2)%nat ->
  scheduled (4 * n) (blocks_of 4 (4 * n) key) n (map (fun r => take 16 (drop (16 * r) key)) (seq 0 n)).
Proof.
  intros Hb Hl Hn. constructor; [lia | lia | apply length_blocks_of | |].
  - apply Forall_lookup. intros t x Ht. pose proof (lookup_lt_Some _ _ _ Ht) as Hlt. rewrite length_blocks_of in Hlt. rewrite blocks_of_lookup in Ht by done. injection Ht as <-.
    split; [rewrite length_take, length_drop; lia | by apply Forall_take, Forall_drop].
  - clear Hb. destruct Hn as [-> | ->]; [do 17 (destruct key as [|? key]; try discriminate) | do 33 (destruct key as [|? key]; try discriminate)]; reflexivity.
Qed.

Lemma fusion_init_spec key : fusion_key key -> exists ctx, ptls_fusion_aesecb_init true key (length key) = Ok ctx /\ ecb_ready key ctx.
Proof.
  intros Hkey. pose proof Hkey as [[Hl | Hl] Hb].
  - unfold ptls_fusion_aesecb_init. rewrite Hl. cbn [c_assert res_bind Nat.eqb]. rewrite copy_from_ok by lia. cbn [res_bind put_key length Nat.eqb andb app].
    change fusion_rcons with (map rcon (seq 1 10)). destruct (expand_128 9 1 (blocks_of 4 4 key) [take 16 (drop 0 key)] ltac:(lia) ltac:(lia)) as (keys & E & Hs).
    { apply (first_keys 1 key Hb Hl). by left. }
    change (put_key [] 0 (take 16 (drop 0 key))) with (Ok [take 16 (drop 0 key)]). cbn [res_bind length]. unfold PTLS_FUSION_AES128_ROUNDS. rewrite E. cbn [res_bind c_assert Nat.eqb].
    eexists. split; [reflexivity|]. constructor; [done | by rewrite Hl|]. unfold key_words. rewrite Hl. exact Hs.
  - unfold ptls_fusion_aesecb_init. rewrite Hl. cbn [c_assert res_bind Nat.eqb]. rewrite !copy_from_ok by lia. cbn [res_bind].
    change (put_key [] 0 (take 16 (drop 0 key))) with (Ok [take 16 (drop 0 key)]). cbn [res_bind]. change (put_key [?a] 1 ?b) with (Ok [a; b]). cbn [res_bind length].
    change fusion_rcons with (map rcon (seq 1 (7 + 3))). unfold PTLS_FUSION_AES256_ROUNDS.
    destruct (expand_256 6 1 (blocks_of 4 8 key) [take 16 (drop 0 key); take 16 (drop 16 key)] 3 ltac:(lia) ltac:(lia)) as (keys & E & Hs).
    { apply (first_keys 2 key Hb Hl). by right. }
    change (2 * 1)%nat with 2%nat in E. rewrite E. cbn [res_bind c_assert Nat.eqb].
    eexists. split; [reflexivity|]. constructor; [done | by rewrite Hl|]. unfold key_words. rewrite Hl. exact Hs.
Qed.

(** ** A block *)

(** The state of a block after the rounds up to [r]. *)
Definition aes_upto (words : list bytes) (r : nat) (x : bytes) : bytes := foldl (fips_round words) (AddRoundKey x (round_key words 0)) (seq 1 r).

Lemma sub_shift st : block st -> SubBytes (ShiftRows st) = ShiftRows (SubBytes st).
Proof.
  intros [Hl _]. unfold SubBytes, ShiftRows. rewrite map_map. apply map_ext_in. intros i Hi. set (k := ((i + 4 * (i mod 4)) mod 16)%nat).
  destruct (lookup_lt_is_Some_2 st k) as [b Hb]; [rewrite Hl; by apply Nat.mod_upper_bound|].
  by rewrite (list_lookup_total_correct _ _ _ Hb), (list_lookup_total_correct _ k (sbox b)) by (by rewrite list_lookup_fmap, Hb).
Qed.

Section Block.
Context (key : bytes) (ctx : ptls_fusion_aesecb_context_t).
Hypothesis Hready : ecb_ready key ctx.
Notation words := (key_words key).
Notation nr := (fips_rounds (length key)).

Lemma ready_key r : (r <= nr)%nat -> get_key (ecb_keys ctx) r = Ok (round_key words r).
Proof using Hready. intros Hr. apply (get_round_key _ _ _ _ _ (ecb_sched _ _ Hready)). lia. Qed.

Lemma words_hold : holds_key words (map of_be words) /\ length words = (4 * S nr)%nat.
Proof using Hready.
  destruct (ecb_sched _ _ Hready) as [_ _ Hl Hf _]. split; [|done]. split; [done|]. intros i x Hx. by rewrite list_lookup_fmap, Hx.
Qed.

Lemma upto_block r x : block x -> (r <= nr)%nat -> block (aes_upto words r x).
Proof using Hready.
  intros Hx Hr. destruct words_hold as [Hk Hl]. apply (rounds_block _ _ Hk); [|lia]. apply AddRoundKey_block; [done | apply (round_key_block _ _ _ Hk); lia].
Qed.

Lemma upto_0 x : _mm_xor_si128 x (round_key words 0) = aes_upto words 0 x.
Proof. done. Qed.

Lemma upto_next r x : block x -> (r < nr)%nat -> _mm_aesenc_si128 (aes_upto words r x) (round_key words (S r)) = aes_upto words (S r) x.
Proof using Hready.
  intros Hx Hr. unfold _mm_aesenc_si128, aes_upto. rewrite seq_S, foldl_app. cbn [foldl Nat.add]. fold (aes_upto words r x).
  rewrite sub_shift by (apply upto_block; [done | lia]). done.
Qed.

Lemma upto_last x : block x -> _mm_aesenclast_si128 (aes_upto words (nr - 1) x) (round_key words nr) = fips_aes key x.
Proof using Hready.
  intros Hx. unfold _mm_aesenclast_si128. rewrite sub_shift by (apply upto_block; [done | lia]). reflexivity.
Qed.

Lemma aesenc_rounds_spec n i x :
  block x -> (i + n <= nr)%nat -> aesenc_rounds (ecb_keys ctx) n (S i) (aes_upto words i x) = Ok (aes_upto words (i + n) x).
Proof using Hready.
  intros Hx. revert i. induction n as [|n IH]; intros i Hi; cbn [aesenc_rounds]; [by rewrite Nat.add_0_r|].
  rewrite ready_key by lia. cbn [res_bind]. rewrite upto_next by (done || lia). rewrite IH by lia. do 2 f_equal. lia.
Qed.

Lemma rounds_pos : (9 <= nr - 1)%nat.
Proof using Hready. unfold fips_rounds. destruct (ecb_key _ _ Hready) as [[-> | ->] _]; cbn; lia. Qed.

Lemma aes_block_spec x : block x -> aesecb_encrypt ctx x = Ok (fips_aes key x).
Proof using Hready.
  intros Hx. pose proof rounds_pos as Hp. unfold aesecb_encrypt. rewrite (ecb_count _ _ Hready), ready_key by lia. cbn [res_bind]. rewrite upto_0, aesenc_rounds_spec by (done || lia). cbn [res_bind].
  rewrite Nat.max_r, ready_key by lia. cbn [res_bind Nat.add]. by rewrite upto_last.
Qed.

Lemma fips_block x : block x -> block (fips_aes key x).
Proof using Hready.
  intros Hx. rewrite <- upto_last by done. destruct words_hold as [Hk Hl]. apply AddRoundKey_block; [|apply (round_key_block _ _ _ Hk); lia].
  apply SubBytes_block, ShiftRows_block, upto_block; [done | lia].
Qed.
End Block.
