(* ===== verification/FusionGhash.v ===== *)
(** * FusionGhash: GHASH of the fusion engine

    [transformH], [gfmul], [gfmul_onestep] and [gfmul_final] of [src/lib/fusion.c], and
    the table of powers of the hash key ([setup_one_ghash_entry]).  The multiplication
    works on octets in the reverse order, accumulates the three parts of Karatsuba's
    products of many blocks and reduces once.  Main result: fed with the blocks of a
    message and the powers in descending order it computes GHASH of SP 800-38D, plus
    the mask ([gfmul_ghash]). *)
From stdpp Require Import gmap.
From S2P Require Import Prelude Limbs Bitops Blockwise Aes Gcm Gf2 Simd.
Local Open Scope gf2_scope.

(** ** fusion.c *)

Definition poly : m128 := of_qwords 1 0xc200000000000000.
Definition bswap8 : m128 := [15; 14; 13; 12; 11; 10; 9; 8; 7; 6; 5; 4; 3; 2; 1; 0].
Definition one8 : m128 := 1 :: replicate 15 0.

Definition transformH (H : m128) : m128 :=
  let t2 := _mm_shuffle_epi32 H 0xff in
  let t1 := H in
  let H := _mm_slli_epi64 H 1 in
  let t3 := _mm_setzero_si128 in
  let t1 := _mm_srli_epi64 t1 63 in
  let t3 := _mm_cmplt_epi32 t2 t3 in
  let t1 := _mm_slli_si128 t1 8 in
  let H := _mm_or_si128 t1 H in
  let t3 := _mm_and_si128 t3 poly in
  _mm_xor_si128 t3 H.

Definition gfmul (x y : m128) : m128 :=
  let lo := _mm_clmulepi64_si128 x y 0x00 in
  let hi := _mm_clmulepi64_si128 x y 0x11 in
  let a := _mm_shuffle_epi32 x 78 in
  let b := _mm_shuffle_epi32 y 78 in
  let a := _mm_xor_si128 a x in
  let b := _mm_xor_si128 b y in
  let a := _mm_clmulepi64_si128 a b 0x00 in
  let a := _mm_xor_si128 a lo in
  let a := _mm_xor_si128 a hi in
  let b := _mm_slli_si128 a 8 in
  let a := _mm_srli_si128 a 8 in
  let lo := _mm_xor_si128 lo b in
  let hi := _mm_xor_si128 hi a in
  let t := _mm_clmulepi64_si128 lo poly 0x10 in
  let lo := _mm_shuffle_epi32 lo 78 in
  let lo := _mm_xor_si128 lo t in
  let t := _mm_clmulepi64_si128 lo poly 0x10 in
  let lo := _mm_shuffle_epi32 lo 78 in
  let lo := _mm_xor_si128 lo t in
  _mm_xor_si128 hi lo.

Record ptls_fusion_gfmul_state := mk_gfmul { g_hi : m128; g_lo : m128; g_mid : m128 }.
Definition gfmul_zero : ptls_fusion_gfmul_state := mk_gfmul _mm_setzero_si128 _mm_setzero_si128 _mm_setzero_si128.

Record ptls_fusion_aesgcm_ghash_precompute := mk_precompute { pre_H : m128; pre_r : m128 }.

Definition gfmul_onestep (gstate : ptls_fusion_gfmul_state) (X : m128) (precompute : ptls_fusion_aesgcm_ghash_precompute) : ptls_fusion_gfmul_state :=
  let X := _mm_shuffle_epi8 X bswap8 in
  let t := _mm_clmulepi64_si128 (pre_H precompute) X 0x00 in
  let glo := _mm_xor_si128 (g_lo gstate) t in
  let t := _mm_clmulepi64_si128 (pre_H precompute) X 0x11 in
  let ghi := _mm_xor_si128 (g_hi gstate) t in
  let t := _mm_shuffle_epi32 X 78 in
  let t := _mm_xor_si128 t X in
  let t := _mm_clmulepi64_si128 (pre_r precompute) t 0x00 in
  let gmid := _mm_xor_si128 (g_mid gstate) t in
  mk_gfmul ghi glo gmid.

(** The reduced product, before its octets are swapped. *)
Definition gfmul_reduce (gstate : ptls_fusion_gfmul_state) : m128 :=
  let gmid := _mm_xor_si128 (g_mid gstate) (g_hi gstate) in
  let gmid := _mm_xor_si128 gmid (g_lo gstate) in
  let glo := _mm_xor_si128 (g_lo gstate) (_mm_slli_si128 gmid 8) in
  let ghi := _mm_xor_si128 (g_hi gstate) (_mm_srli_si128 gmid 8) in
  let r := _mm_clmulepi64_si128 glo poly 0x10 in
  let glo := _mm_shuffle_epi32 glo 78 in
  let glo := _mm_xor_si128 glo r in
  let r := _mm_clmulepi64_si128 glo poly 0x10 in
  let glo := _mm_shuffle_epi32 glo 78 in
  let glo := _mm_xor_si128 glo r in
  _mm_xor_si128 ghi glo.
Definition gfmul_final (gstate : ptls_fusion_gfmul_state) (ek0 : m128) : m128 :=
  let tag := gfmul_reduce gstate in
  let tag := _mm_shuffle_epi8 tag bswap8 in
  _mm_xor_si128 tag ek0.

(** ** The octets of the constants *)

Lemma bswap_rev v : block v -> _mm_shuffle_epi8 v bswap8 = rev v.
Proof. intros [Hl _]. do 17 (destruct v as [|? v]; try discriminate). reflexivity. Qed.
Lemma poly_block : block poly.
Proof. split; [done|]. apply (bool_decide_unpack _). by vm_compute. Qed.
Lemma zeros_block : block _mm_setzero_si128.
Proof. split; [done|]. by apply Forall_replicate. Qed.
Lemma poly_spec : 2 ^ 64 ⊗ (2 ^ 64 ⊕ hi poly) ≃ 1.
Proof. exists 1%N. by vm_compute. Qed.

(** ** Reduction *)

Lemma reduce_half v :
  block v -> let w := _mm_xor_si128 (_mm_shuffle_epi32 v 78) (_mm_clmulepi64_si128 v poly 0x10) in block w /\ 2 ^ 64 ⊗ reg_val w ≃ reg_val v.
Proof.
  intros Hv w. destruct (swap_spec v Hv) as (Hs & Els & Ehs). destruct (clmul_spec v poly 0x10 Hv poly_block) as [Hc Ec].
  split; [by apply xor_block|]. unfold w. rewrite reg_xor, Ec by done. destruct (reg_split _ Hs) as [-> _]. destruct (reg_split v Hv) as [-> _]. rewrite Els, Ehs.
  change (Z.testbit 16 0) with false. change (Z.testbit 16 4) with true. cbn beta iota. pose proof poly_spec as Hp. set (z := (2 ^ 64)%N) in *.
  generalize (lo v), (hi v). set (c := hi poly) in *. clearbody z c. intros l h. transitivity (z ⊗ (z ⊕ c) ⊗ l ⊕ z ⊗ h); [ring | rewrite Hp; ring].
Qed.

(** The number that the three accumulators stand for. *)
Definition g_ok (g : ptls_fusion_gfmul_state) : Prop := block (g_hi g) /\ block (g_lo g) /\ block (g_mid g).
Definition g_val (g : ptls_fusion_gfmul_state) : N :=
  2 ^ 64 ⊗ 2 ^ 64 ⊗ reg_val (g_hi g) ⊕ 2 ^ 64 ⊗ (reg_val (g_mid g) ⊕ reg_val (g_hi g) ⊕ reg_val (g_lo g)) ⊕ reg_val (g_lo g).

Lemma reduce_spec g : g_ok g -> block (gfmul_reduce g) /\ reg_val (gfmul_reduce g) ≃ g_val g ⊗ zinvs 128.
Proof.
  intros (Hh & Hl & Hm). unfold gfmul_reduce.
  set (mid := _mm_xor_si128 (_mm_xor_si128 (g_mid g) (g_hi g)) (g_lo g)). assert (Hmid : block mid) by (by repeat apply xor_block).
  destruct (slli_spec mid Hmid) as (Bs & Els & Ehs). destruct (srli_spec mid Hmid) as (Br & Elr & Ehr).
  set (l0 := _mm_xor_si128 (g_lo g) (_mm_slli_si128 mid 8)). assert (Hl0 : block l0) by (by apply xor_block).
  destruct (reduce_half l0 Hl0) as [Hl1 E1]. set (l1 := _mm_xor_si128 (_mm_shuffle_epi32 l0 78) _) in *.
  destruct (reduce_half l1 Hl1) as [Hl2 E2]. set (l2 := _mm_xor_si128 (_mm_shuffle_epi32 l1 78) _) in *.
  split; [by apply xor_block; [apply xor_block|]|]. etransitivity; [|rewrite pmul_comm; reflexivity].
  apply (zinvs_cancel 128). change (2 ^ N.of_nat 128)%N with (2 ^ 64 ⊗ 2 ^ 64). rewrite !reg_xor by (done || by apply xor_block).
  assert (El0 : reg_val l0 = reg_val (g_lo g) ⊕ 2 ^ 64 ⊗ lo mid).
  { unfold l0. rewrite reg_xor by done. f_equal. destruct (reg_split _ Bs) as [-> _]. by rewrite Els, Ehs, N.lxor_0_r. }
  assert (Er : reg_val (_mm_srli_si128 mid 8) = hi mid).
  { destruct (reg_split _ Br) as [-> _]. by rewrite Elr, Ehr, pmul_0_r, N.lxor_0_l. }
  assert (Em : 2 ^ 64 ⊗ hi mid ⊕ lo mid = reg_val (g_mid g) ⊕ reg_val (g_hi g) ⊕ reg_val (g_lo g)).
  { destruct (reg_split mid Hmid) as [<- _]. unfold mid. by rewrite !reg_xor by (done || by apply xor_block). }
  rewrite Er. unfold g_val. rewrite <- Em. rewrite El0 in E1. set (z := (2 ^ 64)%N) in *. clearbody z.
  transitivity (z ⊗ z ⊗ reg_val (g_hi g) ⊕ z ⊗ z ⊗ hi mid ⊕ z ⊗ (z ⊗ reg_val l2)); [ring | rewrite E2, E1; ring].
Qed.

(** ** One multiplication *)

Lemma xor_right a b c : _mm_xor_si128 (_mm_xor_si128 a b) c = _mm_xor_si128 (_mm_xor_si128 a c) b.
Proof.
  unfold _mm_xor_si128. revert b c. induction a as [|x a IH]; intros [|y b] [|w c]; try done. cbn [zip_with]. rewrite IH. f_equal.
  by rewrite !Z.lxor_assoc, (Z.lxor_comm y).
Qed.

Definition pre_ok (e : ptls_fusion_aesgcm_ghash_precompute) : Prop := block (pre_H e) /\ block (pre_r e) /\ lo (pre_r e) = hi (pre_H e) ⊕ lo (pre_H e).

Lemma folded_half x : block x -> let r := _mm_xor_si128 (_mm_shuffle_epi32 x 78) x in block r /\ lo r = hi x ⊕ lo x.
Proof.
  intros Hx r. destruct (swap_spec x Hx) as (Hs & Els & _). split; [by apply xor_block|]. unfold r. destruct (lohi_xor _ x Hs Hx) as [-> _]. by rewrite Els.
Qed.

Lemma onestep_spec g X e :
  g_ok g -> block X -> pre_ok e ->
  g_ok (gfmul_onestep g X e) /\ g_val (gfmul_onestep g X e) ≃ g_val g ⊕ Z.to_N (of_be X) ⊗ reg_val (pre_H e).
Proof.
  intros (Hh & Hl & Hm) HX (He & Hr & Er). unfold gfmul_onestep. rewrite bswap_rev by done. pose proof (rev_block X HX) as HY.
  assert (EY : reg_val (rev X) = Z.to_N (of_be X)) by (unfold reg_val; by rewrite of_le_rev by apply HX). rewrite <- EY. set (Y := rev X) in *. clearbody Y. clear X HX EY.
  destruct (folded_half Y HY) as [Hf Ef]. destruct (clmul_spec (pre_H e) Y 0x00 He HY) as [B0 E0]. destruct (clmul_spec (pre_H e) Y 0x11 He HY) as [B1 E1].
  destruct (clmul_spec (pre_r e) _ 0x00 Hr Hf) as [B2 E2]. rewrite Ef, Er in E2.
  split; [split_and!; cbn [g_hi g_lo g_mid]; by apply xor_block|]. unfold g_val. cbn [g_hi g_lo g_mid]. rewrite !reg_xor by done. rewrite E0, E1, E2.
  change (Z.testbit 0 _) with false. change (Z.testbit 17 0) with true. change (Z.testbit 17 4) with true. cbn beta iota.
  destruct (reg_split Y HY) as [-> _]. destruct (reg_split _ He) as [-> _]. set (z := (2 ^ 64)%N). clearbody z. ring.
Qed.

Lemma gfmul_as_steps x y :
  gfmul x y = gfmul_reduce (mk_gfmul (_mm_clmulepi64_si128 x y 0x11) (_mm_clmulepi64_si128 x y 0x00)
    (_mm_clmulepi64_si128 (_mm_xor_si128 (_mm_shuffle_epi32 x 78) x) (_mm_xor_si128 (_mm_shuffle_epi32 y 78) y) 0x00)).
Proof. unfold gfmul, gfmul_reduce. cbn [g_hi g_lo g_mid]. by rewrite (xor_right _ (_mm_clmulepi64_si128 x y 0) (_mm_clmulepi64_si128 x y 17)). Qed.

Lemma gfmul_spec x y : block x -> block y -> block (gfmul x y) /\ reg_val (gfmul x y) ≃ reg_val x ⊗ reg_val y ⊗ zinvs 128.
Proof.
  intros Hx Hy. rewrite gfmul_as_steps. set (g := mk_gfmul _ _ _).
  destruct (folded_half x Hx) as [Hfx Efx]. destruct (folded_half y Hy) as [Hfy Efy].
  destruct (clmul_spec x y 0x00 Hx Hy) as [B0 E0]. destruct (clmul_spec x y 0x11 Hx Hy) as [B1 E1]. destruct (clmul_spec _ _ 0x00 Hfx Hfy) as [B2 E2]. rewrite Efx, Efy in E2.
  assert (Hg : g_ok g) by done. destruct (reduce_spec g Hg) as [Hb E]. split; [done|]. rewrite E. unfold g_val, g. cbn [g_hi g_lo g_mid]. rewrite E0, E1, E2.
  change (Z.testbit 0 _) with false. change (Z.testbit 17 0) with true. change (Z.testbit 17 4) with true. cbn beta iota.
  destruct (reg_split x Hx) as [-> _]. destruct (reg_split y Hy) as [-> _]. set (z := (2 ^ 64)%N). clearbody z. ring.
Qed.

(** ** The hash key *)

Lemma qwords_reg q0 q1 : 0 <= q0 < 2 ^ 64 -> 0 <= q1 < 2 ^ 64 -> block (of_qwords q0 q1) /\ of_le (of_qwords q0 q1) = q0 + 2 ^ 64 * q1.
Proof.
  intros H0 H1. unfold of_qwords. split; [apply block_app; apply length_le || apply le_bytes|]. rewrite of_le_app, length_le, !of_le_le.
  change (2 ^ (8 * Z.of_nat 8)) with (2 ^ 64). by rewrite !Z.mod_small by done.
Qed.

Lemma qword_reg v : block v -> of_le v = qword v 0 + 2 ^ 64 * qword v 1 /\ 0 <= qword v 0 < 2 ^ 64 /\ 0 <= qword v 1 < 2 ^ 64.
Proof.
  intros Hv. destruct (block_halves v Hv) as (E & H1 & H2 & B1 & B2). unfold qword. change (8 * 0)%nat with 0%nat. change (8 * 1)%nat with 8%nat.
  rewrite drop_0, (take_ge (drop 8 v)) by lia. pose proof (of_le_range _ B1) as R1. pose proof (of_le_range _ B2) as R2. rewrite H1 in R1. rewrite H2 in R2.
  split_and!; try apply R1; try apply R2. rewrite E at 1. by rewrite of_le_app, H1.
Qed.

(** The carry out of the shift, as a mask. *)
Lemma carry_mask H :
  block H ->
  _mm_and_si128 (_mm_cmplt_epi32 (_mm_shuffle_epi32 H 0xff) _mm_setzero_si128) poly = if 2 ^ 127 <=? of_le H then poly else _mm_setzero_si128.
Proof.
  intros HH. destruct (block_halves H HH) as (E & _). destruct HH as [Hl Hb].
  assert (Hd : of_le H = of_le (take 12 H) + 2 ^ 96 * of_le (dword H 3)).
  { rewrite <- (take_drop 12 H) at 1. rewrite of_le_app, length_take, Nat.min_l by lia. unfold dword. change (4 * 3)%nat with 12%nat. by rewrite (take_ge (drop 12 H)) by (rewrite length_drop; lia). }
  assert (R : 0 <= of_le (take 12 H) < 2 ^ 96) by (pose proof (of_le_range (take 12 H) (Forall_take _ _ _ Hb)) as R; rewrite length_take, Nat.min_l in R by lia; exact R).
  assert (R' : 0 <= of_le (dword H 3) < 2 ^ 32).
  { pose proof (of_le_range (dword H 3) (Forall_take _ _ _ (Forall_drop _ _ _ Hb))) as R'. unfold dword in R'. rewrite length_take, length_drop, Hl in R'. exact R'. }
  assert (Hm : _mm_cmplt_epi32 (_mm_shuffle_epi32 H 0xff) _mm_setzero_si128 = replicate 16 (if 2 ^ 127 <=? of_le H then 0xff else 0)).
  { assert (Hc : (signed32 (of_le (dword H 3)) <? 0) = (2 ^ 127 <=? of_le H)).
    { unfold signed32. destruct (Z.ltb_spec (of_le (dword H 3)) (2 ^ 31)), (Z.ltb_spec (of_le (dword H 3)) 0), (Z.leb_spec (2 ^ 127) (of_le H)); try lia; apply Z.ltb_lt || apply Z.ltb_ge; lia. }
    rewrite <- Hc. clear -Hl. do 17 (destruct H as [|? H]; try discriminate). reflexivity. }
  rewrite Hm. destruct (2 ^ 127 <=? of_le H); reflexivity.
Qed.

(** The shift of the whole register by one bit. *)
Lemma shift_one H :
  block H -> let S := _mm_or_si128 (_mm_slli_si128 (_mm_srli_epi64 H 63) 8) (_mm_slli_epi64 H 1) in block S /\ of_le S = (2 * of_le H) mod 2 ^ 128.
Proof.
  intros HH S. unfold S, _mm_srli_epi64, _mm_slli_epi64. destruct (qword_reg H HH) as (EH & R0 & R1). rewrite EH. clear EH S.
  generalize dependent (qword H 1). generalize dependent (qword H 0). intros q0 R0 q1 R1.
  rewrite !Z.shiftr_div_pow2, !Z.shiftl_mul_pow2 by lia. unfold u64. change (2 ^ 1) with 2.
  assert (Es : _mm_slli_si128 (of_qwords (q0 / 2 ^ 63) (q1 / 2 ^ 63)) 8 = of_qwords 0 (q0 / 2 ^ 63)).
  { unfold _mm_slli_si128, of_qwords. rewrite take_app_ge by (rewrite length_replicate; lia). by rewrite length_replicate, take_app_length' by (rewrite length_le; lia). }
  rewrite Es. destruct (qwords_reg 0 (q0 / 2 ^ 63) ltac:(lia) ltac:(modlia)) as [Bc Ec].
  destruct (qwords_reg ((q0 * 2) mod 2 ^ 64) ((q1 * 2) mod 2 ^ 64) ltac:(modlia) ltac:(modlia)) as [Bb Eb].
  set (c := of_qwords 0 _) in *. set (b := of_qwords (_ mod _) _) in *. clearbody c b. destruct Bc as [Lc Yc], Bb as [Lb Yb]. split.
  - split; [unfold _mm_or_si128; rewrite length_zip_with; lia|]. clear -Yc Yb. unfold _mm_or_si128.
    revert b Yb. induction Yc as [|x c Hx Hc IH]; intros b Yb; [constructor|]. destruct Yb as [|y b Hy Hb]; constructor; [by apply lor_byte | auto].
  - unfold _mm_or_si128. rewrite (of_le_bitwise Z.lor orb) by (apply Z.lor_spec || apply lor_byte || done || congruence). rewrite Ec, Eb.
    replace (0 + 2 ^ 64 * (q0 / 2 ^ 63)) with (Z.shiftl (q0 / 2 ^ 63) 64) by (rewrite Z.shiftl_mul_pow2; lia).
    replace ((q0 * 2) mod 2 ^ 64 + 2 ^ 64 * ((q1 * 2) mod 2 ^ 64)) with (Z.lor (Z.shiftl (Z.shiftl (q1 mod 2 ^ 63) 1) 64) ((q0 * 2) mod 2 ^ 64))
      by (rewrite lor_shiftl_add, Z.shiftl_mul_pow2 by modlia; modlia).
    rewrite Z.lor_assoc, <- Z.shiftl_lor, lor_shiftl_add by modlia. rewrite (Z.lor_comm (q0 / 2 ^ 63)), lor_shiftl_add by modlia. modlia.
Qed.

Lemma transformH_spec H : block H -> block (transformH H) /\ reg_val (transformH H) ≃ 2 ⊗ reg_val H.
Proof.
  intros HH. unfold transformH. rewrite carry_mask by done. destruct (shift_one H HH) as [HS ES]. set (S := _mm_or_si128 _ _) in *. clearbody S.
  pose proof (of_le_range H (proj2 HH)) as RH. rewrite (proj1 HH) in RH. change (2 ^ (8 * Z.of_nat 16)) with (2 ^ 128) in RH.
  set (c := 2 ^ 127 <=? of_le H) in *. assert (Hc : block (if c then poly else _mm_setzero_si128)) by (destruct c; [apply poly_block | apply zeros_block]).
  split; [by apply xor_block|]. rewrite reg_xor by done.
  assert (E2 : 2 ⊗ reg_val H = 2 ^ 128 ⊗ coefficient c ⊕ reg_val S).
  { change 2%N with (2 ^ 1)%N at 1. rewrite pmul_pow2, <- glue by (by apply reg_bound). change (2 ^ 1)%N with 2%N. unfold reg_val. rewrite ES.
    unfold c. destruct (Z.leb_spec (2 ^ 127) (of_le H)); cbn [coefficient]; modlia. }
  rewrite E2. destruct c; cbn [coefficient].
  - exists 1%N. rewrite pmul_1_r, pmul_1_l. apply N.bits_inj. intros k. change gcm_poly with (2 ^ 128 ⊕ reg_val poly). rewrite !N.lxor_spec.
    by destruct (N.testbit (2 ^ 128) k), (N.testbit (reg_val poly) k), (N.testbit (reg_val S) k).
  - change (reg_val _mm_setzero_si128) with 0%N. rewrite pmul_0_r. reflexivity.
Qed.

(** ** The powers and the sum *)

Section Key.
Context (h : N) (Hh : (h < 2 ^ 128)%N).

(** Multiplication by the hash key in the quotient, and the table: entry [i] is the
    power [i + 1] of the key, multiplied by [z]. *)
Definition key_factor : N := 2 ⊗ h ⊗ zinvs 128.
Definition key_power (i : nat) : N := Nat.iter i (pmul key_factor) 1%N.
Definition entry_ok (i : nat) (e : ptls_fusion_aesgcm_ghash_precompute) : Prop := pre_ok e /\ reg_val (pre_H e) ≃ 2 ⊗ h ⊗ key_power i.

Lemma entry_first H : block H -> reg_val H = h -> entry_ok 0 (mk_precompute (transformH H) (_mm_xor_si128 (_mm_shuffle_epi32 (transformH H) 78) (transformH H))).
Proof.
  intros HH E. destruct (transformH_spec H HH) as [Ht Et]. destruct (folded_half _ Ht) as [Hr Er]. split; [done|]. cbn [pre_H]. rewrite Et, E. change (key_power 0) with 1%N. ring.
Qed.

Lemma entry_next i e e0 :
  entry_ok i e -> entry_ok 0 e0 -> let H := gfmul (pre_H e) (pre_H e0) in entry_ok (S i) (mk_precompute H (_mm_xor_si128 (_mm_shuffle_epi32 H 78) H)).
Proof.
  intros [(He & _) Ee] [(H0 & _) E0] H. destruct (gfmul_spec _ _ He H0) as [HH EH]. destruct (folded_half _ HH) as [Hr Er]. split; [done|]. cbn [pre_H]. unfold H.
  rewrite EH, Ee, E0. change (key_power (S i)) with (key_factor ⊗ key_power i). change (key_power 0) with 1%N. unfold key_factor. ring.
Qed.

(** What the blocks contribute to the sum. *)
Fixpoint hash_sum (bs : list bytes) : N :=
  match bs with
  | [] => 0%N
  | b :: bs => Z.to_N (of_be b) ⊗ (2 ⊗ h ⊗ key_power (length bs)) ⊕ hash_sum bs
  end.

Lemma onestep_sum g b bs e :
  g_ok g -> block b -> entry_ok (length bs) e ->
  g_ok (gfmul_onestep g b e) /\ g_val (gfmul_onestep g b e) ⊕ hash_sum bs ≃ g_val g ⊕ hash_sum (b :: bs).
Proof. intros Hg Hb [He Ee]. destruct (onestep_spec g b e Hg Hb He) as [Hg' E]. split; [done|]. cbn [hash_sum]. rewrite E, Ee. ring. Qed.

Lemma ghash_sum Y bs :
  (Y < 2 ^ 128)%N -> Forall block bs ->
  exists W, foldl (fun Y B => gcm_mul (Z.lxor Y (of_be B)) (Z.of_N h)) (Z.of_N Y) bs = Z.of_N W /\ (W < 2 ^ 128)%N /\
    W ≃ Y ⊗ key_power (length bs) ⊕ hash_sum bs ⊗ zinvs 128.
Proof.
  intros HY Hbs. revert Y HY. induction Hbs as [|b bs Hb Hbs IH]; intros Y HY; cbn [foldl hash_sum length].
  - exists Y. split_and!; [done | done|]. change (key_power 0) with 1%N. ring.
  - destruct Hb as [Hl Hb]. pose proof (of_be_range b Hb) as R. rewrite Hl in R. change (2 ^ (8 * Z.of_nat 16)) with (2 ^ 128) in R.
    set (B := Z.to_N (of_be b)). replace (of_be b) with (Z.of_N B) by (unfold B; lia). rewrite <- N2Z.inj_lxor.
    assert (HB : (B < 2 ^ 128)%N) by (unfold B; lia).
    destruct (gcm_mul_product (Y ⊕ B) h (lxor_below _ _ _ HY HB) Hh) as (V & -> & HV & EV). destruct (IH V HV) as (W & -> & HW & EW). exists W. split_and!; [done | done|].
    rewrite EW, EV. change (key_power (S (length bs))) with (key_factor ⊗ key_power (length bs)). unfold key_factor at 1. ring.
Qed.

(** All blocks were added: the result is the hash, in the order of the octets of a block. *)
Lemma gfmul_ghash g X ek0 :
  g_ok g -> (length X mod 16 = 0)%nat -> is_bytes X -> block ek0 -> g_val g ≃ hash_sum (blocks_of 16 (length X / 16) X) ->
  gfmul_final g ek0 = zip_with Z.lxor (be 16 (GHASH (Z.of_N h) X)) ek0.
Proof.
  intros Hg HX Hb Hek E. destruct (reduce_spec g Hg) as [Hr Er]. unfold gfmul_final. rewrite bswap_rev by done. unfold _mm_xor_si128. f_equal.
  assert (Hbs : Forall block (blocks_of 16 (length X / 16) X)).
  { apply Forall_lookup. intros t b Ht. pose proof (lookup_lt_Some _ _ _ Ht) as Hlt. rewrite length_blocks_of in Hlt. rewrite blocks_of_lookup in Ht by done. injection Ht as <-.
    split; [|by apply Forall_take, Forall_drop]. rewrite length_take, length_drop. pose proof (Nat.div_mod (length X) 16 ltac:(lia)). nia. }
  destruct (ghash_sum 0 _ ltac:(done) Hbs) as (W & EW & HW & SW). unfold GHASH. change 0 with (Z.of_N 0). rewrite EW.
  assert (EV : reg_val (gfmul_reduce g) = W).
  { apply sim_unique; [by apply reg_bound | done|]. rewrite Er, E, SW. ring. }
  rewrite <- EV. unfold reg_val. destruct (rev_block _ Hr) as [Hlr Hbr]. pose proof (of_le_range _ (proj2 Hr)). rewrite Z2N.id by lia.
  rewrite <- (be_of_be (rev (gfmul_reduce g))) by done. rewrite Hlr. f_equal. rewrite <- of_le_rev by done. by rewrite rev_involutive.
Qed.
End Key.
