(* ===== verification/FusionGcm.v ===== *)
(** * FusionGcm: the AES-GCM loops of the fusion engine

    [ptls_fusion_aesgcm_new], [ptls_fusion_aesgcm_set_capacity],
    [ptls_fusion_aesgcm_encrypt] and [ptls_fusion_aesgcm_decrypt] of [src/lib/fusion.c],
    the code: six blocks of the key stream are computed at a time, each round of AES next
    to one multiplication of GHASH; the last of the six computes the mask of the tag and
    the fifth the supplementary block when they are free.  The local variables of a loop
    are a record; the labels are the results of the functions.  [FusionEncrypt] and
    [FusionDecrypt] have the proofs. *)
From stdpp Require Import gmap.
From S2P Require Import Prelude Limbs Bitops Blockwise Aes Gcm Gf2 Simd FusionLoad FusionAes FusionGhash.

(** ** Contexts *)

(** [None]: memory of the table that was not written. *)
Record ptls_fusion_aesgcm_context := mk_fgcm {
  fg_ecb : ptls_fusion_aesecb_context_t;
  fg_capacity : nat;
  fg_ghash_cnt : nat;
  fg_ghash : list (option ptls_fusion_aesgcm_ghash_precompute)
}.

Definition get_entry (ghash : list (option ptls_fusion_aesgcm_ghash_precompute)) (i : nat) : res ptls_fusion_aesgcm_ghash_precompute :=
  match ghash !! i with
  | None => Stuck OutOfBounds
  | Some None => Stuck Uninitialized
  | Some (Some e) => Ok e
  end.

(** The context behind [supp->ctx] ([None]: [bits] was not written), [supp->input] and the
    address of [supp->output] *)
Record ctr_context := mk_ctrc { ctr_fusion : ptls_fusion_aesecb_context_t; ctr_bits : option m128; ctr_is_ready : bool }.
Record ptls_aead_supplementary_encryption_t := mk_supp { supp_ctx : ctr_context; supp_input : Z; supp_output : Z }.

Definition aesgcm_calc_ghash_cnt (capacity : nat) : nat := ((capacity + 15) / 16 + 2)%nat.

(** The entry at [ghash_cnt]; its [H] was written before when it is the first. *)
Definition setup_one_ghash_entry (ctx : ptls_fusion_aesgcm_context) : res ptls_fusion_aesgcm_context :=
  let cnt := fg_ghash_cnt ctx in
  let! H :=
    if negb (cnt =? 0)%nat then
      let! prev := get_entry (fg_ghash ctx) (cnt - 1) in
      let! first := get_entry (fg_ghash ctx) 0 in
      Ok (gfmul (pre_H prev) (pre_H first))
    else let! first := get_entry (fg_ghash ctx) 0 in Ok (pre_H first) in
  let r := _mm_shuffle_epi32 H 78 in
  let r := _mm_xor_si128 r H in
  if (cnt <? length (fg_ghash ctx))%nat
  then Ok (mk_fgcm (fg_ecb ctx) (fg_capacity ctx) (S cnt) (<[cnt := Some (mk_precompute H r)]> (fg_ghash ctx)))
  else Stuck OutOfBounds.

(** [n] times *)
Fixpoint setup_entries (n : nat) (ctx : ptls_fusion_aesgcm_context) : res ptls_fusion_aesgcm_context :=
  match n with
  | O => Ok ctx
  | S n => let! ctx := setup_one_ghash_entry ctx in setup_entries n ctx
  end.

(** [memory]: whether [malloc] returns memory; [None] is [NULL]. The [r] of the first
    entry is not written yet when its [H] is. *)
Definition ptls_fusion_aesgcm_new (memory : bool) (key : bytes) (key_size capacity : nat) : res (option ptls_fusion_aesgcm_context) :=
  let ghash_cnt := aesgcm_calc_ghash_cnt capacity in
  if negb memory then Ok None
  else
    let! ecb := ptls_fusion_aesecb_init true key key_size in
    let! H := aesecb_encrypt ecb _mm_setzero_si128 in
    let H := _mm_shuffle_epi8 H bswap8 in
    let H := transformH H in
    let ghash := Some (mk_precompute H []) :: replicate (ghash_cnt - 1) None in
    let! ctx := setup_entries ghash_cnt (mk_fgcm ecb capacity 0 ghash) in
    Ok (Some ctx).

(** [while (ghash_cnt < ctx->ghash_cnt)] *)
Fixpoint capacity_loop (fuel ghash_cnt : nat) (ctx : ptls_fusion_aesgcm_context) : res ptls_fusion_aesgcm_context :=
  if (ghash_cnt <? fg_ghash_cnt ctx)%nat then
    match fuel with
    | O => Stuck OutOfFuel
    | S fuel => let! ctx := setup_one_ghash_entry ctx in capacity_loop fuel ghash_cnt ctx
    end
  else Ok ctx.
Definition ptls_fusion_aesgcm_set_capacity (memory : bool) (ctx : ptls_fusion_aesgcm_context) (capacity : nat) : res (option ptls_fusion_aesgcm_context) :=
  let ghash_cnt := aesgcm_calc_ghash_cnt capacity in
  if (ghash_cnt <=? fg_ghash_cnt ctx)%nat then Ok (Some ctx)
  else if negb memory then Ok None
  else
    let ghash := fg_ghash ctx ++ replicate (ghash_cnt - length (fg_ghash ctx)) None in
    let ctx := mk_fgcm (fg_ecb ctx) capacity (fg_ghash_cnt ctx) ghash in
    let! ctx := capacity_loop ghash_cnt ghash_cnt ctx in
    Ok (Some ctx).

(** [(int)len * 8] *)
Definition int_times_8 (len : nat) : res Z :=
  let x := signed32 (u32 (Z.of_nat len)) * 8 in
  if (- 2 ^ 31 <=? x) && (x <? 2 ^ 31) then Ok x else Stuck SignedOverflow.
Definition calc_ac (aadlen inlen : nat) : res m128 :=
  let! a := int_times_8 aadlen in
  let! c := int_times_8 inlen in
  Ok (_mm_shuffle_epi8 (_mm_set_epi32 0 a 0 c) bswap8).

(** ** Six blocks at a time, next to GHASH *)

(** An operation on the six blocks, the fifth with a key of its own *)
Definition bits_step (op : m128 -> m128 -> m128) (k k4 : m128) (bits : list m128) : list m128 :=
  imap (fun j b => op b (if (j =? 4)%nat then k4 else k)) bits.

(** The blocks fed into GHASH: in [gdatabuf], or in memory. *)
Inductive gdata_source := InBuffer | InMemory (p : Z).
Definition gdata_at (m : memory) (gdatabuf : list m128) (gdata : gdata_source) (j : nat) : res m128 :=
  match gdata with
  | InBuffer => match gdatabuf !! j with Some v => Ok v | None => Stuck Uninitialized end
  | InMemory p => _mm_loadu_si128 m (p + 16 * Z.of_nat j)
  end.

Section Six.
Context (ctx : ptls_fusion_aesgcm_context) (bits4keys : list m128).
Notation keys := (ecb_keys (fg_ecb ctx)).
Notation rounds := (ecb_rounds (fg_ecb ctx)).

Definition AESECB6_UPDATE (i : nat) (bits : list m128) : res (list m128) :=
  let! k := get_key keys i in
  let! k4 := get_key bits4keys i in
  Ok (bits_step _mm_aesenc_si128 k k4 bits).
Definition AESECB6_FINAL (i : nat) (bits : list m128) : res (list m128) :=
  let! k := get_key keys i in
  let! k4 := get_key bits4keys i in
  Ok (bits_step _mm_aesenclast_si128 k k4 bits).

(** [gfmul_onestep(&gstate, X, --ghash_precompute)] *)
Definition feed_one (X : m128) (gstate : ptls_fusion_gfmul_state) (ghash_precompute : nat) : res (ptls_fusion_gfmul_state * nat) :=
  match ghash_precompute with
  | O => Stuck OutOfBounds
  | S i => let! e := get_entry (fg_ghash ctx) i in Ok (gfmul_onestep gstate X e, i)
  end.
Fixpoint feed_all (Xs : list m128) (gstate : ptls_fusion_gfmul_state) (ghash_precompute : nat) : res (ptls_fusion_gfmul_state * nat) :=
  match Xs with
  | [] => Ok (gstate, ghash_precompute)
  | X :: Xs => let! '(gstate, ghash_precompute) := feed_one X gstate ghash_precompute in feed_all Xs gstate ghash_precompute
  end.

(** The first loop: [n] iterations from round [i] on, element [j] of [gdata] *)
Fixpoint run_both (m : memory) (gdatabuf : list m128) (gdata : gdata_source) (n i j : nat)
    (bits : list m128) (gstate : ptls_fusion_gfmul_state) (ghash_precompute : nat) : res (list m128 * ptls_fusion_gfmul_state * nat) :=
  match n with
  | O => Ok (bits, gstate, ghash_precompute)
  | S n =>
      let! bits := AESECB6_UPDATE i bits in
      let! X := gdata_at m gdatabuf gdata j in
      let! '(gstate, ghash_precompute) := feed_one X gstate ghash_precompute in
      run_both m gdatabuf gdata n (S i) (S j) bits gstate ghash_precompute
  end.
(** [for (; i < ctx->ecb.rounds; ++i)] *)
Fixpoint run_aes (n i : nat) (bits : list m128) : res (list m128) :=
  match n with
  | O => Ok bits
  | S n => let! bits := AESECB6_UPDATE i bits in run_aes n (S i) bits
  end.

(** Both loops and the last round; the first loop runs from round [i] on. *)
Definition run_aes_ghash (m : memory) (gdatabuf : list m128) (gdata : gdata_source) (gdata_cnt i : nat)
    (bits : list m128) (gstate : ptls_fusion_gfmul_state) (ghash_precompute : nat) : res (list m128 * ptls_fusion_gfmul_state * nat) :=
  let! '(bits, gstate, ghash_precompute) := run_both m gdatabuf gdata gdata_cnt i 0 bits gstate ghash_precompute in
  let i := (i + gdata_cnt)%nat in
  let! bits := run_aes (rounds - i) i bits in
  let! bits := AESECB6_FINAL (Nat.max i rounds) bits in
  Ok (bits, gstate, ghash_precompute).
End Six.

(** [_mm_storeu_si128(dst + i, _mm_xor_si128(_mm_loadu_si128(src + i), bits##i))] for each *)
Fixpoint apply_all (bits : list m128) (m : memory) (src dst : Z) : res memory :=
  match bits with
  | [] => Ok m
  | b :: bits =>
      let! v := _mm_loadu_si128 m src in
      let! m := _mm_storeu_si128 m dst (_mm_xor_si128 v b) in
      apply_all bits m (src + 16) (dst + 16)
  end.

(** ** Encryption *)

Definition STATE_EK0_BEEN_FED : Z := 0x3.
Definition STATE_EK0_INCOMPLETE : Z := 0x2.
Definition STATE_EK0_READY (state : Z) : bool := Z.land state STATE_EK0_BEEN_FED =? 0x1.
Definition STATE_SUPP_USED : Z := 0x4.
Definition STATE_SUPP_IN_PROCESS : Z := 0x8.

Record enc_vars := mk_enc {
  e_mem : memory;
  e_ctr : m128;
  e_ek0 : m128;
  e_bits : list m128;
  e_bits4keys : list m128;
  e_gstate : ptls_fusion_gfmul_state;
  e_gdatabuf : list m128;
  e_gdata : gdata_source;
  e_gdata_cnt : nat;
  e_src : Z;
  e_dst : Z;
  e_srclen : nat;
  e_aad : Z;
  e_aadlen : nat;
  e_dst_ghash : Z;
  e_dst_ghashlen : nat;
  e_ghash_precompute : nat;
  e_state : Z
}.
#[export] Instance eta_enc : Eta enc_vars := fun s => mk_enc (e_mem s) (e_ctr s) (e_ek0 s) (e_bits s) (e_bits4keys s) (e_gstate s) (e_gdatabuf s) (e_gdata s)
  (e_gdata_cnt s) (e_src s) (e_dst s) (e_srclen s) (e_aad s) (e_aadlen s) (e_dst_ghash s) (e_dst_ghashlen s) (e_ghash_precompute s) (e_state s).

Section Encrypt.
Context (ctx : ptls_fusion_aesgcm_context) (supp : option ptls_aead_supplementary_encryption_t).
Notation keys := (ecb_keys (fg_ecb ctx)).
Notation rounds := (ecb_rounds (fg_ecb ctx)).

(** [ctr = _mm_add_epi64(ctr, one8); bits = _mm_shuffle_epi8(ctr, bswap8)], [n] times *)
Fixpoint next_counters (n : nat) (ctr : m128) : list m128 * m128 :=
  match n with
  | O => ([], ctr)
  | S n =>
      let ctr := _mm_add_epi64 ctr one8 in
      let '(rest, last) := next_counters n ctr in
      (_mm_shuffle_epi8 ctr bswap8 :: rest, last)
  end.

(** The last two slots, when they are not needed for data. *)
Definition init_ek0 (s : enc_vars) : enc_vars :=
  if Z.land (e_state s) STATE_EK0_BEEN_FED =? 0
  then s <| e_bits := <[5%nat := e_ek0 s]> (e_bits s) |> <| e_state := Z.lor (e_state s) STATE_EK0_BEEN_FED |>
  else s.
Definition init_supp (s : enc_vars) : res enc_vars :=
  if negb (Z.land (e_state s) STATE_SUPP_USED =? 0) && (e_srclen s <=? 16 * 4)%nat then
    match supp with
    | None => Stuck NullDeref
    | Some sp =>
        if supp_input sp + 16 <=? e_dst_ghash s then
          let! v := _mm_loadu_si128 (e_mem s) (supp_input sp) in
          Ok (s <| e_bits := <[4%nat := v]> (e_bits s) |> <| e_bits4keys := ecb_keys (ctr_fusion (supp_ctx sp)) |>
                <| e_state := Z.lor (e_state s) STATE_SUPP_IN_PROCESS |>)
        else Ok s
    end
  else Ok s.

Definition AESECB6_INIT (s : enc_vars) : res enc_vars :=
  let '(bits, ctr) := next_counters 5 (e_ctr s) in
  let s := s <| e_bits := bits ++ drop 5 (e_bits s) |> <| e_ctr := ctr |> in
  let! s :=
    if (16 * 5 <? e_srclen s)%nat then
      let ctr := _mm_add_epi64 (e_ctr s) one8 in
      Ok (s <| e_ctr := ctr |> <| e_bits := <[5%nat := _mm_shuffle_epi8 ctr bswap8]> (e_bits s) |>)
    else init_supp (init_ek0 s) in
  let! k := get_key keys 0 in
  let! k4 := get_key (e_bits4keys s) 0 in
  Ok (s <| e_bits := bits_step _mm_xor_si128 k k4 (e_bits s) |>).

(** The second [APPLY]: the memory, [src], [dst] and [srclen] at [ApplyEnd] *)
Fixpoint apply_rest (bits : list m128) (m : memory) (src dst : Z) (srclen : nat) : res (memory * Z * Z * nat) :=
  match bits with
  | [] => Ok (m, src, dst, srclen)
  | b :: bits =>
      if (16 <=? srclen)%nat then
        let! v := _mm_loadu_si128 m src in
        let! m := _mm_storeu_si128 m dst (_mm_xor_si128 v b) in
        apply_rest bits m (src + 16) (dst + 16) (srclen - 16)
      else if negb (srclen =? 0)%nat then
        let! v := loadn m src srclen in
        let! m := storen m dst srclen (_mm_xor_si128 v b) in
        Ok (m, src, dst + Z.of_nat srclen, 0%nat)
      else Ok (m, src, dst, srclen)
  end.

Definition enc_apply (s : enc_vars) : res enc_vars :=
  if (6 * 16 <=? e_srclen s)%nat then
    let! m := apply_all (e_bits s) (e_mem s) (e_src s) (e_dst s) in
    Ok (s <| e_mem := m |> <| e_dst := e_dst s + 96 |> <| e_src := e_src s + 96 |> <| e_srclen := (e_srclen s - 96)%nat |>)
  else
    let s :=
      if Z.land (e_state s) STATE_EK0_BEEN_FED =? STATE_EK0_BEEN_FED
      then s <| e_ek0 := e_bits s !!! 5%nat |> <| e_state := Z.land (e_state s) (Z.lnot STATE_EK0_INCOMPLETE) |>
      else s in
    let! s :=
      if negb (Z.land (e_state s) STATE_SUPP_IN_PROCESS =? 0) then
        match supp with
        | None => Stuck NullDeref
        | Some sp =>
            let! m := _mm_storeu_si128 (e_mem s) (supp_output sp) (e_bits s !!! 4%nat) in
            Ok (s <| e_mem := m |> <| e_state := Z.land (e_state s) (Z.lnot (Z.lor STATE_SUPP_USED STATE_SUPP_IN_PROCESS)) |>)
        end
      else Ok s in
    let! '(m, src, dst, srclen) := apply_rest (e_bits s) (e_mem s) (e_src s) (e_dst s) (e_srclen s) in
    Ok (s <| e_mem := m |> <| e_src := src |> <| e_dst := dst |> <| e_srclen := srclen |>).

(** From [GdataFillDST] on: [true] is [goto Finish]. *)
Definition fill_dst (s : enc_vars) : res (bool * enc_vars) :=
  let! '(stopped, p, len, buf) := fill (6 - length (e_gdatabuf s)) (e_mem s) (e_dst_ghash s) (e_dst_ghashlen s) (e_gdatabuf s) in
  let s := s <| e_gdatabuf := buf |> <| e_gdata_cnt := length buf |> <| e_dst_ghash := p |> <| e_dst_ghashlen := len |> in
  if stopped && (length buf <? 6)%nat then Ok (true, s) else Ok (false, s <| e_gdata := InBuffer |>).

Definition setup_gdata (s : enc_vars) : res (bool * enc_vars) :=
  if negb (e_aadlen s =? 0)%nat then
    let! '(stopped, p, len, buf) := fill 6 (e_mem s) (e_aad s) (e_aadlen s) [] in
    let s := s <| e_gdatabuf := buf |> <| e_gdata_cnt := length buf |> <| e_aad := p |> <| e_aadlen := len |> in
    if stopped then fill_dst s else Ok (false, s <| e_gdata := InBuffer |>)
  else if (6 * 16 <=? e_dst_ghashlen s)%nat then
    Ok (false, s <| e_gdata := InMemory (e_dst_ghash s) |> <| e_gdata_cnt := 6%nat |> <| e_dst_ghash := e_dst_ghash s + 96 |>
                 <| e_dst_ghashlen := (e_dst_ghashlen s - 96)%nat |>)
  else fill_dst (s <| e_gdatabuf := [] |> <| e_gdata_cnt := 0%nat |>).

(** The main loop; the variables at [Finish] *)
Fixpoint enc_loop (fuel : nat) (s : enc_vars) : res enc_vars :=
  match fuel with
  | O => Stuck OutOfFuel
  | S fuel =>
      let! '(bits, gstate, pre) :=
        run_aes_ghash ctx (e_bits4keys s) (e_mem s) (e_gdatabuf s) (e_gdata s) (e_gdata_cnt s) 2 (e_bits s) (e_gstate s) (e_ghash_precompute s) in
      let! s := enc_apply (s <| e_bits := bits |> <| e_gstate := gstate |> <| e_ghash_precompute := pre |>) in
      let! s := AESECB6_INIT s in
      let! bits := AESECB6_UPDATE ctx (e_bits4keys s) 1 (e_bits s) in
      let s := s <| e_bits := bits |> in
      let! '(finish, s) := setup_gdata s in
      if finish then Ok s else enc_loop fuel s
  end.

(** The supplementary block, at the end *)
Definition finish_supp (s : enc_vars) : res memory :=
  if negb (Z.land (e_state s) STATE_SUPP_USED =? 0) then
    match supp with
    | None => Stuck NullDeref
    | Some sp =>
        let! '(bits4keys, bits4, i) :=
          if Z.land (e_state s) STATE_SUPP_IN_PROCESS =? 0 then
            let bits4keys := ecb_keys (ctr_fusion (supp_ctx sp)) in
            let! v := _mm_loadu_si128 (e_mem s) (supp_input sp) in
            let! k := get_key bits4keys 0 in
            Ok (bits4keys, _mm_xor_si128 v k, 1%nat)
          else Ok (e_bits4keys s, e_bits s !!! 4%nat, 2%nat) in
        let! bits4 := aesenc_rounds bits4keys (rounds - i) i bits4 in
        let! k := get_key bits4keys rounds in
        _mm_storeu_si128 (e_mem s) (supp_output sp) (_mm_aesenclast_si128 bits4 k)
    end
  else Ok (e_mem s).

(** The slots hold nothing before the first [AESECB6_INIT], but for [bits5]. *)
Definition enc_start (m : memory) (output input : Z) (inlen : nat) (ctr : m128) (aad : Z) (aadlen : nat) : enc_vars :=
  let ctr := _mm_insert_epi32 ctr 1 0 in
  mk_enc m ctr (_mm_shuffle_epi8 ctr bswap8) (replicate 6 _mm_setzero_si128) keys gfmul_zero [] InBuffer 0 input output inlen aad aadlen output inlen
    ((aadlen + 15) / 16 + (inlen + 15) / 16 + 1) (match supp with Some _ => STATE_SUPP_USED | None => 0 end).

Definition ptls_fusion_aesgcm_encrypt (m : memory) (output input : Z) (inlen : nat) (ctr : m128) (aad : Z) (aadlen : nat) : res memory :=
  let! ac := calc_ac aadlen inlen in
  let! s := AESECB6_INIT (enc_start m output input inlen ctr aad aadlen) in
  let! bits := AESECB6_UPDATE ctx (e_bits4keys s) 1 (e_bits s) in
  let s := s <| e_bits := bits |> in
  let! s :=
    if negb (aadlen =? 0)%nat then
      let! '(_, p, len, buf) := fill 6 (e_mem s) (e_aad s) (e_aadlen s) [] in
      Ok (s <| e_gdatabuf := buf |> <| e_gdata_cnt := length buf |> <| e_aad := p |> <| e_aadlen := len |>)
    else Ok s in
  let! s := enc_loop (S (aadlen + inlen)) s in
  let! gdatabuf := if (length (e_gdatabuf s) <? 6)%nat then Ok (e_gdatabuf s ++ [ac]) else Stuck OutOfBounds in
  let! _ := c_assert (STATE_EK0_READY (e_state s)) in
  let! '(gstate, _) := feed_all ctx gdatabuf (e_gstate s) (e_ghash_precompute s) in
  let! m := _mm_storeu_si128 (e_mem s) (e_dst s) (gfmul_final gstate (e_ek0 s)) in
  finish_supp (s <| e_mem := m |>).
End Encrypt.

(** ** Decryption *)

Definition STATE_IS_FIRST_RUN : Z := 0x1.
Definition STATE_GHASH_HAS_MORE : Z := 0x2.

Record dec_vars := mk_dec {
  d_mem : memory;
  d_ctr : m128;
  d_ek0 : m128;
  d_bits : list m128;
  d_gstate : ptls_fusion_gfmul_state;
  d_gdatabuf : list m128;
  d_gdata : gdata_source;
  d_gdata_cnt : nat;
  d_src_ghash : Z;
  d_src_ghashlen : nat;
  d_src_aes : Z;
  d_src_aeslen : nat;
  d_dst : Z;
  d_aad : Z;
  d_aadlen : nat;
  d_nondata_aes_cnt : nat;
  d_ghash_precompute : nat;
  d_state : Z
}.
#[export] Instance eta_dec : Eta dec_vars := fun s => mk_dec (d_mem s) (d_ctr s) (d_ek0 s) (d_bits s) (d_gstate s) (d_gdatabuf s) (d_gdata s)
  (d_gdata_cnt s) (d_src_ghash s) (d_src_ghashlen s) (d_src_aes s) (d_src_aeslen s) (d_dst s) (d_aad s) (d_aadlen s) (d_nondata_aes_cnt s) (d_ghash_precompute s) (d_state s).

Section Decrypt.
Context (ctx : ptls_fusion_aesgcm_context) (ac : m128).
Notation keys := (ecb_keys (fg_ecb ctx)).

(** From [GdataFillSrc] on *)
Definition fill_src (s : dec_vars) : res dec_vars :=
  let! '(stopped, p, len, buf) := fill (6 - length (d_gdatabuf s)) (d_mem s) (d_src_ghash s) (d_src_ghashlen s) (d_gdatabuf s) in
  let p := if stopped then d_src_ghash s + Z.of_nat (d_src_ghashlen s) else p in
  let s := s <| d_gdatabuf := buf |> <| d_gdata_cnt := length buf |> <| d_src_ghash := p |> <| d_src_ghashlen := len |> in
  if stopped && (length buf <? 6)%nat && negb (Z.land (d_state s) STATE_GHASH_HAS_MORE =? 0)
  then Ok (s <| d_gdatabuf := buf ++ [ac] |> <| d_gdata_cnt := S (length buf) |> <| d_state := Z.land (d_state s) (Z.lnot STATE_GHASH_HAS_MORE) |>)
  else Ok s.

Definition dec_setup_gdata (s : dec_vars) : res dec_vars :=
  if negb (d_aadlen s =? 0)%nat then
    let! '(stopped, p, len, buf) := fill 6 (d_mem s) (d_aad s) (d_aadlen s) [] in
    let s := s <| d_gdata := InBuffer |> <| d_gdatabuf := buf |> <| d_gdata_cnt := length buf |> <| d_aad := p |> <| d_aadlen := len |>
               <| d_nondata_aes_cnt := (d_nondata_aes_cnt s + length buf)%nat |> in
    if stopped then fill_src s else Ok s
  else if (6 * 16 <=? d_src_ghashlen s)%nat then
    Ok (s <| d_gdata := InMemory (d_src_ghash s) |> <| d_gdata_cnt := 6%nat |> <| d_src_ghash := d_src_ghash s + 96 |>
          <| d_src_ghashlen := (d_src_ghashlen s - 96)%nat |>)
  else fill_src (s <| d_gdata := InBuffer |> <| d_gdatabuf := [] |> <| d_gdata_cnt := 0%nat |>).

(** [InitAllBits], from the case of [nondata_aes_cnt] on; there is none above 5. *)
Definition dec_init_bits (s : dec_vars) : res dec_vars :=
  if (5 <? d_nondata_aes_cnt s)%nat then Ok s
  else
    let '(blocks, ctr) := next_counters (6 - d_nondata_aes_cnt s) (d_ctr s) in
    let! k := get_key keys 0 in
    Ok (s <| d_ctr := ctr |> <| d_bits := take (d_nondata_aes_cnt s) (d_bits s) ++ map (fun b => _mm_xor_si128 b k) blocks |>).

(** The second [APPLY]: [Some bits0] is [goto Finish]. *)
Fixpoint dec_apply_rest (bits : list m128) (m : memory) (src dst : Z) (srclen : nat) : res (memory * Z * Z * nat * option m128) :=
  match bits with
  | [] => Ok (m, src, dst, srclen, None)
  | b :: bits =>
      if (16 <? srclen)%nat then
        let! v := _mm_loadu_si128 m src in
        let! m := _mm_storeu_si128 m dst (_mm_xor_si128 v b) in
        dec_apply_rest bits m (src + 16) (dst + 16) (srclen - 16)
      else Ok (m, src, dst, srclen, Some b)
  end.

Definition dec_apply (s : dec_vars) : res (dec_vars * option m128) :=
  if (d_nondata_aes_cnt s =? 0)%nat && (6 * 16 <=? d_src_aeslen s)%nat then
    let! m := apply_all (d_bits s) (d_mem s) (d_src_aes s) (d_dst s) in
    Ok (s <| d_mem := m |> <| d_dst := d_dst s + 96 |> <| d_src_aes := d_src_aes s + 96 |> <| d_src_aeslen := (d_src_aeslen s - 96)%nat |>, None)
  else
    let s :=
      if negb (Z.land (d_state s) STATE_IS_FIRST_RUN =? 0)
      then s <| d_ek0 := d_bits s !!! 0%nat |> <| d_state := Z.land (d_state s) (Z.lnot STATE_IS_FIRST_RUN) |>
      else s in
    let! '(m, src, dst, srclen, finish) := dec_apply_rest (drop (d_nondata_aes_cnt s) (d_bits s)) (d_mem s) (d_src_aes s) (d_dst s) (d_src_aeslen s) in
    let s := s <| d_mem := m |> <| d_src_aes := src |> <| d_dst := dst |> <| d_src_aeslen := srclen |> in
    match finish with
    | Some bits0 => Ok (s, Some bits0)
    | None => Ok (s <| d_nondata_aes_cnt := 0%nat |>, None)
    end.

(** The main loop; the variables and [bits0] at [Finish] *)
Fixpoint dec_loop (fuel : nat) (s : dec_vars) : res (dec_vars * m128) :=
  match fuel with
  | O => Stuck OutOfFuel
  | S fuel =>
      let! s := dec_setup_gdata s in
      let! s := dec_init_bits s in
      let! '(bits, gstate, pre) :=
        run_aes_ghash ctx keys (d_mem s) (d_gdatabuf s) (d_gdata s) (d_gdata_cnt s) 1 (d_bits s) (d_gstate s) (d_ghash_precompute s) in
      let! '(s, finish) := dec_apply (s <| d_bits := bits |> <| d_gstate := gstate |> <| d_ghash_precompute := pre |>) in
      match finish with
      | Some bits0 => Ok (s, bits0)
      | None => dec_loop fuel s
      end
  end.

(** The last octets *)
Definition dec_finish_text (s : dec_vars) (bits0 : m128) : res memory :=
  if (d_src_aeslen s =? 16)%nat then
    let! v := _mm_loadu_si128 (d_mem s) (d_src_aes s) in
    _mm_storeu_si128 (d_mem s) (d_dst s) (_mm_xor_si128 v bits0)
  else if negb (d_src_aeslen s =? 0)%nat then
    let! v := loadn (d_mem s) (d_src_aes s) (d_src_aeslen s) in
    storen (d_mem s) (d_dst s) (d_src_aeslen s) (_mm_xor_si128 v bits0)
  else Ok (d_mem s).

Definition dec_start (m : memory) (output input : Z) (inlen : nat) (ctr : m128) (aad : Z) (aadlen : nat) : res dec_vars :=
  let ctr := _mm_add_epi64 ctr one8 in
  let! k := get_key keys 0 in
  Ok (mk_dec m ctr _mm_setzero_si128 (_mm_xor_si128 (_mm_shuffle_epi8 ctr bswap8) k :: replicate 5 _mm_setzero_si128) gfmul_zero [] InBuffer 0
        input inlen input inlen output aad aadlen 1 ((aadlen + 15) / 16 + (inlen + 15) / 16 + 1) (Z.lor STATE_IS_FIRST_RUN STATE_GHASH_HAS_MORE)).
End Decrypt.

(** The memory, and the result *)
Definition ptls_fusion_aesgcm_decrypt (ctx : ptls_fusion_aesgcm_context) (m : memory) (output input : Z) (inlen : nat) (ctr : m128)
    (aad : Z) (aadlen : nat) (tag : Z) : res (memory * bool) :=
  let! ac := calc_ac aadlen inlen in
  let! s := dec_start ctx m output input inlen ctr aad aadlen in
  let! '(s, bits0) := dec_loop ctx ac (S (S (aadlen + inlen))) s in
  let! m := dec_finish_text s bits0 in
  let! _ := c_assert (Z.land (d_state s) STATE_IS_FIRST_RUN =? 0) in
  let! gstate :=
    if negb (Z.land (d_state s) STATE_GHASH_HAS_MORE =? 0) then
      let! _ := c_assert (d_ghash_precompute s =? 1)%nat in
      let! '(gstate, _) := feed_one ctx ac (d_gstate s) (d_ghash_precompute s) in
      Ok gstate
    else Ok (d_gstate s) in
  let calctag := gfmul_final gstate (d_ek0 s) in
  let! t := _mm_loadu_si128 m tag in
  Ok (m, _mm_movemask_epi8 (_mm_cmpeq_epi8 calctag t) =? 0xffff).
