(* ===== verification/FusionCore.v ===== *)
(** * FusionCore: what encryption and decryption of the fusion engine share

    Counter blocks in a register, the key stream block by block, the blocks that GHASH is
    fed with, the lanes of six blocks that go through the rounds of AES together, and the
    table of powers that [ptls_fusion_aesgcm_new] builds ([fusion_new_spec]). *)
From stdpp Require Import gmap.
From S2P Require Import Prelude Limbs Bitops Blockwise Aes Ctr Gcm Gf2 Simd FusionLoad FusionAes FusionGhash FusionGcm.

(** ** Counters *)

Section Counter.
Context (nonce : bytes).
Hypotheses (Hln : length nonce = 12%nat) (Hbn : is_bytes nonce).

(** Counter block [k], and the register that holds it. *)
Definition cblock (k : nat) : bytes := nonce ++ be 4 (Z.of_nat k).
Definition creg (k : nat) : m128 := le 4 (Z.of_nat k) ++ rev nonce.

Lemma rev_le n v : rev (le n v) = be n v.
Proof.
  rewrite <- (be_of_be (rev (le n v))) by (apply Forall_rev, le_bytes). rewrite length_rev, length_le.
  rewrite <- of_le_rev by (apply Forall_rev, le_bytes). by rewrite rev_involutive, of_le_le, be_mod.
Qed.

Lemma cblock_block k : block (cblock k).
Proof using Hln Hbn. split; [unfold cblock; rewrite length_app, length_be; lia | apply Forall_app_2; [done | apply be_bytes]]. Qed.
Lemma creg_block k : block (creg k).
Proof using Hln Hbn. split; [unfold creg; rewrite length_app, length_le, length_rev; lia | apply Forall_app_2; [apply le_bytes | by apply Forall_rev]]. Qed.

Lemma creg_swap k : _mm_shuffle_epi8 (creg k) bswap8 = cblock k.
Proof using Hln Hbn. rewrite bswap_rev by apply creg_block. unfold creg, cblock. by rewrite rev_app_distr, rev_involutive, rev_le. Qed.

Lemma creg_next k : Z.of_nat (S k) < 2 ^ 32 -> _mm_add_epi64 (creg k) one8 = creg (S k).
Proof using Hln Hbn.
  intros Hk. assert (Hr : length (rev nonce) = 12%nat) by (by rewrite length_rev). assert (Hy : is_bytes (rev nonce)) by (by apply Forall_rev).
  unfold creg. set (r := rev nonce) in *. clearbody r. set (x := take 4 r). set (y := drop 4 r).
  assert (Er : r = x ++ y) by (unfold x, y; by rewrite take_drop). assert (Lx : length x = 4%nat) by (unfold x; rewrite length_take; lia). assert (Ly : length y = 8%nat) by (unfold y; rewrite length_drop; lia).
  assert (Hx : is_bytes x) by (by apply Forall_take). assert (Hyy : is_bytes y) by (by apply Forall_drop). rewrite Er. clearbody x y.
  pose proof (of_le_range x Hx) as Rx. rewrite Lx in Rx. change (2 ^ (8 * Z.of_nat 4)) with (2 ^ 32) in Rx.
  unfold _mm_add_epi64, qword. change (8 * 0)%nat with 0%nat. change (8 * 1)%nat with 8%nat. rewrite !drop_0.
  assert (Eq : forall v, take 8 (le 4 v ++ x ++ y) = le 4 v ++ x /\ drop 8 (le 4 v ++ x ++ y) = y).
  { intros v. rewrite app_assoc. rewrite take_app_length', drop_app_length' by (rewrite length_app, length_le; lia). done. }
  destruct (Eq (Z.of_nat k)) as [-> ->]. rewrite (take_ge y) by lia. change (of_le (take 8 one8)) with 1. change (of_le (take 8 (drop 8 one8))) with 0.
  rewrite Z.add_0_r, of_le_app, length_le, of_le_le. change (2 ^ (8 * Z.of_nat 4)) with (2 ^ 32). rewrite Z.mod_small by lia.
  unfold of_qwords, u64. pose proof (of_le_range y Hyy) as Ry. rewrite Ly in Ry. change (2 ^ (8 * Z.of_nat 8)) with (2 ^ 64) in Ry.
  rewrite !Z.mod_small by lia. rewrite app_assoc. f_equal; [|rewrite <- Ly; by apply le_of_le].
  rewrite <- (le_of_le (le 4 (Z.of_nat (S k)) ++ x)) by (apply Forall_app_2; [apply le_bytes | done]). rewrite length_app, length_le, Lx. f_equal.
  rewrite of_le_app, length_le, of_le_le. change (2 ^ (8 * Z.of_nat 4)) with (2 ^ 32). rewrite Z.mod_small by lia. lia.
Qed.

Lemma creg_insert ctr k : drop 4 ctr = rev nonce -> _mm_insert_epi32 ctr (Z.of_nat k) 0 = creg k.
Proof. intros H. unfold _mm_insert_epi32, creg. change (4 * 0)%nat with 0%nat. cbn [take app Nat.add]. by rewrite H. Qed.

Lemma counters_spec n k :
  Z.of_nat (k + n) < 2 ^ 32 -> next_counters n (creg k) = (map cblock (seq (S k) n), creg (k + n)).
Proof using Hln Hbn.
  revert k. induction n as [|n IH]; intros k Hk; cbn [next_counters seq map]; [by rewrite Nat.add_0_r|].
  rewrite creg_next by lia. rewrite (IH (S k)), creg_swap by lia. do 2 f_equal. lia.
Qed.

(** ** The key stream *)

Lemma J0_cblock (E : bytes -> bytes) : gcm_J0 E nonce = cblock 1.
Proof using Hln. unfold gcm_J0. by rewrite Hln. Qed.

Lemma crypt_piece E text k n :
  (forall x, block x -> block (E x)) -> is_bytes text -> (16 * k + n <= length text)%nat -> (n <= 16)%nat ->
  take n (drop (16 * k) (gcm_crypt E nonce text)) = zip_with Z.lxor (take n (drop (16 * k) text)) (E (cblock (k + 2))).
Proof using Hln Hbn.
  intros HE Ht Hk Hn. destruct (HE (cblock (k + 2)) (cblock_block _)) as [HEl HEb]. apply list_eq. intros i. destruct (decide (i < n)%nat) as [Hi|Hi].
  - rewrite lookup_take_lt, lookup_drop by done. unfold gcm_crypt, xor_stream. rewrite list_lookup_imap.
    destruct (lookup_lt_is_Some_2 text (16 * k + i) ltac:(lia)) as [b Hb]. destruct (lookup_lt_is_Some_2 (E (cblock (k + 2))) i ltac:(lia)) as [c Hc].
    rewrite lookup_zip_with, lookup_take_lt, lookup_drop, Hb, Hc by done. cbn [fmap option_fmap option_map mbind option_bind]. f_equal. rewrite J0_cblock. unfold ctr_stream, keystream.
    replace (16 + (16 * k + i))%nat with (i + (k + 1) * 16)%nat by lia. rewrite Nat.div_add, Nat.Div0.mod_add, Nat.div_small, Nat.mod_small by lia. cbn [Nat.add].
    assert (Ec : counter_block (cblock 1) 12 4 (k + 1) = cblock (k + 2)).
    { rewrite counter_split by (done || apply cblock_block). unfold cblock. rewrite take_app_length', drop_app_length' by done. f_equal. f_equal. change (of_be (be 4 (Z.of_nat 1))) with 1. lia. }
    rewrite Ec, Hc. cbn [default]. apply u8_id, lxor_byte; [by apply (Forall_lookup_1 _ _ _ _ Ht Hb) | by apply (Forall_lookup_1 _ _ _ _ HEb Hc)].
  - rewrite !(lookup_ge_None_2 _ i); [done | rewrite length_zip_with, length_take; lia | rewrite length_take; lia].
Qed.
End Counter.

(** ** What GHASH is fed with *)

Definition auth_blocks (a c : bytes) : list bytes := pblocks a ++ pblocks c ++ [gcm_lengths a c].

Lemma concat_blocks n x : length x = (16 * n)%nat -> concat (blocks_of 16 n x) = x.
Proof.
  revert x. induction n as [|n IH]; intros x Hx; [by destruct x|]. cbn [blocks_of concat]. rewrite IH by (rewrite length_drop; lia). apply take_drop.
Qed.
Lemma concat_pblocks x : concat (pblocks x) = x ++ gcm_pad x.
Proof.
  unfold pblocks. apply concat_blocks. rewrite length_app. unfold gcm_pad. rewrite length_replicate.
  pose proof (Nat.div_mod (length x) 16 ltac:(lia)) as D. pose proof (Nat.mod_upper_bound (length x) 16 ltac:(lia)) as M.
  set (q := (length x / 16)%nat) in *. set (r := (length x mod 16)%nat) in *. destruct (decide (r = 0)%nat) as [E|E].
  - rewrite E in *. change ((16 - 0) mod 16)%nat with 0%nat. rewrite D. replace (16 * q + 0 + 15)%nat with (15 + q * 16)%nat by lia. rewrite Nat.div_add by lia. change (15 / 16)%nat with 0%nat. lia.
  - rewrite (Nat.mod_small (16 - r)) by lia. rewrite D. replace (16 * q + r + 15)%nat with (r - 1 + (q + 1) * 16)%nat by lia. rewrite Nat.div_add, (Nat.div_small (r - 1)) by lia. lia.
Qed.

Lemma lengths_block a c : block (gcm_lengths a c).
Proof. split; [unfold gcm_lengths; by rewrite length_app, !length_be | apply Forall_app_2; apply be_bytes]. Qed.
Lemma auth_blocks_block a c : is_bytes a -> is_bytes c -> Forall block (auth_blocks a c).
Proof. intros Ha Hc. repeat apply Forall_app_2; [by apply pblocks_block | by apply pblocks_block | constructor; [apply lengths_block | constructor]]. Qed.

Lemma auth_data_blocks a c :
  is_bytes a -> is_bytes c ->
  let X := gcm_auth_data a c in (length X mod 16 = 0)%nat /\ is_bytes X /\ blocks_of 16 (length X / 16) X = auth_blocks a c.
Proof.
  intros Ha Hc X. pose proof (auth_blocks_block a c Ha Hc) as Hf.
  assert (EX : X = concat (auth_blocks a c)) by (unfold X, gcm_auth_data, auth_blocks; rewrite !concat_app, !concat_pblocks; cbn [concat]; by rewrite app_nil_r, <- !app_assoc).
  assert (HX : length X = (length (auth_blocks a c) * 16)%nat).
  { rewrite EX. clear -Hf. induction Hf as [|b bs [Hl _] Hbs IH]; [done|]. cbn [concat length]. rewrite length_app, IH, Hl. lia. }
  rewrite HX, Nat.Div0.mod_mul, Nat.div_mul by lia. split_and!; [done | |].
  - rewrite EX. clear -Hf. induction Hf as [|b bs [_ Hb] Hbs IH]; [constructor|]. by apply Forall_app_2.
  - rewrite EX, <- (app_nil_r (concat _)). apply blocks_of_concat. eapply List.Forall_impl; [|exact Hf]. by intros b [Hl _].
Qed.

Lemma int_times_8_ok n : Z.of_nat n < 2 ^ 28 -> int_times_8 n = Ok (8 * Z.of_nat n).
Proof.
  intros Hn. unfold int_times_8, u32, signed32. rewrite Z.mod_small by lia. rewrite (proj2 (Z.ltb_lt _ _)) by lia.
  rewrite (proj2 (Z.leb_le _ _)), (proj2 (Z.ltb_lt _ _)) by lia. cbn [andb]. f_equal. lia.
Qed.

Lemma calc_ac_spec (a c : bytes) : Z.of_nat (length a) < 2 ^ 28 -> Z.of_nat (length c) < 2 ^ 28 -> calc_ac (length a) (length c) = Ok (gcm_lengths a c).
Proof.
  intros Ha Hc. unfold calc_ac. rewrite !int_times_8_ok by done. cbn [res_bind]. f_equal. set (x := 8 * Z.of_nat (length a)). set (y := 8 * Z.of_nat (length c)).
  rewrite bswap_rev by (unfold _mm_set_epi32; split; [by rewrite !length_app, !length_le | repeat apply Forall_app_2; apply le_bytes]).
  unfold _mm_set_epi32, gcm_lengths. fold x y. rewrite !rev_app_distr, !rev_le. change (be 8 ?v) with (be (4 + 4) v). rewrite !be_app.
  rewrite !Z.shiftr_div_pow2, !Z.div_small by (unfold x, y; change (8 * Z.of_nat 4) with 32; lia). by rewrite <- !app_assoc.
Qed.

(** ** Six blocks at a time *)

Section Lanes.
Context (key key4 : bytes) (ecb ecb4 : ptls_fusion_aesecb_context_t).
Hypotheses (Hready : ecb_ready key ecb) (Hready4 : ecb_ready key4 ecb4) (Hsame : length key4 = length key).
Notation nr := (fips_rounds (length key)).
Definition lane_key (j : nat) : bytes := if (j =? 4)%nat then key4 else key.
Lemma lane_cases j : lane_key j = key4 /\ (j =? 4)%nat = true \/ lane_key j = key /\ (j =? 4)%nat = false.
Proof. unfold lane_key. destruct (j =? 4)%nat; auto. Qed.

(** Lane [j] works on block [x] and is behind round [r]. *)
Definition inflight (r : nat) (xs : nat -> option bytes) (bits : list m128) : Prop :=
  forall j x, xs j = Some x -> block x /\ bits !! j = Some (aes_upto (key_words (lane_key j)) r x).

Lemma bits_step_lookup op k k4 bits j b : bits !! j = Some b -> bits_step op k k4 bits !! j = Some (op b (if (j =? 4)%nat then k4 else k)).
Proof. intros H. unfold bits_step. by rewrite list_lookup_imap, H. Qed.
Lemma length_bits_step op k k4 bits : length (bits_step op k k4 bits) = length bits.
Proof. apply length_imap. Qed.

Lemma inflight_first xs bits :
  (forall j x, xs j = Some x -> block x /\ bits !! j = Some x) ->
  inflight 0 xs (bits_step _mm_xor_si128 (round_key (key_words key) 0) (round_key (key_words key4) 0) bits).
Proof.
  intros H j x Hx. destruct (H j x Hx) as [Hb Hj]. split; [done|]. rewrite (bits_step_lookup _ _ _ _ _ _ Hj).
  destruct (lane_cases j) as [[-> ->] | [-> ->]]; done.
Qed.

Lemma inflight_next r xs bits :
  inflight r xs bits -> (r < nr)%nat ->
  inflight (S r) xs (bits_step _mm_aesenc_si128 (round_key (key_words key) (S r)) (round_key (key_words key4) (S r)) bits).
Proof using Hready Hready4 Hsame.
  intros H Hr j x Hx. destruct (H j x Hx) as [Hb Hj]. split; [done|]. rewrite (bits_step_lookup _ _ _ _ _ _ Hj). f_equal.
  destruct (lane_cases j) as [[-> ->] | [-> ->]]; [apply (upto_next key4 ecb4 Hready4); [done | by rewrite Hsame] | by apply (upto_next key ecb Hready)].
Qed.

Lemma inflight_last xs bits j x :
  inflight (nr - 1) xs bits -> xs j = Some x ->
  bits_step _mm_aesenclast_si128 (round_key (key_words key) nr) (round_key (key_words key4) nr) bits !! j = Some (fips_aes (lane_key j) x).
Proof using Hready Hready4 Hsame.
  intros H Hx. destruct (H j x Hx) as [Hb Hj]. rewrite (bits_step_lookup _ _ _ _ _ _ Hj). f_equal.
  destruct (lane_cases j) as [[-> ->] | [-> ->]]; [rewrite <- Hsame; by apply (upto_last key4 ecb4 Hready4) | by apply (upto_last key ecb Hready)].
Qed.

Lemma lane_get r : (r <= nr)%nat -> get_key (ecb_keys ecb) r = Ok (round_key (key_words key) r) /\ get_key (ecb_keys ecb4) r = Ok (round_key (key_words key4) r).
Proof using Hready Hready4 Hsame. intros Hr. split; [by apply (ready_key key ecb Hready) | apply (ready_key key4 ecb4 Hready4); by rewrite Hsame]. Qed.
End Lanes.

(** ** The table of powers *)

Definition hash_key (key : bytes) : N := Z.to_N (of_be (fips_aes key (replicate 16 0))).
Definition table_ok (h : N) (ghash : list (option ptls_fusion_aesgcm_ghash_precompute)) (n : nat) : Prop :=
  forall i, (i < n)%nat -> exists e, get_entry ghash i = Ok e /\ entry_ok h i e.

Record gcm_ready (key : bytes) (ctx : ptls_fusion_aesgcm_context) : Prop := {
  gr_ecb : ecb_ready key (fg_ecb ctx);
  gr_table : table_ok (hash_key key) (fg_ghash ctx) (fg_ghash_cnt ctx)
}.

Lemma get_entry_insert ghash i j e : (i < length ghash)%nat -> get_entry (<[i := Some e]> ghash) j = if decide (j = i) then Ok e else get_entry ghash j.
Proof.
  intros Hi. unfold get_entry. destruct (decide (j = i)) as [->|Hne]; [by rewrite list_lookup_insert_eq | by rewrite list_lookup_insert_ne].
Qed.

Lemma setup_one_spec h ctx e0 :
  (fg_ghash_cnt ctx < length (fg_ghash ctx))%nat -> table_ok h (fg_ghash ctx) (fg_ghash_cnt ctx) ->
  get_entry (fg_ghash ctx) 0 = Ok e0 ->
  entry_ok h 0 (mk_precompute (pre_H e0) (_mm_xor_si128 (_mm_shuffle_epi32 (pre_H e0) 78) (pre_H e0))) ->
  exists ctx', setup_one_ghash_entry ctx = Ok ctx' /\ fg_ecb ctx' = fg_ecb ctx /\ fg_capacity ctx' = fg_capacity ctx /\ fg_ghash_cnt ctx' = S (fg_ghash_cnt ctx) /\
    length (fg_ghash ctx') = length (fg_ghash ctx) /\ table_ok h (fg_ghash ctx') (S (fg_ghash_cnt ctx)) /\
    exists e0', get_entry (fg_ghash ctx') 0 = Ok e0' /\ pre_H e0' = pre_H e0.
Proof.
  intros Hlt Ht H0 He0. unfold setup_one_ghash_entry. set (c := fg_ghash_cnt ctx) in *.
  assert (Hgo : exists H, (if negb (c =? 0)%nat then let! prev := get_entry (fg_ghash ctx) (c - 1) in let! first := get_entry (fg_ghash ctx) 0 in Ok (gfmul (pre_H prev) (pre_H first))
    else let! first := get_entry (fg_ghash ctx) 0 in Ok (pre_H first)) = Ok H /\ entry_ok h c (mk_precompute H (_mm_xor_si128 (_mm_shuffle_epi32 H 78) H)) /\ (c = 0%nat -> H = pre_H e0)).
  { destruct (Nat.eqb_spec c 0) as [E|E]; cbn [negb].
    - rewrite H0, E. cbn [res_bind]. by exists (pre_H e0).
    - destruct (Ht (c - 1)%nat ltac:(lia)) as (e & -> & He). rewrite H0. cbn [res_bind]. eexists. split; [reflexivity|]. split; [|lia].
      replace c with (S (c - 1)) by lia. exact (entry_next h (c - 1) e _ He He0). }
  destruct Hgo as (H & -> & HH & Hfirst). cbn [res_bind]. rewrite (proj2 (Nat.ltb_lt _ _)) by done. eexists. split; [reflexivity|]. cbn [fg_ecb fg_capacity fg_ghash_cnt fg_ghash].
  split_and!; [done | done | done | apply length_insert | |].
  - intros i Hi. rewrite get_entry_insert by done. destruct (decide (i = c)) as [->|Hne]; [by eexists | apply Ht; lia].
  - rewrite get_entry_insert by done. destruct (decide (0%nat = c)) as [E|E]; [eexists; split; [reflexivity|]; cbn [pre_H]; by apply Hfirst | by exists e0].
Qed.

Lemma setup_entries_spec h n ctx e0 :
  (fg_ghash_cnt ctx + n <= length (fg_ghash ctx))%nat -> table_ok h (fg_ghash ctx) (fg_ghash_cnt ctx) ->
  get_entry (fg_ghash ctx) 0 = Ok e0 ->
  entry_ok h 0 (mk_precompute (pre_H e0) (_mm_xor_si128 (_mm_shuffle_epi32 (pre_H e0) 78) (pre_H e0))) ->
  exists ctx', setup_entries n ctx = Ok ctx' /\ fg_ecb ctx' = fg_ecb ctx /\ fg_capacity ctx' = fg_capacity ctx /\ fg_ghash_cnt ctx' = (fg_ghash_cnt ctx + n)%nat /\
    length (fg_ghash ctx') = length (fg_ghash ctx) /\ table_ok h (fg_ghash ctx') (fg_ghash_cnt ctx').
Proof.
  revert ctx e0. induction n as [|n IH]; intros ctx e0 Hl Ht H0 He0; cbn [setup_entries].
  - exists ctx. rewrite Nat.add_0_r. done.
  - destruct (setup_one_spec h ctx e0 ltac:(lia) Ht H0 He0) as (c1 & -> & E1 & E2 & E3 & E4 & Ht1 & e1 & H1 & Ep). cbn [res_bind].
    destruct (IH c1 e1) as (c2 & -> & F1 & F2 & F3 & F4 & Ht2); [lia | by rewrite E3 | done | by rewrite Ep|].
    exists c2. split_and!; [done | congruence | congruence | lia | lia | done].
Qed.

Lemma fusion_new_spec key capacity :
  fusion_key key -> exists ctx, ptls_fusion_aesgcm_new true key (length key) capacity = Ok (Some ctx) /\
    gcm_ready key ctx /\ fg_capacity ctx = capacity /\ fg_ghash_cnt ctx = aesgcm_calc_ghash_cnt capacity /\ length (fg_ghash ctx) = aesgcm_calc_ghash_cnt capacity.
Proof.
  intros Hk. unfold ptls_fusion_aesgcm_new. cbn [negb]. destruct (fusion_init_spec key Hk) as (ecb & -> & Hecb). cbn [res_bind].
  rewrite (aes_block_spec key ecb Hecb) by apply zeros_block. cbn [res_bind]. change _mm_setzero_si128 with (replicate 16 0).
  pose proof (fips_block key ecb Hecb (replicate 16 0) zeros_block) as HH. set (H := fips_aes key (replicate 16 0)) in *. rewrite bswap_rev by done.
  set (cnt := aesgcm_calc_ghash_cnt capacity). assert (Hc : (2 <= cnt)%nat) by (unfold cnt, aesgcm_calc_ghash_cnt; lia).
  set (ctx := mk_fgcm ecb capacity 0 _). set (e0 := mk_precompute (transformH (rev H)) []).
  destruct (setup_entries_spec (hash_key key) cnt ctx e0) as (c & -> & E1 & E2 & E3 & E4 & Ht); [cbn; rewrite length_replicate; lia | intros i Hi; cbn in Hi; lia | done | |].
  { apply entry_first; [by apply rev_block|]. unfold reg_val, hash_key. by rewrite of_le_rev by apply HH. }
  cbn [res_bind]. exists c. split_and!; [done | | done | done | rewrite E4; cbn; rewrite length_replicate; lia]. constructor; [by rewrite E1 | done].
Qed.

(** ** Six blocks next to GHASH *)

Section Hashing.
Context (h : N) (ghash : list (option ptls_fusion_aesgcm_ghash_precompute)) (size : nat) (total : N).
Hypothesis Htable : table_ok h ghash size.
Local Open Scope gf2_scope.

(** [rest] is still to be fed; [i] entries of the table are left for it. *)
Record hashing (g : ptls_fusion_gfmul_state) (i : nat) (rest : list bytes) : Prop := {
  hg_ok : g_ok g;
  hg_blocks : Forall block rest;
  hg_count : i = length rest;
  hg_size : (i <= size)%nat;
  hg_sum : g_val g ⊕ hash_sum h rest ≃ total
}.

Lemma hashing_start rest : Forall block rest -> (length rest <= size)%nat -> hash_sum h rest = total -> hashing gfmul_zero (length rest) rest.
Proof. intros Hr Hs Ht. constructor; [repeat split; apply zeros_block || done | done | done | done|]. rewrite Ht. change (g_val gfmul_zero) with 0%N. ring. Qed.

Lemma fusion_feed_spec ctx g i b rest :
  fg_ghash ctx = ghash -> hashing g i (b :: rest) -> exists g', feed_one ctx b g i = Ok (g', length rest) /\ hashing g' (length rest) rest.
Proof using Htable.
  intros Hc [Hg Hb Hi Hs Hsum]. apply Forall_cons_1 in Hb as [Hb Hr]. subst i. cbn [length feed_one]. destruct (Htable (length rest)) as (e & He & Hok); [cbn in Hs; lia|].
  rewrite Hc, He. cbn [res_bind]. eexists. split; [reflexivity|]. destruct (onestep_sum h g b rest e Hg Hb Hok) as [Hg' E]. constructor; [done | done | done | cbn in Hs; lia | by rewrite E].
Qed.

Lemma feed_all_spec ctx xs g i rest :
  fg_ghash ctx = ghash -> hashing g i (xs ++ rest) -> exists g', feed_all ctx xs g i = Ok (g', length rest) /\ hashing g' (length rest) rest.
Proof using Htable.
  intros Hc. revert g i. induction xs as [|x xs IH]; intros g i Hh; cbn [feed_all app] in *.
  - exists g. pose proof (hg_count _ _ _ Hh) as ->. done.
  - destruct (fusion_feed_spec ctx g i x (xs ++ rest) Hc Hh) as (g' & -> & Hh'). cbn [res_bind]. apply (IH g' _ Hh').
Qed.
End Hashing.

Section Run.
Context (key key4 : bytes) (ctx : ptls_fusion_aesgcm_context) (ecb4 : ptls_fusion_aesecb_context_t).
Hypotheses (Hready : ecb_ready key (fg_ecb ctx)) (Hready4 : ecb_ready key4 ecb4) (Hsame : length key4 = length key).
Context (h : N) (size : nat) (total : N).
Hypothesis Htable : table_ok h (fg_ghash ctx) size.
Notation nr := (fips_rounds (length key)).
Notation inflight := (inflight key key4).
Notation hashing := (hashing h size total).

Lemma six_update_spec r xs bits :
  inflight r xs bits -> (r < nr)%nat ->
  exists bits', AESECB6_UPDATE ctx (ecb_keys ecb4) (S r) bits = Ok bits' /\ inflight (S r) xs bits' /\ length bits' = length bits.
Proof using Hready Hready4 Hsame.
  intros H Hr. unfold AESECB6_UPDATE. destruct (lane_get key key4 _ _ Hready Hready4 Hsame (S r) ltac:(lia)) as [-> ->]. cbn [res_bind].
  eexists. split; [reflexivity|]. split; [by apply (inflight_next _ _ _ _ Hready Hready4 Hsame) | apply length_bits_step].
Qed.

(** [gdata] holds the blocks [xs] from element [j] on. *)
Definition gdata_holds (m : memory) (buf : list m128) (gdata : gdata_source) (j : nat) (bs : list bytes) : Prop :=
  forall i b, bs !! i = Some b -> gdata_at m buf gdata (j + i) = Ok b.

Lemma run_both_spec m buf gdata bs r j xs bits g i rest :
  inflight r xs bits -> gdata_holds m buf gdata j bs -> hashing g i (bs ++ rest) -> (r + length bs <= nr)%nat ->
  exists bits' g', run_both ctx (ecb_keys ecb4) m buf gdata (length bs) (S r) j bits g i = Ok (bits', g', length rest) /\
    inflight (r + length bs) xs bits' /\ length bits' = length bits /\ hashing g' (length rest) rest.
Proof using Hready Hready4 Hsame Htable.
  revert r j bits g i. induction bs as [|b bs IH]; intros r j bits g i Hf Hd Hh Hr; cbn [run_both length app] in *.
  - exists bits, g. pose proof (hg_count _ _ _ _ _ _ Hh) as ->. rewrite Nat.add_0_r. done.
  - destruct (six_update_spec r xs bits Hf ltac:(lia)) as (b1 & -> & Hf1 & L1). cbn [res_bind].
    pose proof (Hd 0%nat b eq_refl) as H0. rewrite Nat.add_0_r in H0. rewrite H0. cbn [res_bind].
    destruct (fusion_feed_spec h (fg_ghash ctx) size total Htable ctx g i b (bs ++ rest) eq_refl Hh) as (g1 & -> & Hh1). cbn [res_bind].
    destruct (IH (S r) (S j) b1 g1 (length (bs ++ rest)) Hf1) as (b2 & g2 & -> & Hf2 & L2 & Hh2); [|exact Hh1|lia|].
    + intros k c Hk. specialize (Hd (S k) c Hk). by rewrite Nat.add_succ_r in Hd.
    + exists b2, g2. rewrite Nat.add_succ_r. split_and!; [done | done | congruence | done].
Qed.

Lemma run_aes_spec n r xs bits :
  inflight r xs bits -> (r + n <= nr)%nat ->
  exists bits', run_aes ctx (ecb_keys ecb4) n (S r) bits = Ok bits' /\ inflight (r + n) xs bits' /\ length bits' = length bits.
Proof using Hready Hready4 Hsame.
  revert r bits. induction n as [|n IH]; intros r bits Hf Hr; cbn [run_aes]; [exists bits; by rewrite Nat.add_0_r|].
  destruct (six_update_spec r xs bits Hf ltac:(lia)) as (b1 & -> & Hf1 & L1). cbn [res_bind]. destruct (IH (S r) b1 Hf1 ltac:(lia)) as (b2 & -> & Hf2 & L2).
  exists b2. rewrite Nat.add_succ_r. split_and!; [done | done | congruence].
Qed.

Lemma buffer_holds m buf : gdata_holds m buf InBuffer 0 buf.
Proof. intros i b Hb. unfold gdata_at. cbn [Nat.add]. by rewrite Hb. Qed.

(** All rounds of six blocks, next to at most six multiplications. *)
Lemma run_aes_ghash_spec m buf gdata bs r xs bits g i rest :
  inflight r xs bits -> gdata_holds m buf gdata 0 bs -> hashing g i (bs ++ rest) -> (length bs <= 6)%nat -> (r <= 1)%nat ->
  exists bits' g', run_aes_ghash ctx (ecb_keys ecb4) m buf gdata (length bs) (S r) bits g i = Ok (bits', g', length rest) /\
    (forall j x, xs j = Some x -> bits' !! j = Some (fips_aes (lane_key key key4 j) x)) /\ length bits' = length bits /\ hashing g' (length rest) rest.
Proof using Hready Hready4 Hsame Htable.
  intros Hf Hd Hh Hl Hr. unfold run_aes_ghash. rewrite (ecb_count _ _ Hready). pose proof (rounds_pos key _ Hready) as Hp.
  destruct (run_both_spec m buf gdata bs r 0 xs bits g i rest Hf Hd Hh ltac:(lia)) as (b1 & g1 & -> & Hf1 & L1 & Hh1). cbn [res_bind].
  destruct (run_aes_spec (nr - (S r + length bs)) (r + length bs) xs b1 Hf1 ltac:(lia)) as (b2 & E & Hf2 & L2). cbn [Nat.add] in E |- *. rewrite E. cbn [res_bind].
  replace (r + length bs + _)%nat with (nr - 1)%nat in Hf2 by lia.
  unfold AESECB6_FINAL. rewrite Nat.max_r by lia. destruct (lane_get key key4 _ _ Hready Hready4 Hsame nr ltac:(lia)) as [-> ->]. cbn [res_bind].
  eexists _, g1. split; [reflexivity|]. split_and!; [intros j x Hx; by apply (inflight_last _ _ _ _ Hready Hready4 Hsame xs) | rewrite length_bits_step; congruence | done].
Qed.
End Run.

(** The tag, when everything was fed. *)
Lemma hashed_tag key ecb nonce ad c size i g :
  ecb_ready key ecb -> length nonce = 12%nat -> is_bytes nonce -> is_bytes ad -> is_bytes c ->
  hashing (hash_key key) size (hash_sum (hash_key key) (auth_blocks ad c)) g i [] ->
  gfmul_final g (fips_aes key (cblock nonce 1)) = gcm_tag (fips_aes key) nonce ad c 16 /\ block (gcm_tag (fips_aes key) nonce ad c 16).
Proof.
  intros Hr Hn Hbn Ha Hc [Hg _ _ _ Hsum]. destruct (auth_data_blocks ad c Ha Hc) as (HX & HbX & Eb). pose proof (fips_block key ecb Hr _ (cblock_block nonce Hn Hbn 1)) as HE.
  assert (HH : Z.of_N (hash_key key) = gcm_H (fips_aes key)).
  { unfold hash_key, gcm_H. apply Z2N.id. apply of_be_range. exact (proj2 (fips_block key ecb Hr _ zeros_block)). }
  assert (Hh : (hash_key key < 2 ^ 128)%N).
  { destruct (fips_block key ecb Hr _ zeros_block) as [Hl Hb]. pose proof (of_be_range _ Hb) as R. rewrite Hl in R. change (2 ^ (8 * Z.of_nat 16)) with (2 ^ 128) in R. unfold hash_key. change (replicate 16 0) with _mm_setzero_si128. lia. }
  assert (Et : gcm_tag (fips_aes key) nonce ad c 16 = zip_with Z.lxor (be 16 (GHASH (gcm_H (fips_aes key)) (gcm_auth_data ad c))) (fips_aes key (cblock nonce 1))).
  { unfold gcm_tag. rewrite (J0_cblock nonce Hn). apply take_ge. rewrite length_zip_with, length_be. lia. }
  rewrite Et. split; [|apply (xor_block (be 16 _)); [split; [apply length_be | apply be_bytes] | done]].
  rewrite <- HH. apply (gfmul_ghash (hash_key key) Hh g _ _ Hg HX HbX HE). rewrite Eb, <- Hsum. cbn [hash_sum]. by rewrite N.lxor_0_r.
Qed.
