(* ===== verification/FusionText.v ===== *)
(** * FusionText: memory while a text is encrypted or decrypted

    The loops that apply the key stream to the input of the fusion engine and write the
    result.  [text_inv pos m]: the first [pos] octets of the text are written, nothing
    else changed.  The text may be processed in place, or the output may start before the
    input. *)
From stdpp Require Import gmap.
From S2P Require Import Prelude Limbs Bitops Blockwise Aes Ctr Gcm Gf2 Simd FusionLoad FusionAes FusionGhash FusionGcm FusionCore.

Lemma length_crypt E nonce s : length (gcm_crypt E nonce s) = length s.
Proof. apply length_imap. Qed.

(** Bitwise operations on the first octets. *)
Lemma take_xor n (a b : bytes) : take n (zip_with Z.lxor a b) = zip_with Z.lxor (take n a) b.
Proof. revert a b. induction n as [|n IH]; intros [|x a] [|y b]; try done. cbn [take zip_with]. by rewrite IH. Qed.

Lemma xor_bytes (a b : bytes) : is_bytes a -> is_bytes b -> is_bytes (zip_with Z.lxor a b).
Proof. intros Ha. revert b. induction Ha as [|x a Hx Ha IH]; intros b Hb; destruct Hb as [|y b Hy Hb]; try constructor; [by apply lxor_byte | by apply IH]. Qed.

Section Text.
Context (E : bytes -> bytes) (nonce src : bytes) (m0 : memory) (output input : Z).
Hypotheses (HE : forall x, block x -> block (E x)) (Hln : length nonce = 12%nat) (Hbn : is_bytes nonce) (Hsrc : is_bytes src).
Hypotheses (Hpaged : paged m0) (Hin : holds_at m0 input src) (Hout : mapped m0 output (length src)).
Hypothesis Hover : output <= input \/ input + Z.of_nat (length src) <= output.
Notation dst := (gcm_crypt E nonce src).
Notation cblock := (cblock nonce).

Record text_inv (pos : nat) (m : memory) : Prop := {
  ti_octets : octets m;
  ti_domain : forall a, is_Some (m !! a) <-> is_Some (m0 !! a);
  ti_written : holds_at m output (take pos dst);
  ti_frame : forall a, ~ (output <= a < output + Z.of_nat pos) -> m !! a = m0 !! a
}.

Lemma text_start : octets m0 -> text_inv 0 m0.
Proof. intros Ho. by constructor. Qed.

Lemma text_paged pos m : text_inv pos m -> paged m.
Proof using Hpaged. intros [_ Hd _ _] a b Hab Ha. apply Hd, (Hpaged a b Hab), Hd, Ha. Qed.

Lemma text_mapped pos m p n : text_inv pos m -> mapped m0 p n -> mapped m p n.
Proof. intros [_ Hd _ _] H i Hi. by apply Hd, H. Qed.

(** What was not written is as before. *)
Lemma text_holds pos m p xs :
  text_inv pos m -> holds_at m0 p xs -> (forall a, p <= a < p + Z.of_nat (length xs) -> ~ (output <= a < output + Z.of_nat pos)) -> holds_at m p xs.
Proof.
  intros [_ _ _ Hf] Hp Ha i b Hb. pose proof (lookup_lt_Some _ _ _ Hb). rewrite Hf by (apply Ha; lia). by apply Hp.
Qed.

Lemma text_src pos m : text_inv pos m -> (pos <= length src)%nat -> holds_at m (input + Z.of_nat pos) (drop pos src).
Proof using Hin Hover Hln.
  intros Hi Hp. apply (text_holds pos m _ _ Hi); [by apply holds_drop|]. rewrite length_drop. lia.
Qed.

(** What was written before stays. *)
Lemma text_stable pos m pos' m' a :
  text_inv pos m -> text_inv pos' m' -> (pos <= pos' <= length src)%nat -> a < output + Z.of_nat pos -> m' !! a = m !! a.
Proof using Hln.
  intros H H' Hp Ha. destruct (decide (output <= a)) as [Ho|Ho].
  - destruct (lookup_lt_is_Some_2 dst (Z.to_nat (a - output))) as [c Hc]; [rewrite length_crypt; lia|]. replace a with (output + Z.of_nat (Z.to_nat (a - output))) by lia.
    rewrite (ti_written _ _ H _ c), (ti_written _ _ H' _ c); [done | |]; rewrite lookup_take_lt by lia; done.
  - rewrite (ti_frame _ _ H), (ti_frame _ _ H') by lia. done.
Qed.

(** The next [n] octets *)
Lemma text_store k n m :
  text_inv (16 * k) m -> (16 * k + n <= length src)%nat -> (n <= 16)%nat ->
  exists m', store m (output + 16 * Z.of_nat k) (zip_with Z.lxor (take n (drop (16 * k) src)) (E (cblock (k + 2)))) = Ok m' /\ text_inv (16 * k + n) m'.
Proof using HE Hln Hbn Hsrc Hout.
  intros Hi Hn H16. rewrite <- (crypt_piece nonce Hln Hbn E src k n HE Hsrc Hn H16). set (piece := take n (drop (16 * k) dst)).
  assert (Hl : length piece = n) by (unfold piece; rewrite length_take, length_drop, length_crypt; lia).
  destruct (store_spec m (output + 16 * Z.of_nat k) piece) as (m' & Est & Hs).
  { rewrite Hl. apply (text_mapped _ _ _ _ Hi). replace (16 * Z.of_nat k) with (Z.of_nat (16 * k)) by lia. apply (mapped_sub m0 output (length src)); [done | lia]. }
  exists m'. split; [exact Est|]. destruct Hi as [Ho Hd Hw Hf]. constructor.
  - apply (stored_octets _ _ _ _ Hs); [done|]. unfold piece. rewrite (crypt_piece nonce Hln Hbn E src k n HE Hsrc Hn H16).
    destruct (HE (cblock (k + 2)) (cblock_block nonce Hln Hbn _)) as [_ Hb]. apply xor_bytes; [by apply Forall_take, Forall_drop | done].
  - intros a. rewrite (stored_mapped _ _ _ _ Hs). apply Hd.
  - replace (take (16 * k + n) dst) with (take (16 * k) dst ++ piece) by (unfold piece; by rewrite take_take_drop).
    apply holds_at_app. rewrite length_take, length_crypt, Nat.min_l by lia. replace (Z.of_nat (16 * k)) with (16 * Z.of_nat k) by lia. split; [|exact (stored_here _ _ _ _ Hs)].
    apply (stored_holds _ _ _ _ _ _ Hs); [|done]. rewrite length_take, length_crypt. unfold apart. lia.
  - intros a Ha. rewrite (stored_else _ _ _ _ Hs) by lia. apply Hf. lia.
Qed.

(** Reading a piece of the input and adding the key stream *)
Lemma src_full k m :
  text_inv (16 * k) m -> (16 * k + 16 <= length src)%nat -> _mm_loadu_si128 m (input + 16 * Z.of_nat k) = Ok (take 16 (drop (16 * k) src)).
Proof using Hin Hover Hln.
  intros Hi Hk. pose proof (text_src _ _ Hi ltac:(lia)) as H. replace (Z.of_nat (16 * k)) with (16 * Z.of_nat k) in H by lia.
  apply load_ok; [by apply holds_take | rewrite length_take, length_drop; lia].
Qed.
Lemma src_part k m :
  text_inv (16 * k) m -> (16 * k <= length src)%nat -> (1 <= length src - 16 * k <= 16)%nat ->
  loadn m (input + 16 * Z.of_nat k) (length src - 16 * k) = Ok (drop (16 * k) src ++ replicate (16 - (length src - 16 * k)) 0).
Proof using Hin Hover Hln Hpaged.
  intros Hi Hk Hl. pose proof (text_src _ _ Hi ltac:(lia)) as H. replace (Z.of_nat (16 * k)) with (16 * Z.of_nat k) in H by lia.
  rewrite <- (length_drop src (16 * k)). apply loadn_spec; [exact (text_paged _ _ Hi) | exact (ti_octets _ _ Hi) | done | by rewrite length_drop].
Qed.

Lemma apply_full k m b :
  text_inv (16 * k) m -> (16 * k + 16 <= length src)%nat -> b = E (cblock (k + 2)) ->
  exists v m', _mm_loadu_si128 m (input + 16 * Z.of_nat k) = Ok v /\ _mm_storeu_si128 m (output + 16 * Z.of_nat k) (_mm_xor_si128 v b) = Ok m' /\ text_inv (16 * S k) m'.
Proof using All.
  intros Hi Hk ->. destruct (text_store k 16 m Hi Hk ltac:(lia)) as (m' & Est & Hi'). eexists _, m'.
  split_and!; [by apply src_full | exact Est | by replace (16 * S k)%nat with (16 * k + 16)%nat by lia].
Qed.
Lemma apply_part k m b :
  text_inv (16 * k) m -> (16 * k <= length src)%nat -> (1 <= length src - 16 * k <= 16)%nat -> b = E (cblock (k + 2)) ->
  exists v m', loadn m (input + 16 * Z.of_nat k) (length src - 16 * k) = Ok v /\
    storen m (output + 16 * Z.of_nat k) (length src - 16 * k) (_mm_xor_si128 v b) = Ok m' /\ text_inv (length src) m'.
Proof using All.
  intros Hi Hk Hl ->. set (n := (length src - 16 * k)%nat) in *. destruct (text_store k n m Hi ltac:(lia) ltac:(lia)) as (m' & Est & Hi'). eexists _, m'.
  split_and!; [by apply src_part | | by replace (length src) with (16 * k + n)%nat by lia]. unfold storen, _mm_xor_si128. rewrite take_xor.
  rewrite take_app_le by (rewrite length_drop; lia). fold n. exact Est.
Qed.

(** The blocks [bits] are the key stream from block [k] on, where there is text. *)
Definition stream_from (k : nat) (bits : list m128) : Prop :=
  forall j b, bits !! j = Some b -> (16 * (k + j) < length src)%nat -> b = E (cblock (k + j + 2)).
Lemma stream_cons k b bits : stream_from k (b :: bits) -> ((16 * k < length src)%nat -> b = E (cblock (k + 2))) /\ stream_from (S k) bits.
Proof.
  intros H. split.
  - intros Hk. pose proof (H 0%nat b eq_refl) as H0. rewrite Nat.add_0_r in H0. by apply H0.
  - intros j c Hj Hlt. replace (S k + j + 2)%nat with (k + S j + 2)%nat by lia. apply (H (S j)); [done | lia].
Qed.

Lemma next_block p k : p + 16 * Z.of_nat k + 16 = p + 16 * Z.of_nat (S k).
Proof. lia. Qed.

Lemma apply_all_spec bits k m :
  text_inv (16 * k) m -> stream_from k bits -> (16 * (k + length bits) <= length src)%nat ->
  exists m', apply_all bits m (input + 16 * Z.of_nat k) (output + 16 * Z.of_nat k) = Ok m' /\ text_inv (16 * (k + length bits)) m'.
Proof using All.
  revert k m. induction bits as [|b bits IH]; intros k m Hi Hst Hl; cbn [apply_all length] in *; [exists m; by rewrite Nat.add_0_r|].
  destruct (stream_cons _ _ _ Hst) as [Hb Hst']. destruct (apply_full k m b Hi ltac:(lia) (Hb ltac:(lia))) as (v & m1 & -> & E1 & Hi1). cbn [res_bind]. rewrite E1. cbn [res_bind].
  rewrite !next_block. destruct (IH (S k) m1 Hi1 Hst' ltac:(lia)) as (m' & -> & Hi'). exists m'. split; [done|]. by replace (k + S (length bits))%nat with (S k + length bits)%nat by lia.
Qed.

Lemma apply_rest_spec bits k m :
  text_inv (16 * k) m -> stream_from k bits -> (16 * k <= length src <= 16 * (k + length bits))%nat ->
  exists m' p, apply_rest bits m (input + 16 * Z.of_nat k) (output + 16 * Z.of_nat k) (length src - 16 * k) = Ok (m', p, output + Z.of_nat (length src), 0%nat) /\ text_inv (length src) m'.
Proof using All.
  revert k m. induction bits as [|b bits IH]; intros k m Hi Hst Hl; cbn [apply_rest length] in *.
  - assert (Hk : (length src = 16 * k)%nat) by lia. rewrite Hk, Nat.sub_diag. exists m, (input + 16 * Z.of_nat k). split; [|done]. do 3 f_equal. lia.
  - destruct (stream_cons _ _ _ Hst) as [Hb Hst']. destruct (Nat.leb_spec 16 (length src - 16 * k)) as [Hge|Hlt].
    + destruct (apply_full k m b Hi ltac:(lia) (Hb ltac:(lia))) as (v & m1 & -> & E1 & Hi1). cbn [res_bind]. rewrite E1. cbn [res_bind].
      rewrite !next_block. destruct (IH (S k) m1 Hi1 Hst' ltac:(lia)) as (m' & p & E2 & Hi'). exists m', p. split; [|done]. by replace (length src - 16 * k - 16)%nat with (length src - 16 * S k)%nat by lia.
    + destruct (Nat.eqb_spec (length src - 16 * k) 0) as [Ez|En]; cbn [negb].
      * rewrite Ez. assert (Hk : (length src = 16 * k)%nat) by lia. eexists m, _. rewrite Hk. split; [|done]. do 3 f_equal. lia.
      * destruct (apply_part k m b Hi ltac:(lia) ltac:(lia) (Hb ltac:(lia))) as (v & m1 & -> & E1 & Hi1). cbn [res_bind]. rewrite E1. cbn [res_bind].
        exists m1, (input + 16 * Z.of_nat k). split; [|done]. do 3 f_equal. lia.
Qed.

(** Decryption leaves the last block for the end. *)
Lemma dec_apply_rest_spec bits k m :
  text_inv (16 * k) m -> stream_from k bits -> (16 * k <= length src)%nat ->
  exists m' k' fin, dec_apply_rest bits m (input + 16 * Z.of_nat k) (output + 16 * Z.of_nat k) (length src - 16 * k) =
      Ok (m', input + 16 * Z.of_nat k', output + 16 * Z.of_nat k', (length src - 16 * k')%nat, fin) /\
    text_inv (16 * k') m' /\ (k <= k' <= k + length bits)%nat /\ (16 * k' <= length src)%nat /\
    match fin with
    | None => k' = (k + length bits)%nat
    | Some b => (length src <= 16 * k' + 16)%nat /\ ((16 * k' < length src)%nat -> b = E (cblock (k' + 2))) /\ (k' < k + length bits)%nat
    end.
Proof using All.
  revert k m. induction bits as [|b bits IH]; intros k m Hi Hst Hl; cbn [dec_apply_rest length] in *; [exists m, k, None; split_and!; done || lia|].
  destruct (stream_cons _ _ _ Hst) as [Hb Hst']. destruct (Nat.ltb_spec 16 (length src - 16 * k)) as [Hgt|Hle].
  - destruct (apply_full k m b Hi ltac:(lia) (Hb ltac:(lia))) as (v & m1 & -> & E1 & Hi1). cbn [res_bind]. rewrite E1. cbn [res_bind].
    rewrite !next_block. destruct (IH (S k) m1 Hi1 Hst' ltac:(lia)) as (m' & k' & fin & E2 & Hi' & Hk & Hk' & Hfin). exists m', k', fin.
    replace (length src - 16 * k - 16)%nat with (length src - 16 * S k)%nat by lia. split_and!; [done | done | lia | lia | lia|]. destruct fin; [|lia]. destruct Hfin as (? & ? & ?). split_and!; [done | done | lia].
  - exists m, k, (Some b). split_and!; done || lia.
Qed.

Lemma dec_finish_spec s k bits0 :
  text_inv (16 * k) (d_mem s) -> (16 * k <= length src <= 16 * k + 16)%nat -> ((16 * k < length src)%nat -> bits0 = E (cblock (k + 2))) ->
  d_src_aes s = input + 16 * Z.of_nat k -> d_dst s = output + 16 * Z.of_nat k -> d_src_aeslen s = (length src - 16 * k)%nat ->
  exists m', dec_finish_text s bits0 = Ok m' /\ text_inv (length src) m'.
Proof using All.
  intros Hi Hk Hb Hs Hd Hl. unfold dec_finish_text. rewrite Hl, Hs, Hd. destruct (Nat.eqb_spec (length src - 16 * k) 16) as [E16|E16].
  - destruct (apply_full k _ bits0 Hi ltac:(lia) (Hb ltac:(lia))) as (v & m1 & -> & E1 & Hi1). cbn [res_bind]. exists m1. split; [exact E1|]. by replace (length src) with (16 * S k)%nat by lia.
  - destruct (Nat.eqb_spec (length src - 16 * k) 0) as [Ez|En]; cbn [negb].
    + exists (d_mem s). split; [done|]. by replace (length src) with (16 * k)%nat by lia.
    + destruct (apply_part k _ bits0 Hi ltac:(lia) ltac:(lia) (Hb ltac:(lia))) as (v & m1 & -> & E1 & Hi1). cbn [res_bind]. by exists m1.
Qed.
End Text.

(** A store outside the output *)
Lemma text_rebase E nonce src m0 output pos m p bs m' b' :
  text_inv E nonce src m0 output pos m -> (pos <= length src)%nat -> apart p (Z.of_nat (length bs)) output (Z.of_nat (length src)) -> is_bytes bs ->
  stored m p bs m' -> stored m0 p bs b' -> text_inv E nonce src b' output pos m'.
Proof.
  intros [Ho Hd Hw Hf] Hpos Ha Hb Hs Hs'. unfold apart in Ha. constructor.
  - by apply (stored_octets _ _ _ _ Hs).
  - intros a. rewrite (stored_mapped _ _ _ _ Hs), (stored_mapped _ _ _ _ Hs'). apply Hd.
  - apply (stored_holds _ _ _ _ _ _ Hs); [|done]. rewrite length_take, length_crypt. unfold apart. lia.
  - intros a Hna. destruct (decide (p <= a < p + Z.of_nat (length bs))) as [Hin|Hout].
    + destruct (lookup_lt_is_Some_2 bs (Z.to_nat (a - p)) ltac:(lia)) as [c Hc]. replace a with (p + Z.of_nat (Z.to_nat (a - p))) by lia.
      by rewrite (stored_here _ _ _ _ Hs _ _ Hc), (stored_here _ _ _ _ Hs' _ _ Hc).
    + rewrite (stored_else _ _ _ _ Hs), (stored_else _ _ _ _ Hs') by lia. by apply Hf.
Qed.
