(* ===== verification/FusionEncrypt.v ===== *)
(** * FusionEncrypt: the fusion engine encrypts as SP 800-38D says

    Proofs about [ptls_fusion_aesgcm_encrypt].  The variables of the main loop fall in two
    groups that meet in memory only: those of AES ([aes_between] in front of
    [AESECB6_INIT], [aes_head] behind it) and those of GHASH ([gh_part]).  Block [k] is
    the next one to be written; GHASH is never ahead of it, and the mask of the tag is
    ready when GHASH has less than six blocks to go. *)
From stdpp Require Import gmap.
From S2P Require Import Prelude Limbs Bitops Blockwise Aes Ctr Gcm Gf2 Simd FusionLoad FusionAes FusionGhash FusionGcm FusionCore FusionText.

(** Variables behind assignments *)
Ltac vars := cbn [field_update e_mem e_ctr e_ek0 e_bits e_bits4keys e_gstate e_gdatabuf e_gdata e_gdata_cnt e_src e_dst e_srclen e_aad e_aadlen e_dst_ghash
  e_dst_ghashlen e_ghash_precompute e_state].

(** ** The states of the two spare lanes *)

Inductive ek_phase := EkWaiting | EkInFlight | EkDone.
Inductive su_phase := SuNone | SuWaiting | SuInFlight (sample : bytes) | SuDone (sample : bytes).
Definition st_of (ek : ek_phase) (su : su_phase) : Z :=
  (match ek with EkWaiting => 0 | EkInFlight => 3 | EkDone => 1 end) + (match su with SuNone | SuDone _ => 0 | SuWaiting => 4 | SuInFlight _ => 12 end).

(** What a call needs from its arguments. *)
Record enc_call (key : bytes) (ctx : ptls_fusion_aesgcm_context) (supp : option ptls_aead_supplementary_encryption_t) (skey : bytes)
    (m0 : memory) (output input : Z) (text : bytes) (ctr : m128) (nonce : bytes) (aad : Z) (ad : bytes) : Prop := {
  ec_ecb : ecb_ready key (fg_ecb ctx);
  ec_table : table_ok (hash_key key) (fg_ghash ctx) ((length ad + 15) / 16 + (length text + 15) / 16 + 1);
  ec_nonce : length nonce = 12%nat /\ is_bytes nonce;
  ec_ctr : drop 4 ctr = rev nonce;
  ec_bytes : is_bytes text /\ is_bytes ad;
  ec_small : Z.of_nat (length text) < 2 ^ 28 /\ Z.of_nat (length ad) < 2 ^ 28;
  ec_paged : paged m0;
  ec_octets : octets m0;
  ec_in : holds_at m0 input text;
  ec_aad : holds_at m0 aad ad;
  ec_out : mapped m0 output (length text + 16);
  ec_over : output <= input \/ input + Z.of_nat (length text) <= output;
  ec_aad_apart : apart aad (Z.of_nat (length ad)) output (Z.of_nat (length text));
  ec_supp : match supp with
            | None => True
            | Some sp =>
                ecb_ready skey (ctr_fusion (supp_ctx sp)) /\ length skey = length key /\ mapped m0 (supp_input sp) 16 /\ mapped m0 (supp_output sp) 16 /\
                apart (supp_output sp) 16 output (Z.of_nat (length text + 16)) /\ apart (supp_output sp) 16 input (Z.of_nat (length text)) /\
                apart (supp_output sp) 16 aad (Z.of_nat (length ad)) /\ apart (supp_output sp) 16 (supp_input sp) 16
            end
}.

Section EncryptProof.
Context (key : bytes) (ctx : ptls_fusion_aesgcm_context) (supp : option ptls_aead_supplementary_encryption_t) (skey : bytes).
Context (m0 : memory) (output input : Z) (text : bytes) (ctr0 : m128) (nonce : bytes) (aad : Z) (ad : bytes).
Hypothesis Hcall : enc_call key ctx supp skey m0 output input text ctr0 nonce aad ad.
Notation E := (fips_aes key).
Notation len := (length text).
Notation alen := (length ad).
Notation ct := (gcm_crypt (fips_aes key) nonce text).
Notation cblock := (cblock nonce).
Notation creg := (creg nonce).
Notation text_inv b := (text_inv (fips_aes key) nonce text b output).
Notation written k := (Nat.min (16 * k) len).

Lemma E_block x : block x -> block (E x).
Proof using Hcall. apply (fips_block key _ (ec_ecb _ _ _ _ _ _ _ _ _ _ _ _ Hcall)). Qed.
Lemma ct_length : length ct = len.
Proof. apply length_crypt. Qed.
Lemma ct_bytes : is_bytes ct.
Proof. apply gcm_crypt_bytes. Qed.

(** ** The variables of AES *)

Definition sampled (k : nat) (x : bytes) (m : memory) : Prop :=
  block x /\ match supp with None => False | Some sp => holds_at m (supp_input sp) x /\ supp_input sp + 16 <= output + Z.of_nat (written k) end.
Definition su_ok (k : nat) (su : su_phase) (m : memory) : Prop :=
  match su with
  | SuNone => supp = None
  | SuWaiting => is_Some supp
  | SuInFlight x | SuDone x => sampled k x m
  end.

(** Memory without the text: the supplementary block is written when it is done. *)
Definition base (su : su_phase) (b : memory) : Prop :=
  match su with
  | SuDone x => match supp with None => False | Some sp => block x /\ stored m0 (supp_output sp) (fips_aes skey x) b end
  | _ => b = m0
  end.

(** The keys of the fifth lane *)
Definition lane4 (k : nat) (s : enc_vars) (key4 : bytes) (ecb4 : ptls_fusion_aesecb_context_t) : Prop :=
  e_bits4keys s = ecb_keys ecb4 /\
  (key4 = key /\ ecb4 = fg_ecb ctx \/
   match supp with None => False | Some sp => key4 = skey /\ ecb4 = ctr_fusion (supp_ctx sp) end /\ (len - 16 * k <= 64)%nat).

Record aes_common (k : nat) (ek : ek_phase) (su : su_phase) (s : enc_vars) : Prop := {
  ac_text : exists b, base su b /\ text_inv b (written k) (e_mem s);
  ac_srclen : e_srclen s = (len - 16 * k)%nat;
  ac_src : (16 * k < len)%nat -> e_src s = input + 16 * Z.of_nat k;
  ac_dst : e_dst s = output + Z.of_nat (written k);
  ac_state : e_state s = st_of ek su;
  ac_ek : match ek with EkWaiting => e_ek0 s = cblock 1 | EkInFlight => True | EkDone => e_ek0 s = E (cblock 1) end;
  ac_su : su_ok k su (e_mem s);
  ac_bits : length (e_bits s) = 6%nat
}.

Record aes_between (k : nat) (ek : ek_phase) (su : su_phase) (s : enc_vars) : Prop := {
  ab_common : aes_common k ek su s;
  ab_ek : match ek with EkWaiting => True | EkInFlight => False | EkDone => (len <= 16 * k)%nat end;
  ab_su : match su with SuInFlight _ => False | _ => True end;
  ab_lane4 : exists key4 ecb4, lane4 k s key4 ecb4;
  ab_ctr : (16 * k < len)%nat -> e_ctr s = creg (k + 1)
}.

(** What the lanes work on *)
Definition lanes (k : nat) (ek : ek_phase) (su : su_phase) (j : nat) : option bytes :=
  if (j <? 6)%nat && (16 * (k + j) <? len)%nat then Some (cblock (k + j + 2))
  else if (j =? 5)%nat then match ek with EkInFlight => Some (cblock 1) | _ => None end
  else if (j =? 4)%nat then match su with SuInFlight x => Some x | _ => None end
  else None.

Record aes_head (k : nat) (ek : ek_phase) (su : su_phase) (s : enc_vars) : Prop := {
  ah_common : aes_common k ek su s;
  ah_ek : match ek with EkWaiting => (80 < len - 16 * k)%nat | _ => (len - 16 * k <= 80)%nat end;
  ah_su : match su with SuInFlight _ => (len - 16 * k <= 64)%nat | _ => True end;
  ah_lane4 : exists key4 ecb4, lane4 k s key4 ecb4 /\ (match su with SuInFlight _ => key4 = skey | _ => True end) /\ inflight key key4 1 (lanes k ek su) (e_bits s);
  ah_ctr : (16 * (k + 6) < len)%nat -> e_ctr s = creg (k + 7)
}.

Lemma lane4_ready k s key4 ecb4 : lane4 k s key4 ecb4 -> ecb_ready key4 ecb4 /\ length key4 = length key.
Proof using Hcall.
  intros [_ [[-> ->] | [H _]]]; [split; [apply (ec_ecb _ _ _ _ _ _ _ _ _ _ _ _ Hcall) | done]|].
  pose proof (ec_supp _ _ _ _ _ _ _ _ _ _ _ _ Hcall) as Hs. destruct supp as [sp|]; [|done]. destruct H as [-> ->]. destruct Hs as (? & ? & _). done.
Qed.

(** *** [AESECB6_INIT] and the first round *)

Lemma next_counters_length n c : length (next_counters n c).1 = n.
Proof. revert c. induction n as [|n IH]; intros c; cbn [next_counters]; [done|]. specialize (IH (_mm_add_epi64 c one8)). destruct (next_counters n _) as [l c']. cbn in *. lia. Qed.

(** The slots and the counter behind the counters of a round *)
Lemma counters_at k s :
  (16 * k < len)%nat -> e_ctr s = creg (k + 1) -> next_counters 5 (e_ctr s) = (map cblock (seq (k + 2) 5), creg (k + 6)).
Proof using Hcall.
  intros Hk ->. destruct (ec_nonce _ _ _ _ _ _ _ _ _ _ _ _ Hcall) as [Hn Hb]. destruct (ec_small _ _ _ _ _ _ _ _ _ _ _ _ Hcall) as [Hs _].
  rewrite counters_spec by (done || lia). do 2 f_equal; [do 2 f_equal|]; lia.
Qed.

Lemma st_fed ek su : (Z.land (st_of ek su) STATE_EK0_BEEN_FED =? 0) = match ek with EkWaiting => true | _ => false end.
Proof. by destruct ek, su. Qed.
Lemma st_fed_or su : Z.lor (st_of EkWaiting su) STATE_EK0_BEEN_FED = st_of EkInFlight su.
Proof. by destruct su. Qed.
Lemma st_used ek su : (Z.land (st_of ek su) STATE_SUPP_USED =? 0) = match su with SuNone | SuDone _ => true | _ => false end.
Proof. by destruct ek, su. Qed.
Lemma st_process ek su : (Z.land (st_of ek su) STATE_SUPP_IN_PROCESS =? 0) = match su with SuInFlight _ => false | _ => true end.
Proof. by destruct ek, su. Qed.
Lemma st_process_or ek x : Z.lor (st_of ek SuWaiting) STATE_SUPP_IN_PROCESS = st_of ek (SuInFlight x).
Proof. by destruct ek. Qed.

Definition text_slots (k : nat) (bits : list m128) : Prop :=
  length bits = 6%nat /\ forall j, (j < 6)%nat -> (16 * (k + j) < len)%nat -> bits !! j = Some (cblock (k + j + 2)).
Lemma slots_insert k bits i x : text_slots k bits -> (len <= 16 * (k + i))%nat -> text_slots k (<[i := x]> bits).
Proof.
  intros [Hl Ht] Hi. split; [by rewrite length_insert|]. intros j Hj Hlt. rewrite list_lookup_insert_ne by (intros ->; lia). by apply Ht.
Qed.

Lemma seq_slot f n a j : (j < n)%nat -> map f (seq a n) !! j = Some (f (a + j)%nat : bytes).
Proof. intros Hj. by rewrite list_lookup_fmap, lookup_seq_lt by done. Qed.

Lemma counters_slots k s rest :
  (16 * k < len -> e_ctr s = creg (k + 1))%nat -> length rest = 1%nat -> (len - 16 * k <= 80)%nat -> text_slots k ((next_counters 5 (e_ctr s)).1 ++ rest).
Proof using Hcall.
  intros Hc Hr Hlt. pose proof (next_counters_length 5 (e_ctr s)) as Hl. split; [rewrite length_app; lia|]. intros j Hj Hjl.
  rewrite (counters_at k s) by (lia || apply Hc; lia). cbn [fst]. rewrite lookup_app_l by (rewrite length_map, length_seq; lia). rewrite seq_slot by lia. do 2 f_equal. lia.
Qed.

(** Every lane that works on something holds it. *)
Definition slots_ok (k : nat) (ek : ek_phase) (su : su_phase) (bits : list m128) : Prop :=
  length bits = 6%nat /\ forall j x, lanes k ek su j = Some x -> block x /\ bits !! j = Some x.
Lemma slots_all k ek su bits :
  text_slots k bits -> (match ek with EkInFlight => bits !! 5%nat = Some (cblock 1) | _ => True end) ->
  (match su with SuInFlight x => block x /\ bits !! 4%nat = Some x | _ => True end) -> slots_ok k ek su bits.
Proof using Hcall.
  destruct (ec_nonce _ _ _ _ _ _ _ _ _ _ _ _ Hcall) as [Hn Hb]. intros [Hl Ht] He Hs. split; [done|]. intros j x. unfold lanes.
  destruct (Nat.ltb_spec j 6), (Nat.ltb_spec (16 * (k + j)) len); cbn [andb]; try (intros [= <-]; split; [by apply cblock_block | by apply Ht]).
  all: destruct (Nat.eqb_spec j 5) as [->|]; [destruct ek; try done; intros [= <-]; split; [by apply cblock_block | done]|].
  all: destruct (Nat.eqb_spec j 4) as [->|]; [|done]; destruct su; try done; intros [= <-]; exact Hs.
Qed.

Definition gh_of (s : enc_vars) := (e_gdatabuf s, e_gdata s, e_gdata_cnt s, e_gstate s, e_aad s, e_aadlen s, e_dst_ghash s, e_dst_ghashlen s, e_ghash_precompute s).

Lemma common_bits k ek su s bits : aes_common k ek su s -> length bits = 6%nat -> aes_common k ek su (s <| e_bits := bits |>).
Proof. by intros [? ? ? ? ? ? ? ?] Hl. Qed.

(** Slots and variables behind the counters *)
Record init_done (k : nat) (ek : ek_phase) (su : su_phase) (s : enc_vars) : Prop := {
  id_common : aes_common k ek su s;
  id_ek : match ek with EkWaiting => (80 < len - 16 * k)%nat | _ => (len - 16 * k <= 80)%nat end;
  id_su : match su with SuInFlight _ => (len - 16 * k <= 64)%nat | _ => True end;
  id_lane4 : exists key4 ecb4, lane4 k s key4 ecb4 /\ (match su with SuInFlight _ => key4 = skey | _ => True end);
  id_ctr : (16 * (k + 6) < len)%nat -> e_ctr s = creg (k + 7);
  id_slots : slots_ok k ek su (e_bits s)
}.

Lemma init_more k su s :
  aes_between k EkWaiting su s -> (80 < len - 16 * k)%nat ->
  let c := next_counters 5 (e_ctr s) in
  let s1 := s <| e_bits := c.1 ++ drop 5 (e_bits s) |> <| e_ctr := c.2 |> in
  let c' := _mm_add_epi64 (e_ctr s1) one8 in
  init_done k EkWaiting su (s1 <| e_ctr := c' |> <| e_bits := <[5%nat := _mm_shuffle_epi8 c' bswap8]> (e_bits s1) |>).
Proof using Hcall.
  intros [Hc He Hs H4 Hctr] Hk c s1 c'. destruct (ec_nonce _ _ _ _ _ _ _ _ _ _ _ _ Hcall) as [Hn Hb]. destruct (ec_small _ _ _ _ _ _ _ _ _ _ _ _ Hcall) as [Hsm _].
  pose proof (counters_at k s ltac:(lia) (Hctr ltac:(lia))) as Ec. fold c in Ec. destruct Hc as [T1 T2 T3 T4 T5 T6 T7 T8].
  assert (Hc' : c' = creg (k + 7)) by (unfold c', s1; vars; rewrite Ec; cbn [snd]; rewrite creg_next by (done || lia); f_equal; lia).
  set (bits := <[5%nat := _]> (e_bits s1)). assert (Hbits : text_slots k bits).
  { unfold bits, s1. vars. rewrite Hc', creg_swap, Ec by done. cbn [fst]. split; [rewrite length_insert, length_app, length_map, length_seq, length_drop; lia|].
    intros j Hj Hlt. destruct (decide (j = 5%nat)) as [->|Hne].
    - rewrite list_lookup_insert_eq by (rewrite length_app, length_map, length_seq, length_drop; lia). do 2 f_equal. lia.
    - rewrite list_lookup_insert_ne, lookup_app_l by (rewrite ?length_map, ?length_seq; lia). rewrite seq_slot by lia. do 2 f_equal. lia. }
  constructor; [constructor; try done; apply Hbits | done | by destruct su | | done | by apply slots_all; destruct su].
  destruct H4 as (key4 & ecb4 & H4). exists key4, ecb4. split; [done | by destruct su].
Qed.

Lemma init_ek0_spec k ek su s :
  aes_between k ek su s -> (len - 16 * k <= 80)%nat ->
  let c := next_counters 5 (e_ctr s) in
  exists ek' s', init_ek0 (s <| e_bits := c.1 ++ drop 5 (e_bits s) |> <| e_ctr := c.2 |>) = s' /\ init_done k ek' su s' /\ gh_of s' = gh_of s /\ ek' <> EkWaiting /\ (ek = EkDone -> ek' = EkDone).
Proof using Hcall.
  intros [Hc He Hs H4 Hctr] Hk c. destruct Hc as [T1 T2 T3 T4 T5 T6 T7 T8].
  assert (Hbits : text_slots k (c.1 ++ drop 5 (e_bits s))) by (apply counters_slots; [done | rewrite length_drop; lia | done]).
  assert (H4' : exists key4 ecb4, lane4 k s key4 ecb4 /\ match su with SuInFlight _ => key4 = skey | _ => True end) by (destruct H4 as (key4 & ecb4 & H4); exists key4, ecb4; split; [done | by destruct su]).
  unfold init_ek0. vars. rewrite T5, st_fed. destruct ek; [|done|].
  - rewrite st_fed_or. exists EkInFlight. eexists. split; [reflexivity|]. rewrite T6. vars.
    set (bits := <[5%nat := _]> _). assert (Hb' : text_slots k bits) by (apply slots_insert; [done | lia]).
    split_and!; [|done|done|done]. constructor; [constructor; try done; apply Hb' | done | by destruct su | done | cbn; lia |].
    apply slots_all; [done | | by destruct su]. cbn [e_bits]. apply list_lookup_insert_eq. rewrite (proj1 Hbits). lia.
  - exists EkDone. eexists. split; [reflexivity|]. split_and!; [|done|done|done].
    constructor; [constructor; try done; apply Hbits | done | by destruct su | done | cbn; lia |]. apply slots_all; [done | done | by destruct su].
Qed.

Lemma init_supp_spec k ek su s :
  init_done k ek su s -> ek <> EkWaiting -> match su with SuInFlight _ => False | _ => True end -> e_dst_ghash s <= output + Z.of_nat (written k) ->
  exists su' s', init_supp supp s = Ok s' /\ init_done k ek su' s' /\ gh_of s' = gh_of s.
Proof using Hcall.
  intros Hd Hek Hsu Hgh. destruct Hd as [Hc He Hs H4 Hctr Hslots]. pose proof Hc as [T1 T2 T3 T4 T5 T6 T7 T8].
  assert (Hkeep : init_done k ek su s) by done.
  unfold init_supp. rewrite T5, st_used, T2. destruct su as [| |x|x]; [by exists SuNone, s | | done | by exists (SuDone x), s]. cbn [negb andb].
  destruct (Nat.leb_spec (len - 16 * k) (16 * 4)) as [Hle|]; [|by exists SuWaiting, s].
  pose proof (ec_supp _ _ _ _ _ _ _ _ _ _ _ _ Hcall) as Hsp. cbn in T7. destruct supp as [sp|] eqn:Esp; [|by destruct T7].
  destruct (Z.leb_spec (supp_input sp + 16) (e_dst_ghash s)) as [Hin|]; [|by exists SuWaiting, s].
  destruct Hsp as (Hr & Hls & Hmi & _). rewrite <- Esp in *. destruct T1 as (b & Hbase & Ht). cbn [base] in Hbase. subst b.
  destruct (mapped_holds (e_mem s) (supp_input sp) 16 (ti_octets _ _ _ _ _ _ _ Ht) (text_mapped _ _ _ _ _ _ _ _ _ Ht Hmi)) as (x & Hx & Lx & Bx).
  unfold _mm_loadu_si128. rewrite (load_ok _ _ x) by done. cbn [res_bind]. exists (SuInFlight x). eexists. split; [reflexivity|]. split; [|done].
  rewrite (st_process_or _ x). set (bits := <[4%nat := x]> _). destruct Hslots as [Hl Hsl].
  assert (Hbl : length bits = 6%nat) by (unfold bits; by rewrite length_insert).
  assert (Hsamp : sampled k x (e_mem s)) by (split; [done|]; rewrite Esp; split; [done|]; clear -Hgh Hin; lia).
  constructor; [constructor; try done; by exists m0 | by destruct ek | done | | done |].
  - exists skey, (ctr_fusion (supp_ctx sp)). split; [|done]. split; [done|]. right. rewrite Esp. by split; [|lia].
  - split; [done|]. intros j y Hy. destruct (decide (j = 4%nat)) as [->|Hne].
    + unfold lanes in Hy. rewrite (proj2 (Nat.ltb_ge (16 * (k + 4)) len)) in Hy by lia. rewrite andb_false_r in Hy. cbn [Nat.eqb] in Hy. injection Hy as <-. split; [done|]. vars. apply list_lookup_insert_eq. lia.
    + vars. unfold bits. rewrite list_lookup_insert_ne by done. apply Hsl. unfold lanes in *. destruct ((j <? 6)%nat && _); [done|]. destruct (Nat.eqb_spec j 5); [done|]. by destruct (Nat.eqb_spec j 4).
Qed.

Definition counters_set (s : enc_vars) : enc_vars :=
  s <| e_bits := (next_counters 5 (e_ctr s)).1 ++ drop 5 (e_bits s) |> <| e_ctr := (next_counters 5 (e_ctr s)).2 |>.
Definition spare_set (s0 : enc_vars) : res enc_vars :=
  if (16 * 5 <? e_srclen s0)%nat then
    let ctr := _mm_add_epi64 (e_ctr s0) one8 in Ok (s0 <| e_ctr := ctr |> <| e_bits := <[5%nat := _mm_shuffle_epi8 ctr bswap8]> (e_bits s0) |>)
  else init_supp supp (init_ek0 s0).
Lemma init_parts s :
  AESECB6_INIT ctx supp s =
  let! s := spare_set (counters_set s) in
  let! k := get_key (ecb_keys (fg_ecb ctx)) 0 in
  let! k4 := get_key (e_bits4keys s) 0 in
  Ok (s <| e_bits := bits_step _mm_xor_si128 k k4 (e_bits s) |>).
Proof. unfold AESECB6_INIT, counters_set, spare_set. by destruct (next_counters 5 (e_ctr s)). Qed.

Lemma enc_init_spec k ek su s :
  aes_between k ek su s -> e_dst_ghash s <= output + Z.of_nat (written k) ->
  exists ek' su' s1 bits, AESECB6_INIT ctx supp s = Ok s1 /\ AESECB6_UPDATE ctx (e_bits4keys s1) 1 (e_bits s1) = Ok bits /\
    aes_head k ek' su' (s1 <| e_bits := bits |>) /\ gh_of s1 = gh_of s /\ (ek = EkDone -> ek' = EkDone).
Proof using Hcall.
  intros Hb Hgh. assert (Hmid : exists ek' su' s2, spare_set (counters_set s) = Ok s2 /\ init_done k ek' su' s2 /\ gh_of s2 = gh_of s /\ (ek = EkDone -> ek' = EkDone)).
  { pose proof (ac_srclen _ _ _ _ (ab_common _ _ _ _ Hb)) as Hsl. unfold spare_set. change (e_srclen (counters_set s)) with (e_srclen s). rewrite Hsl.
    destruct (Nat.ltb_spec (16 * 5) (len - 16 * k)) as [Hgt|Hle].
    - pose proof (ab_ek _ _ _ _ Hb) as He. destruct ek; [|done|lia]. exists EkWaiting, su. eexists. split; [reflexivity|]. split; [exact (init_more k su s Hb ltac:(lia)) | split; [reflexivity | by intros [=]]].
    - destruct (init_ek0_spec k ek su s Hb Hle) as (ek' & s' & Es & Hd & Hg & Hw & Hdone). fold (counters_set s) in Es. rewrite Es.
      assert (Hgh' : e_dst_ghash s' = e_dst_ghash s) by (unfold gh_of in Hg; congruence).
      destruct (init_supp_spec k ek' su s' Hd Hw (ab_su _ _ _ _ Hb) ltac:(lia)) as (su' & s2 & -> & Hd2 & Hg2). exists ek', su', s2. split_and!; [done | done | congruence | done]. }
  destruct Hmid as (ek' & su' & s2 & Es & [Hc He Hs (key4 & ecb4 & H4 & Hk4) Hctr [Hsl Hslots]] & Hg & Hdone). exists ek', su'.
  rewrite init_parts, Es. cbn [res_bind].
  destruct (lane4_ready _ _ _ _ H4) as [Hr4 Hsame]. pose proof (ec_ecb _ _ _ _ _ _ _ _ _ _ _ _ Hcall) as Hr. pose proof H4 as [-> _].
  destruct (lane_get key key4 _ _ Hr Hr4 Hsame 0 ltac:(lia)) as [-> ->]. cbn [res_bind].
  pose proof (inflight_first key key4 _ _ Hslots) as Hf0.
  destruct (six_update_spec key key4 ctx ecb4 Hr Hr4 Hsame 0 _ _ Hf0) as (bits1 & Eb & Hf1 & L1); [pose proof (rounds_pos key _ Hr); lia|].
  eexists _, bits1. split; [reflexivity|]. split_and!; [vars; rewrite (proj1 H4); exact Eb | | done | done].
  rewrite length_bits_step in L1. constructor; [exact (common_bits k ek' su' s2 bits1 Hc ltac:(congruence)) | done | done | | done].
  exists key4, ecb4. done.
Qed.

(** *** Applying the key stream *)

Lemma base_facts su b :
  base su b -> paged b /\ octets b /\ holds_at b input text /\ holds_at b aad ad /\ mapped b output (len + 16) /\ (forall a, is_Some (b !! a) <-> is_Some (m0 !! a)).
Proof using Hcall.
  intros Hb. destruct Hcall as [_ _ _ _ _ _ Hp Ho Hin Haad Hout _ _ Hs].
  assert (Hdone : b = m0 \/ exists sp bs, supp = Some sp /\ block bs /\ stored m0 (supp_output sp) bs b).
  { destruct su; try (by left). right. cbn in Hb. destruct supp as [sp|]; [|done]. destruct Hb as [Hx Hst]. destruct Hs as (Hr & _). exists sp, (fips_aes skey sample). split_and!; [done | by apply (fips_block skey _ Hr) | done]. }
  destruct Hdone as [-> | (sp & bs & Esp & [Hl Hby] & Hst)]; [done|]. rewrite Esp in Hs. destruct Hs as (_ & _ & _ & _ & A1 & A2 & A3 & _).
  split_and!; [by apply (stored_paged _ _ _ _ Hst) | by apply (stored_octets _ _ _ _ Hst) | | | by apply (stored_maps _ _ _ _ _ _ Hst) | apply (stored_mapped _ _ _ _ Hst)].
  all: apply (stored_holds _ _ _ _ _ _ Hst); [rewrite Hl; unfold apart in *; lia | done].
Qed.

(** The lanes are done. *)
Record aes_tail (k : nat) (ek : ek_phase) (su : su_phase) (s : enc_vars) : Prop := {
  at_common : aes_common k ek su s;
  at_ek : match ek with EkWaiting => (80 < len - 16 * k)%nat | EkInFlight => (len - 16 * k <= 80)%nat /\ e_bits s !! 5%nat = Some (E (cblock 1)) | EkDone => (len - 16 * k <= 80)%nat end;
  at_su : match su with SuInFlight x => (len - 16 * k <= 64)%nat /\ e_bits s !! 4%nat = Some (fips_aes skey x) | _ => True end;
  at_lane4 : exists key4 ecb4, lane4 k s key4 ecb4;
  at_ctr : (16 * (k + 6) < len)%nat -> e_ctr s = creg (k + 7);
  at_stream : stream_from (fips_aes key) nonce text k (e_bits s)
}.

Lemma tail_of_head k ek su s key4 ecb4 bits g pre :
  aes_head k ek su s -> lane4 k s key4 ecb4 -> (match su with SuInFlight _ => key4 = skey | _ => True end) ->
  (forall j x, lanes k ek su j = Some x -> bits !! j = Some (fips_aes (lane_key key key4 j) x)) -> length bits = 6%nat ->
  aes_tail k ek su (s <| e_bits := bits |> <| e_gstate := g |> <| e_ghash_precompute := pre |>).
Proof.
  intros [Hc He Hs _ Hctr] H4 Hk4 Hb Hl. constructor.
  - by apply (common_bits k ek su s bits) in Hc as [? ? ? ? ? ? ? ?].
  - destruct ek; [done | split; [done|] | done]. vars. apply (Hb 5%nat (cblock 1)). unfold lanes. rewrite (proj2 (Nat.ltb_ge (16 * (k + 5)) len)) by lia. by rewrite andb_false_r.
  - destruct su as [| |x|x]; try done. split; [done|]. vars. rewrite <- Hk4. apply (Hb 4%nat x). unfold lanes. rewrite (proj2 (Nat.ltb_ge (16 * (k + 4)) len)) by lia. by rewrite andb_false_r.
  - by exists key4, ecb4.
  - done.
  - intros j b Hj Hlt. change (bits !! j = Some b) in Hj. pose proof (lookup_lt_Some _ _ _ Hj) as Hj6. rewrite (Hb j (cblock (k + j + 2))) in Hj;
      [|unfold lanes; rewrite (proj2 (Nat.ltb_lt j 6)), (proj2 (Nat.ltb_lt _ _)) by lia; done].
    injection Hj as <-. unfold lane_key. destruct (Nat.eqb_spec j 4) as [->|]; [|done]. destruct H4 as [_ [[-> _] | [_ Hle]]]; [done | lia].
Qed.

Lemma su_later k k' su b m m' :
  su_ok k su m -> text_inv b (written k) m -> text_inv b (written k') m' -> (k <= k')%nat -> su_ok k' su m'.
Proof using Hcall.
  intros Hs Ht Ht' Hk. assert (Hs' : forall x, sampled k x m -> sampled k' x m').
  { intros x [Hx Hsp]. split; [done|]. destruct supp as [sp|]; [|done]. destruct Hsp as [Hh Hle]. split; [|lia].
    intros i c Hc. pose proof (lookup_lt_Some _ _ _ Hc). destruct Hx as [Hx _]. rewrite <- (Hh i c Hc).
    apply (text_stable (fips_aes key) nonce text b output (proj1 (ec_nonce _ _ _ _ _ _ _ _ _ _ _ _ Hcall)) (written k) m (written k') m'); [done | done | lia | lia]. }
  destruct su; cbn in *; auto.
Qed.

Lemma apply_more k ek su s :
  aes_tail k ek su s -> (96 <= len - 16 * k)%nat ->
  exists m, apply_all (e_bits s) (e_mem s) (e_src s) (e_dst s) = Ok m /\ (exists b, base su b /\ text_inv b (written (k + 6)) m) /\ su_ok (k + 6) su m.
Proof using Hcall.
  intros [[(b & Hb & T1) T2 T3 T4 T5 T6 T7 T8] _ _ _ _ Hst] Hk. destruct (base_facts su b Hb) as (Bp & Bo & Bi & _ & Bm & _).
  destruct (ec_nonce _ _ _ _ _ _ _ _ _ _ _ _ Hcall) as [Hn Hbn]. destruct (ec_bytes _ _ _ _ _ _ _ _ _ _ _ _ Hcall) as [Htb _].
  rewrite T3, T4 by lia. replace (written k) with (16 * k)%nat in * by lia. replace (Z.of_nat (16 * k)) with (16 * Z.of_nat k) by lia.
  destruct (apply_all_spec E nonce text b output input E_block Hn Hbn Htb Bp Bi (mapped_weaken b output _ len Bm ltac:(lia)) (ec_over _ _ _ _ _ _ _ _ _ _ _ _ Hcall) (e_bits s) k (e_mem s) T1 Hst ltac:(lia)) as (m & Em & Hm).
  rewrite T8 in Hm. exists m. replace (16 * (k + 6))%nat with (written (k + 6)) in Hm by lia. split_and!; [exact Em | by exists b|].
  apply (su_later k (k + 6) su b (e_mem s) m T7); [by replace (written k) with (16 * k)%nat by lia | done | lia].
Qed.

Lemma apply_rest_none bits m src dst : apply_rest bits m src dst 0 = Ok (m, src, dst, 0%nat).
Proof. by destruct bits. Qed.

Lemma apply_last k su b bits m src :
  base su b -> text_inv b (written k) m -> stream_from (fips_aes key) nonce text k bits -> length bits = 6%nat -> (len - 16 * k < 96)%nat ->
  ((16 * k < len)%nat -> src = input + 16 * Z.of_nat k) -> su_ok k su m ->
  exists m' p, apply_rest bits m src (output + Z.of_nat (written k)) (len - 16 * k) = Ok (m', p, output + Z.of_nat len, 0%nat) /\ text_inv b len m' /\ su_ok (k + 6) su m'.
Proof using Hcall.
  intros Hb Ht Hst Hl Hk Hsrc Hsu. destruct (base_facts su b Hb) as (Bp & Bo & Bi & _ & Bm & _).
  destruct (ec_nonce _ _ _ _ _ _ _ _ _ _ _ _ Hcall) as [Hn Hbn]. destruct (ec_bytes _ _ _ _ _ _ _ _ _ _ _ _ Hcall) as [Htb _].
  assert (Hfin : forall m', text_inv b len m' -> su_ok (k + 6) su m').
  { intros m' Hm'. apply (su_later k (k + 6) su b m m' Hsu Ht); [by replace (written (k + 6)) with len by lia | lia]. }
  destruct (decide (16 * k < len)%nat) as [Hlt|Hge].
  - rewrite Hsrc by done. replace (written k) with (16 * k)%nat in * by lia. replace (Z.of_nat (16 * k)) with (16 * Z.of_nat k) by lia.
    destruct (apply_rest_spec E nonce text b output input E_block Hn Hbn Htb Bp Bi (mapped_weaken b output _ len Bm ltac:(lia)) (ec_over _ _ _ _ _ _ _ _ _ _ _ _ Hcall) bits k m Ht Hst ltac:(lia)) as (m' & p & Em & Hm).
    exists m', p. split_and!; [exact Em | done | by apply Hfin].
  - replace (len - 16 * k)%nat with 0%nat by lia. replace (written k) with len in * by lia. rewrite apply_rest_none. exists m, src. split_and!; [done | done | by apply Hfin].
Qed.

Lemma st_flight ek su : (Z.land (st_of ek su) STATE_EK0_BEEN_FED =? STATE_EK0_BEEN_FED) = match ek with EkInFlight => true | _ => false end.
Proof. by destruct ek, su. Qed.
Lemma st_complete su : Z.land (st_of EkInFlight su) (Z.lnot STATE_EK0_INCOMPLETE) = st_of EkDone su.
Proof. by destruct su. Qed.
Lemma st_supp_done ek x : Z.land (st_of ek (SuInFlight x)) (Z.lnot (Z.lor STATE_SUPP_USED STATE_SUPP_IN_PROCESS)) = st_of ek (SuDone x).
Proof. by destruct ek. Qed.

Lemma lane4_later k k' s s' key4 ecb4 : lane4 k s key4 ecb4 -> e_bits4keys s' = e_bits4keys s -> (k <= k')%nat -> lane4 k' s' key4 ecb4.
Proof. intros [H1 H2] E4 Hk. split; [congruence|]. destruct H2 as [H2 | [H2 Hle]]; [by left | right; split; [done | lia]]. Qed.

(** The two steps in front of the last blocks *)
Definition ek_step (s : enc_vars) : enc_vars :=
  if Z.land (e_state s) STATE_EK0_BEEN_FED =? STATE_EK0_BEEN_FED
  then s <| e_ek0 := e_bits s !!! 5%nat |> <| e_state := Z.land (e_state s) (Z.lnot STATE_EK0_INCOMPLETE) |>
  else s.
Definition su_step (s : enc_vars) : res enc_vars :=
  if negb (Z.land (e_state s) STATE_SUPP_IN_PROCESS =? 0) then
    match supp with
    | None => Stuck NullDeref
    | Some sp =>
        let! m := _mm_storeu_si128 (e_mem s) (supp_output sp) (e_bits s !!! 4%nat) in
        Ok (s <| e_mem := m |> <| e_state := Z.land (e_state s) (Z.lnot (Z.lor STATE_SUPP_USED STATE_SUPP_IN_PROCESS)) |>)
    end
  else Ok s.

Record aes_mid (k : nat) (ek : ek_phase) (su : su_phase) (s : enc_vars) : Prop := {
  am_common : aes_common k ek su s;
  am_su : match su with SuInFlight x => e_bits s !! 4%nat = Some (fips_aes skey x) | _ => True end;
  am_lane4 : exists key4 ecb4, lane4 k s key4 ecb4;
  am_ctr : (16 * (k + 6) < len)%nat -> e_ctr s = creg (k + 7);
  am_stream : stream_from (fips_aes key) nonce text k (e_bits s)
}.

Lemma ek_step_spec k ek su s :
  aes_tail k ek su s -> exists ek', aes_mid k ek' su (ek_step s) /\ ek' <> EkInFlight /\ gh_of (ek_step s) = gh_of s /\ (ek <> EkWaiting -> ek' = EkDone).
Proof.
  intros [[T1 T2 T3 T4 T5 T6 T7 T8] He Hs H4 Hc Hst]. unfold ek_step. rewrite T5, st_flight.
  assert (Hs' : match su with SuInFlight x => e_bits s !! 4%nat = Some (fips_aes skey x) | _ => True end) by (destruct su; try done; apply Hs).
  destruct ek; [exists EkWaiting; done | | exists EkDone; done]. exists EkDone. rewrite st_complete. split_and!; [|done|done|done].
  constructor; try done. constructor; try done. vars. by apply list_lookup_total_correct, He.
Qed.

Lemma su_step_spec k ek su s :
  aes_mid k ek su s -> exists su' s', su_step s = Ok s' /\ aes_mid k ek su' s' /\ match su' with SuInFlight _ => False | _ => True end /\ gh_of s' = gh_of s.
Proof using Hcall.
  intros Hm. pose proof Hm as [[(b & Hb & T1) T2 T3 T4 T5 T6 T7 T8] Hs H4 Hc Hst]. unfold su_step. rewrite T5, st_process.
  destruct su as [| |x|x]; [by exists SuNone, s | by exists SuWaiting, s | | by exists (SuDone x), s]. cbn [negb].
  destruct T7 as [Hx Hsp]. pose proof (ec_supp _ _ _ _ _ _ _ _ _ _ _ _ Hcall) as Hspok. cbn [base] in Hb. subst b. destruct supp as [sp|] eqn:Esp; [|done]. destruct Hsp as [Hh Hle].
  destruct Hspok as (Hr & Hls & Hmi & Hmo & A1 & A2 & A3 & A4). pose proof (fips_block skey _ Hr x Hx) as [Lb Bb].
  rewrite (list_lookup_total_correct _ _ _ Hs). unfold _mm_storeu_si128.
  destruct (store_spec (e_mem s) (supp_output sp) (fips_aes skey x)) as (m' & Em & Hst'); [rewrite Lb; exact (text_mapped _ _ _ _ _ _ _ _ _ T1 Hmo)|].
  destruct (store_spec m0 (supp_output sp) (fips_aes skey x)) as (b' & _ & Hsb); [by rewrite Lb|].
  rewrite Em. cbn [res_bind]. exists (SuDone x). eexists. split; [reflexivity|]. rewrite st_supp_done. rewrite <- Esp in *. split_and!; [|done|done].
  constructor; try done. constructor; try done; vars.
  - exists b'. split; [cbn [base]; by rewrite Esp|]. apply (text_rebase _ _ _ m0 _ _ (e_mem s) (supp_output sp) (fips_aes skey x)); [done | lia | rewrite Lb; unfold apart in *; lia | done | done | done].
  - cbn [su_ok]. split; [done|]. rewrite Esp. split; [|done]. destruct Hx as [Hx _]. apply (stored_holds _ _ _ _ _ _ Hst'); [rewrite Hx, Lb; unfold apart in *; lia | done].
Qed.

Lemma enc_apply_parts s :
  (e_srclen s < 96)%nat -> enc_apply supp s =
  let! s := su_step (ek_step s) in
  let! '(m, src, dst, srclen) := apply_rest (e_bits s) (e_mem s) (e_src s) (e_dst s) (e_srclen s) in
  Ok (s <| e_mem := m |> <| e_src := src |> <| e_dst := dst |> <| e_srclen := srclen |>).
Proof. intros Hs. unfold enc_apply. rewrite (proj2 (Nat.leb_gt _ _)) by lia. reflexivity. Qed.

Lemma enc_apply_spec k ek su s :
  aes_tail k ek su s ->
  exists ek' su' s', enc_apply supp s = Ok s' /\ aes_between (k + 6) ek' su' s' /\ gh_of s' = gh_of s /\ (ek <> EkWaiting -> ek' = EkDone).
Proof using Hcall.
  intros Ht. pose proof Ht as [[T1 T2 T3 T4 T5 T6 T7 T8] He Hs (key4 & ecb4 & H4) Hc Hst]. destruct (decide (96 <= len - 16 * k)%nat) as [Hge|Hlt].
  - unfold enc_apply. rewrite T2, (proj2 (Nat.leb_le _ _)) by lia. destruct (apply_more k ek su s Ht Hge) as (m & -> & Hb & Hsu). cbn [res_bind].
    destruct ek; [|lia|lia]. exists EkWaiting, su. eexists. split; [reflexivity|]. split_and!; [|done|done].
    constructor; [|done | destruct su; try done; lia | exists key4, ecb4; apply (lane4_later k _ s); [done | done | lia] | ].
    + constructor; try done; vars; [lia | intros _; rewrite T3; lia | rewrite T4; lia].
    + vars. intros Hlt'. rewrite Hc by lia. f_equal. lia.
  - rewrite enc_apply_parts by lia. destruct (ek_step_spec k ek su s Ht) as (ek' & Hm & Hne & Hg1 & Hdone).
    destruct (su_step_spec k ek' su _ Hm) as (su' & s2 & -> & Hm2 & Hsu & Hg2). cbn [res_bind].
    destruct Hm2 as [[(b & Hb & U1) U2 U3 U4 U5 U6 U7 U8] _ (key4' & ecb4' & H4') Uc Ust]. rewrite U2, U4.
    destruct (apply_last k su' b (e_bits s2) (e_mem s2) (e_src s2) Hb U1 Ust U8 ltac:(lia) U3 U7) as (m' & p & -> & Hm' & Hsu'). cbn [res_bind].
    exists ek', su'. eexists. split; [reflexivity|]. split_and!; [|exact (eq_trans Hg2 Hg1)|done]. assert (Hw : written (k + 6) = len) by lia.
    constructor; [| destruct ek'; done || lia | done | exists key4', ecb4'; apply (lane4_later k _ s2); [done | done | lia] | lia].
    constructor; try done; vars; [exists b; by rewrite Hw | lia | lia | by rewrite Hw].
Qed.

(** ** The variables of GHASH *)

Definition aes_of (s : enc_vars) := (e_mem s, e_ctr s, e_ek0 s, e_bits s, e_bits4keys s, e_src s, e_dst s, e_srclen s, e_state s).
Notation size := ((alen + 15) / 16 + (len + 15) / 16 + 1)%nat.
Notation hashing := (hashing (hash_key key) size (hash_sum (hash_key key) (auth_blocks ad ct))).

(** [a] octets of the additional data and [g] of the ciphertext were taken, [pend] is taken and not fed. *)
Record gh_part (a g : nat) (pend : list bytes) (s : enc_vars) : Prop := {
  gp_a : (a <= alen)%nat;
  gp_g : (g <= len)%nat;
  gp_aadlen : e_aadlen s = (alen - a)%nat;
  gp_aad : (a < alen)%nat -> e_aad s = aad + Z.of_nat a;
  gp_len : e_dst_ghashlen s = (len - g)%nat;
  gp_ptr : (g < len)%nat -> e_dst_ghash s = output + Z.of_nat g;
  gp_low : e_dst_ghash s <= output + Z.of_nat g;
  gp_hash : hashing (e_gstate s) (e_ghash_precompute s) (pend ++ pblocks (drop a ad) ++ pblocks (drop g ct) ++ [gcm_lengths ad ct])
}.

Lemma gh_same a g pend s s' : gh_part a g pend s -> gh_of s' = gh_of s -> gh_part a g pend s'.
Proof. destruct s, s'. unfold gh_of. cbn. intros [? ? ? ? ? ? ? ?] [= -> -> -> -> -> -> -> -> ->]. by constructor. Qed.
Lemma aes_same k ek su s s' : aes_head k ek su s -> aes_of s' = aes_of s -> aes_head k ek su s'.
Proof. destruct s, s'. unfold aes_of. cbn. intros H [= -> -> -> -> -> -> -> -> ->]. destruct H as [[? ? ? ? ? ? ? ?] ? ? ? ?]. by repeat constructor. Qed.

Lemma fill_dst_spec g s :
  gh_part alen g (e_gdatabuf s) s -> paged (e_mem s) -> octets (e_mem s) -> holds_at (e_mem s) (output + Z.of_nat g) (take 96 (drop g ct)) -> (length (e_gdatabuf s) <= 6)%nat ->
  exists fin s' k taken, fill_dst s = Ok (fin, s') /\ e_gdatabuf s' = e_gdatabuf s ++ taken /\ gh_part alen (g + k) (e_gdatabuf s') s' /\ aes_of s' = aes_of s /\
    e_gdata_cnt s' = length (e_gdatabuf s') /\ (k <= 96)%nat /\ length taken = ((k + 15) / 16)%nat /\
    if fin then (g + k = len)%nat /\ (length (e_gdatabuf s') < 6)%nat else e_gdata s' = InBuffer /\ length (e_gdatabuf s') = 6%nat.
Proof.
  intros [Ga Gg G1 G2 G3 G4 G5 G6] Hp Ho Hr H6. unfold fill_dst. set (n := (6 - length (e_gdatabuf s))%nat).
  assert (Hrd : holds_at (e_mem s) (e_dst_ghash s) (take (16 * n) (drop g ct))).
  { destruct (decide (g < len)%nat) as [Hlt|]; [|rewrite drop_ge, take_nil by (rewrite ct_length; lia); apply holds_nil]. rewrite G4 by done.
    replace (take (16 * n) (drop g ct)) with (take (16 * n) (take 96 (drop g ct))) by (rewrite take_take; f_equal; lia). by apply holds_take. }
  destruct (fill_spec n (e_mem s) (e_dst_ghash s) (drop g ct) (e_gdatabuf s) Hp Ho) as (stopped & p' & k & taken & Ef & Hpb & Hk & Hkn & Hp' & Ht & Hst & Htl); [apply Forall_drop, ct_bytes | exact Hrd|].
  rewrite length_drop, ct_length in *. rewrite G3, Ef. cbn [res_bind].
  assert (Hnew : forall s', gh_of s' = (e_gdatabuf s ++ taken, e_gdata s', e_gdata_cnt s', e_gstate s, e_aad s, e_aadlen s, p', (len - g - k)%nat, e_ghash_precompute s) ->
    (stopped = true -> (g + k = len)%nat) -> gh_part alen (g + k) (e_gdatabuf s ++ taken) s').
  { intros s' Eg Hstop. unfold gh_of in Eg. injection Eg as X1 X2 X3 X4 X5 X6 X7. constructor; try congruence; try lia.
    - destruct stopped; [specialize (Hstop eq_refl); lia|]. intros Hlt. destruct Hst as (? & ? & ->). rewrite X5, G4 by lia. lia.
    - rewrite X2, X7, <- drop_drop, <- app_assoc. rewrite Hpb, <- app_assoc in G6.
      replace (taken ++ pblocks (drop alen ad) ++ pblocks (drop k (drop g ct)) ++ [gcm_lengths ad ct]) with (pblocks (drop alen ad) ++ taken ++ pblocks (drop k (drop g ct)) ++ [gcm_lengths ad ct]) by (by rewrite drop_all). exact G6. }
  assert (Hkl : (k <= 96)%nat) by lia. rewrite length_app. destruct stopped; cbn [andb].
  - destruct Hst as [Hkk Hlt]. destruct (Nat.ltb_spec (length (e_gdatabuf s) + length taken) 6) as [H|H].
    + exists true. eexists _, k, taken. split; [reflexivity|]. vars. split_and!; [done | apply Hnew; [done | lia] | done | by rewrite length_app | done | done | lia | by rewrite length_app].
    + exists false. eexists _, k, taken. split; [reflexivity|]. vars. split_and!; [done | apply Hnew; [done | lia] | done | by rewrite length_app | done | done | done | rewrite length_app; lia].
  - destruct Hst as (Hkk & Hl & Hpp). exists false. eexists _, k, taken. split; [reflexivity|]. vars. split_and!; [done | by apply Hnew | done | by rewrite length_app | done | done | done | rewrite length_app; lia].
Qed.

(** What the next turn feeds, or that there is less than a turn left *)
Record gdata_next (fin : bool) (a g : nat) (s s' : enc_vars) (a' g' : nat) (pend : list bytes) : Prop := {
  gn_part : gh_part a' g' pend s';
  gn_aes : aes_of s' = aes_of s;
  gn_cnt : e_gdata_cnt s' = length pend;
  gn_g : (g <= g' <= g + 96)%nat;
  gn_end : if fin then a' = alen /\ g' = len /\ (length pend < 6)%nat /\ e_gdatabuf s' = pend /\ (len - g <= 80)%nat
           else length pend = 6%nat /\ gdata_holds (e_mem s') (e_gdatabuf s') (e_gdata s') 0 pend /\ (a + g < a' + g')%nat
}.

Lemma aad_fill_spec n a m p :
  (a <= alen)%nat -> paged m -> octets m -> holds_at m aad ad -> ((a < alen)%nat -> p = aad + Z.of_nat a) ->
  exists stopped p' k taken, fill n m p (alen - a) [] = Ok (stopped, p', (alen - (a + k))%nat, taken) /\ pblocks (drop a ad) = taken ++ pblocks (drop (a + k) ad) /\
    (a + k <= alen)%nat /\ (length taken <= n)%nat /\ length taken = ((k + 15) / 16)%nat /\
    (if stopped then (a + k)%nat = alen else length taken = n /\ k = (16 * n)%nat /\ p' = p + Z.of_nat k).
Proof using Hcall.
  intros Ha Hp Ho Hd Hptr. destruct (gather_spec n m p ad a aad [] Hp Ho (proj2 (ec_bytes _ _ _ _ _ _ _ _ _ _ _ _ Hcall)) Ha Hptr) as (stopped & p' & k & taken & H1 & H2 & H3 & H4 & H5 & H6 & H7 & H8);
    [by apply holds_take, holds_drop|]. by exists stopped, p', k, taken.
Qed.

Lemma setup_gdata_spec a g s :
  gh_part a g [] s -> paged (e_mem s) -> octets (e_mem s) -> holds_at (e_mem s) aad ad -> holds_at (e_mem s) (output + Z.of_nat g) (take 96 (drop g ct)) ->
  exists fin s' a' g' pend, setup_gdata s = Ok (fin, s') /\ gdata_next fin a g s s' a' g' pend.
Proof using Hcall.
  intros Hg Hp Ho Had Hr. pose proof Hg as [Ga Gg G1 G2 G3 G4 G5 G6]. unfold setup_gdata. rewrite G1. destruct (Nat.eqb_spec (alen - a) 0) as [Ea|Ea]; cbn [negb].
  - assert (a = alen) as -> by lia. rewrite G3. destruct (Nat.leb_spec (6 * 16) (len - g)) as [H96|H96].
    + exists false. eexists _, alen, (g + 96)%nat, (blocks_of 16 6 (drop g ct)). split; [reflexivity|].
      assert (Hl : length (drop g ct) = (len - g)%nat) by (by rewrite length_drop, ct_length).
      constructor; [| done | done | lia |].
      * constructor; vars; try done; try lia. rewrite (pblocks_split 6 (drop g ct)) in G6 by lia. rewrite drop_drop in G6. rewrite drop_all in *. cbn [app pblocks_nil] in *.
        rewrite <- app_assoc in G6. exact G6.
      * split_and!; [done | | lia]. intros i b Hb. pose proof (lookup_lt_Some _ _ _ Hb) as Hi. rewrite length_blocks_of in Hi. rewrite blocks_of_lookup in Hb by done. injection Hb as <-.
        vars. cbn [gdata_at Nat.add]. rewrite G4 by lia. unfold _mm_loadu_si128. apply load_ok; [|rewrite length_take, length_drop; lia].
        replace (take 16 (drop (i * 16) (drop g ct))) with (take 16 (drop (i * 16) (take 96 (drop g ct)))) by (rewrite skipn_firstn_comm, take_take; f_equal; lia).
        replace (16 * Z.of_nat i) with (Z.of_nat (i * 16)) by lia. apply holds_take, holds_drop; [rewrite length_take; lia | done].
    + destruct (fill_dst_spec g (s <| e_gdatabuf := [] |> <| e_gdata_cnt := 0%nat |>)) as (fin & s' & k & taken & -> & E1 & Hg' & E2 & E3 & Hk & Htl & Hfin); [by constructor | done | done | done | cbn; lia|].
      change (e_gdatabuf s' = taken) in E1. exists fin, s', alen, (g + k)%nat, (e_gdatabuf s'). split; [done|]. constructor; [done | exact E2 | done | lia |]. destruct fin.
      * destruct Hfin as [Hlen Hlt]. split_and!; [done | done | done | done |]. rewrite E1, Htl in Hlt. apply few_blocks in Hlt. lia.
      * destruct Hfin as [-> H6]. rewrite E1 in *. split_and!; [done | apply buffer_holds |]. enough (k <> 0)%nat by lia. intros ->. change ((0 + 15) / 16)%nat with 0%nat in Htl. lia.
  - destruct (aad_fill_spec 6 a (e_mem s) (e_aad s) Ga Hp Ho Had G2) as (stopped & p' & k & taken & -> & Hpb & Hk & Ht & Htl & Hst). cbn [res_bind].
    set (s1 := s <| e_gdatabuf := taken |> <| e_gdata_cnt := length taken |> <| e_aad := p' |> <| e_aadlen := (alen - (a + k))%nat |>).
    assert (Hg1 : ((a + k < alen)%nat -> p' = aad + Z.of_nat (a + k)) -> gh_part (a + k) g taken s1).
    { intros Hptr. constructor; vars; try done. rewrite Hpb, <- app_assoc in G6. exact G6. }
    destruct stopped.
    + rewrite Hst in Hg1. destruct (fill_dst_spec g s1) as (fin & s' & k' & taken' & -> & E1 & Hg' & E2 & E3 & Hk' & Htl' & Hfin);
        [apply Hg1; lia | done | done | done | done |]. change (e_gdatabuf s' = taken ++ taken') in E1.
      exists fin, s', alen, (g + k')%nat, (e_gdatabuf s'). split; [done|]. constructor; [done | exact E2 | done | lia |]. destruct fin.
      * destruct Hfin as [Hlen Hlt]. split_and!; [done | done | done | done |]. rewrite E1, length_app, Htl' in Hlt. assert (Hlt' : ((k' + 15) / 16 < 6)%nat) by lia. apply few_blocks in Hlt'. lia.
      * destruct Hfin as [-> H6]. split_and!; [done | apply buffer_holds | lia].
    + destruct Hst as (Ht6 & Hk96 & Hpp). exists false. eexists _, (a + k)%nat, g, taken. split; [reflexivity|]. constructor; [| done | done | lia |].
      * destruct Hg1 as [? ? ? ? ? ? ? ?]; [intros _; rewrite Hpp, G2; lia | by constructor].
      * split_and!; [done | apply buffer_holds | lia].
Qed.

(** ** The main loop *)

Record loop_head (k : nat) (ek : ek_phase) (su : su_phase) (a g : nat) (pend : list bytes) (s : enc_vars) : Prop := {
  lh_aes : aes_head k ek su s;
  lh_gh : gh_part a g pend s;
  lh_cnt : e_gdata_cnt s = length pend;
  lh_few : (length pend <= 6)%nat;
  lh_holds : gdata_holds (e_mem s) (e_gdatabuf s) (e_gdata s) 0 pend;
  lh_behind : (g <= written k)%nat
}.

(** At [Finish] *)
Record loop_end (k : nat) (su : su_phase) (pend : list bytes) (s : enc_vars) : Prop := {
  le_aes : aes_head k EkDone su s;
  le_gh : gh_part alen len pend s;
  le_buf : e_gdatabuf s = pend;
  le_few : (length pend < 6)%nat;
  le_all : (len <= 16 * k)%nat
}.

(** What the memory of the loop has for GHASH *)
Lemma common_memory k ek su s :
  aes_common k ek su s -> paged (e_mem s) /\ octets (e_mem s) /\ holds_at (e_mem s) aad ad /\
  (forall g, (g + 96 <= 16 * k)%nat -> holds_at (e_mem s) (output + Z.of_nat g) (take 96 (drop g ct))).
Proof using Hcall.
  intros [(b & Hb & T1) _ _ _ _ _ _ _]. destruct (base_facts su b Hb) as (Bp & Bo & Bi & Ba & Bm & _). pose proof (ec_aad_apart _ _ _ _ _ _ _ _ _ _ _ _ Hcall) as Hap. unfold apart in Hap.
  split_and!; [exact (text_paged _ _ _ _ _ Bp _ _ T1) | exact (ti_octets _ _ _ _ _ _ _ T1) | |].
  - apply (text_holds _ _ _ _ _ (proj1 (ec_nonce _ _ _ _ _ _ _ _ _ _ _ _ Hcall)) _ _ _ _ T1 Ba). intros x Hx. lia.
  - intros g Hg. pose proof (ti_written _ _ _ _ _ _ _ T1) as Hw. destruct (decide (g <= len)%nat) as [Hle|]; [|rewrite drop_ge, take_nil by (rewrite ct_length; lia); apply holds_nil].
    replace (take 96 (drop g ct)) with (take 96 (drop g (take (written k) ct))).
    + apply holds_take, holds_drop; [rewrite length_take, ct_length; lia | done].
    + rewrite skipn_firstn_comm, take_take. destruct (decide (96 <= written k - g)%nat); [f_equal; lia|]. rewrite !take_ge by (rewrite length_drop, ct_length; lia). done.
Qed.

(** One turn, up to [setup gdata] *)
Lemma turn_spec k ek su a g pend s :
  loop_head k ek su a g pend s ->
  exists bits gst pre s1 ek' su' s2 bits',
    run_aes_ghash ctx (e_bits4keys s) (e_mem s) (e_gdatabuf s) (e_gdata s) (e_gdata_cnt s) 2 (e_bits s) (e_gstate s) (e_ghash_precompute s) = Ok (bits, gst, pre) /\
    enc_apply supp (s <| e_bits := bits |> <| e_gstate := gst |> <| e_ghash_precompute := pre |>) = Ok s1 /\
    AESECB6_INIT ctx supp s1 = Ok s2 /\ AESECB6_UPDATE ctx (e_bits4keys s2) 1 (e_bits s2) = Ok bits' /\
    aes_head (k + 6) ek' su' (s2 <| e_bits := bits' |>) /\ gh_part a g [] (s2 <| e_bits := bits' |>) /\ (ek <> EkWaiting -> ek' = EkDone).
Proof using Hcall.
  intros [Ha Hg Hcnt Hfew Hh Hb]. pose proof Ha as [_ _ _ (key4 & ecb4 & H4 & Hk4 & Hf) _]. destruct (lane4_ready _ _ _ _ H4) as [Hr4 Hsame]. pose proof (ec_ecb _ _ _ _ _ _ _ _ _ _ _ _ Hcall) as Hr.
  pose proof Hg as [Ga Gg G1 G2 G3 G4 G5 G6]. pose proof (ac_bits _ _ _ _ (ah_common _ _ _ _ Ha)) as Hl.
  destruct (run_aes_ghash_spec key key4 ctx ecb4 Hr Hr4 Hsame (hash_key key) size _ (ec_table _ _ _ _ _ _ _ _ _ _ _ _ Hcall) (e_mem s) (e_gdatabuf s) (e_gdata s) pend 1 (lanes k ek su) (e_bits s)
    (e_gstate s) (e_ghash_precompute s) _ Hf Hh G6 Hfew ltac:(lia)) as (bits & gst & Er & Hbits & Hbl & Hhash).
  set (pre := length (_ ++ _)) in *. exists bits, gst, pre.
  pose proof (tail_of_head k ek su s key4 ecb4 bits gst pre Ha H4 Hk4 Hbits ltac:(congruence)) as Ht.
  destruct (enc_apply_spec k ek su _ Ht) as (ek1 & su1 & s1 & Ea & Hbt & Hg1 & Hd1).
  assert (Hgs : gh_part a g [] s1) by (eapply gh_same; [|exact Hg1]; by constructor).
  destruct (enc_init_spec (k + 6) ek1 su1 s1 Hbt) as (ek' & su' & s2 & bits' & Ei & Eu & Hh2 & Hg2 & Hd2); [pose proof (gp_low _ _ _ _ Hgs); lia|].
  exists s1, ek', su', s2, bits'. rewrite (proj1 H4), Hcnt. split_and!; [exact Er | exact Ea | exact Ei | exact Eu | exact Hh2 | by apply (gh_same _ _ _ s1) | auto].
Qed.

Lemma loop_spec fuel k ek su a g pend s :
  loop_head k ek su a g pend s -> ((alen - a) + (len - g) < fuel)%nat -> exists k' su' pend' s', enc_loop ctx supp fuel s = Ok s' /\ loop_end k' su' pend' s'.
Proof using Hcall.
  revert k ek su a g pend s. induction fuel as [|fuel IH]; intros k ek su a g pend s Hh Hf; [lia|].
  destruct (turn_spec k ek su a g pend s Hh) as (bits & gst & pre & s1 & ek' & su' & s2 & bits' & Er & Ea & Ei & Eu & Hh2 & Hg2 & Hd).
  cbn [enc_loop]. rewrite Er. cbn [res_bind]. rewrite Ea. cbn [res_bind]. rewrite Ei. cbn [res_bind]. rewrite Eu. cbn [res_bind]. set (s3 := s2 <| e_bits := bits' |>) in *.
  destruct (common_memory _ _ _ _ (ah_common _ _ _ _ Hh2)) as (Mp & Mo & Ma & Mc). destruct Hh as [Hh1 Hgp _ _ _ Hb].
  destruct (setup_gdata_spec a g s3 Hg2 Mp Mo Ma (Mc g ltac:(lia))) as (fin & s' & a' & g' & pend' & -> & [N1 N2 N3 N4 N5]). cbn [res_bind].
  pose proof (aes_same _ _ _ _ _ Hh2 N2) as Hh3. destruct fin.
  - destruct N5 as (-> & -> & N6 & N7 & N8). exists (k + 6)%nat, su', pend', s'. split; [done|]. pose proof (ah_ek _ _ _ _ Hh1) as He.
    rewrite Hd in Hh3 by (intros ->; lia). by constructor; [..|lia].
  - destruct N5 as (N6 & N7 & N8). pose proof (gp_g _ _ _ _ N1). pose proof (gp_a _ _ _ _ N1). apply (IH (k + 6)%nat ek' su' a' g' pend' s'); [|lia]. constructor; [done | done | done | lia | done | lia].
Qed.

(** ** The whole function *)

Definition su_start : su_phase := match supp with None => SuNone | Some _ => SuWaiting end.

Lemma start_between : aes_between 0 EkWaiting su_start (enc_start ctx supp m0 output input len ctr0 aad alen).
Proof using Hcall.
  destruct (ec_nonce _ _ _ _ _ _ _ _ _ _ _ _ Hcall) as [Hn Hbn]. unfold enc_start.
  assert (Ec : _mm_insert_epi32 ctr0 1 0 = creg 1) by (apply (creg_insert nonce ctr0 1), (ec_ctr _ _ _ _ _ _ _ _ _ _ _ _ Hcall)). rewrite Ec, creg_swap by done.
  constructor; [constructor | done | unfold su_start; by destruct supp | exists key, (fg_ecb ctx); by split; [|left] | done]; cbn [e_mem e_srclen e_src e_dst e_state e_ek0 e_bits]; try done.
  - exists m0. split; [unfold su_start; by destruct supp | apply text_start, (ec_octets _ _ _ _ _ _ _ _ _ _ _ _ Hcall)].
  - lia.
  - lia.
  - lia.
  - unfold su_start. by destruct supp.
  - unfold su_ok, su_start. destruct supp; [by eexists | done].
Qed.

Lemma start_gh : gh_part 0 0 [] (enc_start ctx supp m0 output input len ctr0 aad alen).
Proof using Hcall.
  destruct (ec_bytes _ _ _ _ _ _ _ _ _ _ _ _ Hcall) as [Htb Hab]. constructor; cbn [enc_start e_aadlen e_aad e_dst_ghash e_dst_ghashlen e_gstate e_ghash_precompute]; try lia.
  rewrite !drop_0. cbn [app]. assert (Hl : length (auth_blocks ad ct) = size) by (unfold auth_blocks; rewrite !length_app, !length_pblocks, ct_length; cbn [length]; lia).
  pose proof (hashing_start (hash_key key) size _ (auth_blocks ad ct) (auth_blocks_block ad ct Hab ct_bytes) ltac:(lia) eq_refl) as Hst. rewrite Hl in Hst. exact Hst.
Qed.

(** The first blocks come from the additional data only. *)
Definition first_gdata (s : enc_vars) : res enc_vars :=
  if negb (alen =? 0)%nat then
    let! '(_, p, len, buf) := fill 6 (e_mem s) (e_aad s) (e_aadlen s) [] in
    Ok (s <| e_gdatabuf := buf |> <| e_gdata_cnt := length buf |> <| e_aad := p |> <| e_aadlen := len |>)
  else Ok s.
Lemma first_gdata_spec ek su s :
  aes_head 0 ek su s -> gh_part 0 0 [] s -> e_gdata_cnt s = 0%nat -> e_gdata s = InBuffer -> exists a pend s', first_gdata s = Ok s' /\ loop_head 0 ek su a 0 pend s'.
Proof using Hcall.
  intros Ha Hg Hc Hd. pose proof Hg as [Ga Gg G1 G2 G3 G4 G5 G6]. unfold first_gdata. destruct (Nat.eqb_spec alen 0) as [E0|E0]; cbn [negb].
  - exists 0%nat, [], s. split; [done|]. constructor; [done | done | done | cbn; lia | by intros i b Hb | lia].
  - destruct (common_memory _ _ _ _ (ah_common _ _ _ _ Ha)) as (Mp & Mo & Ma & _). rewrite G1.
    destruct (aad_fill_spec 6 0 (e_mem s) (e_aad s) Ga Mp Mo Ma G2) as (stopped & p' & k & taken & -> & Hpb & Hk & Ht & Htl & Hst). cbn [res_bind].
    exists k, taken. eexists. split; [reflexivity|]. constructor; [by apply (aes_same _ _ _ s) | | done | done | vars; rewrite Hd; apply buffer_holds | lia].
    constructor; vars; try done; [destruct stopped; [lia|]; intros Hlt; destruct Hst as (? & ? & ->); rewrite G2; lia|].
    rewrite Hpb, <- app_assoc in G6. exact G6.
Qed.

(** The block behind [supp->ctx], or nothing *)
Definition supp_result (m : memory) : Prop :=
  match supp with
  | None => True
  | Some sp => exists sample, length sample = 16%nat /\ holds_at m (supp_input sp) sample /\ holds_at m (supp_output sp) (fips_aes skey sample)
  end.
Definition untouched (m : memory) : Prop :=
  forall a, ~ (output <= a < output + Z.of_nat (len + 16)) -> (forall sp, supp = Some sp -> ~ (supp_output sp <= a < supp_output sp + 16)) -> m !! a = m0 !! a.

(** The tag does not reach the sample when that was read before. *)
Lemma sample_kept k x s tag m :
  sampled k x (e_mem s) -> stored (e_mem s) (output + Z.of_nat len) tag m -> match supp with None => False | Some sp => holds_at m (supp_input sp) x end.
Proof.
  intros [[Hl _] Hx] Hst. destruct supp as [sp|]; [|done]. destruct Hx as [Hh Hle]. apply (stored_holds _ _ _ _ _ _ Hst); [|done]. rewrite Hl. unfold apart. lia.
Qed.

(** The rounds that are left at the end *)
Lemma finish_rounds sp x i :
  supp = Some sp -> block x -> (i <= 1)%nat ->
  (let! bits4 := aesenc_rounds (ecb_keys (ctr_fusion (supp_ctx sp))) (ecb_rounds (fg_ecb ctx) - S i) (S i) (aes_upto (key_words skey) i x) in
   let! k := get_key (ecb_keys (ctr_fusion (supp_ctx sp))) (ecb_rounds (fg_ecb ctx)) in Ok (_mm_aesenclast_si128 bits4 k)) = Ok (fips_aes skey x).
Proof using Hcall.
  intros Esp Hx Hi. pose proof (ec_supp _ _ _ _ _ _ _ _ _ _ _ _ Hcall) as Hs. rewrite Esp in Hs. destruct Hs as (Hr & Hls & _).
  pose proof (rounds_pos skey _ Hr) as Hp. rewrite (ecb_count _ _ (ec_ecb _ _ _ _ _ _ _ _ _ _ _ _ Hcall)), <- Hls. rewrite (aesenc_rounds_spec skey _ Hr) by (done || lia). cbn [res_bind].
  rewrite (ready_key skey _ Hr) by lia. cbn [res_bind]. replace (i + (fips_rounds (length skey) - S i))%nat with (fips_rounds (length skey) - 1)%nat by lia. by rewrite (upto_last skey _ Hr).
Qed.

Lemma finish_block k su pend s tag m :
  loop_end k su pend s -> length tag = 16%nat -> is_bytes tag -> stored (e_mem s) (output + Z.of_nat len) tag m ->
  match su with SuNone | SuDone _ => False | _ => True end ->
  exists sp x, supp = Some sp /\ block x /\ holds_at m (supp_input sp) x /\ finish_supp ctx supp (s <| e_mem := m |>) = store m (supp_output sp) (fips_aes skey x).
Proof using Hcall.
  intros [Ha _ _ _ Hall] Hlt Hbt Hst Hsu. destruct Ha as [[(b & Hb & T1) T2 T3 T4 T5 T6 T7 T8] _ Hah (key4 & ecb4 & H4 & Hk4 & Hf) _].
  pose proof (ec_supp _ _ _ _ _ _ _ _ _ _ _ _ Hcall) as Hs. unfold finish_supp. vars. rewrite T5, st_used, st_process. destruct su as [| |x|x]; try done; cbn [negb]; cbn [su_ok] in T7.
  - destruct T7 as [sp Esp]. rewrite Esp in Hs. destruct Hs as (Hr & Hls & Hmi & _). cbn [base] in Hb. subst b.
    destruct (mapped_holds m (supp_input sp) 16) as (x & Hx & Lx & Bx); [by apply (stored_octets _ _ _ _ Hst); [apply (ti_octets _ _ _ _ _ _ _ T1)|] | apply (stored_maps _ _ _ _ _ _ Hst), (text_mapped _ _ _ _ _ _ _ _ _ T1 Hmi)|].
    exists sp, x. split_and!; [done | done | done | ]. rewrite Esp. unfold _mm_loadu_si128. rewrite (load_ok _ _ x) by done. cbn [res_bind]. rewrite (ready_key skey _ Hr) by lia. cbn [res_bind]. rewrite upto_0.
    pose proof (finish_rounds sp x 0 Esp (conj Lx Bx) ltac:(lia)) as Hgo. destruct (aesenc_rounds _ _ 1 _) as [bits4| |]; [|done|done]. cbn [res_bind] in *. destruct (get_key _ _) as [kk| |]; [|done|done]. cbn [res_bind] in *. by injection Hgo as ->.
  - pose proof (sample_kept k x s tag m T7 Hst) as Hk. destruct T7 as [Hx Hsp]. assert (exists sp, supp = Some sp) as [sp Esp] by (destruct supp; [by eexists | done]).
    rewrite Esp in Hk, Hs. exists sp, x. split_and!; [done | done | done |]. rewrite Esp. cbn [res_bind].
    destruct (Hf 4%nat x) as [_ Hl4]; [unfold lanes; rewrite (proj2 (Nat.ltb_ge (16 * (k + 4)) len)) by lia; by rewrite andb_false_r|].
    rewrite (list_lookup_total_correct _ _ _ Hl4). change (lane_key key key4 4) with key4. rewrite Hk4. destruct H4 as [E4 H4].
    assert (Ekeys : e_bits4keys s = ecb_keys (ctr_fusion (supp_ctx sp))).
    { rewrite E4. destruct H4 as [[Hkk ->] | [H4 _]]; [|rewrite Esp in H4; by destruct H4 as [_ ->]].
      apply (ready_unique key); [apply (ec_ecb _ _ _ _ _ _ _ _ _ _ _ _ Hcall) | rewrite <- Hkk, Hk4; apply Hs]. }
    rewrite Ekeys. pose proof (finish_rounds sp x 1 Esp Hx ltac:(lia)) as Hgo. destruct (aesenc_rounds _ _ 2 _) as [bits4| |]; [|done|done]. cbn [res_bind] in *. destruct (get_key _ _) as [kk| |]; [|done|done]. cbn [res_bind] in *. by injection Hgo as ->.
Qed.

Lemma tag_stored k su pend s tag m :
  loop_end k su pend s -> length tag = 16%nat -> stored (e_mem s) (output + Z.of_nat len) tag m ->
  exists b, base su b /\ holds_at m output (ct ++ tag) /\ (forall a, ~ (output <= a < output + Z.of_nat (len + 16)) -> m !! a = b !! a) /\
    (forall a, is_Some (m !! a) <-> is_Some (m0 !! a)).
Proof using Hcall.
  intros [[[(b & Hb & T1) _ _ _ _ _ _ _] _ _ _ _] _ _ _ Hall] Hl Hst. exists b. replace (written k) with len in T1 by lia. split_and!; [done | | |].
  - apply holds_at_app. rewrite ct_length. split; [|exact (stored_here _ _ _ _ Hst)]. pose proof (ti_written _ _ _ _ _ _ _ T1) as Hw. rewrite take_ge in Hw by (rewrite ct_length; lia).
    apply (stored_holds _ _ _ _ _ _ Hst); [rewrite ct_length; unfold apart; lia | done].
  - intros a Ha. rewrite (stored_else _ _ _ _ Hst) by lia. apply (ti_frame _ _ _ _ _ _ _ T1). lia.
  - intros a. rewrite (stored_mapped _ _ _ _ Hst), (ti_domain _ _ _ _ _ _ _ T1). apply (base_facts su b Hb).
Qed.

Lemma finish_spec k su pend s tag m :
  loop_end k su pend s -> length tag = 16%nat -> is_bytes tag -> stored (e_mem s) (output + Z.of_nat len) tag m ->
  exists m', finish_supp ctx supp (s <| e_mem := m |>) = Ok m' /\ holds_at m' output (ct ++ tag) /\ supp_result m' /\ untouched m'.
Proof using Hcall.
  intros Hend Hl Hbt Hst. destruct (tag_stored k su pend s tag m Hend Hl Hst) as (b & Hb & Hw & Hf & Hdom). pose proof (ec_supp _ _ _ _ _ _ _ _ _ _ _ _ Hcall) as Hs.
  pose proof (ac_state _ _ _ _ (ah_common _ _ _ _ (le_aes _ _ _ _ Hend))) as T5. pose proof (ac_su _ _ _ _ (ah_common _ _ _ _ (le_aes _ _ _ _ Hend))) as T7.
  assert (Hblock : match su with SuNone | SuDone _ => False | _ => b = m0 end ->
    exists m', finish_supp ctx supp (s <| e_mem := m |>) = Ok m' /\ holds_at m' output (ct ++ tag) /\ supp_result m' /\ untouched m').
  { intros Hsu. assert (b = m0) as -> by (by destruct su). destruct (finish_block k su pend s tag m Hend Hl Hbt Hst) as (sp & x & Esp & [Lx Bx] & Hx & ->); [by destruct su|].
    rewrite Esp in Hs. destruct Hs as (Hr & Hls & Hmi & Hmo & A1 & _ & _ & A4). destruct (fips_block skey _ Hr x (conj Lx Bx)) as [Lb Bb].
    destruct (store_spec m (supp_output sp) (fips_aes skey x)) as (m' & -> & Hs'); [rewrite Lb; intros i Hi; by apply Hdom, Hmo|]. exists m'. split_and!; [done | | |].
    - apply (stored_holds _ _ _ _ _ _ Hs'); [rewrite length_app, ct_length, Hl, Lb; unfold apart in *; lia | done].
    - unfold supp_result. rewrite Esp. exists x. split_and!; [done | | exact (stored_here _ _ _ _ Hs')]. apply (stored_holds _ _ _ _ _ _ Hs'); [rewrite Lx, Lb; unfold apart in *; lia | done].
    - intros a Ha Hna. specialize (Hna sp Esp). rewrite (stored_else _ _ _ _ Hs') by (rewrite Lb; lia). by apply Hf. }
  assert (Hquiet : match su with SuNone | SuDone _ => True | _ => False end -> finish_supp ctx supp (s <| e_mem := m |>) = Ok m) by (intros Hsu; unfold finish_supp; vars; rewrite T5, st_used; by destruct su).
  destruct su as [| |x|x]; [| by apply Hblock | by apply Hblock |]; rewrite Hquiet by done; exists m.
  - cbn [base] in Hb. subst b. split_and!; [done | done | unfold supp_result; cbn in T7; by rewrite T7 | intros a Ha _; by apply Hf].
  - cbn [base] in Hb. cbn [su_ok] in T7. pose proof (sample_kept _ _ _ _ _ T7 Hst) as Hk. destruct T7 as [[Lx Bx] _]. assert (exists sp, supp = Some sp) as [sp Esp] by (destruct supp; [by eexists | done]).
    unfold supp_result, untouched. rewrite Esp in *. destruct Hs as (Hr & Hls & Hmi & Hmo & A1 & _). destruct Hb as [_ Hsb]. destruct (fips_block skey _ Hr x (conj Lx Bx)) as [Lb _].
    split_and!; [done | done | exists x; split_and!; [done | done|] |].
    + intros i c Hc. pose proof (lookup_lt_Some _ _ _ Hc). rewrite Hf by (unfold apart in A1; lia). by apply (stored_here _ _ _ _ Hsb).
    + intros a Ha Hna. rewrite Hf by done. apply (stored_else _ _ _ _ Hsb). specialize (Hna sp eq_refl). rewrite Lb. lia.
Qed.

(** The fusion engine encrypts as SP 800-38D says. *)
Lemma fusion_encrypt_spec :
  exists m', ptls_fusion_aesgcm_encrypt ctx supp m0 output input len ctr0 aad alen = Ok m' /\
    holds_at m' output (ct ++ gcm_tag E nonce ad ct 16) /\ supp_result m' /\ untouched m'.
Proof using Hcall.
  destruct (ec_nonce _ _ _ _ _ _ _ _ _ _ _ _ Hcall) as [Hn Hbn]. destruct (ec_bytes _ _ _ _ _ _ _ _ _ _ _ _ Hcall) as [Htb Hab]. destruct (ec_small _ _ _ _ _ _ _ _ _ _ _ _ Hcall) as [Hst Hsa].
  unfold ptls_fusion_aesgcm_encrypt. pose proof (calc_ac_spec ad ct Hsa ltac:(by rewrite ct_length)) as Eac. rewrite ct_length in Eac. rewrite Eac. cbn [res_bind].
  destruct (enc_init_spec 0 EkWaiting su_start _ start_between) as (ek & su & s1 & bits & Ei & Eu & Hh & Hg & _); [pose proof (gp_low _ _ _ _ start_gh); lia|].
  rewrite Ei. cbn [res_bind]. rewrite Eu. cbn [res_bind]. assert (Hgp : gh_part 0 0 [] (s1 <| e_bits := bits |>)) by (by apply (gh_same _ _ _ _ _ start_gh)).
  destruct (first_gdata_spec ek su _ Hh Hgp) as (a & pend & s2 & Ef & Hl2); [unfold gh_of in Hg; by injection Hg | unfold gh_of in Hg; by injection Hg|].
  unfold first_gdata in Ef. rewrite Ef. cbn [res_bind].
  destruct (loop_spec (S (alen + len)) _ _ _ _ _ _ _ Hl2 ltac:(lia)) as (k & su' & pend' & s3 & -> & Hend). cbn [res_bind]. pose proof Hend as [Ha3 Hg3 Hb3 Hf3 Hall3].
  rewrite Hb3, (proj2 (Nat.ltb_lt _ _)) by done. cbn [res_bind]. destruct Ha3 as [[T1 T2 T3 T4 T5 T6 T7 T8] _ _ _ _].
  assert (STATE_EK0_READY (e_state s3) = true) as -> by (rewrite T5; by destruct su'). cbn [c_assert res_bind].
  pose proof (gp_hash _ _ _ _ Hg3) as Hh3. rewrite drop_all, (drop_ge ct) in Hh3 by (rewrite ct_length; lia). rewrite !pblocks_nil in Hh3. cbn [app] in Hh3.
  destruct (feed_all_spec (hash_key key) (fg_ghash ctx) size (hash_sum (hash_key key) (auth_blocks ad ct)) (ec_table _ _ _ _ _ _ _ _ _ _ _ _ Hcall) ctx (pend' ++ [gcm_lengths ad ct]) (e_gstate s3) (e_ghash_precompute s3) [] eq_refl) as (g & -> & Hfed); [by rewrite app_nil_r|].
  cbn [res_bind]. destruct (hashed_tag key _ nonce ad ct _ _ g (ec_ecb _ _ _ _ _ _ _ _ _ _ _ _ Hcall) Hn Hbn Hab ct_bytes Hfed) as [Etag [Ltag Btag]]. rewrite T6, Etag, T4. replace (written k) with len by lia.
  destruct T1 as (b & Hb & T1). destruct (base_facts su' b Hb) as (_ & _ & _ & _ & Bm & _).
  destruct (store_spec (e_mem s3) (output + Z.of_nat len) (gcm_tag E nonce ad ct 16)) as (m & Em & Hm); [rewrite Ltag; apply (text_mapped _ _ _ _ _ _ _ _ _ T1), (mapped_sub b output (len + 16)); [done | lia]|].
  unfold _mm_storeu_si128. rewrite Em. cbn [res_bind]. apply (finish_spec k su' pend' s3 _ m Hend Ltag Btag Hm).
Qed.
End EncryptProof.
