(* ===== verification/FusionDecrypt.v ===== *)
(** * FusionDecrypt: the fusion engine decrypts as SP 800-38D says

    Proofs about [ptls_fusion_aesgcm_decrypt].  At the head of the main loop, block [k] of
    the text is the next one to be written; GHASH took [a] octets of the additional data
    and [g] of the ciphertext, and is never behind AES ([16 k <= g]), so that decryption
    in place hashes the ciphertext before it is overwritten. *)
From stdpp Require Import gmap.
From S2P Require Import Prelude Limbs Bitops Blockwise Aes Ctr Gcm Gf2 Simd FusionLoad FusionAes FusionGhash FusionGcm FusionCore FusionText.

(** Variables behind assignments *)
Ltac dvars := cbn [field_update d_mem d_ctr d_ek0 d_bits d_gstate d_gdatabuf d_gdata d_gdata_cnt d_src_ghash d_src_ghashlen d_src_aes d_src_aeslen d_dst d_aad d_aadlen
  d_nondata_aes_cnt d_ghash_precompute d_state].

(** What a call needs from its arguments; [t] is the tag that was received. *)
Record dec_call (key : bytes) (ctx : ptls_fusion_aesgcm_context) (m0 : memory) (output input : Z) (text : bytes) (nonce : bytes) (aad : Z) (ad : bytes)
    (tag : Z) (t : bytes) : Prop := {
  dc_ecb : ecb_ready key (fg_ecb ctx);
  dc_table : table_ok (hash_key key) (fg_ghash ctx) ((length ad + 15) / 16 + (length text + 15) / 16 + 1);
  dc_nonce : length nonce = 12%nat /\ is_bytes nonce;
  dc_bytes : is_bytes text /\ is_bytes ad;
  dc_small : Z.of_nat (length text) < 2 ^ 28 /\ Z.of_nat (length ad) < 2 ^ 28;
  dc_paged : paged m0;
  dc_octets : octets m0;
  dc_in : holds_at m0 input text;
  dc_aad : holds_at m0 aad ad;
  dc_out : mapped m0 output (length text);
  dc_over : output <= input \/ input + Z.of_nat (length text) <= output;
  dc_aad_apart : apart aad (Z.of_nat (length ad)) output (Z.of_nat (length text));
  dc_tag : length t = 16%nat /\ holds_at m0 tag t /\ apart tag 16 output (Z.of_nat (length text))
}.

Section DecryptProof.
Context (key : bytes) (ctx : ptls_fusion_aesgcm_context) (m0 : memory) (output input : Z) (text nonce : bytes) (aad : Z) (ad : bytes) (tag : Z) (t : bytes).
Hypothesis Hcall : dec_call key ctx m0 output input text nonce aad ad tag t.
Notation E := (fips_aes key).
Notation len := (length text).
Notation alen := (length ad).
Notation ac := (gcm_lengths ad text).
Notation cblock := (cblock nonce).
Notation creg := (creg nonce).
Notation text_inv := (text_inv (fips_aes key) nonce text m0 output).
Notation size := ((alen + 15) / 16 + (len + 15) / 16 + 1)%nat.
Notation hashing := (hashing (hash_key key) size (hash_sum (hash_key key) (auth_blocks ad text))).

Definition dst_of (first more : bool) : Z := (if first then 1 else 0) + (if more then 2 else 0).
Lemma dst_first first more : (Z.land (dst_of first more) STATE_IS_FIRST_RUN =? 0) = negb first.
Proof. by destruct first, more. Qed.
Lemma dst_more first more : (Z.land (dst_of first more) STATE_GHASH_HAS_MORE =? 0) = negb more.
Proof. by destruct first, more. Qed.
Lemma dst_no_more first : Z.land (dst_of first true) (Z.lnot STATE_GHASH_HAS_MORE) = dst_of first false.
Proof. by destruct first. Qed.
Lemma dst_not_first more : Z.land (dst_of true more) (Z.lnot STATE_IS_FIRST_RUN) = dst_of false more.
Proof. by destruct more. Qed.

(** The variables of AES; [n] is [nondata_aes_cnt]. *)
Record dec_aes (k : nat) (first more : bool) (n : nat) (s : dec_vars) : Prop := {
  da_text : text_inv (16 * k) (d_mem s);
  da_k : (16 * k <= len)%nat;
  da_src : d_src_aes s = input + 16 * Z.of_nat k;
  da_dst : d_dst s = output + 16 * Z.of_nat k;
  da_len : d_src_aeslen s = (len - 16 * k)%nat;
  da_ctr : d_ctr s = creg (k + 1);
  da_state : d_state s = dst_of first more;
  da_nondata : d_nondata_aes_cnt s = n;
  da_bits : length (d_bits s) = 6%nat;
  da_first : if first then (1 <= n)%nat /\ d_bits s !! 0%nat = Some (aes_upto (key_words key) 0 (cblock 1)) else d_ek0 s = E (cblock 1)
}.

(** The variables of GHASH; [pend] is taken and not fed. *)
Definition to_feed (a g : nat) (more : bool) : list bytes := pblocks (drop a ad) ++ pblocks (drop g text) ++ (if more then [ac] else []).
Record dec_gh (a g : nat) (more : bool) (pend : list bytes) (s : dec_vars) : Prop := {
  dg_a : (a <= alen)%nat;
  dg_g : (g <= len)%nat;
  dg_aadlen : d_aadlen s = (alen - a)%nat;
  dg_aad : (a < alen)%nat -> d_aad s = aad + Z.of_nat a;
  dg_len : d_src_ghashlen s = (len - g)%nat;
  dg_ptr : (g < len)%nat -> d_src_ghash s = input + Z.of_nat g;
  dg_more : more = false -> a = alen /\ g = len;
  dg_hash : hashing (d_gstate s) (d_ghash_precompute s) (pend ++ to_feed a g more)
}.

(** *** Setting up the blocks for GHASH *)

Definition daes_of (s : dec_vars) := (d_mem s, d_ctr s, d_ek0 s, d_bits s, d_src_aes s, d_src_aeslen s, d_dst s).

Lemma fill_src_spec g first more s :
  dec_gh alen g more (d_gdatabuf s) s -> d_state s = dst_of first more -> d_gdata s = InBuffer ->
  paged (d_mem s) -> octets (d_mem s) -> holds_at (d_mem s) (input + Z.of_nat g) (take 96 (drop g text)) -> (length (d_gdatabuf s) <= 6)%nat ->
  exists s' g' more', fill_src ac s = Ok s' /\ dec_gh alen g' more' (d_gdatabuf s') s' /\ daes_of s' = daes_of s /\ d_state s' = dst_of first more' /\
    d_nondata_aes_cnt s' = d_nondata_aes_cnt s /\ d_gdata s' = InBuffer /\ d_gdata_cnt s' = length (d_gdatabuf s') /\ (length (d_gdatabuf s') <= 6)%nat /\
    (g <= g')%nat /\ ((g' < len)%nat -> g' = (g + 16 * (6 - length (d_gdatabuf s)))%nat).
Proof using Hcall.
  intros [Ga Gg G1 G2 G3 G4 Gm G6] Hs Hgd Hp Ho Hr H6. destruct (dc_bytes _ _ _ _ _ _ _ _ _ _ _ Hcall) as [Htb _]. unfold fill_src. set (n := (6 - length (d_gdatabuf s))%nat).
  destruct (gather_spec n (d_mem s) (d_src_ghash s) text g input (d_gdatabuf s) Hp Ho Htb Gg G4) as (stopped & p' & k & taken & Ef & Hpb & Hk & Hkn & Hp' & Ht & Htl & Hst).
  { replace (take (16 * n) (drop g text)) with (take (16 * n) (take 96 (drop g text))) by (rewrite take_take; f_equal; lia). by apply holds_take. }
  rewrite G3, Ef. cbn [res_bind]. dvars. rewrite Hs, dst_more, negb_involutive.
  assert (Hfeed : d_gdatabuf s ++ to_feed alen g more = (d_gdatabuf s ++ taken) ++ to_feed alen (g + k) more).
  { unfold to_feed. rewrite drop_all, pblocks_nil. cbn [app]. by rewrite Hpb, <- !app_assoc. }
  rewrite Hfeed in G6. rewrite length_app. destruct (stopped && (length (d_gdatabuf s) + length taken <? 6)%nat && more) eqn:Ec.
  - apply andb_prop in Ec as [Ec ->]. apply andb_prop in Ec as [-> Elt]. apply Nat.ltb_lt in Elt. eexists _, len, false. split; [reflexivity|]. dvars. rewrite dst_no_more, !length_app. cbn [length].
    split_and!; try done; try lia. constructor; dvars; try done; try lia. replace (g + k)%nat with len in G6 by lia.
    unfold to_feed in *. rewrite !drop_all, pblocks_nil in *. cbn [app] in *. by rewrite app_nil_r.
  - eexists _, (g + k)%nat, more. split; [reflexivity|]. dvars. rewrite !length_app. split_and!; try done; try lia; [|destruct stopped; lia].
    constructor; dvars; try done; try lia.
    + intros Hlt. destruct stopped; [lia|]. destruct Hst as (? & ? & ->). rewrite G4; lia.
    + intros Hmf. destruct (Gm Hmf). lia.
Qed.

Lemma dec_aes_same k first more more' n n' s s' :
  dec_aes k first more n s -> daes_of s' = daes_of s -> d_state s' = dst_of first more' -> d_nondata_aes_cnt s' = n' -> (n <= n')%nat -> dec_aes k first more' n' s'.
Proof.
  destruct s, s'. unfold daes_of. cbn. intros [? ? ? ? ? ? ? ? ? Hf] [= -> -> -> -> -> -> ->] Hs Hn Hle. constructor; try done. destruct first; [|done]. destruct Hf. split; [lia | done].
Qed.

(** What the next turn feeds; [nb] lanes make room for the additional data. *)
Record dec_next (k : nat) (first more : bool) (a g : nat) (s' : dec_vars) (a' g' : nat) (more' : bool) (pend : list bytes) (nb : nat) : Prop := {
  dn_aes : dec_aes k first more' ((if first then 1 else 0) + nb) s';
  dn_gh : dec_gh a' g' more' pend s';
  dn_cnt : d_gdata_cnt s' = length pend;
  dn_few : (length pend <= 6)%nat;
  dn_holds : gdata_holds (d_mem s') (d_gdatabuf s') (d_gdata s') 0 pend;
  dn_g : (g <= g')%nat;
  dn_nb : (nb <= 6)%nat;
  dn_aad : (a' < alen)%nat -> nb = 6%nat;
  dn_text : (g' < len)%nat -> g' = (g + 16 * (6 - nb))%nat;
  dn_progress : (a <= a')%nat /\ ((0 < nb)%nat -> (a < a')%nat)
}.

Lemma dec_memory k first more n s :
  dec_aes k first more n s -> paged (d_mem s) /\ octets (d_mem s) /\ holds_at (d_mem s) aad ad /\
  (forall g, (16 * k <= g <= len)%nat -> holds_at (d_mem s) (input + Z.of_nat g) (drop g text)).
Proof using Hcall.
  intros [T1 T2 _ _ _ _ _ _ _ _]. destruct Hcall as [_ _ [Hn _] _ _ Hp Ho Hin Had _ Hov Hap _]. unfold apart in Hap.
  split_and!; [exact (text_paged _ _ _ _ _ Hp _ _ T1) | exact (ti_octets _ _ _ _ _ _ _ T1) | |].
  - apply (text_holds _ _ _ _ _ Hn _ _ _ _ T1 Had). lia.
  - intros g Hg. apply (text_holds _ _ _ _ _ Hn _ _ _ _ T1); [apply holds_drop; [lia | done] | rewrite length_drop; lia].
Qed.

Lemma dec_setup_spec k first more a g s :
  dec_aes k first more (if first then 1 else 0) s -> dec_gh a g more [] s -> (16 * k <= g)%nat ->
  exists s' a' g' more' pend nb, dec_setup_gdata ac s = Ok s' /\ dec_next k first more a g s' a' g' more' pend nb.
Proof using Hcall.
  intros Ha Hg Hk. pose proof Hg as [Ga Gg G1 G2 G3 G4 Gm G6]. destruct (dec_memory _ _ _ _ _ Ha) as (Mp & Mo & Ma & Mt).
  assert (Hr : holds_at (d_mem s) (input + Z.of_nat g) (take 96 (drop g text))) by (apply holds_take, Mt; lia).
  unfold dec_setup_gdata. rewrite G1. destruct (Nat.eqb_spec (alen - a) 0) as [Ea|Ea]; cbn [negb].
  - assert (a = alen) as -> by lia. rewrite G3. destruct (Nat.leb_spec (6 * 16) (len - g)) as [H96|H96].
    + eexists _, alen, (g + 96)%nat, more, (blocks_of 16 6 (drop g text)), 0%nat. split; [reflexivity|].
      assert (Hl : length (drop g text) = (len - g)%nat) by (by rewrite length_drop).
      constructor; try done; try lia; [apply (dec_aes_same k first more more (if first then 1 else 0)%nat _ s _ Ha); [done | apply Ha | rewrite Nat.add_0_r; apply Ha | lia] | |].
      * constructor; dvars; try done; try lia; [intros Hm; destruct (Gm Hm); lia|]. unfold to_feed in *. rewrite (pblocks_split 6 (drop g text)) in G6 by lia. rewrite drop_drop in G6.
        rewrite drop_all, pblocks_nil in *. cbn [app] in *. rewrite <- app_assoc in G6. exact G6.
      * intros i b Hb. pose proof (lookup_lt_Some _ _ _ Hb) as Hi. rewrite length_blocks_of in Hi. rewrite blocks_of_lookup in Hb by done. injection Hb as <-.
        dvars. cbn [gdata_at Nat.add]. rewrite G4 by lia. unfold _mm_loadu_si128. apply load_ok; [|rewrite length_take, !length_drop; lia].
        rewrite drop_drop. replace (input + Z.of_nat g + 16 * Z.of_nat i) with (input + Z.of_nat (g + i * 16)) by lia. apply holds_take, Mt. lia.
    + destruct (fill_src_spec g first more (s <| d_gdata := InBuffer |> <| d_gdatabuf := [] |> <| d_gdata_cnt := 0%nat |>)) as (s' & g' & more' & -> & Hg' & E1 & E2 & E3 & E4 & E5 & E6 & E7 & E8);
        [by constructor | apply Ha | done | done | done | done | cbn; lia|].
      exists s', alen, g', more', (d_gdatabuf s'), 0%nat. split; [done|].
      constructor; try done; try lia; [apply (dec_aes_same k first more more' (if first then 1 else 0)%nat _ s _ Ha); [done | done | rewrite E3, Nat.add_0_r; apply Ha | lia] | rewrite E4; apply buffer_holds].
  - destruct (gather_spec 6 (d_mem s) (d_aad s) ad a aad [] Mp Mo (proj2 (dc_bytes _ _ _ _ _ _ _ _ _ _ _ Hcall)) Ga G2) as (stopped & p' & k' & taken & -> & Hpb & Hk' & Hkn & _ & Ht & Htl & Hst);
      [by apply holds_take, holds_drop|]. cbn [res_bind app].
    assert (Hpos : (0 < length taken -> a < a + k')%nat) by (intros Hp; enough (k' <> 0)%nat by lia; intros ->; change ((0 + 15) / 16)%nat with 0%nat in Htl; lia).
    set (s1 := s <| d_gdata := InBuffer |> <| d_gdatabuf := taken |> <| d_gdata_cnt := length taken |> <| d_aad := p' |> <| d_aadlen := (alen - (a + k'))%nat |>
                 <| d_nondata_aes_cnt := (d_nondata_aes_cnt s + length taken)%nat |>).
    assert (Hmore : more = true) by (destruct more; [done|]; destruct (Gm eq_refl); lia).
    assert (Hg1 : dec_gh (a + k') g more taken s1).
    { constructor; dvars; try done; try lia; [intros Hlt; change (d_aad s1) with p'; destruct stopped; [lia|]; destruct Hst as (? & ? & Hpp); specialize (G2 ltac:(lia)); lia | by rewrite Hmore|].
      unfold to_feed in *. rewrite Hpb, <- app_assoc in G6. exact G6. }
    pose proof (da_nondata _ _ _ _ _ Ha) as Hn. destruct stopped.
    + rewrite Hst in Hg1. destruct (fill_src_spec g first more s1) as (s' & g' & more' & -> & Hg' & E1 & E2 & E3 & E4 & E5 & E6 & E7 & E8); [done | apply Ha | done | done | done | done | done|].
      exists s', alen, g', more', (d_gdatabuf s'), (length taken). split; [done|]. change (d_nondata_aes_cnt s' = (d_nondata_aes_cnt s + length taken)%nat) in E3.
      constructor; try done; try lia; [apply (dec_aes_same k first more more' (if first then 1 else 0)%nat _ s _ Ha); [done | done | by rewrite E3, Hn | lia] | rewrite E4; apply buffer_holds].
    + destruct Hst as (Ht6 & Hk96 & Hpp). exists s1, (a + k')%nat, g, more, taken, 6%nat. split; [done|].
      constructor; try done; try lia; [apply (dec_aes_same k first more more (if first then 1 else 0)%nat _ s _ Ha); [done | apply Ha | change (d_nondata_aes_cnt s + length taken = (if first then 1 else 0) + 6)%nat; by rewrite Hn, Ht6 | lia] | apply buffer_holds].
Qed.

(** *** The lanes *)

Definition dlanes (k : nat) (first : bool) (n j : nat) : option bytes :=
  if (j <? n)%nat then (if first && (j =? 0)%nat then Some (cblock 1) else None)
  else if (j <? 6)%nat then Some (cblock (k + (j - n) + 2)) else None.

Lemma init_bits_spec k first more n s :
  dec_aes k first more n s ->
  exists bits, dec_init_bits ctx s = Ok (s <| d_ctr := creg (k + 1 + (6 - n)) |> <| d_bits := bits |>) /\ inflight key key 0 (dlanes k first n) bits /\ length bits = 6%nat.
Proof using Hcall.
  intros [T1 T2 T3 T4 T5 T6 T7 T8 T9 Tf]. destruct (dc_nonce _ _ _ _ _ _ _ _ _ _ _ Hcall) as [Hn Hb]. destruct (dc_small _ _ _ _ _ _ _ _ _ _ _ Hcall) as [Hsm _].
  assert (Hfirst : forall bits : list m128, (1 <= n)%nat -> bits !! 0%nat = d_bits s !! 0%nat -> forall x, dlanes k first n 0 = Some x -> block x /\ bits !! 0%nat = Some (aes_upto (key_words (lane_key key key 0)) 0 x)).
  { intros bits Hn1 E0 x. unfold dlanes. rewrite (proj2 (Nat.ltb_lt 0 n)) by lia. cbn [Nat.eqb]. rewrite andb_true_r. destruct first; [|done]. intros [= <-]. destruct Tf as [_ Tf].
    split; [by apply cblock_block|]. rewrite E0. exact Tf. }
  unfold dec_init_bits. rewrite T8. destruct (Nat.ltb_spec 5 n) as [H5|H5].
  - exists (d_bits s). split_and!; [|intros j x Hx |done].
    + replace (6 - n)%nat with 0%nat by lia. rewrite Nat.add_0_r, <- T6. by destruct s.
    + destruct j as [|j]; [exact (Hfirst (d_bits s) ltac:(lia) eq_refl x Hx)|]. unfold dlanes in Hx. destruct (Nat.ltb_spec (S j) n); [by rewrite andb_false_r in Hx|]. by rewrite (proj2 (Nat.ltb_ge _ _)) in Hx by lia.
  - rewrite T6, counters_spec by (done || lia). rewrite (ready_key key _ (dc_ecb _ _ _ _ _ _ _ _ _ _ _ Hcall)) by lia. cbn [res_bind]. eexists. split; [reflexivity|].
    set (new := map _ _). assert (Hnew : length new = (6 - n)%nat) by (unfold new; by rewrite !length_map, length_seq).
    split; [|rewrite length_app, length_take, Hnew; lia]. intros j x Hx. destruct (decide (j < n)%nat) as [Hj|Hj].
    + destruct j as [|j]; [apply (Hfirst _ ltac:(lia)); [|done]; rewrite lookup_app_l, lookup_take_lt by (rewrite ?length_take; lia); done|].
      unfold dlanes in Hx. rewrite (proj2 (Nat.ltb_lt (S j) n)) in Hx by lia. by rewrite andb_false_r in Hx.
    + unfold dlanes in Hx. rewrite (proj2 (Nat.ltb_ge j n)) in Hx by lia. destruct (Nat.ltb_spec j 6); [|done]. injection Hx as <-. split; [by apply cblock_block|].
      rewrite lookup_app_r by (rewrite length_take; lia). rewrite length_take, Nat.min_l by lia. unfold new. rewrite !list_lookup_fmap, lookup_seq_lt by lia. cbn [fmap option_fmap option_map].
      f_equal. assert (lane_key key key j = key) as -> by (unfold lane_key; by destruct (j =? 4)%nat). rewrite upto_0. do 2 f_equal. lia.
Qed.

(** *** Applying the key stream *)

Definition dgh_of (s : dec_vars) := (d_gdatabuf s, d_gdata s, d_gdata_cnt s, d_gstate s, d_src_ghash s, d_src_ghashlen s, d_aad s, d_aadlen s, d_ghash_precompute s).

(** At [Finish]: block [k] is the last one. *)
Record dec_last (k : nat) (more : bool) (s : dec_vars) (bits0 : m128) : Prop := {
  dl_text : text_inv (16 * k) (d_mem s);
  dl_k : (16 * k <= len <= 16 * k + 16)%nat;
  dl_bits : (16 * k < len)%nat -> bits0 = E (cblock (k + 2));
  dl_src : d_src_aes s = input + 16 * Z.of_nat k;
  dl_dst : d_dst s = output + 16 * Z.of_nat k;
  dl_len : d_src_aeslen s = (len - 16 * k)%nat;
  dl_state : d_state s = dst_of false more;
  dl_ek : d_ek0 s = E (cblock 1)
}.

Lemma stream_lanes k first n (bits : list m128) :
  (forall j x, dlanes k first n j = Some x -> bits !! j = Some (fips_aes (lane_key key key j) x)) -> length bits = 6%nat -> stream_from (fips_aes key) nonce text k (drop n bits).
Proof.
  intros Hb Hl j b Hj Hlt. rewrite lookup_drop in Hj. pose proof (lookup_lt_Some _ _ _ Hj).
  rewrite (Hb (n + j)%nat (cblock (k + j + 2))) in Hj.
  - injection Hj as <-. unfold lane_key. by destruct (n + j =? 4)%nat.
  - unfold dlanes. rewrite (proj2 (Nat.ltb_ge (n + j) n)), (proj2 (Nat.ltb_lt _ _)) by lia. do 3 f_equal. lia.
Qed.

(** The lanes are done, the counter is ahead. *)
Record dec_tail (k : nat) (first more : bool) (n : nat) (s : dec_vars) : Prop := {
  dt_aes : dec_aes k first more n (s <| d_ctr := creg (k + 1) |> <| d_bits := aes_upto (key_words key) 0 (cblock 1) :: replicate 5 [] |>);
  dt_ctr : d_ctr s = creg (k + 1 + (6 - n));
  dt_bits : length (d_bits s) = 6%nat;
  dt_first : first = true -> d_bits s !! 0%nat = Some (E (cblock 1));
  dt_stream : stream_from (fips_aes key) nonce text k (drop n (d_bits s))
}.

Lemma dec_tail_of k first more n s bits ctr gst pre :
  dec_aes k first more n s -> (forall j x, dlanes k first n j = Some x -> bits !! j = Some (fips_aes (lane_key key key j) x)) -> length bits = 6%nat -> ctr = creg (k + 1 + (6 - n)) ->
  dec_tail k first more n (s <| d_ctr := ctr |> <| d_bits := bits |> <| d_gstate := gst |> <| d_ghash_precompute := pre |>).
Proof.
  intros [T1 T2 T3 T4 T5 T6 T7 T8 T9 Tf] Hb Hl Hc. constructor; dvars; [|done|done| |by apply (stream_lanes k first)].
  - constructor; dvars; try done. destruct first; [|done]. by destruct Tf.
  - intros ->. destruct Tf as [Hn _]. apply (Hb 0%nat (cblock 1)). unfold dlanes. by rewrite (proj2 (Nat.ltb_lt 0 n)) by lia.
Qed.

Lemma dec_apply_spec k first more n s :
  dec_tail k first more n s ->
  exists s' fin, dec_apply s = Ok (s', fin) /\ dgh_of s' = dgh_of s /\
    match fin with
    | None => dec_aes (k + (6 - n)) false more 0 s'
    | Some b => exists k', dec_last k' more s' b /\ (k <= k' < k + (6 - n))%nat
    end.
Proof using Hcall.
  intros [[T1 T2 T3 T4 T5 _ T7 T8 _ Tf] Hc Hl Hfst Hst]. dvars. destruct Hcall as [Hr _ [Hn Hbn] [Htb _] _ Hp Ho Hin _ Hout Hov _ _]. unfold dec_apply. change (d_nondata_aes_cnt s = n) in T8. change (d_src_aeslen s = (len - 16 * k)%nat) in T5.
  change (d_src_aes s = input + 16 * Z.of_nat k) in T3. change (d_dst s = output + 16 * Z.of_nat k) in T4. change (d_state s = dst_of first more) in T7. change (text_inv (16 * k) (d_mem s)) in T1.
  rewrite T8, T5. destruct ((n =? 0)%nat && (6 * 16 <=? len - 16 * k)%nat) eqn:Efast.
  - apply andb_prop in Efast as [En Elen]. apply Nat.eqb_eq in En. apply Nat.leb_le in Elen. subst n. destruct first; [by destruct Tf; lia|]. rewrite En, drop_0 in Hst. rewrite T3, T4.
    destruct (apply_all_spec E nonce text m0 output input (fips_block key _ Hr) Hn Hbn Htb Hp Hin Hout Hov (d_bits s) k (d_mem s) T1 Hst ltac:(lia)) as (m & -> & Hm). cbn [res_bind]. rewrite Hl in Hm.
    eexists _, None. split; [reflexivity|]. split; [done|]. rewrite En in *. replace (k + (6 - 0))%nat with (k + 6)%nat by lia. constructor; dvars; try done; try lia. rewrite Hc. f_equal. lia.
  - clear Efast. set (s1 := if negb (Z.land (d_state s) STATE_IS_FIRST_RUN =? 0) then _ else s).
    assert (Hs1 : dgh_of s1 = dgh_of s /\ d_mem s1 = d_mem s /\ d_src_aes s1 = d_src_aes s /\ d_dst s1 = d_dst s /\ d_src_aeslen s1 = d_src_aeslen s /\ d_bits s1 = d_bits s /\
      d_nondata_aes_cnt s1 = n /\ d_ctr s1 = d_ctr s /\ d_state s1 = dst_of false more /\ d_ek0 s1 = E (cblock 1)).
    { unfold s1. rewrite T7, dst_first, negb_involutive. destruct first; [|by split_and!]. dvars. rewrite dst_not_first. split_and!; try done. by apply list_lookup_total_correct, Hfst. }
    clearbody s1. destruct Hs1 as (Eg & -> & -> & -> & -> & Eb & En & Ec & Es & Ek). rewrite T3, T4, T5, Eb, En.
    destruct (dec_apply_rest_spec E nonce text m0 output input (fips_block key _ Hr) Hn Hbn Htb Hp Hin Hout Hov (drop n (d_bits s)) k (d_mem s) T1 Hst T2) as (m & k' & fin & -> & Hm & Hk & Hk' & Hfin).
    cbn [res_bind]. rewrite length_drop, Hl in *. destruct fin as [b|].
    + destruct Hfin as (F1 & F2 & F3). eexists _, (Some b). split; [reflexivity|]. split; [exact Eg|]. exists k'. split; [|lia]. constructor; dvars; try done; lia.
    + subst k'. eexists _, None. split; [reflexivity|]. split; [exact Eg|]. constructor; dvars; try done; [rewrite Ec, Hc; f_equal; lia | by rewrite Eb].
Qed.

(** ** The main loop *)

Lemma dec_gh_same a g more pend s s' : dec_gh a g more pend s -> dgh_of s' = dgh_of s -> dec_gh a g more pend s'.
Proof. destruct s, s'. unfold dgh_of. cbn. intros [? ? ? ? ? ? ? ?] [= -> -> -> -> -> -> -> -> ->]. by constructor. Qed.

Lemma dec_loop_spec fuel k first more a g s :
  dec_aes k first more (if first then 1 else 0) s -> dec_gh a g more [] s -> (16 * k <= g)%nat -> ((alen - a) + (len - 16 * k) < fuel)%nat ->
  exists s' bits0 k' more', dec_loop ctx ac fuel s = Ok (s', bits0) /\ dec_last k' more' s' bits0 /\ dec_gh alen len more' [] s'.
Proof using Hcall.
  revert k first more a g s. induction fuel as [|fuel IH]; intros k first more a g s Ha Hg Hk Hf; [lia|]. cbn [dec_loop]. pose proof (dc_ecb _ _ _ _ _ _ _ _ _ _ _ Hcall) as Hr.
  destruct (dec_setup_spec k first more a g s Ha Hg Hk) as (s1 & a' & g' & more' & pend & nb & -> & [N1 N2 N3 N4 N5 N6 N7 N8 N9 [N10 N11]]). cbn [res_bind].
  set (n := ((if first then 1 else 0) + nb)%nat) in *. destruct (init_bits_spec k first more' n s1 N1) as (bits & -> & Hfl & Hbl). cbn [res_bind]. dvars.
  destruct (run_aes_ghash_spec key key ctx (fg_ecb ctx) Hr Hr eq_refl (hash_key key) size _ (dc_table _ _ _ _ _ _ _ _ _ _ _ Hcall) (d_mem s1) (d_gdatabuf s1) (d_gdata s1) pend 0 _ bits
    (d_gstate s1) (d_ghash_precompute s1) _ Hfl N5 (dg_hash _ _ _ _ _ N2) N4 ltac:(lia)) as (bits' & gst & Er & Hbits & Hbl' & Hhash). rewrite <- N3 in Er. rewrite Er. cbn [res_bind].
  pose proof (dec_tail_of k first more' n s1 bits' _ gst (length (to_feed a' g' more')) N1 Hbits ltac:(lia) eq_refl) as Ht.
  destruct (dec_apply_spec k first more' n _ Ht) as (s2 & fin & Ea & Eg & Hfin).
  match goal with |- context [dec_apply ?x] => assert (Ea' : dec_apply x = Ok (s2, fin)) by exact Ea; rewrite Ea' end. cbn [res_bind].
  assert (Hg2 : dec_gh a' g' more' [] s2) by (eapply dec_gh_same; [|exact Eg]; destruct N2; by constructor).
  pose proof (dg_a _ _ _ _ _ N2). pose proof (dg_g _ _ _ _ _ N2). destruct fin as [b|].
  - destruct Hfin as (k' & Hl & Hk'). exists s2, b, k', more'. split; [done|]. split; [done|]. pose proof (dl_k _ _ _ _ Hl).
    assert (a' = alen) as -> by (destruct (decide (a' < alen)%nat) as [Hlt|]; [specialize (N8 Hlt); subst n nb; lia | lia]).
    assert (g' = len) as -> by (destruct (decide (g' < len)%nat) as [Hlt|]; [specialize (N9 Hlt); subst n; lia | lia]). done.
  - pose proof (da_k _ _ _ _ _ Hfin). apply (IH (k + (6 - n))%nat false more' a' g' s2 Hfin Hg2).
    + destruct (decide (g' < len)%nat) as [Hlt|]; [specialize (N9 Hlt); subst n; lia | lia].
    + assert (0 < nb \/ n <= 1)%nat as [Hp|Hp] by (subst n; destruct first; lia); [specialize (N11 Hp); lia | lia].
Qed.

(** ** The whole function *)

Lemma movemask_all v : length v = 16%nat -> Forall (fun b => b = 0xff \/ b = 0) v -> _mm_movemask_epi8 v = 0xffff <-> v = replicate 16 0xff.
Proof.
  intros Hl Hv. split; [|by intros ->]. assert (Hgo : forall v : bytes, Forall (fun b => b = 0xff \/ b = 0) v -> 0 <= _mm_movemask_epi8 v < 2 ^ Z.of_nat (length v) /\
    (_mm_movemask_epi8 v = 2 ^ Z.of_nat (length v) - 1 -> v = replicate (length v) 0xff)).
  { clear. intros v. induction 1 as [|b v Hb Hv [IH1 IH2]]; [done|]. cbn [length _mm_movemask_epi8 foldr replicate]. fold (_mm_movemask_epi8 v). rewrite Nat2Z.inj_succ, Z.pow_succ_r by lia.
    destruct Hb as [-> | ->]; cbn [Z.leb Z.compare Pos.compare Pos.compare_cont]; (split; [lia|]; intros Hm; try lia). f_equal. apply IH2. lia. }
  intros Hm. destruct (Hgo v Hv) as [_ H]. rewrite Hl in H. by apply H.
Qed.

Lemma cmpeq_all a b : length a = 16%nat -> length b = 16%nat -> (_mm_movemask_epi8 (_mm_cmpeq_epi8 a b) =? 0xffff) = bool_decide (a = b).
Proof.
  intros Ha Hb. unfold _mm_cmpeq_epi8. set (v := zip_with _ a b). assert (Hl : length v = 16%nat) by (unfold v; rewrite length_zip_with; lia).
  assert (Hv : Forall (fun x => x = 0xff \/ x = 0) v).
  { apply Forall_lookup. intros i x. unfold v. rewrite lookup_zip_with. destruct (a !! i), (b !! i); cbn; try done. intros [= <-]. destruct (_ =? _); auto. }
  apply eq_true_iff_eq. rewrite Z.eqb_eq, bool_decide_eq_true, movemask_all by done. split.
  - intros Ev. apply list_eq_same_length with 16%nat; [lia | lia |]. intros i x y Hi Hx Hy. assert (Hvi : v !! i = Some 0xff) by (rewrite Ev; by apply lookup_replicate_2).
    unfold v in Hvi. rewrite lookup_zip_with, Hx, Hy in Hvi. cbn in Hvi. destruct (Z.eqb_spec x y); [done | discriminate].
  - intros <-. apply list_eq_same_length with 16%nat; [done | done |]. intros i x y Hi Hx Hy. apply lookup_replicate in Hy as [-> _]. unfold v in Hx. rewrite lookup_zip_with in Hx.
    destruct (a !! i); cbn in Hx; [|done]. rewrite Z.eqb_refl in Hx. by injection Hx as <-.
Qed.

Lemma dec_start_spec : exists s, dec_start ctx m0 output input len (creg 0) aad alen = Ok s /\ dec_aes 0 true true 1 s /\ dec_gh 0 0 true [] s.
Proof using Hcall.
  destruct (dc_nonce _ _ _ _ _ _ _ _ _ _ _ Hcall) as [Hn Hb]. destruct (dc_bytes _ _ _ _ _ _ _ _ _ _ _ Hcall) as [Htb Hab]. unfold dec_start.
  rewrite creg_next, creg_swap, (ready_key key _ (dc_ecb _ _ _ _ _ _ _ _ _ _ _ Hcall)) by (done || lia). cbn [res_bind]. eexists. split; [reflexivity|]. split.
  - constructor; cbn [d_mem d_src_aes d_dst d_src_aeslen d_ctr d_state d_nondata_aes_cnt d_bits]; try done; try lia. apply text_start, (dc_octets _ _ _ _ _ _ _ _ _ _ _ Hcall).
  - constructor; cbn [d_aadlen d_aad d_src_ghash d_src_ghashlen d_gstate d_ghash_precompute]; try done; try lia. unfold to_feed. rewrite !drop_0. cbn [app].
    assert (Hl : length (auth_blocks ad text) = size) by (unfold auth_blocks; rewrite !length_app, !length_pblocks; cbn [length]; lia).
    pose proof (hashing_start (hash_key key) size _ (auth_blocks ad text) (auth_blocks_block ad text Hab Htb) ltac:(lia) eq_refl) as Hst. rewrite Hl in Hst. exact Hst.
Qed.

(** The plaintext is written in any case; the result tells whether the tag is right. *)
Lemma fusion_decrypt_spec :
  exists m', ptls_fusion_aesgcm_decrypt ctx m0 output input len (creg 0) aad alen tag = Ok (m', bool_decide (t = gcm_tag E nonce ad text 16)) /\
    holds_at m' output (gcm_crypt E nonce text) /\ (forall a, ~ (output <= a < output + Z.of_nat len) -> m' !! a = m0 !! a).
Proof using Hcall.
  destruct (dc_nonce _ _ _ _ _ _ _ _ _ _ _ Hcall) as [Hn Hbn]. destruct (dc_bytes _ _ _ _ _ _ _ _ _ _ _ Hcall) as [Htb Hab]. destruct (dc_small _ _ _ _ _ _ _ _ _ _ _ Hcall) as [Hst Hsa].
  destruct (dc_tag _ _ _ _ _ _ _ _ _ _ _ Hcall) as (Lt & Ht & Hap). pose proof (dc_ecb _ _ _ _ _ _ _ _ _ _ _ Hcall) as Hr.
  unfold ptls_fusion_aesgcm_decrypt. rewrite (calc_ac_spec ad text Hsa Hst). cbn [res_bind]. destruct dec_start_spec as (s0 & -> & Ha & Hg). cbn [res_bind].
  destruct (dec_loop_spec (S (S (alen + len))) 0 true true 0 0 s0 Ha Hg ltac:(lia) ltac:(lia)) as (s & bits0 & k & more & -> & [L1 L2 L3 L4 L5 L6 L7 L8] & Hg'). cbn [res_bind].
  destruct (dec_finish_spec E nonce text m0 output input (fips_block key _ Hr) Hn Hbn Htb (dc_paged _ _ _ _ _ _ _ _ _ _ _ Hcall) (dc_in _ _ _ _ _ _ _ _ _ _ _ Hcall)
    (dc_out _ _ _ _ _ _ _ _ _ _ _ Hcall) (dc_over _ _ _ _ _ _ _ _ _ _ _ Hcall) s k bits0 L1 L2 L3 L4 L5 L6) as (m & -> & Hm). cbn [res_bind].
  rewrite L7, dst_first, dst_more. cbn [negb c_assert res_bind]. rewrite negb_involutive.
  pose proof (dg_hash _ _ _ _ _ Hg') as Hh. unfold to_feed in Hh. rewrite !drop_all, pblocks_nil in Hh. cbn [app] in Hh.
  assert (Hend : exists g, (if more then let! _ := c_assert (d_ghash_precompute s =? 1)%nat in let! '(gstate, _) := feed_one ctx ac (d_gstate s) (d_ghash_precompute s) in Ok gstate else Ok (d_gstate s)) = Ok g /\
    exists i, hashing g i []).
  { destruct more; [|by eauto]. rewrite (hg_count _ _ _ _ _ _ Hh). cbn [length Nat.eqb c_assert res_bind]. pose proof (hg_count _ _ _ _ _ _ Hh) as Ec. rewrite Ec in Hh.
    destruct (fusion_feed_spec (hash_key key) (fg_ghash ctx) size _ (dc_table _ _ _ _ _ _ _ _ _ _ _ Hcall) ctx (d_gstate s) _ ac [] eq_refl Hh) as (g & Ef & Hf). cbn [length] in Ef. rewrite Ef. cbn [res_bind]. by eauto. }
  destruct Hend as (g & -> & i & Hfed). cbn [res_bind]. destruct (hashed_tag key _ nonce ad text _ _ g Hr Hn Hbn Hab Htb Hfed) as [Etag [Ltag _]]. rewrite L8, Etag.
  assert (Htm : holds_at m tag t) by (apply (text_holds _ _ _ _ _ Hn _ _ _ _ Hm Ht); rewrite Lt; unfold apart in Hap; lia).
  unfold _mm_loadu_si128. rewrite (load_ok m tag t) by done. cbn [res_bind]. rewrite cmpeq_all by done. exists m. split_and!.
  - do 2 f_equal. apply bool_decide_ext. split; congruence.
  - pose proof (ti_written _ _ _ _ _ _ _ Hm) as Hw. by rewrite take_ge in Hw by (rewrite length_crypt; lia).
  - intros a Hna. by apply (ti_frame _ _ _ _ _ _ _ Hm).
Qed.
End DecryptProof.
