(* ===== verification/Chacha20.v ===== *)
(** * Chacha20: the stream cipher of the minicrypto backend

    [src/deps/cifra/src/chacha20.c] (with the context of [salsa20.h]). Main result:
    with a counter of four octets the cipher adds the key stream of RFC 8439, whatever
    the pieces of the text ([chacha20_streams]). *)
From S2P Require Import Prelude Blockwise.

(** ** chacha20.c *)

(** [QUARTER(a, b, c, d)] on the variables [z0] to [zf]. *)
Definition QUARTER (a b c d : nat) (z : list Z) : list Z :=
  let za := u32 (z !!! a + z !!! b) in
  let zd := rotl32 (Z.lxor (z !!! d) za) 16 in
  let zc := u32 (z !!! c + zd) in
  let zb := rotl32 (Z.lxor (z !!! b) zc) 12 in
  let za := u32 (za + zb) in
  let zd := rotl32 (Z.lxor zd za) 8 in
  let zc := u32 (zc + zd) in
  let zb := rotl32 (Z.lxor zb zc) 7 in
  <[a := za]> (<[b := zb]> (<[c := zc]> (<[d := zd]> z))).

(** One turn of the loop: a column round and a diagonal round. *)
Definition double_round (z : list Z) : list Z :=
  let z := QUARTER 0 4 8 12 z in
  let z := QUARTER 1 5 9 13 z in
  let z := QUARTER 2 6 10 14 z in
  let z := QUARTER 3 7 11 15 z in
  let z := QUARTER 0 5 10 15 z in
  let z := QUARTER 1 6 11 12 z in
  let z := QUARTER 2 7 8 13 z in
  QUARTER 3 4 9 14 z.

Definition read_words (buf : bytes) : res (list Z) :=
  let! w0 := read32_le buf 0 in let! w1 := read32_le buf 4 in let! w2 := read32_le buf 8 in let! w3 := read32_le buf 12 in
  Ok [w0; w1; w2; w3].

Definition cf_chacha20_core (key0 key1 nonce constant : bytes) : res bytes :=
  let! x0 := read_words constant in
  let! x4 := read_words key0 in
  let! x8 := read_words key1 in
  let! xc := read_words nonce in
  let x := x0 ++ x4 ++ x8 ++ xc in
  let z := Nat.iter 10 double_round x in
  Ok (concat (map write32_le (zip_with (fun x z => u32 (x + z)) x z))).

Definition chacha20_tau : bytes := str "expand 16-byte k".
Definition chacha20_sigma : bytes := str "expand 32-byte k".

Record cf_chacha20_ctx := mk_chacha {
  ch_key0 : bytes;
  ch_key1 : bytes;
  ch_nonce : bytes;
  ch_constant : bytes;
  ch_block : bytes;
  ch_nblock : nat;
  ch_ncounter : nat
}.
#[export] Instance eta_chacha : Eta cf_chacha20_ctx := fun r =>
  mk_chacha (ch_key0 r) (ch_key1 r) (ch_nonce r) (ch_constant r) (ch_block r) (ch_nblock r) (ch_ncounter r).

Definition set_key (ctx : cf_chacha20_ctx) (key : bytes) (nkey : nat) : res cf_chacha20_ctx :=
  match nkey with
  | 16%nat =>
      let! key0 := copy_from key 0 16 in
      Ok (ctx <| ch_key0 := key0 |> <| ch_key1 := key0 |> <| ch_constant := chacha20_tau |>)
  | 32%nat =>
      let! key0 := copy_from key 0 16 in
      let! key1 := copy_from key 16 16 in
      Ok (ctx <| ch_key0 := key0 |> <| ch_key1 := key1 |> <| ch_constant := chacha20_sigma |>)
  | _ => Stuck Aborted
  end.

Definition cf_chacha20_init (ctx : cf_chacha20_ctx) (key : bytes) (nkey : nat) (nonce : bytes) : res cf_chacha20_ctx :=
  let! ctx := set_key ctx key nkey in
  let! nonce := copy_from nonce 0 8 in
  Ok (ctx <| ch_nonce := replicate 8 0 ++ nonce |> <| ch_nblock := O |> <| ch_ncounter := 8%nat |>).

Definition cf_chacha20_init_custom (ctx : cf_chacha20_ctx) (key : bytes) (nkey : nat) (nonce : bytes) (ncounter : nat) : res cf_chacha20_ctx :=
  let! _ := c_assert (0 <? ncounter)%nat in
  let! ctx := set_key ctx key nkey in
  let! nonce := copy_from nonce 0 16 in
  Ok (ctx <| ch_nonce := nonce |> <| ch_nblock := O |> <| ch_ncounter := ncounter |>).

Definition cf_chacha20_next_block (ctx : cf_chacha20_ctx) : res (bytes * cf_chacha20_ctx) :=
  let! out := cf_chacha20_core (ch_key0 ctx) (ch_key1 ctx) (ch_nonce ctx) (ch_constant ctx) in
  let! nonce := incr_le (ch_nonce ctx) (ch_ncounter ctx) in
  Ok (out, ctx <| ch_nonce := nonce |>).

Definition cf_chacha20_cipher (ctx : cf_chacha20_ctx) (input : bytes) : res (bytes * cf_chacha20_ctx) :=
  let! '(output, (block, nblock, ctx)) := cf_blockwise_xor 64 cf_chacha20_next_block (ch_block ctx, ch_nblock ctx, ctx) input in
  Ok (output, ctx <| ch_block := block |> <| ch_nblock := nblock |>).

(** ** RFC 8439, section 2 *)

(** [x <<<= n] *)
Definition rfc8439_rotl (x n : Z) : Z := Z.lor (Z.shiftl x n mod 2 ^ 32) (Z.shiftr x (32 - n)).

(** [x += y; z ^= x; z <<<= n;] *)
Definition rfc8439_add_xor_rotate (n x y z : Z) : Z * Z :=
  let x := (x + y) mod 2 ^ 32 in (x, rfc8439_rotl (Z.lxor z x) n).

(** Section 2.1: the quarter round on four words. *)
Definition rfc8439_quarter_round (a b c d : Z) : Z * Z * Z * Z :=
  let '(a, d) := rfc8439_add_xor_rotate 16 a b d in
  let '(c, b) := rfc8439_add_xor_rotate 12 c d b in
  let '(a, d) := rfc8439_add_xor_rotate 8 a b d in
  let '(c, b) := rfc8439_add_xor_rotate 7 c d b in
  (a, b, c, d).

(** Section 2.3.1: a round on the columns and a round on the diagonals of the state,
    a matrix of four rows of words. *)
Definition rfc8439_inner_block (state : list Z) : list Z :=
  match state with
  | [s0; s1; s2; s3; s4; s5; s6; s7; s8; s9; s10; s11; s12; s13; s14; s15] =>
      let '(s0, s4, s8, s12) := rfc8439_quarter_round s0 s4 s8 s12 in
      let '(s1, s5, s9, s13) := rfc8439_quarter_round s1 s5 s9 s13 in
      let '(s2, s6, s10, s14) := rfc8439_quarter_round s2 s6 s10 s14 in
      let '(s3, s7, s11, s15) := rfc8439_quarter_round s3 s7 s11 s15 in
      let '(s0, s5, s10, s15) := rfc8439_quarter_round s0 s5 s10 s15 in
      let '(s1, s6, s11, s12) := rfc8439_quarter_round s1 s6 s11 s12 in
      let '(s2, s7, s8, s13) := rfc8439_quarter_round s2 s7 s8 s13 in
      let '(s3, s4, s9, s14) := rfc8439_quarter_round s3 s4 s9 s14 in
      [s0; s1; s2; s3; s4; s5; s6; s7; s8; s9; s10; s11; s12; s13; s14; s15]
  | _ => state
  end.

(** Section 2.3: the block function. *)
Definition words_le (l : bytes) : list Z := map of_le (blocks_of 4 (length l / 4) l).
Definition rfc8439_block (key : bytes) (counter : Z) (nonce : bytes) : bytes :=
  let state := words_le (str "expand 32-byte k") ++ words_le key ++ words_le (le 4 counter ++ nonce) in
  concat (map (le 4) (zip_with (fun x z => u32 (x + z)) state (Nat.iter 10 rfc8439_inner_block state))).

Arguments double_round : simpl never.
Arguments rfc8439_block : simpl never.

(** Octet [i] of the key stream. *)
Definition rfc8439_stream (key nonce : bytes) : nat -> Z := keystream 64 (fun k => rfc8439_block key (Z.of_nat k) nonce).

(** The test vector of section 2.3.2. *)
Example rfc8439_block_vector :
  rfc8439_block (hex "000102030405060708090a0b0c0d0e0f101112131415161718191a1b1c1d1e1f") 1 (hex "000000090000004a00000000") =
    hex "10f1e7e4d13b5915500fdd1fa32071c4c7d1f4c733c068030422aa9ac3d46c4ed2826446079faa0914c2d705d98b02a2b5129cd1de164eb9cbd083e8a2503c4e".
Proof. by vm_compute. Qed.

(** ** The block function *)

Lemma blocks_of_app nblock n m (x y : bytes) :
  length x = (n * nblock)%nat -> blocks_of nblock (n + m) (x ++ y) = blocks_of nblock n x ++ blocks_of nblock m y.
Proof.
  revert x. induction n as [|n IH]; intros x Hx.
  - apply nil_length_inv in Hx as ->. done.
  - cbn [Nat.add blocks_of app]. rewrite take_app_le, drop_app_le by lia. f_equal. apply IH. rewrite length_drop. lia.
Qed.

Lemma words_le_app (x y : bytes) : (length x mod 4 = 0)%nat -> words_le (x ++ y) = words_le x ++ words_le y.
Proof.
  intros Hx. pose proof (Nat.div_mod_eq (length x) 4) as Hd. rewrite Hx, Nat.add_0_r in Hd. unfold words_le. rewrite <- map_app, length_app. f_equal.
  rewrite <- (blocks_of_app 4); [|lia]. f_equal. rewrite Hd at 1. rewrite (Nat.mul_comm 4), Nat.div_add_l by lia. lia.
Qed.

Lemma read_words_spec buf : length buf = 16%nat -> is_bytes buf -> read_words buf = Ok (words_le buf).
Proof.
  intros Hl Hb. unfold read_words. rewrite !read32_le_spec by (done || lia). cbn [res_bind]. unfold words_le. rewrite Hl.
  change (16 / 4)%nat with 4%nat. cbn [blocks_of map]. rewrite !drop_drop, drop_0. done.
Qed.

Lemma length_QUARTER a b c d z : length (QUARTER a b c d z) = length z.
Proof. unfold QUARTER. cbv zeta. by rewrite !length_insert. Qed.

Lemma length_double_round z : length (double_round z) = length z.
Proof. unfold double_round. cbv zeta. by rewrite !length_QUARTER. Qed.

Lemma length_rounds n z : length (Nat.iter n double_round z) = length z.
Proof. induction n as [|n IH]; [done|]. change (Nat.iter (S n) ?f z) with (f (Nat.iter n f z)). by rewrite length_double_round. Qed.

Lemma QUARTER_spec a b c d z :
  QUARTER a b c d z =
    let '(xa, xb, xc, xd) := rfc8439_quarter_round (z !!! a) (z !!! b) (z !!! c) (z !!! d) in
    <[a := xa]> (<[b := xb]> (<[c := xc]> (<[d := xd]> z))).
Proof. reflexivity. Qed.

Lemma double_round_spec z : length z = 16%nat -> double_round z = rfc8439_inner_block z.
Proof.
  intros Hz. do 16 (destruct z as [|? z]; [discriminate Hz|]). destruct z; [|discriminate Hz]. clear Hz.
  unfold double_round, rfc8439_inner_block. cbv zeta.
  do 8 (match goal with |- context [QUARTER ?a ?b ?c ?d (?x :: ?l)] => rewrite (QUARTER_spec a b c d (x :: l)) end;
        cbn [lookup_total list_lookup_total];
        destruct (rfc8439_quarter_round _ _ _ _) as [[[? ?] ?] ?]; cbn [insert list_insert]).
  reflexivity.
Qed.

Lemma rounds_spec n z : length z = 16%nat -> Nat.iter n double_round z = Nat.iter n rfc8439_inner_block z.
Proof.
  intros Hz. induction n as [|n IH]; [done|]. change (Nat.iter (S n) ?f z) with (f (Nat.iter n f z)).
  rewrite <- IH. apply double_round_spec. by rewrite length_rounds.
Qed.

Lemma length_concat_le (l : list Z) : length (concat (map (le 4) l)) = (4 * length l)%nat.
Proof. induction l as [|x l IH]; [done|]. cbn [map concat length]. rewrite length_app, length_le, IH. lia. Qed.

Lemma concat_le_bytes (l : list Z) : is_bytes (concat (map (le 4) l)).
Proof. induction l as [|x l IH]; [constructor|]. apply Forall_app_2; [apply le_bytes | done]. Qed.

Section Stream.
Context (key nonce : bytes).
Hypotheses (Hkey : length key = 32%nat) (Hkeyb : is_bytes key) (Hnonce : length nonce = 12%nat) (Hnonceb : is_bytes nonce).

Lemma length_state k : length (words_le (str "expand 32-byte k") ++ words_le key ++ words_le (le 4 k ++ nonce)) = 16%nat.
Proof using Hkey Hnonce.
  rewrite !length_app. unfold words_le. rewrite !length_map, !length_blocks_of, Hkey, length_app, length_le, Hnonce. done.
Qed.

Lemma length_rfc8439_block k : length (rfc8439_block key k nonce) = 64%nat.
Proof using Hkey Hnonce.
  unfold rfc8439_block. rewrite <- rounds_spec by apply length_state.
  rewrite length_concat_le, length_zip_with, length_rounds, Nat.min_id, !length_app. unfold words_le.
  rewrite !length_map, !length_blocks_of, Hkey, length_app, length_le, Hnonce. done.
Qed.

Lemma chacha20_core_spec k : cf_chacha20_core (take 16 key) (drop 16 key) (le 4 k ++ nonce) chacha20_sigma = Ok (rfc8439_block key k nonce).
Proof using Hkey Hkeyb Hnonce Hnonceb.
  unfold cf_chacha20_core.
  rewrite (read_words_spec chacha20_sigma) by (done || apply str_bytes). cbn [res_bind].
  rewrite (read_words_spec (take 16 key)) by (by rewrite ?length_take, ?Hkey || by apply Forall_take). cbn [res_bind].
  rewrite (read_words_spec (drop 16 key)) by (by rewrite ?length_drop, ?Hkey || by apply Forall_drop). cbn [res_bind].
  rewrite (read_words_spec (le 4 k ++ nonce)) by (by rewrite ?length_app, ?Hnonce || by apply Forall_app_2; auto with ptls). cbn [res_bind].
  assert (Ek : words_le key = words_le (take 16 key) ++ words_le (drop 16 key)) by (rewrite <- words_le_app; [by rewrite take_drop | by rewrite length_take, Hkey]).
  unfold rfc8439_block. rewrite <- rounds_spec by apply length_state. rewrite Ek, <- app_assoc. f_equal. f_equal. apply map_ext. apply write32_le_spec.
Qed.

(** The context before block [k]; [blk] and [n] are the buffered key stream. *)
Definition chacha_state (blk : bytes) (n k : nat) : cf_chacha20_ctx :=
  mk_chacha (take 16 key) (drop 16 key) (le 4 (Z.of_nat k) ++ nonce) chacha20_sigma blk n 4.

Lemma next_block_spec blk n k :
  cf_chacha20_next_block (chacha_state blk n k) = Ok (rfc8439_block key (Z.of_nat k) nonce, chacha_state blk n (S k)).
Proof using Hkey Hkeyb Hnonce Hnonceb.
  unfold cf_chacha20_next_block. cbn [chacha_state ch_key0 ch_key1 ch_nonce ch_constant ch_ncounter]. rewrite chacha20_core_spec. cbn [res_bind].
  rewrite incr_le_spec; [| apply Forall_app_2; auto with ptls | rewrite length_app, length_le; lia].
  rewrite take_app_length', drop_app_length' by (by rewrite length_le). cbn [res_bind]. do 2 f_equal. unfold chacha_state. cbn [field_update ch_key0 ch_key1 ch_constant ch_block ch_nblock ch_ncounter].
  f_equal. f_equal. rewrite of_le_le, <- (le_mod 4 (_ + 1)), Zplus_mod_idemp_l, (le_mod 4). f_equal. lia.
Qed.

(** [pos] octets of the key stream have been used. *)
Definition chacha_at (pos : nat) (ctx : cf_chacha20_ctx) : Prop :=
  streaming 64 (fun k => rfc8439_block key (Z.of_nat k) nonce) (chacha_state (ch_block ctx) (ch_nblock ctx)) pos (ch_block ctx, ch_nblock ctx, ctx).

Lemma chacha_at_init ctx :
  exists ctx', cf_chacha20_init_custom ctx key 32 (replicate 4 0 ++ nonce) 4 = Ok ctx' /\ chacha_at 0 ctx'.
Proof using Hkey Hnonce.
  unfold cf_chacha20_init_custom, set_key. change (0 <? 4)%nat with true. cbn [c_assert res_bind].
  rewrite !copy_from_ok by (rewrite ?length_app, ?length_replicate, ?Hkey, ?Hnonce; lia). cbn [res_bind]. eexists. split; [done|].
  constructor; [cbn; lia|]. exists O. split_and!; [|done | by left]. cbn [snd field_update ch_key0 ch_key1 ch_nonce ch_constant ch_block ch_nblock ch_ncounter].
  unfold chacha_state. rewrite !drop_0. f_equal; [apply take_ge; rewrite length_drop; lia|].
  by rewrite take_ge by (rewrite length_app, Hnonce; done).
Qed.

(** The cipher adds the next octets of the key stream of the RFC. *)
Lemma chacha20_streams pos ctx input :
  chacha_at pos ctx ->
  exists ctx', cf_chacha20_cipher ctx input = Ok (xor_stream (rfc8439_stream key nonce) pos input, ctx') /\ chacha_at (pos + length input) ctx'.
Proof using Hkey Hkeyb Hnonce Hnonceb.
  intros Hat. unfold cf_chacha20_cipher.
  assert (Hl : forall k, length (rfc8439_block key (Z.of_nat k) nonce) = 64%nat) by (intros k; exact (length_rfc8439_block (Z.of_nat k))).
  destruct (xor_streams 64 cf_chacha20_next_block (fun k => rfc8439_block key (Z.of_nat k) nonce) (chacha_state (ch_block ctx) (ch_nblock ctx))
    (Nat.lt_0_succ 63) Hl (next_block_spec _ _) pos (ch_block ctx, ch_nblock ctx, ctx) input Hat) as ([[blk n] c] & E & Hst).
  rewrite E. clear E. cbn [res_bind]. eexists. unfold rfc8439_stream. split; [reflexivity|].
  destruct Hst as [Hn (k & Hk & Hpos & Hpart)]. cbn [fst snd] in Hn, Hk, Hpos, Hpart. subst c. constructor; cbn [fst snd]; [exact Hn|]. exists k. split_and!; [reflexivity | exact Hpos | exact Hpart].
Qed.
End Stream.

Lemma rfc8439_stream_byte key nonce i : is_byte (rfc8439_stream key nonce i).
Proof. apply keystream_byte. intros k. apply concat_le_bytes. Qed.
