(* ===== verification/Poly1305.v ===== *)
(** * Poly1305: the authenticator of the minicrypto backend

    [src/deps/cifra/src/poly1305.c]: seventeen limbs of eight bits in 32-bit words.
    Main result: whatever the pieces of the message, the tag is the one of RFC 8439,
    [((message as a polynomial at r) mod 2^130 - 5 + s) mod 2^128]; no intermediate
    value overflows its word. *)
From S2P Require Import Prelude Blockwise.

(** ** poly1305.c *)

(** Every array of 17 words is a list; [h] is written by each function. *)
Record cf_poly1305 := mk_poly {
  po_h : list Z;
  po_r : list Z;
  po_s : bytes;
  po_partial : bytes;
  po_npartial : nat
}.
#[export] Instance eta_poly : Eta cf_poly1305 := fun p => mk_poly (po_h p) (po_r p) (po_s p) (po_partial p) (po_npartial p).

(** The masks of the clamping, octet by octet. *)
Definition clamp_masks : list Z := [0xff; 0xff; 0xff; 0x0f; 0xfc; 0xff; 0xff; 0x0f; 0xfc; 0xff; 0xff; 0x0f; 0xfc; 0xff; 0xff; 0x0f].

Definition cf_poly1305_init (r s : bytes) : res cf_poly1305 :=
  if (length r <? 16)%nat || (length s <? 16)%nat then Stuck OutOfBounds
  else Ok (mk_poly (replicate 17 0) (zip_with Z.land (take 16 r) clamp_masks ++ [0]) (take 16 s) (replicate 16 0) 0).

(** [poly1305_add]: the loop with its carry. *)
Fixpoint add_loop (h x : list Z) (carry : Z) : list Z :=
  match h, x with
  | a :: h, b :: x => let carry := u32 (carry + u32 (a + b)) in Z.land carry 0xff :: add_loop h x (Z.shiftr carry 8)
  | _, _ => []
  end.
Definition poly1305_add (h x : list Z) : list Z := add_loop h x 0.

(** The carry chain over the first sixteen limbs, and the carry out of it. *)
Fixpoint carry_loop (x : list Z) (carry : Z) : list Z * Z :=
  match x with
  | [] => ([], carry)
  | a :: x =>
      let carry := u32 (carry + a) in
      let '(y, carry') := carry_loop x (Z.shiftr carry 8) in (Z.land carry 0xff :: y, carry')
  end.

Definition poly1305_min_reduce (x : list Z) : list Z :=
  let '(low, carry) := carry_loop (take 16 x) 0 in
  let carry := u32 (carry + x !!! 16%nat) in
  let top := Z.land carry 0x03 in
  let carry := u32 (5 * Z.shiftr carry 2) in
  let '(low, carry) := carry_loop low carry in
  low ++ [u32 (top + carry)].

Definition negative_1305 : list Z := [5; 0; 0; 0; 0; 0; 0; 0; 0; 0; 0; 0; 0; 0; 0; 0; 0xfc].

Definition poly1305_full_reduce (x : list Z) : list Z :=
  let xsub := poly1305_add x negative_1305 in
  let negative_mask := mask_u32 (Z.land (xsub !!! 16%nat) 0x80) 0x80 in
  let positive_mask := Z.lxor negative_mask 0xffffffff in
  zip_with (fun a b => Z.lor (Z.land a negative_mask) (Z.land b positive_mask)) x xsub.

(** [accum] for limb [i]: the products [x[j] * y[i - j]], and the wrapped ones times [5 << 6]. *)
Definition mul_accum (x y : list Z) (i : nat) : Z :=
  let accum := foldl (fun accum j => u32 (accum + u32 (x !!! j * y !!! (i - j)%nat))) 0 (seq 0 (S i)) in
  foldl (fun accum j => u32 (accum + u32 (u32 (Z.shiftl 5 6 * x !!! j) * y !!! (i + 17 - j)%nat))) accum (seq (S i) (16 - i)).

Definition poly1305_mul (x y : list Z) : list Z := poly1305_min_reduce (map (mul_accum x y) (seq 0 17)).

Definition poly1305_block (ctx : cf_poly1305) (c : list Z) : cf_poly1305 :=
  ctx <| po_h := poly1305_mul (poly1305_add (po_h ctx) c) (po_r ctx) |>.

Definition poly1305_whole_block (ctx : cf_poly1305) (buf : bytes) : res cf_poly1305 :=
  if (length buf <? 16)%nat then Stuck OutOfBounds else Ok (poly1305_block ctx (take 16 buf ++ [1])).

Definition poly1305_last_block (ctx : cf_poly1305) : res cf_poly1305 :=
  if (16 <? po_npartial ctx)%nat then Stuck OutOfBounds
  else Ok (poly1305_block ctx (<[po_npartial ctx := 1]> (take (po_npartial ctx) (po_partial ctx) ++ replicate (17 - po_npartial ctx) 0))).

Definition cf_poly1305_update (ctx : cf_poly1305) (buf : bytes) : res cf_poly1305 :=
  let! '(partial, npartial, ctx) := cf_blockwise_accumulate 16 poly1305_whole_block (po_partial ctx, po_npartial ctx, ctx) buf in
  Ok (ctx <| po_partial := partial |> <| po_npartial := npartial |>).

Definition poly1305_cleared : cf_poly1305 := mk_poly (replicate 17 0) (replicate 17 0) (replicate 16 0) (replicate 16 0) 0.

Definition cf_poly1305_finish (ctx : cf_poly1305) : res (bytes * cf_poly1305) :=
  let! ctx := if (po_npartial ctx =? 0)%nat then Ok ctx else poly1305_last_block ctx in
  let s := po_s ctx ++ [0] in
  let h := poly1305_full_reduce (po_h ctx) in
  let h := poly1305_add h s in
  Ok (map u8 (take 16 h), poly1305_cleared).

(** ** RFC 8439, section 2.5 *)

Definition p1305 : Z := 2 ^ 130 - 5.
(** [r &= 0x0ffffffc0ffffffc0ffffffc0fffffff] *)
Definition rfc8439_clamp (r : bytes) : Z := Z.land (of_le r) 0x0ffffffc0ffffffc0ffffffc0fffffff.

(** The pieces of 16 octets, the last one possibly shorter. *)
Definition pieces16 (msg : bytes) : list bytes :=
  blocks_of 16 (length msg / 16) msg ++ (if (length msg mod 16 =? 0)%nat then [] else [drop (length msg / 16 * 16) msg]).
Definition rfc8439_step (r a : Z) (piece : bytes) : Z := (a + of_le (piece ++ [1])) * r mod p1305.
Definition rfc8439_poly1305 (r s msg : bytes) : bytes :=
  le 16 (foldl (rfc8439_step (rfc8439_clamp r)) 0 (pieces16 msg) + of_le s).

(** The test vector of section 2.5.2. *)
Example poly1305_vector :
  let key := hex "85d6be7857556d337f4452fe42d506a80103808afb0db2fd4abff6af4149f51b" in
  let msg := str "Cryptographic Forum Research Group" in
  let tag := hex "a8061dc1305136c6c22b8baf0c0127a9" in
  rfc8439_poly1305 (take 16 key) (drop 16 key) msg = tag /\
  (let! ctx := cf_poly1305_init (take 16 key) (drop 16 key) in let! ctx := cf_poly1305_update ctx msg in cf_poly1305_finish ctx) = Ok (tag, poly1305_cleared).
Proof. by vm_compute. Qed.

(** ** Carries *)

Lemma u32_small v : 0 <= v < 2 ^ 32 -> u32 v = v.
Proof. apply Z.mod_small. Qed.

Lemma shiftr8 v : Z.shiftr v 8 = v / 2 ^ 8.
Proof. apply Z.shiftr_div_pow2. lia. Qed.

(** A number written with a low limb. *)
Lemma limb_mod c y M : 0 < M -> (c + 2 ^ 8 * y) mod (2 ^ 8 * M) = c mod 2 ^ 8 + 2 ^ 8 * ((c / 2 ^ 8 + y) mod M).
Proof.
  intros HM. rewrite Z.rem_mul_r by lia. rewrite (Z.mul_comm (2 ^ 8) y), Z.mod_add, Z.div_add by lia. done.
Qed.

Lemma add_loop_spec h x carry :
  is_bytes h -> is_bytes x -> length h = length x -> 0 <= carry <= 255 ->
  is_bytes (add_loop h x carry) /\ length (add_loop h x carry) = length h /\
  of_le (add_loop h x carry) = (of_le h + of_le x + carry) mod 2 ^ (8 * Z.of_nat (length h)).
Proof.
  intros Hh. revert x carry. induction Hh as [|a h Ha Hh IH]; intros x carry Hx Hl Hc.
  - destruct x; [|done]. cbn. by rewrite Z.mod_1_r.
  - destruct Hx as [|b x Hb Hx]; [done|]. injection Hl as Hl. unfold is_byte in Ha, Hb. cbn [add_loop length of_le].
    rewrite (u32_small (a + b)), u32_small by lia.
    rewrite land_ff, shiftr8. unfold u8. set (c := carry + (a + b)). assert (0 <= c < 2 ^ 16) by lia.
    destruct (IH x (c / 2 ^ 8)) as (Hy & Hyl & Hyv); [done | done | split; [apply Z.div_pos; lia|]; apply Z.lt_succ_r, Z.div_lt_upper_bound; lia|].
    split_and!; [constructor; [apply u8_range | done] | by rewrite Hyl |]. rewrite Hyv.
    replace (8 * Z.of_nat (S (length h))) with (8 + 8 * Z.of_nat (length h)) by lia. rewrite Z.pow_add_r by lia.
    replace (a + 2 ^ 8 * of_le h + (b + 2 ^ 8 * of_le x) + carry) with (c + 2 ^ 8 * (of_le h + of_le x)) by (unfold c; ring).
    rewrite limb_mod by (apply pow2_pos; lia). do 3 f_equal. ring.
Qed.

Lemma poly1305_add_spec h x :
  is_bytes h -> is_bytes x -> length h = 17%nat -> length x = 17%nat ->
  is_bytes (poly1305_add h x) /\ length (poly1305_add h x) = 17%nat /\ of_le (poly1305_add h x) = (of_le h + of_le x) mod 2 ^ 136.
Proof.
  intros Hh Hx Hlh Hlx. destruct (add_loop_spec h x 0) as (H1 & H2 & H3); [done | done | congruence | lia|].
  unfold poly1305_add. rewrite H2, H3, Hlh, Z.add_0_r. done.
Qed.

Lemma carry_loop_spec x carry :
  Forall (fun a => 0 <= a < 2 ^ 31) x -> 0 <= carry < 2 ^ 31 ->
  exists y c, carry_loop x carry = (y, c) /\ is_bytes y /\ length y = length x /\ of_le y + 2 ^ (8 * Z.of_nat (length x)) * c = of_le x + carry /\
    0 <= c < match x with [] => 2 ^ 31 | _ => 2 ^ 24 end.
Proof.
  intros Hx. revert carry. induction Hx as [|a x Ha Hx IH]; intros carry Hc.
  - exists [], carry. cbn. split_and!; [done | constructor | done | lia | lia | lia].
  - cbn [carry_loop]. rewrite u32_small by lia. rewrite land_ff, shiftr8. unfold u8. set (v := carry + a).
    assert (Hv : 0 <= v / 2 ^ 8 < 2 ^ 24) by (split; [apply Z.div_pos; lia | apply Z.div_lt_upper_bound; lia]).
    destruct (IH (v / 2 ^ 8) ltac:(lia)) as (y & c & -> & Hy & Hyl & Hyv & Hcb). exists (v mod 2 ^ 8 :: y), c. cbn [length of_le].
    split_and!; [done | constructor; [apply u8_range | done] | by rewrite Hyl | | lia |].
    + replace (8 * Z.of_nat (S (length x))) with (8 + 8 * Z.of_nat (length x)) by lia. rewrite Z.pow_add_r by lia.
      pose proof (Z.div_mod v (2 ^ 8) ltac:(lia)). unfold v in *. nia.
    + destruct x as [|b x]; [|lia]. cbn in Hyl. destruct y; [|done]. cbn in Hyv. lia.
Qed.

(** ** Reduction *)

Lemma split_17 (x : list Z) : length x = 17%nat -> of_le x = of_le (take 16 x) + 2 ^ 128 * (x !!! 16%nat).
Proof.
  intros Hl. rewrite <- (take_drop 16 x) at 1. rewrite of_le_app, length_take, Hl. change (8 * Z.of_nat (Nat.min 16 17)) with 128.
  destruct (lookup_lt_is_Some_2 x 16 ltac:(lia)) as [b Hb]. rewrite (drop_S _ _ _ Hb), (list_lookup_total_correct _ _ _ Hb), drop_ge by lia. cbn [of_le]. lia.
Qed.

(** The values the accumulator takes between blocks. *)
Record reduced (x : list Z) : Prop := {
  reduced_bytes : is_bytes x;
  reduced_length : length x = 17%nat;
  reduced_bound : of_le x < 2 ^ 130 + 2 ^ 31
}.

Lemma min_reduce_spec x :
  Forall (fun a => 0 <= a < 2 ^ 29) x -> length x = 17%nat -> reduced (poly1305_min_reduce x) /\ of_le (poly1305_min_reduce x) mod p1305 = of_le x mod p1305.
Proof.
  intros Hx Hl. unfold poly1305_min_reduce.
  assert (Ht : Forall (fun a => 0 <= a < 2 ^ 31) (take 16 x)) by (apply Forall_take; eapply Forall_impl; [|exact Hx]; cbn; intros; lia).
  destruct (carry_loop_spec (take 16 x) 0 Ht ltac:(lia)) as (low & c1 & -> & Hlow & Hlowl & Hlowv & Hc1).
  assert (Hl16 : length (take 16 x) = 16%nat) by (rewrite length_take; lia). rewrite Hl16 in Hlowl, Hlowv. change (8 * Z.of_nat 16) with 128 in Hlowv.
  assert (Hc1' : 0 <= c1 < 2 ^ 24) by (destruct (take 16 x); [done | lia]).
  destruct (lookup_lt_is_Some_2 x 16 ltac:(lia)) as [t Hxt]. pose proof (Forall_lookup_1 _ _ _ _ Hx Hxt) as Htb. cbn in Htb.
  pose proof (split_17 x Hl) as Hsplit. rewrite (list_lookup_total_correct _ _ _ Hxt) in *.
  rewrite (u32_small (c1 + t)) by lia. set (v := c1 + t) in *. assert (Hv : 0 <= v < 2 ^ 30) by lia.
  assert (El : Z.land v 3 = v mod 2 ^ 2) by (apply (Z.land_ones v 2); lia). rewrite El, Z.shiftr_div_pow2 by lia.
  pose proof (Z.div_mod v (2 ^ 2) ltac:(lia)) as Hdm. pose proof (Z.mod_pos_bound v (2 ^ 2) ltac:(lia)) as Hmb.
  assert (Hq : 0 <= v / 2 ^ 2 < 2 ^ 28) by (split; [apply Z.div_pos; lia | apply Z.div_lt_upper_bound; lia]). set (q := v / 2 ^ 2) in *. set (top := v mod 2 ^ 2) in *.
  rewrite (u32_small (5 * q)) by lia.
  assert (Hlow31 : Forall (fun a => 0 <= a < 2 ^ 31) low) by (eapply Forall_impl; [|exact Hlow]; unfold is_byte; intros; lia).
  destruct (carry_loop_spec low (5 * q) Hlow31 ltac:(lia)) as (low2 & c2 & -> & Hlow2 & Hlow2l & Hlow2v & Hc2).
  rewrite Hlowl in Hlow2l, Hlow2v. change (8 * Z.of_nat 16) with 128 in Hlow2v.
  pose proof (of_le_range low Hlow) as Hr1. pose proof (of_le_range low2 Hlow2) as Hr2. rewrite Hlowl in Hr1. rewrite Hlow2l in Hr2.
  change (8 * Z.of_nat 16) with 128 in Hr1, Hr2. assert (0 <= c2) by (destruct low; lia). assert (c2 <= 1) by lia.
  rewrite u32_small by lia.
  assert (Hval : of_le (low2 ++ [top + c2]) = of_le low + 2 ^ 128 * top + 5 * q).
  { rewrite of_le_app, Hlow2l. change (8 * Z.of_nat 16) with 128. cbn [of_le]. lia. }
  split; [constructor|].
  - apply Forall_app_2; [done|]. constructor; [unfold is_byte; lia | done].
  - rewrite length_app, Hlow2l. done.
  - rewrite Hval. lia.
  - rewrite Hval. replace (of_le x) with (of_le low + 2 ^ 128 * top + 5 * q + q * p1305) by (unfold p1305; lia). by rewrite Z.mod_add by (unfold p1305; lia).
Qed.

(** ** Multiplication *)

Definition zsum (l : list Z) : Z := foldr Z.add 0 l.

(** The limbs of the product, in unbounded integers. *)
Definition mul_exact (x y : list Z) (i : nat) : Z :=
  zsum (map (fun j => x !!! j * y !!! (i - j)%nat) (seq 0 (S i))) + zsum (map (fun j => 320 * (x !!! j * y !!! (i + 17 - j)%nat)) (seq (S i) (16 - i))).

Lemma foldl_u32 (f g : nat -> Z) (B acc : Z) (l : list nat) :
  (forall j, u32 (g j) = f j /\ 0 <= f j <= B) -> 0 <= acc -> acc + B * Z.of_nat (length l) < 2 ^ 32 ->
  foldl (fun a j => u32 (a + u32 (g j))) acc l = acc + zsum (map f l) /\ 0 <= zsum (map f l) <= B * Z.of_nat (length l).
Proof.
  intros Hf. revert acc. induction l as [|j l IH]; intros acc Ha Hb; cbn [foldl map length] in *; [cbn; lia|].
  destruct (Hf j) as [-> Hj]. assert (0 <= B * Z.of_nat (length l)) by nia. rewrite u32_small by lia. destruct (IH (acc + f j)) as [-> Hz]; [lia | lia|]. unfold zsum in *. cbn [foldr]. lia.
Qed.

Lemma byte_total x j : is_bytes x -> is_byte (x !!! j).
Proof.
  intros Hx. rewrite list_lookup_total_alt. destruct (x !! j) as [b|] eqn:E; cbn; [by eapply is_bytes_lookup | done].
Qed.

Lemma mul_accum_spec x y i :
  is_bytes x -> is_bytes y -> (i < 17)%nat -> mul_accum x y i = mul_exact x y i /\ 0 <= mul_exact x y i < 2 ^ 29.
Proof.
  intros Hx Hy Hi. unfold mul_accum, mul_exact. cbv zeta.
  assert (Hp : forall j k, 0 <= x !!! j * y !!! k <= 65025).
  { intros j k. pose proof (byte_total x j Hx) as H1. pose proof (byte_total y k Hy) as H2. unfold is_byte in H1, H2. nia. }
  destruct (foldl_u32 (fun j => x !!! j * y !!! (i - j)%nat) (fun j => x !!! j * y !!! (i - j)%nat) 65025 0 (seq 0 (S i))) as [-> Hz1].
  { intros j. specialize (Hp j (i - j)%nat). rewrite u32_small by lia. lia. }
  { lia. } { rewrite length_seq. lia. }
  destruct (foldl_u32 (fun j => 320 * (x !!! j * y !!! (i + 17 - j)%nat)) (fun j => u32 (Z.shiftl 5 6 * x !!! j) * y !!! (i + 17 - j)%nat) 20808000
    (0 + zsum (map (fun j => x !!! j * y !!! (i - j)%nat) (seq 0 (S i)))) (seq (S i) (16 - i))) as [-> Hz2].
  { intros j. specialize (Hp j (i + 17 - j)%nat). pose proof (byte_total x j Hx) as Hb. unfold is_byte in Hb. change (Z.shiftl 5 6) with 320.
    rewrite (u32_small (320 * x !!! j)) by lia. rewrite <- Z.mul_assoc, u32_small by lia. lia. }
  { lia. } { rewrite length_seq in *. lia. }
  rewrite !length_seq in *. split; [lia|]. lia.
Qed.

Lemma list17 (x : list Z) :
  length x = 17%nat -> exists x0 x1 x2 x3 x4 x5 x6 x7 x8 x9 x10 x11 x12 x13 x14 x15 x16, x = [x0; x1; x2; x3; x4; x5; x6; x7; x8; x9; x10; x11; x12; x13; x14; x15; x16].
Proof.
  intros Hl. do 17 (destruct x as [|? x]; [done|]). destruct x; [|done]. by repeat eexists.
Qed.

(** The products beyond limb 16. *)
Definition mul_wrapped (x y : list Z) (i : nat) : Z := zsum (map (fun j => x !!! j * y !!! (i + 17 - j)%nat) (seq (S i) (16 - i))).

Lemma convolution x y :
  length x = 17%nat -> length y = 17%nat ->
  of_le (map (mul_exact x y) (seq 0 17)) = of_le x * of_le y - 64 * p1305 * of_le (map (mul_wrapped x y) (seq 0 17)).
Proof.
  intros Hx Hy.
  destruct (list17 x Hx) as (x0 & x1 & x2 & x3 & x4 & x5 & x6 & x7 & x8 & x9 & x10 & x11 & x12 & x13 & x14 & x15 & x16 & ->).
  destruct (list17 y Hy) as (y0 & y1 & y2 & y3 & y4 & y5 & y6 & y7 & y8 & y9 & y10 & y11 & y12 & y13 & y14 & y15 & y16 & ->).
  cbv [mul_exact mul_wrapped zsum map seq foldr lookup_total list_lookup_total Nat.sub Nat.add of_le p1305]. ring.
Qed.

Lemma mul_spec x y :
  is_bytes x -> is_bytes y -> length x = 17%nat -> length y = 17%nat ->
  reduced (poly1305_mul x y) /\ of_le (poly1305_mul x y) mod p1305 = (of_le x * of_le y) mod p1305.
Proof.
  intros Hx Hy Hlx Hly. unfold poly1305_mul.
  assert (E : map (mul_accum x y) (seq 0 17) = map (mul_exact x y) (seq 0 17)).
  { apply map_ext_in. intros i Hi%in_seq. apply mul_accum_spec; [done | done | lia]. }
  rewrite E. destruct (min_reduce_spec (map (mul_exact x y) (seq 0 17))) as [Hr Hv].
  - apply List.Forall_forall. intros v (i & <- & Hi%in_seq)%in_map_iff. apply mul_accum_spec; [done | done | lia].
  - by rewrite length_map, length_seq.
  - split; [done|]. rewrite Hv, convolution by done.
    replace (of_le x * of_le y - _) with (of_le x * of_le y + (- (64 * of_le (map (mul_wrapped x y) (seq 0 17)))) * p1305) by ring.
    by rewrite Z.mod_add by (unfold p1305; lia).
Qed.

(** ** The final subtraction *)

(** The bit 7 of an octet, as [poly1305_full_reduce] tests it. *)
Lemma sign_mask t : is_byte t -> mask_u32 (Z.land t 0x80) 0x80 = if t <? 128 then 0 else 0xffffffff.
Proof.
  intros Ht.
  assert (H : forallb (fun n => mask_u32 (Z.land (Z.of_nat n) 0x80) 0x80 =? if Z.of_nat n <? 128 then 0 else 0xffffffff) (seq 0 256) = true) by (by vm_compute).
  rewrite forallb_forall in H. unfold is_byte in Ht. specialize (H (Z.to_nat t)). rewrite Z2Nat.id in H by lia. apply Z.eqb_eq, H, in_seq. lia.
Qed.

Lemma zip_select (x y : bytes) m1 m2 :
  is_bytes x -> is_bytes y -> length x = length y ->
  (m1 = 0xffffffff /\ m2 = 0 -> zip_with (fun a b => Z.lor (Z.land a m1) (Z.land b m2)) x y = x) /\
  (m1 = 0 /\ m2 = 0xffffffff -> zip_with (fun a b => Z.lor (Z.land a m1) (Z.land b m2)) x y = y).
Proof.
  intros Hx. revert y. assert (Hf : forall a, is_byte a -> Z.land a 0xffffffff = a).
  { intros a Ha. change 0xffffffff with (Z.ones 32). rewrite Z.land_ones by lia. apply Z.mod_small. unfold is_byte in Ha. lia. }
  induction Hx as [|a x Ha Hx IH]; intros y Hy Hl; [by destruct y|]. destruct Hy as [|b y Hb Hy]; [done|]. injection Hl as Hl.
  destruct (IH y Hy Hl) as [IH1 IH2]. split; intros [-> ->]; cbn [zip_with].
  - rewrite IH1, Hf, Z.land_0_r, Z.lor_0_r by done. done.
  - rewrite IH2, Hf, Z.land_0_r, Z.lor_0_l by done. done.
Qed.

Lemma full_reduce_spec x :
  reduced x -> is_bytes (poly1305_full_reduce x) /\ length (poly1305_full_reduce x) = 17%nat /\ of_le (poly1305_full_reduce x) = of_le x mod p1305.
Proof.
  intros [Hb Hl Hlt]. unfold poly1305_full_reduce. cbv zeta.
  assert (Hneg : is_bytes negative_1305) by (apply (bool_decide_unpack _); by vm_compute).
  destruct (poly1305_add_spec x negative_1305 Hb Hneg Hl eq_refl) as (Hsb & Hsl & Hsv).
  change (of_le negative_1305) with (2 ^ 136 - p1305) in Hsv. set (xsub := poly1305_add x negative_1305) in *.
  pose proof (split_17 xsub Hsl) as Hsplit. pose proof (of_le_range (take 16 xsub) ltac:(by apply Forall_take)) as Hr.
  rewrite length_take, Hsl in Hr. change (8 * Z.of_nat (Nat.min 16 17)) with 128 in Hr. set (t := xsub !!! 16%nat) in *.
  pose proof (of_le_range x Hb) as Hx0. assert (Ht : is_byte t) by (by apply byte_total). rewrite (sign_mask t Ht). unfold is_byte in Ht.
  destruct (zip_select x xsub (if t <? 128 then 0 else 0xffffffff) (Z.lxor (if t <? 128 then 0 else 0xffffffff) 0xffffffff) Hb Hsb ltac:(lia)) as [Z1 Z2].
  destruct (decide (of_le x < p1305)) as [Hx|Hx].
  - rewrite Z.mod_small in Hsv by (unfold p1305 in *; lia). assert (128 <= t) by (unfold p1305 in *; lia).
    rewrite (proj2 (Z.ltb_ge _ _)) in * by lia. rewrite Z1 by done. split_and!; [done | done|]. symmetry. apply Z.mod_small. lia.
  - assert (Hsv' : of_le xsub = of_le x - p1305).
    { rewrite Hsv. replace (of_le x + (2 ^ 136 - p1305)) with (of_le x - p1305 + 1 * 2 ^ 136) by ring. rewrite Z.mod_add by lia. apply Z.mod_small. unfold p1305 in *. lia. }
    assert (t < 128) by (unfold p1305 in *; lia). rewrite (proj2 (Z.ltb_lt _ _)) in * by lia. rewrite Z2 by done. split_and!; [done | done|].
    rewrite Hsv'. replace (of_le x) with (of_le x - p1305 + 1 * p1305) at 2 by ring. rewrite Z.mod_add by (unfold p1305; lia). symmetry. apply Z.mod_small. unfold p1305 in *. lia.
Qed.

(** ** Clamping *)

Lemma testbit_limb a A i : is_byte a -> 0 <= i -> Z.testbit (a + 2 ^ 8 * A) i = if i <? 8 then Z.testbit a i else Z.testbit A (i - 8).
Proof.
  intros Ha Hi. rewrite Z.add_comm, Z.mul_comm, <- lor_shiftl_add by (done || lia). rewrite Z.lor_spec. destruct (Z.ltb_spec i 8).
  - by rewrite Z.shiftl_spec_low by lia.
  - rewrite Z.shiftl_spec_high by lia. rewrite (testbit_high a 8) by (done || lia). apply orb_false_r.
Qed.

Lemma of_le_land (x y : bytes) : is_bytes x -> is_bytes y -> length x = length y ->
  is_bytes (zip_with Z.land x y) /\ of_le (zip_with Z.land x y) = Z.land (of_le x) (of_le y).
Proof.
  intros Hx. revert y. induction Hx as [|a x Ha Hx IH]; intros y Hy Hl; [by destruct y|]. destruct Hy as [|b y Hb Hy]; [done|]. injection Hl as Hl.
  destruct (IH y Hy Hl) as [IHb IHv]. pose proof (land_byte a b Ha Hb) as Hab. cbn [zip_with of_le]. split; [by constructor|]. rewrite IHv.
  apply Z.bits_inj'. intros i Hi. rewrite Z.land_spec, !testbit_limb by done. destruct (i <? 8); by rewrite Z.land_spec.
Qed.

(** ** Messages *)

Lemma of_le_zeroes n : of_le (replicate n 0) = 0.
Proof. induction n as [|n IH]; [done|]. cbn [replicate of_le]. by rewrite IH. Qed.

Section Message.
Context (r s : bytes).
Hypotheses (Hr : is_bytes r) (Hrl : length r = 16%nat) (Hs : is_bytes s) (Hsl : length s = 16%nat).

Notation rc := (rfc8439_clamp r).
Notation R := (zip_with Z.land r clamp_masks ++ [0]).

Lemma clamped : is_bytes R /\ length R = 17%nat /\ of_le R = rc.
Proof.
  assert (Hm : is_bytes clamp_masks) by (apply (bool_decide_unpack _); by vm_compute).
  destruct (of_le_land r clamp_masks Hr Hm Hrl) as [Hb Hv]. split_and!.
  - apply Forall_app_2; [done|]. by constructor.
  - rewrite length_app, length_zip_with, Hrl. done.
  - rewrite of_le_app, Hv. cbn [of_le]. rewrite Z.mul_0_r, !Z.add_0_r. done.
Qed.

(** One block: the limbs hold a representative of the accumulator of the RFC. *)
Lemma block_spec h c :
  reduced h -> is_bytes c -> length c = 17%nat -> of_le c < 2 ^ 129 ->
  reduced (poly1305_mul (poly1305_add h c) R) /\ of_le (poly1305_mul (poly1305_add h c) R) mod p1305 = (of_le h mod p1305 + of_le c) * rc mod p1305.
Proof.
  intros [Hh Hhl Hhb] Hc Hcl Hcb. destruct clamped as (HR & HRl & HRv).
  destruct (poly1305_add_spec h c Hh Hc Hhl Hcl) as (Hab & Hal & Hav).
  pose proof (of_le_range h Hh). pose proof (of_le_range c Hc). rewrite Z.mod_small in Hav by lia.
  destruct (mul_spec (poly1305_add h c) R Hab HR Hal HRl) as [Hred Hv]. split; [done|]. rewrite Hv, Hav, HRv.
  rewrite <- (Z.mul_mod_idemp_l (_ mod _ + _)) by (unfold p1305; lia). rewrite Zplus_mod_idemp_l. by rewrite Z.mul_mod_idemp_l by (unfold p1305; lia).
Qed.

Lemma octet_block b : is_bytes b -> length b = 16%nat -> is_bytes (b ++ [1]) /\ length (b ++ [1]) = 17%nat /\ of_le (b ++ [1]) < 2 ^ 129.
Proof.
  intros Hb Hl. split_and!; [apply Forall_app_2; [done | by constructor] | rewrite length_app, Hl; done|].
  pose proof (of_le_range b Hb) as Hrange. rewrite of_le_app. rewrite Hl in *. cbn [of_le]. change (8 * Z.of_nat 16) with 128 in *. lia.
Qed.

Definition poly_step (c : cf_poly1305) (b : bytes) : cf_poly1305 := poly1305_block c (take 16 b ++ [1]).

(** The context before the first octet, but for the buffer. *)
Definition poly_start (partial : bytes) (npartial : nat) : cf_poly1305 := mk_poly (replicate 17 0) R s partial npartial.

Lemma poly_blocks bs p n :
  Forall (fun b => length b = 16%nat) bs -> is_bytes (concat bs) ->
  exists h, foldl poly_step (poly_start p n) bs = mk_poly h R s p n /\ reduced h /\ of_le h mod p1305 = foldl (rfc8439_step rc) 0 bs.
Proof.
  intros Hbs Hb. unfold poly_start.
  assert (H0 : reduced (replicate 17 0)) by (constructor; [apply (bool_decide_unpack _); by vm_compute | done | by vm_compute]).
  enough (Hgen : forall h a, reduced h -> of_le h mod p1305 = a ->
    exists h', foldl poly_step (mk_poly h R s p n) bs = mk_poly h' R s p n /\ reduced h' /\ of_le h' mod p1305 = foldl (rfc8439_step rc) a bs) by (by apply Hgen).
  induction Hbs as [|b bs Hbl Hbs IH]; intros h a Hh Ha; cbn [foldl]; [by exists h|].
  cbn [concat] in Hb. apply Forall_app in Hb as [Hb1 Hb2].
  assert (E : poly_step (mk_poly h R s p n) b = mk_poly (poly1305_mul (poly1305_add h (b ++ [1])) R) R s p n).
  { unfold poly_step, poly1305_block. rewrite take_ge by lia. done. }
  rewrite E. destruct (octet_block b Hb1 Hbl) as (Hc1 & Hc2 & Hc3). destruct (block_spec h (b ++ [1]) Hh Hc1 Hc2 Hc3) as [Hred Hv].
  apply (IH Hb2); [done|]. rewrite Hv. unfold rfc8439_step. by rewrite Ha.
Qed.

(** [ctx] has been fed [msg]. *)
Definition poly_fed (msg : bytes) (ctx : cf_poly1305) : Prop :=
  absorbed 16 poly_step (poly_start (po_partial ctx) (po_npartial ctx)) msg (po_partial ctx, po_npartial ctx, ctx).

Lemma poly_init : cf_poly1305_init r s = Ok (poly_start (replicate 16 0) 0) /\ poly_fed [] (poly_start (replicate 16 0) 0).
Proof.
  unfold cf_poly1305_init. rewrite Hrl, Hsl. cbn [Nat.ltb Nat.leb orb]. rewrite !take_ge by lia. split; [done|]. apply absorbed_nil; [lia | done].
Qed.

Lemma foldl_poly_step_buffer h p n p' n' bs :
  foldl poly_step (mk_poly h R s p n) bs = (foldl poly_step (mk_poly h R s p' n') bs) <| po_partial := p |> <| po_npartial := n |>.
Proof. revert h. induction bs as [|b bs IH]; intros h; [done|]. cbn [foldl]. apply IH. Qed.

Lemma poly_update msg ctx buf : poly_fed msg ctx -> exists ctx', cf_poly1305_update ctx buf = Ok ctx' /\ poly_fed (msg ++ buf) ctx'.
Proof.
  intros Hf. unfold cf_poly1305_update.
  assert (Hproc : forall c b, length b = 16%nat -> poly1305_whole_block c b = Ok (poly_step c b))
    by (intros c b Hb; unfold poly1305_whole_block; rewrite (proj2 (Nat.ltb_ge _ _)) by lia; done).
  destruct (accumulate_absorbs 16 poly1305_whole_block poly_step _ ltac:(lia) Hproc _ _ buf Hf) as ([[p n] c] & -> & Ha). cbn [res_bind].
  eexists. split; [done|]. destruct Ha as [Hp Hn (bs & Hbs & Hmsg & Hc)]. cbn [fst snd] in *. constructor; cbn [fst snd]; [exact Hp | exact Hn|].
  exists bs. split_and!; [done | exact Hmsg|]. rewrite Hc. unfold poly_start. symmetry. apply foldl_poly_step_buffer.
Qed.

(** The last, shorter piece. *)
Lemma last_piece msg ctx :
  is_bytes msg -> poly_fed msg ctx ->
  exists h p n, (if (po_npartial ctx =? 0)%nat then Ok ctx else poly1305_last_block ctx) = Ok (mk_poly h R s p n) /\
    reduced h /\ of_le h mod p1305 = foldl (rfc8439_step rc) 0 (pieces16 msg).
Proof.
  intros Hb Hf. pose proof (absorbed_inv 16 poly_step _ (Nat.lt_0_succ 15) _ _ Hf) as (Hn & _ & Htail). destruct Hf as [Hp Hnp (bs & Hbs & Hmsg & Hctx)]. cbn [fst snd] in *.
  assert (Hbb : is_bytes (concat bs) /\ is_bytes (take (po_npartial ctx) (po_partial ctx))) by (apply Forall_app; by rewrite <- Hmsg).
  destruct Hbb as [Hbb Htb]. destruct (poly_blocks bs (po_partial ctx) (po_npartial ctx) Hbs Hbb) as (h & Eh & Hred & Hv). rewrite Eh in Hctx.
  assert (Ebs : bs = blocks_of 16 (length msg / 16) msg).
  { assert (El : (length msg / 16)%nat = length bs); [|by rewrite El, Hmsg, blocks_of_concat].
    rewrite Hmsg, length_app, (length_concat_blocks 16), length_take by done. rewrite Nat.div_add_l, Nat.div_small by lia. lia. }
  unfold pieces16. rewrite <- Ebs, <- Hn. destruct (Nat.eqb_spec (po_npartial ctx) 0) as [E|E].
  - exists h, (po_partial ctx), (po_npartial ctx). rewrite app_nil_r. split_and!; [by rewrite Hctx at 1 | done | done].
  - unfold poly1305_last_block. rewrite (proj2 (Nat.ltb_ge _ _)) by lia.
    set (tail := take (po_npartial ctx) (po_partial ctx)) in *. assert (Htl : length tail = po_npartial ctx) by (unfold tail; rewrite length_take; lia).
    assert (Ec : <[po_npartial ctx := 1]> (tail ++ replicate (17 - po_npartial ctx) 0) = (tail ++ [1]) ++ replicate (16 - po_npartial ctx) 0).
    { replace (17 - po_npartial ctx)%nat with (S (16 - po_npartial ctx)) by lia. rewrite <- Htl at 1. cbn [replicate].
      rewrite <- (Nat.add_0_r (length tail)), insert_app_r, <- app_assoc. done. }
    rewrite Ec. pose proof (of_le_range tail Htb) as Htr. rewrite Htl in Htr.
    assert (Hpow : 2 ^ (8 * Z.of_nat (po_npartial ctx)) <= 2 ^ 128) by (apply Z.pow_le_mono_r; lia).
    assert (Hcv : of_le ((tail ++ [1]) ++ replicate (16 - po_npartial ctx) 0) = of_le (tail ++ [1])) by (rewrite of_le_app, of_le_zeroes; lia).
    assert (Hcb : of_le (tail ++ [1]) < 2 ^ 129) by (rewrite of_le_app, Htl; cbn [of_le]; lia).
    destruct (block_spec h ((tail ++ [1]) ++ replicate (16 - po_npartial ctx) 0) Hred) as [Hred' Hv'].
    + apply Forall_app_2; [apply Forall_app_2; [done | by constructor] | by apply Forall_replicate].
    + rewrite !length_app, length_replicate, Htl. cbn [length]. lia.
    + by rewrite Hcv.
    + eexists _, (po_partial ctx), (po_npartial ctx). split; [|split; [exact Hred'|]].
      * rewrite Hctx. done.
      * rewrite Hv', Hcv, Hv, foldl_app. cbn [foldl]. unfold rfc8439_step at 2. by rewrite Htail.
Qed.

(** The tag. *)
Lemma poly_finish msg ctx : is_bytes msg -> poly_fed msg ctx -> cf_poly1305_finish ctx = Ok (rfc8439_poly1305 r s msg, poly1305_cleared).
Proof.
  intros Hb Hf. destruct (last_piece msg ctx Hb Hf) as (h' & p & n & E & Hred' & Hv'). unfold cf_poly1305_finish. rewrite E. cbn [res_bind po_s po_h].
  destruct (full_reduce_spec h' Hred') as (Hfb & Hfl & Hfv).
  assert (Hs17 : is_bytes (s ++ [0])) by (apply Forall_app_2; [done | by constructor]).
  destruct (poly1305_add_spec _ (s ++ [0]) Hfb Hs17 Hfl ltac:(rewrite length_app, Hsl; done)) as (Htb' & Htl' & Htv).
  set (t := poly1305_add _ (s ++ [0])) in *. assert (Et : t = le 17 (foldl (rfc8439_step rc) 0 (pieces16 msg) + of_le s)).
  { rewrite <- (le_of_le t Htb'), Htl', Htv, Hfv, Hv', of_le_app. cbn [of_le]. rewrite !Z.mul_0_r, !Z.add_0_r. apply (le_mod 17). }
  unfold rfc8439_poly1305. f_equal. f_equal. rewrite Et. generalize (foldl (rfc8439_step rc) 0 (pieces16 msg) + of_le s) as v. intros v.
  assert (Htake : take 16 (le 17 v) = le 16 v) by reflexivity.
  rewrite Htake. generalize (le_bytes 16 v). generalize (le 16 v). intros l. induction 1 as [|b l Hb' _ IHl]; [done|]. cbn [map]. by rewrite IHl, u8_id.
Qed.
End Message.

Lemma length_rfc8439_poly1305 r s msg : length (rfc8439_poly1305 r s msg) = 16%nat.
Proof. apply length_le. Qed.
Lemma rfc8439_poly1305_bytes r s msg : is_bytes (rfc8439_poly1305 r s msg).
Proof. apply le_bytes. Qed.
