(* ===== verification/Constants.v ===== *)
(** * Constants of picotls

    The numeric constants of [include/picotls.h] and of the head of
    [lib/picotls.c] that the models use, under their C names. *)
From S2P Require Import Prelude.

(** ** Sizes *)
Definition PTLS_HELLO_RANDOM_SIZE : nat := 32.
Definition PTLS_MAX_DIGEST_SIZE : nat := 64.
Definition PTLS_HANDSHAKE_HEADER_SIZE : nat := 4.
Definition PTLS_ESNI_NONCE_SIZE : nat := 16.
Definition PTLS_MAX_PLAINTEXT_RECORD_SIZE : Z := 16384.
Definition PTLS_MAX_ENCRYPTED_RECORD_SIZE : Z := 16384 + 256.
Definition PTLS_MAX_EARLY_DATA_SKIP_SIZE : Z := 65536.
Definition PTLS_EARLY_DATA_MAX_DELAY : Z := 10000.
Definition PTLS_MAX_CERTIFICATE_VERIFY_SIGNDATA_SIZE : nat := 64 + 34 + 64 * 2.
Definition MAX_UNKNOWN_EXTENSIONS : nat := 16.
Definition MAX_CLIENT_CIPHERS : nat := 32.

(** ** PTLS_RECORD_VERSION_M *)
Definition PTLS_RECORD_VERSION_MAJOR : Z := 3.
Definition PTLS_RECORD_VERSION_MINOR : Z := 3.

(** ** PTLS_CONTENT_TYPE *)
Definition PTLS_CONTENT_TYPE_CHANGE_CIPHER_SPEC : Z := 20.
Definition PTLS_CONTENT_TYPE_ALERT : Z := 21.
Definition PTLS_CONTENT_TYPE_HANDSHAKE : Z := 22.
Definition PTLS_CONTENT_TYPE_APPDATA : Z := 23.

(** ** PTLS_PSK_KE *)
Definition PTLS_PSK_KE_MODE_PSK : Z := 0.
Definition PTLS_PSK_KE_MODE_PSK_DHE : Z := 1.

(** ** PTLS_EXTENSION_TYPE *)
Definition PTLS_EXTENSION_TYPE_SERVER_NAME : Z := 0.
Definition PTLS_EXTENSION_TYPE_STATUS_REQUEST : Z := 5.
Definition PTLS_EXTENSION_TYPE_SUPPORTED_GROUPS : Z := 10.
Definition PTLS_EXTENSION_TYPE_SIGNATURE_ALGORITHMS : Z := 13.
Definition PTLS_EXTENSION_TYPE_ALPN : Z := 16.
Definition PTLS_EXTENSION_TYPE_COMPRESS_CERTIFICATE : Z := 27.
Definition PTLS_EXTENSION_TYPE_PRE_SHARED_KEY : Z := 41.
Definition PTLS_EXTENSION_TYPE_EARLY_DATA : Z := 42.
Definition PTLS_EXTENSION_TYPE_SUPPORTED_VERSIONS : Z := 43.
Definition PTLS_EXTENSION_TYPE_COOKIE : Z := 44.
Definition PTLS_EXTENSION_TYPE_PSK_KEY_EXCHANGE_MODES : Z := 45.
Definition PTLS_EXTENSION_TYPE_KEY_SHARE : Z := 51.
Definition PTLS_EXTENSION_TYPE_ENCRYPTED_SERVER_NAME : Z := 65486.

(** ** PTLS_PROTOCOL_VERSION_ *)
Definition PTLS_PROTOCOL_VERSION_TLS13_FINAL : Z := 772.
Definition PTLS_PROTOCOL_VERSION_TLS13_DRAFT26 : Z := 32538.
Definition PTLS_PROTOCOL_VERSION_TLS13_DRAFT27 : Z := 32539.
Definition PTLS_PROTOCOL_VERSION_TLS13_DRAFT28 : Z := 32540.

(** ** PTLS_SERVER_NAME_TYPE *)
Definition PTLS_SERVER_NAME_TYPE_HOSTNAME : Z := 0.

(** ** PTLS_CIPHER_SUITE *)
Definition PTLS_CIPHER_SUITE_AES_128_GCM_SHA256 : Z := 4865.
Definition PTLS_CIPHER_SUITE_AES_256_GCM_SHA384 : Z := 4866.
Definition PTLS_CIPHER_SUITE_CHACHA20_POLY1305_SHA256 : Z := 4867.

(** ** PTLS_GROUP *)
Definition PTLS_GROUP_SECP256R1 : Z := 23.
Definition PTLS_GROUP_SECP384R1 : Z := 24.
Definition PTLS_GROUP_SECP521R1 : Z := 25.
Definition PTLS_GROUP_X25519 : Z := 29.
Definition PTLS_GROUP_X448 : Z := 30.

(** ** PTLS_SIGNATURE *)
Definition PTLS_SIGNATURE_RSA_PKCS1_SHA1 : Z := 513.
Definition PTLS_SIGNATURE_RSA_PKCS1_SHA256 : Z := 1025.
Definition PTLS_SIGNATURE_ECDSA_SECP256R1_SHA256 : Z := 1027.
Definition PTLS_SIGNATURE_ECDSA_SECP384R1_SHA384 : Z := 1283.
Definition PTLS_SIGNATURE_ECDSA_SECP521R1_SHA512 : Z := 1539.
Definition PTLS_SIGNATURE_RSA_PSS_RSAE_SHA256 : Z := 2052.
Definition PTLS_SIGNATURE_RSA_PSS_RSAE_SHA384 : Z := 2053.
Definition PTLS_SIGNATURE_RSA_PSS_RSAE_SHA512 : Z := 2054.

(** ** PTLS_ESNI_ *)
Definition PTLS_ESNI_VERSION_DRAFT03 : Z := 65282.
Definition PTLS_ESNI_RESPONSE_TYPE_ACCEPT : Z := 0.
Definition PTLS_ESNI_RESPONSE_TYPE_RETRY_REQUEST : Z := 1.

(** ** PTLS_ERROR_CLASS *)
Definition PTLS_ERROR_CLASS_SELF_ALERT : Z := 0.
Definition PTLS_ERROR_CLASS_PEER_ALERT : Z := 256.
Definition PTLS_ERROR_CLASS_INTERNAL : Z := 512.

(** ** PTLS_ALERT_ *)
Definition PTLS_ALERT_LEVEL_WARNING : Z := 1.
Definition PTLS_ALERT_LEVEL_FATAL : Z := 2.
Definition PTLS_ALERT_CLOSE_NOTIFY : Z := 0.
Definition PTLS_ALERT_UNEXPECTED_MESSAGE : Z := 10.
Definition PTLS_ALERT_BAD_RECORD_MAC : Z := 20.
Definition PTLS_ALERT_HANDSHAKE_FAILURE : Z := 40.
Definition PTLS_ALERT_BAD_CERTIFICATE : Z := 42.
Definition PTLS_ALERT_CERTIFICATE_REVOKED : Z := 44.
Definition PTLS_ALERT_CERTIFICATE_EXPIRED : Z := 45.
Definition PTLS_ALERT_CERTIFICATE_UNKNOWN : Z := 46.
Definition PTLS_ALERT_ILLEGAL_PARAMETER : Z := 47.
Definition PTLS_ALERT_UNKNOWN_CA : Z := 48.
Definition PTLS_ALERT_DECODE_ERROR : Z := 50.
Definition PTLS_ALERT_DECRYPT_ERROR : Z := 51.
Definition PTLS_ALERT_PROTOCOL_VERSION : Z := 70.
Definition PTLS_ALERT_INTERNAL_ERROR : Z := 80.
Definition PTLS_ALERT_USER_CANCELED : Z := 90.
Definition PTLS_ALERT_MISSING_EXTENSION : Z := 109.
Definition PTLS_ALERT_UNRECOGNIZED_NAME : Z := 112.
Definition PTLS_ALERT_CERTIFICATE_REQUIRED : Z := 116.
Definition PTLS_ALERT_NO_APPLICATION_PROTOCOL : Z := 120.

(** ** PTLS_HANDSHAKE_TYPE *)
Definition PTLS_HANDSHAKE_TYPE_CLIENT_HELLO : Z := 1.
Definition PTLS_HANDSHAKE_TYPE_SERVER_HELLO : Z := 2.
Definition PTLS_HANDSHAKE_TYPE_NEW_SESSION_TICKET : Z := 4.
Definition PTLS_HANDSHAKE_TYPE_END_OF_EARLY_DATA : Z := 5.
Definition PTLS_HANDSHAKE_TYPE_ENCRYPTED_EXTENSIONS : Z := 8.
Definition PTLS_HANDSHAKE_TYPE_CERTIFICATE : Z := 11.
Definition PTLS_HANDSHAKE_TYPE_CERTIFICATE_REQUEST : Z := 13.
Definition PTLS_HANDSHAKE_TYPE_CERTIFICATE_VERIFY : Z := 15.
Definition PTLS_HANDSHAKE_TYPE_FINISHED : Z := 20.
Definition PTLS_HANDSHAKE_TYPE_KEY_UPDATE : Z := 24.
Definition PTLS_HANDSHAKE_TYPE_COMPRESSED_CERTIFICATE : Z := 25.
Definition PTLS_HANDSHAKE_TYPE_MESSAGE_HASH : Z := 254.

(** ** Internal errors *)
Definition PTLS_ERROR_NO_MEMORY : Z := PTLS_ERROR_CLASS_INTERNAL + 1.
Definition PTLS_ERROR_IN_PROGRESS : Z := PTLS_ERROR_CLASS_INTERNAL + 2.
Definition PTLS_ERROR_LIBRARY : Z := PTLS_ERROR_CLASS_INTERNAL + 3.
Definition PTLS_ERROR_INCOMPATIBLE_KEY : Z := PTLS_ERROR_CLASS_INTERNAL + 4.
Definition PTLS_ERROR_SESSION_NOT_FOUND : Z := PTLS_ERROR_CLASS_INTERNAL + 5.
Definition PTLS_ERROR_STATELESS_RETRY : Z := PTLS_ERROR_CLASS_INTERNAL + 6.
Definition PTLS_ERROR_NOT_AVAILABLE : Z := PTLS_ERROR_CLASS_INTERNAL + 7.
Definition PTLS_ERROR_COMPRESSION_FAILURE : Z := PTLS_ERROR_CLASS_INTERNAL + 8.
Definition PTLS_ERROR_ESNI_RETRY : Z := PTLS_ERROR_CLASS_INTERNAL + 8.
Definition PTLS_ERROR_REJECT_EARLY_DATA : Z := PTLS_ERROR_CLASS_INTERNAL + 9.
Definition PTLS_ERROR_DELEGATE : Z := PTLS_ERROR_CLASS_INTERNAL + 10.
Definition PTLS_ERROR_INCORRECT_BASE64 : Z := PTLS_ERROR_CLASS_INTERNAL + 50.
Definition PTLS_ERROR_PEM_LABEL_NOT_FOUND : Z := PTLS_ERROR_CLASS_INTERNAL + 51.
Definition PTLS_ERROR_BER_INCORRECT_ENCODING : Z := PTLS_ERROR_CLASS_INTERNAL + 52.
Definition PTLS_ERROR_BER_MALFORMED_TYPE : Z := PTLS_ERROR_CLASS_INTERNAL + 53.
Definition PTLS_ERROR_BER_MALFORMED_LENGTH : Z := PTLS_ERROR_CLASS_INTERNAL + 54.
Definition PTLS_ERROR_BER_EXCESSIVE_LENGTH : Z := PTLS_ERROR_CLASS_INTERNAL + 55.
Definition PTLS_ERROR_BER_ELEMENT_TOO_SHORT : Z := PTLS_ERROR_CLASS_INTERNAL + 56.
Definition PTLS_ERROR_BER_UNEXPECTED_EOC : Z := PTLS_ERROR_CLASS_INTERNAL + 57.
Definition PTLS_ERROR_DER_INDEFINITE_LENGTH : Z := PTLS_ERROR_CLASS_INTERNAL + 58.
Definition PTLS_ERROR_INCORRECT_ASN1_SYNTAX : Z := PTLS_ERROR_CLASS_INTERNAL + 59.
Definition PTLS_ERROR_INCORRECT_PEM_KEY_VERSION : Z := PTLS_ERROR_CLASS_INTERNAL + 60.
Definition PTLS_ERROR_INCORRECT_PEM_ECDSA_KEY_VERSION : Z := PTLS_ERROR_CLASS_INTERNAL + 61.
Definition PTLS_ERROR_INCORRECT_PEM_ECDSA_CURVE : Z := PTLS_ERROR_CLASS_INTERNAL + 62.
Definition PTLS_ERROR_INCORRECT_PEM_ECDSA_KEYSIZE : Z := PTLS_ERROR_CLASS_INTERNAL + 63.
Definition PTLS_ERROR_INCORRECT_ASN1_ECDSA_KEY_SYNTAX : Z := PTLS_ERROR_CLASS_INTERNAL + 64.

(** ** Error classes *)
Definition PTLS_ERROR_GET_CLASS (e : Z) : Z := Z.land e (Z.lnot 255).
Definition PTLS_ALERT_TO_SELF_ERROR (e : Z) : Z := e + PTLS_ERROR_CLASS_SELF_ALERT.
Definition PTLS_ALERT_TO_PEER_ERROR (e : Z) : Z := e + PTLS_ERROR_CLASS_PEER_ALERT.
Definition PTLS_ERROR_TO_ALERT (e : Z) : Z := Z.land e 255.

(** ** Tables of [lib/picotls.c] *)
Definition supported_versions : list Z :=
  [PTLS_PROTOCOL_VERSION_TLS13_FINAL; PTLS_PROTOCOL_VERSION_TLS13_DRAFT28;
   PTLS_PROTOCOL_VERSION_TLS13_DRAFT27; PTLS_PROTOCOL_VERSION_TLS13_DRAFT26].

Definition hello_retry_random : bytes :=
  [0xCF; 0x21; 0xAD; 0x74; 0xE5; 0x9A; 0x61; 0x11; 0xBE; 0x1D; 0x8C;
   0x02; 0x1E; 0x65; 0xB8; 0x91; 0xC2; 0xA2; 0x11; 0x16; 0x7A; 0xBB;
   0x8C; 0x5E; 0x07; 0x9E; 0x09; 0xE2; 0xC8; 0xA8; 0x33; 0x9C].

Definition zeroes_of_max_digest_size : bytes := replicate PTLS_MAX_DIGEST_SIZE 0.

(** [is_supported_version]: the linear search through [supported_versions]. *)
Definition is_supported_version (v : Z) : bool := existsb (fun w => w =? v) supported_versions.
