(* ===== verification/Wire.v ===== *)
(** * Wire: the octet-level codecs

    The integer readers and writers, the QUIC variable-length integers and the
    length-prefixed blocks of [include/picotls.h] and [lib/picotls.c], on which
    every message of the protocol is built.  A decoder takes the octets of the
    object it reads ([mem]), the cursor [src] and the bound [end]; the macro
    [ptls_decode_open_block] runs its body with the bound of the block. *)
From S2P Require Import Prelude Constants.

Section Decode.
Context (mem : bytes).

(** ** Fixed-width integers *)

Definition ntoh16 (src : nat) : res Z :=
  let! b0 := rd mem src in
  let! b1 := rd mem (src + 1) in
  Ok (u16 (Z.lor (Z.shiftl b0 8) b1)).

Definition ntoh24 (src : nat) : res Z :=
  let! b0 := rd mem src in
  let! b1 := rd mem (src + 1) in
  let! b2 := rd mem (src + 2) in
  Ok (Z.lor (Z.lor (u32 (Z.shiftl b0 16)) (u32 (Z.shiftl b1 8))) b2).

Definition ntoh32 (src : nat) : res Z :=
  let! b0 := rd mem src in
  let! b1 := rd mem (src + 1) in
  let! b2 := rd mem (src + 2) in
  let! b3 := rd mem (src + 3) in
  Ok (Z.lor (Z.lor (Z.lor (u32 (Z.shiftl b0 24)) (u32 (Z.shiftl b1 16))) (u32 (Z.shiftl b2 8))) b3).

Definition ntoh64 (src : nat) : res Z :=
  let! b0 := rd mem src in
  let! b1 := rd mem (src + 1) in
  let! b2 := rd mem (src + 2) in
  let! b3 := rd mem (src + 3) in
  let! b4 := rd mem (src + 4) in
  let! b5 := rd mem (src + 5) in
  let! b6 := rd mem (src + 6) in
  let! b7 := rd mem (src + 7) in
  Ok (Z.lor (Z.lor (Z.lor (Z.lor (Z.lor (Z.lor (Z.lor
        (u64 (Z.shiftl b0 56)) (u64 (Z.shiftl b1 48))) (u64 (Z.shiftl b2 40))) (u64 (Z.shiftl b3 32)))
        (u64 (Z.shiftl b4 24))) (u64 (Z.shiftl b5 16))) (u64 (Z.shiftl b6 8))) b7).

Definition ptls_decode16 (src end_ : nat) : res (Z * nat) :=
  if (end_ - src <? 2)%nat then Err PTLS_ALERT_DECODE_ERROR
  else let! value := ntoh16 src in Ok (value, (src + 2)%nat).

Definition ptls_decode24 (src end_ : nat) : res (Z * nat) :=
  if (end_ - src <? 3)%nat then Err PTLS_ALERT_DECODE_ERROR
  else
    let! b0 := rd mem src in
    let! b1 := rd mem (src + 1) in
    let! b2 := rd mem (src + 2) in
    Ok (Z.lor (Z.lor (u32 (Z.shiftl b0 16)) (u32 (Z.shiftl b1 8))) b2, (src + 3)%nat).

Definition ptls_decode32 (src end_ : nat) : res (Z * nat) :=
  if (end_ - src <? 4)%nat then Err PTLS_ALERT_DECODE_ERROR
  else let! value := ntoh32 src in Ok (value, (src + 4)%nat).

Definition ptls_decode64 (src end_ : nat) : res (Z * nat) :=
  if (end_ - src <? 8)%nat then Err PTLS_ALERT_DECODE_ERROR
  else let! value := ntoh64 src in Ok (value, (src + 8)%nat).

(** ** QUIC variable-length integers *)

(** [do { v = v << 8 | *src++; } while (--bytes_left != 0)], on [uint64_t]. *)
Fixpoint quicint_loop (bytes_left : nat) (v : Z) (src : nat) : res (Z * nat) :=
  match bytes_left with
  | O => Ok (v, src)
  | S n => let! b := rd mem src in quicint_loop n (u64 (Z.lor (Z.shiftl v 8) b)) (src + 1)
  end.

(** Failure is the value [UINT64_MAX], not an error return. *)
Definition ptls_decode_quicint (src end_ : nat) : res (Z * nat) :=
  if (src =? end_)%nat then Ok (UINT64_MAX, src)
  else
    let! b := rd mem src in
    let src := (src + 1)%nat in
    if b <=? 0x3f then Ok (b, src)
    else
      let v := Z.land b 0x3f in
      let bytes_left := Z.to_nat (Z.shiftl 1 (Z.shiftr b 6) - 1) in
      if (end_ - src <? bytes_left)%nat then Ok (UINT64_MAX, src)
      else quicint_loop bytes_left v src.

(** ** Length-prefixed blocks *)

(** [do { _block_size = _block_size << 8 | *src++; } while (--_capacity != 0)] *)
Fixpoint block_size_loop (capacity : nat) (block_size : Z) (src : nat) : res (Z * nat) :=
  match capacity with
  | O => Ok (block_size, src)
  | S n => let! b := rd mem src in block_size_loop n (u64 (Z.lor (Z.shiftl block_size 8) b)) (src + 1)
  end.

Definition decode_block_size (src end_ : nat) (capacity : Z) : res (Z * nat) :=
  if capacity =? -1 then
    let! '(block_size64, src) := ptls_decode_quicint src end_ in
    if block_size64 =? UINT64_MAX then Err PTLS_ALERT_DECODE_ERROR else Ok (block_size64, src)
  else if Z.of_nat (end_ - src) <? capacity then Err PTLS_ALERT_DECODE_ERROR
  else block_size_loop (Z.to_nat capacity) 0 src.

Definition ptls_decode_open_block {A} (src end_ : nat) (capacity : Z)
    (block : nat -> nat -> res (A * nat)) : res (A * nat) :=
  let! '(block_size, src) := decode_block_size src end_ capacity in
  if Z.of_nat (end_ - src) <? block_size then Err PTLS_ALERT_DECODE_ERROR
  else
    let end_ := (src + Z.to_nat block_size)%nat in
    let! '(a, src) := block src end_ in
    if (src =? end_)%nat then Ok (a, src) else Err PTLS_ALERT_DECODE_ERROR.

Definition ptls_decode_assert_block_close (src end_ : nat) : res unit :=
  if (src =? end_)%nat then Ok tt else Err PTLS_ALERT_DECODE_ERROR.

Definition ptls_decode_block {A} (src end_ : nat) (capacity : Z)
    (block : nat -> nat -> res (A * nat)) : res (A * nat) :=
  let! '(a, src) := ptls_decode_open_block src end_ capacity block in
  let! _ := ptls_decode_assert_block_close src end_ in
  Ok (a, src).

(** The block body [{ x = ptls_iovec_init(src, end - src); src = end; }]. *)
Definition take_all (src end_ : nat) : res (bytes * nat) := Ok (slice mem src end_, end_).

(** [while (src != end) body] and [do body while (src != end)].  The bound on
    the iterations is the distance to [end]: a body that consumes at least one
    octet per turn never exhausts it. *)
Fixpoint while_src {S} (fuel : nat) (end_ : nat) (body : S -> nat -> res (S * nat))
    (st : S) (src : nat) : res (S * nat) :=
  if (src =? end_)%nat then Ok (st, src)
  else match fuel with
       | O => Stuck OutOfFuel
       | Datatypes.S fuel => let! '(st, src) := body st src in while_src fuel end_ body st src
       end.

Definition while_ne {S} (end_ : nat) (body : S -> nat -> res (S * nat)) (st : S) (src : nat) :=
  while_src (end_ - src) end_ body st src.

Definition do_while_ne {S} (end_ : nat) (body : S -> nat -> res (S * nat)) (st : S) (src : nat) :=
  let! '(st, src) := body st src in while_ne end_ body st src.
End Decode.

(** ** Writers: the octets appended by the [ptls_buffer_push*] macros *)

Definition push16 (v : Z) : bytes := let v := u16 v in [u8 (Z.shiftr v 8); u8 v].
Definition push24 (v : Z) : bytes :=
  let v := u32 v in [u8 (Z.shiftr v 16); u8 (Z.shiftr v 8); u8 v].
Definition push32 (v : Z) : bytes :=
  let v := u32 v in [u8 (Z.shiftr v 24); u8 (Z.shiftr v 16); u8 (Z.shiftr v 8); u8 v].
Definition push64 (v : Z) : bytes :=
  let v := u64 v in
  [u8 (Z.shiftr v 56); u8 (Z.shiftr v 48); u8 (Z.shiftr v 40); u8 (Z.shiftr v 32);
   u8 (Z.shiftr v 24); u8 (Z.shiftr v 16); u8 (Z.shiftr v 8); u8 v].

(** [do { *p++ = v >> sb; } while ((sb -= 8) != 0)], with [sb = 8 * n]. *)
Fixpoint encode_quicint_loop (n : nat) (v : Z) : bytes :=
  match n with
  | O => []
  | S n' => u8 (Z.shiftr v (8 * Z.of_nat n)) :: encode_quicint_loop n' v
  end.

Definition ptls_encode_quicint (v : Z) : res bytes :=
  if 63 <? v then
    if 16383 <? v then
      if 1073741823 <? v then
        let! _ := c_assert (v <=? 4611686018427387903) in
        Ok (Z.lor 0xc0 (u8 (Z.shiftr v 56)) :: encode_quicint_loop 6 v ++ [u8 v])
      else Ok (Z.lor 0x80 (u8 (Z.shiftr v 24)) :: encode_quicint_loop 2 v ++ [u8 v])
    else Ok [Z.lor 0x40 (u8 (Z.shiftr (u16 v) 8)); u8 v]
  else Ok [u8 v].

(** What [ptls_buffer_push_block(buf, capacity, { push body })] appends for a
    capacity other than [-1]: the size, truncated to [capacity] octets, then the
    body ([Buffer.v] proves that the in-place code does this). *)
Definition push_block (capacity : nat) (body : bytes) : bytes :=
  be capacity (Z.of_nat (length body)) ++ body.

(** ** Values of the integer readers *)

Lemma lor_add_mod x y n : 0 <= n -> x mod 2 ^ n = 0 -> 0 <= y < 2 ^ n -> Z.lor x y = x + y.
Proof.
  intros Hn Hx Hy. rewrite (Z.div_mod x (2 ^ n)) at 1 by (pose proof (pow2_pos n); lia).
  rewrite Hx, Z.add_0_r, Z.mul_comm, <- Z.shiftl_mul_pow2, lor_shiftl_add by lia.
  rewrite (Z.div_mod x (2 ^ n)) at 2 by (pose proof (pow2_pos n); lia). lia.
Qed.

Lemma u8_shiftr_mod v k w : 0 <= k -> k + 8 <= w -> u8 (Z.shiftr (v mod 2 ^ w) k) = u8 (Z.shiftr v k).
Proof.
  intros Hk Hw. unfold u8. apply Z.bits_inj'; intros i Hi.
  destruct (decide (i < 8)).
  - rewrite !Z.mod_pow2_bits_low, !Z.shiftr_spec, Z.mod_pow2_bits_low by lia. done.
  - by rewrite !Z.mod_pow2_bits_high by lia.
Qed.

Lemma push16_be v : push16 v = be 2 v.
Proof.
  unfold push16, u16. rewrite u8_shiftr_mod by lia.
  pose proof (u8_shiftr_mod v 0 16 ltac:(lia) ltac:(lia)) as H. rewrite !Z.shiftr_0_r in H.
  rewrite H. simpl be. by rewrite Z.shiftr_0_r.
Qed.

Lemma push24_be v : push24 v = be 3 v.
Proof.
  unfold push24, u32. rewrite !u8_shiftr_mod by lia.
  pose proof (u8_shiftr_mod v 0 32 ltac:(lia) ltac:(lia)) as H. rewrite !Z.shiftr_0_r in H.
  rewrite H. simpl be. by rewrite Z.shiftr_0_r.
Qed.

Lemma push32_be v : push32 v = be 4 v.
Proof.
  unfold push32, u32. rewrite !u8_shiftr_mod by lia.
  pose proof (u8_shiftr_mod v 0 32 ltac:(lia) ltac:(lia)) as H. rewrite !Z.shiftr_0_r in H.
  rewrite H. simpl be. by rewrite Z.shiftr_0_r.
Qed.

Lemma push64_be v : push64 v = be 8 v.
Proof.
  unfold push64, u64. rewrite !u8_shiftr_mod by lia.
  pose proof (u8_shiftr_mod v 0 64 ltac:(lia) ltac:(lia)) as H. rewrite !Z.shiftr_0_r in H.
  rewrite H. simpl be. by rewrite Z.shiftr_0_r.
Qed.

#[export] Hint Rewrite push16_be push24_be push32_be push64_be : ptls_len.

Section DecodeFacts.
Context (mem : bytes).

(** Reading [n] octets that are there yields their big-endian value. *)
Lemma ntoh16_at p b0 b1 :
  at_mem mem p [b0; b1] -> is_bytes [b0; b1] -> ntoh16 mem p = Ok (of_be [b0; b1]).
Proof.
  intros Hat Hb. pose proof (at_mem_lookup _ _ _ 0 _ Hat eq_refl) as H0.
  pose proof (at_mem_lookup _ _ _ 1 _ Hat eq_refl) as H1. rewrite Nat.add_0_r in H0.
  unfold ntoh16. rewrite (rd_at _ _ _ H0), (rd_at _ _ _ H1). simpl res_bind. f_equal.
  pose proof (of_be_range _ Hb) as R. simpl length in R. unfold of_be in *. simpl in *.
  unfold be_step in *. rewrite Z.shiftl_0_l, Z.lor_0_l in *. apply Z.mod_small. lia.
Qed.

Ltac be_chain :=
  unfold of_be; simpl foldl; unfold be_step;
  rewrite Z.shiftl_0_l, Z.lor_0_l;
  repeat match goal with H : is_bytes (_ :: _) |- _ => inversion H; subst; clear H end;
  unfold is_byte, u32, u64 in *; rewrite !Z.shiftl_mul_pow2 by lia;
  rewrite ?Z.mod_small by lia.

Lemma ntoh32_at p b0 b1 b2 b3 :
  at_mem mem p [b0; b1; b2; b3] -> is_bytes [b0; b1; b2; b3] ->
  ntoh32 mem p = Ok (of_be [b0; b1; b2; b3]).
Proof.
  intros Hat Hb. pose proof (at_mem_lookup _ _ _ 0 _ Hat eq_refl) as H0.
  pose proof (at_mem_lookup _ _ _ 1 _ Hat eq_refl) as H1.
  pose proof (at_mem_lookup _ _ _ 2 _ Hat eq_refl) as H2.
  pose proof (at_mem_lookup _ _ _ 3 _ Hat eq_refl) as H3. rewrite Nat.add_0_r in H0.
  unfold ntoh32. rewrite (rd_at _ _ _ H0), (rd_at _ _ _ H1), (rd_at _ _ _ H2), (rd_at _ _ _ H3).
  simpl res_bind. f_equal. be_chain.
  rewrite (lor_add_mod (b0 * 2 ^ 24) _ 24), (lor_add_mod (_ + _) _ 16), (lor_add_mod (_ + _) _ 8) by modlia.
  rewrite (lor_add_mod (b0 * 2 ^ 8) _ 8), (lor_add_mod _ b2 8), (lor_add_mod _ b3 8) by modlia. lia.
Qed.

Lemma decode24_at p e b0 b1 b2 :
  at_mem mem p [b0; b1; b2] -> is_bytes [b0; b1; b2] -> (p + 3 <= e)%nat ->
  ptls_decode24 mem p e = Ok (of_be [b0; b1; b2], (p + 3)%nat).
Proof.
  intros Hat Hb He. pose proof (at_mem_lookup _ _ _ 0 _ Hat eq_refl) as H0.
  pose proof (at_mem_lookup _ _ _ 1 _ Hat eq_refl) as H1.
  pose proof (at_mem_lookup _ _ _ 2 _ Hat eq_refl) as H2. rewrite Nat.add_0_r in H0.
  unfold ptls_decode24. destruct (Nat.ltb_spec (e - p) 3); [lia|].
  rewrite (rd_at _ _ _ H0), (rd_at _ _ _ H1), (rd_at _ _ _ H2). simpl res_bind.
  do 2 f_equal. be_chain.
  rewrite (lor_add_mod (b0 * 2 ^ 16) _ 16), (lor_add_mod (_ + _) _ 8) by modlia.
  rewrite (lor_add_mod (b0 * 2 ^ 8) _ 8), (lor_add_mod _ b2 8) by modlia. lia.
Qed.

Lemma ntoh64_at p b0 b1 b2 b3 b4 b5 b6 b7 :
  at_mem mem p [b0; b1; b2; b3; b4; b5; b6; b7] -> is_bytes [b0; b1; b2; b3; b4; b5; b6; b7] ->
  ntoh64 mem p = Ok (of_be [b0; b1; b2; b3; b4; b5; b6; b7]).
Proof.
  intros Hat Hb. pose proof (at_mem_lookup _ _ _ 0 _ Hat eq_refl) as H0.
  pose proof (at_mem_lookup _ _ _ 1 _ Hat eq_refl) as H1.
  pose proof (at_mem_lookup _ _ _ 2 _ Hat eq_refl) as H2.
  pose proof (at_mem_lookup _ _ _ 3 _ Hat eq_refl) as H3.
  pose proof (at_mem_lookup _ _ _ 4 _ Hat eq_refl) as H4.
  pose proof (at_mem_lookup _ _ _ 5 _ Hat eq_refl) as H5.
  pose proof (at_mem_lookup _ _ _ 6 _ Hat eq_refl) as H6.
  pose proof (at_mem_lookup _ _ _ 7 _ Hat eq_refl) as H7. rewrite Nat.add_0_r in H0.
  unfold ntoh64.
  rewrite (rd_at _ _ _ H0), (rd_at _ _ _ H1), (rd_at _ _ _ H2), (rd_at _ _ _ H3),
    (rd_at _ _ _ H4), (rd_at _ _ _ H5), (rd_at _ _ _ H6), (rd_at _ _ _ H7).
  simpl res_bind. f_equal. be_chain.
  rewrite (lor_add_mod (b0 * 2 ^ 56) _ 56), (lor_add_mod (_ + _) _ 48), (lor_add_mod (_ + _) _ 40),
    (lor_add_mod (_ + _) _ 32), (lor_add_mod (_ + _) _ 24), (lor_add_mod (_ + _) _ 16),
    (lor_add_mod (_ + _) _ 8) by modlia.
  rewrite (lor_add_mod (b0 * 2 ^ 8) _ 8), (lor_add_mod _ b2 8), (lor_add_mod _ b3 8),
    (lor_add_mod _ b4 8), (lor_add_mod _ b5 8), (lor_add_mod _ b6 8), (lor_add_mod _ b7 8) by modlia.
  lia.
Qed.

(** ** Weakest preconditions of the decoders

    Each rule says that the decoder never reads outside [[src, end)], gives
    the range of the value it returns and how far it moves the cursor, and
    that its only error is [PTLS_ALERT_DECODE_ERROR]. *)
Hypothesis Hmem : is_bytes mem.

Lemma at_mem_read p n :
  (p + n <= length mem)%nat ->
  at_mem mem p (slice mem p (p + n)) /\ is_bytes (slice mem p (p + n)) /\
  length (slice mem p (p + n)) = n.
Proof.
  intros. split_and!; [apply slice_at_mem; lia | by apply slice_bytes |].
  rewrite length_slice; lia.
Qed.

Lemma wp_decode16 (Q : Z * nat -> Prop) (E : Z -> Prop) s e :
  (s <= e <= length mem)%nat ->
  ((e < s + 2)%nat -> E PTLS_ALERT_DECODE_ERROR) ->
  (forall v, 0 <= v < 2 ^ 16 -> (s + 2 <= e)%nat -> at_mem mem s (be 2 v) -> Q (v, (s + 2)%nat)) ->
  res_post Q E (ptls_decode16 mem s e).
Proof.
  intros Hs He HQ. unfold ptls_decode16. destruct (Nat.ltb_spec (e - s) 2); [simpl; apply He; lia|].
  destruct (at_mem_read s 2 ltac:(lia)) as (Hat & Hb & Hl).
  destruct (slice mem s (s + 2)) as [|b0 [|b1 [|]]] eqn:E1; try done.
  rewrite (ntoh16_at s b0 b1) by done. simpl. pose proof (of_be_range _ Hb) as R.
  apply HQ; [exact R | lia | exact (eq_rect_r (at_mem mem s) Hat (be_of_be _ Hb))].
Qed.

Lemma wp_decode24 (Q : Z * nat -> Prop) (E : Z -> Prop) s e :
  (s <= e <= length mem)%nat ->
  ((e < s + 3)%nat -> E PTLS_ALERT_DECODE_ERROR) ->
  (forall v, 0 <= v < 2 ^ 24 -> (s + 3 <= e)%nat -> at_mem mem s (be 3 v) -> Q (v, (s + 3)%nat)) ->
  res_post Q E (ptls_decode24 mem s e).
Proof.
  intros Hs He HQ. destruct (Nat.ltb_spec (e - s) 3) as [Hlt|Hlt].
  { unfold ptls_decode24. destruct (Nat.ltb_spec (e - s) 3); [|lia]. simpl. apply He. lia. }
  destruct (at_mem_read s 3 ltac:(lia)) as (Hat & Hb & Hl).
  destruct (slice mem s (s + 3)) as [|b0 [|b1 [|b2 [|]]]] eqn:E1; try done.
  rewrite (decode24_at s e b0 b1 b2) by (done || lia). simpl.
  pose proof (of_be_range _ Hb) as R.
  apply HQ; [exact R | lia | exact (eq_rect_r (at_mem mem s) Hat (be_of_be _ Hb))].
Qed.

Lemma wp_decode32 (Q : Z * nat -> Prop) (E : Z -> Prop) s e :
  (s <= e <= length mem)%nat ->
  ((e < s + 4)%nat -> E PTLS_ALERT_DECODE_ERROR) ->
  (forall v, 0 <= v < 2 ^ 32 -> (s + 4 <= e)%nat -> at_mem mem s (be 4 v) -> Q (v, (s + 4)%nat)) ->
  res_post Q E (ptls_decode32 mem s e).
Proof.
  intros Hs He HQ. unfold ptls_decode32. destruct (Nat.ltb_spec (e - s) 4); [simpl; apply He; lia|].
  destruct (at_mem_read s 4 ltac:(lia)) as (Hat & Hb & Hl).
  destruct (slice mem s (s + 4)) as [|b0 [|b1 [|b2 [|b3 [|]]]]] eqn:E1; try done.
  rewrite (ntoh32_at s b0 b1 b2 b3) by done. simpl. pose proof (of_be_range _ Hb) as R.
  apply HQ; [exact R | lia | exact (eq_rect_r (at_mem mem s) Hat (be_of_be _ Hb))].
Qed.

Lemma wp_decode64 (Q : Z * nat -> Prop) (E : Z -> Prop) s e :
  (s <= e <= length mem)%nat ->
  ((e < s + 8)%nat -> E PTLS_ALERT_DECODE_ERROR) ->
  (forall v, 0 <= v < 2 ^ 64 -> (s + 8 <= e)%nat -> at_mem mem s (be 8 v) -> Q (v, (s + 8)%nat)) ->
  res_post Q E (ptls_decode64 mem s e).
Proof.
  intros Hs He HQ. unfold ptls_decode64. destruct (Nat.ltb_spec (e - s) 8); [simpl; apply He; lia|].
  destruct (at_mem_read s 8 ltac:(lia)) as (Hat & Hb & Hl).
  destruct (slice mem s (s + 8)) as [|b0 [|b1 [|b2 [|b3 [|b4 [|b5 [|b6 [|b7 [|]]]]]]]]] eqn:E1; try done.
  rewrite (ntoh64_at s b0 b1 b2 b3 b4 b5 b6 b7) by done. simpl.
  pose proof (of_be_range _ Hb) as R.
  apply HQ; [exact R | lia | exact (eq_rect_r (at_mem mem s) Hat (be_of_be _ Hb))].
Qed.

Lemma wp_block_size_loop (Q : Z * nat -> Prop) (E : Z -> Prop) n acc s :
  (s + n <= length mem)%nat -> 0 <= acc ->
  (forall v, 0 <= v -> Q (v, (s + n)%nat)) ->
  res_post Q E (block_size_loop mem n acc s).
Proof.
  revert acc s. induction n as [|n IH]; intros acc s Hs Hacc HQ; simpl.
  - specialize (HQ acc Hacc). by rewrite Nat.add_0_r in HQ.
  - apply wp_bind, rd_safe; [lia|]. intros b Hb. apply IH; [lia | apply Z.mod_pos_bound; lia |].
    intros v Hv. specialize (HQ v Hv). by rewrite <- Nat.add_assoc.
Qed.

Lemma wp_quicint_loop (Q : Z * nat -> Prop) (E : Z -> Prop) n acc s :
  (s + n <= length mem)%nat -> 0 <= acc ->
  (forall v, 0 <= v -> Q (v, (s + n)%nat)) ->
  res_post Q E (quicint_loop mem n acc s).
Proof.
  revert acc s. induction n as [|n IH]; intros acc s Hs Hacc HQ; simpl.
  - specialize (HQ acc Hacc). by rewrite Nat.add_0_r in HQ.
  - apply wp_bind, rd_safe; [lia|]. intros b Hb. apply IH; [lia | apply Z.mod_pos_bound; lia |].
    intros v Hv. specialize (HQ v Hv). by rewrite <- Nat.add_assoc.
Qed.

(** A quicint read either moves the cursor forward inside the block or
    reports [UINT64_MAX]. *)
Lemma wp_decode_quicint (Q : Z * nat -> Prop) (E : Z -> Prop) s e :
  (s <= e <= length mem)%nat ->
  (forall s', (s <= s' <= e)%nat -> Q (UINT64_MAX, s')) ->
  (forall v s', 0 <= v -> (s < s' <= e)%nat -> Q (v, s')) ->
  res_post Q E (ptls_decode_quicint mem s e).
Proof.
  intros Hs Hbad HQ. unfold ptls_decode_quicint.
  destruct (Nat.eqb_spec s e); [simpl; apply Hbad; lia|].
  apply wp_bind, rd_safe; [lia|]. intros b Hb. pose proof (is_bytes_lookup _ _ _ Hmem Hb) as Rb.
  unfold is_byte in Rb. destruct (Z.leb_spec b 63); [simpl; apply HQ; lia|].
  destruct (Nat.ltb_spec (e - (s + 1)) (Z.to_nat (Z.shiftl 1 (Z.shiftr b 6) - 1))) as [Hlt|Hge].
  { simpl. apply Hbad. lia. }
  apply wp_quicint_loop; [lia | | intros v Hv; apply HQ; lia].
  apply Z.land_nonneg. lia.
Qed.

Lemma wp_decode_block_size (Q : Z * nat -> Prop) (E : Z -> Prop) s e capacity :
  (s <= e <= length mem)%nat -> capacity = -1 \/ 1 <= capacity ->
  E PTLS_ALERT_DECODE_ERROR ->
  (forall v s', 0 <= v -> (s < s' <= e)%nat -> Q (v, s')) ->
  res_post Q E (decode_block_size mem s e capacity).
Proof.
  intros Hs Hcap HE HQ. unfold decode_block_size. destruct (Z.eqb_spec capacity (-1)).
  - apply wp_bind, wp_decode_quicint; [done | |].
    + intros s' Hs'. by rewrite Z.eqb_refl.
    + intros v s' Hv Hs'. destruct (v =? UINT64_MAX); simpl; auto.
  - destruct (Z.ltb_spec (Z.of_nat (e - s)) capacity); [done|].
    apply wp_block_size_loop; [lia | lia | intros; apply HQ; lia].
Qed.

(** The body of a block runs with the bound of the block, which lies inside the
    enclosing bound, and must leave the cursor on it. *)
Lemma wp_open_block {A} (Q : A * nat -> Prop) (E : Z -> Prop) s e capacity block :
  (s <= e <= length mem)%nat -> capacity = -1 \/ 1 <= capacity ->
  E PTLS_ALERT_DECODE_ERROR ->
  (forall s1 e1, (s < s1)%nat -> (s1 <= e1)%nat -> (e1 <= e)%nat ->
     res_post (fun x => x.2 = e1 -> Q (x.1, e1)) E (block s1 e1)) ->
  res_post Q E (ptls_decode_open_block mem s e capacity block).
Proof.
  intros Hs Hcap HE HQ. unfold ptls_decode_open_block.
  apply wp_bind, wp_decode_block_size; [done.. |].
  intros v s1 Hv Hs1. destruct (Z.ltb_spec (Z.of_nat (e - s1)) v); [done|].
  apply wp_bind. eapply res_post_mono; [apply HQ; lia | | done].
  intros [a s2] Ha. simpl in *. destruct (Nat.eqb_spec s2 (s1 + Z.to_nat v)); [|done].
  subst. by apply Ha.
Qed.

Lemma wp_block_size_bound (Q : Z * nat -> Prop) (E : Z -> Prop) n k acc s :
  (s + n <= length mem)%nat -> (k + n <= 8)%nat -> 0 <= acc < 2 ^ (8 * Z.of_nat k) ->
  (forall v, 0 <= v < 2 ^ (8 * Z.of_nat (k + n)) -> Q (v, (s + n)%nat)) ->
  res_post Q E (block_size_loop mem n acc s).
Proof.
  revert k acc s. induction n as [|n IH]; intros k acc s Hs Hk Hacc HQ; cbn [block_size_loop].
  - specialize (HQ acc). rewrite !Nat.add_0_r in HQ. by apply HQ.
  - apply wp_bind, rd_safe; [lia|]. intros b Hb. apply is_bytes_lookup in Hb; [|done].
    rewrite (lor_shiftl_add acc b 8) by (unfold is_byte in Hb; lia). unfold is_byte in Hb.
    apply (IH (S k)); [lia | lia | |].
    + replace (8 * Z.of_nat (S k)) with (8 * Z.of_nat k + 8) by lia. rewrite Z.pow_add_r by lia.
      assert (2 ^ (8 * Z.of_nat k) * 2 ^ 8 <= 2 ^ 64).
      { rewrite <- Z.pow_add_r by lia. apply Z.pow_le_mono_r; lia. }
      unfold u64. rewrite Z.mod_small by nia. nia.
    + intros v Hv. rewrite <- Nat.add_assoc. apply HQ. by rewrite Nat.add_succ_comm in Hv.
Qed.

(** The content of a block with a fixed-width prefix is bounded by the prefix. *)
Lemma wp_open_block_size {A} (Q : A * nat -> Prop) (E : Z -> Prop) s e capacity block :
  (s <= e <= length mem)%nat -> 1 <= capacity <= 8 ->
  E PTLS_ALERT_DECODE_ERROR ->
  (forall s1 e1, (s < s1)%nat -> (s1 <= e1)%nat -> (e1 <= e)%nat -> Z.of_nat (e1 - s1) < 2 ^ (8 * capacity) ->
     res_post (fun x => x.2 = e1 -> Q (x.1, e1)) E (block s1 e1)) ->
  res_post Q E (ptls_decode_open_block mem s e capacity block).
Proof.
  intros Hs Hcap HE HQ. unfold ptls_decode_open_block, decode_block_size.
  destruct (Z.eqb_spec capacity (-1)); [lia|]. destruct (Z.ltb_spec (Z.of_nat (e - s)) capacity); [done|].
  apply wp_bind, (wp_block_size_bound _ _ _ 0); [lia | lia | lia |]. intros v Hv. rewrite Nat.add_0_l, Z2Nat.id in Hv by lia.
  destruct (Z.ltb_spec (Z.of_nat (e - (s + Z.to_nat capacity))) v); [done|].
  apply wp_bind. eapply res_post_mono; [apply HQ; lia | | done].
  intros [a s2] Ha. cbn [fst snd] in *. destruct (Nat.eqb_spec s2 (s + Z.to_nat capacity + Z.to_nat v)); [|done].
  subst. by apply Ha.
Qed.

Lemma wp_block {A} (Q : A * nat -> Prop) (E : Z -> Prop) s e capacity block :
  (s <= e <= length mem)%nat -> capacity = -1 \/ 1 <= capacity ->
  E PTLS_ALERT_DECODE_ERROR ->
  (forall s1, (s < s1)%nat -> (s1 <= e)%nat ->
     res_post (fun x => x.2 = e -> Q (x.1, e)) E (block s1 e)) ->
  (forall s1 e1, (s < s1)%nat -> (s1 <= e1)%nat -> (e1 < e)%nat ->
     res_post (fun x => x.2 = e1 -> True) E (block s1 e1)) ->
  res_post Q E (ptls_decode_block mem s e capacity block).
Proof.
  intros Hs Hcap HE HQ HQ'. unfold ptls_decode_block.
  apply wp_bind, wp_open_block; [done..|]. intros s1 e1 H1 H2 H3.
  unfold ptls_decode_assert_block_close.
  destruct (decide (e1 = e)) as [->|Hne].
  - eapply res_post_mono; [by apply HQ | | done]. intros [a s2] Ha Hs2. simpl in *.
    rewrite Nat.eqb_refl. simpl. auto.
  - eapply res_post_mono; [apply (HQ' s1 e1); lia | | done]. intros [a s2] Ha Hs2. simpl in *.
    destruct (Nat.eqb_spec e1 e); [done|]. done.
Qed.

(** A block whose body establishes [R] wherever it is. *)
Lemma wp_block_inv {A} (R : A -> Prop) (Q : A * nat -> Prop) (E : Z -> Prop) s e capacity block :
  (s <= e <= length mem)%nat -> capacity = -1 \/ 1 <= capacity ->
  E PTLS_ALERT_DECODE_ERROR ->
  (forall s1 e1, (s < s1)%nat -> (s1 <= e1)%nat -> (e1 <= e)%nat -> res_post (fun x => x.2 = e1 -> R x.1) E (block s1 e1)) ->
  (forall a, R a -> Q (a, e)) ->
  res_post Q E (ptls_decode_block mem s e capacity block).
Proof.
  intros Hs Hcap HE HR HQ. apply wp_block; [done..| |].
  - intros s1 H1 H2. eapply res_post_mono; [apply (HR s1 e); lia | auto | done].
  - intros s1 e1 H1 H2 H3. eapply res_post_mono; [apply (HR s1 e1); lia | auto | done].
Qed.

Lemma wp_while_ne {S} (I : S -> nat -> Prop) (Q : S * nat -> Prop) (E : Z -> Prop) e body st s :
  (s <= e)%nat -> I st s ->
  (forall st s, I st s -> (s < e)%nat ->
     res_post (fun x => I x.1 x.2 /\ (s < x.2 <= e)%nat) E (body st s)) ->
  (forall st, I st e -> Q (st, e)) ->
  res_post Q E (while_ne e body st s).
Proof.
  intros Hs HI Hbody HQ. unfold while_ne.
  assert (Hf : (e - s <= e - s)%nat) by lia. revert Hf.
  generalize (e - s)%nat at 2 3 as fuel. intros fuel. revert st s Hs HI.
  induction fuel as [|fuel IH]; intros st s Hs HI Hf; simpl.
  - destruct (Nat.eqb_spec s e) as [->|]; [simpl; auto | lia].
  - destruct (Nat.eqb_spec s e) as [->|]; [simpl; auto|].
    apply wp_bind. eapply res_post_mono; [apply Hbody; [done|lia] | | done].
    intros [st' s'] [HI' Hs']. simpl in *. apply IH; [lia | done | lia].
Qed.

(** The body runs at least once: [J] holds after every turn, [I] before the first. *)
Lemma wp_do_while_first {S} (I J : S -> nat -> Prop) (Q : S * nat -> Prop) (E : Z -> Prop) e body st s :
  (s <= e)%nat -> I st s ->
  (forall st s, I st s \/ J st s -> (s <= e)%nat ->
     res_post (fun x => J x.1 x.2 /\ (s < x.2 <= e)%nat) E (body st s)) ->
  (forall st, J st e -> Q (st, e)) ->
  res_post Q E (do_while_ne e body st s).
Proof.
  intros Hs HI Hbody HQ. unfold do_while_ne.
  apply wp_bind. eapply res_post_mono; [apply Hbody; [by left | done] | | done].
  intros [st' s'] [HJ Hs']. cbn [fst snd] in *.
  apply (wp_while_ne J); [lia | done | | done]. intros. apply Hbody; [by right | lia].
Qed.

(** The same for [do ... while], entered before the end. *)
Lemma wp_do_while_lt {S} (I : S -> nat -> Prop) (Q : S * nat -> Prop) (E : Z -> Prop) e body st s :
  (s < e)%nat -> I st s ->
  (forall st s, I st s -> (s < e)%nat ->
     res_post (fun x => I x.1 x.2 /\ (s < x.2 <= e)%nat) E (body st s)) ->
  (forall st, I st e -> Q (st, e)) ->
  res_post Q E (do_while_ne e body st s).
Proof.
  intros Hs HI Hbody HQ. unfold do_while_ne. apply wp_bind.
  eapply res_post_mono; [by apply Hbody | | done]. intros [st' s'] [HI' Hs']. cbn [fst snd] in *.
  apply (wp_while_ne I); [lia | done | done | done].
Qed.

Lemma wp_do_while_ne {S} (I : S -> nat -> Prop) (Q : S * nat -> Prop) (E : Z -> Prop) e body st s :
  (s <= e)%nat -> I st s ->
  (forall st s, I st s -> (s <= e)%nat ->
     res_post (fun x => I x.1 x.2 /\ (s < x.2 <= e)%nat) E (body st s)) ->
  (forall st, I st e -> Q (st, e)) ->
  res_post Q E (do_while_ne e body st s).
Proof.
  intros Hs HI Hbody HQ. unfold do_while_ne.
  apply wp_bind. eapply res_post_mono; [apply Hbody; done | | done].
  intros [st' s'] [HI' Hs']. simpl in *.
  eapply wp_while_ne; [lia | done | | done]. intros. apply Hbody; [done | lia].
Qed.
End DecodeFacts.

(** ** Reading back what the writers wrote *)
Section ReadBack.
Context (mem : bytes).

Lemma decode16_at p e v :
  at_mem mem p (push16 v) -> (p + 2 <= e)%nat -> ptls_decode16 mem p e = Ok (u16 v, (p + 2)%nat).
Proof.
  intros Hat He. unfold ptls_decode16. destruct (Nat.ltb_spec (e - p) 2); [lia|].
  rewrite push16_be in Hat. pose proof (of_be_be 2 v) as R. pose proof (be_bytes 2 v) as Hb.
  destruct (be 2 v) as [|b0 [|b1 [|]]] eqn:E; try done.
  rewrite (ntoh16_at mem p b0 b1) by done. rewrite R. done.
Qed.

Lemma decode24_push p e v :
  at_mem mem p (push24 v) -> (p + 3 <= e)%nat -> ptls_decode24 mem p e = Ok (u24 v, (p + 3)%nat).
Proof.
  intros Hat He. rewrite push24_be in Hat. pose proof (of_be_be 3 v) as R. pose proof (be_bytes 3 v) as Hb.
  destruct (be 3 v) as [|b0 [|b1 [|b2 [|]]]] eqn:E; try done.
  rewrite (decode24_at mem p e b0 b1 b2) by done. rewrite R. done.
Qed.

Lemma decode32_at p e v :
  at_mem mem p (push32 v) -> (p + 4 <= e)%nat -> ptls_decode32 mem p e = Ok (u32 v, (p + 4)%nat).
Proof.
  intros Hat He. unfold ptls_decode32. destruct (Nat.ltb_spec (e - p) 4); [lia|].
  rewrite push32_be in Hat. pose proof (of_be_be 4 v) as R. pose proof (be_bytes 4 v) as Hb.
  destruct (be 4 v) as [|b0 [|b1 [|b2 [|b3 [|]]]]] eqn:E; try done.
  rewrite (ntoh32_at mem p b0 b1 b2 b3) by done. rewrite R. done.
Qed.

Lemma decode64_at p e v :
  at_mem mem p (push64 v) -> (p + 8 <= e)%nat -> ptls_decode64 mem p e = Ok (u64 v, (p + 8)%nat).
Proof.
  intros Hat He. unfold ptls_decode64. destruct (Nat.ltb_spec (e - p) 8); [lia|].
  rewrite push64_be in Hat. pose proof (of_be_be 8 v) as R. pose proof (be_bytes 8 v) as Hb.
  destruct (be 8 v) as [|b0 [|b1 [|b2 [|b3 [|b4 [|b5 [|b6 [|b7 [|]]]]]]]]] eqn:E; try done.
  rewrite (ntoh64_at mem p b0 b1 b2 b3 b4 b5 b6 b7) by done. rewrite R. done.
Qed.

(** Both accumulation loops compute the big-endian value as long as it fits in
    64 bits. *)
Lemma quicint_loop_at bs acc p :
  is_bytes bs -> at_mem mem p bs -> 0 <= acc ->
  acc * 2 ^ (8 * Z.of_nat (length bs)) + of_be bs < 2 ^ 64 ->
  quicint_loop mem (length bs) acc p
  = Ok (acc * 2 ^ (8 * Z.of_nat (length bs)) + of_be bs, (p + length bs)%nat).
Proof.
  intros Hb. revert acc p. induction Hb as [|b bs Hb Hbs IH]; intros acc p Hat Hacc Hlt.
  - unfold of_be. simpl. rewrite Nat.add_0_r. do 2 f_equal. lia.
  - apply at_mem_cons in Hat as [H0 Hat]. cbn [quicint_loop length].
    rewrite (rd_at _ _ _ H0). cbn [res_bind].
    rewrite of_be_cons in * by done. pose proof (of_be_range bs Hbs) as R.
    cbn [length] in *.
    replace (8 * Z.of_nat (S (length bs))) with (8 + 8 * Z.of_nat (length bs)) in * by lia.
    rewrite Z.pow_add_r in * by lia.
    rewrite lor_shiftl_add by (done || lia). unfold is_byte in Hb.
    pose proof (pow2_pos (8 * Z.of_nat (length bs)) ltac:(lia)) as Hp.
    assert (Hs : u64 (acc * 2 ^ 8 + b) = acc * 2 ^ 8 + b) by (apply Z.mod_small; nia).
    rewrite Hs, Nat.add_1_r, IH by (done || nia). f_equal. f_equal; [nia | lia].
Qed.

Lemma block_size_loop_eq n acc p : block_size_loop mem n acc p = quicint_loop mem n acc p.
Proof. revert acc p. induction n; intros; simpl; [done|]. destruct (rd mem p); simpl; auto. Qed.

Lemma decode_block_size_at p e n v :
  at_mem mem p (be n v) -> (p + n <= e)%nat -> (1 <= n <= 8)%nat -> 0 <= v < 2 ^ (8 * Z.of_nat n) ->
  decode_block_size mem p e (Z.of_nat n) = Ok (v, (p + n)%nat).
Proof.
  intros Hat He Hn Hv. unfold decode_block_size.
  destruct (Z.eqb_spec (Z.of_nat n) (-1)); [lia|].
  destruct (Z.ltb_spec (Z.of_nat (e - p)) (Z.of_nat n)); [lia|].
  rewrite Nat2Z.id, block_size_loop_eq.
  pose proof (quicint_loop_at (be n v) 0 p (be_bytes n v) Hat) as H1.
  rewrite length_be, of_be_be_small in H1 by done.
  assert (2 ^ (8 * Z.of_nat n) <= 2 ^ 64) by (apply Z.pow_le_mono_r; lia).
  rewrite H1 by lia. f_equal.
Qed.

(** A block written by [push_block] is opened on exactly its body. *)
Lemma open_block_at {A} p e n body (block : nat -> nat -> res (A * nat)) :
  at_mem mem p (push_block n body) -> (1 <= n <= 8)%nat ->
  Z.of_nat (length body) < 2 ^ (8 * Z.of_nat n) -> (p + n + length body <= e)%nat ->
  ptls_decode_open_block mem p e (Z.of_nat n) block =
    let! '(a, src) := block (p + n)%nat (p + n + length body)%nat in
    if (src =? p + n + length body)%nat then Ok (a, src) else Err PTLS_ALERT_DECODE_ERROR.
Proof.
  intros Hat Hn Hlen He. apply at_mem_app in Hat as [Hat1 Hat2]. rewrite length_be in Hat2.
  unfold ptls_decode_open_block. rewrite (decode_block_size_at p e n (Z.of_nat (length body))) by (done || lia).
  cbn [res_bind]. destruct (Z.ltb_spec (Z.of_nat (e - (p + n))) (Z.of_nat (length body))); [lia|].
  by rewrite Nat2Z.id.
Qed.

(** The octets of a range either start with a block, or every attempt to open one
    is a decode error. *)
Lemma block_cases (Hmem : is_bytes mem) s e n :
  (s <= e <= length mem)%nat -> (1 <= n <= 8)%nat ->
  (exists body, at_mem mem s (push_block n body) /\ Z.of_nat (length body) < 2 ^ (8 * Z.of_nat n) /\ (s + n + length body <= e)%nat) \/
  (forall A (block : nat -> nat -> res (A * nat)), ptls_decode_open_block mem s e (Z.of_nat n) block = Err PTLS_ALERT_DECODE_ERROR).
Proof.
  intros Hs Hn. destruct (Nat.ltb_spec (e - s) n) as [Hlt|Hge].
  { right. intros A block. unfold ptls_decode_open_block, decode_block_size. destruct (Z.eqb_spec (Z.of_nat n) (-1)); [lia|].
    destruct (Z.ltb_spec (Z.of_nat (e - s)) (Z.of_nat n)); [done | lia]. }
  destruct (at_mem_read mem Hmem s n ltac:(lia)) as (Hat & Hb & Hl). set (v := of_be (slice mem s (s + n))).
  pose proof (of_be_range _ Hb) as Hv. rewrite Hl in Hv. fold v in Hv.
  assert (Hbe : at_mem mem s (be n v)) by (unfold v; rewrite <- Hl at 1; by rewrite be_of_be).
  destruct (Z.ltb_spec (Z.of_nat (e - (s + n))) v) as [Hlt|Hle].
  - right. intros A block. unfold ptls_decode_open_block. rewrite (decode_block_size_at s e n v) by (done || lia). cbn [res_bind].
    by destruct (Z.ltb_spec (Z.of_nat (e - (s + n))) v); [|lia].
  - left. exists (slice mem (s + n) (s + n + Z.to_nat v)). destruct (at_mem_read mem Hmem (s + n) (Z.to_nat v) ltac:(lia)) as (Hat2 & _ & Hl2).
    rewrite Hl2, Z2Nat.id by lia. split_and!; [|lia | lia]. unfold push_block. rewrite Hl2, Z2Nat.id by lia. apply at_mem_app. by rewrite length_be.
Qed.

Lemma open_block_take p e n body :
  at_mem mem p (push_block n body) -> (1 <= n <= 8)%nat ->
  Z.of_nat (length body) < 2 ^ (8 * Z.of_nat n) -> (p + n + length body <= e)%nat ->
  ptls_decode_open_block mem p e (Z.of_nat n) (take_all mem) = Ok (body, (p + n + length body)%nat).
Proof.
  intros Hat Hn Hlen He. rewrite (open_block_at p e n body) by done.
  apply at_mem_app in Hat as [_ Hat]. rewrite length_be in Hat.
  unfold take_all. cbn [res_bind]. rewrite Nat.eqb_refl. by rewrite at_mem_slice.
Qed.

Lemma block_at {A} p n body (block : nat -> nat -> res (A * nat)) a :
  at_mem mem p (push_block n body) -> (1 <= n <= 8)%nat ->
  Z.of_nat (length body) < 2 ^ (8 * Z.of_nat n) ->
  block (p + n)%nat (p + n + length body)%nat = Ok (a, (p + n + length body)%nat) ->
  ptls_decode_block mem p (p + n + length body) (Z.of_nat n) block = Ok (a, (p + n + length body)%nat).
Proof.
  intros Hat Hn Hlen Hblock. unfold ptls_decode_block.
  rewrite (open_block_at p _ n body) by (done || lia). rewrite Hblock. cbn [res_bind].
  rewrite Nat.eqb_refl. cbn [res_bind]. unfold ptls_decode_assert_block_close. by rewrite Nat.eqb_refl.
Qed.
End ReadBack.

Lemma length_push_block n body : length (push_block n body) = (n + length body)%nat.
Proof. unfold push_block. by rewrite length_app, length_be. Qed.

Lemma push_block_bytes n body : is_bytes body -> is_bytes (push_block n body).
Proof. intros. apply Forall_app. split; auto with ptls. Qed.

Lemma push16_bytes v : is_bytes (push16 v).
Proof. rewrite push16_be. auto with ptls. Qed.
Lemma push24_bytes v : is_bytes (push24 v).
Proof. rewrite push24_be. auto with ptls. Qed.
Lemma push32_bytes v : is_bytes (push32 v).
Proof. rewrite push32_be. auto with ptls. Qed.
Lemma push64_bytes v : is_bytes (push64 v).
Proof. rewrite push64_be. auto with ptls. Qed.

#[export] Hint Resolve push_block_bytes push16_bytes push24_bytes push32_bytes push64_bytes : ptls.
#[export] Hint Rewrite length_push_block : ptls_len.

(** The rules of this file for [wp]; the side conditions on the cursor are left
    to [lia]. *)
Ltac wp_wire :=
  match goal with
  | |- res_post _ _ (ptls_decode16 _ _ _) => apply wp_decode16; [done | lia | intros; try done | intros]
  | |- res_post _ _ (ptls_decode24 _ _ _) => apply wp_decode24; [done | lia | intros; try done | intros]
  | |- res_post _ _ (ptls_decode32 _ _ _) => apply wp_decode32; [done | lia | intros; try done | intros]
  | |- res_post _ _ (ptls_decode64 _ _ _) => apply wp_decode64; [done | lia | intros; try done | intros]
  | |- res_post _ _ (rd _ _) => apply rd_safe; [lia | intros]
  | |- res_post _ _ (ptls_decode_open_block _ _ _ _ _) =>
      apply wp_open_block; [done | lia | lia | try done | intros]
  | |- res_post _ _ (ptls_decode_block _ _ _ _ _) =>
      apply wp_block; [done | lia | lia | try done | intros | intros]
  | |- res_post _ _ (ptls_decode_assert_block_close _ _) => unfold ptls_decode_assert_block_close
  | |- res_post _ _ (take_all _ _ _) => unfold take_all
  end.
Ltac wp_hook ::= wp_wire.

(** ** QUIC integers: [ptls_encode_quicint] and [ptls_decode_quicint] are inverse *)

Lemma encode_quicint_loop_be n v : encode_quicint_loop n v ++ [u8 v] = be (S n) v.
Proof.
  induction n as [|n IH].
  - simpl. by rewrite Z.shiftr_0_r.
  - cbn [encode_quicint_loop app]. rewrite IH. done.
Qed.

(** The number of octets of the encoding, by the thresholds of RFC 9000. *)
Definition quicint_size (v : Z) : nat :=
  if v <? 2 ^ 6 then 1 else if v <? 2 ^ 14 then 2 else if v <? 2 ^ 30 then 4 else 8.

Lemma decode_quicint_tag mem p e tag x bs :
  at_mem mem p ((tag * 64 + x) :: bs) -> is_bytes bs ->
  1 <= tag <= 3 -> 0 <= x < 64 -> Z.of_nat (length bs) = 2 ^ tag - 1 ->
  (p + S (length bs) <= e)%nat ->
  ptls_decode_quicint mem p e
  = Ok (x * 2 ^ (8 * Z.of_nat (length bs)) + of_be bs, (p + S (length bs))%nat).
Proof.
  intros Hat Hbs Htag Hx Hlen He. apply at_mem_cons in Hat as [H0 Hat].
  unfold ptls_decode_quicint. destruct (Nat.eqb_spec p e); [lia|].
  rewrite (rd_at _ _ _ H0). cbn [res_bind]. destruct (Z.leb_spec (tag * 64 + x) 63); [lia|].
  assert (Hland : Z.land (tag * 64 + x) 63 = x).
  { change 63 with (Z.ones 6). rewrite land_ones_mod by lia. modlia. }
  assert (Hshr : Z.shiftr (tag * 64 + x) 6 = tag) by (rewrite Z.shiftr_div_pow2 by lia; modlia).
  rewrite Hland, Hshr, Z.shiftl_mul_pow2, Z.mul_1_l, <- Hlen, Nat2Z.id by lia.
  destruct (Nat.ltb_spec (e - (p + 1)) (length bs)); [lia|].
  pose proof (of_be_range bs Hbs) as R.
  rewrite <- (Nat.add_1_r p) in Hat. rewrite quicint_loop_at; [|done|done|lia|].
  - do 2 f_equal. lia.
  - assert (Z.of_nat (length bs) <= 7).
    { rewrite Hlen. assert (2 ^ tag <= 2 ^ 3) by (apply Z.pow_le_mono_r; lia). lia. }
    assert (2 ^ (8 * Z.of_nat (length bs)) <= 2 ^ 56) by (apply Z.pow_le_mono_r; lia). nia.
Qed.

(** [tag << 6 | (v >> k)] for a value that leaves the tag bits free. *)
Lemma quicint_tag_byte tag v k :
  0 <= k -> 0 <= v < 2 ^ (k + 6) -> Z.lor (tag * 64) (u8 (Z.shiftr v k)) = tag * 64 + v / 2 ^ k.
Proof.
  intros Hk Hv. rewrite Z.shiftr_div_pow2 by done.
  rewrite Z.pow_add_r in Hv by lia. pose proof (pow2_pos k Hk).
  assert (0 <= v / 2 ^ k < 64).
  { split; [apply Z.div_pos; lia | apply Z.div_lt_upper_bound; lia]. }
  unfold u8. rewrite (Z.mod_small (v / 2 ^ k)) by lia.
  apply (lor_add_mod _ _ 6); [lia | modlia | lia].
Qed.

Lemma decode_quicint_at mem p e v bs :
  0 <= v < 2 ^ 62 -> ptls_encode_quicint v = Ok bs -> at_mem mem p bs -> (p + length bs <= e)%nat ->
  ptls_decode_quicint mem p e = Ok (v, (p + length bs)%nat).
Proof.
  intros Hv Henc Hat He. unfold ptls_encode_quicint in Henc.
  destruct (Z.ltb_spec 63 v).
  2: { injection Henc as <-. assert (Hu : u8 v = v) by (apply u8_id; unfold is_byte; lia).
       rewrite Hu in Hat. apply at_mem_cons in Hat as [H0 _].
       unfold ptls_decode_quicint. cbn [length] in *. destruct (Nat.eqb_spec p e); [lia|].
       rewrite (rd_at _ _ _ H0). cbn [res_bind]. by destruct (Z.leb_spec v 63); [|lia]. }
  destruct (Z.ltb_spec 16383 v).
  2: { injection Henc as <-. assert (Hu : u16 v = v) by (apply Z.mod_small; lia). rewrite Hu in Hat.
       change 64 with (1 * 64) in Hat. rewrite (quicint_tag_byte 1 v 8) in Hat by lia.
       rewrite (decode_quicint_tag mem p e 1 (v / 2 ^ 8) [u8 v]); auto using u8_range; try (simpl; modlia).
       cbn [length]. do 2 f_equal. unfold of_be. simpl. unfold be_step. rewrite Z.shiftl_0_l, Z.lor_0_l.
       unfold u8. modlia. }
  destruct (Z.ltb_spec 1073741823 v).
  - destruct (Z.leb_spec v 4611686018427387903); [|lia]. cbn [c_assert res_bind] in Henc.
    rewrite encode_quicint_loop_be in Henc. injection Henc as <-.
    change 192 with (3 * 64) in Hat. rewrite (quicint_tag_byte 3 v 56) in Hat by lia.
    rewrite (decode_quicint_tag mem p e 3 (v / 2 ^ 56) (be 7 v)); auto using be_bytes; try (simpl; modlia).
    f_equal. f_equal. rewrite of_be_be, length_be. change (8 * Z.of_nat 7) with 56. modlia.
  - rewrite encode_quicint_loop_be in Henc. injection Henc as <-.
    change 128 with (2 * 64) in Hat. rewrite (quicint_tag_byte 2 v 24) in Hat by lia.
    rewrite (decode_quicint_tag mem p e 2 (v / 2 ^ 24) (be 3 v)); auto using be_bytes; try (simpl; modlia).
    f_equal. f_equal. rewrite of_be_be, length_be. change (8 * Z.of_nat 3) with 24. modlia.
Qed.

Lemma encode_quicint_ok v :
  0 <= v < 2 ^ 62 -> exists bs, ptls_encode_quicint v = Ok bs /\ length bs = quicint_size v /\ is_bytes bs.
Proof.
  intros Hv. unfold ptls_encode_quicint, quicint_size.
  destruct (Z.ltb_spec 63 v), (Z.ltb_spec v (2 ^ 6)); try lia.
  2: { eexists. split_and!; [done | done |]. solve_bytes. }
  destruct (Z.ltb_spec 16383 v), (Z.ltb_spec v (2 ^ 14)); try lia.
  2: { eexists. split_and!; [done | done |]. assert (Hu : u16 v = v) by (apply Z.mod_small; lia).
       change 64 with (1 * 64). rewrite Hu, (quicint_tag_byte 1 v 8) by lia.
       solve_bytes. unfold is_byte; modlia. }
  destruct (Z.ltb_spec 1073741823 v), (Z.ltb_spec v (2 ^ 30)); try lia.
  - destruct (Z.leb_spec v 4611686018427387903); [|lia]. cbn [c_assert res_bind].
    change 192 with (3 * 64). rewrite encode_quicint_loop_be, (quicint_tag_byte 3 v 56) by lia.
    eexists. split_and!; [done | done |]. constructor; auto using be_bytes. unfold is_byte. modlia.
  - change 128 with (2 * 64). rewrite encode_quicint_loop_be, (quicint_tag_byte 2 v 24) by lia.
    eexists. split_and!; [done | done |]. constructor; auto using be_bytes. unfold is_byte. modlia.
Qed.

(** ** Properties *)

(** [ptls_decode_quicint] inverts [ptls_encode_quicint] on every value below
    2^62: wherever the encoding lies in memory, whatever surrounds it, and for
    every bound that includes it, the value comes back and the cursor stops right
    after it; the encoding has the one of the four lengths the value calls for. *)
Theorem quicint_roundtrip v pre post :
  0 <= v < 2 ^ 62 ->
  exists bs, ptls_encode_quicint v = Ok bs /\ length bs = quicint_size v /\
    ptls_decode_quicint (pre ++ bs ++ post) (length pre) (length (pre ++ bs ++ post))
    = Ok (v, (length pre + length bs)%nat).
Proof.
  intros Hv. destruct (encode_quicint_ok v Hv) as (bs & Henc & Hlen & _). exists bs.
  split_and!; [done..|]. eapply decode_quicint_at; [done | done | apply at_mem_intro |].
  rewrite !length_app. lia.
Qed.

(** A length-prefixed block written by [ptls_buffer_push_block] is read back
    by [ptls_decode_open_block]: for every number of length octets and every body
    whose size they can represent, the reader hands exactly the body to its block
    and leaves the cursor behind it. *)
Theorem block_roundtrip n body pre post :
  (1 <= n <= 8)%nat -> Z.of_nat (length body) < 2 ^ (8 * Z.of_nat n) ->
  let mem := pre ++ push_block n body ++ post in
  ptls_decode_open_block mem (length pre) (length mem) (Z.of_nat n) (take_all mem)
  = Ok (body, (length pre + n + length body)%nat).
Proof.
  intros Hn Hlen mem. apply open_block_take; [apply at_mem_intro | done | done |].
  unfold mem. rewrite !length_app, length_push_block. lia.
Qed.

(** No sequence of octets makes the variable-length integer reader read
    outside of its input: it returns, with the cursor inside the bounds, either
    [UINT64_MAX] (input too short) or a value it has moved past. *)
Theorem decode_quicint_safe mem s e :
  is_bytes mem -> (s <= e <= length mem)%nat ->
  exists v s', ptls_decode_quicint mem s e = Ok (v, s') /\ (s <= s' <= e)%nat /\ 0 <= v /\
    (v <> UINT64_MAX -> (s < s')%nat).
Proof.
  intros Hb He.
  assert (H : res_post (fun x => (s <= x.2 <= e)%nat /\ 0 <= x.1 /\ (x.1 <> UINT64_MAX -> (s < x.2)%nat))
                (fun _ => False) (ptls_decode_quicint mem s e)).
  { apply wp_decode_quicint; [done | done | |].
    - intros s' Hs'. simpl. split_and!; [lia | lia | vm_compute; done | done].
    - intros v s' Hv Hs'. simpl. split_and!; lia. }
  destruct (ptls_decode_quicint mem s e) as [[v s']| |]; try done. by exists v, s'.
Qed.

Lemma decode_quicint_safe_witness :
  exists v s', ptls_decode_quicint [0xc0; 1; 2] 0 3 = Ok (v, s').
Proof.
  destruct (decode_quicint_safe [0xc0; 1; 2] 0 3) as (v & s' & H & _); [by repeat constructor | simpl; lia | eauto].
Defined.
