(* ===== verification/Monad.v ===== *)
(** * Monad: stateful C functions

    A C function that mutates objects reachable from its arguments and returns
    an error code is a function of the state [S]: it ends normally, or leaves
    with a non-zero code (the state it has reached is kept: C does not roll
    back), or has no defined behaviour. *)
From S2P Require Import Prelude.

Inductive outcome (S A : Type) : Type :=
| Done (a : A) (s : S)
| Fail (code : Z) (s : S)
| Undefined (f : fault).
Arguments Done {S A} a s.
Arguments Fail {S A} code s.
Arguments Undefined {S A} f.

Definition M (S A : Type) : Type := S -> outcome S A.

Section Operations.
Context {S : Type}.

Definition ret {A} (a : A) : M S A := fun s => Done a s.
Definition bind {A B} (m : M S A) (k : A -> M S B) : M S B := fun s =>
  match m s with
  | Done a s => k a s
  | Fail c s => Fail c s
  | Undefined f => Undefined f
  end.
(** [return c] / [ret = c; goto Exit] with a non-zero [c]. *)
Definition fail {A} (c : Z) : M S A := fun s => Fail c s.
Definition undefined {A} (f : fault) : M S A := fun _ => Undefined f.
Definition get : M S S := fun s => Done s s.
Definition gets {A} (f : S -> A) : M S A := fun s => Done (f s) s.
Definition modify (f : S -> S) : M S unit := fun s => Done tt (f s).
Definition massert (b : bool) : M S unit := if b then ret tt else undefined AssertFail.
Definition mguard (b : bool) (c : Z) : M S unit := if b then ret tt else fail c.
Definition when (b : bool) (m : M S unit) : M S unit := if b then m else ret tt.
(** A stateless computation. *)
Definition lift {A} (r : res A) : M S A :=
  match r with
  | Ok a => ret a
  | Err c => fail c
  | Stuck f => undefined f
  end.
(** The [int] the C function returns: [0] after a normal end. *)
Definition code_of (m : M S unit) : M S Z := fun s =>
  match m s with
  | Done _ s => Done 0 s
  | Fail c s => Done c s
  | Undefined f => Undefined f
  end.
(** A function whose normal end returns the code it computed. *)
Definition code_of' (m : M S Z) : M S Z := fun s =>
  match m s with
  | Done c s => Done c s
  | Fail c s => Done c s
  | Undefined f => Undefined f
  end.
(** A pointer that must not be [NULL]. *)
Definition deref {A} (o : option A) : M S A :=
  match o with
  | Some a => ret a
  | None => undefined NullDeref
  end.
End Operations.

Declare Scope monad_scope.
Delimit Scope monad_scope with monad.
Notation "'do!' x ':=' m 'in' k" := (bind m (fun x => k))
  (at level 10, x name, m at level 200, k at level 200, only parsing) : monad_scope.
Notation "'do!' ' x ':=' m 'in' k" := (bind m (fun x => k))
  (at level 10, x strict pattern, m at level 200, k at level 200, only parsing) : monad_scope.
Notation "m ';;;' k" := (bind m (fun _ => k))
  (at level 100, k at level 200, right associativity, only parsing) : monad_scope.
Global Open Scope monad_scope.

(** ** Running on a component of the state *)
Section Zoom.
Context {S T : Type} (get_ : S -> T) (set_ : T -> S -> S).

Definition zoom {A} (m : M T A) : M S A := fun s =>
  match m (get_ s) with
  | Done a t => Done a (set_ t s)
  | Fail c t => Fail c (set_ t s)
  | Undefined f => Undefined f
  end.
End Zoom.

(** ** Weakest preconditions

    [wpm m Q E s]: run from [s], [m] has defined behaviour, ends normally only in
    states that satisfy [Q] and fails only with codes and states of [E]. *)
Definition wpm {S A} (m : M S A) (Q : A -> S -> Prop) (E : Z -> S -> Prop) (s : S) : Prop :=
  match m s with
  | Done a s => Q a s
  | Fail c s => E c s
  | Undefined _ => False
  end.

Section Wp.
Context {S : Type}.
Implicit Types (E : Z -> S -> Prop).

Lemma wpm_ret {A} (a : A) (Q : A -> S -> Prop) E s : Q a s -> wpm (ret a) Q E s.
Proof. done. Qed.

Lemma wpm_bind {A B} (m : M S A) (k : A -> M S B) (Q : B -> S -> Prop) E s :
  wpm m (fun a s => wpm (k a) Q E s) E s -> wpm (bind m k) Q E s.
Proof. unfold wpm, bind. by destruct (m s). Qed.

Lemma wpm_fail {A} c (Q : A -> S -> Prop) E s : E c s -> wpm (fail c) Q E s.
Proof. done. Qed.

Lemma wpm_get (Q : S -> S -> Prop) E s : Q s s -> wpm get Q E s.
Proof. done. Qed.

Lemma wpm_gets {A} (f : S -> A) (Q : A -> S -> Prop) E s : Q (f s) s -> wpm (gets f) Q E s.
Proof. done. Qed.

Lemma wpm_modify f (Q : unit -> S -> Prop) E s : Q tt (f s) -> wpm (modify f) Q E s.
Proof. done. Qed.

Lemma wpm_massert b (Q : unit -> S -> Prop) E s : b = true -> Q tt s -> wpm (massert b) Q E s.
Proof. by intros ->. Qed.

Lemma wpm_mguard b c (Q : unit -> S -> Prop) E s :
  (b = true -> Q tt s) -> (b = false -> E c s) -> wpm (mguard b c) Q E s.
Proof. intros H1 H2. destruct b; [by apply H1 | by apply H2]. Qed.

Lemma wpm_when b m (Q : unit -> S -> Prop) E s :
  (b = true -> wpm m Q E s) -> (b = false -> Q tt s) -> wpm (when b m) Q E s.
Proof. intros H1 H2. destruct b; [by apply H1 | by apply H2]. Qed.

Lemma wpm_lift {A} (r : res A) (Q : A -> S -> Prop) E s :
  res_post (fun a => Q a s) (fun c => E c s) r -> wpm (lift r) Q E s.
Proof. by destruct r. Qed.

Lemma wpm_deref {A} (o : option A) (Q : A -> S -> Prop) E s :
  is_Some o -> (forall a, o = Some a -> Q a s) -> wpm (deref o) Q E s.
Proof. intros [a ->]. cbn. auto. Qed.

Lemma wpm_code_of m (Q : Z -> S -> Prop) E s :
  wpm m (fun _ s => Q 0 s) Q s -> wpm (code_of m) Q E s.
Proof. unfold wpm, code_of. by destruct (m s). Qed.

Lemma wpm_code_of' m (Q : Z -> S -> Prop) E s :
  wpm m Q Q s -> wpm (code_of' m) Q E s.
Proof. unfold wpm, code_of'. by destruct (m s). Qed.

Lemma wpm_mono {A} (m : M S A) (Q Q' : A -> S -> Prop) E E' s :
  wpm m Q E s -> (forall a s, Q a s -> Q' a s) -> (forall c s, E c s -> E' c s) -> wpm m Q' E' s.
Proof. unfold wpm. destruct (m s); auto. Qed.

Lemma wpm_conj {A} (m : M S A) (Q Q' : A -> S -> Prop) E E' s :
  wpm m Q E s -> wpm m Q' E' s ->
  wpm m (fun a s => Q a s /\ Q' a s) (fun c s => E c s /\ E' c s) s.
Proof. unfold wpm. destruct (m s); auto. Qed.

Lemma wpm_done {A} (m : M S A) (Q : A -> S -> Prop) E s a s' :
  wpm m Q E s -> m s = Done a s' -> Q a s'.
Proof. unfold wpm. intros H Heq. by rewrite Heq in H. Qed.

Lemma wpm_failed {A} (m : M S A) (Q : A -> S -> Prop) E s c s' :
  wpm m Q E s -> m s = Fail c s' -> E c s'.
Proof. unfold wpm. intros H Heq. by rewrite Heq in H. Qed.

Lemma wpm_defined {A} (m : M S A) (Q : A -> S -> Prop) E s f :
  wpm m Q E s -> m s <> Undefined f.
Proof. unfold wpm. by destruct (m s). Qed.

Lemma wpm_zoom {T A} (get_ : S -> T) set_ (m : M T A) (Q : A -> S -> Prop) E s :
  wpm m (fun a t => Q a (set_ t s)) (fun c t => E c (set_ t s)) (get_ s) ->
  wpm (zoom get_ set_ m) Q E s.
Proof. unfold wpm, zoom. by destruct (m (get_ s)). Qed.
End Wp.

(** [wpm_steps] applies the structural rules; components add theirs to
    [wpm_hook]. *)
Ltac wpm_hook := fail.
Ltac wpm_step :=
  match goal with
  | |- wpm (bind _ _) _ _ _ => apply wpm_bind
  | |- wpm (ret _) _ _ _ => apply wpm_ret
  | |- wpm (fail _) _ _ _ => apply wpm_fail
  | |- wpm get _ _ _ => apply wpm_get
  | |- wpm (gets _) _ _ _ => apply wpm_gets
  | |- wpm (modify _) _ _ _ => apply wpm_modify
  | |- wpm (lift _) _ _ _ => apply wpm_lift
  | |- wpm (mguard _ _) _ _ _ => apply wpm_mguard; intros; b2p
  | |- wpm (when _ _) _ _ _ => apply wpm_when; intros; b2p
  | |- wpm (if ?b then _ else _) _ _ _ => destruct b eqn:?; b2p
  | |- wpm (let '(_, _) := ?x in _) _ _ _ => is_var x; destruct x; cbn [fst snd] in *
  | |- wpm _ _ _ _ => wpm_hook
  end.
Ltac wpm_steps := repeat wpm_step.
