(* ===== verification/Buffer.v ===== *)
(** * Buffer: [ptls_buffer_t]

    The growable output buffer of [include/picotls.h] and [lib/picotls.c], with
    the memory it points to, its capacity, the number of octets in use and the
    ownership flag.  Allocation is an interface ([Allocator]) that may fail at
    any call and may return arbitrary initial contents.  The regions the buffer
    gives back (by [free], or by leaving a caller-supplied small buffer) are
    recorded in [released], so that the scrubbing of secrets is a statement of
    the model.

    The main results: every operation keeps the structural invariant; a push
    appends exactly its argument or fails with [PTLS_ERROR_NO_MEMORY] and leaves
    the contents alone; the in-place [ptls_buffer_push_block] writes the block
    that [Wire.push_block] denotes; and no octet ever written to the buffer
    survives in memory that was given back. *)
From S2P Require Import Prelude Constants Wire Monad.

(** ** The allocator *)
Class Allocator := {
  heap : Type;
  malloc : heap -> Z -> option bytes * heap;
  malloc_length h n m h' : malloc h n = (Some m, h') -> Z.of_nat (length m) = n;
}.

(** [memcpy(mem + p, src, |src|)] inside one object. *)
Definition mem_write (mem : bytes) (p : nat) (src : bytes) : res bytes :=
  if (p + length src <=? length mem)%nat then Ok (take p mem ++ src ++ drop (p + length src) mem)
  else Stuck OutOfBounds.

(** [n] octets read from [mem + p]. *)
Definition mem_read (mem : bytes) (p n : nat) : res bytes :=
  if (p + n <=? length mem)%nat then Ok (slice mem p (p + n)) else Stuck OutOfBounds.

Definition clear_memory (mem : bytes) (p len : nat) : res bytes :=
  if (len =? 0)%nat then Ok mem else mem_write mem p (replicate len 0).

Record ptls_buffer_t := mk_buffer {
  base : option bytes;
  capacity : Z;
  off : Z;
  is_allocated : bool;
}.

Section Buffer.
Context `{Allocator}.

Record bstate := mk_bstate {
  buf : ptls_buffer_t;
  hp : heap;
  released : list (nat * bytes);
}.

Definition set_buf (b : ptls_buffer_t) : M bstate unit :=
  modify (fun st => mk_bstate b (hp st) (released st)).

Definition c_malloc (n : Z) : M bstate (option bytes) := fun st =>
  let '(r, h) := malloc (hp st) n in Done r (mk_bstate (buf st) h (released st)).

(** ** Operations *)

Definition ptls_buffer_init (smallbuf : bytes) : M bstate unit :=
  set_buf (mk_buffer (Some smallbuf) (Z.of_nat (length smallbuf)) 0 false).

Definition ptls_buffer__release_memory : M bstate unit :=
  do! b := gets buf in
  match base b with
  | None => if off b =? 0 then ret tt else undefined NullDeref
  | Some mem =>
      do! cleared := lift (clear_memory mem 0 (Z.to_nat (off b))) in
      modify (fun st => mk_bstate (mk_buffer (Some cleared) (capacity b) (off b) (is_allocated b))
                                  (hp st) ((Z.to_nat (off b), cleared) :: released st))
  end.

Definition ptls_buffer_dispose : M bstate unit :=
  ptls_buffer__release_memory ;;; set_buf (mk_buffer None 0 0 false).

(** [while (new_capacity < buf->off + delta) new_capacity *= 2;] on [size_t]. *)
Fixpoint grow_loop (fuel : nat) (new_capacity needed : Z) : res Z :=
  if new_capacity <? needed then
    match fuel with
    | O => Stuck OutOfFuel
    | S fuel => grow_loop fuel (u64 (new_capacity * 2)) needed
    end
  else Ok new_capacity.

Definition ptls_buffer_reserve (delta : Z) : M bstate unit :=
  do! b := gets buf in
  match base b with
  | None => fail PTLS_ERROR_NO_MEMORY
  | Some mem =>
      if capacity b <? u64 (off b + delta) then
        let new_capacity := capacity b in
        let new_capacity := if new_capacity <? 1024 then 1024 else new_capacity in
        do! new_capacity := lift (grow_loop 64 new_capacity (u64 (off b + delta))) in
        do! newp := c_malloc new_capacity in
        match newp with
        | None => fail PTLS_ERROR_NO_MEMORY
        | Some newp =>
            do! old := lift (mem_read mem 0 (Z.to_nat (off b))) in
            do! newp := lift (mem_write newp 0 old) in
            ptls_buffer__release_memory ;;;
            set_buf (mk_buffer (Some newp) new_capacity (off b) true)
        end
      else ret tt
  end.

(** [memcpy(buf->base + p, src, len)] *)
Definition buf_write (p : Z) (src : bytes) : M bstate unit :=
  do! b := gets buf in
  do! mem := deref (base b) in
  do! mem := lift (mem_write mem (Z.to_nat p) src) in
  set_buf (mk_buffer (Some mem) (capacity b) (off b) (is_allocated b)).

Definition buf_advance (n : Z) : M bstate unit :=
  do! b := gets buf in set_buf (mk_buffer (base b) (capacity b) (off b + n) (is_allocated b)).

Definition ptls_buffer__do_pushv (src : bytes) : M bstate unit :=
  if Z.of_nat (length src) =? 0 then ret tt
  else
    ptls_buffer_reserve (Z.of_nat (length src)) ;;;
    do! b := gets buf in
    buf_write (off b) src ;;;
    buf_advance (Z.of_nat (length src)).

Definition ptls_buffer__adjust_quic_blocksize (body_size : Z) : M bstate unit :=
  do! sizebuf := lift (ptls_encode_quicint body_size) in
  let sizelen := Z.of_nat (length sizebuf) in
  when (negb (sizelen =? 1))
    (ptls_buffer_reserve (sizelen - 1) ;;;
     do! b := gets buf in
     do! mem := deref (base b) in
     do! body := lift (mem_read mem (Z.to_nat (off b - body_size)) (Z.to_nat body_size)) in
     buf_write (off b - body_size - 1 + sizelen) body ;;;
     buf_advance (sizelen - 1)) ;;;
  do! b := gets buf in
  buf_write (off b - body_size - sizelen) sizebuf.

(** [for (; capacity != 0; --capacity)
       base[body_start - capacity] = (uint8_t)(body_size >> (8 * (capacity - 1)));] *)
Fixpoint write_size_loop (capacity : nat) (body_start body_size : Z) : M bstate unit :=
  match capacity with
  | O => ret tt
  | S n =>
      buf_write (body_start - Z.of_nat capacity) [u8 (Z.shiftr body_size (8 * (Z.of_nat capacity - 1)))] ;;;
      write_size_loop n body_start body_size
  end.

Definition ptls_buffer_push_block (capacity : Z) (block : M bstate unit) : M bstate unit :=
  ptls_buffer__do_pushv (replicate (Z.to_nat (if capacity =? -1 then 1 else capacity)) 0) ;;;
  do! body_start := gets (fun st => off (buf st)) in
  block ;;;
  do! body_end := gets (fun st => off (buf st)) in
  let body_size := body_end - body_start in
  if capacity =? -1 then ptls_buffer__adjust_quic_blocksize body_size
  else write_size_loop (Z.to_nat capacity) body_start body_size.

(** The unimplemented long form ends in [abort()]. *)
Definition ptls_buffer__adjust_asn1_blocksize (body_size : Z) : M bstate unit := undefined Aborted.

Definition ptls_buffer_push_asn1_block (block : M bstate unit) : M bstate unit :=
  ptls_buffer__do_pushv [0xff] ;;;
  do! body_start := gets (fun st => off (buf st)) in
  block ;;;
  do! body_end := gets (fun st => off (buf st)) in
  let body_size := body_end - body_start in
  if body_size <? 128 then buf_write (body_start - 1) [u8 body_size]
  else ptls_buffer__adjust_asn1_blocksize body_size.

(** [for (; end - p >= 1; ++p) if ( *p != 0) break;] *)
Fixpoint skip_zeroes (l : bytes) : nat :=
  match l with
  | [] => 0
  | b :: l => if b =? 0 then S (skip_zeroes l) else 0
  end.

Definition ptls_buffer_push_asn1_ubigint (bignum : bytes) : M bstate unit :=
  let end_ := length bignum in
  let p := skip_zeroes bignum in
  ptls_buffer__do_pushv [2] ;;;
  ptls_buffer_push_asn1_block
    (do! b := lift (rd bignum p) in
     when (0x80 <=? b) (ptls_buffer__do_pushv [0]) ;;;
     if negb (p =? end_)%nat then ptls_buffer__do_pushv (slice bignum p end_)
     else ptls_buffer__do_pushv [0]).

(** ** Invariant and abstraction *)

(** The octets in use lie inside the object the buffer points to. *)
Definition buf_ok (b : ptls_buffer_t) : Prop :=
  match base b with
  | Some mem => Z.of_nat (length mem) = capacity b /\ 0 <= off b <= capacity b /\ capacity b < 2 ^ 64
  | None => off b = 0 /\ capacity b = 0
  end.

(** The contents: what the pushes have written so far. *)
Definition contents (b : ptls_buffer_t) : bytes :=
  match base b with
  | Some mem => take (Z.to_nat (off b)) mem
  | None => []
  end.

(** Nothing of the first [n] octets of a region is left. *)
Definition scrubbed (n : nat) (region : bytes) : Prop := take n region = replicate n 0.

Definition all_scrubbed (st : bstate) : Prop :=
  Forall (fun x => scrubbed x.1 x.2) (released st).

Lemma length_contents b : buf_ok b -> Z.of_nat (length (contents b)) = off b.
Proof.
  unfold buf_ok, contents. destruct (base b); [|simpl; lia]. rewrite length_take. lia.
Qed.

Lemma mem_write_ok mem p src :
  (p + length src <= length mem)%nat ->
  mem_write mem p src = Ok (take p mem ++ src ++ drop (p + length src) mem).
Proof. intros. unfold mem_write. by destruct (Nat.leb_spec (p + length src) (length mem)); [|lia]. Qed.

Lemma length_mem_write (mem src : bytes) p :
  (p + length src <= length mem)%nat ->
  length (take p mem ++ src ++ drop (p + length src) mem) = length mem.
Proof. intros. autorewrite with ptls_len. lia. Qed.

Lemma take_mem_write (mem src : bytes) p :
  (p + length src <= length mem)%nat ->
  take (p + length src) (take p mem ++ src ++ drop (p + length src) mem) = take p mem ++ src.
Proof.
  intros. rewrite app_assoc, take_app_length'; [done|]. autorewrite with ptls_len. lia.
Qed.

(** *** Growth *)

Lemma grow_loop_spec fuel c needed :
  0 < c -> needed <= c * 2 ^ Z.of_nat fuel -> needed <= 2 ^ 63 ->
  exists c', grow_loop fuel c needed = Ok c' /\ needed <= c' /\ c <= c' /\ (c < 2 ^ 64 -> c' < 2 ^ 64).
Proof.
  revert c. induction fuel as [|fuel IH]; intros c Hc Hn H63; simpl.
  - destruct (Z.ltb_spec c needed); [simpl in Hn; lia|]. exists c. split_and!; done || lia.
  - destruct (Z.ltb_spec c needed); [|exists c; split_and!; done || lia].
    assert (Hu : u64 (c * 2) = c * 2) by (apply Z.mod_small; lia). rewrite Hu.
    destruct (IH (c * 2)) as (c' & -> & ? & ? & ?); [lia | | lia |].
    { rewrite Nat2Z.inj_succ, Z.pow_succ_r in Hn by lia. lia. }
    exists c'. split_and!; [done | lia | lia | lia].
Qed.

(** Above [2^63] the doubling wraps to zero and the loop never ends. *)
Lemma grow_loop_diverges needed fuel :
  2 ^ 63 < needed < 2 ^ 64 -> grow_loop fuel 1024 needed = Stuck OutOfFuel.
Proof.
  intros Hn. assert (Hz : forall f, grow_loop f 0 needed = Stuck OutOfFuel).
  { intros f. induction f; simpl; destruct (Z.ltb_spec 0 needed); auto; lia. }
  assert (Hk : forall f k, 0 <= k <= 53 -> grow_loop f (1024 * 2 ^ k) needed = Stuck OutOfFuel).
  { induction f as [|f IH]; intros k Hk; simpl.
    - assert (2 ^ k <= 2 ^ 53) by (apply Z.pow_le_mono_r; lia).
      destruct (Z.ltb_spec (1024 * 2 ^ k) needed); [done|lia].
    - assert (2 ^ k <= 2 ^ 53) by (apply Z.pow_le_mono_r; lia).
      destruct (Z.ltb_spec (1024 * 2 ^ k) needed); [|lia].
      destruct (decide (k = 53)) as [->|].
      + apply Hz.
      + replace (1024 * 2 ^ k * 2) with (1024 * 2 ^ (k + 1)) by (rewrite Z.pow_add_r; lia).
        assert (2 ^ (k + 1) <= 2 ^ 53) by (apply Z.pow_le_mono_r; lia).
        unfold u64. rewrite Z.mod_small; [apply IH; lia|].
        pose proof (pow2_pos (k + 1)). lia. }
  apply (Hk fuel 0). lia.
Qed.

(** *** Specifications

    A buffer operation is described by what it appends. *)
Definition appends (x : bytes) (st st' : bstate) : Prop :=
  buf_ok (buf st') /\ contents (buf st') = contents (buf st) ++ x /\
  (is_Some (base (buf st)) -> is_Some (base (buf st'))) /\
  (all_scrubbed st -> all_scrubbed st').

(** Failing with [PTLS_ERROR_NO_MEMORY] keeps the invariant; what was written
    stays a prefix of the contents. *)
Definition no_memory (st : bstate) (c : Z) (st' : bstate) : Prop :=
  c = PTLS_ERROR_NO_MEMORY /\ buf_ok (buf st') /\
  contents (buf st) `prefix_of` contents (buf st') /\
  (all_scrubbed st -> all_scrubbed st').

Lemma wpm_malloc n (Q : option bytes -> bstate -> Prop) E st :
  (forall h', Q None (mk_bstate (buf st) h' (released st))) ->
  (forall m h', Z.of_nat (length m) = n -> Q (Some m) (mk_bstate (buf st) h' (released st))) ->
  wpm (c_malloc n) Q E st.
Proof.
  intros H1 H2. unfold wpm, c_malloc. destruct (malloc (hp st) n) as [[m|] h'] eqn:Em; [|done].
  apply H2. by eapply malloc_length.
Qed.

Lemma release_spec st :
  buf_ok (buf st) ->
  wpm ptls_buffer__release_memory
    (fun _ st' => hp st' = hp st /\
       match base (buf st) with
       | None => st' = st
       | Some mem => exists region, released st' = (Z.to_nat (off (buf st)), region) :: released st /\
           scrubbed (Z.to_nat (off (buf st))) region
       end)
    (fun _ _ => False) st.
Proof.
  intros Hok. unfold ptls_buffer__release_memory. wpm_steps. unfold buf_ok in Hok.
  destruct (base (buf st)) as [mem|] eqn:Eb.
  - wpm_steps. unfold clear_memory. destruct (Nat.eqb_spec (Z.to_nat (off (buf st))) 0) as [E0|E0].
    + cbn. split; [done|]. exists mem. split; [by rewrite E0 | by rewrite E0].
    + rewrite mem_write_ok by (rewrite length_replicate; lia). cbn. split; [done|].
      eexists. split; [done|].
      unfold scrubbed. rewrite take_0, app_nil_l, take_app_length'; [done|]. by rewrite length_replicate.
  - destruct (Z.eqb_spec (off (buf st)) 0); [|lia]. cbn. done.
Qed.

(** [ptls_buffer_reserve] makes room without touching the contents; the region
    it leaves behind is scrubbed. *)
Lemma reserve_spec delta st :
  buf_ok (buf st) -> 0 <= delta -> off (buf st) + delta <= 2 ^ 63 ->
  wpm (ptls_buffer_reserve delta)
    (fun _ st' => buf_ok (buf st') /\ contents (buf st') = contents (buf st) /\
       off (buf st') = off (buf st) /\ off (buf st) + delta <= capacity (buf st') /\
       is_Some (base (buf st')) /\ (all_scrubbed st -> all_scrubbed st'))
    (fun c st' => c = PTLS_ERROR_NO_MEMORY /\ buf st' = buf st /\ (all_scrubbed st -> all_scrubbed st')) st.
Proof.
  intros Hok Hd Hlim. pose proof (length_contents _ Hok) as Hlen.
  unfold ptls_buffer_reserve. wpm_steps. unfold buf_ok in Hok.
  destruct (base (buf st)) as [mem|] eqn:Eb; [|by wpm_steps].
  destruct Hok as (Hcap & Hoff & Hmax).
  assert (Hu : u64 (off (buf st) + delta) = off (buf st) + delta) by (apply Z.mod_small; lia).
  rewrite Hu. wpm_steps.
  2: { unfold buf_ok. rewrite Eb. split_and!; eauto; lia. }
  set (c0 := if capacity (buf st) <? 1024 then 1024 else capacity (buf st)).
  assert (Hc0 : 1024 <= c0 < 2 ^ 64) by (subst c0; destruct (Z.ltb_spec (capacity (buf st)) 1024); lia).
  destruct (grow_loop_spec 64 c0 (off (buf st) + delta)) as (c' & Hg & H1 & H2 & H3); [lia | | lia |].
  { change (2 ^ Z.of_nat 64) with (2 ^ 64). lia. }
  rewrite Hg. cbn [res_post]. wpm_steps.
  apply wpm_malloc; [intros h'; by wpm_steps|]. intros newp h' Em.
  set (st1 := mk_bstate (buf st) h' (released st)).
  wpm_steps. unfold mem_read. destruct (Nat.leb_spec (0 + Z.to_nat (off (buf st))) (length mem)); [|lia].
  cbn [res_post]. wpm_steps. rewrite mem_write_ok by (rewrite length_slice; lia). cbn [res_post].
  wpm_steps. eapply wpm_mono; [apply (release_spec st1) | | done].
  { unfold buf_ok. subst st1. cbn. rewrite Eb. lia. }
  intros [] st2. subst st1. cbn [buf hp released]. rewrite Eb. intros [_ (region & Hr & Hs)].
  unfold set_buf. wpm_steps. cbn [buf hp released base off capacity].
  assert (Hsl : slice mem 0 (0 + Z.to_nat (off (buf st))) = contents (buf st)).
  { unfold contents, slice. rewrite Eb, drop_0. f_equal. lia. }
  rewrite Hsl. split_and!; [| | done | lia | eauto |].
  - unfold buf_ok. cbn. autorewrite with ptls_len. unfold contents. rewrite Eb, length_take. lia.
  - unfold contents at 1. cbn. rewrite take_0, app_nil_l, take_app_length'; [done|]. lia.
  - unfold all_scrubbed. cbn. rewrite Hr. intros. by apply Forall_cons.
Qed.

(** Overwriting part of the octets in use. *)
Lemma buf_write_spec p src st :
  buf_ok (buf st) -> 0 <= p -> p + Z.of_nat (length src) <= capacity (buf st) -> is_Some (base (buf st)) ->
  wpm (buf_write p src)
    (fun _ st' => exists mem, base (buf st) = Some mem /\
       buf st' = mk_buffer (Some (take (Z.to_nat p) mem ++ src ++ drop (Z.to_nat p + length src) mem))
                   (capacity (buf st)) (off (buf st)) (is_allocated (buf st)) /\
       released st' = released st)
    (fun _ _ => False) st.
Proof.
  intros Hok Hp Hle [mem Hb]. unfold buf_write. wpm_steps. rewrite Hb. cbn [deref]. wpm_steps.
  unfold buf_ok in Hok. rewrite Hb in Hok. rewrite mem_write_ok by lia. cbn [res_post].
  unfold set_buf. wpm_steps. eauto.
Qed.

(** [ptls_buffer__do_pushv] appends its argument or reports lack of memory. *)
Lemma pushv_exact src st :
  buf_ok (buf st) -> off (buf st) + Z.of_nat (length src) <= 2 ^ 63 ->
  wpm (ptls_buffer__do_pushv src) (fun _ st' => appends src st st')
    (fun c st' => no_memory st c st' /\ buf st' = buf st) st.
Proof.
  intros Hok Hlim. unfold ptls_buffer__do_pushv. wpm_steps.
  - destruct src; [|done]. unfold appends. rewrite app_nil_r. done.
  - eapply wpm_mono; [apply reserve_spec; [done | lia | done] | |].
    2: { intros c st' (-> & Hb & Hs). unfold no_memory. rewrite Hb. done. }
    intros [] st1 (Hok1 & Hc1 & Ho1 & Hcap & Hb1 & Hs1). wpm_steps.
    pose proof Hok1 as Hok1'. unfold buf_ok in Hok1'. destruct Hb1 as [mem Hb1].
    rewrite Hb1 in Hok1'. pose proof (length_contents _ Hok) as Hlen.
    eapply wpm_mono; [apply buf_write_spec; [done | lia | lia | eauto] | | done].
    intros [] st2 (mem' & Hm & Hb2 & Hr2). rewrite Hm in Hb1. injection Hb1 as ->.
    unfold buf_advance, set_buf. wpm_steps. rewrite Hb2. cbn. unfold appends. cbn [buf base capacity off].
    split_and!; [| | by eexists | unfold all_scrubbed in *; cbn; by rewrite Hr2].
    + unfold buf_ok. cbn. rewrite length_mem_write by lia. lia.
    + rewrite <- Hc1. unfold contents. cbn. rewrite Hm.
      replace (Z.to_nat (off (buf st1) + Z.of_nat (length src)))
        with (Z.to_nat (off (buf st1)) + length src)%nat by lia.
      rewrite take_mem_write by lia. done.
Qed.

Lemma pushv_spec src st :
  buf_ok (buf st) -> off (buf st) + Z.of_nat (length src) <= 2 ^ 63 ->
  wpm (ptls_buffer__do_pushv src) (fun _ st' => appends src st st') (no_memory st) st.
Proof. intros. eapply wpm_mono; [by apply pushv_exact | done | by intros ?? []]. Qed.

Lemma dispose_spec st :
  buf_ok (buf st) ->
  wpm ptls_buffer_dispose
    (fun _ st' => buf st' = mk_buffer None 0 0 false /\ (all_scrubbed st -> all_scrubbed st') /\
       (is_Some (base (buf st)) ->
        exists region, released st' = (length (contents (buf st)), region) :: released st))
    (fun _ _ => False) st.
Proof.
  intros Hok. unfold ptls_buffer_dispose. wpm_steps.
  eapply wpm_mono; [by apply release_spec | | done]. intros [] st1 [_ H1].
  unfold set_buf. wpm_steps. cbn. pose proof (length_contents _ Hok) as Hlen.
  destruct (base (buf st)) as [mem|] eqn:Eb.
  - destruct H1 as (region & Hr & Hs). split_and!; [done | |].
    + unfold all_scrubbed. cbn. rewrite Hr. intros. by apply Forall_cons.
    + intros _. exists region. rewrite Hr. do 2 f_equal. lia.
  - subst. split_and!; [done | done | by intros [? ?]].
Qed.

(** The same, on the contents. *)
Definition patched (p : Z) (src : bytes) (st st' : bstate) : Prop :=
  buf_ok (buf st') /\ off (buf st') = off (buf st) /\ is_Some (base (buf st')) /\
  contents (buf st') =
    take (Z.to_nat p) (contents (buf st)) ++ src ++ drop (Z.to_nat p + length src) (contents (buf st)) /\
  (all_scrubbed st -> all_scrubbed st').

Lemma buf_patch_spec p src st :
  buf_ok (buf st) -> 0 <= p -> p + Z.of_nat (length src) <= off (buf st) -> is_Some (base (buf st)) ->
  wpm (buf_write p src) (fun _ st' => patched p src st st') (fun _ _ => False) st.
Proof.
  intros Hok Hp Hle Hsome. pose proof Hok as Hok'. unfold buf_ok in Hok'.
  destruct Hsome as [mem Hm]. rewrite Hm in Hok'.
  eapply wpm_mono; [apply buf_write_spec; [done | lia | lia | eauto] | | done].
  intros [] st' (mem' & Hm' & Hb & Hr). rewrite Hm in Hm'. injection Hm' as <-.
  unfold patched, all_scrubbed. rewrite Hb, Hr. split_and!; [| done | by eexists | | done].
  - unfold buf_ok. cbn. rewrite length_mem_write by lia. lia.
  - unfold contents. cbn. rewrite Hm. rewrite take_take, Nat.min_l by lia.
    rewrite app_assoc, take_app_ge by (autorewrite with ptls_len; lia).
    autorewrite with ptls_len. rewrite <- app_assoc. do 2 f_equal.
    rewrite take_drop_commute. f_equal. f_equal. lia.
Qed.

Lemma write_size_loop_spec n start size st :
  buf_ok (buf st) -> Z.of_nat n <= start <= off (buf st) -> is_Some (base (buf st)) ->
  wpm (write_size_loop n start size)
    (fun _ st' => patched (start - Z.of_nat n) (be n size) st st') (fun _ _ => False) st.
Proof.
  revert st. induction n as [|n IH]; intros st Hok Hs Hsome; cbn [write_size_loop].
  - wpm_steps. unfold patched. cbn [be length app]. rewrite Nat.add_0_r, take_drop. done.
  - wpm_steps. eapply wpm_mono; [apply buf_patch_spec; [done | lia | simpl; lia | done] | | done].
    intros [] st1 (Hok1 & Ho1 & Hb1 & Hc1 & Hs1).
    eapply wpm_mono; [apply IH; [done | rewrite Ho1; lia | done] | | done].
    intros [] st2 (Hok2 & Ho2 & Hb2 & Hc2 & Hs2). unfold patched.
    split_and!; [done | congruence | done | | tauto]. rewrite Hc2, Hc1, length_be. cbn [be length].
    pose proof (length_contents _ Hok) as Hlen.
    set (p := Z.to_nat (start - Z.of_nat (S n))). set (c := contents (buf st)) in *.
    replace (Z.to_nat (start - Z.of_nat n)) with (S p) by lia.
    replace (8 * (Z.of_nat (S n) - 1)) with (8 * Z.of_nat n) by lia.
    assert (Hp : length (take p c) = p) by (rewrite length_take; lia).
    rewrite take_app_ge, drop_app_ge by lia. rewrite Hp.
    replace (S p - p)%nat with 1%nat by lia. replace (S p + n - p)%nat with (S n) by lia.
    cbn [app take drop]. rewrite drop_drop, <- app_assoc. cbn [app].
    rewrite take_0, app_nil_l, length_be. do 4 f_equal. lia.
Qed.

(** A block body that appends [x] wherever it is run. *)
Definition block_appends (x : bytes) (block : M bstate unit) : Prop :=
  forall st, buf_ok (buf st) -> is_Some (base (buf st)) -> off (buf st) + Z.of_nat (length x) <= 2 ^ 63 ->
    wpm block (fun _ st' => appends x st st') (no_memory st) st.

Lemma appends_trans x y st1 st2 st3 :
  appends x st1 st2 -> appends y st2 st3 -> appends (x ++ y) st1 st3.
Proof.
  intros (? & Hc & ? & ?) (? & Hc' & ? & ?). unfold appends.
  split_and!; [done | rewrite Hc', Hc; by rewrite app_assoc | tauto | tauto].
Qed.

Lemma no_memory_trans x st1 st2 c st3 :
  appends x st1 st2 -> no_memory st2 c st3 -> no_memory st1 c st3.
Proof.
  intros (? & Hc & ? & ?) (-> & ? & Hp & ?). unfold no_memory. split_and!; [done | done | | tauto].
  rewrite Hc in Hp. by eapply prefix_app_l.
Qed.

Lemma pushv_appends x : block_appends x (ptls_buffer__do_pushv x).
Proof. intros st Hok _ Hlim. by apply pushv_spec. Qed.

Lemma seq_appends x y m1 m2 :
  block_appends x m1 -> block_appends y m2 -> block_appends (x ++ y) (m1 ;;; m2).
Proof.
  intros H1 H2 st Hok Hb Hlim. rewrite length_app in Hlim. wpm_steps.
  eapply wpm_mono; [apply H1; [done | done | lia] | | done].
  intros [] st1 Ha. pose proof Ha as (Hok1 & Hc1 & Hb1 & _).
  pose proof (length_contents _ Hok) as Hl. pose proof (length_contents _ Hok1) as Hl1.
  rewrite Hc1, length_app in Hl1.
  eapply wpm_mono; [apply H2; [done | tauto | lia] | |].
  - intros [] st2 Ha2. by eapply appends_trans.
  - intros c st2 Hn. by eapply no_memory_trans.
Qed.

(** The in-place construction of [ptls_buffer_push_block] with an [n]-octet
    size field writes the block that [Wire.push_block] denotes. *)
Lemma push_block_appends n x block :
  (1 <= n)%nat -> block_appends x block ->
  block_appends (push_block n x) (ptls_buffer_push_block (Z.of_nat n) block).
Proof.
  intros Hn Hblock st Hok Hb Hlim. rewrite length_push_block in Hlim.
  pose proof (length_contents _ Hok) as Hl.
  unfold ptls_buffer_push_block. destruct (Z.eqb_spec (Z.of_nat n) (-1)); [lia|].
  rewrite Nat2Z.id. wpm_steps.
  eapply wpm_mono; [apply pushv_spec; [done | rewrite length_replicate; lia] | | done].
  intros [] st1 Ha1. pose proof Ha1 as (Hok1 & Hc1 & Hb1 & Hs1).
  pose proof (length_contents _ Hok1) as Hl1. rewrite Hc1, length_app, length_replicate in Hl1.
  wpm_steps. eapply wpm_mono; [apply Hblock; [done | tauto | lia] | |].
  2: { intros c st2 Hn2. by eapply no_memory_trans. }
  intros [] st2 (Hok2 & Hc2 & Hb2 & Hs2). wpm_steps.
  pose proof (length_contents _ Hok2) as Hl2.
  rewrite Hc2, Hc1, !length_app, length_replicate in Hl2.
  eapply wpm_mono; [apply write_size_loop_spec; [done | lia | tauto] | | done].
  intros [] st3 (Hok3 & Ho3 & Hb3 & Hc3 & Hs3). unfold appends.
  split_and!; [done | | tauto | tauto].
  rewrite Hc3, Hc2, Hc1. unfold push_block. rewrite length_be.
  replace (Z.to_nat (off (buf st1) - Z.of_nat n)) with (length (contents (buf st))) by lia.
  rewrite <- !app_assoc, take_app_length. do 2 f_equal; [f_equal; lia|].
  rewrite app_assoc, drop_app_length'; [done|]. rewrite length_app, length_replicate. lia.
Qed.

(** The body of a block is shifted right by [sizelen - 1] octets: octets of
    unspecified value are inserted before it. *)
Lemma shift_body_spec sizelen c x st :
  buf_ok (buf st) -> is_Some (base (buf st)) -> contents (buf st) = c ++ x ->
  1 < sizelen -> off (buf st) + (sizelen - 1) <= 2 ^ 63 ->
  wpm (ptls_buffer_reserve (sizelen - 1) ;;;
       do! b := gets buf in
       do! mem := deref (base b) in
       do! body := lift (mem_read mem (Z.to_nat (off b - Z.of_nat (length x))) (Z.to_nat (Z.of_nat (length x)))) in
       buf_write (off b - Z.of_nat (length x) - 1 + sizelen) body ;;;
       buf_advance (sizelen - 1))
    (fun _ st' => buf_ok (buf st') /\ is_Some (base (buf st')) /\
       (exists y, length y = Z.to_nat (sizelen - 1) /\ contents (buf st') = c ++ y ++ x) /\
       (all_scrubbed st -> all_scrubbed st'))
    (no_memory st) st.
Proof.
  intros Hok Hb Hc Hk Hlim. pose proof (length_contents _ Hok) as Hl. rewrite Hc, length_app in Hl.
  rewrite Nat2Z.id. wpm_steps. eapply wpm_mono; [apply reserve_spec; [done | lia | done] | |].
  2: { intros c' st' (-> & Hb' & Hs'). unfold no_memory. rewrite Hb'. done. }
  intros [] st1 (Hok1 & Hc1 & Ho1 & Hcap & Hb1 & Hs1). destruct Hb1 as [mem Hm].
  pose proof Hok1 as Hok1'. unfold buf_ok in Hok1'. rewrite Hm in Hok1'.
  wpm_steps. rewrite Hm. cbn [deref]. wpm_steps.
  assert (Hmem : take (Z.to_nat (off (buf st1))) mem = c ++ x).
  { rewrite <- Hc, <- Hc1. unfold contents. by rewrite Hm. }
  unfold mem_read. destruct (Nat.leb_spec (Z.to_nat (off (buf st1) - Z.of_nat (length x)) + length x) (length mem)); [|lia].
  cbn [res_post]. wpm_steps.
  assert (Hbody : slice mem (Z.to_nat (off (buf st1) - Z.of_nat (length x)))
            (Z.to_nat (off (buf st1) - Z.of_nat (length x)) + length x) = x).
  { unfold slice. replace (Z.to_nat (off (buf st1) - Z.of_nat (length x))) with (length c) by lia.
    replace (length c + length x - length c)%nat with (length x) by lia.
    rewrite take_drop_commute. replace (length c + length x)%nat with (Z.to_nat (off (buf st1))) by lia.
    rewrite Hmem, drop_app_length. done. }
  rewrite Hbody. eapply wpm_mono; [apply buf_write_spec; [done | lia | lia | eauto] | | done].
  intros [] st2 (mem' & Hm' & Hb2 & Hr2). rewrite Hm in Hm'. injection Hm' as <-.
  unfold buf_advance, set_buf. wpm_steps. rewrite Hb2. cbn [buf base capacity off is_allocated].
  split_and!; [| by eexists | | unfold all_scrubbed in *; cbn; by rewrite Hr2].
  - unfold buf_ok. cbn [buf base capacity off]. rewrite length_mem_write by lia. lia.
  - exists (slice mem (length c) (length c + Z.to_nat (sizelen - 1))). split; [rewrite length_slice; lia|].
    unfold contents. cbn [base off].
    replace (Z.to_nat (off (buf st1) + (sizelen - 1))) with (Z.to_nat (off (buf st1) - Z.of_nat (length x) - 1 + sizelen) + length x)%nat by lia.
    rewrite take_mem_write by lia. rewrite app_assoc. f_equal.
    replace (Z.to_nat (off (buf st1) - Z.of_nat (length x) - 1 + sizelen)) with (length c + Z.to_nat (sizelen - 1))%nat by lia.
    rewrite <- (take_drop (length c) mem) at 1. rewrite take_app_ge by (rewrite length_take; lia).
    f_equal.
    + replace (take (length c) mem) with (take (length c) (c ++ x)); [apply take_app_length|].
      rewrite <- Hmem, take_take. f_equal. lia.
    + unfold slice. f_equal. rewrite length_take. lia.
Qed.

(** With capacity [-1], the block is preceded by its size as a QUIC integer. *)
Lemma push_quic_block_appends x sz block :
  ptls_encode_quicint (Z.of_nat (length x)) = Ok sz -> Z.of_nat (length x) < 2 ^ 62 ->
  block_appends x block -> block_appends (sz ++ x) (ptls_buffer_push_block (-1) block).
Proof.
  intros Hsz Hx Hblock st Hok Hb Hlim. rewrite length_app in Hlim.
  pose proof (length_contents _ Hok) as Hl.
  assert (Hsz1 : (1 <= length sz)%nat).
  { destruct (encode_quicint_ok (Z.of_nat (length x))) as (sz' & E & Hlen & _); [lia|].
    rewrite Hsz in E. injection E as ->. rewrite Hlen. unfold quicint_size.
    repeat case_match; lia. }
  unfold ptls_buffer_push_block. rewrite Z.eqb_refl. wpm_steps.
  eapply wpm_mono; [apply pushv_spec; [done | simpl length; lia] | | done].
  intros [] st1 Ha1. pose proof Ha1 as (Hok1 & Hc1 & Hb1 & Hs1).
  pose proof (length_contents _ Hok1) as Hl1. rewrite Hc1, length_app in Hl1. simpl length in Hl1.
  wpm_steps. eapply wpm_mono; [apply Hblock; [done | tauto | lia] | |].
  2: { intros c st2 Hn2. by eapply no_memory_trans. }
  intros [] st2 Ha2. pose proof Ha2 as (Hok2 & Hc2 & Hb2 & Hs2). wpm_steps.
  pose proof (length_contents _ Hok2) as Hl2. rewrite Hc2, Hc1, !length_app in Hl2. simpl length in Hl2.
  replace (off (buf st2) - off (buf st1)) with (Z.of_nat (length x)) by lia.
  unfold ptls_buffer__adjust_quic_blocksize. rewrite Hsz. cbn [lift].
  apply wpm_bind, wpm_ret, wpm_bind, wpm_when; intros; b2p.
  - eapply wpm_mono; [apply (shift_body_spec _ (contents (buf st) ++ [0]) x) | |].
    + done.
    + tauto.
    + by rewrite Hc2, Hc1.
    + lia.
    + lia.
    + intros [] st3 (Hok3 & Hb3 & (y & Hy & Hc3) & Hs3). wpm_steps.
      pose proof (length_contents _ Hok3) as Hl3. rewrite Hc3, !length_app in Hl3. simpl length in Hl3.
      eapply wpm_mono; [apply buf_patch_spec; [done | lia | lia | done] | | done].
      intros [] st4 (Hok4 & Ho4 & Hb4 & Hc4 & Hs4). unfold appends. split_and!; [done | | tauto | tauto].
      rewrite Hc4, Hc3.
      replace (Z.to_nat (off (buf st3) - Z.of_nat (length x) - Z.of_nat (length sz)))
        with (length (contents (buf st))) by lia.
      rewrite <- !app_assoc, take_app_length. do 2 f_equal.
      rewrite (app_assoc _ [0]), app_assoc, drop_app_length'; [done|].
      rewrite !length_app. simpl length. lia.
    + intros c st3 Hn3. by eapply no_memory_trans, no_memory_trans.
  - wpm_steps. eapply wpm_mono; [apply buf_patch_spec; [done | lia | lia | tauto] | | done].
    intros [] st4 (Hok4 & Ho4 & Hb4 & Hc4 & Hs4). unfold appends. split_and!; [done | | tauto | tauto].
    rewrite Hc4, Hc2, Hc1.
    replace (Z.to_nat (off (buf st2) - Z.of_nat (length x) - Z.of_nat (length sz)))
      with (length (contents (buf st))) by lia.
    rewrite <- !app_assoc, take_app_length. do 2 f_equal.
    rewrite app_assoc, drop_app_length'; [done|]. rewrite length_app. simpl length. lia.
Qed.

(** *** ASN.1 *)

Lemma push_asn1_block_appends x block :
  (length x < 128)%nat -> block_appends x block ->
  block_appends (Z.of_nat (length x) :: x) (ptls_buffer_push_asn1_block block).
Proof.
  intros Hx Hblock st Hok Hb Hlim. cbn [length] in Hlim. pose proof (length_contents _ Hok) as Hl.
  unfold ptls_buffer_push_asn1_block. wpm_steps.
  eapply wpm_mono; [apply pushv_spec; [done | simpl length; lia] | | done].
  intros [] st1 Ha1. pose proof Ha1 as (Hok1 & Hc1 & Hb1 & Hs1).
  pose proof (length_contents _ Hok1) as Hl1. rewrite Hc1, length_app in Hl1. simpl length in Hl1.
  wpm_steps. eapply wpm_mono; [apply Hblock; [done | tauto | lia] | |].
  2: { intros c st2 Hn2. by eapply no_memory_trans. }
  intros [] st2 Ha2. pose proof Ha2 as (Hok2 & Hc2 & Hb2 & Hs2). wpm_steps.
  all: pose proof (length_contents _ Hok2) as Hl2; rewrite Hc2, Hc1, !length_app in Hl2; simpl length in Hl2.
  2: lia.
  replace (off (buf st2) - off (buf st1)) with (Z.of_nat (length x)) by lia.
  rewrite u8_id by (unfold is_byte; lia).
  eapply wpm_mono; [apply buf_patch_spec; [done | lia | simpl length; lia | tauto] | | done].
  intros [] st3 (Hok3 & Ho3 & Hb3 & Hc3 & Hs3). unfold appends. split_and!; [done | | tauto | tauto].
  rewrite Hc3, Hc2, Hc1.
  replace (Z.to_nat (off (buf st1) - 1)) with (length (contents (buf st))) by lia.
  rewrite <- !app_assoc, take_app_length. cbn [app]. do 2 f_equal.
  change (255 :: x) with ([255] ++ x). rewrite app_assoc, drop_app_length'; [done|].
  rewrite length_app. simpl length. lia.
Qed.

Lemma skip_zeroes_le l : (skip_zeroes l <= length l)%nat.
Proof. induction l as [|b l IH]; simpl; [lia|]. destruct (b =? 0); lia. Qed.

Lemma skip_zeroes_all l : skip_zeroes l = length l <-> Forall (fun b => b = 0) l.
Proof.
  induction l as [|b l IH]; simpl; [done|]. destruct (Z.eqb_spec b 0) as [->|Hb].
  - split; intros Hf; [constructor; [done | apply IH; lia] |].
    inversion Hf; subst. f_equal. by apply IH.
  - split; [done|]. intros Hf. inversion Hf; congruence.
Qed.

(** The DER INTEGER of a non-zero unsigned number: the tag, the length, a zero
    octet when the leading bit is set, and the digits without leading zeroes. *)
Definition der_ubigint (bignum : bytes) : bytes :=
  let digits := drop (skip_zeroes bignum) bignum in
  let body := (if 0x80 <=? default 0 (head digits) then [0] else []) ++ digits in
  2 :: Z.of_nat (length body) :: body.

Lemma push_asn1_ubigint_appends bignum :
  (exists b, In b bignum /\ b <> 0) -> (length (der_ubigint bignum) < 130)%nat ->
  block_appends (der_ubigint bignum) (ptls_buffer_push_asn1_ubigint bignum).
Proof.
  intros (b0 & Hin & Hne) Hlen. unfold der_ubigint in *.
  set (p := skip_zeroes bignum) in *. set (digits := drop p bignum) in *.
  assert (Hp : (p < length bignum)%nat).
  { pose proof (skip_zeroes_le bignum). destruct (decide (p = length bignum)) as [E|]; [|lia].
    apply skip_zeroes_all in E. rewrite List.Forall_forall in E. by destruct (Hne (E _ Hin)). }
  destruct (lookup_lt_is_Some_2 bignum p Hp) as [d Hd].
  assert (Hdig : digits = d :: drop (S p) bignum) by (by apply drop_S).
  unfold ptls_buffer_push_asn1_ubigint. fold p. rewrite (rd_at _ _ _ Hd). cbn [lift].
  rewrite (proj2 (Nat.eqb_neq p (length bignum))) by lia. cbn [negb].
  assert (Hs : slice bignum p (length bignum) = digits).
  { unfold slice. subst digits. apply take_ge. rewrite length_drop. lia. }
  rewrite Hs. rewrite Hdig in *. cbn [head] in *.
  change (2 :: ?l) with ([2] ++ l). apply seq_appends; [apply pushv_appends|].
  apply push_asn1_block_appends; [cbn [length] in Hlen; lia|].
  intros st Hok Hb Hlim. apply wpm_bind, wpm_ret. change (default 0 (Some d)) with d in *.
  revert st Hok Hb Hlim. apply seq_appends; [|apply pushv_appends].
  destruct (0x80 <=? d); cbn [when]; [apply pushv_appends|].
  intros st Hok Hb _. apply wpm_ret. unfold appends. rewrite app_nil_r. done.
Qed.

(** On a number that is zero (or empty) the code dereferences the pointer one
    past the end of its argument. *)
Lemma push_asn1_ubigint_zero bignum st :
  Forall (fun b => b = 0) bignum -> buf_ok (buf st) -> off (buf st) + 2 <= 2 ^ 63 ->
  match ptls_buffer_push_asn1_ubigint bignum st with
  | Undefined f => f = OutOfBounds
  | Fail c _ => c = PTLS_ERROR_NO_MEMORY
  | Done _ _ => False
  end.
Proof.
  intros Hz Hok Hlim. unfold ptls_buffer_push_asn1_ubigint.
  rewrite (proj2 (skip_zeroes_all bignum) Hz), Nat.eqb_refl.
  assert (Hrd : rd bignum (length bignum) = Stuck OutOfBounds).
  { unfold rd. by rewrite lookup_ge_None_2. }
  rewrite Hrd. cbn [lift]. pose proof (pushv_spec [2] st Hok) as H1. simpl length in H1.
  specialize (H1 ltac:(lia)). unfold wpm in H1. unfold bind at 1.
  destruct (ptls_buffer__do_pushv [2] st) as [[] st1|c st1|] eqn:E1; [|by destruct H1|done].
  destruct H1 as (Hok1 & Hc1 & _ & _).
  pose proof (length_contents _ Hok) as Hl. pose proof (length_contents _ Hok1) as Hl1.
  rewrite Hc1, length_app in Hl1. simpl length in Hl1.
  unfold ptls_buffer_push_asn1_block, bind at 1.
  pose proof (pushv_spec [255] st1 Hok1) as H2. simpl length in H2. specialize (H2 ltac:(lia)).
  unfold wpm in H2. destruct (ptls_buffer__do_pushv [255] st1) as [[] st2|c st2|]; [done|by destruct H2|done].
Qed.
End Buffer.

(** ** Properties *)

Section Properties.
Context `{Allocator}.

(** Pushing a list of chunks, as a sequence of [ptls_buffer_pushv]. *)
Fixpoint push_all (xs : list bytes) : M bstate unit :=
  match xs with
  | [] => ret tt
  | x :: xs => ptls_buffer__do_pushv x ;;; push_all xs
  end.

Lemma push_all_spec xs st :
  buf_ok (buf st) -> off (buf st) + Z.of_nat (length (concat xs)) <= 2 ^ 63 ->
  wpm (push_all xs)
    (fun _ st' => buf_ok (buf st') /\ contents (buf st') = contents (buf st) ++ concat xs /\
       (all_scrubbed st -> all_scrubbed st'))
    (fun c st' => c = PTLS_ERROR_NO_MEMORY /\ buf_ok (buf st') /\
       (exists k, contents (buf st') = contents (buf st) ++ concat (take k xs)) /\
       (all_scrubbed st -> all_scrubbed st')) st.
Proof.
  revert st. induction xs as [|x xs IH]; intros st Hok Hlim; cbn [push_all concat] in *.
  - apply wpm_ret. by rewrite app_nil_r.
  - rewrite length_app in Hlim. pose proof (length_contents _ Hok) as Hl.
    apply wpm_bind. eapply wpm_mono; [apply pushv_exact; [done | lia] | |].
    + intros [] st1 (Hok1 & Hc1 & _ & Hs1). pose proof (length_contents _ Hok1) as Hl1.
      rewrite Hc1, length_app in Hl1. eapply wpm_mono; [apply IH; [done | lia] | |].
      * intros [] st2 (? & Hc2 & ?). rewrite Hc2, Hc1, <- app_assoc. tauto.
      * intros c st2 (-> & ? & (k & Hk) & ?). split_and!; [done | done | | tauto].
        exists (S k). by rewrite Hk, Hc1, <- app_assoc.
    + intros c st1 ((-> & ? & _ & ?) & ->). split_and!; [done | done | | done].
      exists 0%nat. by rewrite app_nil_r.
Qed.

(** C33: a buffer started on any small buffer and fed any sequence of chunks
    (below 2^63 octets in all) either holds exactly their concatenation, or
    stopped with [PTLS_ERROR_NO_MEMORY] holding the chunks up to one of them; it never writes
    outside of its memory, whatever the allocator does, and every region it gave
    back had all its octets in use overwritten with zeroes. *)
Theorem buffer_push_refines_append (xs : list bytes) (smallbuf : bytes) (h : heap) :
  Z.of_nat (length smallbuf) < 2 ^ 64 -> Z.of_nat (length (concat xs)) <= 2 ^ 63 ->
  match (ptls_buffer_init smallbuf ;;; push_all xs) (mk_bstate (mk_buffer None 0 0 false) h []) with
  | Done _ st => contents (buf st) = concat xs /\ buf_ok (buf st) /\ all_scrubbed st
  | Fail c st => c = PTLS_ERROR_NO_MEMORY /\ buf_ok (buf st) /\ all_scrubbed st /\
      exists k, contents (buf st) = concat (take k xs)
  | Undefined _ => False
  end.
Proof.
  intros Hsmall Hlim. set (st0 := mk_bstate (mk_buffer (Some smallbuf) (Z.of_nat (length smallbuf)) 0 false) h []).
  change ((ptls_buffer_init smallbuf ;;; push_all xs) _) with (push_all xs st0).
  assert (Hs0 : all_scrubbed st0) by constructor.
  pose proof (push_all_spec xs st0 ltac:(subst st0; unfold buf_ok; cbn; lia) ltac:(cbn; lia)) as Hw. unfold wpm in Hw.
  destruct (push_all xs st0) as [[] st|c st|]; [| |done].
  - destruct Hw as (? & Hc & ?). split_and!; [done | done | tauto].
  - destruct Hw as (? & ? & ? & ?). split_and!; [done | done | tauto | done].
Qed.

(** [ptls_buffer_push_block] with a size field of [n] octets, or with a QUIC
    variable-length size ([capacity == -1]), around any body that appends [x],
    appends exactly the size of [x] in that format followed by [x] (the
    in-place patching and the [memmove] of the QUIC form change nothing else),
    or fails with [PTLS_ERROR_NO_MEMORY] leaving what was there before as a
    prefix. *)
Theorem push_block_in_place (x sz : bytes) (n : nat) (block : M bstate unit) (st : bstate) :
  buf_ok (buf st) -> is_Some (base (buf st)) -> off (buf st) + Z.of_nat (length x) + 16 <= 2 ^ 63 ->
  (1 <= n <= 8)%nat -> Z.of_nat (length x) < 2 ^ 62 ->
  ptls_encode_quicint (Z.of_nat (length x)) = Ok sz ->
  block_appends x block ->
  wpm (ptls_buffer_push_block (Z.of_nat n) block)
    (fun _ st' => contents (buf st') = contents (buf st) ++ be n (Z.of_nat (length x)) ++ x /\ buf_ok (buf st'))
    (no_memory st) st /\
  wpm (ptls_buffer_push_block (-1) block)
    (fun _ st' => contents (buf st') = contents (buf st) ++ sz ++ x /\ buf_ok (buf st'))
    (no_memory st) st.
Proof.
  intros Hok Hb Hlim Hn Hx Hsz Hblock. split.
  - eapply wpm_mono; [apply (push_block_appends n x); [lia | done | done | done |] | | done].
    { rewrite length_push_block. lia. }
    intros [] st' (? & Hc & _ & _). done.
  - eapply wpm_mono; [apply (push_quic_block_appends x sz); [done.. |] | | done].
    { rewrite length_app. destruct (encode_quicint_ok (Z.of_nat (length x))) as (s & E & Hl & _); [lia|].
      rewrite Hsz in E. injection E as ->. rewrite Hl. unfold quicint_size. repeat case_match; lia. }
    intros [] st' (? & Hc & _ & _). done.
Qed.
End Properties.

(** An allocator with a budget of calls and recognisable garbage, for the
    concrete runs. *)
Definition budget_malloc (h : nat) (n : Z) : option bytes * nat :=
  match h with
  | O => (None, O)
  | S h' => if n <? 0 then (None, h') else (Some (replicate (Z.to_nat n) 170), h')
  end.

Lemma budget_malloc_length h n m h' : budget_malloc h n = (Some m, h') -> Z.of_nat (length m) = n.
Proof.
  destruct h; simpl; [done|]. destruct (Z.ltb_spec n 0); [done|]. intros [= <- _].
  rewrite length_replicate. lia.
Qed.

#[export] Instance budget_allocator : Allocator :=
  {| heap := nat; malloc := budget_malloc; malloc_length := budget_malloc_length |}.

(** Three chunks on a two-octet stack buffer: one reallocation, the small buffer
    scrubbed. *)
Lemma buffer_push_refines_append_witness :
  match (ptls_buffer_init [9; 9] ;;; push_all [[1]; []; [2; 3]])
          (mk_bstate (mk_buffer None 0 0 false) (1%nat : @heap budget_allocator) []) with
  | Done _ st => contents (buf st) = [1; 2; 3] /\ buf_ok (buf st) /\ all_scrubbed st
  | Fail c st => c = PTLS_ERROR_NO_MEMORY /\ buf_ok (buf st) /\ all_scrubbed st /\
      exists k, contents (buf st) = concat (take k [[1]; []; [2; 3]])
  | Undefined _ => False
  end.
Proof.
  apply (buffer_push_refines_append [[1]; []; [2; 3]] [9; 9] (1%nat : @heap budget_allocator)); simpl; lia.
Defined.

Example buffer_push_run :
  match (ptls_buffer_init [9; 9] ;;; push_all [[1]; []; [2; 3]])
          (mk_bstate (mk_buffer None 0 0 false) (1%nat : @heap budget_allocator) []) with
  | Done _ st => contents (buf st) = [1; 2; 3] /\ capacity (buf st) = 1024 /\ released st = [(1%nat, [0; 9])]
  | _ => False
  end.
Proof. vm_compute. done. Qed.

Lemma push_block_in_place_witness :
  wpm (ptls_buffer_push_block (Z.of_nat 2) (ptls_buffer__do_pushv (replicate 70 7)))
    (fun _ st' => contents (buf st') = [] ++ be 2 (Z.of_nat 70) ++ replicate 70 7 /\ buf_ok (buf st'))
    (no_memory (mk_bstate (mk_buffer (Some [0]) 1 0 false) (2%nat : @heap budget_allocator) []))
    (mk_bstate (mk_buffer (Some [0]) 1 0 false) (2%nat : @heap budget_allocator) []) /\
  wpm (ptls_buffer_push_block (-1) (ptls_buffer__do_pushv (replicate 70 7)))
    (fun _ st' => contents (buf st') = [] ++ [64; 70] ++ replicate 70 7 /\ buf_ok (buf st'))
    (no_memory (mk_bstate (mk_buffer (Some [0]) 1 0 false) (2%nat : @heap budget_allocator) []))
    (mk_bstate (mk_buffer (Some [0]) 1 0 false) (2%nat : @heap budget_allocator) []).
Proof.
  apply (push_block_in_place (replicate 70 7) [64; 70] 2 (ptls_buffer__do_pushv (replicate 70 7))
           (mk_bstate (mk_buffer (Some [0]) 1 0 false) (2%nat : @heap budget_allocator) [])).
  - unfold buf_ok. simpl. lia.
  - by eexists.
  - simpl. lia.
  - lia.
  - simpl. lia.
  - reflexivity.
  - apply pushv_appends.
Defined.
