(* ===== verification/Base64.v ===== *)
(** * Base64: [lib/pembase64.c]

    The base64 encoder, the incremental decoder and the PEM reader.  A C string
    is the list of its characters followed by the terminating zero; the cursor
    [text_index] is represented by the suffix it points to.  A [FILE] is the list
    of the characters not read yet.  The output buffer is the list of its
    contents with the outcomes of the calls of [ptls_buffer__do_pushv] to come:
    as [Buffer.v] shows, a push appends its argument or, when memory cannot be
    had, fails with [PTLS_ERROR_NO_MEMORY] and changes nothing.

    Main results: decoding inverts encoding, the PEM reader recovers a list of
    objects from the file that holds them, and the reader terminates on every
    file, whatever pushes are refused. *)
From S2P Require Import Prelude Constants.

Definition ptls_base64_alphabet : bytes :=
  str "ABCDEFGHIJKLMNOPQRSTUVWXYZabcdefghijklmnopqrstuvwxyz0123456789+/".

Definition ptls_base64_values : list Z :=
  [ -1; -1; -1; -1; -1; -1; -1; -1; -1; -1; -1; -1; -1; -1; -1; -1;
    -1; -1; -1; -1; -1; -1; -1; -1; -1; -1; -1; -1; -1; -1; -1; -1;
    -1; -1; -1; -1; -1; -1; -1; -1; -1; -1; -1; 62; -1; -1; -1; 63;
    52; 53; 54; 55; 56; 57; 58; 59; 60; 61; -1; -1; -1; -1; -1; -1;
    -1; 0; 1; 2; 3; 4; 5; 6; 7; 8; 9; 10; 11; 12; 13; 14;
    15; 16; 17; 18; 19; 20; 21; 22; 23; 24; 25; -1; -1; -1; -1; -1;
    -1; 26; 27; 28; 29; 30; 31; 32; 33; 34; 35; 36; 37; 38; 39; 40;
    41; 42; 43; 44; 45; 46; 47; 48; 49; 50; 51; -1; -1; -1; -1; -1 ].

(** [ptls_base64_alphabet[n]] *)
Definition alpha (n : Z) : Z := default 0 (ptls_base64_alphabet !! Z.to_nat n).

(** ** Encoder *)

Definition ptls_base64_cell (d0 d1 d2 : Z) : bytes :=
  [ alpha (Z.shiftr d0 2);
    alpha (Z.lor (Z.shiftl (Z.land d0 3) 4) (Z.shiftr d1 4));
    alpha (Z.lor (Z.shiftl (Z.land d1 15) 2) (Z.shiftr d2 6));
    alpha (Z.land d2 63) ].

Definition ptls_base64_howlong (data_length : Z) : Z := ((data_length + 2) / 3) * 4.

(** The characters written, without the terminating zero. *)
Fixpoint base64_chars (data : bytes) : bytes :=
  match data with
  | d0 :: d1 :: d2 :: data => ptls_base64_cell d0 d1 d2 ++ base64_chars data
  | [d0; d1] =>
      [ alpha (Z.shiftr d0 2);
        alpha (Z.lor (Z.shiftl (Z.land d0 3) 4) (Z.shiftr d1 4));
        alpha (Z.shiftl (Z.land d1 15) 2);
        chr "=" ]
  | [d0] => [ alpha (Z.shiftr d0 2); alpha (Z.shiftl (Z.land d0 3) 4); chr "="; chr "=" ]
  | [] => []
  end.

(** The C string produced, and the value returned ([lt], the terminator counted). *)
Definition ptls_base64_encode (data : bytes) : bytes * Z :=
  let text := base64_chars data ++ [0] in (text, Z.of_nat (List.length text)).

(** ** Incremental decoder *)

Inductive decode_status := PTLS_BASE64_DECODE_DONE | PTLS_BASE64_DECODE_IN_PROGRESS | PTLS_BASE64_DECODE_FAILED.

#[export] Instance decode_status_eq_dec : EqDecision decode_status.
Proof. solve_decision. Defined.

Record ptls_base64_decode_state_t := mk_b64 { nbc : Z; nbo : Z; b64_v : Z; status : decode_status }.

Definition ptls_base64_decode_init : ptls_base64_decode_state_t :=
  mk_b64 0 3 0 PTLS_BASE64_DECODE_IN_PROGRESS.

Definition is_blank (c : Z) : bool := (c =? 32) || (c =? 9) || (c =? 13) || (c =? 10).
Definition is_final_blank (c : Z) : bool := is_blank c || (c =? 0x0B) || (c =? 0x0C).

(** [while (text[text_index] != 0 && blank(text[text_index])) text_index++;] *)
Fixpoint skip_while (blank : Z -> bool) (text : bytes) : res bytes :=
  match text with
  | [] => Stuck OutOfBounds
  | c :: rest => if c =? 0 then Ok text else if blank c then skip_while blank rest else Ok text
  end.

(** The loop that is meant to check for trailing blanks: it moves to the end of
    the line whatever the characters are. *)
Fixpoint skip_to_nul (text : bytes) : res bytes :=
  match text with
  | [] => Stuck OutOfBounds
  | c :: rest => if c =? 0 then Ok text else skip_to_nul rest
  end.

(** [decoded[j] = (uint8_t)(v >> (8 * (2 - j)))] for [j < nbo] *)
Definition decoded_octets (v nbo : Z) : bytes :=
  take (Z.to_nat nbo) [u8 (Z.shiftr v 16); u8 (Z.shiftr v 8); u8 v].

Definition base64_value (c : Z) : res Z :=
  if (0 <? c) && (c <? 0x7f) then
    match ptls_base64_values !! Z.to_nat c with Some v => Ok v | None => Stuck OutOfBounds end
  else Ok (-1).

(** What one turn of the main loop does with the character [c] before the
    conversion: the new state and position, or the end of the loop. *)
Inductive turn := Continue (st : ptls_base64_decode_state_t) (text : bytes) | Break | Failure.

Definition base64_turn (c : Z) (text : bytes) (st : ptls_base64_decode_state_t) : res turn :=
  let! vc := base64_value c in
  if vc =? -1 then
    if (nbc st =? 2) && (c =? chr "=") && match text with c' :: _ => c' =? chr "=" | [] => false end then
      Ok (Continue (mk_b64 4 1 (u32 (Z.shiftl (b64_v st) 12)) (status st)) (List.tl text))
    else if (nbc st =? 3) && (c =? chr "=") then
      Ok (Continue (mk_b64 4 2 (u32 (Z.shiftl (b64_v st) 6)) (status st)) text)
    else
      let! rest := skip_while is_final_blank (c :: text) in
      match rest with
      | 0 :: _ => Ok Break
      | _ => Ok Failure
      end
  else Ok (Continue (mk_b64 (nbc st + 1) (nbo st) (Z.lor (u32 (Z.shiftl (b64_v st) 6)) vc) (status st)) text).

(** The output buffer: what it holds, and whether the next calls of
    [ptls_buffer__do_pushv] find the memory they need (all of them do once the
    list is exhausted). *)
Record output := mk_output { out_data : bytes; out_pushes : list bool }.

(** [ptls_buffer__do_pushv(buf, src, len) == 0], and the buffer after it: a push
    of nothing needs no memory. *)
Definition out_pushv (buf : output) (src : bytes) : bool * output :=
  match src, out_pushes buf with
  | [], _ => (true, buf)
  | _, [] => (true, mk_output (out_data buf ++ src) [])
  | _, true :: pushes => (true, mk_output (out_data buf ++ src) pushes)
  | _, false :: pushes => (false, mk_output (out_data buf) pushes)
  end.

(** The value returned, the decoder state and the buffer. *)
Definition decode_result : Type := Z * ptls_base64_decode_state_t * output.

Fixpoint base64_loop (fuel : nat) (text : bytes) (st : ptls_base64_decode_state_t) (buf : output) : res decode_result :=
  match text with
  | [] => Stuck OutOfBounds
  | c :: text =>
      if (c =? 0) || negb (bool_decide (status st = PTLS_BASE64_DECODE_IN_PROGRESS)) then Ok (0, st, buf)
      else match fuel with
      | O => Stuck OutOfFuel
      | S fuel =>
          let! t := base64_turn c text st in
          match t with
          | Break => Ok (0, st, buf)
          | Failure =>
              Ok (PTLS_ERROR_INCORRECT_BASE64, mk_b64 (nbc st) 0 (b64_v st) PTLS_BASE64_DECODE_FAILED, buf)
          | Continue st text =>
              if nbc st =? 4 then
                let '(pushed, buf) := out_pushv buf (decoded_octets (b64_v st) (nbo st)) in
                if negb pushed then Ok (PTLS_ERROR_NO_MEMORY, st, buf)
                else if nbo st <? 3 then
                  let! rest := skip_to_nul text in
                  match rest with
                  | 0 :: _ => Ok (0, mk_b64 (nbc st) (nbo st) (b64_v st) PTLS_BASE64_DECODE_DONE, buf)
                  | _ => Ok (PTLS_ERROR_INCORRECT_BASE64,
                             mk_b64 (nbc st) (nbo st) (b64_v st) PTLS_BASE64_DECODE_FAILED, buf)
                  end
                else base64_loop fuel text (mk_b64 0 3 0 (status st)) buf
              else base64_loop fuel text st buf
          end
      end
  end.

Definition ptls_base64_decode (text : bytes) (st : ptls_base64_decode_state_t) (buf : output) : res decode_result :=
  let! text := skip_while is_blank text in
  base64_loop (List.length text) text st buf.

(** ** PEM reader *)

(** [strncmp(line, s, strlen(s)) == 0] on a C string: reading stops at the first
    difference, so a line shorter than [s] is never read past its terminator. *)
Fixpoint starts_with (line s : bytes) : res bool :=
  match s, line with
  | [], _ => Ok true
  | _ :: _, [] => Stuck OutOfBounds
  | c :: s, d :: line => if c =? d then starts_with line s else Ok false
  end.

(** [ptls_compare_separator_line(line, begin_or_end, label) == 0] *)
Definition ptls_compare_separator_line (line begin_or_end label : bytes) : res bool :=
  let! r := starts_with line (str "-----") in
  if negb r then Ok false else
  let line := drop 5 line in
  let! r := starts_with line begin_or_end in
  if negb r then Ok false else
  let line := drop (List.length begin_or_end) line in
  let! c := rd line 0 in
  if negb (c =? 32) then Ok false else
  let line := drop 1 line in
  let! r := starts_with line label in
  if negb r then Ok false else
  let line := drop (List.length label) line in
  starts_with line (str "-----").

(** [fgets(line, 256, F)]: at most 255 characters, up to and including the first
    newline; [None] at the end of the file. *)
Fixpoint fgets_chars (n : nat) (f : bytes) : bytes * bytes :=
  match n, f with
  | O, _ => ([], f)
  | _, [] => ([], [])
  | S n, c :: f => if c =? 10 then ([c], f) else let '(l, rest) := fgets_chars n f in (c :: l, rest)
  end.

Definition fgets (f : bytes) : option (bytes * bytes) :=
  match f with
  | [] => None
  | _ => let '(l, rest) := fgets_chars 255 f in Some (l ++ [0], rest)
  end.

(** The loop up to the BEGIN line: whether it was found, and the rest of the file. *)
Fixpoint find_begin (fuel : nat) (f label : bytes) : res (bool * bytes) :=
  match fgets f with
  | None => Ok (false, f)
  | Some (line, rest) =>
      match fuel with
      | O => Stuck OutOfFuel
      | S fuel =>
          let! eq := ptls_compare_separator_line line (str "BEGIN") label in
          if eq then Ok (true, rest) else find_begin fuel rest label
      end
  end.

(** The loop over the lines of the object. *)
Fixpoint read_object (fuel : nat) (f label : bytes) (st : ptls_base64_decode_state_t) (buf : output)
    : res (Z * output * bytes) :=
  match fgets f with
  | None => Ok (0, buf, f)
  | Some (line, rest) =>
      match fuel with
      | O => Stuck OutOfFuel
      | S fuel =>
          let! eq := ptls_compare_separator_line line (str "END") label in
          if eq then
            if bool_decide (status st = PTLS_BASE64_DECODE_DONE)
               || (bool_decide (status st = PTLS_BASE64_DECODE_IN_PROGRESS) && (nbc st =? 0))
            then Ok (0, buf, rest)
            else Ok (PTLS_ERROR_INCORRECT_BASE64, buf, rest)
          else
            let! '(ret, st, buf) := ptls_base64_decode line st buf in
            if ret =? 0 then read_object fuel rest label st buf else Ok (ret, buf, rest)
      end
  end.

(** The value returned, [buf], and the rest of the file. *)
Definition ptls_get_pem_object (f label : bytes) (buf : output) : res (Z * output * bytes) :=
  let! '(found, f) := find_begin (List.length f) f label in
  if found then read_object (List.length f) f label ptls_base64_decode_init buf
  else Ok (PTLS_ERROR_PEM_LABEL_NOT_FOUND, buf, f).

(** The loop of [ptls_load_pem_objects]; an object without contents is skipped.
    [buf.is_allocated] holds as soon as the buffer, which starts without
    capacity, holds an octet. *)
Fixpoint load_loop (fuel : nat) (pushes : list bool) (f label : bytes) (list_max : nat) (objs : list bytes)
    : res (Z * list bytes) :=
  if (List.length objs <? list_max)%nat then
    match fuel with
    | O => Stuck OutOfFuel
    | S fuel =>
        let! '(ret, buf, f) := ptls_get_pem_object f label (mk_output [] pushes) in
        if ret =? 0 then
          load_loop fuel (out_pushes buf) f label list_max
            (if (0 <? List.length (out_data buf))%nat then objs ++ [out_data buf] else objs)
        else Ok (ret, objs)
    end
  else Ok (0, objs).

(** [file] is [None] when [fopen] fails; [pushes] are the outcomes of the pushes. *)
Definition ptls_load_pem_objects (pushes : list bool) (file : option bytes) (label : bytes) (list_max : nat) : res (Z * list bytes) :=
  match file with
  | None => Ok (-1, [])
  | Some f =>
      let! '(ret, objs) := load_loop (S (List.length f)) pushes f label list_max [] in
      Ok (if (ret =? PTLS_ERROR_PEM_LABEL_NOT_FOUND) && (0 <? List.length objs)%nat then 0 else ret, objs)
  end.

Definition PTLS_MAX_CERTS_IN_CONTEXT : nat := 16.

(** [memory] tells whether the list of the context can be allocated; [None] is
    the list left [NULL]. *)
Definition ptls_load_certificates (memory : bool) (pushes : list bool) (file : option bytes)
    : res (Z * option (list bytes)) :=
  if negb memory then Ok (PTLS_ERROR_NO_MEMORY, None)
  else
    let! '(ret, objs) := ptls_load_pem_objects pushes file (str "CERTIFICATE") PTLS_MAX_CERTS_IN_CONTEXT in
    Ok (ret, Some objs).

Example pem_run :
  ptls_load_certificates true [] (Some (str "junk" ++ [10] ++ str "-----BEGIN CERTIFICATE-----" ++ [10] ++ str "AQIDBA=="
     ++ [10] ++ str "-----END CERTIFICATE-----" ++ [10])) = Ok (0, Some [[1; 2; 3; 4]]).
Proof. vm_compute. reflexivity. Qed.

(** The buffer of contents [data] whose pushes all succeed. *)
Definition granted (data : bytes) : output := mk_output data [].

Lemma pushv_granted data src : out_pushv (granted data) src = (true, granted (data ++ src)).
Proof. destruct src; [by rewrite app_nil_r | done]. Qed.

(** ** The alphabet and its inverse table agree *)

Definition sextet_ok (n : Z) : bool :=
  let c := alpha n in
  (match base64_value c with Ok v => v =? n | _ => false end)
  && negb (is_final_blank c) && (0 <? c) && (c <? 127) && negb (c =? chr "=") && negb (c =? chr "-").

Lemma sextets_ok : forallb sextet_ok (seqZ 0 64) = true.
Proof. vm_compute. reflexivity. Qed.

Lemma alpha_spec n :
  0 <= n < 64 ->
  base64_value (alpha n) = Ok n /\ is_final_blank (alpha n) = false /\ 0 < alpha n < 127 /\
  alpha n <> chr "=" /\ alpha n <> chr "-".
Proof.
  intros Hn. pose proof sextets_ok as H. rewrite forallb_forall in H.
  assert (Hin : In n (seqZ 0 64)) by (apply list_elem_of_In, elem_of_seqZ; lia).
  specialize (H n Hin). unfold sextet_ok in H. b2p.
  destruct (base64_value (alpha n)); try done. b2p. subst. split_and!; try done; lia.
Qed.

Lemma is_final_blank_false c : is_final_blank c = false -> is_blank c = false /\ c <> 10.
Proof. unfold is_final_blank. intros. b2p. split; [done|]. unfold is_blank in *. b2p. done. Qed.

Lemma base64_turn_alpha n text st :
  0 <= n < 64 ->
  base64_turn (alpha n) text st
  = Ok (Continue (mk_b64 (nbc st + 1) (nbo st) (Z.lor (u32 (Z.shiftl (b64_v st) 6)) n) (status st)) text).
Proof.
  intros Hn. destruct (alpha_spec n Hn) as (Hv & _). unfold base64_turn. rewrite Hv. cbn [res_bind].
  by destruct (Z.eqb_spec n (-1)); [lia|].
Qed.

(** The sextets of three octets and back. *)
Lemma sextet_bits d0 d1 d2 :
  is_byte d0 -> is_byte d1 -> is_byte d2 ->
  Z.shiftr d0 2 = d0 / 4 /\
  Z.lor (Z.shiftl (Z.land d0 3) 4) (Z.shiftr d1 4) = d0 mod 4 * 16 + d1 / 16 /\
  Z.lor (Z.shiftl (Z.land d1 15) 2) (Z.shiftr d2 6) = d1 mod 16 * 4 + d2 / 64 /\
  Z.land d2 63 = d2 mod 64.
Proof.
  unfold is_byte. intros H0 H1 H2.
  change 3 with (Z.ones 2). change 15 with (Z.ones 4). change 63 with (Z.ones 6).
  rewrite !land_ones_mod, !Z.shiftr_div_pow2 by lia.
  split_and!; [done | | | done]; rewrite lor_shiftl_add; (done || modlia).
Qed.

Definition in_progress (n v : Z) := mk_b64 n 3 v PTLS_BASE64_DECODE_IN_PROGRESS.

(** One sextet in the middle of a cell. *)
Lemma base64_loop_sextet fuel n k v text buf :
  0 <= n < 64 -> 0 <= k < 3 -> 0 <= v < 2 ^ (6 * k) ->
  base64_loop (S fuel) (alpha n :: text) (in_progress k v) buf
  = base64_loop fuel text (in_progress (k + 1) (v * 64 + n)) buf.
Proof.
  intros Hn Hk Hv. destruct (alpha_spec n Hn) as (_ & _ & Hc & _).
  assert (Hp : 2 ^ (6 * k) <= 2 ^ 12) by (apply Z.pow_le_mono_r; lia).
  cbn [base64_loop]. destruct (Z.eqb_spec (alpha n) 0); [lia|]. cbn [orb negb bool_decide].
  rewrite base64_turn_alpha by done. cbn [res_bind in_progress nbc nbo b64_v status].
  destruct (Z.eqb_spec (k + 1) 4); [lia|]. unfold in_progress. do 2 f_equal.
  unfold u32. rewrite Z.mod_small; [|rewrite Z.shiftl_mul_pow2 by lia; lia].
  rewrite lor_shiftl_add by lia. done.
Qed.

(** A whole cell gives back its three octets. *)
Lemma base64_loop_cell fuel d0 d1 d2 text buf :
  is_bytes [d0; d1; d2] ->
  base64_loop (S (S (S (S fuel)))) (ptls_base64_cell d0 d1 d2 ++ text) ptls_base64_decode_init (granted buf)
  = base64_loop fuel text ptls_base64_decode_init (granted (buf ++ [d0; d1; d2])).
Proof.
  intros Hb. assert (Hd : is_byte d0 /\ is_byte d1 /\ is_byte d2)
    by (split_and!; first [ by apply (is_bytes_lookup _ 0%nat _ Hb) | by apply (is_bytes_lookup _ 1%nat _ Hb)
                          | by apply (is_bytes_lookup _ 2%nat _ Hb) ]).
  destruct Hd as (Hd0 & Hd1 & Hd2).
  destruct (sextet_bits d0 d1 d2 Hd0 Hd1 Hd2) as (E0 & E1 & E2 & E3).
  unfold ptls_base64_cell. rewrite E0, E1, E2, E3. unfold is_byte in *. cbn [app].
  change ptls_base64_decode_init with (in_progress 0 0) at 1.
  rewrite base64_loop_sextet by modlia. rewrite base64_loop_sextet by modlia.
  rewrite base64_loop_sextet by modlia. change (0 + 1 + 1 + 1) with 3.
  set (v := _ * 64 + _). assert (Hv : v = d0 * 1024 + d1 * 4 + d2 / 64) by (subst v; modlia).
  destruct (alpha_spec (d2 mod 64)) as (_ & _ & Hc & _); [modlia|].
  cbn [base64_loop]. destruct (Z.eqb_spec (alpha (d2 mod 64)) 0); [lia|]. cbn [orb negb bool_decide].
  rewrite base64_turn_alpha by modlia. cbn [res_bind in_progress nbc nbo b64_v status].
  change (3 + 1 =? 4) with true. cbn iota. rewrite pushv_granted. change (3 <? 3) with false. cbn [andb negb].
  assert (Hw : Z.lor (u32 (Z.shiftl v 6)) (d2 mod 64) = d0 * 65536 + d1 * 256 + d2).
  { unfold u32. rewrite Z.mod_small; [|rewrite Z.shiftl_mul_pow2 by lia; modlia].
    rewrite lor_shiftl_add by modlia. modlia. }
  rewrite Hw. unfold ptls_base64_decode_init. do 3 f_equal. unfold decoded_octets.
  change (take (Z.to_nat 3) [?a; ?b; ?c]) with [a; b; c].
  rewrite !Z.shiftr_div_pow2 by lia. unfold u8. repeat f_equal; modlia.
Qed.

(** ** Lines *)

(** Characters that may follow the base64 text on a line. *)
Definition trailing (tr : bytes) : Prop := Forall (fun c => is_final_blank c = true /\ c <> 0) tr.

Lemma trailing_skip tr : trailing tr -> skip_while is_final_blank (tr ++ [0]) = Ok [0].
Proof.
  induction 1 as [|c tr [Hc H0] _ IH]; [done|]. cbn [app skip_while].
  destruct (Z.eqb_spec c 0); [done|]. by rewrite Hc.
Qed.

Lemma trailing_nul tr : trailing tr -> skip_to_nul (tr ++ [0]) = Ok [0].
Proof.
  induction 1 as [|c tr [Hc H0] _ IH]; [done|]. cbn [app skip_to_nul]. by destruct (Z.eqb_spec c 0).
Qed.

Lemma final_blank_value c : is_final_blank c = true -> base64_value c = Ok (-1).
Proof.
  unfold is_final_blank, is_blank. intros H.
  repeat (apply orb_true_iff in H; destruct H as [H|H]); apply Z.eqb_eq in H; subst; reflexivity.
Qed.

Lemma base64_loop_trailing fuel tr buf :
  trailing tr -> (List.length tr < fuel)%nat ->
  base64_loop fuel (tr ++ [0]) ptls_base64_decode_init buf = Ok (0, ptls_base64_decode_init, buf).
Proof.
  intros Ht Hf. destruct fuel as [|fuel]; [lia|]. destruct tr as [|c tr]; [done|].
  pose proof (trailing_skip _ Ht) as Hskip. inversion Ht as [|? ? [Hc H0] _]; subst.
  cbn [app base64_loop]. destruct (Z.eqb_spec c 0); [done|]. cbn [orb negb bool_decide].
  unfold base64_turn. rewrite (final_blank_value c Hc). cbn [res_bind].
  change (-1 =? -1) with true. cbn [ptls_base64_decode_init nbc]. change (0 =? 2) with false.
  change (0 =? 3) with false. cbn [andb]. cbn [app] in Hskip. rewrite Hskip. done.
Qed.

Lemma base64_pad1 fuel d0 tr buf :
  is_byte d0 -> trailing tr ->
  base64_loop (S (S (S fuel))) (base64_chars [d0] ++ tr ++ [0]) ptls_base64_decode_init (granted buf)
  = Ok (0, mk_b64 4 1 (d0 * 65536) PTLS_BASE64_DECODE_DONE, granted (buf ++ [d0])).
Proof.
  intros H0 Ht. destruct (sextet_bits d0 0 0) as (E0 & E1 & _); [done | done | done |].
  rewrite Z.shiftr_0_l, Z.lor_0_r in E1. change (0 / 16) with 0 in E1. rewrite Z.add_0_r in E1.
  unfold base64_chars. rewrite E0, E1. unfold is_byte in *. cbn [app].
  change ptls_base64_decode_init with (in_progress 0 0).
  rewrite base64_loop_sextet by modlia. rewrite base64_loop_sextet by modlia. change (0 + 1 + 1) with 2.
  set (v := _ * 64 + _). assert (Hv : v = d0 * 16) by (subst v; modlia).
  cbn [base64_loop]. change (chr "=" =? 0) with false. cbn [orb negb bool_decide].
  unfold base64_turn. change (base64_value (chr "=")) with (Ok (-1) : res Z). cbn [res_bind].
  cbn [in_progress nbc nbo b64_v status andb List.tl]. change (2 =? 2) with true.
  change (chr "=" =? chr "=") with true. change (-1 =? -1) with true. cbn [andb res_bind nbc nbo b64_v status].
  change (4 =? 4) with true. cbn iota. rewrite pushv_granted. change (1 <? 3) with true. cbn [negb]. rewrite trailing_nul by done. cbn [res_bind].
  assert (Hw : u32 (Z.shiftl v 12) = d0 * 65536).
  { unfold u32. rewrite Z.shiftl_mul_pow2 by lia. rewrite Z.mod_small; lia. }
  rewrite Hw. do 4 f_equal. unfold decoded_octets. change (take (Z.to_nat 1) [?a; ?b; ?c]) with [a].
  rewrite Z.shiftr_div_pow2 by lia. unfold u8. f_equal. modlia.
Qed.

Lemma base64_pad2 fuel d0 d1 tr buf :
  is_byte d0 -> is_byte d1 -> trailing tr ->
  base64_loop (S (S (S (S fuel)))) (base64_chars [d0; d1] ++ tr ++ [0]) ptls_base64_decode_init (granted buf)
  = Ok (0, mk_b64 4 2 (d0 * 65536 + d1 * 256) PTLS_BASE64_DECODE_DONE, granted (buf ++ [d0; d1])).
Proof.
  intros H0 H1 Ht. destruct (sextet_bits d0 d1 0) as (E0 & E1 & E2 & _); [done | done | done |].
  rewrite Z.shiftr_0_l, Z.lor_0_r in E2. change (0 / 64) with 0 in E2. rewrite Z.add_0_r in E2.
  unfold base64_chars. rewrite E0, E1, E2. unfold is_byte in *. cbn [app].
  change ptls_base64_decode_init with (in_progress 0 0).
  rewrite base64_loop_sextet by modlia. rewrite base64_loop_sextet by modlia.
  rewrite base64_loop_sextet by modlia. change (0 + 1 + 1 + 1) with 3.
  set (v := _ * 64 + _). assert (Hv : v = d0 * 1024 + d1 * 4) by (subst v; modlia).
  cbn [base64_loop]. change (chr "=" =? 0) with false. cbn [orb negb bool_decide].
  unfold base64_turn. change (base64_value (chr "=")) with (Ok (-1) : res Z). cbn [res_bind].
  cbn [in_progress nbc nbo b64_v status andb List.tl]. change (3 =? 2) with false. change (3 =? 3) with true.
  change (chr "=" =? chr "=") with true. change (-1 =? -1) with true. cbn [andb res_bind nbc nbo b64_v status].
  change (4 =? 4) with true. cbn iota. rewrite pushv_granted. change (2 <? 3) with true. cbn [negb]. rewrite trailing_nul by done. cbn [res_bind].
  assert (Hw : u32 (Z.shiftl v 6) = d0 * 65536 + d1 * 256).
  { unfold u32. rewrite Z.shiftl_mul_pow2 by lia. rewrite Z.mod_small; lia. }
  rewrite Hw. do 4 f_equal. unfold decoded_octets. change (take (Z.to_nat 2) [?a; ?b; ?c]) with [a; b].
  rewrite !Z.shiftr_div_pow2 by lia. unfold u8. repeat f_equal; modlia.
Qed.

(** The state after a line that encodes [d]. *)
Definition line_state (d : bytes) (st : ptls_base64_decode_state_t) : Prop :=
  if (List.length d mod 3 =? 0)%nat then st = ptls_base64_decode_init
  else status st = PTLS_BASE64_DECODE_DONE.

Lemma base64_loop_line n d tr fuel buf :
  (List.length d <= n)%nat -> is_bytes d -> trailing tr ->
  (List.length (base64_chars d ++ tr ++ [0%Z]) <= fuel)%nat ->
  exists st, base64_loop fuel (base64_chars d ++ tr ++ [0]) ptls_base64_decode_init (granted buf) = Ok (0, st, granted (buf ++ d))
             /\ line_state d st.
Proof.
  revert d fuel buf. induction n as [n IH] using lt_wf_ind. intros d fuel buf Hn Hd Ht Hf.
  destruct d as [|d0 [|d1 [|d2 d]]].
  - exists ptls_base64_decode_init. rewrite app_nil_r. cbn [base64_chars app] in *.
    rewrite length_app in Hf. simpl in Hf. split; [apply base64_loop_trailing; [done|lia] | done].
  - inversion Hd; subst. do 3 (destruct fuel as [|fuel]; [simpl in Hf; lia|]).
    eexists. split; [by apply base64_pad1 | done].
  - inversion Hd as [|? ? ? Hd']; inversion Hd'; subst.
    do 4 (destruct fuel as [|fuel]; [simpl in Hf; lia|]).
    eexists. split; [by apply base64_pad2 | done].
  - assert (Hb3 : is_bytes [d0; d1; d2] /\ is_bytes d).
    { change (d0 :: d1 :: d2 :: d) with ([d0; d1; d2] ++ d) in Hd. by apply Forall_app in Hd. }
    destruct Hb3 as [Hb3 Hd'].
    cbn [base64_chars] in *. rewrite <- app_assoc in *. rewrite length_app in Hf.
    change (List.length (ptls_base64_cell d0 d1 d2)) with 4%nat in Hf.
    do 4 (destruct fuel as [|fuel]; [lia|]). rewrite base64_loop_cell by done.
    simpl in Hn. destruct (IH (n - 3)%nat ltac:(lia) d fuel (buf ++ [d0; d1; d2])) as (st & Hl & Hst); [lia | done | done | lia |].
    exists st. rewrite Hl, <- app_assoc. split; [done|]. unfold line_state in *.
    replace (List.length (d0 :: d1 :: d2 :: d) mod 3)%nat with (List.length d mod 3)%nat; [done|].
    simpl List.length. replace (S (S (S (List.length d)))) with (List.length d + 1 * 3)%nat by lia.
    by rewrite Nat.Div0.mod_add.
Qed.

Lemma base64_chars_head d c l : base64_chars d = c :: l -> is_bytes d -> exists n, 0 <= n < 64 /\ c = alpha n.
Proof.
  intros E Hd. destruct d as [|d0 d]; [done|]. inversion Hd as [|? ? H0 _]; subst. unfold is_byte in H0.
  exists (Z.shiftr d0 2). rewrite Z.shiftr_div_pow2 by lia. split; [modlia|].
  destruct d as [|d1 [|d2 d]]; injection E as <- _; by rewrite ?Z.shiftr_div_pow2 by lia.
Qed.

Lemma base64_decode_line d tr buf :
  is_bytes d -> Forall (fun c => is_blank c = true /\ c <> 0) tr ->
  exists st, ptls_base64_decode (base64_chars d ++ tr ++ [0]) ptls_base64_decode_init (granted buf) = Ok (0, st, granted (buf ++ d))
             /\ line_state d st.
Proof.
  intros Hd Htr. assert (Htr' : trailing tr).
  { eapply List.Forall_impl; [|exact Htr]. intros c [Hc H0]. unfold is_final_blank. by rewrite Hc. }
  unfold ptls_base64_decode. destruct (base64_chars d) as [|c l] eqn:E.
  - assert (d = []) as -> by (destruct d as [|? [|? [|? ?]]]; done).
    exists ptls_base64_decode_init. rewrite app_nil_r.
    assert (Hskip : skip_while is_blank ([] ++ tr ++ [0]) = Ok [0]).
    { cbn [app]. clear E Htr'. induction Htr as [|c tr [Hc H0] _ IH]; [done|]. cbn [app skip_while].
      destruct (Z.eqb_spec c 0); [done|]. by rewrite Hc. }
    rewrite Hskip. done.
  - destruct (base64_chars_head d c l E Hd) as (n & Hn & ->).
    destruct (alpha_spec n Hn) as (_ & Hb & Hc & _). apply is_final_blank_false in Hb as [Hb _].
    cbn [app skip_while]. destruct (Z.eqb_spec (alpha n) 0); [lia|]. rewrite Hb. cbn [res_bind].
    change (alpha n :: l ++ tr ++ [0]) with ((alpha n :: l) ++ tr ++ [0]). rewrite <- E.
    apply (base64_loop_line (List.length d)); done || lia.
Qed.

(** ** PEM files *)

Definition NL : bytes := [10].

(** The text of an object whose contents are given line by line. *)
Definition pem_sep (word label : bytes) : bytes := str "-----" ++ word ++ [32] ++ label ++ str "-----".
Definition pem_lines (chunks : list bytes) : bytes := List.concat (map (fun d => base64_chars d ++ NL) chunks).
Definition pem_object (label : bytes) (chunks : list bytes) : bytes :=
  pem_sep (str "BEGIN") label ++ NL ++ pem_lines chunks ++ pem_sep (str "END") label ++ NL.
Definition pem_file (label : bytes) (objs : list (list bytes)) : bytes := List.concat (map (pem_object label) objs).

(** Lines of at most 248 characters; only the last one may need padding. *)
Fixpoint wf_chunks (chunks : list bytes) : Prop :=
  match chunks with
  | [] => True
  | d :: ds => is_bytes d /\ (List.length d <= 186)%nat /\ (ds <> [] -> List.length d mod 3 = 0)%nat /\ wf_chunks ds
  end.

Definition wf_label (label : bytes) : Prop := (List.length label <= 200)%nat /\ ~ In 10 label.

Lemma starts_with_app s t : starts_with (s ++ t) s = Ok true.
Proof. induction s as [|c s IH]; simpl; [by destruct t|]. by rewrite Z.eqb_refl. Qed.

Lemma compare_separator_same word label t :
  ptls_compare_separator_line (pem_sep word label ++ t) word label = Ok true.
Proof.
  unfold ptls_compare_separator_line, pem_sep. rewrite <- !app_assoc, starts_with_app. cbn [res_bind negb].
  change 5%nat with (List.length (str "-----")). rewrite drop_app_length, starts_with_app. cbn [res_bind negb].
  rewrite drop_app_length. cbn [app rd lookup list_lookup res_bind]. rewrite Z.eqb_refl. cbn [negb].
  change (drop 1 (32 :: ?l)) with l. rewrite starts_with_app. cbn [res_bind negb].
  rewrite drop_app_length, starts_with_app. done.
Qed.

Lemma compare_separator_other c line word label :
  c <> chr "-" -> ptls_compare_separator_line (c :: line) word label = Ok false.
Proof.
  intros Hc. unfold ptls_compare_separator_line. change (str "-----") with (chr "-" :: str "----").
  cbn [starts_with]. by destruct (Z.eqb_spec (chr "-") c).
Qed.

Lemma fgets_chars_line n line rest :
  ~ In 10 line -> (List.length line < n)%nat -> fgets_chars n (line ++ NL ++ rest) = (line ++ NL, rest).
Proof.
  revert n. induction line as [|c line IH]; intros n Hin Hlen; destruct n; simpl in *; try lia; [done|].
  destruct (Z.eqb_spec c 10); [tauto|]. rewrite IH by (tauto || lia). done.
Qed.

Lemma fgets_line line rest :
  ~ In 10 line -> (List.length line <= 254)%nat -> fgets (line ++ NL ++ rest) = Some (line ++ NL ++ [0], rest).
Proof.
  intros Hin Hlen. unfold fgets. rewrite fgets_chars_line by (done || lia).
  rewrite <- app_assoc. by destruct line.
Qed.

Lemma base64_chars_no_newline n d : (List.length d <= n)%nat -> is_bytes d -> ~ In 10 (base64_chars d).
Proof.
  assert (Ha : forall k, 0 <= k < 64 -> alpha k <> 10).
  { intros k Hk. destruct (alpha_spec k Hk) as (_ & Hb & _). by apply is_final_blank_false in Hb as [_ Hb]. }
  revert d. induction n as [n IH] using lt_wf_ind. intros d Hn Hd.
  destruct d as [|d0 [|d1 [|d2 d]]].
  - simpl. tauto.
  - inversion Hd as [|? ? H0 _]; subst. destruct (sextet_bits d0 0 0 H0) as (E0 & E1 & _); [done | done |].
    rewrite Z.shiftr_0_l, Z.lor_0_r in E1. cbn [base64_chars In]. unfold is_byte in *.
    rewrite E0, E1. intros [H|[H|[H|[H|[]]]]]; revert H; try apply Ha; try done; modlia.
  - apply Forall_cons_1 in Hd as [H0 Hd]. apply Forall_cons_1 in Hd as [H1 _].
    destruct (sextet_bits d0 d1 0 H0 H1) as (E0 & E1 & E2 & _); [done|].
    rewrite Z.shiftr_0_l, Z.lor_0_r in E2. cbn [base64_chars In]. unfold is_byte in *.
    rewrite E0, E1, E2. intros [H|[H|[H|[H|[]]]]]; revert H; try apply Ha; try done; modlia.
  - apply Forall_cons_1 in Hd as [H0 Hd]. apply Forall_cons_1 in Hd as [H1 Hd]. apply Forall_cons_1 in Hd as [H2 Hd3].
    destruct (sextet_bits d0 d1 d2 H0 H1 H2) as (E0 & E1 & E2 & E3).
    cbn [base64_chars]. unfold ptls_base64_cell. rewrite in_app_iff, E0, E1, E2, E3. cbn [In].
    unfold is_byte in *. intros [[H|[H|[H|[H|[]]]]]|H]; [revert H; apply Ha; modlia..|].
    revert H. apply (IH (n - 3)%nat); simpl in *; [lia | lia | done].
Qed.

Lemma length_base64_chars n d : (List.length d <= n)%nat ->
  Z.of_nat (List.length (base64_chars d)) = ptls_base64_howlong (Z.of_nat (List.length d)).
Proof.
  unfold ptls_base64_howlong. revert d. induction n as [n IH] using lt_wf_ind. intros d Hn.
  destruct d as [|d0 [|d1 [|d2 d]]]; [done..|]. cbn [base64_chars]. rewrite length_app.
  change (List.length (ptls_base64_cell d0 d1 d2)) with 4%nat. simpl in Hn.
  rewrite Nat2Z.inj_add, (IH (n - 3)%nat) by lia. simpl List.length. modlia.
Qed.

Lemma base64_line_fgets d rest :
  is_bytes d -> (List.length d <= 186)%nat ->
  fgets ((base64_chars d ++ NL) ++ rest) = Some (base64_chars d ++ NL ++ [0], rest).
Proof.
  intros Hd Hl. rewrite <- app_assoc. apply fgets_line; [by eapply base64_chars_no_newline|].
  pose proof (length_base64_chars _ d (le_n _)) as E. unfold ptls_base64_howlong in E.
  assert (Z.of_nat (List.length (base64_chars d)) <= 248) by modlia. lia.
Qed.

Lemma base64_line_not_separator d word label :
  is_bytes d -> ptls_compare_separator_line (base64_chars d ++ NL ++ [0]) word label = Ok false.
Proof.
  intros Hd. destruct (base64_chars d) as [|c l] eqn:E; [by apply compare_separator_other|].
  destruct (base64_chars_head d c l E Hd) as (n & Hn & ->).
  apply compare_separator_other. by destruct (alpha_spec n Hn) as (_ & _ & _ & _ & ?).
Qed.

Lemma sep_fgets word label rest :
  wf_label label -> ~ In 10 word -> (List.length word <= 10)%nat ->
  fgets (pem_sep word label ++ NL ++ rest) = Some (pem_sep word label ++ NL ++ [0], rest).
Proof.
  intros [Hl Hn] Hw Hlw. apply fgets_line.
  - unfold pem_sep. rewrite !in_app_iff. simpl. intros H. repeat (destruct H as [H|H]); try done; tauto.
  - unfold pem_sep. rewrite !length_app. simpl List.length. lia.
Qed.

Lemma read_object_lines chunks label rest buf fuel :
  wf_label label -> wf_chunks chunks ->
  (List.length (pem_lines chunks ++ pem_sep (str "END") label ++ NL ++ rest) <= fuel)%nat ->
  read_object fuel (pem_lines chunks ++ pem_sep (str "END") label ++ NL ++ rest) label
    ptls_base64_decode_init (granted buf) = Ok (0, granted (buf ++ List.concat chunks), rest).
Proof.
  intros Hlab. revert buf fuel. induction chunks as [|d ds IH]; intros buf fuel Hwf Hf.
  - cbn [pem_lines map List.concat app] in *. destruct fuel as [|fuel]; [simpl in Hf; lia|].
    cbn [read_object]. rewrite sep_fgets; [|done | by vm_compute; naive_solver | simpl; lia].
    rewrite compare_separator_same. cbn [res_bind]. rewrite app_nil_r. done.
  - destruct Hwf as (Hd & Hl & Hm & Hwf). unfold pem_lines in *. cbn [map List.concat] in *.
    rewrite <- app_assoc in *. rewrite length_app in Hf. destruct fuel as [|fuel].
    { rewrite length_app in Hf. simpl in Hf. lia. }
    cbn [read_object]. rewrite base64_line_fgets by done.
    rewrite base64_line_not_separator by done. cbn [res_bind].
    destruct (base64_decode_line d NL buf Hd) as (st & Hdec & Hst); [by repeat constructor|].
    rewrite Hdec. cbn [res_bind]. change (0 =? 0) with true. cbv iota.
    rewrite length_app in Hf. change (List.length NL) with 1%nat in Hf.
    unfold line_state in Hst. destruct ds as [|d' ds].
    + cbn [map List.concat app] in *. destruct fuel as [|fuel]; [simpl in Hf; lia|].
      cbn [read_object]. rewrite sep_fgets; [|done | by vm_compute; naive_solver | simpl; lia].
      rewrite compare_separator_same. cbn [res_bind].
      destruct (List.length d mod 3 =? 0)%nat; rewrite ?app_nil_r.
      * by subst.
      * by rewrite Hst.
    + rewrite Hm in Hst by done. simpl in Hst. subst st.
      rewrite IH by (done || lia). by rewrite <- app_assoc.
Qed.

Lemma get_pem_object_spec chunks label rest :
  wf_label label -> wf_chunks chunks ->
  ptls_get_pem_object (pem_object label chunks ++ rest) label (granted []) = Ok (0, granted (List.concat chunks), rest).
Proof.
  intros Hlab Hwf. unfold ptls_get_pem_object, pem_object. rewrite <- !app_assoc.
  assert (Hf : exists k, List.length (pem_sep (str "BEGIN") label ++ NL ++ pem_lines chunks ++
                 pem_sep (str "END") label ++ NL ++ rest) = S k)
    by (rewrite length_app; unfold pem_sep; rewrite length_app; simpl; eauto).
  destruct Hf as [k ->]. cbn [find_begin].
  rewrite sep_fgets; [|done | by vm_compute; naive_solver | simpl; lia].
  rewrite compare_separator_same. cbn [res_bind].
  rewrite read_object_lines by (done || lia). done.
Qed.

Lemma load_loop_objects objs label list_max acc fuel :
  wf_label label -> Forall (fun chunks => wf_chunks chunks /\ List.concat chunks <> []) objs ->
  (List.length acc + List.length objs <= list_max)%nat -> (List.length objs < fuel)%nat ->
  exists ret, load_loop fuel [] (pem_file label objs) label list_max acc = Ok (ret, acc ++ map (@List.concat Z) objs)
    /\ (ret = 0 \/ ret = PTLS_ERROR_PEM_LABEL_NOT_FOUND).
Proof.
  intros Hlab Hobjs. revert acc fuel. induction Hobjs as [|chunks objs [Hwf Hne] _ IH]; intros acc fuel Hmax Hf.
  - cbn [map] in *. rewrite app_nil_r. destruct fuel as [|fuel]; [lia|]. cbn [load_loop].
    destruct (_ <? list_max)%nat; [|by eauto]. cbn. eauto.
  - simpl List.length in Hmax, Hf. destruct fuel as [|fuel]; [lia|]. cbn [load_loop].
    destruct (Nat.ltb_spec (List.length acc) list_max); [|lia].
    unfold pem_file. cbn [map List.concat]. change (mk_output [] []) with (granted []). rewrite get_pem_object_spec by done. cbn [res_bind].
    change (0 =? 0) with true. cbv iota. change (List.concat (map (pem_object label) objs)) with (pem_file label objs).
    destruct (IH (acc ++ [List.concat chunks]) fuel) as (ret & Hl & Hr); [rewrite length_app; simpl; lia | lia |].
    rewrite <- app_assoc in Hl. destruct (List.concat chunks) as [|b l] eqn:E; [done|].
    exists ret. split; [|done]. exact Hl.
Qed.

Lemma length_pem_file label objs : (List.length objs <= List.length (pem_file label objs))%nat.
Proof.
  induction objs as [|o objs IH]; [done|]. unfold pem_file in *. cbn [map List.concat List.length].
  rewrite length_app. unfold pem_object at 1, pem_sep at 1. rewrite !length_app. simpl. lia.
Qed.

(** ** Termination and memory safety on every input *)

Lemma skip_while_nul blank text :
  In 0 text -> res_post (fun r => In 0 r /\ (List.length r <= List.length text)%nat) (fun _ => False) (skip_while blank text).
Proof.
  induction text as [|c text IH]; intros Hin; [done|]. cbn [skip_while].
  destruct (Z.eqb_spec c 0) as [->|Hc]; [split; [by left | simpl; lia]|].
  destruct Hin as [->|Hin]; [done|]. destruct (blank c).
  - eapply res_post_mono; [by apply IH | | done]. simpl. intros r [? ?]. split; [done | lia].
  - split; [by right | simpl; lia].
Qed.

Lemma skip_to_nul_nul text : In 0 text -> exists rest, skip_to_nul text = Ok (0 :: rest).
Proof.
  induction text as [|c text IH]; intros Hin; [done|]. cbn [skip_to_nul].
  destruct (Z.eqb_spec c 0) as [->|Hc]; [by eauto|]. destruct Hin as [->|Hin]; [done | by apply IH].
Qed.

Lemma base64_value_safe c : exists v, base64_value c = Ok v.
Proof.
  unfold base64_value. destruct ((0 <? c) && (c <? 127)) eqn:E; [|by eauto]. b2p.
  destruct (lookup_lt_is_Some_2 ptls_base64_values (Z.to_nat c)) as [v ->]; [|by eauto].
  change (List.length ptls_base64_values) with 128%nat. lia.
Qed.

Lemma base64_turn_safe c text st :
  c <> 0 -> In 0 text ->
  res_post (fun t => match t with
                     | Continue st' text' => In 0 text' /\ (List.length text' <= List.length text)%nat
                     | _ => True
                     end) (fun _ => False) (base64_turn c text st).
Proof.
  intros Hc Hin. unfold base64_turn. destruct (base64_value_safe c) as [v ->]. cbn [res_bind].
  destruct (v =? -1); [|by simpl; split].
  destruct (_ && _ && _) eqn:E; [|destruct ((nbc st =? 3) && _); [by simpl; split|]].
  - b2p. destruct text as [|c' text]; [done|]. b2p. destruct Hin as [->|Hin]; [done|].
    simpl. split; [done | lia].
  - apply wp_bind. eapply res_post_mono; [apply skip_while_nul; by right | | done].
    intros r _. destruct r as [|[] ?]; done.
Qed.

(** The codes of the reader: memory is reported missing only if a push was refused. *)
Definition pem_code (pushes : list bool) (ret : Z) : Prop :=
  ret = 0 \/ ret = PTLS_ERROR_INCORRECT_BASE64 \/ ret = PTLS_ERROR_PEM_LABEL_NOT_FOUND \/
  ret = PTLS_ERROR_NO_MEMORY /\ In false pushes.

(** The outcomes of pushes are consumed, and a missing one explains the code. *)
Definition consumes (buf : output) (ret : Z) (buf' : output) : Prop :=
  incl (out_pushes buf') (out_pushes buf) /\ pem_code (out_pushes buf) ret.

Lemma consumes_refl buf ret : pem_code (out_pushes buf) ret -> consumes buf ret buf.
Proof. split; [apply incl_refl | done]. Qed.

Lemma consumes_trans buf buf' buf'' ret :
  incl (out_pushes buf') (out_pushes buf) -> consumes buf' ret buf'' -> consumes buf ret buf''.
Proof.
  unfold consumes, pem_code. intros Hi [Hi' Hc]. split; [by eapply incl_tran|]. specialize (Hi false). naive_solver.
Qed.

Lemma pushv_consumes buf src pushed buf' :
  out_pushv buf src = (pushed, buf') ->
  incl (out_pushes buf') (out_pushes buf) /\ (pushed = false -> In false (out_pushes buf)).
Proof.
  destruct buf as [data pushes]. unfold out_pushv. cbn [out_pushes out_data]. intros H.
  destruct src; [|destruct pushes as [|[|] pushes]]; injection H as <- <-;
    (split; [intros o; simpl; tauto | simpl; auto || done]).
Qed.

Lemma base64_loop_safe fuel text st buf :
  In 0 text -> (List.length text <= fuel)%nat ->
  res_post (fun '(ret, _, buf') => consumes buf ret buf') (fun _ => False) (base64_loop fuel text st buf).
Proof.
  revert text st buf. induction fuel as [|fuel IH]; intros text st buf Hin Hf; (destruct text as [|c text]; [done|]);
    [simpl in Hf; lia|]. cbn [base64_loop].
  assert (H0 : consumes buf 0 buf) by (apply consumes_refl; by left).
  destruct (Z.eqb_spec c 0) as [->|Hc]; [done|]. destruct Hin as [->|Hin]; [done|].
  destruct (_ || _); [done|]. apply wp_bind.
  eapply res_post_mono; [by apply base64_turn_safe | | done].
  intros [st' text' | |] Ht; [|done|apply consumes_refl; unfold pem_code; tauto]. destruct Ht as [Hin' Hlen]. simpl in Hf.
  destruct (nbc st' =? 4); [|apply IH; done || lia].
  destruct (out_pushv buf _) as [pushed buf'] eqn:E. apply pushv_consumes in E as [Hi Hp].
  destruct pushed; cbn [negb]; [|split; [done | unfold pem_code; tauto]].
  destruct (nbo st' <? 3).
  - destruct (skip_to_nul_nul text' Hin') as [rest ->]. split; [done | by left].
  - eapply res_post_mono; [apply IH; done || lia | | done]. intros [[ret st''] buf'']. by apply consumes_trans.
Qed.

Lemma base64_decode_safe text st buf :
  In 0 text ->
  res_post (fun '(ret, _, buf') => consumes buf ret buf') (fun _ => False) (ptls_base64_decode text st buf).
Proof.
  intros Hin. unfold ptls_base64_decode. apply wp_bind.
  eapply res_post_mono; [by apply skip_while_nul | | done]. intros r [Hr _]. by apply base64_loop_safe.
Qed.

Lemma starts_with_safe line s :
  In 0 line -> ~ In 0 s ->
  res_post (fun r => r = true -> In 0 (drop (List.length s) line)) (fun _ => False) (starts_with line s).
Proof.
  revert line. induction s as [|c s IH]; intros line Hl Hs; [by destruct line; intros _|].
  destruct line as [|d line]; [done|]. cbn [starts_with]. destruct (Z.eqb_spec c d) as [->|]; [|done].
  simpl in Hs. apply IH; [destruct Hl as [->|]; tauto | tauto].
Qed.

Lemma compare_separator_safe line word label :
  In 0 line -> ~ In 0 word -> ~ In 0 label ->
  res_post (fun _ => True) (fun _ => False) (ptls_compare_separator_line line word label).
Proof.
  intros Hl Hw Hlab. assert (Hd : ~ In 0 (str "-----")) by (vm_compute; naive_solver).
  assert (Hstep : forall line s (k : bool -> res bool), In 0 line -> ~ In 0 s ->
            (In 0 (drop (List.length s) line) -> res_post (fun _ => True) (fun _ => False) (k true)) ->
            res_post (fun _ => True) (fun _ => False) (k false) ->
            res_post (fun _ => True) (fun _ => False) (res_bind (starts_with line s) k)).
  { intros l s k H1 H2 Ht Hf. apply wp_bind. eapply res_post_mono; [by apply starts_with_safe | | done].
    intros [|] H; [by apply Ht, H | done]. }
  unfold ptls_compare_separator_line. apply Hstep; [done..| |done]. intros H1. apply Hstep; [done..| |done]. intros H2.
  cbn [negb]. change 5%nat with (List.length (str "-----")).
  destruct (drop (List.length word) _) as [|c l]; [done|]. cbn [rd lookup list_lookup res_bind].
  destruct (Z.eqb_spec c 32) as [->|]; [|done]. destruct H2 as [?|H2]; [done|].
  cbn [negb]. change (drop 1 (32 :: l)) with l. apply Hstep; [done..| |done]. intros H3.
  cbn [negb]. eapply res_post_mono; [by apply starts_with_safe | done..].
Qed.

Lemma fgets_chars_length n f : (List.length (snd (fgets_chars n f)) <= List.length f)%nat.
Proof.
  revert f. induction n as [|n IH]; intros [|c f]; simpl; try lia.
  destruct (c =? 10); [simpl; lia|]. specialize (IH f). destruct (fgets_chars n f). simpl in *. lia.
Qed.

Lemma fgets_some f line rest : fgets f = Some (line, rest) -> In 0 line /\ (List.length rest < List.length f)%nat.
Proof.
  unfold fgets. destruct f as [|c f]; [done|]. destruct (fgets_chars 255 (c :: f)) as [l r] eqn:E.
  intros [= <- <-]. split; [apply in_app_iff; right; by left|].
  change 255%nat with (S 254) in E. generalize dependent 254%nat. intros n E. cbn [fgets_chars] in E.
  destruct (c =? 10); [injection E as _ <-; simpl; lia|].
  pose proof (fgets_chars_length n f) as Hl. destruct (fgets_chars n f) as [l' r']. injection E as _ <-. simpl in *. lia.
Qed.

Lemma find_begin_safe fuel f label :
  ~ In 0 label -> (List.length f <= fuel)%nat ->
  res_post (fun '(found, rest) => if found : bool then (List.length rest < List.length f)%nat else True) (fun _ => False)
    (find_begin fuel f label).
Proof.
  intros Hlab. revert f. induction fuel as [|fuel IH]; intros f Hf; cbn [find_begin];
    destruct (fgets f) as [[line rest]|] eqn:E; try done; apply fgets_some in E as [Hl Hr]; [lia|].
  apply wp_bind. eapply res_post_mono; [apply compare_separator_safe; [done | by vm_compute; naive_solver | done] | | done].
  intros [|] _; [done|]. eapply res_post_mono; [apply IH; lia | | done]. intros [[|] r]; simpl; [lia|done].
Qed.

Lemma read_object_safe fuel f label st buf :
  ~ In 0 label -> (List.length f <= fuel)%nat ->
  res_post (fun '(ret, buf', rest) => consumes buf ret buf' /\ (List.length rest <= List.length f)%nat) (fun _ => False)
    (read_object fuel f label st buf).
Proof.
  intros Hlab. revert f st buf. induction fuel as [|fuel IH]; intros f st buf Hf; cbn [read_object];
    (assert (H0 : forall ret, pem_code (out_pushes buf) ret -> consumes buf ret buf) by apply consumes_refl); unfold pem_code in H0;
    destruct (fgets f) as [[line rest]|] eqn:E; try (split; [apply H0; tauto | lia]); apply fgets_some in E as [Hl Hr]; [lia|].
  apply wp_bind. eapply res_post_mono; [apply compare_separator_safe; [done | by vm_compute; naive_solver | done] | | done].
  intros [|] _; [destruct (_ || _); (split; [apply H0; tauto | lia])|].
  apply wp_bind. eapply res_post_mono; [by apply base64_decode_safe | | done].
  intros [[ret st'] buf'] Hret. destruct (ret =? 0) eqn:E0; [|split; [done | lia]].
  eapply res_post_mono; [apply IH; lia | | done]. intros [[r b] rest'] [? ?]. split; [|lia].
  destruct Hret. by eapply consumes_trans.
Qed.

Lemma get_pem_object_safe f label buf :
  ~ In 0 label ->
  res_post (fun '(ret, buf', rest) => consumes buf ret buf' /\ (ret = 0 -> (List.length rest < List.length f)%nat)) (fun _ => False)
    (ptls_get_pem_object f label buf).
Proof.
  intros Hlab. unfold ptls_get_pem_object. apply wp_bind.
  eapply res_post_mono; [by apply find_begin_safe | | done]. intros [[|] rest] Hr.
  - eapply res_post_mono; [by apply read_object_safe | | done]. intros [[r b] rest'] [? ?]. split; [done | lia].
  - split; [apply consumes_refl; unfold pem_code; tauto | done].
Qed.

Lemma load_loop_safe fuel pushes f label list_max acc :
  ~ In 0 label -> (List.length f < fuel)%nat -> (List.length acc <= list_max)%nat -> Forall (fun o => o <> []) acc ->
  res_post (fun '(ret, objs) => pem_code pushes ret /\ (List.length objs <= list_max)%nat /\ Forall (fun o => o <> []) objs
                                /\ (ret = 0 -> List.length objs = list_max))
    (fun _ => False) (load_loop fuel pushes f label list_max acc).
Proof.
  intros Hlab. revert pushes f acc. induction fuel as [|fuel IH]; intros pushes f acc Hf Hmax Hne; [lia|]. cbn [load_loop].
  destruct (Nat.ltb_spec (List.length acc) list_max); [|simpl; unfold pem_code; split_and!; tauto || lia].
  apply wp_bind. eapply res_post_mono; [by apply get_pem_object_safe | | done].
  intros [[ret buf] rest] [[Hi Hc] Hlt]. destruct (Z.eqb_spec ret 0); [|simpl; split_and!; done || lia].
  specialize (Hlt e). eapply res_post_mono; [apply IH; [lia | |] | | done].
  - destruct (out_data buf); simpl; rewrite ?length_app; simpl; lia.
  - destruct (out_data buf); simpl; [done|]. apply Forall_app. split; [done | by repeat constructor].
  - intros [r objs] (Hr & Hrest). split; [|done]. unfold pem_code in *. specialize (Hi false). cbn [out_pushes] in Hi. naive_solver.
Qed.

(** ** Refused memory

    Unless a refused push is reported, everything is as if no push had been refused. *)

Lemma pushv_unrefused buf src buf' :
  out_pushv buf src = (true, buf') -> out_pushv (granted (out_data buf)) src = (true, granted (out_data buf')).
Proof.
  intros H. rewrite pushv_granted. destruct buf as [data pushes]. unfold out_pushv in H. cbn [out_data out_pushes] in *.
  destruct src; [|destruct pushes as [|[|] pushes]]; try discriminate H; injection H as <-; by rewrite ?app_nil_r.
Qed.

Lemma base64_loop_unrefused fuel text st buf ret st' buf' :
  base64_loop fuel text st buf = Ok (ret, st', buf') -> ret <> PTLS_ERROR_NO_MEMORY ->
  base64_loop fuel text st (granted (out_data buf)) = Ok (ret, st', granted (out_data buf')).
Proof.
  intros H Hret. revert text st buf H. induction fuel as [|fuel IH]; intros [|c text] st buf; cbn [base64_loop]; try done;
    (destruct (_ || _); [by intros [= <- <- <-]|]); [done|].
  destruct (base64_turn c text st) as [[st1 text1 | |]|?|?]; cbn [res_bind]; try done; try (by intros [= <- <- <-]).
  destruct (nbc st1 =? 4); [|apply IH].
  destruct (out_pushv buf _) as [[|] buf1] eqn:E; cbn [negb]; [|by intros [= <- _ _]]. apply pushv_unrefused in E. rewrite E. cbn [negb].
  destruct (nbo st1 <? 3); [|apply IH].
  destruct (skip_to_nul text1) as [[|[] rest]|?|?]; cbn [res_bind]; try done; by intros [= <- <- <-].
Qed.

Lemma read_object_unrefused fuel f label st buf ret buf' rest :
  read_object fuel f label st buf = Ok (ret, buf', rest) -> ret <> PTLS_ERROR_NO_MEMORY ->
  read_object fuel f label st (granted (out_data buf)) = Ok (ret, granted (out_data buf'), rest).
Proof.
  intros H Hret. revert f st buf H. induction fuel as [|fuel IH]; intros f st buf; cbn [read_object];
    destruct (fgets f) as [[line rest']|]; try done; try (by intros [= <- <- <-]).
  destruct (ptls_compare_separator_line _ _ _) as [[|]|?|?]; cbn [res_bind]; try done.
  - destruct (_ || _); by intros [= <- <- <-].
  - destruct (ptls_base64_decode line st buf) as [[[ret1 st1] buf1]|?|?] eqn:E; cbn [res_bind]; try done.
    intros H. assert (E' : ptls_base64_decode line st (granted (out_data buf)) = Ok (ret1, st1, granted (out_data buf1))).
    { assert (ret1 <> PTLS_ERROR_NO_MEMORY) by (intros ->; by injection H as <- _ _).
      unfold ptls_base64_decode in *. destruct (skip_while _ line); cbn [res_bind] in *; [|done..]. by apply base64_loop_unrefused. }
    rewrite E'. cbn [res_bind]. destruct (ret1 =? 0); [by apply IH|]. by injection H as <- <- <-.
Qed.

Lemma load_loop_unrefused fuel pushes f label list_max acc ret objs :
  load_loop fuel pushes f label list_max acc = Ok (ret, objs) -> ret <> PTLS_ERROR_NO_MEMORY ->
  load_loop fuel [] f label list_max acc = Ok (ret, objs).
Proof.
  intros H Hret. revert pushes f acc H. induction fuel as [|fuel IH]; intros pushes f acc; cbn [load_loop];
    (destruct (_ <? _)%nat; [|done]); [done|].
  destruct (ptls_get_pem_object f label (mk_output [] pushes)) as [[[ret1 buf1] rest]|?|?] eqn:E; cbn [res_bind]; try done.
  intros H. assert (E' : ptls_get_pem_object f label (granted []) = Ok (ret1, granted (out_data buf1), rest)).
  { assert (ret1 <> PTLS_ERROR_NO_MEMORY) by (intros ->; by injection H as <- _).
    unfold ptls_get_pem_object in *. destruct (find_begin _ _ _) as [[[|] f1]|?|?]; cbn [res_bind] in *; try done.
    - by apply (read_object_unrefused _ _ _ _ (mk_output [] pushes)).
    - by injection E as <- <- <-. }
  change (mk_output [] []) with (granted []). rewrite E'. cbn [res_bind granted out_data out_pushes].
  destruct (ret1 =? 0); [by eapply IH | done].
Qed.

(** ** Properties *)

(** [ptls_base64_decode] inverts [ptls_base64_encode]: from a fresh decoder
    the text of any octet string is accepted, exactly the string is appended to
    the buffer, and the number of characters written is the one
    [ptls_base64_howlong] announces plus the terminator. *)
Theorem base64_roundtrip d buf :
  is_bytes d ->
  snd (ptls_base64_encode d) = ptls_base64_howlong (Z.of_nat (List.length d)) + 1 /\
  exists st, ptls_base64_decode (fst (ptls_base64_encode d)) ptls_base64_decode_init (granted buf) = Ok (0, st, granted (buf ++ d))
             /\ status st <> PTLS_BASE64_DECODE_FAILED.
Proof.
  intros Hd. unfold ptls_base64_encode. cbn [fst snd]. split.
  - rewrite length_app, Nat2Z.inj_add, (length_base64_chars (List.length d)) by lia. done.
  - destruct (base64_decode_line d [] buf Hd) as (st & Hst & Hl); [done|]. exists st. split; [done|].
    unfold line_state in Hl. destruct (_ =? _)%nat; [by subst | by rewrite Hl].
Qed.

Lemma base64_roundtrip_witness :
  exists st, ptls_base64_decode (fst (ptls_base64_encode [0; 255; 7; 9])) ptls_base64_decode_init (granted [1])
             = Ok (0, st, granted [1; 0; 255; 7; 9]).
Proof.
  destruct (base64_roundtrip [0; 255; 7; 9] [1]) as [_ (st & H & _)]; [by repeat constructor | eauto].
Defined.

Lemma load_pem_file label objs list_max :
  wf_label label -> Forall (fun chunks => wf_chunks chunks /\ List.concat chunks <> []) objs ->
  objs <> [] -> (List.length objs <= list_max)%nat ->
  ptls_load_pem_objects [] (Some (pem_file label objs)) label list_max = Ok (0, map (@List.concat Z) objs).
Proof.
  intros Hlab Hobjs Hne Hmax. unfold ptls_load_pem_objects.
  destruct (load_loop_objects objs label list_max [] (S (List.length (pem_file label objs))))
    as (ret & -> & Hr); [done | done | done | pose proof (length_pem_file label objs); lia |].
  destruct objs; [done|]. cbn. destruct Hr as [-> | ->]; done.
Qed.

(** C34: [ptls_load_pem_objects] recovers every object of a PEM file, in order:
    for at most [list_max] objects written line by line in base64 between BEGIN and
    END lines. A line has up to 248 characters, four for every three octets (only the
    last line of an object may end with a padded quantum), the label up to 200
    characters and no newline; the memory the buffers need is granted. *)
Theorem pem_roundtrip label objs list_max :
  wf_label label -> Forall (fun chunks => wf_chunks chunks /\ List.concat chunks <> []) objs ->
  objs <> [] -> (List.length objs <= list_max)%nat ->
  ptls_load_pem_objects [] (Some (pem_file label objs)) label list_max = Ok (0, map (@List.concat Z) objs).
Proof. apply load_pem_file. Qed.

Lemma pem_roundtrip_witness :
  ptls_load_pem_objects [] (Some (pem_file (str "KEY") [[[1; 2; 3]; [4; 5]]; [[6]]])) (str "KEY") 16
  = Ok (0, [[1; 2; 3; 4; 5]; [6]]).
Proof.
  apply (pem_roundtrip (str "KEY") [[[1; 2; 3]; [4; 5]]; [[6]]] 16%nat).
  - vm_compute. split; [lia | naive_solver].
  - repeat constructor; try done; vm_compute; lia.
  - done.
  - simpl. lia.
Defined.

(** C35: for every label that is a C string (without the character 0), whatever the
    file holds and whichever pushes to the buffers are refused memory,
    [ptls_load_pem_objects] terminates without reading outside of a line and returns
    one of five codes: 0, [PTLS_ERROR_INCORRECT_BASE64],
    [PTLS_ERROR_PEM_LABEL_NOT_FOUND], [PTLS_ERROR_NO_MEMORY] (only if a push was
    refused) or -1 (exactly if the file cannot be opened). It gives at most [list_max] objects,
    none of them empty; if [list_max] is positive, success gives at least one. Unless
    it reports [PTLS_ERROR_NO_MEMORY], the result is the one with all memory granted. *)
Theorem load_pem_total pushes file label list_max :
  ~ In 0 label ->
  exists ret objs, ptls_load_pem_objects pushes file label list_max = Ok (ret, objs) /\
    match file with None => ret = -1 /\ objs = [] | Some _ => pem_code pushes ret end /\
    (List.length objs <= list_max)%nat /\ Forall (fun o => o <> []) objs /\
    (ret = 0 -> (0 < list_max)%nat -> objs <> []) /\
    (ret <> PTLS_ERROR_NO_MEMORY -> ptls_load_pem_objects [] file label list_max = Ok (ret, objs)).
Proof.
  intros Hlab. destruct file as [f|]; [|exists (-1), []; simpl; split_and!; tauto || lia || done].
  unfold ptls_load_pem_objects. pose proof (load_loop_safe (S (List.length f)) pushes f label list_max [] Hlab) as H.
  pose proof (load_loop_unrefused (S (List.length f)) pushes f label list_max []) as Hg.
  destruct (load_loop _ pushes _ _ _ _) as [[ret objs]|c|ft]; cbn [res_bind res_post] in *; [|exfalso; apply H; simpl; done || lia..].
  destruct H as (Hc & Hl & Hne & H0); [lia | simpl; lia | done |]. specialize (Hg ret objs eq_refl).
  eexists _, _. split; [done|]. destruct (_ && _) eqn:E.
  - b2p. split_and!; [by left | done | done | intros _ _ ->; simpl in *; lia |]. intros _. rewrite Hg by (subst; discriminate).
    subst ret. cbn [res_bind]. destruct objs; [simpl in *; lia | done].
  - split_and!; [done | done | done | intros E0 Hm ->; specialize (H0 E0); simpl in H0; lia |].
    intros Hr. rewrite Hg by done. cbn [res_bind]. by rewrite E.
Qed.

(** The second quantum of the object is refused memory. *)
Lemma load_pem_total_witness :
  ptls_load_pem_objects [true; false] (Some (pem_file (str "KEY") [[[1; 2; 3; 4; 5]]])) (str "KEY") 16 = Ok (PTLS_ERROR_NO_MEMORY, []) /\
  pem_code [true; false] PTLS_ERROR_NO_MEMORY.
Proof.
  destruct (load_pem_total [true; false] (Some (pem_file (str "KEY") [[[1; 2; 3; 4; 5]]])) (str "KEY") 16%nat)
    as (ret & objs & H & Hc & _); [vm_compute; naive_solver|].
  assert (E : ptls_load_pem_objects [true; false] (Some (pem_file (str "KEY") [[[1; 2; 3; 4; 5]]])) (str "KEY") 16
              = Ok (PTLS_ERROR_NO_MEMORY, [])) by (vm_compute; reflexivity).
  rewrite E in H. injection H as <- <-. by split.
Defined.

(** A padded quantum ends the object whatever follows it on the line: the loop
    that looks for trailing blanks does not test the characters. *)
Example base64_garbage_after_padding :
  exists st, ptls_base64_decode (str "QQ==!garbage*" ++ [0]) ptls_base64_decode_init (granted []) = Ok (0, st, granted (str "A")).
Proof. eexists. vm_compute. reflexivity. Qed.

(** A PEM file cut before its END line, in the middle of a quantum, is read
    without an error. *)
Example pem_truncated_accepted :
  ptls_load_certificates true [] (Some (str "-----BEGIN CERTIFICATE-----" ++ [10] ++ str "QUJDRE")) = Ok (0, Some [str "ABC"]).
Proof. vm_compute. reflexivity. Qed.
