(* ===== verification/Asn1.v ===== *)
(** * Asn1: validation of BER and DER structures

    [src/lib/asn1.c]. An object in memory is the list [mem]; the argument [bytes] of
    a function is an offset [p] into it. Sizes and indices are [Z]: objects are
    smaller than 2^63 octets, so that the sums of [size_t] do not wrap, while the
    [uint32_t] type numbers and lengths do. The functions write to [*decode_error]
    and to the log, which are the state. *)
From S2P Require Import Prelude Constants Monad.

(** One call of [log_ctx->fn]: the format and its arguments. *)
Inductive log_arg := LStr (s : bytes) | LInt (v : Z).
Record log_call := mk_log { lc_format : bytes; lc_args : list log_arg }.

(** [a_log] is [None] for [log_ctx == NULL]. *)
Record asn1_state := mk_asn1 { a_decode_error : Z; a_log : option (list log_call) }.
#[export] Instance eta_asn1 : Eta asn1_state := fun r => mk_asn1 (a_decode_error r) (a_log r).

Notation MA := (M asn1_state).

(** [if (log_ctx != NULL) m] *)
Definition logging (m : MA unit) : MA unit :=
  do! l := gets a_log in match l with Some _ => m | None => ret tt end.
(** [log_ctx->fn(log_ctx->ctx, format, args...)] *)
Definition log_fn (format : bytes) (args : list log_arg) : MA unit :=
  do! l := gets a_log in
  match l with
  | Some l => modify (fun s => s <| a_log := Some (l ++ [mk_log format args]) |>)
  | None => undefined NullDeref
  end.
(** The end of a line. *)
Definition lf : bytes := [10].
(** [*decode_error = code] *)
Definition set_error (code : Z) : MA unit := modify (fun s => s <| a_decode_error := code |>).
(** A conversion to [int]. *)
Definition to_int32 (v : Z) : Z := let v := u32 v in if v <? 2 ^ 31 then v else v - 2 ^ 32.

Definition asn1_type_classes : list bytes := [str "Universal"; str "Application"; str "Context-specific"; str "Private"].

Definition asn1_universal_types : list bytes :=
  [str "End-of-Content"; str "BOOLEAN"; str "INTEGER"; str "BIT STRING"; str "OCTET STRING"; str "NULL";
   str "OBJECT IDENTIFIER"; str "Object Descriptor"; str "EXTERNAL"; str "REAL"; str "ENUMERATED"; str "EMBEDDED PDV";
   str "UTF8String"; str "RELATIVE-OID"; str "Reserved (16)"; str "Reserved (17)"; str "SEQUENCE"; str "SET";
   str "NumericString"; str "PrintableString"; str "T61String"; str "VideotexString"; str "IA5String"; str "UTCTime";
   str "GeneralizedTime"; str "GraphicString"; str "VisibleString"; str "GeneralString"; str "UniversalString"; str "CHARACTER STRING";
   str "BMPString"].

Fixpoint times (n : nat) (m : MA unit) : MA unit := match n with O => ret tt | S n => m ;;; times n m end.

Definition ptls_asn1_print_indent (level : Z) : MA unit := times (Z.to_nat (level + 1)) (log_fn (str "   ") []).

Definition ptls_asn1_error_message (error_label : String.string) (bytes_max byte_index level : Z) : MA Z :=
  logging (ptls_asn1_print_indent level ;;;
           log_fn (str "Error: %s (near position: %d (0x%x) out of %d)")
             [LStr (str error_label); LInt (to_int32 byte_index); LInt (u32 byte_index); LInt (to_int32 bytes_max)]) ;;;
  ret byte_index.

Section Bytes.
Variable mem : bytes.

(** [bytes[i]] for [bytes = mem + p] *)
Definition at_ (p i : Z) : MA Z := if p + i <? 0 then undefined OutOfBounds else lift (rd mem (Z.to_nat (p + i))).

Fixpoint dump_loop (n : nat) (p i nb_bytes : Z) : MA unit :=
  match n with
  | O => ret tt
  | S n =>
      if i <? nb_bytes then
        do! b := at_ p i in
        log_fn (str "%02x") [LInt b] ;;; dump_loop n p (i + 1) nb_bytes
      else ret tt
  end.

Definition ptls_asn1_dump_content (p bytes_max byte_index : Z) : MA unit :=
  logging (when (byte_index <? bytes_max)
    (let nb_bytes := bytes_max - byte_index in
     log_fn (str " ") [] ;;;
     dump_loop 16 (p + byte_index) 0 nb_bytes ;;;
     when (16 <? nb_bytes) (log_fn (str "...") []))).

(** The loop over the octets of a long type; the result is [byte_index] and the
    type number if its last octet was found. The fuel bounds the octets. *)
Fixpoint long_type_loop (fuel : nat) (p bytes_max byte_index long_type : Z) : MA (Z * option Z) :=
  if (byte_index <? bytes_max) && (long_type <=? 0x7FFFFFFF) then
    match fuel with
    | O => undefined OutOfFuel
    | S fuel =>
        do! next_byte := at_ p byte_index in
        let long_type := Z.lor (u32 (Z.shiftl long_type 7)) (Z.land next_byte 127) in
        if Z.land next_byte 128 =? 0 then ret (byte_index + 1, Some long_type)
        else long_type_loop fuel p bytes_max (byte_index + 1) long_type
    end
  else ret (byte_index, None).

(** [byte_index], [structure_bit], [type_class] and [type_number] *)
Definition ptls_asn1_read_type (p bytes_max level : Z) : MA (Z * bool * Z * Z) :=
  do! first_byte := at_ p 0 in
  let structure_bit := negb (Z.land (Z.shiftr first_byte 5) 1 =? 0) in
  let type_class := Z.land (Z.shiftr first_byte 6) 3 in
  let type_number := Z.land first_byte 31 in
  if type_number =? 31 then
    do! '(byte_index, found) := long_type_loop (Z.to_nat bytes_max) p bytes_max 1 0 in
    match found with
    | Some type_number => ret (byte_index, structure_bit, type_class, type_number)
    | None =>
        do! byte_index := ptls_asn1_error_message "Incorrect type coding" bytes_max byte_index level in
        set_error PTLS_ERROR_BER_MALFORMED_TYPE ;;;
        ret (byte_index, structure_bit, type_class, type_number)
    end
  else ret (1, structure_bit, type_class, type_number).

Definition ptls_asn1_print_type (type_class type_number level : Z) : MA unit :=
  ptls_asn1_print_indent level ;;;
  if (type_class =? 0) && (type_number <? Z.of_nat (length asn1_universal_types)) then
    match asn1_universal_types !! Z.to_nat type_number with
    | Some name => log_fn (str "%s") [LStr name]
    | None => undefined OutOfBounds
    end
  else if type_class =? 2 then log_fn (str "[%d]") [LInt (to_int32 type_number)]
  else
    match asn1_type_classes !! Z.to_nat type_class with
    | Some name => log_fn (str "%s[%d]") [LStr name; LInt (to_int32 type_number)]
    | None => undefined OutOfBounds
    end.

(** [for (int i = 0; i < n && byte_index < bytes_max; i++)] *)
Fixpoint length_loop (n : nat) (p bytes_max byte_index length : Z) : MA (Z * Z) :=
  match n with
  | O => ret (byte_index, length)
  | S n =>
      if byte_index <? bytes_max then
        do! b := at_ p byte_index in
        length_loop n p bytes_max (byte_index + 1) (Z.lor (u32 (Z.shiftl length 8)) b)
      else ret (byte_index, length)
  end.

(** [byte_index], [length], [indefinite_length] and [last_byte] *)
Definition ptls_asn1_read_length (p bytes_max byte_index level : Z) : MA (Z * Z * bool * Z) :=
  if byte_index <? bytes_max then
    do! b := at_ p byte_index in
    let byte_index := byte_index + 1 in
    do! '(byte_index, length, indefinite_length, last_byte) :=
      (if negb (Z.land b 128 =? 0) then
         let length_of_length := Z.land b 127 in
         if bytes_max <=? byte_index + length_of_length then
           do! byte_index := ptls_asn1_error_message "Incorrect length coding" bytes_max byte_index level in
           set_error PTLS_ERROR_BER_MALFORMED_LENGTH ;;;
           ret (byte_index, 0, false, bytes_max)
         else
           do! '(byte_index, length) := length_loop (Z.to_nat length_of_length) p bytes_max byte_index 0 in
           if length_of_length =? 0 then ret (byte_index, length, true, bytes_max)
           else ret (byte_index, length, false, byte_index + length)
       else ret (byte_index, b, false, byte_index + b)) in
    do! error := gets a_decode_error in
    if (error =? 0) && (bytes_max <? last_byte) then
      do! byte_index := ptls_asn1_error_message "Length larger than message" bytes_max byte_index level in
      set_error PTLS_ERROR_BER_EXCESSIVE_LENGTH ;;;
      ret (byte_index, length, indefinite_length, last_byte)
    else ret (byte_index, length, indefinite_length, last_byte)
  else ret (byte_index, 0, false, bytes_max).

(** The result of a function that may leave [*length] and [*last_byte] as they
    were: [None]. The argument [indefinite_length] is [NULL] for a caller that wants
    DER; the flag is returned otherwise. *)
Definition ptls_asn1_get_expected_type_and_length (p bytes_max byte_index expected_type : Z) (wants_indefinite : bool)
    : MA (Z * option (Z * bool * Z)) :=
  do! b := at_ p byte_index in
  if negb (b =? expected_type) then
    do! byte_index := ptls_asn1_error_message "Unexpected type" bytes_max byte_index 0 in
    set_error PTLS_ERROR_INCORRECT_ASN1_SYNTAX ;;;
    ret (byte_index, None)
  else
    do! '(byte_index, length, is_indefinite, last_byte) := ptls_asn1_read_length p bytes_max (byte_index + 1) 0 in
    if negb wants_indefinite && is_indefinite then
      do! byte_index := ptls_asn1_error_message "Incorrect length for DER" bytes_max byte_index 0 in
      set_error PTLS_ERROR_DER_INDEFINITE_LENGTH ;;;
      ret (byte_index, Some (length, is_indefinite, last_byte))
    else ret (byte_index, Some (length, is_indefinite, last_byte)).

(** The loop over the elements of a structure; [element p bytes_max level] is the
    recursive call. *)
Fixpoint structure_loop (element : Z -> Z -> Z -> MA Z) (fuel : nat) (p bytes_max last_byte : Z) (indefinite_length : bool)
    (level byte_index : Z) : MA Z :=
  if byte_index <? last_byte then
    match fuel with
    | O => undefined OutOfFuel
    | S fuel =>
        do! b := (if indefinite_length then at_ p byte_index else ret 1) in
        if indefinite_length && (b =? 0) then
          do! unexpected := (if bytes_max <? byte_index + 2 then ret true
                             else do! b := at_ p (byte_index + 1) in ret (negb (b =? 0))) in
          if (unexpected : bool) then
            do! _ := ptls_asn1_error_message "EOC: unexpected end of content" bytes_max byte_index (level + 1) in
            set_error PTLS_ERROR_BER_UNEXPECTED_EOC ;;;
            ret bytes_max
          else
            logging (ptls_asn1_print_indent level ;;; log_fn (str "EOC" ++ lf) []) ;;;
            ret (byte_index + 2)
        else
          do! n := element (p + byte_index) (last_byte - byte_index) (level + 1) in
          let byte_index := byte_index + n in
          do! error := gets a_decode_error in
          if negb (error =? 0) then ret bytes_max
          else
            logging (when (byte_index <? last_byte) (log_fn (str ",") []) ;;; log_fn lf []) ;;;
            structure_loop element fuel p bytes_max last_byte indefinite_length level byte_index
    end
  else ret byte_index.

Fixpoint ptls_asn1_validation_recursive (fuel : nat) (p bytes_max level : Z) : MA Z :=
  match fuel with
  | O => undefined OutOfFuel
  | S fuel =>
      do! '(byte_index, structure_bit, type_class, type_number) := ptls_asn1_read_type p bytes_max level in
      do! error := gets a_decode_error in
      when (error =? 0) (logging (ptls_asn1_print_type type_class type_number level)) ;;;
      do! '(byte_index, length, indefinite_length, last_byte) := ptls_asn1_read_length p bytes_max byte_index level in
      if last_byte <=? bytes_max then
        if (structure_bit : bool) then
          logging (log_fn (str " {" ++ lf) []) ;;;
          do! byte_index := structure_loop (ptls_asn1_validation_recursive fuel) (Z.to_nat bytes_max) p bytes_max last_byte
                              indefinite_length level byte_index in
          logging (ptls_asn1_print_indent level ;;; log_fn (str "}") []) ;;;
          ret byte_index
        else
          ptls_asn1_dump_content p last_byte byte_index ;;;
          ret last_byte
      else ret byte_index
  end.
End Bytes.

(** [*decode_error] at the end is the result. *)
Definition ptls_asn1_validation (mem : bytes) : MA Z :=
  let length := Z.of_nat (length mem) in
  set_error 0 ;;;
  do! decoded := ptls_asn1_validation_recursive mem (S (Z.to_nat length)) 0 length 0 in
  do! decode_error := gets a_decode_error in
  if (decode_error =? 0) && (decoded <? length) then
    set_error PTLS_ERROR_BER_ELEMENT_TOO_SHORT ;;;
    logging (log_fn (str "Type too short, %d bytes only out of %d" ++ lf) [LInt (to_int32 decoded); LInt (to_int32 length)]) ;;;
    ret PTLS_ERROR_BER_ELEMENT_TOO_SHORT
  else ret decode_error.

(** ** Safety

    No function reads outside of the octets it was given, and every loop and
    recursion ends. The log is written only when there is one. *)

(** Same error, and a log if and only if there was one. *)
Definition same_error (s s' : asn1_state) : Prop :=
  a_decode_error s' = a_decode_error s /\ (is_Some (a_log s') <-> is_Some (a_log s)).

Definition ber_error (c : Z) : Prop :=
  c = PTLS_ERROR_BER_MALFORMED_TYPE \/ c = PTLS_ERROR_BER_MALFORMED_LENGTH \/ c = PTLS_ERROR_BER_EXCESSIVE_LENGTH \/
  c = PTLS_ERROR_BER_UNEXPECTED_EOC.

(** The error is as it was, or one of those of the validation. *)
Definition error_step (s s' : asn1_state) : Prop :=
  (a_decode_error s' = a_decode_error s \/ ber_error (a_decode_error s')) /\ (is_Some (a_log s') <-> is_Some (a_log s)).

#[export] Instance same_error_refl : Reflexive same_error.
Proof. by intros s. Qed.
#[export] Instance same_error_trans : Transitive same_error.
Proof. intros s1 s2 s3 [H1 H2] [H3 H4]. split; [congruence | tauto]. Qed.
#[export] Instance error_step_refl : Reflexive error_step.
Proof. intros s. split; [by left | done]. Qed.
#[export] Instance error_step_trans : Transitive error_step.
Proof. intros s1 s2 s3 [[H1|H1] H2] [[H3|H3] H4]; (split; [|tauto]); rewrite ?H3, ?H1; auto. Qed.

Lemma same_error_step s s' : same_error s s' -> error_step s s'.
Proof. intros [H1 H2]. split; auto. Qed.
#[export] Hint Resolve same_error_step : core.

Lemma error_step_set s s' code :
  a_decode_error s' = code -> ber_error code -> (is_Some (a_log s') <-> is_Some (a_log s)) -> error_step s s'.
Proof. intros <- ? ?. split; auto. Qed.
Ltac ber := unfold ber_error; tauto.

(** Errors are values of [*decode_error]; no function leaves by a code. *)
Definition never (_ : Z) (_ : asn1_state) : Prop := False.

Section Logging.
Implicit Types s : asn1_state.

Lemma log_fn_ok format args s : is_Some (a_log s) -> wpm (log_fn format args) (fun _ s' => same_error s s') never s.
Proof. intros [l Hl]. unfold log_fn, wpm, bind, gets. rewrite Hl. cbn. split; [done|]. split; eauto. Qed.

Lemma seq_ok {A} (m : MA unit) (k : MA A) s :
  is_Some (a_log s) -> wpm m (fun _ s' => same_error s s') never s ->
  (forall s, is_Some (a_log s) -> wpm k (fun _ s' => same_error s s') never s) ->
  wpm (m ;;; k) (fun _ s' => same_error s s') never s.
Proof.
  intros Hs Hm Hk. apply wpm_bind. eapply wpm_mono; [exact Hm | | done]. intros [] s1 H1.
  eapply wpm_mono; [apply Hk; by apply H1 | | done]. intros a s2 H2. by etrans.
Qed.

Lemma times_ok n m s :
  is_Some (a_log s) -> (forall s, is_Some (a_log s) -> wpm m (fun _ s' => same_error s s') never s) ->
  wpm (times n m) (fun _ s' => same_error s s') never s.
Proof.
  revert s. induction n as [|n IH]; intros s Hs Hm; cbn [times]; [by apply wpm_ret|]. apply seq_ok; auto.
Qed.

Lemma print_indent_ok level s : is_Some (a_log s) -> wpm (ptls_asn1_print_indent level) (fun _ s' => same_error s s') never s.
Proof. intros Hs. apply times_ok; [done|]. intros. by apply log_fn_ok. Qed.

Lemma logging_ok m s :
  (forall s, is_Some (a_log s) -> wpm m (fun _ s' => same_error s s') never s) ->
  wpm (logging m) (fun _ s' => same_error s s') never s.
Proof.
  intros Hm. unfold logging. apply wpm_bind, wpm_gets. destruct (a_log s) eqn:E; [apply Hm; by rewrite E | by apply wpm_ret].
Qed.

Lemma error_message_ok label bytes_max i level s :
  wpm (ptls_asn1_error_message label bytes_max i level) (fun i' s' => i' = i /\ same_error s s') never s.
Proof.
  apply wpm_bind. eapply wpm_mono; [apply logging_ok | | done].
  - intros s1 Hs1. apply seq_ok; [done | by apply print_indent_ok | intros; by apply log_fn_ok].
  - intros [] s' Hs'. by apply wpm_ret.
Qed.

(** An error message followed by the assignment of a code. *)
Lemma error_case {A} label bytes_max i level code s (k : Z -> MA A) (Q : A -> asn1_state -> Prop) :
  (forall s', a_decode_error s' = code -> (is_Some (a_log s') <-> is_Some (a_log s)) -> wpm (k i) Q never s') ->
  wpm (do! i' := ptls_asn1_error_message label bytes_max i level in set_error code ;;; k i') Q never s.
Proof.
  intros Hk. apply wpm_bind. eapply wpm_mono; [apply error_message_ok | | done]. intros i' s1 [-> [_ Hl]].
  apply wpm_bind, wpm_modify. by apply Hk.
Qed.
End Logging.

Ltac step_by H := eapply wpm_mono; [apply H | | done].

Section Safe.
Variable mem : bytes.
Hypothesis Hmem : is_bytes mem.
Notation size := (Z.of_nat (length mem)).

Lemma at_ok p i (Q : Z -> asn1_state -> Prop) s :
  0 <= p + i < size -> (forall b, is_byte b -> mem !! Z.to_nat (p + i) = Some b -> Q b s) -> wpm (at_ mem p i) Q never s.
Proof.
  intros Hi HQ. unfold at_. rewrite (proj2 (Z.ltb_ge _ _)) by lia. apply wpm_lift, rd_safe; [lia|].
  intros b Hb. apply HQ; [by eapply is_bytes_lookup | done].
Qed.

Lemma dump_loop_ok n p i nb s :
  is_Some (a_log s) -> 0 <= p + i -> p + nb <= size -> wpm (dump_loop mem n p i nb) (fun _ s' => same_error s s') never s.
Proof.
  revert i s. induction n as [|n IH]; intros i s Hs Hp Hnb; cbn [dump_loop]; [by apply wpm_ret|].
  destruct (Z.ltb_spec i nb); [|by apply wpm_ret]. apply wpm_bind, at_ok; [lia|]. intros b _ _.
  apply seq_ok; [done | by apply log_fn_ok | intros; apply IH; done || lia].
Qed.

Lemma dump_content_ok p bytes_max i s :
  0 <= p + i -> p + bytes_max <= size -> wpm (ptls_asn1_dump_content mem p bytes_max i) (fun _ s' => same_error s s') never s.
Proof.
  intros Hp Hb. apply logging_ok. clear s. intros s Hs. apply wpm_when; intros Hi; b2p; [|reflexivity].
  apply seq_ok; [done | by apply log_fn_ok|]. clear s Hs. intros s Hs. apply seq_ok; [done | apply dump_loop_ok; done || lia|].
  clear s Hs. intros s Hs. apply wpm_when; intros; [by apply log_fn_ok | reflexivity].
Qed.

Lemma long_type_loop_ok fuel p bytes_max i lt s :
  0 <= p -> p + bytes_max <= size -> 1 <= i <= bytes_max -> bytes_max - i <= Z.of_nat fuel -> 0 <= lt < 2 ^ 32 ->
  wpm (long_type_loop mem fuel p bytes_max i lt)
    (fun r s' => i <= r.1 <= bytes_max /\ (forall n, r.2 = Some n -> 0 <= n < 2 ^ 32) /\ s' = s) never s.
Proof.
  intros Hp Hm. revert i lt. induction fuel as [|fuel IH]; intros i lt Hi Hf Hlt; cbn [long_type_loop].
  all: destruct ((i <? bytes_max) && (lt <=? 0x7FFFFFFF)) eqn:E; b2p; [|apply wpm_ret; cbn; split_and!; done || lia].
  - lia.
  - apply wpm_bind, at_ok; [lia|]. intros b Hb _.
    set (lt' := Z.lor _ _). assert (Hlt' : 0 <= lt' < 2 ^ 32).
    { assert (H7 : 0 <= Z.land b 127 < 2 ^ 7) by (change 127 with (Z.ones 7); rewrite Z.land_ones by lia; apply Z.mod_pos_bound; lia).
      apply lor_range; [lia | apply Z.mod_pos_bound; lia | lia]. }
    destruct (Z.land b 128 =? 0); [apply wpm_ret; cbn; split_and!; [lia | lia | by intros n [= <-] | done]|].
    eapply wpm_mono; [apply IH; lia | | done]. intros [i' f] s' (? & ? & ?). cbn in *. split_and!; [lia | lia | done | done].
Qed.

Lemma read_type_ok p bytes_max level s :
  0 <= p -> p + bytes_max <= size -> 1 <= bytes_max ->
  wpm (ptls_asn1_read_type mem p bytes_max level)
    (fun '(i, structure, class, number) s' => 1 <= i <= bytes_max /\ 0 <= class < 4 /\ 0 <= number < 2 ^ 32 /\ error_step s s')
    never s.
Proof.
  intros Hp Hm Hb. unfold ptls_asn1_read_type. apply wpm_bind, at_ok; [lia|]. intros b Hbb _.
  assert (Hc : 0 <= Z.land (Z.shiftr b 6) 3 < 4) by (change 3 with (Z.ones 2); rewrite Z.land_ones by lia; by apply Z.mod_pos_bound).
  assert (Hn : 0 <= Z.land b 31 < 2 ^ 32).
  { change 31 with (Z.ones 5). rewrite Z.land_ones by lia. pose proof (Z.mod_pos_bound b (2 ^ 5)). lia. }
  destruct (Z.land b 31 =? 31); [|apply wpm_ret; split_and!; lia || done].
  apply wpm_bind. eapply wpm_mono; [apply long_type_loop_ok; lia | | done]. intros [i found] s' (Hi & Hf & ->). cbn in Hi, Hf.
  destruct found as [n|]; [apply wpm_ret; split_and!; try lia; try done; apply Hf; done|].
  apply error_case. intros s' He Hl. apply wpm_ret. split_and!; try lia; try done.
  eapply error_step_set; [done | ber | done].
Qed.

Lemma print_type_ok class number level s :
  0 <= class < 4 -> 0 <= number -> is_Some (a_log s) -> wpm (ptls_asn1_print_type class number level) (fun _ s' => same_error s s') never s.
Proof.
  intros Hc Hn Hs. apply seq_ok; [done | by apply print_indent_ok|]. clear s Hs. intros s Hs.
  destruct ((class =? 0) && _) eqn:E; b2p; [|destruct (class =? 2); [by apply log_fn_ok|]].
  - destruct (lookup_lt_is_Some_2 asn1_universal_types (Z.to_nat number)) as [x ->]; [lia | by apply log_fn_ok].
  - destruct (lookup_lt_is_Some_2 asn1_type_classes (Z.to_nat class)) as [x ->]; [cbn; lia | by apply log_fn_ok].
Qed.

Lemma length_loop_ok n p bytes_max i len s :
  0 <= p -> p + bytes_max <= size -> 0 <= i -> i + Z.of_nat n < bytes_max -> 0 <= len ->
  wpm (length_loop mem n p bytes_max i len) (fun r s' => r.1 = i + Z.of_nat n /\ 0 <= r.2 /\ s' = s) never s.
Proof.
  intros Hp Hm. revert i len. induction n as [|n IH]; intros i len Hi Hn Hl; cbn [length_loop].
  - apply wpm_ret. cbn. split_and!; done || lia.
  - rewrite (proj2 (Z.ltb_lt _ _)) by lia. apply wpm_bind, at_ok; [lia|]. intros b Hb _.
    eapply wpm_mono; [apply IH; [lia.. |] | | done].
    + apply Z.lor_nonneg. split; [|apply Hb]. apply Z.mod_pos_bound. lia.
    + intros [i' len'] s' (? & ? & ->). cbn in *. split_and!; [lia | done | done].
Qed.

Lemma read_length_ok p bytes_max i level s :
  0 <= p -> p + bytes_max <= size -> 0 <= i <= bytes_max ->
  wpm (ptls_asn1_read_length mem p bytes_max i level)
    (fun '(i', length, indefinite, last) s' =>
       i <= i' <= bytes_max /\ 0 <= length /\ i' <= last /\ (indefinite = true -> last = bytes_max) /\ error_step s s' /\
       (a_decode_error s' = 0 -> last <= bytes_max) /\ (a_decode_error s <> 0 -> a_decode_error s' <> 0)) never s.
Proof.
  intros Hp Hm Hi. unfold ptls_asn1_read_length. destruct (Z.ltb_spec i bytes_max) as [Hlt|]; [|apply wpm_ret; split_and!; lia || done].
  apply wpm_bind, at_ok; [lia|]. intros b Hb _. unfold is_byte in Hb. apply wpm_bind.
  apply (wpm_mono _ (fun '(i', length, indefinite, last) s' =>
       i <= i' <= bytes_max /\ 0 <= length /\ i' <= last /\ (indefinite = true -> last = bytes_max) /\ error_step s s' /\
       (a_decode_error s <> 0 -> a_decode_error s' <> 0)) _ never never); [| |done].
  - destruct (negb (Z.land b 128 =? 0)); [|apply wpm_ret; split_and!; lia || done].
    assert (Hl : 0 <= Z.land b 127) by (apply Z.land_nonneg; lia).
    destruct (Z.leb_spec bytes_max (i + 1 + Z.land b 127)).
    + apply error_case. intros s' He Hl'. apply wpm_ret. split_and!; try lia; try done; [|by rewrite He].
      eapply error_step_set; [done | ber | done].
    + apply wpm_bind. eapply wpm_mono; [apply length_loop_ok; lia | | done]. intros [i' len] s' (Hi' & Hlen & ->). cbn in Hi', Hlen.
      destruct (Z.land b 127 =? 0); apply wpm_ret; split_and!; lia || done.
  - intros [[[i' len] indef] last] s' (Hi' & Hlen & Hlast & Hind & Hstep & Hkeep). apply wpm_bind, wpm_gets.
    destruct ((a_decode_error s' =? 0) && (bytes_max <? last)) eqn:E; b2p.
    + apply error_case. intros s'' He Hl'. apply wpm_ret.
      split_and!; try lia; try done; try (by rewrite He).
      transitivity s'; [done|]. eapply error_step_set; [done | ber | done].
    + apply wpm_ret. split_and!; lia || done.
Qed.

(** What a validation of [bytes_max] octets returns: it has moved forward, within
    its octets. *)
Definition element_ok (p bytes_max : Z) (m : MA Z) : Prop :=
  forall s, wpm m (fun n s' => 1 <= n <= bytes_max /\ error_step s s') never s.

Lemma structure_loop_ok element fuel p bytes_max last indefinite level i s :
  (forall j lv, i <= j < last -> element_ok (p + j) (last - j) (element (p + j) (last - j) lv)) ->
  0 <= p -> p + bytes_max <= size -> 1 <= i <= last -> last <= bytes_max -> last - i <= Z.of_nat fuel ->
  wpm (structure_loop mem element fuel p bytes_max last indefinite level i)
    (fun n s' => 1 <= n <= bytes_max /\ error_step s s') never s.
Proof.
  intros Hel Hp Hm. revert i s Hel. induction fuel as [|fuel IH]; intros i s Hel Hi Hlast Hf; cbn [structure_loop].
  all: destruct (Z.ltb_spec i last); [|apply wpm_ret; split; [lia | reflexivity]].
  1: lia.
  apply wpm_bind. apply (wpm_mono _ (fun _ s' => s' = s) _ never never); [| |done].
  { destruct indefinite; [apply at_ok; [lia | done] | by apply wpm_ret]. }
  intros b s' ->. destruct (indefinite && (b =? 0)).
  - apply wpm_bind. apply (wpm_mono _ (fun u s' => s' = s /\ (u = false -> i + 2 <= bytes_max)) _ never never); [| |done].
    { destruct (Z.ltb_spec bytes_max (i + 2)); [by apply wpm_ret|]. apply wpm_bind, at_ok; [lia|]. intros. by apply wpm_ret. }
    intros unexpected s' [-> Hu]. destruct unexpected.
    + apply error_case. intros s' He Hl. apply wpm_ret. split; [lia|]. eapply error_step_set; [done | ber | done].
    + apply wpm_bind. eapply wpm_mono; [apply logging_ok | | done].
      * intros. apply seq_ok; [done | by apply print_indent_ok | intros; by apply log_fn_ok].
      * intros [] s' Hs'. apply wpm_ret. split; [specialize (Hu eq_refl); lia | by apply same_error_step].
  - apply wpm_bind. eapply wpm_mono; [apply Hel; lia | | done]. intros n s1 [Hn H1]. apply wpm_bind, wpm_gets.
    destruct (negb (a_decode_error s1 =? 0)); [apply wpm_ret; split; [lia | done]|].
    apply wpm_bind. eapply wpm_mono; [apply logging_ok | | done].
    + intros s2 Hs2. apply seq_ok; [done | apply wpm_when; intros; [by apply log_fn_ok | reflexivity] | intros; by apply log_fn_ok].
    + intros [] s2 Hs2. eapply wpm_mono; [apply IH | | done]; try lia.
      * intros j lv Hj. apply Hel. lia.
      * intros n' s3 [Hn' H3]. split; [lia|]. etrans; [exact H1|]. etrans; [by apply same_error_step | done].
Qed.

Lemma validation_recursive_ok fuel p bytes_max level :
  0 <= p -> p + bytes_max <= size -> 1 <= bytes_max <= Z.of_nat fuel ->
  element_ok p bytes_max (ptls_asn1_validation_recursive mem fuel p bytes_max level).
Proof.
  revert p bytes_max level. induction fuel as [|fuel IH]; intros p bytes_max level Hp Hm Hb s; [lia|].
  cbn [ptls_asn1_validation_recursive]. apply wpm_bind. eapply wpm_mono; [apply read_type_ok; lia | | done].
  intros [[[i structure] class] number] s1 (Hi & Hc & Hn & H1). apply wpm_bind, wpm_gets, wpm_bind.
  apply (wpm_mono _ (fun _ s' => same_error s1 s') _ never never); [| |done].
  { apply wpm_when; intros; [|reflexivity]. apply logging_ok. intros. apply print_type_ok; done || lia. }
  intros [] s2 H2. apply wpm_bind. eapply wpm_mono; [apply read_length_ok; lia | | done].
  intros [[[i' len] indefinite] last] s3 (Hi' & Hlen & Hlast & Hind & H3 & _).
  assert (H13 : error_step s s3) by (etrans; [exact H1 | etrans; [by apply same_error_step | done]]).
  destruct (Z.leb_spec last bytes_max); [|apply wpm_ret; split; [lia | done]]. destruct structure.
  - apply wpm_bind. eapply wpm_mono; [apply logging_ok; intros; by apply log_fn_ok | | done]. intros [] s4 H4.
    apply wpm_bind. eapply wpm_mono; [apply structure_loop_ok; try lia | | done].
    + intros j lv Hj. apply IH; lia.
    + intros n s5 [Hn5 H5]. apply wpm_bind. eapply wpm_mono; [apply logging_ok | | done].
      * intros. apply seq_ok; [done | by apply print_indent_ok | intros; by apply log_fn_ok].
      * intros [] s6 H6. apply wpm_ret. split; [lia|]. etrans; [exact H13|]. etrans; [by apply same_error_step|].
        etrans; [exact H5 | by apply same_error_step].
  - apply wpm_bind. eapply wpm_mono; [apply dump_content_ok; lia | | done]. intros [] s4 H4. apply wpm_ret.
    split; [lia|]. etrans; [exact H13 | by apply same_error_step].
Qed.
End Safe.

(** ** DER is accepted

    The encodings of X.690 with definite lengths in their shortest form and type
    numbers below 31, for contents below 2^32 octets. *)

Definition length_octets (n : Z) : nat := if n <? 2 ^ 8 then 1 else if n <? 2 ^ 16 then 2 else if n <? 2 ^ 24 then 3 else 4.
Definition der_length (n : Z) : bytes := if n <? 128 then [n] else 128 + Z.of_nat (length_octets n) :: be (length_octets n) n.
Definition der (type : Z) (content : bytes) : bytes := type :: der_length (Z.of_nat (length content)) ++ content.

Definition constructed (type : Z) : bool := Z.testbit type 5.

Inductive der_element : bytes -> Prop :=
| der_primitive type content :
    is_byte type -> Z.land type 31 <> 31 -> constructed type = false -> Z.of_nat (length content) < 2 ^ 32 ->
    der_element (der type content)
| der_constructed type content :
    is_byte type -> Z.land type 31 <> 31 -> constructed type = true -> Z.of_nat (length content) < 2 ^ 32 ->
    der_elements content -> der_element (der type content)
with der_elements : bytes -> Prop :=
| der_none : der_elements []
| der_more e es : der_element e -> der_elements es -> der_elements (e ++ es).

Scheme der_element_ind' := Minimality for der_element Sort Prop
with der_elements_ind' := Minimality for der_elements Sort Prop.
Combined Scheme der_ind from der_element_ind', der_elements_ind'.

Lemma length_octets_range n : 0 <= n < 2 ^ 32 -> (1 <= length_octets n <= 4)%nat /\ n < 2 ^ (8 * Z.of_nat (length_octets n)).
Proof.
  intros Hn. unfold length_octets. destruct (Z.ltb_spec n (2 ^ 8)); [cbn; lia|].
  destruct (Z.ltb_spec n (2 ^ 16)); [cbn; lia|]. destruct (Z.ltb_spec n (2 ^ 24)); cbn; lia.
Qed.

Lemma der_length_pos n : (1 <= length (der_length n))%nat.
Proof. unfold der_length. destruct (n <? 128); cbn [length]; lia. Qed.

Lemma length_der type content : length (der type content) = S (length (der_length (Z.of_nat (length content))) + length content).
Proof. unfold der. cbn [length]. by rewrite length_app. Qed.

Section Der.
Variable mem : bytes.
Hypothesis Hmem : is_bytes mem.
Notation size := (Z.of_nat (length mem)).

(** [bs] is stored at [bytes + i]. *)
Notation holds p i bs := (at_mem mem (Z.to_nat (p + i)) bs).

Lemma at_run p i b bs s : 0 <= p + i -> holds p i (b :: bs) -> at_ mem p i s = Done b s.
Proof.
  intros Hp H. apply at_mem_cons in H as [Hb _]. unfold at_. rewrite (proj2 (Z.ltb_ge _ _)) by lia. by rewrite (rd_at _ _ _ Hb).
Qed.

Lemma holds_app p i bs1 bs2 : 0 <= p + i -> holds p i (bs1 ++ bs2) <-> holds p i bs1 /\ holds p (i + Z.of_nat (length bs1)) bs2.
Proof. intros Hp. rewrite at_mem_app. by replace (Z.to_nat (p + (i + Z.of_nat (length bs1)))) with (Z.to_nat (p + i) + length bs1)%nat by lia. Qed.

Lemma holds_tail p i b bs : 0 <= p + i -> holds p i (b :: bs) -> holds p (i + 1) bs.
Proof. intros Hp H. apply at_mem_cons in H as [_ H]. by replace (Z.to_nat (p + (i + 1))) with (S (Z.to_nat (p + i))) by lia. Qed.

Definition length_step (len b : Z) : Z := Z.lor (u32 (Z.shiftl len 8)) b.

Lemma length_loop_run p bytes_max i len bs s :
  0 <= p -> 0 <= i -> holds p i bs -> i + Z.of_nat (length bs) <= bytes_max ->
  length_loop mem (length bs) p bytes_max i len s = Done (i + Z.of_nat (length bs), foldl length_step len bs) s.
Proof.
  intros Hp. revert i len. induction bs as [|b bs IH]; intros i len Hi Hat Hb; cbn [length length_loop foldl].
  - by rewrite Z.add_0_r.
  - cbn [length] in Hb. rewrite (proj2 (Z.ltb_lt _ _)) by lia. unfold bind at 1. erewrite (at_run p i); [|lia|exact Hat].
    rewrite IH; [| lia | by eapply holds_tail; [lia|] | lia]. by replace (i + 1 + Z.of_nat (length bs)) with (i + Z.of_nat (S (length bs))) by lia.
Qed.

Lemma length_step_be len bs :
  is_bytes bs -> 0 <= len -> (len + 1) * 2 ^ (8 * Z.of_nat (length bs)) <= 2 ^ 32 ->
  foldl length_step len bs = foldl be_step len bs.
Proof.
  intros Hb. revert len. induction Hb as [|b bs Hb Hbs IH]; intros len Hl Hlt; [done|]. cbn [foldl length] in *.
  replace (8 * Z.of_nat (S (length bs))) with (8 + 8 * Z.of_nat (length bs)) in Hlt by lia. rewrite Z.pow_add_r in Hlt by lia.
  pose proof (pow2_pos (8 * Z.of_nat (length bs)) ltac:(lia)). set (m := 2 ^ (8 * Z.of_nat (length bs))) in *.
  change (2 ^ 8) with 256 in Hlt. unfold is_byte in Hb. change (2 ^ 8) with 256 in Hb.
  assert (Hstep : length_step len b = be_step len b).
  { unfold length_step, be_step, u32. rewrite Z.shiftl_mul_pow2 by lia. rewrite Z.mod_small; [done|].
    change (2 ^ 8) with 256. nia. }
  rewrite Hstep, be_step_add by done. change (2 ^ 8) with 256. apply IH; [lia | nia].
Qed.

Lemma read_length_der p bytes_max i level n s :
  0 <= p -> 0 <= i -> 0 <= n < 2 ^ 32 -> holds p i (der_length n) -> i + Z.of_nat (length (der_length n)) + n <= bytes_max ->
  a_decode_error s = 0 ->
  ptls_asn1_read_length mem p bytes_max i level s =
    Done (i + Z.of_nat (length (der_length n)), n, false, i + Z.of_nat (length (der_length n)) + n) s.
Proof.
  intros Hp Hi Hn Hat Hb Hs. unfold ptls_asn1_read_length. pose proof (der_length_pos n).
  rewrite (proj2 (Z.ltb_lt i bytes_max)) by lia. unfold der_length in *. destruct (Z.ltb_spec n 128) as [Hs'|Hl'].
  - unfold bind. erewrite (at_run p i); [|lia|exact Hat].
    assert (E : Z.land n 128 = 0).
    { change 128 with (2 ^ 7). apply Z.bits_inj'. intros k Hk. rewrite Z.land_spec, Z.bits_0. destruct (decide (k = 7)) as [->|].
      - by rewrite (testbit_high n 7 7) by (change (2 ^ 7) with 128; lia).
      - rewrite Z.pow2_bits_false by lia. apply andb_false_r. }
    rewrite E. cbn [negb Z.eqb ret gets]. rewrite Hs. cbn [length] in *. cbn [Z.eqb andb].
    rewrite (proj2 (Z.ltb_ge _ _)) by lia. done.
  - destruct (length_octets_range n Hn) as [Hk Hnk]. set (k := length_octets n) in *. cbn [length] in Hb. rewrite length_be in Hb.
    unfold bind at 1. erewrite (at_run p i); [|lia|exact Hat]. apply holds_tail in Hat; [|lia].
    assert (E1 : Z.land (128 + Z.of_nat k) 128 <> 0) by (destruct k as [|[|[|[|[|k]]]]]; vm_compute; congruence || lia).
    assert (E2 : Z.land (128 + Z.of_nat k) 127 = Z.of_nat k) by (destruct k as [|[|[|[|[|k]]]]]; vm_compute; congruence || lia).
    rewrite (proj2 (Z.eqb_neq _ _) E1), E2. cbn [negb]. rewrite (proj2 (Z.leb_gt _ _)) by lia.
    rewrite Nat2Z.id. unfold bind at 1 2.
    pose proof (length_loop_run p bytes_max (i + 1) 0 (be k n) s) as Hrun. rewrite length_be in Hrun.
    rewrite Hrun by (done || lia). rewrite length_step_be; [| apply be_bytes | lia |].
    2: { rewrite length_be, Z.mul_1_l. apply Z.pow_le_mono_r; lia. }
    fold (of_be (be k n)). rewrite of_be_be_small by lia. rewrite (proj2 (Z.eqb_neq (Z.of_nat k) 0)) by lia.
    unfold bind, gets, ret. rewrite Hs. cbn [Z.eqb andb length]. rewrite length_be, (proj2 (Z.ltb_ge _ _)) by lia.
    by replace (i + 1 + Z.of_nat k) with (i + Z.of_nat (S k)) by lia.
Qed.

Lemma structure_bit_spec type : negb (Z.land (Z.shiftr type 5) 1 =? 0) = constructed type.
Proof.
  unfold constructed. replace (Z.testbit type 5) with (Z.testbit (Z.shiftr type 5) 0) by (by rewrite Z.shiftr_spec).
  change 1 with (Z.ones 1). rewrite Z.land_ones, Z.bit0_odd, Zmod_odd by lia. by destruct (Z.odd _).
Qed.

Lemma read_type_run p bytes_max level type bs s :
  0 <= p -> holds p 0 (type :: bs) -> Z.land type 31 <> 31 ->
  ptls_asn1_read_type mem p bytes_max level s =
    Done (1, constructed type, Z.land (Z.shiftr type 6) 3, Z.land type 31) s.
Proof.
  intros Hp Hat Ht. unfold ptls_asn1_read_type, bind. erewrite at_run; [| lia | exact Hat].
  rewrite (proj2 (Z.eqb_neq _ _) Ht). by rewrite <- structure_bit_spec.
Qed.

Definition accepts (m : MA Z) (n : Z) : Prop :=
  forall s, a_decode_error s = 0 -> wpm m (fun n' s' => n' = n /\ same_error s s') never s.

(** The header of an element: what the recursive function does before it looks at
    the content. *)
Lemma element_header fuel p bytes_max level type content :
  0 <= p -> p + bytes_max <= size -> is_byte type -> Z.land type 31 <> 31 -> Z.of_nat (length content) < 2 ^ 32 ->
  holds p 0 (der type content) -> Z.of_nat (length (der type content)) <= bytes_max ->
  let i := 1 + Z.of_nat (length (der_length (Z.of_nat (length content)))) in
  let last := Z.of_nat (length (der type content)) in
  accepts (if constructed type
           then structure_loop mem (ptls_asn1_validation_recursive mem fuel) (Z.to_nat bytes_max) p bytes_max last false level i
           else ret last) last ->
  accepts (ptls_asn1_validation_recursive mem (S fuel) p bytes_max level) last.
Proof.
  intros Hp Hm Hty Hnl Hlen Hat Hle i last Hcont s Hs. cbn [ptls_asn1_validation_recursive].
  assert (Hlast : last = i + Z.of_nat (length content)) by (unfold last, i; rewrite length_der; lia).
  apply wpm_bind. unfold wpm at 1. erewrite read_type_run; [| done | exact Hat | done].
  apply wpm_bind, wpm_gets, wpm_bind. apply (wpm_mono _ (fun _ s' => same_error s s') _ never never); [| |done].
  { apply wpm_when; intros; [|reflexivity]. apply logging_ok. intros. apply print_type_ok; [| | done].
    - change 3 with (Z.ones 2). rewrite Z.land_ones by lia. by apply Z.mod_pos_bound.
    - apply Z.land_nonneg. lia. }
  intros [] s2 H2. assert (E2 : a_decode_error s2 = 0) by (destruct H2; congruence).
  apply wpm_bind. unfold wpm at 1. change (der type content) with ([type] ++ der_length (Z.of_nat (length content)) ++ content) in Hat.
  apply holds_app in Hat as [_ Hat]; [|lia]. apply holds_app in Hat as [Hat _]; [|cbn; lia].
  rewrite (read_length_der p bytes_max 1 level (Z.of_nat (length content))) by (done || (fold i; cbn; lia)). fold i. rewrite <- Hlast.
  rewrite (proj2 (Z.leb_le _ _)) by lia. destruct (constructed type).
  - apply wpm_bind. eapply wpm_mono; [apply logging_ok; intros; by apply log_fn_ok | | done]. intros [] s3 H3.
    apply wpm_bind. eapply wpm_mono; [apply Hcont; destruct H3; congruence | | done]. intros n s4 [-> H4].
    apply wpm_bind. eapply wpm_mono; [apply logging_ok | | done].
    + intros. apply seq_ok; [done | by apply print_indent_ok | intros; by apply log_fn_ok].
    + intros [] s5 H5. apply wpm_ret. split; [done|]. by do 3 (etrans; [eassumption|]).
  - apply wpm_bind. eapply wpm_mono; [apply dump_content_ok; done || lia | | done]. intros [] s3 H3. apply wpm_ret.
    split; [done | by etrans].
Qed.

Lemma der_accepted :
  (forall e, der_element e -> forall fuel p bytes_max level,
     0 <= p -> p + bytes_max <= size -> holds p 0 e -> Z.of_nat (length e) <= bytes_max -> (length e <= fuel)%nat ->
     accepts (ptls_asn1_validation_recursive mem fuel p bytes_max level) (Z.of_nat (length e))) /\
  (forall es, der_elements es -> forall fuel n p bytes_max level i,
     0 <= p -> 0 <= i -> p + bytes_max <= size -> holds p i es -> i + Z.of_nat (length es) <= bytes_max -> (length es <= fuel)%nat ->
     (length es <= n)%nat ->
     accepts (structure_loop mem (ptls_asn1_validation_recursive mem fuel) n p bytes_max (i + Z.of_nat (length es)) false level i)
       (i + Z.of_nat (length es))).
Proof.
  apply der_ind.
  - intros type content Hty Hnl Hc Hlen fuel p bytes_max level Hp Hm Hat Hle Hf. rewrite length_der in Hf.
    destruct fuel as [|fuel]; [lia|]. apply element_header; [done.. |]. rewrite Hc. intros s Hs. apply wpm_ret. split; [done | reflexivity].
  - intros type content Hty Hnl Hc Hlen Hes IH fuel p bytes_max level Hp Hm Hat Hle Hf. rewrite length_der in Hf.
    pose proof (der_length_pos (Z.of_nat (length content))).
    destruct fuel as [|fuel]; [lia|]. apply element_header; [done.. |]. rewrite Hc. rewrite length_der in Hle |- *.
    set (i := 1 + Z.of_nat (length (der_length (Z.of_nat (length content))))).
    replace (Z.of_nat (S (length (der_length (Z.of_nat (length content))) + length content))) with (i + Z.of_nat (length content)) by lia.
    apply IH; try lia. change (der type content) with ([type] ++ der_length (Z.of_nat (length content)) ++ content) in Hat.
    apply holds_app in Hat as [_ Hat]; [|lia]. apply holds_app in Hat as [_ Hat]; [|cbn; lia]. exact Hat.
  - intros fuel n p bytes_max level i Hp Hi Hm _ Hle Hf Hn s Hs. rewrite Z.add_0_r. destruct n; cbn [structure_loop].
    all: rewrite (proj2 (Z.ltb_ge i i)) by lia; apply wpm_ret; split; [done | reflexivity].
  - intros e es He IHe Hes IHes fuel n p bytes_max level i Hp Hi Hm Hat Hle Hf Hn s Hs. rewrite length_app in *.
    assert (Hpos : (1 <= length e)%nat) by (destruct He; rewrite length_der; lia).
    destruct n as [|n]; [lia|]. cbn [structure_loop]. rewrite (proj2 (Z.ltb_lt _ _)) by lia.
    apply holds_app in Hat as [Hat1 Hat2]; [|lia]. apply wpm_bind, wpm_ret. cbn [andb]. apply wpm_bind.
    eapply wpm_mono; [apply IHe; [lia | lia | by rewrite Z.add_0_r | lia | lia | done] | | done]. intros n' s1 [-> H1].
    apply wpm_bind, wpm_gets. assert (E1 : a_decode_error s1 = 0) by (destruct H1; congruence). rewrite E1. cbn [Z.eqb negb].
    apply wpm_bind. eapply wpm_mono; [apply logging_ok | | done].
    + intros s2 Hs2. apply seq_ok; [done | apply wpm_when; intros; [by apply log_fn_ok | reflexivity] | intros; by apply log_fn_ok].
    + intros [] s2 H2. replace (i + Z.of_nat (length e + length es)) with (i + Z.of_nat (length e) + Z.of_nat (length es)) by lia.
      eapply wpm_mono; [apply IHes; try lia; [done | destruct H2; congruence] | | done].
      intros n' s3 [-> H3]. split; [done|]. by do 2 (etrans; [eassumption|]).
Qed.
End Der.

(** ** Properties *)

(** C22: validation is safe and total: whatever non-empty string of octets it is
    given, with and without a log, [ptls_asn1_validation] ends, reads nothing outside
    of the string and of the tables of names, and returns 0 or one of the five errors
    of malformed encodings. *)
Theorem asn1_validation_total (mem : bytes) (log : option (list log_call)) (e : Z) :
  is_bytes mem -> mem <> [] ->
  match ptls_asn1_validation mem (mk_asn1 e log) with
  | Done r s => r = 0 \/ ber_error r \/ r = PTLS_ERROR_BER_ELEMENT_TOO_SHORT
  | _ => False
  end.
Proof.
  intros Hb Hne. apply (wpm_mono _ (fun r _ => r = 0 \/ ber_error r \/ r = PTLS_ERROR_BER_ELEMENT_TOO_SHORT) _ never never); [|done..].
  unfold ptls_asn1_validation. apply wpm_bind, wpm_modify, wpm_bind. cbn [field_update a_decode_error a_log].
  eapply wpm_mono; [apply validation_recursive_ok; [done | lia | lia | destruct mem; [done | cbn [length]; lia]] | | done].
  intros n s [Hn [He Hl]]. apply wpm_bind, wpm_gets. destruct (_ && _).
  - apply wpm_bind, wpm_modify, wpm_bind. eapply wpm_mono; [apply logging_ok; intros; by apply log_fn_ok | | done].
    intros [] s' _. apply wpm_ret. auto.
  - apply wpm_ret. destruct He as [He|He]; [left; by rewrite He | auto].
Qed.

Lemma asn1_validation_total_witness :
  match ptls_asn1_validation [0x30; 0x80; 0x02; 0x01; 0x05; 0x00; 0x00] (mk_asn1 0 (Some [])) with
  | Done r s => r = 0 \/ ber_error r \/ r = PTLS_ERROR_BER_ELEMENT_TOO_SHORT
  | _ => False
  end.
Proof. apply asn1_validation_total; [by repeat constructor | done]. Defined.

Lemma validation_accepts_der (e : bytes) (log : option (list log_call)) :
  der_element e -> is_bytes e ->
  match ptls_asn1_validation e (mk_asn1 0 log) with Done r _ => r = 0 | _ => False end.
Proof.
  intros He Hb. apply (wpm_mono _ (fun r _ => r = 0) _ never never); [|done..].
  unfold ptls_asn1_validation. apply wpm_bind, wpm_modify, wpm_bind. cbn [field_update a_decode_error a_log].
  eapply wpm_mono; [apply (proj1 (der_accepted e Hb) e He); [done | lia | apply at_mem_self | lia | lia | done] | | done].
  intros n s [-> [Hs _]]. cbn in Hs. apply wpm_bind, wpm_gets. rewrite Hs, (proj2 (Z.ltb_ge _ _)) by lia. by apply wpm_ret.
Qed.

(** C36: every DER encoding (definite lengths, type numbers below 31, contents below
    2^32 octets, nested to any depth) is accepted. *)
Theorem asn1_der_accepted (e : bytes) (log : option (list log_call)) :
  der_element e -> is_bytes e ->
  match ptls_asn1_validation e (mk_asn1 0 log) with Done r _ => r = 0 | _ => False end.
Proof. apply validation_accepts_der. Qed.

(** SEQUENCE \{ INTEGER 0, OCTET STRING (200 octets) \} *)
Lemma asn1_der_accepted_witness :
  match ptls_asn1_validation (der 0x30 (der 0x02 [0] ++ der 0x04 (replicate 200 7) ++ [])) (mk_asn1 0 (Some [])) with
  | Done r _ => r = 0
  | _ => False
  end.
Proof.
  apply asn1_der_accepted.
  - apply der_constructed; [done | done | reflexivity | reflexivity|].
    apply der_more; [apply der_primitive; done|]. apply der_more; [apply der_primitive; done | apply der_none].
  - apply (bool_decide_unpack _). reflexivity.
Defined.

(** What goes through unnoticed: a length of more than four octets modulo 2^32, a
    type number modulo 2^32, an element without a length, a primitive element of
    indefinite length. *)
Example asn1_length_truncated :
  ptls_asn1_validation [0x04; 0x85; 1; 0; 0; 0; 1; 7] (mk_asn1 0 None) = Done 0 (mk_asn1 0 None).
Proof. reflexivity. Qed.
Example asn1_type_truncated :
  ptls_asn1_read_type [0x1f; 0x87; 0xff; 0xff; 0xff; 0x81; 0x05] 0 7 0 (mk_asn1 0 None) = Done (7, false, 0, 0xffffc085) (mk_asn1 0 None).
Proof. reflexivity. Qed.
Example asn1_missing_length : ptls_asn1_validation [0x05] (mk_asn1 0 None) = Done 0 (mk_asn1 0 None).
Proof. reflexivity. Qed.
Example asn1_primitive_indefinite : ptls_asn1_validation [0x04; 0x80; 1; 2; 3] (mk_asn1 0 None) = Done 0 (mk_asn1 0 None).
Proof. reflexivity. Qed.
(** The empty string is read at its first octet. *)
Example asn1_empty : ptls_asn1_validation [] (mk_asn1 0 None) = Undefined OutOfBounds.
Proof. reflexivity. Qed.
(** Nesting and the end-of-contents octets. *)
Example asn1_rejects :
  ptls_asn1_validation [0x30; 0x80; 0x02; 0x01; 0x05; 0x00; 0x01] (mk_asn1 0 None) = Done PTLS_ERROR_BER_UNEXPECTED_EOC (mk_asn1 PTLS_ERROR_BER_UNEXPECTED_EOC None) /\
  ptls_asn1_validation [0x30; 0x05; 0x02; 0x01] (mk_asn1 0 None) = Done PTLS_ERROR_BER_EXCESSIVE_LENGTH (mk_asn1 PTLS_ERROR_BER_EXCESSIVE_LENGTH None) /\
  ptls_asn1_validation [0x02; 0x01; 0x05; 0x00] (mk_asn1 0 None) = Done PTLS_ERROR_BER_ELEMENT_TOO_SHORT (mk_asn1 PTLS_ERROR_BER_ELEMENT_TOO_SHORT None).
Proof. repeat split. Qed.
