(* ===== verification/Crypto.v ===== *)
(** * Crypto: HMAC, HKDF, traffic keys and nonces of [lib/picotls.c]

    The hash functions and the AEADs are code behind function pointers (OpenSSL,
    minicrypto, fusion): a [ptls_hash_algorithm_t] and a [ptls_aead_algorithm_t]
    are records of functions, and what their interface documents is stated by the
    classes [HashLaws] and [AeadLaws].  What picotls builds on top of them is
    modelled: HMAC, HKDF, HKDF-Expand-Label, the key and IV of a traffic secret,
    the per-record nonce and the constant-time comparison.

    Main results: HMAC and HKDF-Expand compute the functions of RFC 2104 and
    RFC 5869, HKDF labels are unambiguous, nonces never repeat. *)
From S2P Require Import Prelude Constants Wire.

(** ** Hash algorithms *)

Inductive ptls_hash_final_mode_t :=
  PTLS_HASH_FINAL_MODE_FREE | PTLS_HASH_FINAL_MODE_RESET | PTLS_HASH_FINAL_MODE_SNAPSHOT.

(** [hash_ptr] is the address of the algorithm, which the code compares. *)
Record ptls_hash_algorithm_t := mk_hash {
  hash_ptr : nat;
  block_size : nat;
  digest_size : nat;
  digest : bytes -> bytes;
  empty_digest : bytes
}.

(** A hash context holds the octets fed into it; [None] after it was freed. *)
Notation ptls_hash_context_t := bytes (only parsing).
Definition hash_create : ptls_hash_context_t := [].
Definition hash_update (ctx : ptls_hash_context_t) (src : bytes) : ptls_hash_context_t := ctx ++ src.
Definition hash_final (algo : ptls_hash_algorithm_t) (ctx : ptls_hash_context_t) (mode : ptls_hash_final_mode_t)
    : bytes * option ptls_hash_context_t :=
  (digest algo ctx,
   match mode with
   | PTLS_HASH_FINAL_MODE_FREE => None
   | PTLS_HASH_FINAL_MODE_RESET => Some []
   | PTLS_HASH_FINAL_MODE_SNAPSHOT => Some ctx
   end).

(** What picotls relies on: sizes, and the digest of the empty string. *)
Class HashLaws (algo : ptls_hash_algorithm_t) : Prop := {
  digest_length m : length (digest algo m) = digest_size algo;
  digest_bytes m : is_bytes (digest algo m);
  digest_size_pos : (0 < digest_size algo)%nat;
  digest_size_block : (digest_size algo <= block_size algo)%nat;
  digest_size_max : (digest_size algo <= PTLS_MAX_DIGEST_SIZE)%nat;
  empty_digest_spec : empty_digest algo = digest algo []
}.

(** ** HMAC *)

Record st_picotls_hmac_context_t := mk_hmac {
  hm_hash : ptls_hash_context_t;
  hm_key : bytes
}.

Definition xor_pad (pad : Z) (key : bytes) : bytes := map (fun k => u8 (Z.lxor k pad)) key.

Section Hmac.
Context (algo : ptls_hash_algorithm_t).

Definition hmac_update (ctx : st_picotls_hmac_context_t) (src : bytes) : st_picotls_hmac_context_t :=
  mk_hmac (hash_update (hm_hash ctx) src) (hm_key ctx).

(** The key is masked, fed to the hash, and unmasked. *)
Definition hmac_apply_key (ctx : st_picotls_hmac_context_t) (pad : Z) : st_picotls_hmac_context_t :=
  let key := xor_pad pad (hm_key ctx) in
  let hash := hash_update (hm_hash ctx) key in
  mk_hmac hash (xor_pad pad key).

(** [want_md] is [md != NULL]; the context is [None] once freed. *)
Definition hmac_final (ctx : st_picotls_hmac_context_t) (want_md : bool) (mode : ptls_hash_final_mode_t)
    : res (bytes * option st_picotls_hmac_context_t) :=
  match mode with
  | PTLS_HASH_FINAL_MODE_SNAPSHOT => Stuck AssertFail
  | _ =>
      let ctx :=
        if want_md then
          let md := fst (hash_final algo (hm_hash ctx) PTLS_HASH_FINAL_MODE_RESET) in
          hmac_update (hmac_apply_key (mk_hmac [] (hm_key ctx)) 0x5c) md
        else ctx in
      let '(md, hash) := hash_final algo (hm_hash ctx) mode in
      match mode, hash with
      | PTLS_HASH_FINAL_MODE_RESET, Some hash => Ok (md, Some (hmac_apply_key (mk_hmac hash (hm_key ctx)) 0x36))
      | _, _ => Ok (md, None)
      end
  end.

Definition ptls_hmac_create (key : bytes) : res st_picotls_hmac_context_t :=
  let! _ := c_assert (length key <=? block_size algo)%nat in
  Ok (hmac_apply_key (mk_hmac hash_create (key ++ replicate (block_size algo - length key) 0)) 0x36).

Definition ptls_calc_hash (src : bytes) : bytes := fst (hash_final algo (hash_update hash_create src) PTLS_HASH_FINAL_MODE_FREE).

(** ** HKDF *)

Definition ptls_hkdf_extract (salt ikm : bytes) : res bytes :=
  let salt := if (length salt =? 0)%nat then take (digest_size algo) zeroes_of_max_digest_size else salt in
  let! hash := ptls_hmac_create salt in
  let! '(output, _) := hmac_final (hmac_update hash ikm) true PTLS_HASH_FINAL_MODE_FREE in
  Ok output.

(** The loop [for (i = 0; i * digest_size < outlen; ++i)]: [hmac] is [NULL] on
    the first turn, [dig] holds the previous block, [output] what was written. *)
Fixpoint hkdf_expand_loop (fuel : nat) (i : nat) (hmac : option st_picotls_hmac_context_t) (dig output : bytes)
    (outlen : nat) (prk info : bytes) : res bytes :=
  if (i * digest_size algo <? outlen)%nat then
    match fuel with
    | O => Stuck OutOfFuel
    | S fuel =>
        let! hmac := match hmac with
                     | None => ptls_hmac_create prk
                     | Some hmac => Ok (hmac_update hmac (take (digest_size algo) dig))
                     end in
        let hmac := hmac_update hmac info in
        let gen := u8 (Z.of_nat i + 1) in
        let hmac := hmac_update hmac [gen] in
        let! '(dig, hmac) := hmac_final hmac true PTLS_HASH_FINAL_MODE_RESET in
        let off_start := (i * digest_size algo)%nat in
        let off_end := (off_start + digest_size algo)%nat in
        let off_end := if (outlen <? off_end)%nat then outlen else off_end in
        hkdf_expand_loop fuel (S i) hmac dig (output ++ take (off_end - off_start) dig) outlen prk info
    end
  else Ok output.

Definition ptls_hkdf_expand (outlen : nat) (prk info : bytes) : res bytes :=
  hkdf_expand_loop outlen 0 None [] [] outlen prk info.

(** The [HkdfLabel] structure; the sizes are truncated to their fields. *)
Definition hkdf_label (outlen : nat) (label hash_value label_prefix : bytes) : bytes :=
  push16 (Z.of_nat outlen) ++ push_block 1 (label_prefix ++ label) ++ push_block 1 hash_value.

Definition hkdf_expand_label (outlen : nat) (secret label hash_value label_prefix : bytes) : res bytes :=
  ptls_hkdf_expand outlen secret (hkdf_label outlen label hash_value label_prefix).

Definition PTLS_HKDF_EXPAND_LABEL_PREFIX : bytes := str "tls13 ".

(** [label_prefix] may be [NULL] here. *)
Definition ptls_hkdf_expand_label (outlen : nat) (secret label hash_value : bytes) (label_prefix : option bytes) : res bytes :=
  hkdf_expand_label outlen secret label hash_value (default PTLS_HKDF_EXPAND_LABEL_PREFIX label_prefix).

Definition get_traffic_key (key_size : nat) (is_iv : bool) (secret hash_value : bytes) (label_prefix : option bytes) : res bytes :=
  ptls_hkdf_expand_label key_size (take (digest_size algo) secret) (if is_iv then str "iv" else str "key") hash_value label_prefix.
End Hmac.

(** ** AEAD algorithms

    [do_encrypt_update] and [do_encrypt_final] receive what was fed since
    [do_encrypt_init]; [do_decrypt] returns [None] for [SIZE_MAX]. *)
Record ptls_aead_algorithm_t := mk_aead {
  aead_ptr : nat;
  key_size : nat;
  iv_size : nat;
  tag_size : nat;
  setup_crypto : bool -> bytes -> bytes -> bool;
  do_encrypt_update : bytes -> bytes -> Z -> bytes -> bytes -> bytes -> bytes;
  do_encrypt_final : bytes -> bytes -> Z -> bytes -> bytes -> bytes;
  do_decrypt : bytes -> bytes -> Z -> bytes -> bytes -> option bytes
}.

Record ptls_aead_context_t := mk_aead_ctx {
  aead_algo : ptls_aead_algorithm_t;
  aead_is_enc : bool;
  aead_key : bytes;
  aead_iv : bytes
}.

Definition ptls_aead_new_direct (aead : ptls_aead_algorithm_t) (is_enc : bool) (key iv : bytes) : option ptls_aead_context_t :=
  if setup_crypto aead is_enc key iv then Some (mk_aead_ctx aead is_enc key iv) else None.

Definition new_aead (aead : ptls_aead_algorithm_t) (hash : ptls_hash_algorithm_t) (is_enc : bool) (secret hash_value : bytes)
    (label_prefix : option bytes) : res (option ptls_aead_context_t) :=
  let! key := get_traffic_key hash (key_size aead) false secret hash_value label_prefix in
  let! iv := get_traffic_key hash (iv_size aead) true secret hash_value label_prefix in
  Ok (ptls_aead_new_direct aead is_enc key iv).

Definition ptls_aead_new (aead : ptls_aead_algorithm_t) (hash : ptls_hash_algorithm_t) (is_enc : bool) (secret : bytes)
    (label_prefix : option bytes) : res (option ptls_aead_context_t) :=
  new_aead aead hash is_enc secret [] label_prefix.

(** The three calls that encrypt two chunks of input. *)
Definition seal2 (a : ptls_aead_algorithm_t) (key iv : bytes) (seq : Z) (aad x y : bytes) : bytes :=
  do_encrypt_update a key iv seq aad [] x ++ do_encrypt_update a key iv seq aad x y ++
  do_encrypt_final a key iv seq aad (x ++ y).

(** [ptls_aead_encrypt]: one chunk. *)
Definition ptls_aead_encrypt (ctx : ptls_aead_context_t) (input : bytes) (seq : Z) (aad : bytes) : bytes :=
  let a := aead_algo ctx in
  do_encrypt_update a (aead_key ctx) (aead_iv ctx) seq aad [] input ++ do_encrypt_final a (aead_key ctx) (aead_iv ctx) seq aad input.

(** [None] for [SIZE_MAX]. *)
Definition ptls_aead_decrypt (ctx : ptls_aead_context_t) (input : bytes) (seq : Z) (aad : bytes) : option bytes :=
  do_decrypt (aead_algo ctx) (aead_key ctx) (aead_iv ctx) seq aad input.

(** What picotls relies on: decryption inverts encryption under the same key,
    nonce and associated data, ciphertexts are octets longer by the tag, and
    plaintexts shorter by it. *)
Class AeadLaws (a : ptls_aead_algorithm_t) : Prop := {
  open_seal key iv seq aad x y : is_bytes x -> is_bytes y -> do_decrypt a key iv seq aad (seal2 a key iv seq aad x y) = Some (x ++ y);
  seal_length key iv seq aad x y : length (seal2 a key iv seq aad x y) = (length (x ++ y) + tag_size a)%nat;
  seal_bytes key iv seq aad x y : is_bytes (seal2 a key iv seq aad x y);
  open_length key iv seq aad c p : do_decrypt a key iv seq aad c = Some p -> length c = (length p + tag_size a)%nat;
  open_bytes key iv seq aad c p : is_bytes c -> do_decrypt a key iv seq aad c = Some p -> is_bytes p;
  tag_size_max : (tag_size a <= 255)%nat;
  update_nothing key iv seq aad x : do_encrypt_update a key iv seq aad x [] = []
}.

(** ** Nonces *)

(** [for (i = n; i != 0; --i) *d++ = *s++;] *)
Fixpoint copy_loop (n : nat) (s : bytes) : res (bytes * bytes) :=
  match n, s with
  | O, _ => Ok ([], s)
  | S n, b :: s => let! '(d, s) := copy_loop n s in Ok (b :: d, s)
  | S _, [] => Stuck OutOfBounds
  end.

(** [do { i -= 8; *d++ = *s++ ^ (uint8_t)(seq >> i); } while (i != 0);] *)
Fixpoint xor_seq_loop (n : nat) (s : bytes) (seq : Z) : res bytes :=
  match n, s with
  | O, _ => Ok []
  | S n, b :: s => let! d := xor_seq_loop n s seq in Ok (u8 (Z.lxor b (u8 (Z.shiftr seq (8 * Z.of_nat n)))) :: d)
  | S _, [] => Stuck OutOfBounds
  end.

(** With [iv_size < 8] the counter of the first loop wraps around. *)
Definition ptls_aead__build_iv (iv_size : nat) (static_iv : bytes) (seq : Z) : res bytes :=
  if (iv_size <? 8)%nat then Stuck OutOfBounds
  else
    let! '(d, s) := copy_loop (iv_size - 8) static_iv in
    let! x := xor_seq_loop 8 s seq in
    Ok (d ++ x).

(** ** Constant-time comparison *)

Fixpoint mem_equal_loop (len : nat) (x y : bytes) (t : Z) : res Z :=
  match len with
  | O => Ok t
  | S len =>
      match x, y with
      | a :: x, b :: y => mem_equal_loop len x y (u8 (Z.lor t (Z.lxor a b)))
      | _, _ => Stuck OutOfBounds
      end
  end.

Definition ptls_mem_equal (x y : bytes) (len : nat) : res bool := let! t := mem_equal_loop len x y 0 in Ok (t =? 0).

Definition hexdigit (n : Z) : Z := default 0 (str "0123456789abcdef" !! Z.to_nat n).
Definition ptls_hexdump (src : bytes) : bytes :=
  flat_map (fun b => [hexdigit (Z.shiftr b 4); hexdigit (Z.land b 0xf)]) src ++ [0].

(** ** Reference definitions: RFC 2104 and RFC 5869 *)

Section Rfc.
Context (algo : ptls_hash_algorithm_t).

Definition rfc2104_pad (K : bytes) : bytes := K ++ replicate (block_size algo - length K) 0.
Definition HMAC (K text : bytes) : bytes :=
  let K := rfc2104_pad K in
  digest algo (map (Z.lxor 0x5c) K ++ digest algo (map (Z.lxor 0x36) K ++ text)).

(** [T(i) = HMAC(PRK, T(i-1) | info | i)], with [T(0)] empty. *)
Fixpoint rfc5869_T (prk info : bytes) (i : nat) : bytes :=
  match i with
  | O => []
  | S i' => HMAC prk (rfc5869_T prk info i' ++ info ++ [u8 (Z.of_nat i)])
  end.

(** The first [L] octets of [T(1) | T(2) | ...]. *)
Definition rfc5869_expand (prk info : bytes) (L : nat) : bytes :=
  take L (flat_map (rfc5869_T prk info) (seq 1 L)).
End Rfc.

(** ** HMAC *)

Lemma xor_pad_spec pad key :
  is_byte pad -> is_bytes key -> xor_pad pad key = map (Z.lxor pad) key.
Proof.
  intros Hp Hk. unfold xor_pad. induction Hk as [|b key Hb _ IH]; simpl; [done|].
  rewrite IH, u8_id by (by apply lxor_byte). f_equal. apply Z.lxor_comm.
Qed.

Lemma xor_pad_twice pad key : is_byte pad -> is_bytes key -> xor_pad pad (xor_pad pad key) = key.
Proof.
  intros Hp Hk. unfold xor_pad. induction Hk as [|b key Hb _ IH]; simpl; [done|].
  rewrite IH, (u8_id (Z.lxor b pad)) by (by apply lxor_byte).
  rewrite Z.lxor_assoc, Z.lxor_nilpotent, Z.lxor_0_r, u8_id by done. done.
Qed.

Lemma zeroes_bytes n : is_bytes (replicate n 0).
Proof. apply Forall_replicate. done. Qed.
#[export] Hint Resolve zeroes_bytes : ptls.

Section HmacFacts.
Context (algo : ptls_hash_algorithm_t).

Lemma apply_key_spec pad h K :
  is_byte pad -> is_bytes K -> hmac_apply_key (mk_hmac h K) pad = mk_hmac (h ++ map (Z.lxor pad) K) K.
Proof. intros. unfold hmac_apply_key. cbn [hm_hash hm_key]. by rewrite xor_pad_twice, xor_pad_spec. Qed.

Lemma pad_bytes K : is_bytes K -> is_bytes (rfc2104_pad algo K).
Proof. intros. apply Forall_app. split; auto with ptls. Qed.

(** The state of a context created with [K] that has absorbed [text]. *)
Definition hmac_state (K text : bytes) : st_picotls_hmac_context_t :=
  mk_hmac (map (Z.lxor 0x36) (rfc2104_pad algo K) ++ text) (rfc2104_pad algo K).

Lemma hmac_create_spec K :
  is_bytes K -> (length K <= block_size algo)%nat -> ptls_hmac_create algo K = Ok (hmac_state K []).
Proof.
  intros HK Hl. unfold ptls_hmac_create. destruct (Nat.leb_spec (length K) (block_size algo)); [|lia].
  cbn [c_assert res_bind]. fold (rfc2104_pad algo K).
  rewrite apply_key_spec by (done || by apply pad_bytes). unfold hmac_state. by rewrite app_nil_r.
Qed.

Lemma hmac_update_spec K text src : hmac_update (hmac_state K text) src = hmac_state K (text ++ src).
Proof. unfold hmac_update, hmac_state, hash_update. cbn. by rewrite app_assoc. Qed.

Lemma hmac_final_free K text :
  is_bytes K -> hmac_final algo (hmac_state K text) true PTLS_HASH_FINAL_MODE_FREE = Ok (HMAC algo K text, None).
Proof.
  intros HK. unfold hmac_final, hash_final, HMAC. cbn [fst hm_hash hm_key hmac_state].
  rewrite apply_key_spec by (done || by apply pad_bytes). done.
Qed.

Lemma hmac_final_reset K text :
  is_bytes K -> hmac_final algo (hmac_state K text) true PTLS_HASH_FINAL_MODE_RESET
                = Ok (HMAC algo K text, Some (hmac_state K [])).
Proof.
  intros HK. unfold hmac_final, hash_final, HMAC. cbn [fst hm_hash hm_key hmac_state].
  rewrite apply_key_spec by (done || by apply pad_bytes). cbn [hmac_update hm_hash hm_key].
  rewrite apply_key_spec by (done || by apply pad_bytes). unfold hmac_state. by rewrite app_nil_r.
Qed.

Context `{!HashLaws algo}.

Lemma HMAC_length K text : length (HMAC algo K text) = digest_size algo.
Proof. apply digest_length. Qed.

Lemma HMAC_bytes K text : is_bytes (HMAC algo K text).
Proof. apply digest_bytes. Qed.

Lemma hkdf_extract_spec salt ikm :
  is_bytes salt -> (length salt <= block_size algo)%nat ->
  ptls_hkdf_extract algo salt ikm
  = Ok (HMAC algo (if decide (salt = []) then replicate (digest_size algo) 0 else salt) ikm).
Proof.
  intros Hs Hl. unfold ptls_hkdf_extract. set (salt' := if (_ =? _)%nat then _ else _).
  assert (E : salt' = if decide (salt = []) then replicate (digest_size algo) 0 else salt).
  { subst salt'. destruct salt as [|b salt]; [|done]. cbn [length Nat.eqb decide list_eq_nil_dec].
    unfold zeroes_of_max_digest_size. rewrite take_replicate. destruct (decide _); [|done].
    f_equal. pose proof digest_size_max. lia. }
  rewrite hmac_create_spec; rewrite E; clear E salt'.
  - cbn [res_bind]. rewrite hmac_update_spec, hmac_final_free; [done|]. destruct (decide _); auto with ptls.
  - destruct (decide _); auto with ptls.
  - destruct (decide _); [rewrite length_replicate; apply digest_size_block | done].
Qed.

(** ** HKDF-Expand *)

Definition T_prefix (prk info : bytes) (i : nat) : bytes := flat_map (rfc5869_T algo prk info) (seq 1 i).

Lemma T_length prk info i : length (rfc5869_T algo prk info (S i)) = digest_size algo.
Proof. apply HMAC_length. Qed.

Lemma T_prefix_S prk info i : T_prefix prk info (S i) = T_prefix prk info i ++ rfc5869_T algo prk info (S i).
Proof.
  unfold T_prefix. rewrite seq_S, flat_map_app. cbn [flat_map Nat.add]. by rewrite app_nil_r.
Qed.

Lemma T_prefix_length prk info i : length (T_prefix prk info i) = (i * digest_size algo)%nat.
Proof.
  induction i as [|i IH]; [done|]. rewrite T_prefix_S, length_app, IH, T_length. lia.
Qed.

Lemma T_prefix_mono prk info L i j : (L <= i * digest_size algo)%nat -> (i <= j)%nat ->
  take L (T_prefix prk info j) = take L (T_prefix prk info i).
Proof.
  intros HL Hij. induction Hij as [|j Hij IH]; [done|].
  rewrite <- IH, T_prefix_S, take_app_le; [done|]. rewrite T_prefix_length. pose proof digest_size_pos. nia.
Qed.

Lemma hkdf_expand_loop_spec prk info L :
  is_bytes prk -> (length prk <= block_size algo)%nat ->
  forall fuel i out,
  (L <= fuel + i)%nat -> (Nat.pred i * digest_size algo < L \/ i = 0)%nat ->
  out = take L (T_prefix prk info i) ->
  hkdf_expand_loop algo fuel i (if (i =? 0)%nat then None else Some (hmac_state prk []))
    (rfc5869_T algo prk info i) out L prk info = Ok (rfc5869_expand algo prk info L).
Proof.
  intros Hprk Hlen. pose proof digest_size_pos as Hpos.
  assert (Hdone : forall i, (L <= i * digest_size algo)%nat -> (Nat.pred i * digest_size algo < L \/ i = 0)%nat ->
            take L (T_prefix prk info i) = rfc5869_expand algo prk info L).
  { intros i Hi Hp. symmetry. apply T_prefix_mono; [done|]. nia. }
  induction fuel as [|fuel IH]; intros i out Hf Hi Hout; cbn [hkdf_expand_loop];
    destruct (Nat.ltb_spec (i * digest_size algo) L) as [Hlt|Hge]; try (by rewrite Hout, Hdone); [nia|].
  set (m := match (if (i =? 0)%nat then _ else _) with Some _ => _ | None => _ end).
  assert (Hm : m = Ok (hmac_state prk (rfc5869_T algo prk info i))).
  { subst m. destruct i as [|i]; cbn [Nat.eqb]; [by apply hmac_create_spec|].
    rewrite hmac_update_spec, take_ge by (rewrite T_length; lia). done. }
  rewrite Hm. cbn [res_bind]. rewrite !hmac_update_spec, hmac_final_reset by done. cbn [res_bind].
  assert (HT : HMAC algo prk ((rfc5869_T algo prk info i ++ info) ++ [u8 (Z.of_nat i + 1)]) = rfc5869_T algo prk info (S i)).
  { cbn [rfc5869_T]. rewrite <- app_assoc. do 5 f_equal. lia. }
  rewrite HT. apply (IH (S i)); [lia | left; simpl; lia |].
  rewrite T_prefix_S, take_app, T_prefix_length, Hout. f_equal.
  destruct (Nat.ltb_spec L (i * digest_size algo + digest_size algo)); [done|].
  rewrite !take_ge; rewrite ?T_length; done || lia.
Qed.

Lemma hkdf_expand_spec prk info L :
  is_bytes prk -> (length prk <= block_size algo)%nat ->
  ptls_hkdf_expand algo L prk info = Ok (rfc5869_expand algo prk info L).
Proof.
  intros Hp Hl. unfold ptls_hkdf_expand. apply (hkdf_expand_loop_spec prk info L Hp Hl L 0 []); [lia | lia |].
  by destruct L.
Qed.

Lemma rfc5869_expand_length prk info L : length (rfc5869_expand algo prk info L) = L.
Proof.
  unfold rfc5869_expand. fold (T_prefix prk info L). rewrite length_take, T_prefix_length.
  pose proof digest_size_pos. nia.
Qed.

Lemma T_bytes prk info i : is_bytes (rfc5869_T algo prk info i).
Proof. destruct i; [done|]. apply HMAC_bytes. Qed.

Lemma rfc5869_expand_bytes prk info L : is_bytes (rfc5869_expand algo prk info L).
Proof.
  apply Forall_take. apply List.Forall_flat_map. apply List.Forall_forall. intros i _. apply T_bytes.
Qed.

Lemma hkdf_expand_label_spec L secret label hash prefix :
  is_bytes secret -> (length secret <= block_size algo)%nat ->
  hkdf_expand_label algo L secret label hash prefix
  = Ok (rfc5869_expand algo secret (hkdf_label L label hash prefix) L).
Proof. apply hkdf_expand_spec. Qed.

Lemma get_traffic_key_spec n is_iv secret hash prefix :
  is_bytes secret ->
  get_traffic_key algo n is_iv secret hash prefix
  = Ok (rfc5869_expand algo (take (digest_size algo) secret)
          (hkdf_label n (if is_iv then str "iv" else str "key") hash (default PTLS_HKDF_EXPAND_LABEL_PREFIX prefix)) n).
Proof.
  intros Hs. apply hkdf_expand_spec; [by apply Forall_take|].
  rewrite length_take. pose proof digest_size_block. lia.
Qed.
End HmacFacts.

(** ** Nonces and comparison *)

Lemma copy_loop_spec n s : (n <= length s)%nat -> copy_loop n s = Ok (take n s, drop n s).
Proof.
  revert s. induction n as [|n IH]; intros s Hs; [done|]. destruct s as [|b s]; [simpl in Hs; lia|].
  cbn [copy_loop]. rewrite IH by (simpl in Hs; lia). done.
Qed.

Definition xor_list (x y : bytes) : bytes := zip_with Z.lxor x y.

Lemma xor_seq_loop_spec n s seq :
  (n <= length s)%nat -> is_bytes s -> xor_seq_loop n s seq = Ok (xor_list s (be n seq)).
Proof.
  revert s. induction n as [|n IH]; intros s Hs Hb; [by destruct s|]. destruct s as [|b s]; [simpl in Hs; lia|].
  inversion Hb; subst. cbn [xor_seq_loop]. rewrite IH by (simpl in Hs; done || lia). cbn [res_bind be xor_list zip_with].
  rewrite u8_id by (apply lxor_byte; auto with ptls). done.
Qed.

Lemma build_iv_spec n static_iv seq :
  (8 <= n)%nat -> length static_iv = n -> is_bytes static_iv ->
  ptls_aead__build_iv n static_iv seq = Ok (take (n - 8) static_iv ++ xor_list (drop (n - 8) static_iv) (be 8 seq)).
Proof.
  intros Hn Hl Hb. unfold ptls_aead__build_iv. destruct (Nat.ltb_spec n 8); [lia|].
  rewrite copy_loop_spec by lia. cbn [res_bind].
  rewrite xor_seq_loop_spec; [done | rewrite length_drop; lia | by apply Forall_drop].
Qed.

Lemma xor_list_inj s x y :
  length s = length x -> length s = length y -> xor_list s x = xor_list s y -> x = y.
Proof.
  revert x y. induction s as [|b s IH]; intros [|c x] [|d y]; simpl; try done.
  intros [= Hx] [= Hy] [= Hbd Hxy]. f_equal; [|by apply IH].
  apply (f_equal (Z.lxor b)) in Hbd. by rewrite <- !Z.lxor_assoc, !Z.lxor_nilpotent, !Z.lxor_0_l in Hbd.
Qed.

Lemma mem_equal_loop_spec len x y t :
  (len <= length x)%nat -> (len <= length y)%nat -> is_bytes x -> is_bytes y -> is_byte t ->
  exists t', mem_equal_loop len x y t = Ok t' /\ (t' = 0 <-> t = 0 /\ take len x = take len y).
Proof.
  revert x y t. induction len as [|len IH]; intros x y t Hx Hy Hbx Hby Ht; [exists t; cbn; naive_solver|].
  destruct x as [|a x]; [simpl in Hx; lia|]. destruct y as [|b y]; [simpl in Hy; lia|].
  inversion Hbx; inversion Hby; subst. cbn [mem_equal_loop].
  destruct (IH x y (u8 (Z.lor t (Z.lxor a b)))) as (t' & -> & Ht'); [simpl in *; lia.. | done | done | apply u8_range |].
  exists t'. split; [done|]. rewrite Ht'. cbn [take firstn].
  assert (Hlor : is_byte (Z.lor t (Z.lxor a b))) by (apply lor_byte; [done | by apply lxor_byte]).
  rewrite u8_id, Z.lor_eq_0_iff, Z.lxor_eq_0_iff by done. split; [intros [[-> ->] ->]; done | intros [-> [= -> ->]]; done].
Qed.

Lemma mem_equal_spec x y len :
  (len <= length x)%nat -> (len <= length y)%nat -> is_bytes x -> is_bytes y ->
  ptls_mem_equal x y len = Ok (bool_decide (take len x = take len y)).
Proof.
  intros Hx Hy Hbx Hby. unfold ptls_mem_equal.
  destruct (mem_equal_loop_spec len x y 0 Hx Hy Hbx Hby) as (t' & -> & Ht); [done|]. cbn [res_bind]. f_equal.
  destruct (Z.eqb_spec t' 0) as [E|E]; case_bool_decide; try done; tauto.
Qed.

(** ** Instances: a concrete hash and AEAD for the examples

    A checksum and a one-time-pad-like cipher: they satisfy the laws and make the
    definitions above run; nothing depends on them. *)

Definition toy_hash : ptls_hash_algorithm_t :=
  mk_hash 1 64 32 (fun m => be 32 (foldl (fun acc b => (acc * 257 + b + 1) mod 2 ^ 64) 7 m)) (be 32 7).

#[export] Instance toy_hash_laws : HashLaws toy_hash.
Proof.
  constructor; cbn [toy_hash digest digest_size block_size empty_digest]; intros; try apply length_be; try apply be_bytes.
  - lia.
  - lia.
  - unfold PTLS_MAX_DIGEST_SIZE. lia.
  - done.
Qed.

(** The tag is the key, nonce and associated data folded together with the text. *)
Definition toy_tag (key iv : bytes) (seq : Z) (aad m : bytes) : bytes :=
  be 16 (foldl (fun acc b => acc * 257 + b) seq (key ++ iv ++ aad ++ m)).
Definition toy_aead : ptls_aead_algorithm_t :=
  mk_aead 1 16 12 16 (fun _ _ _ => true)
    (fun _ _ _ _ _ x => map u8 x) (fun key iv seq aad fed => toy_tag key iv seq aad (map u8 fed))
    (fun key iv seq aad c =>
       let n := (length c - 16)%nat in
       if bool_decide (16 <= length c)%nat && bool_decide (drop n c = toy_tag key iv seq aad (take n c))
       then Some (take n c) else None).

#[export] Instance toy_aead_laws : AeadLaws toy_aead.
Proof.
  assert (Hu : forall x, is_bytes x -> map u8 x = x).
  { induction 1; simpl; [done|]. by rewrite u8_id, IHForall by done. }
  assert (Hub : forall x, is_bytes (map u8 x)) by (induction x; simpl; constructor; auto with ptls).
  constructor; unfold seal2, toy_aead; cbn [do_decrypt do_encrypt_update do_encrypt_final tag_size]; intros.
  - rewrite (Hu x), (Hu y), (Hu (x ++ y)), app_assoc by (try apply Forall_app; done).
    set (t := toy_tag _ _ _ _ _). assert (Ht : length t = 16%nat) by apply length_be.
    rewrite length_app, Ht. replace (length (x ++ y) + 16 - 16)%nat with (length (x ++ y)) by lia.
    rewrite !drop_app_length, !take_app_length. rewrite !bool_decide_eq_true_2; [done | done | lia].
  - unfold toy_tag. rewrite !length_app, !length_map, length_be. lia.
  - repeat apply Forall_app_2; auto. apply be_bytes.
  - destruct (bool_decide (16 <= length c)%nat) eqn:E1; [|done]. apply bool_decide_eq_true_1 in E1.
    destruct (bool_decide _); [|done]. simplify_eq/=. rewrite length_take. lia.
  - destruct (_ && _); [|done]. simplify_eq/=. by apply Forall_take.
  - lia.
  - done.
Qed.

Lemma encrypt_seal2 ctx input seq aad `{!AeadLaws (aead_algo ctx)} :
  ptls_aead_encrypt ctx input seq aad = seal2 (aead_algo ctx) (aead_key ctx) (aead_iv ctx) seq aad input [].
Proof. unfold ptls_aead_encrypt, seal2. by rewrite update_nothing, app_nil_r. Qed.

Lemma decrypt_encrypt e d input seq aad `{!AeadLaws (aead_algo e)} :
  aead_algo d = aead_algo e -> aead_key d = aead_key e -> aead_iv d = aead_iv e -> is_bytes input ->
  ptls_aead_decrypt d (ptls_aead_encrypt e input seq aad) seq aad = Some input.
Proof.
  intros Ha Hk Hi Hb. rewrite encrypt_seal2 by done. unfold ptls_aead_decrypt. rewrite Ha, Hk, Hi.
  rewrite open_seal; [by rewrite app_nil_r | done | constructor].
Qed.

(** ** Properties *)

(** C28: the HMAC context computes RFC 2104: after [ptls_hmac_create] with a key of
    at most a block and any sequence of updates, [hmac_final] returns the HMAC of
    the concatenation of the updates, and in RESET mode leaves a context that
    equals a freshly created one. *)
Theorem hmac_is_rfc2104 algo K ctx (chunks : list bytes) :
  is_bytes K -> (length K <= block_size algo)%nat -> ptls_hmac_create algo K = Ok ctx ->
  let ctx' := foldl hmac_update ctx chunks in
  hmac_final algo ctx' true PTLS_HASH_FINAL_MODE_FREE = Ok (HMAC algo K (concat chunks), None) /\
  hmac_final algo ctx' true PTLS_HASH_FINAL_MODE_RESET = Ok (HMAC algo K (concat chunks), Some ctx).
Proof.
  intros HK Hl. rewrite hmac_create_spec by done. intros [= <-]. cbv zeta.
  assert (E : forall t, foldl hmac_update (hmac_state algo K t) chunks = hmac_state algo K (t ++ concat chunks)).
  { induction chunks as [|c chunks IH]; intros t; simpl; [by rewrite app_nil_r|].
    by rewrite hmac_update_spec, IH, <- app_assoc. }
  rewrite E. cbn [app]. by rewrite hmac_final_free, hmac_final_reset.
Qed.

Lemma hmac_is_rfc2104_witness :
  exists ctx, ptls_hmac_create toy_hash [1; 2; 3] = Ok ctx /\
    hmac_final toy_hash (foldl hmac_update ctx [[4]; [5; 6]]) true PTLS_HASH_FINAL_MODE_FREE
    = Ok (HMAC toy_hash [1; 2; 3] [4; 5; 6], None).
Proof.
  eexists. split; [vm_compute; reflexivity|].
  apply (hmac_is_rfc2104 toy_hash [1; 2; 3] _ [[4]; [5; 6]]); [by repeat constructor | simpl; lia | vm_compute; reflexivity].
Defined.

(** C29: [ptls_hkdf_expand] computes HKDF-Expand of RFC 5869 for every output
    length (the block counter is an octet, as in the RFC), without exhausting its
    loop bound, and the output has the length asked for. *)
Theorem hkdf_expand_is_rfc5869 algo `{!HashLaws algo} prk info L :
  is_bytes prk -> (length prk <= block_size algo)%nat ->
  ptls_hkdf_expand algo L prk info = Ok (rfc5869_expand algo prk info L) /\
  length (rfc5869_expand algo prk info L) = L.
Proof. intros Hp Hl. split; [by apply hkdf_expand_spec | by apply rfc5869_expand_length]. Qed.

Lemma hkdf_expand_is_rfc5869_witness :
  ptls_hkdf_expand toy_hash 70 [1; 2] [3] = Ok (rfc5869_expand toy_hash [1; 2] [3] 70).
Proof. apply (hkdf_expand_is_rfc5869 toy_hash [1; 2] [3] 70); [by repeat constructor | simpl; lia]. Defined.

(** The [HkdfLabel] structure is unambiguous: within the ranges of its fields,
    equal encodings under one prefix come from equal lengths, labels and hash
    values, so two different derivations never feed HKDF-Expand the same info. *)
Theorem hkdf_label_unambiguous prefix L1 l1 h1 L2 l2 h2 :
  Z.of_nat L1 < 2 ^ 16 -> Z.of_nat L2 < 2 ^ 16 ->
  Z.of_nat (length (prefix ++ l1)) < 2 ^ 8 -> Z.of_nat (length (prefix ++ l2)) < 2 ^ 8 ->
  hkdf_label L1 l1 h1 prefix = hkdf_label L2 l2 h2 prefix -> L1 = L2 /\ l1 = l2 /\ h1 = h2.
Proof.
  intros HL1 HL2 Hl1 Hl2. unfold hkdf_label, push_block. rewrite !push16_be, <- !app_assoc. intros E.
  apply app_inj_1 in E as [E16 E]; [|by rewrite !length_be].
  apply (f_equal of_be) in E16. rewrite !of_be_be_small in E16 by lia.
  apply app_inj_1 in E as [E8 E]; [|by rewrite !length_be].
  apply (f_equal of_be) in E8. rewrite !of_be_be_small in E8 by lia.
  assert (Hlen : length l1 = length l2) by (rewrite !length_app in E8; lia).
  apply app_inv_head in E. apply app_inj_1 in E as [-> E]; [|done].
  apply app_inj_1 in E as [_ E]; [|by rewrite !length_be]. split_and!; [lia | done | done].
Qed.

Lemma hkdf_label_unambiguous_witness :
  hkdf_label 16 (str "key") [] (str "tls13 ") = hkdf_label 16 (str "key") [] (str "tls13 ") /\ (16 = 16)%nat.
Proof.
  split; [done|].
  apply (hkdf_label_unambiguous (str "tls13 ") 16 (str "key") [] 16 (str "key") []); [done..|]. reflexivity.
Defined.

(** C30: nonces do not repeat: for a static IV of at least 8 octets, the per-record
    IVs of two different 64-bit sequence numbers differ (and both are built
    without reading or writing outside of the IV). *)
Theorem nonce_unique n static_iv seq1 seq2 :
  (8 <= n)%nat -> length static_iv = n -> is_bytes static_iv ->
  0 <= seq1 < 2 ^ 64 -> 0 <= seq2 < 2 ^ 64 ->
  exists iv1 iv2,
    ptls_aead__build_iv n static_iv seq1 = Ok iv1 /\ ptls_aead__build_iv n static_iv seq2 = Ok iv2 /\
    length iv1 = n /\ (iv1 = iv2 -> seq1 = seq2).
Proof.
  intros Hn Hl Hb H1 H2. do 2 eexists. split_and!; [by apply build_iv_spec | by apply build_iv_spec | |].
  - unfold xor_list. rewrite length_app, length_take, length_zip_with, length_drop, length_be. lia.
  - intros E. apply app_inv_head, xor_list_inj in E; [|rewrite length_drop, length_be; lia..].
    apply (f_equal of_be) in E. rewrite !of_be_be_small in E by lia. done.
Qed.

Lemma nonce_unique_witness :
  exists iv1 iv2, ptls_aead__build_iv 12 (be 12 99) 5 = Ok iv1 /\ ptls_aead__build_iv 12 (be 12 99) 6 = Ok iv2 /\ iv1 <> iv2.
Proof.
  destruct (nonce_unique 12 (be 12 99) 5 6) as (iv1 & iv2 & E1 & E2 & _ & H); [lia | done | by repeat constructor | lia | lia |].
  exists iv1, iv2. split_and!; [done | done |]. intros E. by apply H in E.
Defined.

(** [ptls_mem_equal] decides equality of the first [len] octets. *)
Theorem mem_equal_correct x y len :
  (len <= length x)%nat -> (len <= length y)%nat -> is_bytes x -> is_bytes y ->
  (ptls_mem_equal x y len = Ok true <-> take len x = take len y) /\
  (ptls_mem_equal x y len = Ok false <-> take len x <> take len y).
Proof.
  intros Hx Hy Hbx Hby. rewrite mem_equal_spec by done. case_bool_decide; naive_solver.
Qed.

Lemma mem_equal_correct_witness : ptls_mem_equal [1; 2; 3] [1; 2; 4] 2 = Ok true.
Proof. apply (mem_equal_correct [1; 2; 3] [1; 2; 4] 2); [simpl; lia | simpl; lia | by repeat constructor | by repeat constructor | done]. Defined.
