(* ===== verification/Fips180.v ===== *)
(** * Fips180: the Secure Hash Standard

    SHA-256, SHA-384 and SHA-512 as FIPS 180-4 defines them, for [Sha2] to be
    compared with.  Nothing here is taken from the implementation: the functions and
    the schedule are those of sections 4.1 and 6 of the standard, and the constants are
    computed from their description in sections 4.2 and 5.3, as the fractional parts
    of square and cube roots of the first primes. *)
From S2P Require Import Prelude Blockwise.

Module FIPS180.

(** ** Roots and primes *)

(** The largest [r] below [acc + 2^bits] with [r^k <= n]. *)
Fixpoint root_bits (bits : nat) (k n acc : Z) : Z :=
  match bits with
  | O => acc
  | S bits => let r := acc + 2 ^ Z.of_nat bits in root_bits bits k n (if r ^ k <=? n then r else acc)
  end.
(** The integer part of the [k]-th root, below [2^128]. *)
Definition root (k n : Z) : Z := root_bits 128 k n 0.

Lemma root_bits_spec bits k n acc :
  0 < k -> 0 <= acc -> acc ^ k <= n < (acc + 2 ^ Z.of_nat bits) ^ k ->
  let r := root_bits bits k n acc in 0 <= r /\ r ^ k <= n < (r + 1) ^ k.
Proof.
  intros Hk. revert acc. induction bits as [|bits IH]; intros acc Hacc Hn; cbn [root_bits]; [done|].
  assert (E : 2 ^ Z.of_nat (S bits) = 2 ^ Z.of_nat bits + 2 ^ Z.of_nat bits) by (rewrite Nat2Z.inj_succ, Z.pow_succ_r by lia; lia).
  pose proof (Z.pow_pos_nonneg 2 (Z.of_nat bits)). rewrite E, Z.add_assoc in Hn.
  destruct (Z.leb_spec ((acc + 2 ^ Z.of_nat bits) ^ k) n); apply IH; lia.
Qed.

(** The root is determined by the two inequations. *)
Lemma root_bits_unique bits k n r :
  0 < k -> 0 <= r -> r ^ k <= n < (r + 1) ^ k -> (r + 1) ^ k <= (2 ^ Z.of_nat bits) ^ k -> root_bits bits k n 0 = r.
Proof.
  intros Hk Hr Hn Hmax. assert (H0 : 0 <= r ^ k) by (apply Z.pow_nonneg; lia).
  destruct (root_bits_spec bits k n 0 Hk ltac:(lia)) as [Hs0 Hs]; [rewrite Z.pow_0_l, Z.add_0_l by lia; lia|].
  set (s := root_bits bits k n 0) in *. clearbody s.
  assert (Hle : forall a b, 0 <= a -> 0 <= b -> a ^ k < (b + 1) ^ k -> a <= b).
  { intros a b Ha Hb Hlt. destruct (Z.le_gt_cases (b + 1) a) as [Hge|]; [|lia].
    pose proof (Z.pow_le_mono_l (b + 1) a k ltac:(lia)). lia. }
  pose proof (Hle s r ltac:(lia) ltac:(lia) ltac:(lia)). pose proof (Hle r s ltac:(lia) ltac:(lia) ltac:(lia)). lia.
Qed.

Definition prime (p : Z) : bool := forallb (fun d => (p <? d * d) || negb (p mod d =? 0)) (map Z.of_nat (seq 2 19)).
(** The primes below 441, in order (those up to the eightieth are needed). *)
Definition primes : list Z := filter (fun p => prime p = true) (map Z.of_nat (seq 2 439)).

(** The first [w] bits of the fractional part of the [k]-th root of [p]. *)
Definition fraction (w k p : Z) : Z := root k (p * 2 ^ (k * w)) mod 2 ^ w.

(** ** The functions *)

(** Section 4.1: rotation amounts of the large and of the small sigma functions; the
    last one of a small sigma is a shift. *)
Record variant := mk_variant {
  w : Z;
  rounds : nat;
  Sigma0_by : Z * Z * Z;
  Sigma1_by : Z * Z * Z;
  sigma0_by : Z * Z * Z;
  sigma1_by : Z * Z * Z
}.
Definition words32 : variant := mk_variant 32 64 (2, 13, 22) (6, 11, 25) (7, 18, 3) (17, 19, 10).
Definition words64 : variant := mk_variant 64 80 (28, 34, 39) (14, 18, 41) (1, 8, 7) (19, 61, 6).

Section Variant.
Context (V : variant).

Definition ROTR (n x : Z) : Z := Z.lor (Z.shiftr x n) (Z.shiftl x (w V - n) mod 2 ^ w V).
Definition SHR (n x : Z) : Z := Z.shiftr x n.
(** Addition modulo [2^w]. *)
Definition sum (l : list Z) : Z := foldr Z.add 0 l mod 2 ^ w V.
Definition complement (x : Z) : Z := (2 ^ w V - 1 - x) mod 2 ^ w V.
Definition Ch (x y z : Z) : Z := Z.lxor (Z.land x y) (Z.land (complement x) z).
Definition Maj (x y z : Z) : Z := Z.lxor (Z.land x y) (Z.lxor (Z.land x z) (Z.land y z)).
Definition Sigma (by_ : Z * Z * Z) (x : Z) : Z := let '(a, b, c) := by_ in Z.lxor (ROTR a x) (Z.lxor (ROTR b x) (ROTR c x)).
Definition sigma (by_ : Z * Z * Z) (x : Z) : Z := let '(a, b, c) := by_ in Z.lxor (ROTR a x) (Z.lxor (ROTR b x) (SHR c x)).

(** Section 4.2. *)
Definition K : list Z := map (fraction (w V) 3) (take (rounds V) primes).

(** ** Section 5: padding and parsing *)

Definition word_size : nat := Z.to_nat (w V / 8).
Definition block_size : nat := 16 * word_size.
(** A one bit, zeroes, and the length in bits in two words. *)
Definition pad (msg : bytes) : bytes :=
  let lensz := (2 * word_size)%nat in
  msg ++ 0x80 :: replicate (Z.to_nat ((- Z.of_nat (length msg + 1 + lensz)) mod Z.of_nat block_size)) 0
  ++ be lensz (8 * Z.of_nat (length msg)).
Definition parse (x : bytes) : list bytes := blocks_of block_size (length x / block_size) x.
Definition message_words (block : bytes) : list Z := map of_be (blocks_of word_size 16 block).

(** ** Section 6: the computation *)

Definition schedule_word (W : list Z) : Z :=
  let t := length W in
  sum [sigma (sigma1_by V) (W !!! (t - 2)%nat); W !!! (t - 7)%nat; sigma (sigma0_by V) (W !!! (t - 15)%nat); W !!! (t - 16)%nat].
Definition schedule (M : list Z) : list Z := Nat.iter (rounds V - 16) (fun W => W ++ [schedule_word W]) M.

Definition round (v : list Z) (kw : Z * Z) : list Z :=
  match v with
  | [a; b; c; d; e; f; g; h] =>
      let T1 := sum [h; Sigma (Sigma1_by V) e; Ch e f g; kw.1; kw.2] in
      let T2 := sum [Sigma (Sigma0_by V) a; Maj a b c] in
      [sum [T1; T2]; a; b; c; sum [d; T1]; e; f; g]
  | _ => v
  end.
Definition compress (H : list Z) (block : bytes) : list Z :=
  zip_with (fun x y => sum [x; y]) H (foldl round H (zip K (schedule (message_words block)))).
Definition hash (H0 : list Z) (msg : bytes) : bytes := concat (map (be word_size) (foldl compress H0 (parse (pad msg)))).
End Variant.

(** Section 5.3: the initial hash values are taken from the square roots of the first
    eight primes; those of SHA-384 from the ninth to the sixteenth. *)
Definition SHA256 : bytes -> bytes := hash words32 (map (fraction 32 2) (take 8 primes)).
Definition SHA512 : bytes -> bytes := hash words64 (map (fraction 64 2) (take 8 primes)).
Definition SHA384 (msg : bytes) : bytes := take 48 (hash words64 (map (fraction 64 2) (take 8 (drop 8 primes))) msg).

(** ** Checking constants *)

(** [c] is the fraction if the integer part in front of it makes it a root. *)
Definition is_fraction (w k p c : Z) : bool :=
  let r := root_bits 4 k p 0 * 2 ^ w + c in
  let n := p * 2 ^ (k * w) in
  (0 <=? c) && (c <? 2 ^ w) && (0 <=? r) && (r ^ k <=? n) && (n <? (r + 1) ^ k) && ((r + 1) ^ k <=? (2 ^ Z.of_nat 128) ^ k).
Lemma is_fraction_spec w k p c : 0 < k -> is_fraction w k p c = true -> fraction w k p = c.
Proof.
  unfold is_fraction, fraction, root. generalize 128%nat as bits. generalize (root_bits 4 k p 0) as q. intros q bits Hk H. cbv zeta in H. b2p.
  rewrite (root_bits_unique bits k _ (q * 2 ^ w + c)) by lia.
  rewrite Z.add_comm, Z.mod_add, Z.mod_small by lia. done.
Qed.
Lemma fractions_spec w k ps cs : 0 < k -> length ps = length cs -> forallb (fun pc => is_fraction w k pc.1 pc.2) (zip ps cs) = true -> map (fraction w k) ps = cs.
Proof.
  intros Hk. revert cs. induction ps as [|p ps IH]; intros [|c cs] Hl H; try done. cbn in H. apply andb_true_iff in H as [H1 H2].
  cbn [map]. rewrite (is_fraction_spec _ _ _ _ Hk H1). f_equal. apply IH; [by injection Hl | done].
Qed.
End FIPS180.
