(* ===== verification/Sha2.v ===== *)
(** * Sha2: SHA-256, SHA-384 and SHA-512 of the minicrypto backend

    [src/deps/cifra/src/sha256.c], [src/deps/cifra/src/sha512.c], the hash contexts
    that [ptls_define_hash] of [picotls.h] builds from them, and the algorithms
    [ptls_minicrypto_sha256] and [ptls_minicrypto_sha384]. The two C files are the same
    text with another word: the definitions take the word as a parameter.

    Main results: the streaming implementation (circular message schedule, block
    buffer, 32-bit block counter) computes the functions of FIPS 180-4 however the
    message is cut up; the contexts implement the abstract hash contexts of [Crypto],
    and the algorithms satisfy [HashLaws]. *)
From S2P Require Import Prelude Blockwise Crypto Fips180.

(** ** The parameters of the two files *)

Record sha2_word := mk_sha2 {
  word_bits : Z;
  word_octets : nat;
  num_rounds : nat;
  K : list Z;
  BSIG0 : Z -> Z;
  BSIG1 : Z -> Z;
  SSIG0 : Z -> Z;
  SSIG1 : Z -> Z;
  read_word : bytes -> nat -> res Z;
  write_word : Z -> bytes
}.

(** The words of [n] octets each, most significant octet first. *)
Definition words_of (n : nat) (l : bytes) : list Z := map of_be (blocks_of n (length l / n) l).

Definition K256 : list Z := words_of 4
  (hex "428a2f9871374491b5c0fbcfe9b5dba5" ++
   hex "3956c25b59f111f1923f82a4ab1c5ed5" ++
   hex "d807aa9812835b01243185be550c7dc3" ++
   hex "72be5d7480deb1fe9bdc06a7c19bf174" ++
   hex "e49b69c1efbe47860fc19dc6240ca1cc" ++
   hex "2de92c6f4a7484aa5cb0a9dc76f988da" ++
   hex "983e5152a831c66db00327c8bf597fc7" ++
   hex "c6e00bf3d5a7914706ca635114292967" ++
   hex "27b70a852e1b21384d2c6dfc53380d13" ++
   hex "650a7354766a0abb81c2c92e92722c85" ++
   hex "a2bfe8a1a81a664bc24b8b70c76c51a3" ++
   hex "d192e819d6990624f40e3585106aa070" ++
   hex "19a4c1161e376c082748774c34b0bcb5" ++
   hex "391c0cb34ed8aa4a5b9cca4f682e6ff3" ++
   hex "748f82ee78a5636f84c878148cc70208" ++
   hex "90befffaa4506cebbef9a3f7c67178f2").
Definition K512 : list Z := words_of 8
  (hex "428a2f98d728ae227137449123ef65cd" ++
   hex "b5c0fbcfec4d3b2fe9b5dba58189dbbc" ++
   hex "3956c25bf348b53859f111f1b605d019" ++
   hex "923f82a4af194f9bab1c5ed5da6d8118" ++
   hex "d807aa98a303024212835b0145706fbe" ++
   hex "243185be4ee4b28c550c7dc3d5ffb4e2" ++
   hex "72be5d74f27b896f80deb1fe3b1696b1" ++
   hex "9bdc06a725c71235c19bf174cf692694" ++
   hex "e49b69c19ef14ad2efbe4786384f25e3" ++
   hex "0fc19dc68b8cd5b5240ca1cc77ac9c65" ++
   hex "2de92c6f592b02754a7484aa6ea6e483" ++
   hex "5cb0a9dcbd41fbd476f988da831153b5" ++
   hex "983e5152ee66dfaba831c66d2db43210" ++
   hex "b00327c898fb213fbf597fc7beef0ee4" ++
   hex "c6e00bf33da88fc2d5a79147930aa725" ++
   hex "06ca6351e003826f142929670a0e6e70" ++
   hex "27b70a8546d22ffc2e1b21385c26c926" ++
   hex "4d2c6dfc5ac42aed53380d139d95b3df" ++
   hex "650a73548baf63de766a0abb3c77b2a8" ++
   hex "81c2c92e47edaee692722c851482353b" ++
   hex "a2bfe8a14cf10364a81a664bbc423001" ++
   hex "c24b8b70d0f89791c76c51a30654be30" ++
   hex "d192e819d6ef5218d69906245565a910" ++
   hex "f40e35855771202a106aa07032bbd1b8" ++
   hex "19a4c116b8d2d0c81e376c085141ab53" ++
   hex "2748774cdf8eeb9934b0bcb5e19b48a8" ++
   hex "391c0cb3c5c95a634ed8aa4ae3418acb" ++
   hex "5b9cca4f7763e373682e6ff3d6b2b8a3" ++
   hex "748f82ee5defb2fc78a5636f43172f60" ++
   hex "84c87814a1f0ab728cc702081a6439ec" ++
   hex "90befffa23631e28a4506cebde82bde9" ++
   hex "bef9a3f7b2c67915c67178f2e372532b" ++
   hex "ca273eceea26619cd186b8c721c0c207" ++
   hex "eada7dd6cde0eb1ef57d4f7fee6ed178" ++
   hex "06f067aa72176fba0a637dc5a2c898a6" ++
   hex "113f9804bef90dae1b710b35131c471b" ++
   hex "28db77f523047d8432caab7b40c72493" ++
   hex "3c9ebe0a15c9bebc431d67c49c100d4c" ++
   hex "4cc5d4becb3e42b6597f299cfc657e2a" ++
   hex "5fcb6fab3ad6faec6c44198c4a475817").

Definition sha256_word : sha2_word := mk_sha2 32 4 64 K256
  (fun x => Z.lxor (Z.lxor (rotr32 x 2) (rotr32 x 13)) (rotr32 x 22))
  (fun x => Z.lxor (Z.lxor (rotr32 x 6) (rotr32 x 11)) (rotr32 x 25))
  (fun x => Z.lxor (Z.lxor (rotr32 x 7) (rotr32 x 18)) (Z.shiftr x 3))
  (fun x => Z.lxor (Z.lxor (rotr32 x 17) (rotr32 x 19)) (Z.shiftr x 10))
  read32_be write32_be.
Definition sha512_word : sha2_word := mk_sha2 64 8 80 K512
  (fun x => Z.lxor (Z.lxor (rotr64 x 28) (rotr64 x 34)) (rotr64 x 39))
  (fun x => Z.lxor (Z.lxor (rotr64 x 14) (rotr64 x 18)) (rotr64 x 41))
  (fun x => Z.lxor (Z.lxor (rotr64 x 1) (rotr64 x 8)) (Z.shiftr x 7))
  (fun x => Z.lxor (Z.lxor (rotr64 x 19) (rotr64 x 61)) (Z.shiftr x 6))
  read64_be write64_be.

(** Eight words: the array [H] and the variables [a] to [h]. *)
Record words8 := W8 { w_a : Z; w_b : Z; w_c : Z; w_d : Z; w_e : Z; w_f : Z; w_g : Z; w_h : Z }.

Record cf_sha2_context := mk_sha2_ctx {
  sha_H : words8;
  sha_partial : bytes;
  sha_blocks : Z;
  sha_npartial : nat
}.
#[export] Instance eta_sha2 : Eta cf_sha2_context := fun r => mk_sha2_ctx (sha_H r) (sha_partial r) (sha_blocks r) (sha_npartial r).

Definition cf_sha256_init : cf_sha2_context := mk_sha2_ctx
  (W8 0x6a09e667 0xbb67ae85 0x3c6ef372 0xa54ff53a 0x510e527f 0x9b05688c 0x1f83d9ab 0x5be0cd19)
  (replicate 64 0) 0 0.
Definition cf_sha512_init : cf_sha2_context := mk_sha2_ctx
  (W8 0x6a09e667f3bcc908 0xbb67ae8584caa73b 0x3c6ef372fe94f82b 0xa54ff53a5f1d36f1 0x510e527fade682d1 0x9b05688c2b3e6c1f 0x1f83d9abfb41bd6b 0x5be0cd19137e2179)
  (replicate 128 0) 0 0.
Definition cf_sha384_init : cf_sha2_context := mk_sha2_ctx
  (W8 0xcbbb9d5dc1059ed8 0x629a292a367cd507 0x9159015a3070dd17 0x152fecd8f70e5939 0x67332667ffc00b31 0x8eb44a8768581511 0xdb0c2e0d64f98fa7 0x47b5481dbefa4fa4)
  (replicate 128 0) 0 0.

(** ** The compression function *)

Section Sha2.
Context (P : sha2_word).

Definition wadd (x y : Z) : Z := (x + y) mod 2 ^ word_bits P.
Definition CH (x y z : Z) : Z := Z.lxor (Z.land x y) (Z.land (Z.lnot x mod 2 ^ word_bits P) z).
Definition MAJ (x y z : Z) : Z := Z.lxor (Z.lxor (Z.land x y) (Z.land x z)) (Z.land y z).

(** One turn of the loop: the variables, the word of the schedule and the constant. *)
Definition sha2_round (v : words8) (k Wt : Z) : words8 :=
  let '(W8 a b c d e f g h) := v in
  let T1 := wadd (wadd (wadd (wadd h (BSIG1 P e)) (CH e f g)) k) Wt in
  let T2 := wadd (BSIG0 P a) (MAJ a b c) in
  W8 (wadd T1 T2) a b c (wadd d T1) e f g.

(** The word of turn [t], with the window of the last sixteen. *)
Definition next_word (inp : bytes) (W : list Z) (t : nat) : res (Z * list Z) :=
  if (t <? 16)%nat then
    let! Wt := read_word P inp (t * word_octets P) in
    Ok (Wt, <[t := Wt]> W)
  else
    let! w2 := rd W ((t - 2) mod 16) in
    let! w7 := rd W ((t - 7) mod 16) in
    let! w15 := rd W ((t - 15) mod 16) in
    let! w16 := rd W ((t - 16) mod 16) in
    let Wt := wadd (wadd (wadd (SSIG1 P w2) w7) (SSIG0 P w15)) w16 in
    Ok (Wt, <[(t mod 16)%nat := Wt]> W).

Fixpoint sha2_loop (n t : nat) (inp : bytes) (W : list Z) (v : words8) : res words8 :=
  match n with
  | O => Ok v
  | S n =>
      let! '(Wt, W) := next_word inp W t in
      let! k := rd (K P) t in
      sha2_loop n (S t) inp W (sha2_round v k Wt)
  end.

Definition add_words (x y : words8) : words8 :=
  W8 (wadd (w_a x) (w_a y)) (wadd (w_b x) (w_b y)) (wadd (w_c x) (w_c y)) (wadd (w_d x) (w_d y))
     (wadd (w_e x) (w_e y)) (wadd (w_f x) (w_f y)) (wadd (w_g x) (w_g y)) (wadd (w_h x) (w_h y)).

(** [sha256_update_block], [sha512_update_block] *)
Definition sha2_update_block (ctx : cf_sha2_context) (inp : bytes) : res cf_sha2_context :=
  let! v := sha2_loop (num_rounds P) 0 inp (replicate 16 0) (sha_H ctx) in
  Ok (ctx <| sha_H := add_words (sha_H ctx) v |> <| sha_blocks := u32 (sha_blocks ctx + 1) |>).

Definition block_octets : nat := 16 * word_octets P.

(** The state that the buffering functions take, and how it is put back. *)
Definition sha2_state (ctx : cf_sha2_context) : bytes * nat * cf_sha2_context := (sha_partial ctx, sha_npartial ctx, ctx).
Definition sha2_ctx (st : bytes * nat * cf_sha2_context) : cf_sha2_context :=
  let '(partial, npartial, ctx) := st in ctx <| sha_partial := partial |> <| sha_npartial := npartial |>.

(** [cf_sha256_update], [cf_sha512_update] *)
Definition cf_sha2_update (ctx : cf_sha2_context) (data : bytes) : res cf_sha2_context :=
  let! st := cf_blockwise_accumulate block_octets sha2_update_block (sha2_state ctx) data in Ok (sha2_ctx st).

Definition write_words (v : words8) : bytes :=
  write_word P (w_a v) ++ write_word P (w_b v) ++ write_word P (w_c v) ++ write_word P (w_d v) ++
  write_word P (w_e v) ++ write_word P (w_f v) ++ write_word P (w_g v) ++ write_word P (w_h v).

(** The number of padding octets: [lensz] octets are left for the length. *)
Definition digested_bytes (ctx : cf_sha2_context) : Z := u64 (u64 (sha_blocks ctx * Z.of_nat block_octets) + Z.of_nat (sha_npartial ctx)).
Definition padbytes (ctx : cf_sha2_context) (lensz : Z) : nat :=
  Z.to_nat (Z.of_nat block_octets - u64 (digested_bytes ctx + lensz) mod Z.of_nat block_octets).
Definition sha2_pad (ctx : cf_sha2_context) (lensz : Z) : res cf_sha2_context :=
  let! st := cf_blockwise_acc_pad block_octets sha2_update_block (sha2_state ctx) 0x80 0 0 (padbytes ctx lensz) in Ok (sha2_ctx st).
Definition sha2_output (ctx : cf_sha2_context) : res bytes :=
  let! _ := c_assert (sha_npartial ctx =? 0)%nat in
  Ok (write_words (sha_H ctx)).
End Sha2.

(** [memset(ctx, 0, sizeof *ctx)] *)
Definition sha2_cleared (P : sha2_word) : cf_sha2_context := mk_sha2_ctx (W8 0 0 0 0 0 0 0 0) (replicate (block_octets P) 0) 0 0.

Definition cf_sha256_update := cf_sha2_update sha256_word.
Definition cf_sha512_update := cf_sha2_update sha512_word.
Definition cf_sha384_update := cf_sha512_update.

Definition cf_sha256_digest_final (ctx : cf_sha2_context) : res (bytes * cf_sha2_context) :=
  let digested_bits := u64 (digested_bytes sha256_word ctx * 8) in
  let! ctx := sha2_pad sha256_word ctx 8 in
  let! ctx := cf_sha256_update ctx (write64_be digested_bits) in
  let! hash := sha2_output sha256_word ctx in
  Ok (hash, sha2_cleared sha256_word).

Definition cf_sha512_digest_final (ctx : cf_sha2_context) : res (bytes * cf_sha2_context) :=
  let digested_bits := u64 (digested_bytes sha512_word ctx * 8) in
  let! ctx := sha2_pad sha512_word ctx 16 in
  let! ctx := cf_sha512_update ctx (write64_be 0) in
  let! ctx := cf_sha512_update ctx (write64_be digested_bits) in
  let! hash := sha2_output sha512_word ctx in
  Ok (hash, sha2_cleared sha512_word).

Definition cf_sha384_digest_final (ctx : cf_sha2_context) : res (bytes * cf_sha2_context) :=
  let! '(full, ctx) := cf_sha512_digest_final ctx in
  Ok (take 48 full, ctx).

(** ** The computation without buffers

    What the loops compute for a whole message: the schedule as one list, the blocks,
    the padding. *)

Section Computation.
Context (P : sha2_word).

Definition schedule_step (W : list Z) : list Z :=
  let t := length W in
  W ++ [wadd P (wadd P (wadd P (SSIG1 P (W !!! (t - 2)%nat)) (W !!! (t - 7)%nat)) (SSIG0 P (W !!! (t - 15)%nat))) (W !!! (t - 16)%nat)].
Definition schedule (M : list Z) : list Z := Nat.iter (num_rounds P - 16) schedule_step M.
Definition compress (H : words8) (block : bytes) : words8 :=
  add_words P H (foldl (fun v kw => sha2_round P v kw.1 kw.2) H (zip (K P) (schedule (words_of (word_octets P) block)))).

(** A bit, zeroes, and the length in bits in [lensz] octets. *)
Definition pad_with (lensz : nat) (bits : Z) (msg : bytes) : bytes :=
  msg ++ 0x80 :: replicate (Z.to_nat ((- Z.of_nat (length msg + 1 + lensz)) mod Z.of_nat (block_octets P))) 0 ++ be lensz bits.
Definition message_blocks (x : bytes) : list bytes := blocks_of (block_octets P) (length x / block_octets P) x.
Definition list8 (v : words8) : list Z := [w_a v; w_b v; w_c v; w_d v; w_e v; w_f v; w_g v; w_h v].
Definition out_words (H : words8) : bytes := concat (map (be (word_octets P)) (list8 H)).
End Computation.

(** ** The compression function *)

(** What the proofs use of the parameters. *)
Class WordLaws (P : sha2_word) : Prop := {
  word_octets_pos : (0 < word_octets P <= 8)%nat;
  num_rounds_min : (16 <= num_rounds P)%nat;
  length_K : length (K P) = num_rounds P;
  read_word_spec b p : (p + word_octets P <= length b)%nat -> read_word P b p = Ok (of_be (take (word_octets P) (drop p b)));
  write_word_spec v : write_word P v = be (word_octets P) v
}.

#[export] Instance sha256_word_laws : WordLaws sha256_word.
Proof.
  constructor; [cbn; lia | cbn; lia | by vm_compute | intros; by apply read32_be_spec |].
  intros v. cbn. unfold write32_be. by rewrite Z.shiftr_0_r.
Qed.
#[export] Instance sha512_word_laws : WordLaws sha512_word.
Proof.
  constructor; [cbn; lia | cbn; lia | by vm_compute | intros; by apply read64_be_spec |].
  intros v. cbn. unfold write64_be. by rewrite Z.shiftr_0_r.
Qed.

Section Compress.
Context (P : sha2_word) `{!WordLaws P}.

(** A schedule as long as [W], from the words [M]. *)
Record scheduled (M W : list Z) : Prop := {
  sched_min : (16 <= length W)%nat;
  sched_low t : (t < 16)%nat -> W !!! t = M !!! t;
  sched_rec t : (16 <= t < length W)%nat ->
    W !!! t = wadd P (wadd P (wadd P (SSIG1 P (W !!! (t - 2)%nat)) (W !!! (t - 7)%nat)) (SSIG0 P (W !!! (t - 15)%nat))) (W !!! (t - 16)%nat)
}.

Lemma scheduled_step M W : scheduled M W -> scheduled M (schedule_step P W).
Proof.
  intros [Hmin Hlow Hrec]. unfold schedule_step. constructor.
  - rewrite length_app. lia.
  - intros t Ht. rewrite lookup_total_app_l by lia. by apply Hlow.
  - rewrite length_app. cbn [length]. intros t Ht. rewrite !(lookup_total_app_l W _ (t - _)) by lia.
    destruct (decide (t = length W)) as [-> | Hne].
    + by rewrite lookup_total_app_r, Nat.sub_diag by lia.
    + rewrite lookup_total_app_l by lia. apply Hrec. lia.
Qed.

Lemma schedule_spec (M : list Z) : length M = 16%nat -> scheduled M (schedule P M) /\ length (schedule P M) = num_rounds P.
Proof using WordLaws0.
  intros HM. unfold schedule. pose proof num_rounds_min. assert (E : (num_rounds P = 16 + (num_rounds P - 16))%nat) by lia. rewrite E at 3.
  generalize (num_rounds P - 16)%nat as n. clear E. intros n. induction n as [|n [IH IHl]].
  - split; [|by rewrite Nat.add_0_r]. constructor; cbn; [lia | done | lia].
  - change (Nat.iter (S n) ?f M) with (f (Nat.iter n f M)). split; [by apply scheduled_step|].
    unfold schedule_step at 1. rewrite length_app, IHl. cbn. lia.
Qed.

Variable inp : bytes.
Hypothesis (Hinp : length inp = block_octets P).
Notation M := (words_of (word_octets P) inp).
Notation Wf := (schedule P M).

Lemma length_words : length M = 16%nat.
Proof using WordLaws0 Hinp.
  unfold words_of. rewrite length_map, length_blocks_of, Hinp. unfold block_octets. apply Nat.div_mul. pose proof word_octets_pos. lia.
Qed.

Lemma words_lookup t : (t < 16)%nat -> read_word P inp (t * word_octets P) = Ok (M !!! t).
Proof using WordLaws0 Hinp.
  intros Ht. rewrite read_word_spec by (rewrite Hinp; unfold block_octets; nia). f_equal. symmetry. apply list_lookup_total_correct.
  unfold words_of. rewrite list_lookup_fmap, blocks_of_lookup; [done|].
  rewrite Hinp. unfold block_octets. rewrite Nat.div_mul; [done | pose proof word_octets_pos; lia].
Qed.

(** The sixteen words before [t] are in the window. *)
Definition window (W : list Z) (t : nat) : Prop := length W = 16%nat /\ forall j, (j < t)%nat -> (t <= j + 16)%nat -> W !!! (j mod 16)%nat = Wf !!! j.

Lemma window_rd W t j : window W t -> (j < t)%nat -> (t <= j + 16)%nat -> rd W (j mod 16) = Ok (Wf !!! j).
Proof.
  intros [Hl Hw] Hj Ht. rewrite <- Hw by done. apply rd_at, list_lookup_lookup_total_lt. rewrite Hl. by apply Nat.mod_upper_bound.
Qed.

Lemma window_insert W t : window W t -> window (<[(t mod 16)%nat := Wf !!! t]> W) (S t).
Proof.
  intros [Hl Hw]. split; [by rewrite length_insert|]. intros j Hj Ht. destruct (decide (j = t)) as [-> | Hne].
  - apply list_lookup_total_insert_eq. rewrite Hl. by apply Nat.mod_upper_bound.
  - rewrite list_lookup_total_insert_ne; [apply Hw; lia|]. intros E. pose proof (Nat.div_mod_eq j 16). pose proof (Nat.div_mod_eq t 16). lia.
Qed.

Lemma next_word_spec W t : window W t -> (t < num_rounds P)%nat -> exists W', next_word P inp W t = Ok (Wf !!! t, W') /\ window W' (S t).
Proof using WordLaws0 Hinp.
  intros Hw Ht. destruct (schedule_spec M length_words) as [[Hmin Hlow Hrec] Hlen]. unfold next_word. destruct (Nat.ltb_spec t 16).
  - rewrite words_lookup, <- Hlow by done. cbn [res_bind]. eexists. split; [done|]. rewrite <- (Nat.mod_small t 16) at 1 by lia. by apply window_insert.
  - rewrite !(window_rd W t) by (done || lia). cbn [res_bind]. rewrite <- Hrec by lia. eexists. split; [done|]. by apply window_insert.
Qed.

Lemma sha2_loop_spec n t W v :
  window W t -> (n + t = num_rounds P)%nat ->
  sha2_loop P n t inp W v = Ok (foldl (fun v kw => sha2_round P v kw.1 kw.2) v (zip (drop t (K P)) (drop t Wf))).
Proof using WordLaws0 Hinp.
  revert t W v. induction n as [|n IH]; intros t W v Hw Hn; cbn [sha2_loop].
  - rewrite drop_ge by (rewrite length_K; lia). done.
  - destruct (next_word_spec W t Hw ltac:(lia)) as (W' & -> & Hw'). cbn [res_bind].
    destruct (lookup_lt_is_Some_2 (K P) t) as [k Hk]; [rewrite length_K; lia|]. rewrite (rd_at _ _ _ Hk). cbn [res_bind].
    rewrite (IH (S t) W') by (done || lia). rewrite (drop_S _ _ _ Hk).
    rewrite (drop_S Wf (Wf !!! t) t); [done|]. apply list_lookup_lookup_total_lt. destruct (schedule_spec M length_words) as [_ ->]. lia.
Qed.

(** What a block does to the context. *)
Definition sha2_step (ctx : cf_sha2_context) (block : bytes) : cf_sha2_context :=
  ctx <| sha_H := compress P (sha_H ctx) block |> <| sha_blocks := u32 (sha_blocks ctx + 1) |>.

Lemma sha2_update_block_spec ctx : sha2_update_block P ctx inp = Ok (sha2_step ctx inp).
Proof using WordLaws0 Hinp.
  unfold sha2_update_block. rewrite sha2_loop_spec; [done | split; [done | lia] | lia].
Qed.
End Compress.

(** ** Contexts *)

Section Message.
Context (P : sha2_word) `{!WordLaws P} (H0 : words8).
Notation B := (block_octets P).

Lemma block_pos : (0 < B <= 128)%nat.
Proof using WordLaws0. unfold block_octets. pose proof word_octets_pos. lia. Qed.

(** [ctx] has digested [msg]. *)
Definition digested (msg : bytes) (ctx : cf_sha2_context) : Prop :=
  absorbed B (sha2_step P) (mk_sha2_ctx H0 (sha_partial ctx) 0 (sha_npartial ctx)) msg (sha2_state ctx).

Lemma foldl_sha2_step bs h p b n :
  foldl (sha2_step P) (mk_sha2_ctx h p (u32 b) n) bs = mk_sha2_ctx (foldl (compress P) h bs) p (u32 (b + Z.of_nat (length bs))) n.
Proof.
  revert h b. induction bs as [|x bs IH]; intros h b; [by rewrite Z.add_0_r|]. cbn [foldl length].
  assert (E : sha2_step P (mk_sha2_ctx h p (u32 b) n) x = mk_sha2_ctx (compress P h x) p (u32 (b + 1)) n)
    by (unfold sha2_step; cbn [field_update sha_H sha_partial sha_blocks sha_npartial]; unfold u32; by rewrite Zplus_mod_idemp_l).
  rewrite E, IH. do 2 f_equal. lia.
Qed.

Lemma digested_put msg p n st : absorbed B (sha2_step P) (mk_sha2_ctx H0 p 0 n) msg st -> digested msg (sha2_ctx st).
Proof.
  destruct st as [[partial npartial] ctx]. intros [Hp Hnp (bs & Hbs & Hmsg & Hctx)]. unfold digested, sha2_ctx, sha2_state.
  constructor; cbn [fst snd sha_partial sha_npartial]; [done | done |]. exists bs. split_and!; [done | done |]. cbn in Hctx. subst ctx.
  change 0 with (u32 0). by rewrite !foldl_sha2_step.
Qed.

Lemma digested_init : digested [] (mk_sha2_ctx H0 (replicate B 0) 0 0).
Proof using WordLaws0. pose proof block_pos. apply absorbed_nil; [lia | cbn; by rewrite length_replicate]. Qed.

Lemma update_digests msg ctx data : digested msg ctx -> exists ctx', cf_sha2_update P ctx data = Ok ctx' /\ digested (msg ++ data) ctx'.
Proof using WordLaws0.
  intros Hd. destruct (accumulate_absorbs B (sha2_update_block P) (sha2_step P) _ (proj1 block_pos) ltac:(intros; by apply sha2_update_block_spec) _ _ data Hd)
    as (st & E & Ha). unfold cf_sha2_update. rewrite E. cbn [res_bind]. eexists. split; [done | by eapply digested_put].
Qed.

(** The counters and the chaining value. *)
Lemma digested_inv msg ctx :
  digested msg ctx ->
  sha_npartial ctx = (length msg mod B)%nat /\ sha_blocks ctx = u32 (Z.of_nat (length msg / B)) /\
  sha_H ctx = foldl (compress P) H0 (message_blocks P msg).
Proof using WordLaws0.
  intros Hd. destruct (absorbed_inv _ _ _ (proj1 block_pos) _ _ Hd) as (Hn & Hc & _). cbn in Hn, Hc. change 0 with (u32 0) in Hc. rewrite foldl_sha2_step, length_blocks_of in Hc.
  split_and!; [done | by rewrite Hc at 1 | by rewrite Hc at 1].
Qed.

(** The length that is hashed: modulo [2^32] blocks. *)
Definition counted (msg : bytes) : Z := Z.of_nat (length msg) mod (Z.of_nat B * 2 ^ 32).

Lemma digested_bytes_spec msg ctx : digested msg ctx -> digested_bytes P ctx = counted msg.
Proof using WordLaws0.
  intros Hd. destruct (digested_inv _ _ Hd) as (Hn & Hb & _). unfold digested_bytes, counted. rewrite Hn, Hb. pose proof block_pos.
  rewrite Nat2Z.inj_div, Nat2Z.inj_mod. rewrite (Z.rem_mul_r _ (Z.of_nat B) (2 ^ 32)) by lia.
  pose proof (Z.mod_pos_bound (Z.of_nat (length msg)) (Z.of_nat B) ltac:(lia)). pose proof (Z.mod_pos_bound (Z.of_nat (length msg) / Z.of_nat B) (2 ^ 32) ltac:(lia)).
  unfold u32. set (q := (_ / _) mod _) in *. set (r := _ mod Z.of_nat B) in *.
  assert (0 <= q * Z.of_nat B <= 2 ^ 32 * 128) by (split; [nia | apply Z.mul_le_mono_nonneg; lia]). clearbody q r.
  unfold u64. rewrite (Z.mod_small (q * _)) by lia. rewrite Z.mod_small by lia. lia.
Qed.

Lemma padbytes_spec msg ctx lensz :
  0 <= lensz <= 2 ^ 30 -> digested msg ctx ->
  padbytes P ctx lensz = S (Z.to_nat ((- Z.of_nat (length msg + 1 + Z.to_nat lensz)) mod Z.of_nat B)).
Proof using WordLaws0.
  intros Hls Hdig. unfold padbytes. rewrite (digested_bytes_spec msg) by done. unfold counted. pose proof block_pos.
  pose proof (Z.mod_pos_bound (Z.of_nat (length msg)) (Z.of_nat B * 2 ^ 32) ltac:(lia)).
  unfold u64. rewrite (Z.mod_small (_ + lensz)) by nia.
  assert (E : (Z.of_nat (length msg) mod (Z.of_nat B * 2 ^ 32) + lensz) mod Z.of_nat B = (Z.of_nat (length msg) + lensz) mod Z.of_nat B).
  { rewrite (Z.rem_mul_r _ (Z.of_nat B) (2 ^ 32)) by lia. rewrite <- Z.add_assoc, (Z.add_comm (Z.of_nat B * _)), Z.add_assoc, (Z.mul_comm (Z.of_nat B)), Z.mod_add by lia.
    by rewrite Zplus_mod_idemp_l. }
  rewrite E. rewrite !Nat2Z.inj_add, Z2Nat.id by lia. set (x := Z.of_nat (length msg) + lensz).
  pose proof (Z.mod_pos_bound x (Z.of_nat B) ltac:(lia)). pose proof (Z.div_mod x (Z.of_nat B) ltac:(lia)).
  rewrite <- (Z.mod_unique (- (Z.of_nat (length msg) + Z.of_nat 1 + lensz)) (Z.of_nat B) (- (x / Z.of_nat B) - 1) (Z.of_nat B - 1 - x mod Z.of_nat B)); unfold x in *; lia.
Qed.

Lemma pad_octets n : padding 0x80 0 0 (S n) = 0x80 :: replicate n 0.
Proof. destruct n as [|n]; [done|]. cbn [padding]. by rewrite <- replicate_cons_app. Qed.

Lemma pad_digests msg ctx lensz :
  0 <= lensz <= 2 ^ 30 -> digested msg ctx ->
  exists ctx', sha2_pad P ctx lensz = Ok ctx' /\
    digested (msg ++ 0x80 :: replicate (Z.to_nat ((- Z.of_nat (length msg + 1 + Z.to_nat lensz)) mod Z.of_nat B)) 0) ctx'.
Proof using WordLaws0.
  intros Hls Hd. unfold sha2_pad. rewrite (padbytes_spec msg) by done.
  destruct (acc_pad_absorbs B (sha2_update_block P) (sha2_step P) _ (proj1 block_pos) ltac:(intros; by apply sha2_update_block_spec) _ _ 0x80 0 0
    (S (Z.to_nat ((- Z.of_nat (length msg + 1 + Z.to_nat lensz)) mod Z.of_nat B))) Hd) as (st & -> & Ha).
  cbn [res_bind]. eexists. split; [done|]. rewrite pad_octets in Ha. by eapply digested_put.
Qed.

Lemma length_pad_with lensz bits msg : (length (pad_with P lensz bits msg) mod B = 0)%nat.
Proof using WordLaws0.
  unfold pad_with. rewrite length_app. cbn [length]. rewrite length_app, length_replicate, length_be. pose proof block_pos.
  apply Nat2Z.inj. rewrite Nat2Z.inj_mod. rewrite Nat2Z.inj_add, Nat2Z.inj_succ, Nat2Z.inj_add, Z2Nat.id by (apply Z.mod_pos_bound; lia).
  set (x := Z.of_nat (length msg + 1 + lensz)). pose proof (Z.div_mod (- x) (Z.of_nat B) ltac:(lia)).
  replace (Z.of_nat (length msg) + _) with (- ((- x) / Z.of_nat B) * Z.of_nat B) by (unfold x in *; lia). by rewrite Z.mod_mul by lia.
Qed.

Lemma write_words_spec v : write_words P v = out_words P v.
Proof using WordLaws0. unfold write_words, out_words, list8. rewrite !write_word_spec. cbn [map concat]. by rewrite app_nil_r. Qed.

Lemma output_digests msg ctx :
  digested msg ctx -> (length msg mod B = 0)%nat -> sha2_output P ctx = Ok (out_words P (foldl (compress P) H0 (message_blocks P msg))).
Proof using WordLaws0.
  intros Hd Hl. destruct (digested_inv _ _ Hd) as (Hn & _ & HH). unfold sha2_output. rewrite Hn, Hl, HH. cbn [Nat.eqb c_assert res_bind]. by rewrite write_words_spec.
Qed.

(** The digest of [msg] with [bits] as its length. *)
Definition hash_with (lensz : nat) (bits : Z) (msg : bytes) : bytes := out_words P (foldl (compress P) H0 (message_blocks P (pad_with P lensz bits msg))).
End Message.

Lemma write64_be_u64 v : write64_be (u64 v) = be 8 v.
Proof. rewrite write64_be_spec. apply (be_mod 8). Qed.

Lemma sha256_final_spec H0 msg ctx :
  digested sha256_word H0 msg ctx ->
  cf_sha256_digest_final ctx = Ok (hash_with sha256_word H0 8 (8 * counted sha256_word msg) msg, sha2_cleared sha256_word).
Proof.
  intros Hd. unfold cf_sha256_digest_final. rewrite (digested_bytes_spec sha256_word H0 msg) by done.
  destruct (pad_digests sha256_word H0 msg ctx 8 ltac:(lia) Hd) as (ctx1 & -> & Hd1). cbn [res_bind].
  rewrite write64_be_u64, Z.mul_comm. destruct (update_digests sha256_word H0 _ ctx1 (be 8 (8 * counted sha256_word msg)) Hd1) as (ctx2 & E & Hd2).
  unfold cf_sha256_update. rewrite E. cbn [res_bind]. rewrite <- app_assoc in Hd2.
  by rewrite (output_digests sha256_word H0 _ ctx2 Hd2 (length_pad_with sha256_word 8 _ msg)).
Qed.

Lemma sha512_final_spec H0 msg ctx :
  digested sha512_word H0 msg ctx ->
  cf_sha512_digest_final ctx = Ok (hash_with sha512_word H0 16 (8 * counted sha512_word msg) msg, sha2_cleared sha512_word).
Proof.
  intros Hd. unfold cf_sha512_digest_final. rewrite (digested_bytes_spec sha512_word H0 msg) by done.
  destruct (pad_digests sha512_word H0 msg ctx 16 ltac:(lia) Hd) as (ctx1 & -> & Hd1). cbn [res_bind]. unfold cf_sha512_update.
  destruct (update_digests sha512_word H0 _ ctx1 (write64_be 0) Hd1) as (ctx2 & -> & Hd2). cbn [res_bind].
  rewrite write64_be_u64, Z.mul_comm. destruct (update_digests sha512_word H0 _ ctx2 (be 8 (8 * counted sha512_word msg)) Hd2) as (ctx3 & -> & Hd3). cbn [res_bind].
  rewrite <- !app_assoc in Hd3.
  assert (E : write64_be 0 ++ be 8 (8 * counted sha512_word msg) = be 16 (8 * counted sha512_word msg)).
  { rewrite (be_app 8 8), write64_be_spec. do 2 f_equal. symmetry.
    assert (0 <= counted sha512_word msg < 2 ^ 39) by (apply Z.mod_pos_bound; cbn; lia).
    rewrite Z.shiftr_div_pow2 by lia. apply Z.div_small. change (8 * Z.of_nat 8) with 64. lia. }
  rewrite E in Hd3. by rewrite (output_digests sha512_word H0 _ ctx3 Hd3 (length_pad_with sha512_word 16 _ msg)).
Qed.

(** ** The functions of FIPS 180-4 *)

Notation fips_sha256 := FIPS180.SHA256.
Notation fips_sha384 := FIPS180.SHA384.
Notation fips_sha512 := FIPS180.SHA512.

(** The words of the implementation are those of a variant of the standard. *)
Class Standard (P : sha2_word) (V : FIPS180.variant) : Prop := {
  std_bits : word_bits P = FIPS180.w V;
  std_octets : word_octets P = FIPS180.word_size V;
  std_rounds : num_rounds P = FIPS180.rounds V;
  std_K : K P = FIPS180.K V;
  std_BSIG0 x : BSIG0 P x = FIPS180.Sigma V (FIPS180.Sigma0_by V) x;
  std_BSIG1 x : BSIG1 P x = FIPS180.Sigma V (FIPS180.Sigma1_by V) x;
  std_SSIG0 x : SSIG0 P x = FIPS180.sigma V (FIPS180.sigma0_by V) x;
  std_SSIG1 x : SSIG1 P x = FIPS180.sigma V (FIPS180.sigma1_by V) x;
  std_positive : 0 < FIPS180.w V
}.

Lemma K256_standard : map (FIPS180.fraction 32 3) (take 64 FIPS180.primes) = K256.
Proof. apply (FIPS180.fractions_spec 32 3 (take 64 FIPS180.primes) K256 eq_refl); vm_compute; reflexivity. Qed.
Lemma K512_standard : map (FIPS180.fraction 64 3) (take 80 FIPS180.primes) = K512.
Proof. apply (FIPS180.fractions_spec 64 3 (take 80 FIPS180.primes) K512 eq_refl); vm_compute; reflexivity. Qed.

#[export] Instance sha256_standard : Standard sha256_word FIPS180.words32.
Proof.
  constructor; [done | done | done | | intros x; apply Z.lxor_assoc.. | done].
  symmetry. exact K256_standard.
Qed.
#[export] Instance sha512_standard : Standard sha512_word FIPS180.words64.
Proof.
  constructor; [done | done | done | | intros x; apply Z.lxor_assoc.. | done].
  symmetry. exact K512_standard.
Qed.

Section IsStandard.
Context (P : sha2_word) (V : FIPS180.variant) `{!WordLaws P} `{!Standard P V}.

Lemma wadd2 x y : wadd P x y = FIPS180.sum V [x; y].
Proof using Standard0. unfold wadd, FIPS180.sum. rewrite std_bits. cbn [foldr]. by rewrite Z.add_0_r. Qed.
Lemma sum_wadd l x y : wadd P (FIPS180.sum V (x :: l)) y = FIPS180.sum V (x :: l ++ [y]).
Proof using Standard0.
  unfold wadd, FIPS180.sum. rewrite std_bits. rewrite Zplus_mod_idemp_l. f_equal.
  induction l as [|z l IH] in x |- *; cbn [foldr app] in *; [lia|]. specialize (IH z). lia.
Qed.

Lemma schedule_step_standard W : schedule_step P W = W ++ [FIPS180.schedule_word V W].
Proof using Standard0. unfold schedule_step, FIPS180.schedule_word. rewrite std_SSIG1, std_SSIG0, (wadd2 (FIPS180.sigma V (FIPS180.sigma1_by V) _)), !sum_wadd. done. Qed.
Lemma schedule_standard M : schedule P M = FIPS180.schedule V M.
Proof using Standard0.
  unfold schedule, FIPS180.schedule. rewrite std_rounds. generalize (FIPS180.rounds V - 16)%nat as n. intros n.
  induction n as [|n IH]; [done|]. cbn [Nat.iter]. unfold Nat.iter in *. cbn [nat_rect]. rewrite IH. apply schedule_step_standard.
Qed.

Lemma CH_standard x y z : CH P x y z = FIPS180.Ch V x y z.
Proof using Standard0.
  assert (E : Z.lnot x mod 2 ^ word_bits P = FIPS180.complement V x); [|unfold CH; by rewrite E].
  unfold FIPS180.complement. rewrite std_bits. pose proof (Z.pow_pos_nonneg 2 (FIPS180.w V)). pose proof std_positive.
  replace (2 ^ FIPS180.w V - 1 - x) with (Z.lnot x + 1 * 2 ^ FIPS180.w V) by (unfold Z.lnot; lia).
  by rewrite Z.mod_add by lia.
Qed.
Lemma round_standard v k x : list8 (sha2_round P v k x) = FIPS180.round V (list8 v) (k, x).
Proof using Standard0.
  destruct v as [a b c d e f g h]. unfold sha2_round, list8, FIPS180.round. cbn [w_a w_b w_c w_d w_e w_f w_g w_h fst snd].
  rewrite std_BSIG1, std_BSIG0, CH_standard. unfold MAJ, FIPS180.Maj. rewrite Z.lxor_assoc.
  assert (E : forall u v : Z, wadd P (wadd P (wadd P (wadd P h u) v) k) x = FIPS180.sum V [h; u; v; k; x]) by (intros; by rewrite (wadd2 h), !sum_wadd).
  rewrite E. by rewrite !wadd2.
Qed.
Lemma rounds_standard kws v :
  list8 (foldl (fun v kw => sha2_round P v kw.1 kw.2) v kws) = foldl (FIPS180.round V) (list8 v) kws.
Proof using Standard0. revert v. induction kws as [|[k x] kws IH]; intros v; [done|]. cbn [foldl fst snd]. by rewrite IH, round_standard. Qed.

Lemma compress_standard H block : length block = block_octets P -> list8 (compress P H block) = FIPS180.compress V (list8 H) block.
Proof using WordLaws0 Standard0.
  intros Hb. unfold compress, FIPS180.compress, FIPS180.message_words. rewrite <- std_octets, <- std_K.
  assert (Hn : (length block / word_octets P)%nat = 16%nat).
  { rewrite Hb. unfold block_octets. apply Nat.div_mul. pose proof word_octets_pos. lia. }
  unfold words_of. rewrite Hn, <- schedule_standard, <- rounds_standard.
  generalize (foldl (fun v kw => sha2_round P v kw.1 kw.2) H (zip (K P) (schedule P (map of_be (blocks_of (word_octets P) 16 block))))) as v. intros v.
  unfold add_words, list8. cbn [w_a w_b w_c w_d w_e w_f w_g w_h zip_with]. by rewrite !wadd2.
Qed.

Lemma blocks_length n (x : bytes) b : (n * block_octets P <= length x)%nat -> In b (blocks_of (block_octets P) n x) -> length b = block_octets P.
Proof.
  revert x. induction n as [|n IH]; intros x Hl; [done|]. cbn [blocks_of]. intros [<- | Hin]; [rewrite length_take; lia|].
  apply (IH (drop (block_octets P) x)); [rewrite length_drop; lia | done].
Qed.
Lemma compress_all_standard bs H :
  (forall b, In b bs -> length b = block_octets P) -> list8 (foldl (compress P) H bs) = foldl (FIPS180.compress V) (list8 H) bs.
Proof using WordLaws0 Standard0.
  revert H. induction bs as [|b bs IH]; intros H Hbs; [done|]. cbn [foldl]. rewrite IH by (intros; apply Hbs; by right).
  by rewrite compress_standard by (apply Hbs; by left).
Qed.

(** The digest with the right length is that of the standard. *)
Lemma hash_standard H0 msg :
  hash_with P H0 (2 * word_octets P) (8 * Z.of_nat (length msg)) msg = FIPS180.hash V (list8 H0) msg.
Proof using WordLaws0 Standard0.
  unfold hash_with, out_words, FIPS180.hash, FIPS180.parse, FIPS180.pad, FIPS180.block_size. rewrite compress_all_standard.
  - unfold message_blocks, pad_with, block_octets. by rewrite std_octets.
  - intros b. unfold message_blocks. apply blocks_length. pose proof (block_pos P).
    rewrite Nat.mul_comm. apply Nat.Div0.mul_div_le.
Qed.
End IsStandard.

(** The initial values. *)
Lemma sha256_standard_init : list8 (sha_H cf_sha256_init) = map (FIPS180.fraction 32 2) (take 8 FIPS180.primes).
Proof. symmetry. apply (FIPS180.fractions_spec 32 2 (take 8 FIPS180.primes) (list8 (sha_H cf_sha256_init)) eq_refl); vm_compute; reflexivity. Qed.
Lemma sha512_standard_init : list8 (sha_H cf_sha512_init) = map (FIPS180.fraction 64 2) (take 8 FIPS180.primes).
Proof. symmetry. apply (FIPS180.fractions_spec 64 2 (take 8 FIPS180.primes) (list8 (sha_H cf_sha512_init)) eq_refl); vm_compute; reflexivity. Qed.
Lemma sha384_standard_init : list8 (sha_H cf_sha384_init) = map (FIPS180.fraction 64 2) (take 8 (drop 8 FIPS180.primes)).
Proof. symmetry. apply (FIPS180.fractions_spec 64 2 (take 8 (drop 8 FIPS180.primes)) (list8 (sha_H cf_sha384_init)) eq_refl); vm_compute; reflexivity. Qed.

Lemma sha256_hash_standard msg : hash_with sha256_word (sha_H cf_sha256_init) 8 (8 * Z.of_nat (length msg)) msg = fips_sha256 msg.
Proof. unfold FIPS180.SHA256. rewrite <- sha256_standard_init. apply (hash_standard sha256_word FIPS180.words32). Qed.
Lemma sha512_hash_standard msg : hash_with sha512_word (sha_H cf_sha512_init) 16 (8 * Z.of_nat (length msg)) msg = fips_sha512 msg.
Proof. unfold FIPS180.SHA512. rewrite <- sha512_standard_init. apply (hash_standard sha512_word FIPS180.words64). Qed.
Lemma sha384_hash_standard msg : take 48 (hash_with sha512_word (sha_H cf_sha384_init) 16 (8 * Z.of_nat (length msg)) msg) = fips_sha384 msg.
Proof. unfold FIPS180.SHA384. rewrite <- sha384_standard_init. f_equal. apply (hash_standard sha512_word FIPS180.words64). Qed.

(** ** Hash contexts

    [ptls_define_hash(name, ctx_type, init_func, update_func, final_func)]; [None] is the
    freed context, [memory] whether [malloc] succeeds. *)
Section DefineHash.
Context {C : Type} (init_func : C) (update_func : C -> bytes -> res C) (final_func : C -> res (bytes * C)).

Definition name_create (memory : bool) : option C := if memory then Some init_func else None.
Definition name_update (ctx : C) (src : bytes) : res C := update_func ctx src.
Definition name_clone (memory : bool) (src : C) : option C := if memory then Some src else None.

(** [want_md] is [md != NULL]; [final_func] writes through [md]. *)
Definition name_final (ctx : C) (want_md : bool) (mode : ptls_hash_final_mode_t) : res (option bytes * option C) :=
  match mode with
  | PTLS_HASH_FINAL_MODE_SNAPSHOT =>
      if want_md then let! '(md, _) := final_func ctx in Ok (Some md, Some ctx) else Stuck NullDeref
  | _ =>
      let! '(md, ctx) := if want_md then let! '(md, ctx) := final_func ctx in Ok (Some md, ctx) else Ok (None, ctx) in
      match mode with
      | PTLS_HASH_FINAL_MODE_FREE => Ok (md, None)
      | _ => Ok (md, Some init_func)
      end
  end.

End DefineHash.

(** What a client does: the contexts it creates and clones are numbered, [None] is a
    context that was freed. The digests are the observations. *)
Inductive hash_op :=
| HashCreate
| HashUpdate (i : nat) (src : bytes)
| HashFinal (i : nat) (mode : ptls_hash_final_mode_t)
| HashClone (i : nat).

Definition on_context {C A} (st : list (option C)) (i : nat) (k : C -> res A) : res A :=
  match st !! i with Some (Some c) => k c | _ => Stuck NullDeref end.

Definition concrete_op {C} (init_func : C) (update_func : C -> bytes -> res C) (final_func : C -> res (bytes * C)) (op : hash_op) (st : list (option C))
    : res (list bytes * list (option C)) :=
  match op with
  | HashCreate => Ok ([], st ++ [name_create init_func true])
  | HashUpdate i src => on_context st i (fun c => let! c' := name_update update_func c src in Ok ([], <[i := Some c']> st))
  | HashFinal i mode => on_context st i (fun c => let! '(md, c') := name_final init_func final_func c true mode in Ok (option_list md, <[i := c']> st))
  | HashClone i => on_context st i (fun c => Ok ([], st ++ [name_clone true c]))
  end.

Definition abstract_op (algo : ptls_hash_algorithm_t) (op : hash_op) (st : list (option bytes)) : res (list bytes * list (option bytes)) :=
  match op with
  | HashCreate => Ok ([], st ++ [Some hash_create])
  | HashUpdate i src => on_context st i (fun c => Ok ([], <[i := Some (hash_update c src)]> st))
  | HashFinal i mode => on_context st i (fun c => let '(md, c') := hash_final algo c mode in Ok ([md], <[i := c']> st))
  | HashClone i => on_context st i (fun c => Ok ([], st ++ [Some c]))
  end.

Fixpoint run_hash {S} (run_op : hash_op -> S -> res (list bytes * S)) (ops : list hash_op) (st : S) : res (list bytes) :=
  match ops with
  | [] => Ok []
  | op :: ops =>
      let! '(mds, st) := run_op op st in
      let! rest := run_hash run_op ops st in
      Ok (mds ++ rest)
  end.

(** An implementation of an algorithm: [rep msg c] when the context [c] was fed [msg]. *)
Class HashImpl {C} (algo : ptls_hash_algorithm_t) (init_func : C) (update_func : C -> bytes -> res C) (final_func : C -> res (bytes * C))
    (rep : bytes -> C -> Prop) : Prop := {
  rep_init : rep [] init_func;
  rep_update msg c src : rep msg c -> exists c', update_func c src = Ok c' /\ rep (msg ++ src) c';
  rep_final msg c : rep msg c -> exists c', final_func c = Ok (digest algo msg, c')
}.

Section Refinement.
Context `{Himpl : HashImpl C algo init_func update_func final_func rep}.
Notation related := (Forall2 (option_Forall2 rep)).

Lemma on_context_related {A B} (R : A -> B -> Prop) st st' i (k : bytes -> res A) (k' : C -> res B) :
  related st st' ->
  (forall m c, st !! i = Some (Some m) -> st' !! i = Some (Some c) -> rep m c -> exists a b, k m = Ok a /\ k' c = Ok b /\ R a b) ->
  (exists a b, on_context st i k = Ok a /\ on_context st' i k' = Ok b /\ R a b) \/ (on_context st i k = Stuck NullDeref /\ on_context st' i k' = Stuck NullDeref).
Proof.
  intros Hst Hk. unfold on_context. pose proof (proj1 (Forall2_lookup _ _ _) Hst i) as Hi.
  inversion Hi as [o o' Hoo Ho Ho'|]; [|by right]. inversion Hoo as [m c Hmc|]; subst; [left; by eapply Hk | by right].
Qed.

Lemma op_related op st st' :
  related st st' ->
  (exists mds s s', abstract_op algo op st = Ok (mds, s) /\ concrete_op init_func update_func final_func op st' = Ok (mds, s') /\ related s s') \/
  (abstract_op algo op st = Stuck NullDeref /\ concrete_op init_func update_func final_func op st' = Stuck NullDeref).
Proof using Himpl.
  intros Hst. set (R := fun (x : list bytes * list (option bytes)) (y : list bytes * list (option C)) => x.1 = y.1 /\ related x.2 y.2).
  assert (Hok : forall x y, R x y -> exists mds s s', x = (mds, s) /\ y = (mds, s') /\ related s s').
  { intros [mds s] [mds' s'] [E H]. cbn in E, H. subst. by exists mds', s, s'. }
  destruct op as [|i src|i mode|i]; cbn [abstract_op concrete_op].
  - left. do 3 eexists. split_and!; [done | done|]. apply Forall2_app; [done|]. constructor; [|done]. constructor. apply rep_init.
  - destruct (on_context_related R st st' i (fun c => Ok ([], <[i := Some (hash_update c src)]> st))
      (fun c => let! c' := name_update update_func c src in Ok ([], <[i := Some c']> st')) Hst) as [(x & y & -> & -> & HR)|]; [| |by right].
    + intros m c _ _ Hmc. destruct (rep_update m c src Hmc) as (c' & E & Hc'). unfold name_update. rewrite E. cbn [res_bind].
      do 2 eexists. split_and!; [done | done|]. split; [done|]. apply Forall2_insert; [done|]. by constructor.
    + left. destruct (Hok _ _ HR) as (mds & s & s' & -> & -> & H). by exists mds, s, s'.
  - destruct (on_context_related R st st' i (fun c => let '(md, c') := hash_final algo c mode in Ok ([md], <[i := c']> st))
      (fun c => let! '(md, c') := name_final init_func final_func c true mode in Ok (option_list md, <[i := c']> st')) Hst) as [(x & y & -> & -> & HR)|]; [| |by right].
    + intros m c Hm Hc Hmc. destruct (rep_final m c Hmc) as (c' & E). unfold name_final, hash_final. rewrite E. cbn [res_bind].
      destruct mode; cbn [res_bind]; do 2 eexists; (split_and!; [done | done|]); (split; [done|]); apply Forall2_insert; try done; constructor; [apply rep_init | done].
    + left. destruct (Hok _ _ HR) as (mds & s & s' & -> & -> & H). by exists mds, s, s'.
  - destruct (on_context_related R st st' i (fun c => Ok ([], st ++ [Some c])) (fun c => Ok ([], st' ++ [name_clone true c])) Hst) as [(x & y & -> & -> & HR)|]; [| |by right].
    + intros m c _ _ Hmc. do 2 eexists. split_and!; [done | done|]. split; [done|]. apply Forall2_app; [done|]. constructor; [|done]. by constructor.
    + left. destruct (Hok _ _ HR) as (mds & s & s' & -> & -> & H). by exists mds, s, s'.
Qed.

Lemma run_hash_related ops st st' :
  related st st' -> run_hash (concrete_op init_func update_func final_func) ops st' = run_hash (abstract_op algo) ops st.
Proof using Himpl.
  revert st st'. induction ops as [|op ops IH]; intros st st' Hst; [done|]. cbn [run_hash].
  destruct (op_related op st st' Hst) as [(mds & s & s' & -> & -> & Hs)|[-> ->]]; [|done]. cbn [res_bind]. by rewrite (IH s s' Hs).
Qed.
End Refinement.

(** ** The algorithms *)

Definition PTLS_SHA256_BLOCK_SIZE : nat := 64.
Definition PTLS_SHA256_DIGEST_SIZE : nat := 32.
Definition PTLS_SHA384_BLOCK_SIZE : nat := 128.
Definition PTLS_SHA384_DIGEST_SIZE : nat := 48.
Definition PTLS_ZERO_DIGEST_SHA256 : bytes := hex "e3b0c44298fc1c149afbf4c8996fb92427ae41e4649b934ca495991b7852b855".
Definition PTLS_ZERO_DIGEST_SHA384 : bytes :=
  hex "38b060a751ac96384cd9327eb1b1e36a21fdb71114be07434c0cc7bf63f6e1da274edebfe76f65fbd51ad2f14898b95b".

(** The digest of a message in one piece. *)
Definition one_shot {C} (init_func : C) (update_func : C -> bytes -> res C) (final_func : C -> res (bytes * C)) (msg : bytes) : bytes :=
  match (let! ctx := update_func init_func msg in final_func ctx) with Ok (md, _) => md | _ => [] end.

Definition ptls_minicrypto_sha256 : ptls_hash_algorithm_t :=
  mk_hash 256 PTLS_SHA256_BLOCK_SIZE PTLS_SHA256_DIGEST_SIZE (one_shot cf_sha256_init cf_sha256_update cf_sha256_digest_final) PTLS_ZERO_DIGEST_SHA256.
Definition ptls_minicrypto_sha384 : ptls_hash_algorithm_t :=
  mk_hash 384 PTLS_SHA384_BLOCK_SIZE PTLS_SHA384_DIGEST_SIZE (one_shot cf_sha384_init cf_sha384_update cf_sha384_digest_final) PTLS_ZERO_DIGEST_SHA384.

Notation sha256_rep := (digested sha256_word (sha_H cf_sha256_init)).
Notation sha384_rep := (digested sha512_word (sha_H cf_sha384_init)).

Lemma sha384_final_spec msg ctx :
  sha384_rep msg ctx ->
  cf_sha384_digest_final ctx = Ok (take 48 (hash_with sha512_word (sha_H cf_sha384_init) 16 (8 * counted sha512_word msg) msg), sha2_cleared sha512_word).
Proof. intros Hd. unfold cf_sha384_digest_final. by rewrite (sha512_final_spec _ _ _ Hd). Qed.

Lemma sha256_digest_spec msg : digest ptls_minicrypto_sha256 msg = hash_with sha256_word (sha_H cf_sha256_init) 8 (8 * counted sha256_word msg) msg.
Proof.
  cbn [ptls_minicrypto_sha256 digest]. unfold one_shot, cf_sha256_update.
  destruct (update_digests sha256_word _ [] cf_sha256_init msg (digested_init sha256_word _)) as (ctx & -> & Hd). cbn [res_bind].
  by rewrite (sha256_final_spec _ _ _ Hd).
Qed.

Lemma sha384_digest_spec msg :
  digest ptls_minicrypto_sha384 msg = take 48 (hash_with sha512_word (sha_H cf_sha384_init) 16 (8 * counted sha512_word msg) msg).
Proof.
  cbn [ptls_minicrypto_sha384 digest]. unfold one_shot, cf_sha384_update, cf_sha512_update.
  destruct (update_digests sha512_word _ [] cf_sha384_init msg (digested_init sha512_word _)) as (ctx & -> & Hd). cbn [res_bind].
  by rewrite (sha384_final_spec _ _ Hd).
Qed.

#[export] Instance sha256_impl : HashImpl ptls_minicrypto_sha256 cf_sha256_init cf_sha256_update cf_sha256_digest_final sha256_rep.
Proof.
  constructor.
  - apply (digested_init sha256_word).
  - intros msg c src. apply (update_digests sha256_word).
  - intros msg c Hd. eexists. rewrite sha256_digest_spec. by apply sha256_final_spec.
Qed.
#[export] Instance sha384_impl : HashImpl ptls_minicrypto_sha384 cf_sha384_init cf_sha384_update cf_sha384_digest_final sha384_rep.
Proof.
  constructor.
  - apply (digested_init sha512_word).
  - intros msg c src. apply (update_digests sha512_word).
  - intros msg c Hd. eexists. rewrite sha384_digest_spec. by apply sha384_final_spec.
Qed.

Lemma length_out_words P H : length (out_words P H) = (8 * word_octets P)%nat.
Proof. unfold out_words, list8. cbn [map concat]. rewrite !length_app, !length_be. cbn. lia. Qed.
Lemma out_words_bytes P H : is_bytes (out_words P H).
Proof. unfold out_words, list8. cbn [map concat]. rewrite app_nil_r. repeat apply Forall_app_2; apply be_bytes. Qed.

(** The algorithms satisfy what HMAC, HKDF and the key schedule rely on. *)
#[export] Instance sha256_laws : HashLaws ptls_minicrypto_sha256.
Proof.
  constructor.
  - intros m. rewrite sha256_digest_spec. apply (length_out_words sha256_word).
  - intros m. rewrite sha256_digest_spec. apply out_words_bytes.
  - cbn. unfold PTLS_SHA256_DIGEST_SIZE. lia.
  - cbn. unfold PTLS_SHA256_DIGEST_SIZE, PTLS_SHA256_BLOCK_SIZE. lia.
  - apply (bool_decide_unpack _). by vm_compute.
  - by vm_compute.
Qed.
#[export] Instance sha384_laws : HashLaws ptls_minicrypto_sha384.
Proof.
  constructor.
  - intros m. rewrite sha384_digest_spec, length_take. unfold hash_with. by rewrite length_out_words.
  - intros m. rewrite sha384_digest_spec. apply Forall_take, out_words_bytes.
  - cbn. unfold PTLS_SHA384_DIGEST_SIZE. lia.
  - cbn. unfold PTLS_SHA384_DIGEST_SIZE, PTLS_SHA384_BLOCK_SIZE. lia.
  - apply (bool_decide_unpack _). by vm_compute.
  - by vm_compute.
Qed.

(** ** Properties *)

(** A message fed in pieces. *)
Fixpoint feed_pieces {C} (update_func : C -> bytes -> res C) (ctx : C) (pieces : list bytes) : res C :=
  match pieces with
  | [] => Ok ctx
  | x :: pieces => let! ctx := update_func ctx x in feed_pieces update_func ctx pieces
  end.

Lemma feed_pieces_rep {C} (update_func : C -> bytes -> res C) (rep : bytes -> C -> Prop) msg ctx pieces :
  (forall msg c src, rep msg c -> exists c', update_func c src = Ok c' /\ rep (msg ++ src) c') ->
  rep msg ctx -> exists ctx', feed_pieces update_func ctx pieces = Ok ctx' /\ rep (msg ++ concat pieces) ctx'.
Proof.
  intros Hu. revert msg ctx. induction pieces as [|x pieces IH]; intros msg ctx Hr; cbn [feed_pieces concat]; [exists ctx; by rewrite app_nil_r|].
  destruct (Hu msg ctx x Hr) as (c' & -> & Hr'). cbn [res_bind]. destruct (IH _ _ Hr') as (ctx' & E & H). exists ctx'. by rewrite app_assoc.
Qed.

Lemma counted_small P msg : Z.of_nat (length msg) < Z.of_nat (block_octets P) * 2 ^ 32 -> counted P msg = Z.of_nat (length msg).
Proof. intros. apply Z.mod_small. lia. Qed.

(** C11: The SHA-256, SHA-384 and SHA-512 contexts compute the functions of FIPS 180-4 for
    every message below [2^38] (SHA-256) or [2^39] octets, however the message is cut into
    pieces; beyond that the 32-bit block counter wraps.  The standard is stated on its
    own: the constants and initial values come from the roots of the first primes. *)
Theorem sha2_is_fips180 pieces :
  let msg := concat pieces in
  (Z.of_nat (length msg) < 2 ^ 38 ->
     (let! ctx := feed_pieces cf_sha256_update cf_sha256_init pieces in cf_sha256_digest_final ctx) = Ok (fips_sha256 msg, sha2_cleared sha256_word)) /\
  (Z.of_nat (length msg) < 2 ^ 39 ->
     (let! ctx := feed_pieces cf_sha384_update cf_sha384_init pieces in cf_sha384_digest_final ctx) = Ok (fips_sha384 msg, sha2_cleared sha512_word) /\
     (let! ctx := feed_pieces cf_sha512_update cf_sha512_init pieces in cf_sha512_digest_final ctx) = Ok (fips_sha512 msg, sha2_cleared sha512_word)).
Proof.
  intros msg. subst msg. split; intros Hlen; [|split].
  - destruct (feed_pieces_rep cf_sha256_update sha256_rep [] cf_sha256_init pieces) as (ctx & -> & Hd); [apply (update_digests sha256_word) | apply rep_init|].
    cbn [res_bind app]. rewrite (sha256_final_spec _ _ _ Hd), counted_small, sha256_hash_standard by (cbn; lia). done.
  - destruct (feed_pieces_rep cf_sha384_update sha384_rep [] cf_sha384_init pieces) as (ctx & -> & Hd); [apply (update_digests sha512_word) | apply rep_init|].
    cbn [res_bind app]. rewrite (sha384_final_spec _ _ Hd), counted_small, sha384_hash_standard by (cbn; lia). done.
  - destruct (feed_pieces_rep cf_sha512_update (digested sha512_word (sha_H cf_sha512_init)) [] cf_sha512_init pieces) as (ctx & -> & Hd);
      [apply (update_digests sha512_word) | apply (digested_init sha512_word)|].
    cbn [res_bind app]. rewrite (sha512_final_spec _ _ _ Hd), counted_small, sha512_hash_standard by (cbn; lia). done.
Qed.

Lemma sha2_is_fips180_witness :
  let pieces := [str "a"; str "bc"] in
  (let! ctx := feed_pieces cf_sha256_update cf_sha256_init pieces in cf_sha256_digest_final ctx) = Ok (fips_sha256 (str "abc"), sha2_cleared sha256_word) /\
  (let! ctx := feed_pieces cf_sha384_update cf_sha384_init pieces in cf_sha384_digest_final ctx) = Ok (fips_sha384 (str "abc"), sha2_cleared sha512_word).
Proof. destruct (sha2_is_fips180 [str "a"; str "bc"]) as [H1 H2]. split; [apply H1; cbn; lia | apply H2; cbn; lia]. Defined.

(** C19: The contexts that [ptls_define_hash] builds implement the abstract contexts, which
    hold the octets they were fed: whatever contexts a client creates, clones, feeds,
    and finalizes in which mode, it sees the digests of what it fed, and it is stopped
    exactly when it uses a context it has freed. Allocations are taken to succeed. *)
Theorem hash_contexts_refine ops :
  run_hash (concrete_op cf_sha256_init cf_sha256_update cf_sha256_digest_final) ops [] = run_hash (abstract_op ptls_minicrypto_sha256) ops [] /\
  run_hash (concrete_op cf_sha384_init cf_sha384_update cf_sha384_digest_final) ops [] = run_hash (abstract_op ptls_minicrypto_sha384) ops [].
Proof. split; by apply run_hash_related. Qed.

(** The test vectors of FIPS 180-4. *)
Example sha256_abc : digest ptls_minicrypto_sha256 (str "abc") = hex "ba7816bf8f01cfea414140de5dae2223b00361a396177a9cb410ff61f20015ad".
Proof. by vm_compute. Qed.
Example sha384_abc :
  digest ptls_minicrypto_sha384 (str "abc") = hex "cb00753f45a35e8bb5a03d699ac65007272c32ab0eded1631a8b605a43ff5bed8086072ba1e7cc2358baeca134c825a7".
Proof. by vm_compute. Qed.
