(* ===== verification/Drbg.v ===== *)
(** * Drbg: the random number generator of the minicrypto backend

    The Hash_DRBG of [src/deps/cifra/src/drbg.c] on SHA-256 and
    [ptls_minicrypto_random_bytes] of [src/lib/cifra/random.c], which seeds it.  Main
    result: the generator is the Hash_DRBG of SP 800-90A, whatever the requests are; the
    only failure is the assertion that a generator that is due for reseeding is not used
    ([random_is_hash_drbg]). *)
From S2P Require Import Prelude Limbs Blockwise Bitops Sha2.

(** ** drbg.c *)

Definition MAX_DRBG_GENERATE : nat := Z.to_nat 0x10000.
Definition CF_SHA256_HASHSZ : nat := 32.

(** [H->init], a number of [H->update] and [H->digest] of [cf_sha256] *)
Definition chash (pieces : list bytes) : res bytes :=
  let! ctx := feed_pieces cf_sha256_update cf_sha256_init pieces in
  let! '(hash, _) := cf_sha256_digest_final ctx in
  Ok hash.

(** [while (nout)]; the octets that are written *)
Fixpoint hash_df_loop (fuel nout : nat) (counter : Z) (cbuf in1 in2 in3 in4 : bytes) : res bytes :=
  match nout with
  | O => Ok []
  | _ =>
      match fuel with
      | O => Stuck OutOfFuel
      | S fuel =>
          let! block := chash [[counter]; cbuf; in1; in2; in3; in4] in
          let taken := Nat.min CF_SHA256_HASHSZ nout in
          let! rest := hash_df_loop fuel (nout - taken) (u8 (counter + 1)) cbuf in1 in2 in3 in4 in
          Ok (take taken block ++ rest)
      end
  end.
Definition hash_df (in1 in2 in3 in4 : bytes) (nout : nat) : res bytes :=
  let bits_to_return := u32 (Z.of_nat nout * 8) in
  hash_df_loop nout nout 1 (write32_be bits_to_return) in1 in2 in3 in4.

Record cf_hash_drbg_sha256 := mk_drbg { drbg_V : bytes; drbg_C : bytes; reseed_counter : Z }.

(** [440 / 8] *)
Definition seed_octets : nat := 55.

(** The static context before its first use *)
Definition drbg_zero : cf_hash_drbg_sha256 := mk_drbg (replicate seed_octets 0) (replicate seed_octets 0) 0.

Definition cf_hash_drbg_sha256_init (entropy nonce persn : bytes) : res cf_hash_drbg_sha256 :=
  let! V := hash_df entropy nonce persn [] seed_octets in
  let! C := hash_df [0] V [] [] seed_octets in
  Ok (mk_drbg V C 1).

(** [n] and [m] octets of [out] and [inp] are left. *)
Fixpoint drbg_add_loop (n m : nat) (carry : Z) (out inp : bytes) : res bytes :=
  match n with
  | O => Ok out
  | S oi =>
      let! o := rd out oi in
      let carry := u16 (carry + o) in
      let! carry := match m with O => Ok carry | S ii => let! x := rd inp ii in Ok (u16 (carry + x)) end in
      drbg_add_loop oi (pred m) (Z.shiftr carry 8) (<[oi := Z.land carry 0xff]> out) inp
  end.
Definition drbg_add (out inp : bytes) : res bytes :=
  let! _ := c_assert (length inp <=? length out)%nat in
  drbg_add_loop (length out) (length inp) 0 out inp.

Definition hash_process_addnl (input V : bytes) : res bytes :=
  match input with
  | [] => Ok V
  | _ =>
      let! w := chash [[2]; V; input] in
      drbg_add V w
  end.

Fixpoint hash_generate (fuel nout : nat) (data : bytes) : res bytes :=
  match nout with
  | O => Ok []
  | _ =>
      match fuel with
      | O => Stuck OutOfFuel
      | S fuel =>
          let! w := chash [data] in
          let taken := Nat.min CF_SHA256_HASHSZ nout in
          let! data := drbg_add data [1] in
          let! rest := hash_generate fuel (nout - taken) data in
          Ok (take taken w ++ rest)
      end
  end.

Definition hash_step (ctx : cf_hash_drbg_sha256) : res cf_hash_drbg_sha256 :=
  let! h := chash [[3]; drbg_V ctx] in
  let! V := drbg_add (drbg_V ctx) h in
  let! V := drbg_add V (drbg_C ctx) in
  let! V := drbg_add V (write32_be (reseed_counter ctx)) in
  Ok (mk_drbg V (drbg_C ctx) (u32 (reseed_counter ctx + 1))).

Definition cf_hash_drbg_sha256_needs_reseed (ctx : cf_hash_drbg_sha256) : bool := reseed_counter ctx =? 0.

Definition hash_gen_request (ctx : cf_hash_drbg_sha256) (addnl : bytes) (nout : nat) : res (bytes * cf_hash_drbg_sha256) :=
  let! _ := c_assert (negb (cf_hash_drbg_sha256_needs_reseed ctx)) in
  let! V := hash_process_addnl addnl (drbg_V ctx) in
  let! out := hash_generate nout nout V in
  let! ctx := hash_step (mk_drbg V (drbg_C ctx) (reseed_counter ctx)) in
  Ok (out, ctx).

Fixpoint gen_loop (fuel : nat) (ctx : cf_hash_drbg_sha256) (addnl : bytes) (nout : nat) : res (bytes * cf_hash_drbg_sha256) :=
  match nout with
  | O => Ok ([], ctx)
  | _ =>
      match fuel with
      | O => Stuck OutOfFuel
      | S fuel =>
          let taken := Nat.min MAX_DRBG_GENERATE nout in
          let! '(out, ctx) := hash_gen_request ctx addnl taken in
          let! '(rest, ctx) := gen_loop fuel ctx [] (nout - taken) in
          Ok (out ++ rest, ctx)
      end
  end.
Definition cf_hash_drbg_sha256_gen_additional (ctx : cf_hash_drbg_sha256) (addnl : bytes) (nout : nat) : res (bytes * cf_hash_drbg_sha256) :=
  gen_loop nout ctx addnl nout.
Definition cf_hash_drbg_sha256_gen (ctx : cf_hash_drbg_sha256) (nout : nat) : res (bytes * cf_hash_drbg_sha256) :=
  cf_hash_drbg_sha256_gen_additional ctx [] nout.

Definition cf_hash_drbg_sha256_reseed (ctx : cf_hash_drbg_sha256) (entropy addnl : bytes) : res cf_hash_drbg_sha256 :=
  let! V := hash_df [1] (drbg_V ctx) entropy addnl seed_octets in
  let! C := hash_df [0] V [] [] seed_octets in
  Ok (mk_drbg V C 1).

(** ** random.c *)

(** [entropy] is what [read_entropy] would deliver; [ctx] is the static context. *)
Definition ptls_minicrypto_random_bytes (entropy : bytes) (ctx : cf_hash_drbg_sha256) (len : nat) : res (bytes * cf_hash_drbg_sha256) :=
  let! ctx :=
    if cf_hash_drbg_sha256_needs_reseed ctx then cf_hash_drbg_sha256_init (take 128 entropy) (drop 128 entropy) (str "ptls") else Ok ctx in
  cf_hash_drbg_sha256_gen ctx len.

(** ** SP 800-90A, section 10.1.1 *)

Definition outlen : nat := 32.
Definition leftmost (n : nat) (blocks : nat -> bytes) : bytes := take n (concat (map blocks (seq 0 ((n + (outlen - 1)) / outlen)))).

(** Section 10.3.1, for [n] octets; the counter is an octet. *)
Definition Hash_df (input_string : bytes) (n : nat) : bytes :=
  leftmost n (fun i => fips_sha256 (u8 (1 + Z.of_nat i) :: be 4 (8 * Z.of_nat n) ++ input_string)).

(** The working state; [V] and [C] are strings of [seedlen] bits. *)
Record drbg_state := mk_state { st_V : Z; st_C : Z; st_counter : Z }.
Definition seedlen : Z := 440.
Notation seed_string v := (be seed_octets v).

Definition Hash_DRBG_Instantiate (entropy_input nonce personalization_string : bytes) : drbg_state :=
  let V := of_be (Hash_df (entropy_input ++ nonce ++ personalization_string) seed_octets) in
  mk_state V (of_be (Hash_df (0 :: seed_string V) seed_octets)) 1.
Definition Hash_DRBG_Reseed (st : drbg_state) (entropy_input additional_input : bytes) : drbg_state :=
  let V := of_be (Hash_df (1 :: seed_string (st_V st) ++ entropy_input ++ additional_input) seed_octets) in
  mk_state V (of_be (Hash_df (0 :: seed_string V) seed_octets)) 1.

Definition Hashgen (n : nat) (V : Z) : bytes := leftmost n (fun i => fips_sha256 (seed_string (V + Z.of_nat i))).
(** A reseed interval of [2 ^ 32 - 1] requests *)
Definition reseed_interval : Z := 2 ^ 32 - 1.
Definition Hash_DRBG_Generate (st : drbg_state) (n : nat) (additional_input : bytes) : option (bytes * drbg_state) :=
  if reseed_interval <? st_counter st then None
  else
    let V := if bool_decide (additional_input = []) then st_V st
             else (st_V st + of_be (fips_sha256 (2 :: seed_string (st_V st) ++ additional_input))) mod 2 ^ seedlen in
    let H := of_be (fips_sha256 (3 :: seed_string V)) in
    Some (Hashgen n V, mk_state ((V + H + st_C st + st_counter st) mod 2 ^ seedlen) (st_C st) (st_counter st + 1)).

(** Requests of at most 2^19 bits *)
Fixpoint Generate_all (fuel : nat) (st : drbg_state) (additional_input : bytes) (n : nat) : option (bytes * drbg_state) :=
  match n, fuel with
  | O, _ => Some ([], st)
  | _, O => None
  | _, S fuel =>
      let m := Nat.min (Z.to_nat (2 ^ 19 / 8)) n in
      '(out, st) ← Hash_DRBG_Generate st m additional_input;
      '(rest, st) ← Generate_all fuel st [] (n - m);
      Some (out ++ rest, st)
  end.

(** A generator that is due for reseeding is instantiated again, with 128 octets of entropy and a nonce of 128. *)
Definition drbg_random (entropy : bytes) (st : drbg_state) (len : nat) : option (bytes * drbg_state) :=
  let st := if reseed_interval <? st_counter st then Hash_DRBG_Instantiate (take 128 entropy) (drop 128 entropy) (str "ptls") else st in
  Generate_all len st [] len.
Definition drbg_unseeded : drbg_state := mk_state 0 0 (reseed_interval + 1).

(** ** Hashing *)

Lemma chash_spec pieces : Z.of_nat (length (concat pieces)) < 2 ^ 38 -> chash pieces = Ok (fips_sha256 (concat pieces)).
Proof.
  intros Hlen. unfold chash.
  destruct (feed_pieces_rep cf_sha256_update sha256_rep [] cf_sha256_init pieces) as (ctx & -> & Hd); [apply (update_digests sha256_word) | apply rep_init|].
  cbn [res_bind app]. by rewrite (sha256_final_spec _ _ _ Hd), counted_small, sha256_hash_standard by (cbn; lia).
Qed.

Lemma length_sha256 msg : length (fips_sha256 msg) = outlen.
Proof. rewrite <- sha256_hash_standard. apply (length_out_words sha256_word). Qed.
Lemma sha256_bytes msg : is_bytes (fips_sha256 msg).
Proof. rewrite <- sha256_hash_standard. apply out_words_bytes. Qed.

Section Leftmost.
Context (blocks : nat -> bytes).
Hypothesis Hblocks : forall i, length (blocks i) = outlen.

(** [n] octets of the blocks from number [k] on *)
Definition leftmost_from (n k : nat) : bytes := take n (concat (map blocks (seq k ((n + (outlen - 1)) / outlen)))).

Lemma leftmost_from_S n k :
  (0 < n)%nat -> leftmost_from n k = take (Nat.min outlen n) (blocks k) ++ leftmost_from (n - Nat.min outlen n) (S k).
Proof using Hblocks.
  intros Hn. unfold leftmost_from, outlen in *. destruct (Nat.le_gt_cases 32 n) as [Hge|Hlt].
  - rewrite Nat.min_l by lia. replace ((n + (32 - 1)) / 32)%nat with (S ((n - 32 + (32 - 1)) / 32)).
    2:{ replace (n + (32 - 1))%nat with (n - 32 + (32 - 1) + 1 * 32)%nat by lia. rewrite Nat.div_add by lia. lia. }
    cbn [seq map concat]. rewrite take_app_ge, Hblocks by (rewrite Hblocks; lia). by rewrite (take_ge (blocks k)) by (rewrite Hblocks; lia).
  - rewrite Nat.min_r, Nat.sub_diag by lia. replace (n + (32 - 1))%nat with (1 * 32 + (n - 1))%nat by lia. rewrite Nat.div_add_l, Nat.div_small by lia.
    cbn [Nat.add seq map concat take app]. by rewrite !app_nil_r.
Qed.

Lemma length_leftmost n k : length (leftmost_from n k) = n.
Proof using Hblocks.
  revert k. induction n as [n IH] using lt_wf_ind. intros k. destruct (decide (n = 0)%nat) as [->|Hn]; [done|].
  rewrite leftmost_from_S, length_app, length_take, Hblocks by lia. unfold outlen in *. rewrite IH by lia. lia.
Qed.

Lemma leftmost_bytes n k : (forall i, is_bytes (blocks i)) -> is_bytes (leftmost_from n k).
Proof. intros H. apply Forall_take. apply Forall_concat, Forall_map, Forall_forall. intros i _. apply H. Qed.
End Leftmost.

Lemma Hash_df_length input n : length (Hash_df input n) = n.
Proof. apply (length_leftmost _ (fun i => length_sha256 _)). Qed.
Lemma Hashgen_length n V : length (Hashgen n V) = n.
Proof. apply (length_leftmost (fun i => fips_sha256 (seed_string (V + Z.of_nat i)))). intros i. apply length_sha256. Qed.
Lemma Hash_df_bytes input n : is_bytes (Hash_df input n).
Proof. apply (leftmost_bytes _ n 0). intros i. apply sha256_bytes. Qed.

Lemma hash_df_spec in1 in2 in3 in4 n :
  Z.of_nat (length in1 + length in2 + length in3 + length in4) < 2 ^ 37 -> Z.of_nat n < 2 ^ 28 ->
  hash_df in1 in2 in3 in4 n = Ok (Hash_df (in1 ++ in2 ++ in3 ++ in4) n).
Proof.
  intros Hl Hn. unfold hash_df. set (blk := fun i => fips_sha256 (u8 (1 + Z.of_nat i) :: be 4 (8 * Z.of_nat n) ++ in1 ++ in2 ++ in3 ++ in4)).
  unfold u32. rewrite Z.mod_small, write32_be_spec, Z.mul_comm by lia. change (Hash_df _ n) with (leftmost_from blk n 0).
  assert (H : forall fuel m k, (m <= fuel)%nat ->
    hash_df_loop fuel m (u8 (1 + Z.of_nat k)) (be 4 (8 * Z.of_nat n)) in1 in2 in3 in4 = Ok (leftmost_from blk m k)); [|exact (H n n 0%nat (le_n _))].
  induction fuel as [|fuel IH]; intros m k Hm; (destruct m as [|m]; [done|]); [lia|]. cbn [hash_df_loop].
  rewrite chash_spec by (cbn [concat]; rewrite !length_app, length_be; cbn [length]; lia). cbn [res_bind].
  replace (u8 (u8 (1 + Z.of_nat k) + 1)) with (u8 (1 + Z.of_nat (S k))) by (unfold u8; rewrite Zplus_mod_idemp_l; f_equal; lia).
  unfold CF_SHA256_HASHSZ. rewrite IH by lia. cbn [res_bind]. rewrite (leftmost_from_S blk (fun i => length_sha256 _) (S m)) by lia.
  cbn [concat app]. by rewrite app_nil_r.
Qed.

(** ** Addition *)

(** One column: the digit and the carry *)
Lemma be_snoc_carry n v x c : 0 <= c -> be (S n) (v * 2 ^ 8 + x + c) = be n (v + (x + c) / 2 ^ 8) ++ [u8 (x + c)].
Proof.
  intros Hc. replace (S n) with (n + 1)%nat by lia. rewrite be_app. cbn [be]. rewrite Z.shiftr_0_r, Z.shiftr_div_pow2 by lia. change (8 * Z.of_nat 1) with 8.
  replace (v * 2 ^ 8 + x + c) with (x + c + v * 2 ^ 8) by ring. unfold u8. rewrite Z.div_add, Z.mod_add, (Z.add_comm v) by lia. done.
Qed.

Lemma drbg_add_loop_spec n o s i r carry :
  length o = n -> is_bytes o -> (length i <= n)%nat -> is_bytes i -> 0 <= carry <= 1 ->
  drbg_add_loop n (length i) carry (o ++ s) (i ++ r) = Ok (be n (of_be o + of_be i + carry) ++ s).
Proof.
  revert o s i r carry. induction n as [|n IH]; intros o s i r carry Ho Hob Hi Hib Hc; cbn [drbg_add_loop]; [by destruct o|].
  destruct (exists_last (l := o)) as (o' & x & ->); [by destruct o|]. rewrite length_app in Ho. cbn [length] in Ho. assert (Ho' : length o' = n) by lia.
  apply Forall_app in Hob as [Hob' Hx]. inversion_clear Hx as [|? ? Hbx _]. unfold is_byte in Hbx. rewrite <- app_assoc. cbn [app].
  rewrite <- Ho' at 1. rewrite (rd_ok _ _ x) by apply lookup_mid. cbn [res_bind]. unfold u16. rewrite (Z.mod_small (carry + x)) by lia.
  rewrite of_be_snoc by done. destruct (decide (i = [])) as [->|Hne].
  - cbn [length res_bind pred]. rewrite <- Ho', insert_mid, Ho', land_ff, Z.shiftr_div_pow2 by lia. replace 0%nat with (length (@nil Z)) by done.
    rewrite (IH o' (u8 (carry + x) :: s) [] r); [| done | done | cbn; lia | done | modlia]. change (of_be []) with 0. rewrite Z.add_0_r, Z.add_0_r.
    rewrite be_snoc_carry by lia. rewrite <- app_assoc, (Z.add_comm x). done.
  - destruct (exists_last Hne) as (i' & y & ->). rewrite length_app in Hi |- *. cbn [length] in *. replace (length i' + 1)%nat with (S (length i')) by lia.
    apply Forall_app in Hib as [Hib' Hy]. inversion_clear Hy as [|? ? Hby _]. unfold is_byte in Hby. cbn [pred]. rewrite <- app_assoc. cbn [app].
    rewrite (rd_ok _ _ y) by apply lookup_mid. cbn [res_bind]. rewrite Z.mod_small by lia. rewrite <- Ho', insert_mid, Ho', land_ff, Z.shiftr_div_pow2 by lia.
    rewrite (IH o' _ i' (y :: r)); [| done | done | lia | done | modlia]. rewrite of_be_snoc by done.
    replace (of_be o' * 2 ^ 8 + x + (of_be i' * 2 ^ 8 + y) + carry) with ((of_be o' + of_be i') * 2 ^ 8 + (x + y) + carry) by ring.
    rewrite be_snoc_carry by lia. rewrite <- app_assoc. replace (carry + x + y) with (x + y + carry) by ring. done.
Qed.

Lemma drbg_add_spec v inp n :
  (length inp <= n)%nat -> is_bytes inp -> drbg_add (be n v) inp = Ok (be n (v + of_be inp)).
Proof.
  intros Hl Hb. unfold drbg_add. rewrite length_be, (proj2 (Nat.leb_le _ _)) by done. cbn [c_assert res_bind].
  pose proof (drbg_add_loop_spec n (be n v) [] inp [] 0 (length_be _ _) (be_bytes _ _) Hl Hb ltac:(lia)) as H. rewrite !app_nil_r in H. rewrite H.
  f_equal. rewrite of_be_be, Z.add_0_r, <- be_mod, Zplus_mod_idemp_l. apply be_mod.
Qed.

(** ** The generator *)

Record seeded (ctx : cf_hash_drbg_sha256) (st : drbg_state) : Prop := {
  seeded_V : drbg_V ctx = seed_string (st_V st);
  seeded_C : drbg_C ctx = seed_string (st_C st);
  seeded_C_range : 0 <= st_C st < 2 ^ seedlen;
  seeded_counter : 1 <= st_counter st <= 2 ^ 32;
  seeded_wrap : reseed_counter ctx = u32 (st_counter st)
}.

Lemma be_seedlen v : be seed_octets (v mod 2 ^ seedlen) = be seed_octets v.
Proof. apply (be_mod 55). Qed.

Lemma needs_reseed_spec ctx st : seeded ctx st -> cf_hash_drbg_sha256_needs_reseed ctx = (reseed_interval <? st_counter st).
Proof.
  intros [_ _ _ Hc Hw]. unfold cf_hash_drbg_sha256_needs_reseed, reseed_interval. rewrite Hw. unfold u32.
  destruct (decide (st_counter st = 2 ^ 32)) as [->|Hne]; [done|]. rewrite Z.mod_small by lia.
  rewrite (proj2 (Z.eqb_neq _ _)), (proj2 (Z.ltb_ge _ _)) by lia. done.
Qed.

Lemma seeds_spec in1 in2 in3 in4 :
  Z.of_nat (length in1 + length in2 + length in3 + length in4) < 2 ^ 37 ->
  let V := of_be (Hash_df (in1 ++ in2 ++ in3 ++ in4) seed_octets) in
  exists ctx, (let! V := hash_df in1 in2 in3 in4 seed_octets in let! C := hash_df [0] V [] [] seed_octets in Ok (mk_drbg V C 1)) = Ok ctx /\
    seeded ctx (mk_state V (of_be (Hash_df (0 :: seed_string V) seed_octets)) 1).
Proof.
  intros Hl V. rewrite hash_df_spec by (done || (unfold seed_octets; lia)). cbn [res_bind].
  assert (Hid : forall input, be seed_octets (of_be (Hash_df input seed_octets)) = Hash_df input seed_octets).
  { intros input. rewrite <- (be_of_be (Hash_df input seed_octets)) at 2 by apply Hash_df_bytes. by rewrite Hash_df_length. }
  rewrite hash_df_spec by (rewrite ?Hash_df_length; unfold seed_octets; cbn [length]; lia). cbn [res_bind app]. rewrite app_nil_r.
  eexists. split; [reflexivity|]. unfold V. rewrite Hid. split; cbn [drbg_V drbg_C reseed_counter st_V st_C st_counter].
  - rewrite Hid. reflexivity.
  - rewrite Hid. reflexivity.
  - pose proof (of_be_range _ (Hash_df_bytes (0 :: Hash_df (in1 ++ in2 ++ in3 ++ in4) seed_octets) seed_octets)) as H. rewrite Hash_df_length in H. exact H.
  - lia.
  - reflexivity.
Qed.

Lemma hash_generate_spec fuel n V k :
  (n <= fuel)%nat -> hash_generate fuel n (seed_string (V + Z.of_nat k)) = Ok (leftmost_from (fun i => fips_sha256 (seed_string (V + Z.of_nat i))) n k).
Proof.
  revert n k. induction fuel as [|fuel IH]; intros n k Hn; (destruct n as [|n]; [done|]); [lia|]. cbn [hash_generate].
  rewrite chash_spec by (cbn [concat]; rewrite app_nil_r, length_be; done). cbn [res_bind concat]. rewrite app_nil_r.
  rewrite drbg_add_spec by (repeat constructor || (unfold seed_octets; cbn; lia)). cbn [res_bind]. change (of_be [1]) with 1.
  replace (V + Z.of_nat k + 1) with (V + Z.of_nat (S k)) by lia. unfold CF_SHA256_HASHSZ. rewrite IH by lia. cbn [res_bind].
  by rewrite (leftmost_from_S _ (fun i => length_sha256 _) (S n)) by lia.
Qed.

Lemma process_addnl_spec V addnl :
  Z.of_nat (length addnl) < 2 ^ 37 ->
  hash_process_addnl addnl (seed_string V) =
    Ok (seed_string (if bool_decide (addnl = []) then V else (V + of_be (fips_sha256 (2 :: seed_string V ++ addnl))) mod 2 ^ seedlen)).
Proof.
  intros Hl. destruct addnl as [|b addnl]; [reflexivity|]. unfold hash_process_addnl.
  rewrite chash_spec by (cbn [concat]; rewrite !length_app, length_be; unfold seed_octets; cbn [length] in *; lia). cbn [res_bind concat app].
  rewrite drbg_add_spec by (rewrite ?length_sha256; unfold outlen, seed_octets; lia || apply sha256_bytes). rewrite app_nil_r.
  rewrite bool_decide_false by discriminate. by rewrite be_seedlen.
Qed.

(** The working state after a request *)
Lemma hash_step_spec V C c :
  0 <= C < 2 ^ seedlen -> 1 <= c < 2 ^ 32 ->
  hash_step (mk_drbg (seed_string V) (seed_string C) c) =
    Ok (mk_drbg (seed_string (V + of_be (fips_sha256 (3 :: seed_string V)) + C + c)) (seed_string C) (u32 (c + 1))).
Proof.
  intros HC Hc. unfold hash_step. cbn [drbg_V drbg_C reseed_counter].
  rewrite chash_spec by (cbn [concat]; rewrite !length_app, length_be; unfold seed_octets; cbn; lia). cbn [res_bind concat app]. rewrite app_nil_r.
  rewrite drbg_add_spec by (rewrite ?length_sha256; unfold outlen, seed_octets; lia || apply sha256_bytes). cbn [res_bind].
  rewrite drbg_add_spec by (rewrite ?length_be; lia || apply be_bytes). cbn [res_bind]. rewrite write32_be_spec.
  rewrite drbg_add_spec by (rewrite ?length_be; unfold seed_octets; lia || apply be_bytes). cbn [res_bind].
  rewrite (of_be_be_small seed_octets C) by exact HC. rewrite (of_be_be_small 4 c) by (change (8 * Z.of_nat 4) with 32; lia). reflexivity.
Qed.

Lemma gen_request_spec ctx st addnl n :
  seeded ctx st -> Z.of_nat (length addnl) < 2 ^ 37 ->
  match Hash_DRBG_Generate st n addnl with
  | Some (out, st') => exists ctx', hash_gen_request ctx addnl n = Ok (out, ctx') /\ seeded ctx' st'
  | None => hash_gen_request ctx addnl n = Stuck AssertFail
  end.
Proof.
  intros Hs Hl. unfold hash_gen_request. rewrite (needs_reseed_spec _ _ Hs). unfold Hash_DRBG_Generate.
  destruct (Z.ltb_spec reseed_interval (st_counter st)) as [_|Hle]; cbn [negb c_assert res_bind]; [reflexivity|].
  destruct Hs as [HV HC HCr Hc Hw]. unfold reseed_interval in Hle. rewrite HV, process_addnl_spec by done. cbn [res_bind]. set (V := if bool_decide _ then _ else _).
  pose proof (hash_generate_spec n n V 0 (le_n _)) as Hg. rewrite Z.add_0_r in Hg. rewrite Hg. cbn [res_bind].
  rewrite HC, Hw. unfold u32. rewrite (Z.mod_small (st_counter st)) by lia. rewrite hash_step_spec by (done || lia). cbn [res_bind].
  eexists. split; [reflexivity|]. split; cbn [drbg_V drbg_C reseed_counter st_V st_C st_counter]; [by rewrite be_seedlen | reflexivity | exact HCr | lia | reflexivity].
Qed.

Lemma gen_loop_spec fuel ctx st addnl n :
  seeded ctx st -> Z.of_nat (length addnl) < 2 ^ 37 -> (n <= fuel)%nat ->
  match Generate_all fuel st addnl n with
  | Some (out, st') => exists ctx', gen_loop fuel ctx addnl n = Ok (out, ctx') /\ seeded ctx' st'
  | None => gen_loop fuel ctx addnl n = Stuck AssertFail
  end.
Proof.
  revert ctx st addnl n. induction fuel as [|fuel IH]; intros ctx st addnl n Hs Hl Hn; (destruct n as [|n]; [by eexists|]); [lia|].
  cbn [Generate_all gen_loop]. change (Z.to_nat (2 ^ 19 / 8)) with MAX_DRBG_GENERATE. set (m := Nat.min MAX_DRBG_GENERATE (S n)).
  assert (Hm : (0 < m)%nat) by (assert (0 < MAX_DRBG_GENERATE)%nat by (unfold MAX_DRBG_GENERATE; lia); unfold m; lia). clearbody m.
  pose proof (gen_request_spec ctx st addnl m Hs Hl) as Hr. destruct (Hash_DRBG_Generate st m addnl) as [[out st1]|]; cbn [mbind option_bind].
  - destruct Hr as (ctx1 & -> & Hs1). cbn [res_bind]. pose proof (IH ctx1 st1 [] (S n - m)%nat Hs1 ltac:(cbn; lia) ltac:(lia)) as Hrest.
    destruct (Generate_all fuel st1 [] (S n - m)) as [[rest st2]|]; cbn [mbind option_bind].
    + destruct Hrest as (ctx2 & -> & Hs2). by eexists.
    + by rewrite Hrest.
  - by rewrite Hr.
Qed.

Lemma unseeded : seeded drbg_zero drbg_unseeded.
Proof. split; try reflexivity; cbn [drbg_unseeded st_C st_counter]; unfold reseed_interval, seedlen; lia. Qed.

Lemma random_bytes_spec entropy ctx st len :
  seeded ctx st -> length entropy = 256%nat ->
  match drbg_random entropy st len with
  | Some (out, st') => exists ctx', ptls_minicrypto_random_bytes entropy ctx len = Ok (out, ctx') /\ seeded ctx' st'
  | None => ptls_minicrypto_random_bytes entropy ctx len = Stuck AssertFail
  end.
Proof.
  intros Hs He. unfold drbg_random, ptls_minicrypto_random_bytes. rewrite (needs_reseed_spec _ _ Hs).
  destruct (reseed_interval <? st_counter st).
  - destruct (seeds_spec (take 128 entropy) (drop 128 entropy) (str "ptls") []) as (ctx1 & Hi & Hs1).
    { rewrite length_take, length_drop, He. cbn. lia. }
    unfold cf_hash_drbg_sha256_init. rewrite Hi. cbn [res_bind]. rewrite app_nil_r in Hs1. apply gen_loop_spec; [exact Hs1 | cbn; lia | lia].
  - cbn [res_bind]. apply gen_loop_spec; [exact Hs | cbn; lia | lia].
Qed.

(** ** Sequences of requests *)

(** Each call with the entropy it would read. *)
Fixpoint random_calls (ctx : cf_hash_drbg_sha256) (calls : list (bytes * nat)) : res (list bytes) :=
  match calls with
  | [] => Ok []
  | (entropy, len) :: calls =>
      let! '(out, ctx) := ptls_minicrypto_random_bytes entropy ctx len in
      let! outs := random_calls ctx calls in
      Ok (out :: outs)
  end.
Fixpoint drbg_calls (st : drbg_state) (calls : list (bytes * nat)) : option (list bytes) :=
  match calls with
  | [] => Some []
  | (entropy, len) :: calls =>
      '(out, st) ← drbg_random entropy st len;
      outs ← drbg_calls st calls;
      Some (out :: outs)
  end.

Lemma random_calls_spec ctx st calls :
  seeded ctx st -> Forall (fun c => length c.1 = 256%nat) calls ->
  random_calls ctx calls = match drbg_calls st calls with Some outs => Ok outs | None => Stuck AssertFail end.
Proof.
  intros Hs Hc. revert ctx st Hs. induction Hc as [|[entropy len] calls He _ IH]; intros ctx st Hs; [reflexivity|]. cbn [random_calls drbg_calls].
  pose proof (random_bytes_spec entropy ctx st len Hs He) as Hr. destruct (drbg_random entropy st len) as [[out st1]|]; cbn [mbind option_bind].
  - destruct Hr as (ctx1 & -> & Hs1). cbn [res_bind]. rewrite (IH _ _ Hs1). destruct (drbg_calls st1 calls); reflexivity.
  - rewrite Hr. reflexivity.
Qed.

Lemma drbg_random_small entropy st len :
  (len <= MAX_DRBG_GENERATE)%nat -> exists out st', drbg_random entropy st len = Some (out, st') /\ length out = len.
Proof.
  intros Hl. unfold drbg_random. set (st0 := if _ <? _ then _ else _).
  assert (Hc : (reseed_interval <? st_counter st0) = false) by (unfold st0; destruct (reseed_interval <? st_counter st) eqn:E; [reflexivity | exact E]). clearbody st0.
  destruct len as [|n]; [by do 2 eexists|]. cbn [Generate_all]. change (Z.to_nat (2 ^ 19 / 8)) with MAX_DRBG_GENERATE. rewrite Nat.min_r, Nat.sub_diag by lia.
  unfold Hash_DRBG_Generate. rewrite Hc. cbn [mbind option_bind]. destruct n; cbn [Generate_all mbind option_bind]; do 2 eexists; (split; [reflexivity|]);
    rewrite app_nil_r; apply Hashgen_length.
Qed.

(** C10: the random octets of the minicrypto backend are those of the Hash_DRBG of
    SP 800-90A with SHA-256, from the static context on and for every sequence of
    calls: the generator is instantiated from 256 octets of entropy when it was not yet
    or is due for reseeding, requests are cut at the limit of the standard, and
    additions and hashes are the standard's.  The only failure is the assertion in the
    middle of a call that needs more requests than are left before reseeding; calls of
    at most 64 KiB always succeed and deliver as many octets as asked for. *)
Theorem random_is_hash_drbg calls :
  Forall (fun c => length c.1 = 256%nat) calls ->
  random_calls drbg_zero calls = match drbg_calls drbg_unseeded calls with Some outs => Ok outs | None => Stuck AssertFail end /\
  (Forall (fun c => c.2 <= MAX_DRBG_GENERATE)%nat calls -> exists outs, random_calls drbg_zero calls = Ok outs /\ map length outs = map snd calls).
Proof.
  intros Hc. rewrite (random_calls_spec _ _ _ unseeded Hc). split; [reflexivity|]. generalize drbg_unseeded as st. clear Hc.
  induction calls as [|[entropy len] calls IH]; intros st Hl; [by exists []|]. inversion_clear Hl as [|? ? Hlen Hl']. cbn [drbg_calls snd] in *.
  destruct (drbg_random_small entropy st len Hlen) as (out & st' & -> & Ho). cbn [mbind option_bind]. destruct (IH st' Hl') as (outs & H & Hlens).
  destruct (drbg_calls st' calls) as [outs'|]; [|discriminate H]. injection H as ->. cbn [mbind option_bind]. exists (out :: outs). split; [reflexivity|].
  cbn [map]. by rewrite Ho, Hlens.
Qed.

Lemma random_is_hash_drbg_witness :
  let calls := [(replicate 256 7, 40%nat); (replicate 256 8, 33%nat)] in
  random_calls drbg_zero calls = match drbg_calls drbg_unseeded calls with Some outs => Ok outs | None => Stuck AssertFail end /\
  (Forall (fun c => c.2 <= MAX_DRBG_GENERATE)%nat calls -> exists outs, random_calls drbg_zero calls = Ok outs /\ map length outs = map snd calls).
Proof. apply (random_is_hash_drbg [(replicate 256 7, 40%nat); (replicate 256 8, 33%nat)]). repeat constructor. Defined.

(** One request before the generator is due for reseeding, a call of more than 64 KiB
    aborts: the check is made once per call. *)
Lemma random_runs_out entropy V C len :
  length entropy = 256%nat -> 0 <= C < 2 ^ seedlen -> (MAX_DRBG_GENERATE < len)%nat ->
  ptls_minicrypto_random_bytes entropy (mk_drbg (seed_string V) (seed_string C) (2 ^ 32 - 1)) len = Stuck AssertFail.
Proof.
  intros He HC Hl. pose proof (random_bytes_spec entropy (mk_drbg (seed_string V) (seed_string C) (2 ^ 32 - 1)) (mk_state V C (2 ^ 32 - 1)) len) as H.
  assert (E : drbg_random entropy (mk_state V C (2 ^ 32 - 1)) len = None).
  { assert (Hp : (0 < MAX_DRBG_GENERATE)%nat) by (unfold MAX_DRBG_GENERATE; lia). unfold drbg_random. cbn [st_counter]. rewrite (proj2 (Z.ltb_ge _ _)) by (unfold reseed_interval; lia).
    destruct len as [|n]; [lia|]. cbn [Generate_all]. change (Z.to_nat (2 ^ 19 / 8)) with MAX_DRBG_GENERATE. rewrite Nat.min_l by lia.
    unfold Hash_DRBG_Generate at 1. cbn [st_counter]. rewrite (proj2 (Z.ltb_ge _ _)) by (unfold reseed_interval; lia). cbn [mbind option_bind].
    destruct (S n - MAX_DRBG_GENERATE)%nat as [|k] eqn:Ek; [lia|]. destruct n as [|n]; [lia|]. cbn [Generate_all]. unfold Hash_DRBG_Generate at 1. cbn [st_counter].
    rewrite (proj2 (Z.ltb_lt _ _)) by (unfold reseed_interval; lia). reflexivity. }
  rewrite E in H. apply H; [|exact He]. split; cbn [drbg_V drbg_C reseed_counter st_V st_C st_counter]; try reflexivity; [exact HC | lia].
Qed.
