(* ===== verification/MinicryptoAead.v ===== *)
(** * MinicryptoAead: ChaCha20-Poly1305 of the minicrypto backend

    [src/lib/cifra/chacha20.c]: ChaCha20-Poly1305 built from the stream cipher of
    [Chacha20] and the authenticator of [Poly1305]. Main results: the construction is
    the AEAD of RFC 8439, bit for bit ([chacha20poly1305_is_rfc8439]), and it satisfies
    [AeadLaws], the contract the record layer relies on. *)
From S2P Require Import Prelude Constants Blockwise Chacha20 Poly1305 Crypto.

Definition PTLS_CHACHA20_KEY_SIZE : nat := 32.
Definition PTLS_CHACHA20_IV_SIZE : nat := 16.
Definition PTLS_CHACHA20POLY1305_IV_SIZE : nat := 12.
Definition PTLS_CHACHA20POLY1305_TAG_SIZE : nat := 16.

(** A context before anything was written to it, and after [ptls_clear_memory]. *)
Definition chacha_cleared : cf_chacha20_ctx := mk_chacha (replicate 16 0) (replicate 16 0) (replicate 16 0) [] (replicate 64 0) 0 0.

(** ** The cipher [ptls_minicrypto_chacha20] *)

Record chacha20_context_t := mk_c20 { c20_chacha : cf_chacha20_ctx }.

Definition chacha20_setup_crypto (key : bytes) : res chacha20_context_t :=
  let! chacha := cf_chacha20_init chacha_cleared key PTLS_CHACHA20_KEY_SIZE (str "01234567") in
  Ok (mk_c20 chacha).
(** The whole IV is the nonce, and no octet of it the counter. *)
Definition chacha20_init (ctx : chacha20_context_t) (iv : bytes) : res chacha20_context_t :=
  let! nonce := copy_from iv 0 16 in
  Ok (mk_c20 ((c20_chacha ctx) <| ch_nblock := O |> <| ch_ncounter := O |> <| ch_nonce := nonce |>)).
Definition chacha20_transform (ctx : chacha20_context_t) (input : bytes) : res (bytes * chacha20_context_t) :=
  let! '(output, chacha) := cf_chacha20_cipher (c20_chacha ctx) input in
  Ok (output, mk_c20 chacha).

Definition chacha20_encrypt (key iv input : bytes) : res bytes :=
  let! ctx := chacha20_setup_crypto key in
  let! ctx := chacha20_init ctx iv in
  let! '(output, _) := chacha20_transform ctx input in
  Ok output.

(** RFC 8439, section 2.4.2 *)
Example chacha20_vector :
  chacha20_encrypt (map Z.of_nat (seq 0 32)) (hex "01000000000000000000004a00000000")
    (str "Ladies and Gentlemen of the class of '99: If I could offer you only one tip for the future, sunscreen would be it.") =
  Ok (hex "6e2e359a2568f98041ba0728dd0d6981e97e7aec1d4360c20a27afccfd9fae0bf91b65c5524733ab8f593dabcd62b3571639d624e65152ab8f"
      ++ hex "530c359f0861d807ca0dbf500d6a6156a38e088a22b65e52bc514d16ccf806818ce91ab77937365af90bbf74a35be6b40b8eedf2785e42874d").
Proof. by vm_compute. Qed.

(** The counter has length 0, which [incr_le] excludes: it carries into the octets of the
    nonce, and when all of those are [0xff] into the pointer behind the nonce. *)
Example chacha20_iv_overflow : chacha20_encrypt (replicate 32 1) (replicate 16 0xff) [0] = Stuck OutOfBounds.
Proof. by vm_compute. Qed.
Example chacha20_counter : (let! x := chacha20_encrypt (replicate 32 1) (replicate 16 7) (replicate 128 0) in Ok (drop 64 x)) =
  chacha20_encrypt (replicate 32 1) (8 :: replicate 15 7) (replicate 64 0).
Proof. by vm_compute. Qed.

(** ** ChaCha20-Poly1305 *)

Record chacha20poly1305_context_t := mk_cp {
  cp_key : bytes;
  cp_static_iv : bytes;
  cp_chacha : cf_chacha20_ctx;
  cp_poly : cf_poly1305;
  cp_aadlen : Z;
  cp_textlen : Z
}.
#[export] Instance eta_cp : Eta chacha20poly1305_context_t := fun r =>
  mk_cp (cp_key r) (cp_static_iv r) (cp_chacha r) (cp_poly r) (cp_aadlen r) (cp_textlen r).

Definition zeros64 : bytes := replicate 64 0.

Definition chacha20poly1305_encrypt_pad (poly : cf_poly1305) (n : Z) : res cf_poly1305 :=
  if negb (n mod 16 =? 0) then cf_poly1305_update poly (take (Z.to_nat (16 - n mod 16)) zeros64) else Ok poly.

Definition chacha20poly1305_finalize (ctx : chacha20poly1305_context_t) : res (bytes * chacha20poly1305_context_t) :=
  let! poly := chacha20poly1305_encrypt_pad (cp_poly ctx) (cp_textlen ctx) in
  let lenbuf := write64_le (cp_aadlen ctx) ++ write64_le (cp_textlen ctx) in
  let! poly := cf_poly1305_update poly lenbuf in
  let! '(tag, poly) := cf_poly1305_finish poly in
  Ok (tag, ctx <| cp_poly := poly |>).

Definition chacha20poly1305_init (ctx : chacha20poly1305_context_t) (seq : Z) (aad : bytes) : res chacha20poly1305_context_t :=
  let! iv := ptls_aead__build_iv PTLS_CHACHA20POLY1305_IV_SIZE (cp_static_iv ctx) seq in
  let tmpbuf := replicate (16 - PTLS_CHACHA20POLY1305_IV_SIZE) 0 ++ iv in
  let! chacha := cf_chacha20_init_custom (cp_chacha ctx) (cp_key ctx) PTLS_CHACHA20_KEY_SIZE tmpbuf 4 in
  let! '(tmpbuf, chacha) := cf_chacha20_cipher chacha zeros64 in
  let! poly := cf_poly1305_init (take 16 tmpbuf) (take 16 (drop 16 tmpbuf)) in
  let aadlen := u64 (Z.of_nat (length aad)) in
  let! poly :=
    if negb (length aad =? 0)%nat then
      let! poly := cf_poly1305_update poly aad in chacha20poly1305_encrypt_pad poly aadlen
    else Ok poly in
  Ok (ctx <| cp_chacha := chacha |> <| cp_poly := poly |> <| cp_aadlen := aadlen |> <| cp_textlen := 0 |>).

Definition chacha20poly1305_encrypt_update (ctx : chacha20poly1305_context_t) (input : bytes) : res (bytes * chacha20poly1305_context_t) :=
  let! '(output, chacha) := cf_chacha20_cipher (cp_chacha ctx) input in
  let! poly := cf_poly1305_update (cp_poly ctx) output in
  Ok (output, ctx <| cp_chacha := chacha |> <| cp_poly := poly |> <| cp_textlen := u64 (cp_textlen ctx + Z.of_nat (length input)) |>).

(** The key stream context is cleared. *)
Definition chacha20poly1305_encrypt_final (ctx : chacha20poly1305_context_t) : res (bytes * chacha20poly1305_context_t) :=
  let! '(tag, ctx) := chacha20poly1305_finalize ctx in
  Ok (tag, ctx <| cp_chacha := chacha_cleared |>).

(** [None] is [SIZE_MAX]. *)
Definition chacha20poly1305_decrypt (ctx : chacha20poly1305_context_t) (input : bytes) (seq : Z) (aad : bytes)
    : res (option bytes * chacha20poly1305_context_t) :=
  if (length input <? PTLS_CHACHA20POLY1305_TAG_SIZE)%nat then Ok (None, ctx)
  else
    let n := (length input - PTLS_CHACHA20POLY1305_TAG_SIZE)%nat in
    let! ctx := chacha20poly1305_init ctx seq aad in
    let! poly := cf_poly1305_update (cp_poly ctx) (take n input) in
    let ctx := ctx <| cp_poly := poly |> <| cp_textlen := u64 (Z.of_nat n) |> in
    let! '(tag, ctx) := chacha20poly1305_finalize ctx in
    if bool_decide (tag = drop n input) then
      let! '(output, chacha) := cf_chacha20_cipher (cp_chacha ctx) (take n input) in
      Ok (Some output, ctx <| cp_chacha := chacha |> <| cp_poly := poly1305_cleared |>)
    else Ok (None, ctx <| cp_poly := poly1305_cleared |>).

Definition aead_chacha20poly1305_setup_crypto (key iv : bytes) : res chacha20poly1305_context_t :=
  let! key := copy_from key 0 PTLS_CHACHA20_KEY_SIZE in
  let! iv := copy_from iv 0 PTLS_CHACHA20POLY1305_IV_SIZE in
  Ok (mk_cp key iv chacha_cleared poly1305_cleared 0 0).

(** ** RFC 8439, section 2.8 *)

Definition rfc8439_pad16 (x : bytes) : bytes := replicate ((16 - length x mod 16) mod 16) 0.
Definition rfc8439_mac_data (aad ciphertext : bytes) : bytes :=
  aad ++ rfc8439_pad16 aad ++ ciphertext ++ rfc8439_pad16 ciphertext ++
  le 8 (Z.of_nat (length aad)) ++ le 8 (Z.of_nat (length ciphertext)).
(** Block 0 of the key stream is the one-time key, the text is encrypted from block 1. *)
Definition rfc8439_tag (key nonce aad ciphertext : bytes) : bytes :=
  let otk := map (rfc8439_stream key nonce) (seq 0 32) in
  rfc8439_poly1305 (take 16 otk) (drop 16 otk) (rfc8439_mac_data aad ciphertext).
Definition rfc8439_encrypt (key nonce text : bytes) : bytes := xor_stream (rfc8439_stream key nonce) 64 text.

#[local] Opaque rfc8439_stream rfc8439_poly1305 cf_chacha20_cipher cf_poly1305_update cf_poly1305_finish.

Lemma xor_stream_bytes s p x : is_bytes (xor_stream s p x).
Proof.
  apply Forall_lookup. intros i b. unfold xor_stream. rewrite list_lookup_imap. destruct (x !! i); cbn; [intros [= <-]; apply u8_range | done].
Qed.

Lemma xor_stream_twice s p x : (forall i, is_byte (s i)) -> is_bytes x -> xor_stream s p (xor_stream s p x) = x.
Proof.
  intros Hs Hx. apply list_eq. intros i. unfold xor_stream. rewrite !list_lookup_imap. destruct (x !! i) as [b|] eqn:E; cbn; [|done].
  pose proof (is_bytes_lookup _ _ _ Hx E) as Hb. rewrite (u8_id (Z.lxor b _)) by (by apply lxor_byte).
  by rewrite Z.lxor_assoc, Z.lxor_nilpotent, Z.lxor_0_r, u8_id.
Qed.

(** The number of padding octets does not depend on whether the length wrapped. *)
Lemma pad_count x v :
  v = u64 (Z.of_nat (length x)) ->
  (if negb (v mod 16 =? 0) then take (Z.to_nat (16 - v mod 16)) zeros64 else []) = rfc8439_pad16 x.
Proof.
  intros ->. unfold rfc8439_pad16, u64. rewrite Z.mod_mod_divide by (by exists (2 ^ 60)).
  change 16 with (Z.of_nat 16). rewrite <- Nat2Z.inj_mod. set (m := (length x mod 16)%nat). assert (Hm : (m < 16)%nat) by (by apply Nat.mod_upper_bound).
  clearbody m. destruct (Z.eqb_spec (Z.of_nat m) 0) as [E|E]; cbn [negb].
  - by replace m with O by lia.
  - unfold zeros64. rewrite take_replicate, (Nat.mod_small (16 - m)) by lia. f_equal. lia.
Qed.

Section Rfc8439.
Context (key static_iv nonce aad : bytes).
Hypotheses (Hkey : length key = 32%nat) (Hkeyb : is_bytes key) (Hnonce : length nonce = 12%nat) (Hnonceb : is_bytes nonce) (Haad : is_bytes aad).

Notation stream := (rfc8439_stream key nonce).
Notation otk := (map stream (seq 0 32)).
Notation fed := (poly_fed (take 16 otk) (drop 16 otk)).

Lemma otk_bytes : is_bytes otk.
Proof. apply List.Forall_forall. intros x (i & <- & _)%in_map_iff. apply rfc8439_stream_byte. Qed.

Lemma otk_spec n m : (n + m <= 64)%nat -> take m (drop n (xor_stream stream 0 zeros64)) = map stream (seq n m).
Proof.
  intros Hnm. apply list_eq. intros i. destruct (decide (i < m)%nat) as [Hi|Hi].
  - rewrite lookup_take_lt, lookup_drop by lia. unfold xor_stream. rewrite list_lookup_imap. unfold zeros64.
    rewrite lookup_replicate_2 by lia. cbn [fmap option_fmap option_map]. rewrite list_lookup_fmap, lookup_seq_lt by lia.
    cbn [fmap option_fmap option_map]. rewrite Z.lxor_0_l, u8_id by apply rfc8439_stream_byte. done.
  - rewrite !lookup_ge_None_2; [done | rewrite length_map, length_seq; lia | rewrite length_take; lia].
Qed.

Lemma fed_update msg poly buf : fed msg poly -> exists poly', cf_poly1305_update poly buf = Ok poly' /\ fed (msg ++ buf) poly'.
Proof. exact (poly_update (take 16 otk) (drop 16 otk) eq_refl eq_refl msg poly buf). Qed.

(** The context after [chacha20poly1305_init] and the encryption of [text]. *)
Record cp_state (text : bytes) (ctx : chacha20poly1305_context_t) : Prop := {
  state_key : cp_key ctx = key;
  state_iv : cp_static_iv ctx = static_iv;
  state_chacha : chacha_at key nonce (64 + length text) (cp_chacha ctx);
  state_poly : fed (aad ++ rfc8439_pad16 aad ++ rfc8439_encrypt key nonce text) (cp_poly ctx);
  state_aadlen : cp_aadlen ctx = u64 (Z.of_nat (length aad));
  state_textlen : cp_textlen ctx = u64 (Z.of_nat (length text))
}.

Lemma pad_fed msg poly x v :
  v = u64 (Z.of_nat (length x)) -> fed msg poly -> exists poly', chacha20poly1305_encrypt_pad poly v = Ok poly' /\ fed (msg ++ rfc8439_pad16 x) poly'.
Proof.
  intros Hv Hf. rewrite <- (pad_count x v Hv). unfold chacha20poly1305_encrypt_pad. destruct (_ =? 0); cbn [negb].
  - exists poly. by rewrite app_nil_r.
  - by apply fed_update.
Qed.

Lemma init_spec ctx n :
  ptls_aead__build_iv PTLS_CHACHA20POLY1305_IV_SIZE static_iv n = Ok nonce -> cp_key ctx = key -> cp_static_iv ctx = static_iv ->
  exists ctx', chacha20poly1305_init ctx n aad = Ok ctx' /\ cp_state [] ctx'.
Proof.
  intros Hiv Hk Hs. unfold chacha20poly1305_init. rewrite Hs, Hk, Hiv. cbn [res_bind].
  change (replicate (16 - PTLS_CHACHA20POLY1305_IV_SIZE) 0) with (replicate 4 0). change PTLS_CHACHA20_KEY_SIZE with 32%nat.
  destruct (chacha_at_init key nonce Hkey Hnonce (cp_chacha ctx)) as (chacha & -> & Hc). cbn [res_bind].
  destruct (chacha20_streams key nonce Hkey Hkeyb Hnonce Hnonceb 0 chacha zeros64 Hc) as (chacha' & -> & Hc'). cbn [res_bind].
  pose proof (otk_spec 0 16 ltac:(lia)) as H1. rewrite drop_0 in H1. rewrite H1, (otk_spec 16 16) by lia.
  change (map stream (seq 0 16)) with (take 16 otk). change (map stream (seq 16 16)) with (drop 16 otk).
  destruct (poly_init (take 16 otk) (drop 16 otk) eq_refl eq_refl) as [-> Hp]. cbn [res_bind].
  assert (Hpoly : exists poly', (if negb (length aad =? 0)%nat then
      let! poly := cf_poly1305_update (poly_start (take 16 otk) (drop 16 otk) (replicate 16 0) 0) aad in
      chacha20poly1305_encrypt_pad poly (u64 (Z.of_nat (length aad)))
    else Ok (poly_start (take 16 otk) (drop 16 otk) (replicate 16 0) 0)) = Ok poly' /\ fed (aad ++ rfc8439_pad16 aad) poly').
  { destruct (Nat.eqb_spec (length aad) 0) as [E|E]; cbn [negb].
    - apply nil_length_inv in E. rewrite E. eexists. split; [reflexivity | exact Hp].
    - destruct (fed_update _ _ aad Hp) as (poly & -> & Hf). cbn [res_bind]. apply (pad_fed aad _ aad); [reflexivity | exact Hf]. }
  destruct Hpoly as (poly' & -> & Hf). cbn [res_bind]. eexists. split; [reflexivity|].
  constructor; cbn [field_update cp_key cp_static_iv cp_chacha cp_poly cp_aadlen cp_textlen length]; [done | done | exact Hc' | | done | done].
  unfold rfc8439_encrypt. cbn [xor_stream imap]. by rewrite app_nil_r.
Qed.

Lemma update_spec text ctx input :
  cp_state text ctx ->
  exists ctx', chacha20poly1305_encrypt_update ctx input = Ok (xor_stream stream (64 + length text) input, ctx') /\ cp_state (text ++ input) ctx'.
Proof.
  intros [Hk Hs Hc Hp Hal Htl]. unfold chacha20poly1305_encrypt_update.
  destruct (chacha20_streams key nonce Hkey Hkeyb Hnonce Hnonceb _ _ input Hc) as (chacha & -> & Hc'). cbn [res_bind].
  destruct (fed_update _ _ (xor_stream stream (64 + length text) input) Hp) as (poly & -> & Hp'). cbn [res_bind]. eexists. split; [reflexivity|].
  constructor; cbn [field_update cp_key cp_static_iv cp_chacha cp_poly cp_aadlen cp_textlen]; [done | done | | | done |].
  - rewrite length_app, Nat.add_assoc. exact Hc'.
  - unfold rfc8439_encrypt in *. rewrite xor_stream_app. by rewrite <- !app_assoc in Hp'.
  - rewrite Htl, length_app. unfold u64. rewrite Zplus_mod_idemp_l. f_equal. lia.
Qed.

(** The tag of whatever ciphertext was fed to the authenticator. *)
Lemma finalize_spec ct ctx :
  is_bytes ct -> fed (aad ++ rfc8439_pad16 aad ++ ct) (cp_poly ctx) ->
  cp_aadlen ctx = u64 (Z.of_nat (length aad)) -> cp_textlen ctx = u64 (Z.of_nat (length ct)) ->
  chacha20poly1305_finalize ctx = Ok (rfc8439_tag key nonce aad ct, ctx <| cp_poly := poly1305_cleared |>).
Proof.
  intros Hct Hf Hal Htl. unfold chacha20poly1305_finalize.
  destruct (pad_fed _ (cp_poly ctx) ct (cp_textlen ctx) Htl Hf) as (poly & -> & Hf1). cbn [res_bind].
  rewrite Hal, Htl, !write64_le_spec. unfold u64. rewrite !(le_mod 8).
  destruct (fed_update _ poly (le 8 (Z.of_nat (length aad)) ++ le 8 (Z.of_nat (length ct))) Hf1) as (poly2 & -> & Hf2). cbn [res_bind].
  rewrite <- !app_assoc in Hf2. pose proof otk_bytes as Ho.
  assert (Hm : is_bytes (rfc8439_mac_data aad ct)).
  { unfold rfc8439_mac_data. repeat apply Forall_app_2; try done; try apply le_bytes; by apply Forall_replicate. }
  rewrite (poly_finish (take 16 otk) (drop 16 otk) (Forall_take _ _ _ Ho) eq_refl (Forall_drop _ _ _ Ho) eq_refl (rfc8439_mac_data aad ct) poly2 Hm Hf2).
  reflexivity.
Qed.

Lemma final_spec text ctx :
  cp_state text ctx -> exists ctx', chacha20poly1305_encrypt_final ctx = Ok (rfc8439_tag key nonce aad (rfc8439_encrypt key nonce text), ctx').
Proof.
  intros [Hk Hs Hc Hp Hal Htl]. unfold chacha20poly1305_encrypt_final.
  rewrite (finalize_spec (rfc8439_encrypt key nonce text)); [by eexists | apply xor_stream_bytes | done | done |].
  unfold rfc8439_encrypt. by rewrite length_xor_stream.
Qed.

(** A decryption compares the tags, and then decrypts. *)
Lemma decrypt_spec ctx n input :
  ptls_aead__build_iv PTLS_CHACHA20POLY1305_IV_SIZE static_iv n = Ok nonce -> cp_key ctx = key -> cp_static_iv ctx = static_iv ->
  is_bytes input -> (16 <= length input)%nat ->
  let ct := take (length input - 16) input in
  exists ctx', chacha20poly1305_decrypt ctx input n aad =
    Ok (if bool_decide (rfc8439_tag key nonce aad ct = drop (length input - 16) input) then Some (rfc8439_encrypt key nonce ct) else None, ctx').
Proof.
  intros Hiv Hk Hs Hb Hlen ct. unfold chacha20poly1305_decrypt, PTLS_CHACHA20POLY1305_TAG_SIZE.
  rewrite (proj2 (Nat.ltb_ge _ _)) by lia. destruct (init_spec ctx n Hiv Hk Hs) as (ctx1 & -> & [Hk1 Hs1 Hc Hp Hal Htl]). cbn [res_bind]. fold ct.
  assert (Hct : length ct = (length input - 16)%nat) by (unfold ct; rewrite length_take; lia).
  destruct (fed_update _ (cp_poly ctx1) ct Hp) as (poly & -> & Hp1). cbn [res_bind].
  unfold rfc8439_encrypt in Hp1. cbn [xor_stream imap] in Hp1. change (imap _ []) with (@nil Z) in Hp1. rewrite app_nil_r, <- app_assoc in Hp1.
  rewrite (finalize_spec ct); [| by apply Forall_take | exact Hp1 | exact Hal | by rewrite <- Hct]. cbn [res_bind].
  destruct (bool_decide _); [|by eexists]. cbn [field_update cp_chacha].
  destruct (chacha20_streams key nonce Hkey Hkeyb Hnonce Hnonceb _ _ ct Hc) as (chacha & -> & _). cbn [res_bind length]. by eexists.
Qed.
End Rfc8439.

(** ** Encrypt-then-authenticate with a stream cipher

    An algorithm that adds a key stream (from octet [pos] on) and appends a 16-octet
    tag of the ciphertext satisfies the contract. *)

(** A [uint8_t *] points to octets. *)
Definition octets (x : bytes) : bytes := map u8 x.

Lemma octets_bytes x : is_bytes (octets x).
Proof. induction x; constructor; [apply u8_range | done]. Qed.
Lemma length_octets x : length (octets x) = length x.
Proof. apply length_map. Qed.
Lemma octets_id x : is_bytes x -> octets x = x.
Proof. induction 1 as [|b x Hb Hx IH]; [done|]. unfold octets in *. cbn [map]. by rewrite u8_id, IH. Qed.

Section StreamAead.
Variables (a : ptls_aead_algorithm_t) (stream : bytes -> bytes -> Z -> nat -> Z) (pos : nat)
  (tag : bytes -> bytes -> Z -> bytes -> bytes -> bytes).
Hypotheses
  (Hstream : forall key iv n i, is_byte (stream key iv n i))
  (Htag : forall key iv n aad ct, length (tag key iv n aad ct) = 16%nat)
  (Htagb : forall key iv n aad ct, is_bytes (tag key iv n aad ct))
  (Hsize : tag_size a = 16%nat)
  (Hupdate : forall key iv n aad prev x, do_encrypt_update a key iv n aad prev x = xor_stream (stream key iv n) (pos + length prev) x)
  (Hfinal : forall key iv n aad text, do_encrypt_final a key iv n aad text = tag key iv n aad (xor_stream (stream key iv n) pos text))
  (Hoctets : forall key iv n aad c, do_decrypt a key iv n aad c = do_decrypt a key iv n aad (octets c))
  (Hdecrypt : forall key iv n aad c, is_bytes c -> do_decrypt a key iv n aad c =
     if (length c <? 16)%nat then None
     else if bool_decide (tag key iv n aad (take (length c - 16) c) = drop (length c - 16) c)
     then Some (xor_stream (stream key iv n) pos (take (length c - 16) c)) else None).

Lemma stream_seal2 key iv n aad x y :
  seal2 a key iv n aad x y =
    xor_stream (stream key iv n) pos (x ++ y) ++ tag key iv n aad (xor_stream (stream key iv n) pos (x ++ y)).
Proof. unfold seal2. rewrite !Hupdate, Hfinal. cbn [length]. by rewrite Nat.add_0_r, app_assoc, <- xor_stream_app. Qed.

Lemma stream_aead_laws : AeadLaws a.
Proof.
  split.
  - intros key iv n aad x y Hx Hy. rewrite stream_seal2, Hdecrypt by (apply Forall_app_2; [apply xor_stream_bytes | apply Htagb]). set (ct := xor_stream _ _ _). rewrite length_app, Htag.
    rewrite (proj2 (Nat.ltb_ge _ _)) by lia. replace (length ct + 16 - 16)%nat with (length ct) by lia.
    rewrite take_app_length, drop_app_length, bool_decide_true by done. f_equal. apply xor_stream_twice; [done | by apply Forall_app_2].
  - intros. rewrite stream_seal2, !length_app, length_xor_stream, Htag, Hsize, length_app. lia.
  - intros. rewrite stream_seal2. apply Forall_app_2; [apply xor_stream_bytes | apply Htagb].
  - intros key iv n aad c p. rewrite Hoctets, Hdecrypt, Hsize by apply octets_bytes. rewrite length_octets. destruct (Nat.ltb_spec (length c) 16); [done|].
    destruct (bool_decide _); [|done]. intros [= <-]. rewrite length_xor_stream, length_take, length_octets. lia.
  - intros key iv n aad c p Hc. rewrite Hdecrypt by done. destruct (_ <? 16)%nat; [done|]. destruct (bool_decide _); [|done].
    intros [= <-]. apply xor_stream_bytes.
  - lia.
  - intros. by rewrite Hupdate.
Qed.
End StreamAead.

(** ** The algorithm tables *)

(** [memcpy] of [n] octets. A shorter source, which [ptls_aead_new_direct] is never
    given, is completed with zeroes. *)
Definition copied (n : nat) (x : bytes) : bytes := octets (take n (x ++ replicate n 0)).

Lemma length_copied n x : length (copied n x) = n.
Proof. unfold copied. rewrite length_octets, length_take, length_app, length_replicate. lia. Qed.
Lemma copied_bytes n x : is_bytes (copied n x).
Proof. apply octets_bytes. Qed.
Lemma copied_id n x : is_bytes x -> length x = n -> copied n x = x.
Proof. intros Hx Hl. unfold copied. rewrite take_app_le, take_ge by lia. by apply octets_id. Qed.

(** The nonce of a record. *)
Definition record_nonce (iv : bytes) (n : Z) : bytes :=
  match ptls_aead__build_iv 12 (copied 12 iv) n with Ok x => x | _ => [] end.

Lemma xor_list_bytes x y : is_bytes x -> is_bytes y -> is_bytes (xor_list x y).
Proof.
  intros Hx. revert y. induction Hx as [|a x Ha Hx IH]; intros y Hy; [constructor|]. destruct Hy; [constructor|]. constructor; [by apply lxor_byte | by apply IH].
Qed.

Lemma record_nonce_ok iv n :
  ptls_aead__build_iv 12 (copied 12 iv) n = Ok (record_nonce iv n) /\ length (record_nonce iv n) = 12%nat /\ is_bytes (record_nonce iv n).
Proof.
  unfold record_nonce. rewrite build_iv_spec by (rewrite ?length_copied; auto using copied_bytes with lia). split_and!; [done | |].
  - unfold xor_list. rewrite length_app, length_take, length_zip_with, length_drop, length_be, length_copied. done.
  - apply Forall_app_2; [apply Forall_take, copied_bytes | apply xor_list_bytes; [apply Forall_drop, copied_bytes | apply be_bytes]].
Qed.

Definition chacha20poly1305_ctx (key iv : bytes) : chacha20poly1305_context_t :=
  mk_cp (copied PTLS_CHACHA20_KEY_SIZE key) (copied PTLS_CHACHA20POLY1305_IV_SIZE iv) chacha_cleared poly1305_cleared 0 0.

(** A context between [do_encrypt_init] and [do_encrypt_final]. *)
Definition chacha20poly1305_started (key iv : bytes) (n : Z) (aad prev : bytes) : res chacha20poly1305_context_t :=
  let! ctx := chacha20poly1305_init (chacha20poly1305_ctx key iv) n (octets aad) in
  let! '(_, ctx) := chacha20poly1305_encrypt_update ctx prev in
  Ok ctx.

(** The output of a call. *)
Definition output_of {A} (m : res (bytes * A)) : bytes := match m with Ok (x, _) => x | _ => [] end.

Definition ptls_minicrypto_chacha20poly1305 : ptls_aead_algorithm_t :=
  mk_aead 3 PTLS_CHACHA20_KEY_SIZE PTLS_CHACHA20POLY1305_IV_SIZE PTLS_CHACHA20POLY1305_TAG_SIZE
    (fun _ key iv => match aead_chacha20poly1305_setup_crypto key iv with Ok _ => true | _ => false end)
    (fun key iv n aad prev input => output_of (let! ctx := chacha20poly1305_started key iv n aad prev in chacha20poly1305_encrypt_update ctx input))
    (fun key iv n aad text => output_of (let! ctx := chacha20poly1305_started key iv n aad text in chacha20poly1305_encrypt_final ctx))
    (fun key iv n aad input =>
       match chacha20poly1305_decrypt (chacha20poly1305_ctx key iv) (octets input) n (octets aad) with Ok (r, _) => r | _ => None end).

Section Record.
Context (key iv : bytes) (n : Z) (aad : bytes).
Notation k := (copied PTLS_CHACHA20_KEY_SIZE key).
Notation nonce := (record_nonce iv n).

Lemma started_spec prev :
  exists ctx, chacha20poly1305_started key iv n aad prev = Ok ctx /\ cp_state k (copied 12 iv) nonce (octets aad) prev ctx.
Proof.
  destruct (record_nonce_ok iv n) as (Hn & Hl & Hb). unfold chacha20poly1305_started.
  destruct (init_spec k (copied 12 iv) nonce (octets aad) (length_copied _ _) (copied_bytes _ _) Hl Hb (chacha20poly1305_ctx key iv) n Hn eq_refl eq_refl)
    as (ctx & -> & Hs). cbn [res_bind].
  destruct (update_spec k (copied 12 iv) nonce (octets aad) (length_copied _ _) (copied_bytes _ _) Hl Hb [] ctx prev Hs) as (ctx' & -> & Hs'). cbn [res_bind]. by exists ctx'.
Qed.
End Record.

#[export] Instance chacha20poly1305_laws : AeadLaws ptls_minicrypto_chacha20poly1305.
Proof.
  apply (stream_aead_laws _ (fun key iv n => rfc8439_stream (copied PTLS_CHACHA20_KEY_SIZE key) (record_nonce iv n)) 64
    (fun key iv n aad ct => rfc8439_tag (copied PTLS_CHACHA20_KEY_SIZE key) (record_nonce iv n) (octets aad) ct)).
  - intros. apply rfc8439_stream_byte.
  - intros. apply length_rfc8439_poly1305.
  - intros. apply rfc8439_poly1305_bytes.
  - done.
  - intros key iv n aad prev x. cbn [ptls_minicrypto_chacha20poly1305 do_encrypt_update]. destruct (record_nonce_ok iv n) as (Hn & Hl & Hb).
    destruct (started_spec key iv n aad prev) as (ctx & -> & Hs). cbn [res_bind].
    destruct (update_spec _ _ _ _ (length_copied _ _) (copied_bytes _ _) Hl Hb _ _ x Hs) as (ctx' & -> & _). done.
  - intros key iv n aad text. cbn [ptls_minicrypto_chacha20poly1305 do_encrypt_final]. destruct (record_nonce_ok iv n) as (Hn & Hl & Hb).
    destruct (started_spec key iv n aad text) as (ctx & -> & Hs). cbn [res_bind].
    destruct (final_spec _ _ _ _ (octets_bytes _) _ _ Hs) as (ctx' & ->). done.
  - intros key iv n aad c. cbn [ptls_minicrypto_chacha20poly1305 do_decrypt]. by rewrite (octets_id (octets c)) by apply octets_bytes.
  - intros key iv n aad c Hc. cbn [ptls_minicrypto_chacha20poly1305 do_decrypt]. rewrite (octets_id c) by done. destruct (record_nonce_ok iv n) as (Hn & Hl & Hb).
    destruct (Nat.ltb_spec (length c) 16) as [Hlt|Hge].
    + unfold chacha20poly1305_decrypt, PTLS_CHACHA20POLY1305_TAG_SIZE. by rewrite (proj2 (Nat.ltb_lt _ _)) by lia.
    + destruct (decrypt_spec (copied PTLS_CHACHA20_KEY_SIZE key) (copied 12 iv) (record_nonce iv n) (octets aad) (length_copied _ _) (copied_bytes _ _) Hl Hb (octets_bytes _)
        (chacha20poly1305_ctx key iv) n c Hn eq_refl eq_refl Hc Hge) as (ctx' & ->). done.
Qed.

(** ** Properties *)

(** [encrypt_update] on a sequence of chunks. *)
Fixpoint encrypt_chunks (ctx : chacha20poly1305_context_t) (chunks : list bytes) : res (bytes * chacha20poly1305_context_t) :=
  match chunks with
  | [] => Ok ([], ctx)
  | x :: chunks =>
      let! '(output, ctx) := chacha20poly1305_encrypt_update ctx x in
      let! '(rest, ctx) := encrypt_chunks ctx chunks in
      Ok (output ++ rest, ctx)
  end.

Lemma encrypt_chunks_spec key iv nonce aad text chunks ctx :
  length key = 32%nat -> is_bytes key -> length nonce = 12%nat -> is_bytes nonce -> cp_state key iv nonce aad text ctx ->
  exists ctx', encrypt_chunks ctx chunks = Ok (xor_stream (rfc8439_stream key nonce) (64 + length text) (concat chunks), ctx') /\
    cp_state key iv nonce aad (text ++ concat chunks) ctx'.
Proof.
  intros Hk Hkb Hn Hnb. revert text ctx. induction chunks as [|x chunks IH]; intros text ctx Hs; cbn [encrypt_chunks concat]; [exists ctx; by rewrite app_nil_r|].
  destruct (update_spec _ _ _ _ Hk Hkb Hn Hnb _ _ x Hs) as (ctx1 & -> & Hs1). cbn [res_bind]. destruct (IH _ _ Hs1) as (ctx2 & -> & Hs2). cbn [res_bind].
  exists ctx2. rewrite xor_stream_app, length_app, app_assoc, Nat.add_assoc. done.
Qed.

(** Encryption of a text in chunks: the ciphertext and the tag. *)
Definition chacha20poly1305_seal (key iv : bytes) (n : Z) (aad : bytes) (chunks : list bytes) : res (bytes * bytes) :=
  let! ctx := aead_chacha20poly1305_setup_crypto key iv in
  let! ctx := chacha20poly1305_init ctx n aad in
  let! '(ct, ctx) := encrypt_chunks ctx chunks in
  let! '(tag, _) := chacha20poly1305_encrypt_final ctx in
  Ok (ct, tag).
Definition chacha20poly1305_open (key iv : bytes) (n : Z) (aad input : bytes) : res (option bytes) :=
  let! ctx := aead_chacha20poly1305_setup_crypto key iv in
  let! '(text, _) := chacha20poly1305_decrypt ctx input n aad in
  Ok text.

(** C4: [chacha20poly1305_*] with the ChaCha20 and Poly1305 of cifra implement
    AEAD_CHACHA20_POLY1305 of RFC 8439 for every key, IV, sequence number and
    additional data, however the text is cut into chunks: the ciphertext and the tag
    are the RFC's, and decryption returns the text of a ciphertext with the right tag
    and refuses every other one. *)
Theorem chacha20poly1305_is_rfc8439 key iv n aad chunks ct tag :
  length key = PTLS_CHACHA20_KEY_SIZE -> is_bytes key -> length iv = PTLS_CHACHA20POLY1305_IV_SIZE -> is_bytes iv -> is_bytes aad ->
  is_bytes ct -> is_bytes tag -> length tag = PTLS_CHACHA20POLY1305_TAG_SIZE ->
  exists nonce, ptls_aead__build_iv PTLS_CHACHA20POLY1305_IV_SIZE iv n = Ok nonce /\
    chacha20poly1305_seal key iv n aad chunks =
      Ok (rfc8439_encrypt key nonce (concat chunks), rfc8439_tag key nonce aad (rfc8439_encrypt key nonce (concat chunks))) /\
    chacha20poly1305_open key iv n aad (ct ++ tag) =
      Ok (if bool_decide (tag = rfc8439_tag key nonce aad ct) then Some (rfc8439_encrypt key nonce ct) else None).
Proof.
  intros Hk Hkb Hiv Hivb Haad Hct Htagb Htag. unfold PTLS_CHACHA20_KEY_SIZE, PTLS_CHACHA20POLY1305_IV_SIZE, PTLS_CHACHA20POLY1305_TAG_SIZE in *.
  destruct (record_nonce_ok iv n) as (Hn & Hl & Hb). rewrite copied_id in Hn by done. exists (record_nonce iv n). split; [done|].
  assert (Hset : aead_chacha20poly1305_setup_crypto key iv = Ok (mk_cp key iv chacha_cleared poly1305_cleared 0 0)).
  { unfold aead_chacha20poly1305_setup_crypto, PTLS_CHACHA20_KEY_SIZE, PTLS_CHACHA20POLY1305_IV_SIZE. rewrite !copy_from_ok by lia. cbn [res_bind].
    by rewrite !drop_0, !take_ge by lia. }
  unfold chacha20poly1305_seal, chacha20poly1305_open. rewrite Hset. cbn [res_bind]. split.
  - destruct (init_spec key iv (record_nonce iv n) aad Hk Hkb Hl Hb (mk_cp key iv chacha_cleared poly1305_cleared 0 0) n Hn eq_refl eq_refl) as (ctx & -> & Hs). cbn [res_bind].
    destruct (encrypt_chunks_spec _ _ _ _ _ chunks _ Hk Hkb Hl Hb Hs) as (ctx' & -> & Hs'). cbn [res_bind].
    destruct (final_spec _ _ _ _ Haad _ _ Hs') as (ctx'' & ->). done.
  - destruct (decrypt_spec key iv (record_nonce iv n) aad Hk Hkb Hl Hb Haad (mk_cp key iv chacha_cleared poly1305_cleared 0 0) n (ct ++ tag) Hn eq_refl eq_refl)
      as [ctx'' Hd]; [by apply Forall_app_2 | rewrite length_app; lia|].
    rewrite Hd. cbn [res_bind]. rewrite length_app, Htag. replace (length ct + 16 - 16)%nat with (length ct) by lia.
    rewrite take_app_length, drop_app_length. f_equal. by rewrite (bool_decide_ext (tag = _) (rfc8439_tag key (record_nonce iv n) aad ct = tag)).
Qed.

(** RFC 8439, section 2.8.2, in two chunks. *)
Definition vector_key : bytes := hex "808182838485868788898a8b8c8d8e8f909192939495969798999a9b9c9d9e9f".
Definition vector_iv : bytes := hex "070000004041424344454647".
Definition vector_aad : bytes := hex "50515253c0c1c2c3c4c5c6c7".
Definition vector_text : list bytes :=
  [str "Ladies and Gentlemen of the class of '99: If I could offer you only one "; str "tip for the future, sunscreen would be it."].
Definition vector_tag : bytes := hex "1ae10b594f09e26a7e902ecbd0600691".

Example chacha20poly1305_vector :
  (let! '(ct, tag) := chacha20poly1305_seal vector_key vector_iv 0 vector_aad vector_text in Ok (take 16 ct, tag)) =
    Ok (hex "d31a8d34648e60db7b86afbc53ef7ec2", vector_tag).
Proof. by vm_compute. Qed.

Lemma chacha20poly1305_is_rfc8439_witness :
  exists nonce, ptls_aead__build_iv 12 vector_iv 0 = Ok nonce /\
    chacha20poly1305_seal vector_key vector_iv 0 vector_aad vector_text =
      Ok (rfc8439_encrypt vector_key nonce (concat vector_text), rfc8439_tag vector_key nonce vector_aad (rfc8439_encrypt vector_key nonce (concat vector_text))) /\
    chacha20poly1305_open vector_key vector_iv 0 vector_aad (hex "d31a8d34" ++ vector_tag) =
      Ok (if bool_decide (vector_tag = rfc8439_tag vector_key nonce vector_aad (hex "d31a8d34")) then Some (rfc8439_encrypt vector_key nonce (hex "d31a8d34")) else None).
Proof.
  apply (chacha20poly1305_is_rfc8439 vector_key vector_iv 0 vector_aad vector_text (hex "d31a8d34") vector_tag);
    try reflexivity; apply (bool_decide_unpack _); vm_compute; exact I.
Defined.
