(* ===== verification/Ffx.v ===== *)
(** * Ffx: format-preserving encryption

    [src/lib/ffx.c]: a Feistel network over the two halves of a short block, whose
    round function is a cipher keyed once and run on an all-zero input with one half
    as its IV. The theorems show that the two directions are inverse to each other
    and which bits of the last octet the construction leaves alone. *)
From S2P Require Import Prelude Constants Crypto.

(** ** The underlying cipher

    A [ptls_cipher_algorithm_t] that another backend provides. [ca_new algo is_enc key]
    is [ptls_cipher_new]: [NULL], or a context. A context is the function from
    the IV of [ptls_cipher_init] and the input of [ptls_cipher_encrypt] to its output. *)
Record ptls_cipher_algorithm_t := mk_cipher_algo {
  ca_key_size : nat;
  ca_block_size : nat;
  ca_iv_size : nat;
  ca_new : bool -> bytes -> option (bytes -> bytes -> bytes)
}.

(** What a cipher context promises: the output is as long as the input. *)
Class CipherLaws (enc_ctx : bytes -> bytes -> bytes) := {
  cipher_length : forall iv input, length (enc_ctx iv input) = length input;
  cipher_bytes : forall iv input, is_bytes (enc_ctx iv input)
}.

(** ** Contexts *)

(** The function pointers of [super] are either [NULL] or those of this file. *)
Record ptls_ffx_context_t := mk_ffx {
  ffx_super_algo : option ptls_cipher_algorithm_t;
  ffx_do_dispose : bool;
  ffx_do_init : bool;
  ffx_do_transform : bool;
  ffx_enc_ctx : option (bytes -> bytes -> bytes);
  ffx_nb_rounds : Z;
  ffx_is_enc : bool;
  ffx_byte_length : nat;
  ffx_nb_left : nat;
  ffx_nb_right : nat;
  ffx_mask_last_byte : Z;
  ffx_tweaks : bytes
}.
#[export] Instance eta_ffx : Eta ptls_ffx_context_t := fun r =>
  mk_ffx (ffx_super_algo r) (ffx_do_dispose r) (ffx_do_init r) (ffx_do_transform r) (ffx_enc_ctx r) (ffx_nb_rounds r)
    (ffx_is_enc r) (ffx_byte_length r) (ffx_nb_left r) (ffx_nb_right r) (ffx_mask_last_byte r) (ffx_tweaks r).

(** [memset(ctx, 0, sizeof(ptls_ffx_context_t))] *)
Definition ffx_zero : ptls_ffx_context_t := mk_ffx None false false false None 0 false 0 0 0 0 (replicate 16 0).

Definition last_byte_mask : bytes := [0xFF; 0xFE; 0xFC; 0xF8; 0xF0; 0xE0; 0xC0; 0x80].

Definition ffx_dispose (ctx : ptls_ffx_context_t) : res ptls_ffx_context_t :=
  let! _ := c_assert (ffx_do_dispose ctx) in
  Ok (mk_ffx (ffx_super_algo ctx) false false false None 0 false 0 0 0 0 (ffx_tweaks ctx)).

Definition ptls_ffx_setup_crypto (ctx : ptls_ffx_context_t) (algo : ptls_cipher_algorithm_t) (is_enc : bool) (nb_rounds : Z)
    (bit_length : nat) (key : bytes) : res ptls_ffx_context_t :=
  let len := ((bit_length + 7) / 8)%nat in
  let! _ := c_assert ((len <=? 32)%nat && (2 <=? len)%nat) in
  let! _ := c_assert (negb (ffx_do_dispose ctx)) in
  let! _ := c_assert (negb (ffx_do_init ctx)) in
  let! _ := c_assert (negb (ffx_do_transform ctx)) in
  let! _ := c_assert (match ffx_super_algo ctx with None => true | Some a => (ca_key_size algo =? ca_key_size a)%nat end) in
  let! _ := c_assert (match ffx_super_algo ctx with None => true | Some a => (ca_iv_size algo =? ca_iv_size a)%nat end) in
  let! _ := c_assert (match ffx_super_algo ctx with None => true | Some a => (ca_block_size a =? len)%nat end) in
  let! _ := c_assert (ca_iv_size algo =? 16)%nat in
  match ca_new algo true key with
  | None => let! _ := ffx_dispose ctx in Err PTLS_ERROR_LIBRARY
  | Some enc_ctx =>
      let! mask := rd last_byte_mask (bit_length mod 8) in
      let nb_left := (len / 2)%nat in
      Ok (mk_ffx (ffx_super_algo ctx) true true true (Some enc_ctx) nb_rounds is_enc len nb_left (len - nb_left) mask
            (replicate 16 0))
  end.

(** [memory] tells whether the context can be allocated; a failed setup frees it. *)
Definition ptls_ffx_new (memory : bool) (algo : ptls_cipher_algorithm_t) (is_enc : bool) (nb_rounds : Z) (bit_length : nat) (key : bytes)
    : res (option ptls_ffx_context_t) :=
  if negb memory then Ok None
  else match ptls_ffx_setup_crypto ffx_zero algo is_enc nb_rounds bit_length key with
       | Ok ctx => Ok (Some ctx)
       | Err _ => Ok None
       | Stuck f => Stuck f
       end.

Definition ffx_init (ctx : ptls_ffx_context_t) (iv : bytes) : res ptls_ffx_context_t :=
  let! _ := c_assert (ffx_do_init ctx) in
  if (length iv <? 16)%nat then Stuck OutOfBounds else Ok (ctx <| ffx_tweaks := take 16 iv |>).

(** ** The Feistel network *)

(** [for (i = 0; i < n; i++) dst[i] ^= src[i];] *)
Fixpoint xor_loop (n i : nat) (dst src : bytes) : res bytes :=
  match n with
  | O => Ok dst
  | S n =>
      let! d := rd dst i in
      let! s := rd src i in
      xor_loop n (S i) (<[i := u8 (Z.lxor d s)]> dst) src
  end.

(** [iv] and [confusion] are scratch memory of the caller. *)
Definition ptls_ffx_one_pass (enc_ctx : bytes -> bytes -> bytes) (source : bytes) (source_size : nat) (target : bytes)
    (target_size : nat) (mask_last_byte : Z) (tweaks : bytes) (round nb_rounds : Z) : res bytes :=
  let zeros := replicate 16 0 in
  let iv := take 16 tweaks in
  let at_ := Z.to_nat (Z.land round 15) in
  let! b := rd iv at_ in
  let iv := <[at_ := u8 (Z.lxor b nb_rounds)]> iv in
  let! iv := xor_loop source_size 0 iv source in
  let confusion := enc_ctx iv zeros in
  let! target := xor_loop (target_size - 1) 0 target confusion in
  let! t := rd target (target_size - 1) in
  let! c := rd confusion (target_size - 1) in
  Ok (<[(target_size - 1)%nat := u8 (Z.lxor t (Z.land c mask_last_byte))]> target).

Section Loops.
Variables (enc_ctx : bytes -> bytes -> bytes) (ctx : ptls_ffx_context_t).

(** One pass over each half; [left_pass] changes the left half. *)
Definition left_pass (round : Z) (left right : bytes) : res bytes :=
  ptls_ffx_one_pass enc_ctx right (ffx_nb_right ctx) left (ffx_nb_left ctx) 0xFF (ffx_tweaks ctx) (u8 round) (u8 (ffx_nb_rounds ctx)).
Definition right_pass (round : Z) (left right : bytes) : res bytes :=
  ptls_ffx_one_pass enc_ctx left (ffx_nb_left ctx) right (ffx_nb_right ctx) (ffx_mask_last_byte ctx) (ffx_tweaks ctx) (u8 round)
    (u8 (ffx_nb_rounds ctx)).

(** The two loops; the fuel bounds the iterations [i = 0, 2, ...]. *)
Fixpoint ffx_encrypt_loop (fuel : nat) (i : Z) (left right : bytes) : res (bytes * bytes) :=
  if i <? ffx_nb_rounds ctx then
    match fuel with
    | O => Stuck OutOfFuel
    | S fuel =>
        let! left := left_pass i left right in
        let! right := right_pass (i + 1) left right in
        ffx_encrypt_loop fuel (i + 2) left right
    end
  else Ok (left, right).

Fixpoint ffx_decrypt_loop (fuel : nat) (i : Z) (left right : bytes) : res (bytes * bytes) :=
  if i <? ffx_nb_rounds ctx then
    match fuel with
    | O => Stuck OutOfFuel
    | S fuel =>
        let! right := right_pass (ffx_nb_rounds ctx - 1 - i) left right in
        let! left := left_pass (ffx_nb_rounds ctx - 2 - i) left right in
        ffx_decrypt_loop fuel (i + 2) left right
    end
  else Ok (left, right).
End Loops.

(** [uint8_t half[16]] with the octets [l] and zeroes behind them. *)
Definition half16 (l : bytes) : res bytes :=
  if (length l <=? 16)%nat then Ok (l ++ replicate (16 - length l) 0) else Stuck OutOfBounds.

Definition ffx_encrypt (ctx : ptls_ffx_context_t) (input : bytes) : res bytes :=
  let! _ := c_assert (ffx_do_transform ctx) in
  let! _ := c_assert (length input =? ffx_byte_length ctx)%nat in
  match ffx_enc_ctx ctx with
  | None => Stuck NullDeref
  | Some enc_ctx =>
      let! left := half16 (take (ffx_nb_left ctx) input) in
      let! right := half16 (take (ffx_nb_right ctx) (drop (ffx_nb_left ctx) input)) in
      let last := (ffx_nb_right ctx - 1)%nat in
      let! last_byte := rd right last in
      let mask := ffx_mask_last_byte ctx in
      let right := <[last := Z.land last_byte mask]> right in
      let fuel := Z.to_nat (ffx_nb_rounds ctx) in
      let! '(left, right) :=
        if ffx_is_enc ctx then ffx_encrypt_loop enc_ctx ctx fuel 0 left right
        else ffx_decrypt_loop enc_ctx ctx fuel 0 left right in
      let! r := rd right last in
      let right := <[last := u8 (Z.lor (Z.land r mask) (Z.land last_byte (Z.lnot mask)))]> right in
      Ok (take (ffx_nb_left ctx) left ++ take (ffx_nb_right ctx) right)
  end.

(** ** The passes as key streams

    A pass adds (xor) to the target a stream that depends on the source only. *)

Definition add_stream (stream : nat -> Z) (target : bytes) : bytes := imap (fun j t => Z.lxor t (stream j)) target.

Lemma add_stream_twice s target : add_stream s (add_stream s target) = target.
Proof.
  apply list_eq. intros i. unfold add_stream. rewrite !list_lookup_imap. destruct (target !! i) as [t|]; [|done].
  cbn. by rewrite Z.lxor_assoc, Z.lxor_nilpotent, Z.lxor_0_r.
Qed.

Lemma length_add_stream s target : length (add_stream s target) = length target.
Proof. apply length_imap. Qed.

Lemma add_stream_bytes s target : (forall j, is_byte (s j)) -> is_bytes target -> is_bytes (add_stream s target).
Proof.
  intros Hs Ht. apply Forall_lookup. intros i x. unfold add_stream. rewrite list_lookup_imap.
  destruct (target !! i) as [t|] eqn:E; cbn; [|done]. intros [= <-]. apply lxor_byte; [by eapply Forall_lookup_1 | done].
Qed.

#[export] Hint Rewrite length_add_stream : ptls_len.

(** [src[j]] for [i <= j < i + n]. *)
Definition window (i n : nat) (src : bytes) (j : nat) : Z :=
  if ((i <=? j)%nat && (j <? i + n)%nat) then default 0 (src !! j) else 0.

Lemma window_byte i n src j : is_bytes src -> is_byte (window i n src j).
Proof.
  intros Hs. unfold window. destruct (_ && _); [|done]. destruct (src !! j) eqn:E; [by eapply Forall_lookup_1 | done].
Qed.

Lemma xor_loop_spec n i dst src :
  (i + n <= length dst)%nat -> (i + n <= length src)%nat -> is_bytes dst -> is_bytes src ->
  xor_loop n i dst src = Ok (add_stream (window i n src) dst).
Proof.
  revert i dst. induction n as [|n IH]; intros i dst Hd Hs Hbd Hbs; cbn [xor_loop].
  - f_equal. apply list_eq. intros j. unfold add_stream. rewrite list_lookup_imap.
    destruct (dst !! j); [|done]. cbn. unfold window. destruct (Nat.leb_spec i j), (Nat.ltb_spec j (i + 0)); cbn; try lia.
    all: by rewrite Z.lxor_0_r.
  - destruct (lookup_lt_is_Some_2 dst i) as [d Hdi]; [lia|]. destruct (lookup_lt_is_Some_2 src i) as [s Hsi]; [lia|].
    rewrite (rd_at _ _ _ Hdi), (rd_at _ _ _ Hsi). cbn [res_bind].
    pose proof (is_bytes_lookup _ _ _ Hbd Hdi) as Hd1. pose proof (is_bytes_lookup _ _ _ Hbs Hsi) as Hs1.
    rewrite u8_id by (by apply lxor_byte). rewrite IH; [| rewrite length_insert; lia | lia | | done].
    2: { apply Forall_insert; [done | by apply lxor_byte]. }
    f_equal. apply list_eq. intros j. unfold add_stream. rewrite !list_lookup_imap.
    destruct (decide (i = j)) as [<-|Hij].
    + rewrite list_lookup_insert_eq by lia. rewrite Hdi. cbn. unfold window. rewrite Hsi.
      rewrite (proj2 (Nat.leb_gt (S i) i)), (proj2 (Nat.leb_le i i)), (proj2 (Nat.ltb_lt i (i + S n))) by lia. cbn.
      by rewrite Z.lxor_0_r.
    + rewrite list_lookup_insert_ne by done. destruct (dst !! j); [|done]. cbn. do 2 f_equal. unfold window.
      destruct (Nat.leb_spec (S i) j), (Nat.leb_spec i j), (Nat.ltb_spec j (S i + n)), (Nat.ltb_spec j (i + S n)); cbn; lia || done.
Qed.

Section Pass.
Context (enc_ctx : bytes -> bytes -> bytes) `{!CipherLaws enc_ctx}.
Variables (tweaks : bytes) (nb_rounds : Z).
Hypotheses (Htweaks : length tweaks = 16%nat) (Hbytes : is_bytes tweaks) (Hrounds : is_byte nb_rounds).

Definition pass_iv (source : bytes) (source_size : nat) (round : Z) : bytes :=
  let at_ := Z.to_nat (Z.land round 15) in
  add_stream (window 0 source_size source) (<[at_ := Z.lxor (default 0 (tweaks !! at_)) nb_rounds]> tweaks).

Definition pass_stream (source : bytes) (source_size target_size : nat) (mask round : Z) (j : nat) : Z :=
  let confusion := enc_ctx (pass_iv source source_size round) (replicate 16 0) in
  if (j =? target_size - 1)%nat then Z.land (default 0 (confusion !! j)) mask else window 0 (target_size - 1) confusion j.

Lemma pass_stream_byte source ss ts mask round j : is_byte mask -> is_byte (pass_stream source ss ts mask round j).
Proof.
  intros Hm. unfold pass_stream. destruct (_ =? _)%nat; [apply land_byte; [|done] | apply window_byte, cipher_bytes].
  destruct (_ !! j) eqn:E; [eapply Forall_lookup_1; [apply cipher_bytes | exact E] | done].
Qed.

Lemma one_pass_spec source ss target ts mask round :
  (ss <= 16)%nat -> (1 <= ts <= 16)%nat -> length source = 16%nat -> length target = 16%nat -> is_byte mask ->
  is_bytes source -> is_bytes target ->
  ptls_ffx_one_pass enc_ctx source ss target ts mask tweaks round nb_rounds =
    Ok (add_stream (pass_stream source ss ts mask round) target).
Proof.
  intros Hss Hts Hls Hlt Hm Hbs Hbt. unfold ptls_ffx_one_pass. rewrite take_ge by lia.
  assert (Hr : (Z.to_nat (Z.land round 15) < 16)%nat).
  { change 15 with (Z.ones 4). rewrite Z.land_ones by lia. pose proof (Z.mod_pos_bound round (2 ^ 4)). lia. }
  destruct (lookup_lt_is_Some_2 tweaks (Z.to_nat (Z.land round 15))) as [b Hb]; [lia|].
  pose proof (is_bytes_lookup _ _ _ Hbytes Hb) as Hbb. rewrite (rd_at _ _ _ Hb). cbn [res_bind].
  rewrite u8_id by (by apply lxor_byte).
  rewrite xor_loop_spec; [| rewrite length_insert; lia | lia | apply Forall_insert; [done | by apply lxor_byte] | done].
  cbn [res_bind]. set (iv := add_stream _ _).
  assert (Hiv : iv = pass_iv source ss round) by (unfold iv, pass_iv; by rewrite Hb).
  set (conf := enc_ctx iv _).
  assert (Hlc : length conf = 16%nat) by (unfold conf; by rewrite cipher_length, length_replicate).
  assert (Hbc : is_bytes conf) by apply cipher_bytes.
  rewrite xor_loop_spec by (done || lia). cbn [res_bind].
  destruct (lookup_lt_is_Some_2 target (ts - 1)) as [t Ht]; [lia|].
  destruct (lookup_lt_is_Some_2 conf (ts - 1)) as [c Hc]; [lia|].
  pose proof (is_bytes_lookup _ _ _ Hbt Ht). pose proof (is_bytes_lookup _ _ _ Hbc Hc).
  assert (Hw : window 0 (ts - 1) conf (ts - 1) = 0).
  { unfold window. rewrite (proj2 (Nat.ltb_ge (ts - 1) (0 + (ts - 1)))) by lia. by rewrite andb_false_r. }
  rewrite (rd_at _ (ts - 1) t). 2: { unfold add_stream. rewrite list_lookup_imap, Ht. cbn. by rewrite Hw, Z.lxor_0_r. }
  rewrite (rd_at _ _ _ Hc). cbn [res_bind]. rewrite u8_id by (by apply lxor_byte, land_byte).
  f_equal. apply list_eq. intros j. unfold pass_stream. rewrite <- Hiv. fold conf.
  destruct (decide (j = ts - 1)%nat) as [->|Hj].
  - rewrite list_lookup_insert_eq by (rewrite length_add_stream; lia). unfold add_stream.
    rewrite list_lookup_imap, Ht. cbn. by rewrite Nat.eqb_refl, Hc.
  - rewrite list_lookup_insert_ne by done. unfold add_stream. rewrite !list_lookup_imap.
    destruct (target !! j); [|done]. cbn. by rewrite (proj2 (Nat.eqb_neq j (ts - 1))).
Qed.
End Pass.

(** ** The network *)

Section Network.
Context (enc_ctx : bytes -> bytes -> bytes) `{!CipherLaws enc_ctx}.
Variable ctx : ptls_ffx_context_t.

(** What [ptls_ffx_setup_crypto] and [ffx_init] establish. *)
Record ffx_ok : Prop := {
  ok_transform : ffx_do_transform ctx = true;
  ok_enc_ctx : ffx_enc_ctx ctx = Some enc_ctx;
  ok_left : (1 <= ffx_nb_left ctx <= 16)%nat;
  ok_right : (1 <= ffx_nb_right ctx <= 16)%nat;
  ok_length : ffx_byte_length ctx = (ffx_nb_left ctx + ffx_nb_right ctx)%nat;
  ok_mask : is_byte (ffx_mask_last_byte ctx);
  ok_tweaks : length (ffx_tweaks ctx) = 16%nat;
  ok_tweak_bytes : is_bytes (ffx_tweaks ctx)
}.

Record half_ok (h : bytes) : Prop := { half_length : length h = 16%nat; half_bytes : is_bytes h }.

Definition left_stream (round : Z) (right : bytes) : nat -> Z :=
  pass_stream enc_ctx (ffx_tweaks ctx) (u8 (ffx_nb_rounds ctx)) right (ffx_nb_right ctx) (ffx_nb_left ctx) 0xFF (u8 round).
Definition right_stream (round : Z) (left : bytes) : nat -> Z :=
  pass_stream enc_ctx (ffx_tweaks ctx) (u8 (ffx_nb_rounds ctx)) left (ffx_nb_left ctx) (ffx_nb_right ctx) (ffx_mask_last_byte ctx)
    (u8 round).

(** Rounds [i] and [i + 1] of the encryption, and their inverse. *)
Definition forth (h : bytes * bytes) (i : Z) : bytes * bytes :=
  let left := add_stream (left_stream i h.2) h.1 in (left, add_stream (right_stream (i + 1) left) h.2).
Definition back (h : bytes * bytes) (i : Z) : bytes * bytes :=
  let right := add_stream (right_stream (i + 1) h.1) h.2 in (add_stream (left_stream i right) h.1, right).

Lemma back_forth h i : back (forth h i) i = h.
Proof. destruct h. unfold back, forth. cbn [fst snd]. by rewrite !add_stream_twice. Qed.

Lemma back_forth_all l h : foldl back (foldl forth h l) (reverse l) = h.
Proof.
  induction l as [|i l IH] using rev_ind; [done|].
  rewrite foldl_app, reverse_app. cbn [foldl reverse]. change (reverse [i]) with [i]. cbn [app foldl]. by rewrite back_forth, IH.
Qed.

Definition halves_ok (h : bytes * bytes) : Prop := half_ok h.1 /\ half_ok h.2.

Hypothesis Hok : ffx_ok.

Lemma mask_ff_byte : is_byte 0xFF.
Proof. done. Qed.
Local Hint Resolve mask_ff_byte u8_range : core.

Lemma add_stream_half s h : (forall j, is_byte (s j)) -> half_ok h -> half_ok (add_stream s h).
Proof. intros Hs []. split; [by rewrite length_add_stream | by apply add_stream_bytes]. Qed.

Lemma left_stream_byte i right j : is_byte (left_stream i right j).
Proof. destruct Hok. by apply pass_stream_byte. Qed.
Lemma right_stream_byte i left j : is_byte (right_stream i left j).
Proof. destruct Hok. by apply pass_stream_byte. Qed.

Lemma forth_ok h i : halves_ok h -> halves_ok (forth h i).
Proof. intros []. split; apply add_stream_half; auto using left_stream_byte, right_stream_byte. Qed.
Lemma back_ok h i : halves_ok h -> halves_ok (back h i).
Proof. intros []. split; apply add_stream_half; auto using left_stream_byte, right_stream_byte. Qed.

Lemma left_pass_spec i left right :
  half_ok left -> half_ok right -> left_pass enc_ctx ctx i left right = Ok (add_stream (left_stream i right) left).
Proof. intros [] []. destruct Hok. apply one_pass_spec; auto with lia. Qed.

Lemma right_pass_spec i left right :
  half_ok left -> half_ok right -> right_pass enc_ctx ctx i left right = Ok (add_stream (right_stream i left) right).
Proof. intros [] []. destruct Hok. apply one_pass_spec; auto with lia. Qed.

(** The loops apply the rounds in the order of these lists. *)
Definition up (i : Z) (n : nat) : list Z := (fun j => i + 2 * Z.of_nat j) <$> seq 0 n.
Definition down (i : Z) (n : nat) : list Z := (fun j => ffx_nb_rounds ctx - 2 - i - 2 * Z.of_nat j) <$> seq 0 n.

Lemma up_S i n : up i (S n) = i :: up (i + 2) n.
Proof. unfold up. cbn [seq]. rewrite fmap_cons, <- fmap_S_seq, <- list_fmap_compose. f_equal; [lia|]. apply list_fmap_ext. cbn. lia. Qed.
Lemma down_S i n : down i (S n) = (ffx_nb_rounds ctx - 2 - i) :: down (i + 2) n.
Proof. unfold down. cbn [seq]. rewrite fmap_cons, <- fmap_S_seq, <- list_fmap_compose. f_equal; [lia|]. apply list_fmap_ext. cbn. lia. Qed.

Lemma down_up n : ffx_nb_rounds ctx = 2 * Z.of_nat n -> down 0 n = reverse (up 0 n).
Proof.
  intros Hn. unfold down, up. rewrite <- fmap_reverse.
  apply list_eq. intros j. rewrite !list_lookup_fmap. destruct (decide (j < n)%nat) as [Hj|Hj].
  - rewrite reverse_lookup by (by rewrite length_seq). rewrite length_seq, !lookup_seq_lt by lia. cbn. f_equal. lia.
  - rewrite !lookup_ge_None_2 by (rewrite ?length_reverse, length_seq; lia). done.
Qed.

Lemma encrypt_loop_spec n fuel i h :
  (n <= fuel)%nat -> ffx_nb_rounds ctx = i + 2 * Z.of_nat n -> halves_ok h ->
  ffx_encrypt_loop enc_ctx ctx fuel i h.1 h.2 = Ok (foldl forth h (up i n)) /\ halves_ok (foldl forth h (up i n)).
Proof.
  revert fuel i h. induction n as [|n IH]; intros fuel i h Hf Hn Hh; destruct fuel as [|fuel]; try lia; cbn [ffx_encrypt_loop].
  1, 2: rewrite (proj2 (Z.ltb_ge _ _)) by lia; split; [by destruct h | done].
  rewrite (proj2 (Z.ltb_lt _ _)) by lia. pose proof Hh as [Hl Hr]. rewrite left_pass_spec by done. cbn [res_bind].
  rewrite right_pass_spec by (done || (apply add_stream_half; auto using left_stream_byte)). cbn [res_bind].
  rewrite up_S. cbn [foldl]. apply (IH fuel (i + 2) (forth h i)); [lia | lia | by apply forth_ok].
Qed.

Lemma decrypt_loop_spec n fuel i h :
  (n <= fuel)%nat -> ffx_nb_rounds ctx = i + 2 * Z.of_nat n -> halves_ok h ->
  ffx_decrypt_loop enc_ctx ctx fuel i h.1 h.2 = Ok (foldl back h (down i n)) /\ halves_ok (foldl back h (down i n)).
Proof.
  revert fuel i h. induction n as [|n IH]; intros fuel i h Hf Hn Hh; destruct fuel as [|fuel]; try lia; cbn [ffx_decrypt_loop].
  1, 2: rewrite (proj2 (Z.ltb_ge _ _)) by lia; split; [by destruct h | done].
  rewrite (proj2 (Z.ltb_lt _ _)) by lia. pose proof Hh as [Hl Hr]. rewrite right_pass_spec by done. cbn [res_bind].
  rewrite left_pass_spec by (done || (apply add_stream_half; auto using right_stream_byte)). cbn [res_bind].
  rewrite down_S. cbn [foldl].
  replace (ffx_nb_rounds ctx - 1 - i) with (ffx_nb_rounds ctx - 2 - i + 1) by lia.
  apply (IH fuel (i + 2) (back h (ffx_nb_rounds ctx - 2 - i))); [lia | lia | by apply back_ok].
Qed.
End Network.

(** ** Blocks

    The block as the two halves the network works on (the bits outside of the mask
    cleared), and back (these bits taken from [last_byte]). *)

Section Blocks.
Variables (nl nr : nat) (mask : Z).
Hypothesis Hmask : is_byte mask.

Definition pad16 (l : bytes) : bytes := l ++ replicate (16 - length l) 0.
Definition last_octet (block : bytes) : Z := default 0 (block !! (nl + (nr - 1))%nat).
Definition split_block (block : bytes) : bytes * bytes :=
  (pad16 (take nl block), <[(nr - 1)%nat := Z.land (last_octet block) mask]> (pad16 (take nr (drop nl block)))).
Definition merge_octet (r last_byte : Z) : Z := Z.lor (Z.land r mask) (Z.land last_byte (Z.lnot mask)).
Definition join_block (h : bytes * bytes) (last_byte : Z) : bytes :=
  take nl h.1 ++ take nr (<[(nr - 1)%nat := merge_octet (default 0 (h.2 !! (nr - 1)%nat)) last_byte]> h.2).

(** The shape the network preserves: zeroes behind the halves, and no bit outside
    of the mask. *)
Record shaped (h : bytes * bytes) : Prop := {
  shaped_halves : halves_ok h;
  shaped_left : drop nl h.1 = replicate (16 - nl) 0;
  shaped_right : drop nr h.2 = replicate (16 - nr) 0;
  shaped_mask : Z.land (default 0 (h.2 !! (nr - 1)%nat)) mask = default 0 (h.2 !! (nr - 1)%nat)
}.

Lemma merge_octet_mask r b : Z.land (merge_octet r b) mask = Z.land r mask.
Proof.
  unfold merge_octet. apply Z.bits_inj'. intros i Hi. rewrite !Z.land_spec, Z.lor_spec, !Z.land_spec, Z.lnot_spec by done.
  by destruct (Z.testbit r i), (Z.testbit mask i), (Z.testbit b i).
Qed.

Lemma merge_octet_rest r b : Z.land (merge_octet r b) (Z.lnot mask) = Z.land b (Z.lnot mask).
Proof.
  unfold merge_octet. apply Z.bits_inj'. intros i Hi. rewrite !Z.land_spec, Z.lor_spec, !Z.land_spec, Z.lnot_spec by done.
  by destruct (Z.testbit r i), (Z.testbit mask i), (Z.testbit b i).
Qed.

Lemma merge_octet_self b : merge_octet (Z.land b mask) b = b.
Proof.
  unfold merge_octet. apply Z.bits_inj'. intros i Hi. rewrite Z.lor_spec, !Z.land_spec, Z.lnot_spec by done.
  by destruct (Z.testbit mask i), (Z.testbit b i).
Qed.

Lemma merge_octet_byte r b : is_byte r -> is_byte b -> is_byte (merge_octet r b).
Proof.
  intros Hr Hb. unfold merge_octet. apply lor_byte; [by apply land_byte|]. unfold is_byte in *.
  split; [apply Z.land_nonneg; lia|].
  rewrite <- (Z.mod_small b (2 ^ 8)), <- Z.land_ones, <- Z.land_assoc, (Z.land_comm (Z.ones 8)), Z.land_assoc, Z.land_ones by lia.
  apply Z.mod_pos_bound. lia.
Qed.

Hypotheses (Hnl : (1 <= nl <= 16)%nat) (Hnr : (1 <= nr <= 16)%nat).

Lemma pad16_half l : (length l <= 16)%nat -> is_bytes l -> half_ok (pad16 l).
Proof.
  intros Hl Hb. unfold pad16. split; [rewrite length_app, length_replicate; lia|].
  apply Forall_app_2; [done|]. by apply Forall_replicate.
Qed.

Lemma lookup_split_right block :
  length block = (nl + nr)%nat -> drop nl block !! (nr - 1)%nat = Some (last_octet block).
Proof.
  intros Hl. rewrite lookup_drop. unfold last_octet.
  destruct (lookup_lt_is_Some_2 block (nl + (nr - 1))) as [b ->]; [lia | done].
Qed.

Lemma last_octet_byte block : is_bytes block -> is_byte (last_octet block).
Proof. intros Hb. unfold last_octet. destruct (_ !! _) eqn:E; [by eapply Forall_lookup_1 | done]. Qed.

Lemma split_block_shaped block : length block = (nl + nr)%nat -> is_bytes block -> shaped (split_block block).
Proof.
  intros Hl Hb. unfold split_block.
  assert (Ht : length (take nr (drop nl block)) = nr) by (rewrite length_take, length_drop; lia).
  split; cbn [fst snd].
  - split; cbn [fst snd]; [apply pad16_half; [rewrite length_take; lia | by apply Forall_take]|].
    destruct (pad16_half (take nr (drop nl block))) as [H1 H2]; [lia | by apply Forall_take, Forall_drop|].
    split; [by rewrite length_insert | apply Forall_insert; [done|]]. apply land_byte; [by apply last_octet_byte | done].
  - unfold pad16. rewrite drop_app_length' by (rewrite length_take; lia). f_equal. rewrite length_take. lia.
  - rewrite drop_insert_lt by lia. unfold pad16. rewrite drop_app_length' by lia. by rewrite Ht.
  - rewrite list_lookup_insert_eq by (unfold pad16; rewrite length_app, Ht, length_replicate; lia). change (default 0 (Some ?x)) with x.
    by rewrite <- Z.land_assoc, Z.land_diag.
Qed.

Lemma join_split block b :
  length block = (nl + nr)%nat -> Z.land b (Z.lnot mask) = Z.land (last_octet block) (Z.lnot mask) ->
  join_block (split_block block) b = block.
Proof.
  intros Hl Hb. unfold join_block, split_block. cbn [fst snd].
  assert (Ht : length (take nr (drop nl block)) = nr) by (rewrite length_take, length_drop; lia).
  rewrite list_lookup_insert_eq by (unfold pad16; rewrite length_app, Ht, length_replicate; lia). change (default 0 (Some ?x)) with x.
  rewrite list_insert_insert_eq. unfold pad16 at 1. rewrite take_app_length' by (rewrite length_take; lia).
  assert (Hm : merge_octet (Z.land (last_octet block) mask) b = last_octet block).
  { unfold merge_octet. rewrite Hb. apply (merge_octet_self (last_octet block)). }
  rewrite Hm. unfold pad16. rewrite insert_app_l by lia. rewrite take_app_length' by (by rewrite length_insert).
  rewrite list_insert_id; [|rewrite lookup_take_lt by lia; by apply lookup_split_right].
  rewrite (take_ge (drop nl block)) by (rewrite length_drop; lia). apply take_drop.
Qed.

Lemma length_join_block h b : halves_ok h -> length (join_block h b) = (nl + nr)%nat.
Proof.
  intros [[H1 _] [H2 _]]. unfold join_block. rewrite length_app, !length_take, length_insert, H1, H2. lia.
Qed.

Lemma last_octet_join h b :
  halves_ok h -> last_octet (join_block h b) = merge_octet (default 0 (h.2 !! (nr - 1)%nat)) b.
Proof.
  intros [[H1 _] [H2 _]]. unfold last_octet, join_block. rewrite lookup_app_r by (rewrite length_take; lia).
  rewrite length_take, H1. replace (nl + (nr - 1) - nl `min` 16)%nat with (nr - 1)%nat by lia.
  rewrite lookup_take_lt by lia. rewrite list_lookup_insert_eq by lia. done.
Qed.

Lemma join_block_bytes h b : halves_ok h -> is_byte b -> is_bytes (join_block h b).
Proof.
  intros [[H1 B1] [H2 B2]] Hb. apply Forall_app_2; apply Forall_take; [done|]. apply Forall_insert; [done|].
  apply merge_octet_byte; [|done]. destruct (_ !! _) eqn:E; [by eapply Forall_lookup_1 | done].
Qed.

Lemma split_join h b : shaped h -> split_block (join_block h b) = h.
Proof.
  intros [Hh Hl Hr Hm]. pose proof Hh as [[H1 _] [H2 _]]. destruct h as [l r]. cbn [fst snd] in *.
  unfold split_block. rewrite last_octet_join by done. cbn [fst snd]. rewrite merge_octet_mask, Hm.
  unfold join_block. cbn [fst snd]. f_equal.
  - rewrite take_app_length' by (rewrite length_take; lia). unfold pad16. rewrite length_take, H1.
    replace (nl `min` 16)%nat with nl by lia. rewrite <- Hl. apply take_drop.
  - rewrite drop_app_length' by (rewrite length_take; lia). rewrite take_take, Nat.min_id.
    unfold pad16. rewrite length_take, length_insert, H2. replace (nr `min` 16)%nat with nr by lia.
    assert (Hd : drop nr (<[(nr - 1)%nat := merge_octet (default 0 (r !! (nr - 1)%nat)) b]> r) = replicate (16 - nr) 0).
    { rewrite drop_insert_lt by lia. done. }
    rewrite <- Hd, take_drop, list_insert_insert_eq. apply list_insert_id.
    destruct (lookup_lt_is_Some_2 r (nr - 1)) as [x ->]; [lia | done].
Qed.

Lemma last_octet_last block : length block = (nl + nr)%nat -> List.last block 0 = last_octet block.
Proof.
  intros Hl. unfold last_octet. replace (nl + (nr - 1))%nat with (Nat.pred (length block)) by lia.
  rewrite <- last_lookup. destruct block as [|x b] using rev_ind; [done|]. by rewrite last_last, last_snoc.
Qed.
End Blocks.

(** ** The network on blocks *)

Section Encrypt.
Context (enc_ctx : bytes -> bytes -> bytes) `{!CipherLaws enc_ctx}.
Variable ctx : ptls_ffx_context_t.
Hypothesis Hok : ffx_ok enc_ctx ctx.

Notation nl := (ffx_nb_left ctx).
Notation nr := (ffx_nb_right ctx).
Notation mask := (ffx_mask_last_byte ctx).

Lemma pass_stream_outside tweaks n source ss ts m round j :
  (1 <= ts <= j)%nat -> pass_stream enc_ctx tweaks n source ss ts m round j = 0.
Proof.
  intros Hj. unfold pass_stream, window. rewrite (proj2 (Nat.eqb_neq j (ts - 1))) by lia.
  rewrite (proj2 (Nat.ltb_ge j (0 + (ts - 1)))) by lia. by rewrite andb_false_r.
Qed.

Lemma drop_add_stream n s h : (forall j, (n <= j)%nat -> s j = 0) -> drop n (add_stream s h) = drop n h.
Proof.
  intros Hs. apply list_eq. intros i. rewrite !lookup_drop. unfold add_stream. rewrite list_lookup_imap.
  destruct (h !! _); [|done]. cbn. by rewrite Hs, Z.lxor_0_r by lia.
Qed.

Lemma left_stream_outside i h j : (nl <= j)%nat -> left_stream enc_ctx ctx i h j = 0.
Proof. intros Hj. destruct Hok. apply pass_stream_outside. lia. Qed.
Lemma right_stream_outside i h j : (nr <= j)%nat -> right_stream enc_ctx ctx i h j = 0.
Proof. intros Hj. destruct Hok. apply pass_stream_outside. lia. Qed.

Lemma right_stream_mask i left h :
  length h = 16%nat -> Z.land (default 0 (h !! (nr - 1)%nat)) mask = default 0 (h !! (nr - 1)%nat) ->
  Z.land (default 0 (add_stream (right_stream enc_ctx ctx i left) h !! (nr - 1)%nat)) mask =
    default 0 (add_stream (right_stream enc_ctx ctx i left) h !! (nr - 1)%nat).
Proof.
  intros Hl Hm. destruct Hok. destruct (lookup_lt_is_Some_2 h (nr - 1)) as [b Hb]; [lia|].
  unfold add_stream. rewrite list_lookup_imap. rewrite Hb in *. change (default 0 (Some b)) with b in Hm.
  cbn -[Z.land Z.lxor]. unfold right_stream, pass_stream. rewrite Nat.eqb_refl.
  set (c := default 0 _). apply Z.bits_inj'. intros k Hk. rewrite !Z.land_spec, !Z.lxor_spec, Z.land_spec.
  rewrite <- Hm, Z.land_spec. by destruct (Z.testbit b k), (Z.testbit c k), (Z.testbit mask k).
Qed.

Lemma forth_shaped h i : shaped nl nr mask h -> shaped nl nr mask (forth enc_ctx ctx h i).
Proof.
  intros [Hh Hl Hr Hm]. pose proof Hh as [_ [H2 _]]. split; cbn [forth fst snd].
  - by apply forth_ok.
  - rewrite drop_add_stream; [done | apply left_stream_outside].
  - rewrite drop_add_stream; [done | apply right_stream_outside].
  - by apply right_stream_mask.
Qed.

Lemma back_shaped h i : shaped nl nr mask h -> shaped nl nr mask (back enc_ctx ctx h i).
Proof.
  intros [Hh Hl Hr Hm]. pose proof Hh as [_ [H2 _]]. split; cbn [back fst snd].
  - by apply back_ok.
  - rewrite drop_add_stream; [done | apply left_stream_outside].
  - rewrite drop_add_stream; [done | apply right_stream_outside].
  - by apply right_stream_mask.
Qed.

Lemma foldl_shaped (step : bytes * bytes -> Z -> bytes * bytes) l h :
  (forall h i, shaped nl nr mask h -> shaped nl nr mask (step h i)) -> shaped nl nr mask h -> shaped nl nr mask (foldl step h l).
Proof. intros Hs. revert h. induction l; cbn; auto. Qed.

(** The network as a function on shaped halves. *)
Definition network (n : nat) (h : bytes * bytes) : bytes * bytes :=
  if ffx_is_enc ctx then foldl (forth enc_ctx ctx) h (up 0 n) else foldl (back enc_ctx ctx) h (down ctx 0 n).

Lemma network_shaped n h : shaped nl nr mask h -> shaped nl nr mask (network n h).
Proof. intros Hh. unfold network. destruct (ffx_is_enc ctx); apply foldl_shaped; auto using forth_shaped, back_shaped. Qed.

Lemma ffx_encrypt_spec n block :
  ffx_nb_rounds ctx = 2 * Z.of_nat n -> length block = ffx_byte_length ctx -> is_bytes block ->
  ffx_encrypt ctx block = Ok (join_block nl nr mask (network n (split_block nl nr mask block)) (last_octet nl nr block)).
Proof.
  intros Hn Hlen Hb. unfold ffx_encrypt. pose proof Hok as []. rewrite ok_transform0, ok_enc_ctx0. cbn [c_assert res_bind].
  rewrite (proj2 (Nat.eqb_eq _ _) Hlen). cbn [c_assert res_bind]. rewrite ok_length0 in Hlen.
  unfold half16. rewrite !length_take, length_drop, !(proj2 (Nat.leb_le _ _)) by lia. cbn [res_bind].
  assert (Hr : (take nr (drop nl block) ++ replicate (16 - nr `min` (length block - nl)) 0) !! (nr - 1)%nat =
    Some (last_octet nl nr block)).
  { rewrite lookup_app_l by (rewrite length_take, length_drop; lia). rewrite lookup_take_lt by lia.
    apply lookup_split_right; done || lia. }
  rewrite (rd_at _ _ _ Hr). cbn [res_bind]. set (h0 := split_block nl nr mask block).
  assert (Hs : shaped nl nr mask h0) by (apply split_block_shaped; done || lia).
  assert (E1 : take nl block ++ replicate (16 - nl `min` length block) 0 = h0.1) by (cbn; unfold pad16; by rewrite length_take).
  assert (E2 : <[(nr - 1)%nat := Z.land (last_octet nl nr block) mask]>
    (take nr (drop nl block) ++ replicate (16 - nr `min` (length block - nl)) 0) = h0.2)
    by (cbn; unfold pad16; by rewrite length_take, length_drop).
  rewrite E1, E2.
  assert (Hloop : (if ffx_is_enc ctx then ffx_encrypt_loop enc_ctx ctx (Z.to_nat (ffx_nb_rounds ctx)) 0 h0.1 h0.2
                   else ffx_decrypt_loop enc_ctx ctx (Z.to_nat (ffx_nb_rounds ctx)) 0 h0.1 h0.2) = Ok (network n h0)).
  { unfold network. destruct Hs. destruct (ffx_is_enc ctx); [apply encrypt_loop_spec | apply decrypt_loop_spec]; done || lia. }
  rewrite Hloop. cbn [res_bind]. pose proof (network_shaped n h0 Hs) as [[[L1 B1] [L2 B2]] _ _ _].
  destruct (network n h0) as [l r]. cbn [fst snd] in *.
  destruct (lookup_lt_is_Some_2 r (nr - 1)) as [x Hx]; [lia|]. rewrite (rd_at _ _ _ Hx). cbn [res_bind].
  unfold join_block. cbn [fst snd]. rewrite Hx. fold (merge_octet mask x (last_octet nl nr block)).
  rewrite u8_id; [done|]. apply merge_octet_byte; [done | by eapply Forall_lookup_1 | by apply last_octet_byte].
Qed.
End Encrypt.

(** ** Properties *)

(** The context that a successful [ptls_ffx_new] and [ffx_init] leave. *)
Definition ffx_ready (enc_ctx : bytes -> bytes -> bytes) (is_enc : bool) (nb_rounds : Z) (bit_length : nat) (iv : bytes)
    : ptls_ffx_context_t :=
  let len := ((bit_length + 7) / 8)%nat in
  mk_ffx None true true true (Some enc_ctx) nb_rounds is_enc len (len / 2) (len - len / 2)
    (default 0 (last_byte_mask !! (bit_length mod 8)%nat)) iv.

Lemma block_length_range bit_length : (9 <= bit_length <= 256)%nat -> (2 <= (bit_length + 7) / 8 <= 32)%nat.
Proof.
  intros H. split; [apply Nat.div_le_lower_bound; lia|]. apply (Nat.lt_succ_r _ 32), Nat.Div0.div_lt_upper_bound. lia.
Qed.

Lemma ffx_new_spec algo enc_ctx is_enc nb_rounds bit_length key :
  ca_iv_size algo = 16%nat -> ca_new algo true key = Some enc_ctx -> (9 <= bit_length <= 256)%nat ->
  ptls_ffx_new true algo is_enc nb_rounds bit_length key = Ok (Some (ffx_ready enc_ctx is_enc nb_rounds bit_length (replicate 16 0))).
Proof.
  intros Hiv Hnew Hbits. unfold ptls_ffx_new, ptls_ffx_setup_crypto. cbn [negb ffx_zero ffx_do_dispose ffx_do_init ffx_do_transform ffx_super_algo].
  pose proof (block_length_range _ Hbits) as Hlen.
  rewrite !(proj2 (Nat.leb_le _ _)), Hiv by lia. cbn [andb negb c_assert res_bind]. rewrite Nat.eqb_refl. cbn [c_assert res_bind].
  rewrite Hnew. destruct (lookup_lt_is_Some_2 last_byte_mask (bit_length mod 8)) as [m Hm].
  { change (length last_byte_mask) with 8%nat. by apply Nat.mod_upper_bound. }
  rewrite (rd_at _ _ _ Hm). cbn [res_bind]. unfold ffx_ready. by rewrite Hm.
Qed.

Lemma ffx_init_spec enc_ctx is_enc nb_rounds bit_length iv0 iv :
  length iv = 16%nat ->
  ffx_init (ffx_ready enc_ctx is_enc nb_rounds bit_length iv0) iv = Ok (ffx_ready enc_ctx is_enc nb_rounds bit_length iv).
Proof. intros Hl. unfold ffx_init. cbn [ffx_ready ffx_do_init c_assert res_bind]. rewrite Hl. cbn. by rewrite take_ge by lia. Qed.

Lemma ffx_ready_ok enc_ctx is_enc nb_rounds bit_length iv :
  (9 <= bit_length <= 256)%nat -> length iv = 16%nat -> is_bytes iv ->
  ffx_ok enc_ctx (ffx_ready enc_ctx is_enc nb_rounds bit_length iv).
Proof.
  intros Hbits Hl Hb. pose proof (block_length_range _ Hbits) as Hlen.
  pose proof (Nat.div_mod_eq ((bit_length + 7) / 8) 2). pose proof (Nat.mod_upper_bound ((bit_length + 7) / 8) 2 ltac:(lia)).
  split; cbn [ffx_ready ffx_do_transform ffx_enc_ctx ffx_nb_left ffx_nb_right ffx_byte_length ffx_mask_last_byte ffx_tweaks];
    try done; try lia.
  destruct (last_byte_mask !! _) eqn:E; [|done]. eapply Forall_lookup_1; [|exact E]. by repeat constructor.
Qed.

(** The octets of the table leave the low [k] bits to the input. *)
Lemma last_byte_mask_rest k x : (k < 8)%nat ->
  Z.land (Z.land x (Z.lnot (default 0 (last_byte_mask !! k)))) (Z.ones (Z.of_nat k)) = Z.land x (Z.ones (Z.of_nat k)).
Proof.
  intros Hk. rewrite <- Z.land_assoc. f_equal. do 8 (destruct k as [|k]; [reflexivity|]). lia.
Qed.

(** C21: format-preserving encryption can be undone and is length-preserving: for
    every cipher, block of 9 to 256 bits, even number of rounds, key and tweak, the
    two contexts are created (if memory is granted), encryption succeeds without leaving its arrays or
    exhausting its loops, the decryption context gives back the block, and the low
    [bit_length mod 8] bits of the last octet are copied from input to output. *)
Theorem ffx_roundtrip algo enc_ctx key n bit_length iv block :
  CipherLaws enc_ctx -> ca_iv_size algo = 16%nat -> ca_new algo true key = Some enc_ctx -> (9 <= bit_length <= 256)%nat ->
  length iv = 16%nat -> is_bytes iv -> length block = ((bit_length + 7) / 8)%nat -> is_bytes block ->
  exists e d e' d' out,
    ptls_ffx_new true algo true (2 * Z.of_nat n) bit_length key = Ok (Some e) /\ ffx_init e iv = Ok e' /\
    ptls_ffx_new true algo false (2 * Z.of_nat n) bit_length key = Ok (Some d) /\ ffx_init d iv = Ok d' /\
    ffx_encrypt e' block = Ok out /\ ffx_encrypt d' out = Ok block /\
    length out = length block /\
    Z.land (List.last out 0) (Z.ones (Z.of_nat (bit_length mod 8))) = Z.land (List.last block 0) (Z.ones (Z.of_nat (bit_length mod 8))).
Proof.
  intros Hlaws Hiv16 Hnew Hbits Hlen Hiv Hl Hb.
  set (e := ffx_ready enc_ctx true (2 * Z.of_nat n) bit_length iv).
  set (d := ffx_ready enc_ctx false (2 * Z.of_nat n) bit_length iv).
  assert (He : ffx_ok enc_ctx e) by (by apply ffx_ready_ok). assert (Hd : ffx_ok enc_ctx d) by (by apply ffx_ready_ok).
  pose proof He as [_ _ Hnl Hnr Hsum Hmask _ _]. change (ffx_byte_length e) with ((bit_length + 7) / 8)%nat in Hsum.
  set (nl := ffx_nb_left e) in *. set (nr := ffx_nb_right e) in *. set (mask := ffx_mask_last_byte e) in *.
  set (h0 := split_block nl nr mask block). set (lb := last_octet nl nr block).
  assert (Hs : shaped nl nr mask h0) by (apply split_block_shaped; done || lia).
  pose proof (network_shaped enc_ctx e He n h0 Hs) as Hs'.
  assert (Hlb : is_byte lb) by (by apply last_octet_byte).
  do 2 eexists. exists e, d, (join_block nl nr mask (network enc_ctx e n h0) lb).
  split_and!; try (by apply ffx_new_spec); try (by apply ffx_init_spec).
  - apply ffx_encrypt_spec; done || lia.
  - rewrite (ffx_encrypt_spec enc_ctx d Hd n); [| done | | ].
    + change (ffx_nb_left d) with nl. change (ffx_nb_right d) with nr. change (ffx_mask_last_byte d) with mask.
      rewrite split_join by (done || lia). destruct Hs'. rewrite last_octet_join by (done || lia). f_equal.
      unfold network at 1. cbn [d ffx_ready ffx_is_enc]. rewrite (down_up d n) by done.
      unfold network at 1. cbn [e ffx_ready ffx_is_enc]. rewrite (back_forth_all enc_ctx e).
      apply join_split; [done || lia.. |]. by rewrite merge_octet_rest.
    + destruct Hs'. rewrite length_join_block by (done || lia). change (ffx_byte_length d) with ((bit_length + 7) / 8)%nat. lia.
    + destruct Hs'. by apply join_block_bytes.
  - destruct Hs'. rewrite length_join_block by (done || lia). lia.
  - destruct Hs' as [Hh' _ _ _].
    rewrite !(last_octet_last nl nr); [| done || lia.. | rewrite length_join_block; (done || lia)].
    rewrite last_octet_join by (done || lia).
    pose proof (Nat.mod_upper_bound bit_length 8 ltac:(lia)) as Hk.
    rewrite <- (last_byte_mask_rest (bit_length mod 8) (merge_octet _ _ _)), <- (last_byte_mask_rest (bit_length mod 8) (last_octet nl nr block)) by done.
    change (default 0 (last_byte_mask !! (bit_length mod 8)%nat)) with mask. by rewrite merge_octet_rest.
Qed.

(** ** Concrete runs *)

(** A recognisable stand-in for a keyed cipher: no theorem depends on it. *)
Definition toy_cipher (iv input : bytes) : bytes :=
  imap (fun j b => u8 (b + 31 * Z.of_nat j + 7 * foldl (fun a x => u8 (3 * a + x)) 0 iv)) input.
Definition toy_cipher_algo : ptls_cipher_algorithm_t := mk_cipher_algo 16 16 16 (fun _ _ => Some toy_cipher).

#[export] Instance toy_cipher_laws : CipherLaws toy_cipher.
Proof.
  split; intros iv input; [apply length_imap|]. apply Forall_lookup. intros i x. unfold toy_cipher.
  rewrite list_lookup_imap. destruct (input !! i); cbn; [intros [= <-]; apply u8_range | done].
Qed.

Definition toy_tweak : bytes := [10; 11; 12; 13; 14; 15; 16; 17; 18; 19; 20; 21; 22; 23; 24; 25].

Definition toy_ffx (is_enc : bool) (nb_rounds : Z) (bit_length : nat) (block : bytes) : res bytes :=
  let! ctx := ptls_ffx_new true toy_cipher_algo is_enc nb_rounds bit_length [] in
  match ctx with
  | Some ctx => let! ctx := ffx_init ctx toy_tweak in ffx_encrypt ctx block
  | None => Stuck NullDeref
  end.

(** With 39 bits the header promises that the least significant bit of the fifth
    octet is left alone; seven bits are. *)
Example ffx_39_bits :
  toy_ffx true 4 39 (str "01234") = Ok [83; 144; 183; 180; 180] /\
  ffx_mask_last_byte (ffx_ready toy_cipher true 4 39 toy_tweak) = 0x80.
Proof. vm_compute. done. Qed.

(** An odd number of rounds is accepted, and cannot be undone. *)
Example ffx_odd_rounds :
  (let! c := toy_ffx true 3 40 (str "01234") in toy_ffx false 3 40 c) <> Ok (str "01234").
Proof. vm_compute. done. Qed.

(** When the underlying cipher cannot be created, the clean-up aborts: it asserts
    that the context was set up. *)
Example ffx_new_failure :
  ptls_ffx_new true (mk_cipher_algo 16 16 16 (fun _ _ => None)) true 4 53 [] = Stuck AssertFail.
Proof. reflexivity. Qed.
