(* ===== verification/MinicryptoAes.v ===== *)
(** * MinicryptoAes: AES of the minicrypto backend

    [src/lib/cifra/aes-common.h], [aes128.c] and [aes256.c]: AES in ECB mode, in counter
    mode and as AES-GCM, on the block cipher of [Aes] and the modes of [Ctr] and [Gcm].
    Main results: the AEAD is AES-GCM of FIPS 197 and SP 800-38D ([aesgcm_is_sp800_38d])
    and satisfies [AeadLaws]; the counter mode satisfies [CipherLaws], which is what
    format-preserving encryption needs. *)
From S2P Require Import Prelude Constants Blockwise Aes Ctr Gcm Crypto MinicryptoAead Ffx.

Definition PTLS_AES128_KEY_SIZE : nat := 16.
Definition PTLS_AES256_KEY_SIZE : nat := 32.
Definition PTLS_AES_BLOCK_SIZE : nat := 16.
Definition PTLS_AES_IV_SIZE : nat := 16.
Definition PTLS_AESGCM_IV_SIZE : nat := 12.
Definition PTLS_AESGCM_TAG_SIZE : nat := 16.

(** ** ECB *)

Record aesecb_context_t := mk_aesecb { ae_is_enc : bool; ae_aes : cf_aes_context }.

Definition aesecb_setup_crypto (key_size : nat) (is_enc : bool) (key : bytes) : res aesecb_context_t :=
  let! aes := cf_aes_init key key_size in Ok (mk_aesecb is_enc aes).

(** The contents of [output] afterwards. Whatever the length is, one block is processed. *)
Definition aesecb_encrypt (ctx : aesecb_context_t) (output input : bytes) : res bytes :=
  let! _ := c_assert (length input mod AES_BLOCKSZ =? 0)%nat in
  let! out := cf_aes_encrypt (ae_aes ctx) input in
  copy_to output 0 out AES_BLOCKSZ.
Definition aesecb_decrypt (ctx : aesecb_context_t) (output input : bytes) : res bytes :=
  let! _ := c_assert (length input mod AES_BLOCKSZ =? 0)%nat in
  let! out := cf_aes_decrypt (ae_aes ctx) input in
  copy_to output 0 out AES_BLOCKSZ.
Definition aesecb_transform (ctx : aesecb_context_t) (output input : bytes) : res bytes :=
  if ae_is_enc ctx then aesecb_encrypt ctx output input else aesecb_decrypt ctx output input.

(** ** Counter mode *)

(** The counter is not initialised before [do_init]. *)
Record aesctr_context_t := mk_aesctr { ac_aes : cf_aes_context; ac_ctr : option (cf_ctr cf_aes_context) }.

Definition aesctr_setup_crypto (key_size : nat) (key : bytes) : res aesctr_context_t :=
  let! aes := cf_aes_init key key_size in Ok (mk_aesctr aes None).
Definition aesctr_init (ctx : aesctr_context_t) (iv : bytes) : res aesctr_context_t :=
  let! ctr := cf_ctr_init cf_aes (ac_aes ctx) iv in Ok (mk_aesctr (ac_aes ctx) (Some ctr)).
Definition aesctr_transform (ctx : aesctr_context_t) (input : bytes) : res (bytes * aesctr_context_t) :=
  match ac_ctr ctx with
  | None => Stuck Uninitialized
  | Some ctr => let! '(output, ctr) := cf_ctr_cipher ctr input in Ok (output, mk_aesctr (ac_aes ctx) (Some ctr))
  end.

(** ** GCM *)

Record aesgcm_context_t := mk_aesgcm {
  ag_aes : cf_aes_context;
  ag_gcm : option (cf_gcm_ctx cf_aes_context);
  ag_static_iv : bytes
}.

Definition aesgcm_encrypt_init (ctx : aesgcm_context_t) (n : Z) (aad : bytes) : res aesgcm_context_t :=
  let! iv := ptls_aead__build_iv PTLS_AESGCM_IV_SIZE (ag_static_iv ctx) n in
  let! gcm := cf_gcm_encrypt_init cf_aes (ag_aes ctx) aad iv in
  Ok (mk_aesgcm (ag_aes ctx) (Some gcm) (ag_static_iv ctx)).

Definition aesgcm_encrypt_update (ctx : aesgcm_context_t) (input : bytes) : res (bytes * aesgcm_context_t) :=
  match ag_gcm ctx with
  | None => Stuck Uninitialized
  | Some gcm => let! '(output, gcm) := cf_gcm_encrypt_update gcm input in Ok (output, mk_aesgcm (ag_aes ctx) (Some gcm) (ag_static_iv ctx))
  end.

(** [cf_gcm_encrypt_final] clears the GCM context. *)
Definition aesgcm_encrypt_final (ctx : aesgcm_context_t) : res (bytes * aesgcm_context_t) :=
  match ag_gcm ctx with
  | None => Stuck Uninitialized
  | Some gcm => let! tag := cf_gcm_encrypt_final gcm PTLS_AESGCM_TAG_SIZE in Ok (tag, mk_aesgcm (ag_aes ctx) None (ag_static_iv ctx))
  end.

(** [None] is [SIZE_MAX]. *)
Definition aesgcm_decrypt (ctx : aesgcm_context_t) (input : bytes) (n : Z) (aad : bytes) : res (option bytes) :=
  if (length input <? PTLS_AESGCM_TAG_SIZE)%nat then Ok None
  else
    let tag_offset := (length input - PTLS_AESGCM_TAG_SIZE)%nat in
    let! iv := ptls_aead__build_iv PTLS_AESGCM_IV_SIZE (ag_static_iv ctx) n in
    cf_gcm_decrypt cf_aes (ag_aes ctx) (take tag_offset input) aad iv (drop tag_offset input) PTLS_AESGCM_TAG_SIZE.

Definition aead_aesgcm_setup_crypto (key_size : nat) (key iv : bytes) : res aesgcm_context_t :=
  let! aes := cf_aes_init key key_size in
  let! iv := copy_from iv 0 PTLS_AESGCM_IV_SIZE in
  Ok (mk_aesgcm aes None iv).

(** ** A context with its key *)

Definition aes_key_size (n : nat) : Prop := n = PTLS_AES128_KEY_SIZE \/ n = PTLS_AES256_KEY_SIZE.

Section Keyed.
Context (key iv : bytes) (ctx : aesgcm_context_t).
Hypotheses (Hready : aes_ready key (ag_aes ctx)) (Hiv : ag_static_iv ctx = iv).
Context (n : Z) (aad nonce : bytes).
Hypotheses (Hnonce : ptls_aead__build_iv PTLS_AESGCM_IV_SIZE iv n = Ok nonce) (Hnb : is_bytes nonce) (Haad : is_bytes aad).
#[local] Instance keyed_cipher : BlockCipher cf_aes (ag_aes ctx) (fips_aes key) := aes_block_cipher key (ag_aes ctx) Hready.

(** The context after [text] was encrypted. *)
Definition aesgcm_at (text : bytes) (c : aesgcm_context_t) : Prop :=
  ag_aes c = ag_aes ctx /\ exists gcm, ag_gcm c = Some gcm /\ gcm_at cf_aes (ag_aes ctx) (fips_aes key) nonce aad text gcm.

Lemma aesgcm_init_spec : exists c, aesgcm_encrypt_init ctx n aad = Ok c /\ aesgcm_at [] c.
Proof.
  unfold aesgcm_encrypt_init. rewrite Hiv, Hnonce. cbn [res_bind].
  destruct (gcm_encrypt_init_spec cf_aes (ag_aes ctx) (fips_aes key) nonce aad Hnb) as (gcm & -> & Hat). cbn [res_bind]. eexists. split; [reflexivity|]. split; [done|]. by exists gcm.
Qed.

Lemma aesgcm_update_spec text c x :
  aesgcm_at text c ->
  exists c', aesgcm_encrypt_update c x = Ok (xor_stream (ctr_stream (fips_aes key) (gcm_J0 (fips_aes key) nonce) 12 4) (16 + length text) x, c') /\ aesgcm_at (text ++ x) c'.
Proof.
  intros [Ha (gcm & Hg & Hat)]. unfold aesgcm_encrypt_update. rewrite Hg.
  destruct (gcm_encrypt_update_spec cf_aes (ag_aes ctx) (fips_aes key) nonce aad Hnb text gcm x Hat) as (gcm' & -> & Hat'). cbn [res_bind].
  eexists. split; [reflexivity|]. split; [exact Ha|]. by exists gcm'.
Qed.

Lemma aesgcm_final_spec text c :
  aesgcm_at text c -> exists c', aesgcm_encrypt_final c = Ok (gcm_tag (fips_aes key) nonce aad (gcm_crypt (fips_aes key) nonce text) 16, c').
Proof.
  intros [Ha (gcm & Hg & Hat)]. unfold aesgcm_encrypt_final, PTLS_AESGCM_TAG_SIZE. rewrite Hg.
  rewrite (gcm_encrypt_final_spec cf_aes (ag_aes ctx) (fips_aes key) nonce aad Hnb Haad text gcm 16 Hat) by lia. cbn [res_bind]. by eexists.
Qed.

Lemma aesgcm_decrypt_spec input :
  is_bytes input -> (16 <= length input)%nat ->
  let c := take (length input - 16) input in
  aesgcm_decrypt ctx input n aad =
    Ok (if bool_decide (gcm_tag (fips_aes key) nonce aad c 16 = drop (length input - 16) input) then Some (gcm_crypt (fips_aes key) nonce c) else None).
Proof.
  intros Hb Hl c. unfold aesgcm_decrypt, PTLS_AESGCM_TAG_SIZE. rewrite (proj2 (Nat.ltb_ge _ _)), Hiv, Hnonce by lia. cbn [res_bind]. fold c.
  assert (Hd : length (drop (length input - 16) input) = 16%nat) by (rewrite length_drop; lia).
  rewrite (gcm_decrypt_spec cf_aes (ag_aes ctx) (fips_aes key) nonce aad Hnb Haad) by (lia || by apply Forall_take). by rewrite (take_ge (drop _ _)) by lia.
Qed.
End Keyed.

(** ** The algorithm tables *)

(** The context for the key and the IV that [ptls_aead_new_direct] hands over. *)
Definition aesgcm_ctx (key_size : nat) (key iv : bytes) : res aesgcm_context_t := aead_aesgcm_setup_crypto key_size (copied key_size key) (copied PTLS_AESGCM_IV_SIZE iv).

(** A context between [do_encrypt_init] and [do_encrypt_final]. *)
Definition aesgcm_started (key_size : nat) (key iv : bytes) (n : Z) (aad prev : bytes) : res aesgcm_context_t :=
  let! ctx := aesgcm_ctx key_size key iv in
  let! ctx := aesgcm_encrypt_init ctx n (octets aad) in
  let! '(_, ctx) := aesgcm_encrypt_update ctx prev in
  Ok ctx.

Definition ptls_minicrypto_aesgcm (key_size : nat) : ptls_aead_algorithm_t :=
  mk_aead key_size key_size PTLS_AESGCM_IV_SIZE PTLS_AESGCM_TAG_SIZE
    (fun _ key iv => match aead_aesgcm_setup_crypto key_size key iv with Ok _ => true | _ => false end)
    (fun key iv n aad prev input => output_of (let! ctx := aesgcm_started key_size key iv n aad prev in aesgcm_encrypt_update ctx input))
    (fun key iv n aad text => output_of (let! ctx := aesgcm_started key_size key iv n aad text in aesgcm_encrypt_final ctx))
    (fun key iv n aad input =>
       match (let! ctx := aesgcm_ctx key_size key iv in aesgcm_decrypt ctx (octets input) n (octets aad)) with Ok r => r | _ => None end).
Definition ptls_minicrypto_aes128gcm : ptls_aead_algorithm_t := ptls_minicrypto_aesgcm PTLS_AES128_KEY_SIZE.
Definition ptls_minicrypto_aes256gcm : ptls_aead_algorithm_t := ptls_minicrypto_aesgcm PTLS_AES256_KEY_SIZE.

Lemma aesgcm_setup_spec key_size key iv :
  aes_key_size key_size -> length key = key_size -> is_bytes key -> length iv = 12%nat ->
  exists ctx, aead_aesgcm_setup_crypto key_size key iv = Ok ctx /\ aes_ready key (ag_aes ctx) /\ ag_static_iv ctx = iv.
Proof.
  intros Hs Hk Hkb Hiv. unfold aead_aesgcm_setup_crypto, PTLS_AESGCM_IV_SIZE.
  destruct (cf_aes_init_spec key Hkb) as (aes & Hi & Hr); [rewrite Hk; destruct Hs as [-> | ->]; [by left | by right; right]|].
  rewrite Hk in Hi. rewrite Hi, copy_from_ok by lia. cbn [res_bind]. eexists. split; [reflexivity|]. split; [done|]. cbn [ag_static_iv]. by rewrite drop_0, take_ge by lia.
Qed.

Section Record.
Context (key_size : nat) (Hsize : aes_key_size key_size) (key iv : bytes).
Notation k := (copied key_size key).

Lemma aesgcm_ctx_spec : exists ctx, aesgcm_ctx key_size key iv = Ok ctx /\ aes_ready k (ag_aes ctx) /\ ag_static_iv ctx = copied 12 iv.
Proof. apply aesgcm_setup_spec; auto using copied_bytes, length_copied. Qed.

Lemma aesgcm_started_spec n aad prev :
  exists ctx0 ctx, aesgcm_started key_size key iv n aad prev = Ok ctx /\ aes_ready k (ag_aes ctx0) /\
    aesgcm_at k ctx0 (octets aad) (record_nonce iv n) prev ctx.
Proof.
  destruct aesgcm_ctx_spec as (ctx0 & E & Hr & Hs). destruct (record_nonce_ok iv n) as (Hn & Hl & Hb). unfold aesgcm_started. rewrite E. cbn [res_bind].
  destruct (aesgcm_init_spec k (copied 12 iv) ctx0 Hr Hs n (octets aad) (record_nonce iv n) Hn Hb) as (c & -> & Hc). cbn [res_bind].
  destruct (aesgcm_update_spec k ctx0 Hr (octets aad) (record_nonce iv n) Hb [] c prev Hc) as (c' & -> & Hc'). cbn [res_bind]. by exists ctx0, c'.
Qed.

Lemma aes_cipher : exists ctx, aes_ready k ctx.
Proof. destruct aesgcm_ctx_spec as (ctx & _ & Hr & _). by exists (ag_aes ctx). Qed.
End Record.

#[export] Instance aesgcm_laws key_size : aes_key_size key_size -> AeadLaws (ptls_minicrypto_aesgcm key_size).
Proof.
  intros Hs. pose (E := fun key => fips_aes (copied key_size key)).
  apply (stream_aead_laws _ (fun key iv n => ctr_stream (E key) (gcm_J0 (E key) (record_nonce iv n)) 12 4) 16
    (fun key iv n aad ct => gcm_tag (E key) (record_nonce iv n) (octets aad) ct 16)).
  - intros key iv n i. destruct (aes_cipher key_size Hs key iv) as [ctx Hr]. destruct (record_nonce_ok iv n) as (_ & _ & Hb).
    pose proof (aes_block_cipher _ _ Hr) as HE. apply (ctr_stream_byte cf_aes ctx (E key)); [by apply J0_block | done].
  - intros key iv n aad ct. destruct (aes_cipher key_size Hs key iv) as [ctx Hr]. destruct (record_nonce_ok iv n) as (_ & _ & Hb).
    pose proof (aes_block_cipher _ _ Hr) as HE. by apply (length_gcm_tag cf_aes ctx (E key)).
  - intros key iv n aad ct. destruct (aes_cipher key_size Hs key iv) as [ctx Hr]. destruct (record_nonce_ok iv n) as (_ & _ & Hb).
    pose proof (aes_block_cipher _ _ Hr) as HE. by apply (gcm_tag_bytes cf_aes ctx (E key)).
  - done.
  - intros key iv n aad prev x. cbn [ptls_minicrypto_aesgcm do_encrypt_update]. destruct (record_nonce_ok iv n) as (_ & _ & Hb).
    destruct (aesgcm_started_spec key_size Hs key iv n aad prev) as (ctx0 & ctx & -> & Hr & Hc). cbn [res_bind].
    destruct (aesgcm_update_spec _ ctx0 Hr _ _ Hb prev ctx x Hc) as (c' & -> & _). done.
  - intros key iv n aad text. cbn [ptls_minicrypto_aesgcm do_encrypt_final]. destruct (record_nonce_ok iv n) as (_ & _ & Hb).
    destruct (aesgcm_started_spec key_size Hs key iv n aad text) as (ctx0 & ctx & -> & Hr & Hc). cbn [res_bind].
    destruct (aesgcm_final_spec _ ctx0 Hr _ _ Hb (octets_bytes _) text ctx Hc) as (c' & ->). done.
  - intros key iv n aad c. cbn [ptls_minicrypto_aesgcm do_decrypt]. by rewrite (octets_id (octets c)) by apply octets_bytes.
  - intros key iv n aad c Hc. cbn [ptls_minicrypto_aesgcm do_decrypt]. rewrite (octets_id c) by done. destruct (record_nonce_ok iv n) as (Hn & Hl & Hb).
    destruct (aesgcm_ctx_spec key_size Hs key iv) as (ctx & -> & Hr & Hi). cbn [res_bind]. destruct (Nat.ltb_spec (length c) 16) as [Hlt|Hge].
    + unfold aesgcm_decrypt, PTLS_AESGCM_TAG_SIZE. by rewrite (proj2 (Nat.ltb_lt _ _)) by lia.
    + by rewrite (aesgcm_decrypt_spec _ (copied 12 iv) ctx Hr Hi n (octets aad) _ Hn Hb (octets_bytes _) c Hc Hge).
Qed.
#[export] Instance aes128gcm_laws : AeadLaws ptls_minicrypto_aes128gcm := aesgcm_laws _ (or_introl eq_refl).
#[export] Instance aes256gcm_laws : AeadLaws ptls_minicrypto_aes256gcm := aesgcm_laws _ (or_intror eq_refl).

(** ** AES-GCM as a whole *)

Fixpoint gcm_encrypt_chunks (ctx : aesgcm_context_t) (chunks : list bytes) : res (bytes * aesgcm_context_t) :=
  match chunks with
  | [] => Ok ([], ctx)
  | x :: chunks =>
      let! '(c, ctx) := aesgcm_encrypt_update ctx x in
      let! '(rest, ctx) := gcm_encrypt_chunks ctx chunks in
      Ok (c ++ rest, ctx)
  end.

Lemma gcm_chunks_spec key ctx0 aad nonce chunks text ctx :
  aes_ready key (ag_aes ctx0) -> is_bytes nonce -> aesgcm_at key ctx0 aad nonce text ctx ->
  exists ctx', gcm_encrypt_chunks ctx chunks = Ok (xor_stream (ctr_stream (fips_aes key) (gcm_J0 (fips_aes key) nonce) 12 4) (16 + length text) (concat chunks), ctx') /\
    aesgcm_at key ctx0 aad nonce (text ++ concat chunks) ctx'.
Proof.
  intros Hr Hb. revert text ctx. induction chunks as [|x chunks IH]; intros text ctx Hat; cbn [gcm_encrypt_chunks concat].
  { exists ctx. by rewrite app_nil_r. }
  destruct (aesgcm_update_spec key ctx0 Hr aad nonce Hb text ctx x Hat) as (ctx1 & -> & Hat1). cbn [res_bind].
  destruct (IH _ _ Hat1) as (ctx2 & -> & Hat2). cbn [res_bind]. exists ctx2. rewrite app_assoc. split; [|done].
  by rewrite xor_stream_app, length_app, Nat.add_assoc.
Qed.

(** Encryption of a text in chunks: the ciphertext and the tag. *)
Definition aesgcm_seal (key_size : nat) (key iv : bytes) (n : Z) (aad : bytes) (chunks : list bytes) : res (bytes * bytes) :=
  let! ctx := aead_aesgcm_setup_crypto key_size key iv in
  let! ctx := aesgcm_encrypt_init ctx n aad in
  let! '(ct, ctx) := gcm_encrypt_chunks ctx chunks in
  let! '(tag, _) := aesgcm_encrypt_final ctx in
  Ok (ct, tag).
Definition aesgcm_open (key_size : nat) (key iv : bytes) (n : Z) (aad input : bytes) : res (option bytes) :=
  let! ctx := aead_aesgcm_setup_crypto key_size key iv in
  aesgcm_decrypt ctx input n aad.

(** C5: [aesgcm_*] with the AES, the counter mode and the GHASH of cifra implement
    AES-128-GCM and AES-256-GCM as FIPS 197 and SP 800-38D define them, for every key,
    IV, sequence number and additional data, however the text is cut into chunks: the
    ciphertext and the tag are the standard's, and decryption returns the text of a
    ciphertext with the right tag and refuses every other one. *)
Theorem aesgcm_is_sp800_38d key_size key iv n aad chunks ct tag :
  aes_key_size key_size -> length key = key_size -> is_bytes key -> length iv = PTLS_AESGCM_IV_SIZE -> is_bytes iv -> is_bytes aad ->
  is_bytes ct -> is_bytes tag -> length tag = PTLS_AESGCM_TAG_SIZE ->
  exists nonce, ptls_aead__build_iv PTLS_AESGCM_IV_SIZE iv n = Ok nonce /\
    aesgcm_seal key_size key iv n aad chunks =
      Ok (gcm_crypt (fips_aes key) nonce (concat chunks), gcm_tag (fips_aes key) nonce aad (gcm_crypt (fips_aes key) nonce (concat chunks)) 16) /\
    aesgcm_open key_size key iv n aad (ct ++ tag) =
      Ok (if bool_decide (tag = gcm_tag (fips_aes key) nonce aad ct 16) then Some (gcm_crypt (fips_aes key) nonce ct) else None).
Proof.
  intros Hs Hk Hkb Hiv Hivb Haad Hct Htagb Htag. unfold PTLS_AESGCM_IV_SIZE, PTLS_AESGCM_TAG_SIZE in *.
  destruct (record_nonce_ok iv n) as (Hn & Hl & Hb). rewrite copied_id in Hn by done. exists (record_nonce iv n). split; [done|].
  unfold aesgcm_seal, aesgcm_open. destruct (aesgcm_setup_spec key_size key iv Hs Hk Hkb Hiv) as (ctx & -> & Hr & Hc). cbn [res_bind]. split.
  - destruct (aesgcm_init_spec key iv ctx Hr Hc n aad _ Hn Hb) as (c & -> & Hat). cbn [res_bind].
    destruct (gcm_chunks_spec key ctx aad _ chunks [] c Hr Hb Hat) as (c' & -> & Hat'). cbn [res_bind].
    destruct (aesgcm_final_spec key ctx Hr aad _ Hb Haad _ c' Hat') as (c'' & ->). done.
  - rewrite (aesgcm_decrypt_spec key iv ctx Hr Hc n aad _ Hn Hb Haad (ct ++ tag)); [|by apply Forall_app_2 | rewrite length_app; lia].
    rewrite length_app, Htag. replace (length ct + 16 - 16)%nat with (length ct) by lia. rewrite take_app_length, drop_app_length.
    f_equal. by rewrite (bool_decide_ext (tag = _) (gcm_tag (fips_aes key) (record_nonce iv n) aad ct 16 = tag)).
Qed.

Definition gcm_vector_key : bytes := hex "feffe9928665731c6d6a8f9467308308".
Definition gcm_vector_iv : bytes := hex "cafebabefacedbaddecaf888".
Definition gcm_vector_aad : bytes := hex "feedfacedeadbeef".
Definition gcm_vector_text : list bytes := [hex "d9313225f88406e5a55909c5aff5269a86a7a953"; hex "1534f7da"].
Definition gcm_vector_tag : bytes := hex "5bc94fbc3221a5db94fae95ae7121a47".

Lemma aesgcm_is_sp800_38d_witness :
  exists nonce, ptls_aead__build_iv 12 gcm_vector_iv 1 = Ok nonce /\
    aesgcm_seal 16 gcm_vector_key gcm_vector_iv 1 gcm_vector_aad gcm_vector_text =
      Ok (gcm_crypt (fips_aes gcm_vector_key) nonce (concat gcm_vector_text),
          gcm_tag (fips_aes gcm_vector_key) nonce gcm_vector_aad (gcm_crypt (fips_aes gcm_vector_key) nonce (concat gcm_vector_text)) 16) /\
    aesgcm_open 16 gcm_vector_key gcm_vector_iv 1 gcm_vector_aad (hex "42831ec2" ++ gcm_vector_tag) =
      Ok (if bool_decide (gcm_vector_tag = gcm_tag (fips_aes gcm_vector_key) nonce gcm_vector_aad (hex "42831ec2") 16)
          then Some (gcm_crypt (fips_aes gcm_vector_key) nonce (hex "42831ec2")) else None).
Proof.
  apply (aesgcm_is_sp800_38d 16 gcm_vector_key gcm_vector_iv 1 gcm_vector_aad gcm_vector_text (hex "42831ec2") gcm_vector_tag);
    [by left | try reflexivity; apply (bool_decide_unpack _); vm_compute; exact I ..].
Defined.

(** ** Counter mode as the cipher of format-preserving encryption *)

(** [ptls_cipher_new], [ptls_cipher_init] and one [ptls_cipher_encrypt]. *)
Definition aesctr_stream (key_size : nat) (key iv input : bytes) : res bytes :=
  let! ctx := aesctr_setup_crypto key_size key in
  let! ctx := aesctr_init ctx iv in
  let! '(output, _) := aesctr_transform ctx input in
  Ok output.

(** The context [ptls_cipher_new] makes for a key. *)
Definition aesctr_enc (key_size : nat) (key iv input : bytes) : bytes :=
  match aesctr_stream key_size (copied key_size key) (copied PTLS_AES_IV_SIZE iv) input with Ok output => output | _ => [] end.
Definition ptls_minicrypto_aes128ctr : ptls_cipher_algorithm_t :=
  mk_cipher_algo PTLS_AES128_KEY_SIZE 1 PTLS_AES_IV_SIZE (fun _ key => Some (aesctr_enc PTLS_AES128_KEY_SIZE key)).
Definition ptls_minicrypto_aes256ctr : ptls_cipher_algorithm_t :=
  mk_cipher_algo PTLS_AES256_KEY_SIZE 1 PTLS_AES_IV_SIZE (fun _ key => Some (aesctr_enc PTLS_AES256_KEY_SIZE key)).

Lemma aesctr_stream_spec key_size key iv input :
  aes_key_size key_size -> length key = key_size -> is_bytes key -> block iv ->
  aesctr_stream key_size key iv input = Ok (xor_stream (ctr_stream (fips_aes key) iv 0 16) 0 input).
Proof.
  intros Hs Hk Hkb Hiv. unfold aesctr_stream, aesctr_setup_crypto.
  destruct (cf_aes_init_spec key Hkb) as (aes & Hi & Hr); [rewrite Hk; destruct Hs as [-> | ->]; [by left | by right; right]|].
  rewrite Hk in Hi. rewrite Hi. cbn [res_bind]. pose proof (aes_block_cipher _ _ Hr) as HE. unfold aesctr_init. cbn [ac_aes].
  destruct (ctr_init_spec cf_aes aes (fips_aes key) iv Hiv) as (ctr & -> & Hat). cbn [res_bind]. unfold aesctr_transform. cbn [ac_ctr].
  by destruct (ctr_streams cf_aes aes (fips_aes key) iv 0 16 Hiv eq_refl (Nat.lt_0_succ 15) 0 ctr input Hat) as (c & -> & _).
Qed.

#[export] Instance aesctr_laws key_size key : aes_key_size key_size -> CipherLaws (aesctr_enc key_size key).
Proof.
  intros Hs. assert (H : forall iv input, exists st, aesctr_enc key_size key iv input = xor_stream st 0 input).
  { intros iv input. unfold aesctr_enc. eexists.
    rewrite aesctr_stream_spec; auto using copied_bytes, length_copied. split; auto using copied_bytes, length_copied. }
  split; intros iv input; destruct (H iv input) as [st ->]; [apply length_xor_stream | apply xor_stream_bytes].
Qed.

Definition ffx_key : bytes := hex "000102030405060708090a0b0c0d0e0f".
Definition ffx_tweak : bytes := hex "0a0b0c0d0e0f10111213141516171819".

(** The format-preserving cipher over AES-128 in counter mode. *)
Lemma ffx_roundtrip_witness :
  exists e d e' d' out,
    ptls_ffx_new true ptls_minicrypto_aes128ctr true (2 * Z.of_nat 2) 53 ffx_key = Ok (Some e) /\ ffx_init e ffx_tweak = Ok e' /\
    ptls_ffx_new true ptls_minicrypto_aes128ctr false (2 * Z.of_nat 2) 53 ffx_key = Ok (Some d) /\ ffx_init d ffx_tweak = Ok d' /\
    ffx_encrypt e' (str "0123456") = Ok out /\ ffx_encrypt d' out = Ok (str "0123456") /\
    length out = length (str "0123456") /\
    Z.land (List.last out 0) (Z.ones (Z.of_nat (53 mod 8))) = Z.land (List.last (str "0123456") 0) (Z.ones (Z.of_nat (53 mod 8))).
Proof.
  apply (ffx_roundtrip ptls_minicrypto_aes128ctr (aesctr_enc PTLS_AES128_KEY_SIZE ffx_key) ffx_key 2 53 ffx_tweak (str "0123456")).
  - apply aesctr_laws. by left.
  - reflexivity.
  - reflexivity.
  - lia.
  - reflexivity.
  - by repeat constructor.
  - reflexivity.
  - apply str_bytes.
Defined.

(** ** One block *)

Lemma read_state_first input rest : block input -> read_state (input ++ rest) = read_state input.
Proof. intros [Hl _]. do 16 (destruct input as [|? input]; [done|]). destruct input; [reflexivity | done]. Qed.

Section Ecb.
Context (key : bytes) (ctx : aesecb_context_t) (Hready : aes_ready key (ae_aes ctx)).
Context (input rest output : bytes).
Hypotheses (Hinput : block input) (Hrest : (length rest mod 16 = 0)%nat) (Houtput : (16 <= length output)%nat).

Lemma ecb_whole x : length x = 16%nat -> c_assert (length (x ++ rest) mod AES_BLOCKSZ =? 0)%nat = Ok tt.
Proof.
  intros Hl. rewrite length_app, Hl. unfold AES_BLOCKSZ. rewrite <- Nat.Div0.add_mod_idemp_r, Hrest. reflexivity.
Qed.

(** Whatever the length of the input is, only its first block is processed. *)
Lemma aesecb_encrypt_first : aesecb_encrypt ctx output (input ++ rest) = Ok (fips_aes key input ++ drop 16 output).
Proof.
  unfold aesecb_encrypt. rewrite ecb_whole by apply Hinput. cbn [res_bind]. unfold cf_aes_encrypt. rewrite read_state_first by done.
  fold (cf_aes_encrypt (ae_aes ctx) input). rewrite (aes_encrypt_spec key) by done. cbn [res_bind].
  destruct (fips_aes_block key (ae_aes ctx) Hready input Hinput) as [Hl _]. rewrite copy_to_ok by (unfold AES_BLOCKSZ; lia).
  by rewrite take_0, take_ge by (unfold AES_BLOCKSZ; lia).
Qed.

Lemma aesecb_decrypt_first : aesecb_decrypt ctx output (fips_aes key input ++ rest) = Ok (input ++ drop 16 output).
Proof.
  pose proof (fips_aes_block key (ae_aes ctx) Hready input Hinput) as Hb.
  unfold aesecb_decrypt. rewrite ecb_whole by apply Hb. cbn [res_bind]. unfold cf_aes_decrypt. rewrite read_state_first by done.
  fold (cf_aes_decrypt (ae_aes ctx) (fips_aes key input)). rewrite (aes_decrypt_spec key) by done. cbn [res_bind].
  destruct Hinput as [Hl _]. rewrite copy_to_ok by (unfold AES_BLOCKSZ; lia). by rewrite take_0, take_ge by (unfold AES_BLOCKSZ; lia).
Qed.
End Ecb.

(** [ptls_cipher_new] and one [ptls_cipher_encrypt] into [output]. *)
Definition aesecb_once (key_size : nat) (is_enc : bool) (key output input : bytes) : res bytes :=
  let! ctx := aesecb_setup_crypto key_size is_enc key in aesecb_transform ctx output input.

(** C8: the block cipher of cifra, with its word-wise rounds, its tables and its
    constant-time table look-ups, is the AES of FIPS 197, whose S-box is computed here
    from the inversion in GF(2^8): for every 16- or 32-octet key and every block an
    encrypting context of [aes-common.h] writes FIPS 197's ciphertext and a decrypting
    context writes the block back. Only the first block of a longer input is processed;
    the output past it is left as it was. *)
Theorem aesecb_is_fips197 key_size key input rest rest' output output' :
  aes_key_size key_size -> length key = key_size -> is_bytes key -> block input ->
  (length rest mod 16 = 0)%nat -> (length rest' mod 16 = 0)%nat -> (16 <= length output)%nat -> (16 <= length output')%nat ->
  aesecb_once key_size true key output (input ++ rest) = Ok (fips_aes key input ++ drop 16 output) /\
  aesecb_once key_size false key output' (fips_aes key input ++ rest') = Ok (input ++ drop 16 output').
Proof.
  intros Hs Hk Hkb Hi Hr Hr' Ho Ho'. unfold aesecb_once, aesecb_setup_crypto.
  destruct (cf_aes_init_spec key Hkb) as (aes & Hini & Hready); [rewrite Hk; destruct Hs as [-> | ->]; [by left | by right; right]|].
  rewrite Hk in Hini. rewrite Hini. cbn [res_bind]. unfold aesecb_transform. cbn [ae_is_enc].
  split; [by apply aesecb_encrypt_first | by apply aesecb_decrypt_first].
Qed.

Definition ecb_text : bytes := hex "00112233445566778899aabbccddeeff".
Lemma aesecb_is_fips197_witness :
  aesecb_once 16 true ffx_key (replicate 32 0) (ecb_text ++ ecb_text) = Ok (fips_aes ffx_key ecb_text ++ drop 16 (replicate 32 0)) /\
  aesecb_once 16 false ffx_key (replicate 16 0) (fips_aes ffx_key ecb_text ++ []) = Ok (ecb_text ++ drop 16 (replicate 16 0)).
Proof.
  apply (aesecb_is_fips197 16 ffx_key ecb_text ecb_text [] (replicate 32 0) (replicate 16 0));
    [by left | try split; try reflexivity; (apply (bool_decide_unpack _); vm_compute; exact I) || (apply Nat.leb_le; reflexivity) ..].
Defined.
