(* ===== verification/Fusion.v ===== *)
(** * Fusion: the algorithms of the fusion engine

    The contexts that [src/lib/fusion.c] gives to picotls: counter mode for header
    protection ([ctr_init], [ctr_transform]) and AES-GCM ([aesgcm_setup],
    [aead_do_encrypt], [aead_do_decrypt]), with the capacity of the table of powers and
    the test of the processor.  Main results: records of up to 1500 octets are sealed and
    opened as SP 800-38D says, with the nonce of RFC 8446 section 5.3
    ([fusion_encrypt_is_sp800_38d], [fusion_decrypt_is_sp800_38d]); a read behind the end
    of an object stays in its pages ([loadn_safe]); [ptls_fusion_aesgcm_set_capacity] does
    not compute the powers it makes room for ([capacity_not_extended]). *)
From stdpp Require Import gmap.
From S2P Require Import Prelude Limbs Bitops Blockwise Crypto MinicryptoAead MinicryptoAes Aes Ctr Gcm Gf2 Simd FusionLoad FusionAes FusionGhash FusionGcm FusionCore FusionText FusionEncrypt FusionDecrypt.

(** ** Counter mode *)

Definition aesctr_setup (key : bytes) (key_size : nat) : res ctr_context :=
  let! ecb := ptls_fusion_aesecb_init true key key_size in
  Ok (mk_ctrc ecb None false).
Definition aes128ctr_setup (key : bytes) : res ctr_context := aesctr_setup key PTLS_AES128_KEY_SIZE.
Definition aes256ctr_setup (key : bytes) : res ctr_context := aesctr_setup key PTLS_AES256_KEY_SIZE.

Definition ctr_init (ctx : ctr_context) (m : memory) (iv : Z) : res ctr_context :=
  let! v := _mm_loadu_si128 m iv in
  let! bits := aesecb_encrypt (ctr_fusion ctx) v in
  Ok (mk_ctrc (ctr_fusion ctx) (Some bits) true).

Definition load_bits (ctx : ctr_context) : res m128 := match ctr_bits ctx with Some v => Ok v | None => Stuck Uninitialized end.

Definition ctr_transform (ctx : ctr_context) (m : memory) (output input : Z) (len : nat) : res (ctr_context * memory) :=
  let! _ := c_assert (ctr_is_ready ctx && (len <=? 16)%nat) in
  let ctx := mk_ctrc (ctr_fusion ctx) (ctr_bits ctx) false in
  let! m :=
    if (len <? 16)%nat then
      let! bits := load_bits ctx in
      let! v := loadn m input len in
      storen m output len (_mm_xor_si128 bits v)
    else
      let! bits := load_bits ctx in
      let! v := _mm_loadu_si128 m input in
      _mm_storeu_si128 m output (_mm_xor_si128 bits v) in
  Ok (ctx, m).

(** What is left behind: the keys and the block are overwritten. *)
Definition ptls_fusion_aesecb_dispose (ctx : ptls_fusion_aesecb_context_t) : ptls_fusion_aesecb_context_t := mk_ecb (replicate 15 (replicate 16 0)) 0.
Definition ctr_dispose (ctx : ctr_context) : ctr_context := mk_ctrc (ptls_fusion_aesecb_dispose (ctr_fusion ctx)) (Some _mm_setzero_si128) (ctr_is_ready ctx).

(** ** AES-GCM *)

(** [fa_aesgcm = None] is [NULL]. *)
Record aesgcm_context := mk_aesgcm { fa_aesgcm : option ptls_fusion_aesgcm_context; fa_static_iv : m128 }.

(** The context in front of [free] *)
Definition ptls_fusion_aesgcm_free (ctx : ptls_fusion_aesgcm_context) : ptls_fusion_aesgcm_context :=
  mk_fgcm (ptls_fusion_aesecb_dispose (fg_ecb ctx)) (fg_capacity ctx) 0
    (imap (fun i e => if (i <? fg_ghash_cnt ctx)%nat then Some (mk_precompute _mm_setzero_si128 _mm_setzero_si128) else e) (fg_ghash ctx)).

Definition calc_counter (static_iv : m128) (seq : Z) : m128 :=
  let ctr := _mm_setzero_si128 in
  let ctr := _mm_insert_epi64 ctr seq 0 in
  let ctr := _mm_slli_si128 ctr 4 in
  _mm_xor_si128 static_iv ctr.

(** [ctx->aesgcm->...] *)
Definition fa_deref (ctx : aesgcm_context) : res ptls_fusion_aesgcm_context := match fa_aesgcm ctx with Some g => Ok g | None => Stuck NullDeref end.

(** [if (n > ctx->aesgcm->capacity) ctx->aesgcm = ptls_fusion_aesgcm_set_capacity(ctx->aesgcm, n)] *)
Definition fa_reserve (memory : bool) (ctx : aesgcm_context) (n : nat) : res aesgcm_context :=
  let! g := fa_deref ctx in
  if (fg_capacity g <? n)%nat
  then let! g := ptls_fusion_aesgcm_set_capacity memory g n in Ok (mk_aesgcm g (fa_static_iv ctx))
  else Ok ctx.

(** [assert(!"FIXME")] *)
Definition aead_do_encrypt_init (ctx : aesgcm_context) (seq : Z) (aad : Z) (aadlen : nat) : res unit := c_assert false.
Definition aead_do_encrypt_update (ctx : aesgcm_context) (output input : Z) (inlen : nat) : res (option nat) := let! _ := c_assert false in Ok None.
Definition aead_do_encrypt_final (ctx : aesgcm_context) (output : Z) : res (option nat) := let! _ := c_assert false in Ok None.

Definition aead_do_encrypt (memory : bool) (ctx : aesgcm_context) (m : gmap Z Z) (output input : Z) (inlen : nat) (seq : Z) (aad : Z) (aadlen : nat)
    (supp : option ptls_aead_supplementary_encryption_t) : res (aesgcm_context * gmap Z Z) :=
  let! ctx := fa_reserve memory ctx (inlen + aadlen) in
  let! g := fa_deref ctx in
  let! m := ptls_fusion_aesgcm_encrypt g supp m output input inlen (calc_counter (fa_static_iv ctx) seq) aad aadlen in
  Ok (ctx, m).

(** [None] is [SIZE_MAX]. *)
Definition aead_do_decrypt (memory : bool) (ctx : aesgcm_context) (m : gmap Z Z) (output input : Z) (inlen : nat) (seq : Z) (aad : Z) (aadlen : nat)
    : res (aesgcm_context * gmap Z Z * option nat) :=
  if (inlen <? 16)%nat then Ok (ctx, m, None)
  else
    let enclen := (inlen - 16)%nat in
    let! ctx := fa_reserve memory ctx (enclen + aadlen) in
    let! g := fa_deref ctx in
    let! '(m, ok) := ptls_fusion_aesgcm_decrypt g m output input enclen (calc_counter (fa_static_iv ctx) seq) aad aadlen (input + Z.of_nat enclen) in
    Ok (ctx, m, if ok then Some enclen else None).

(** [None] for [key] is [NULL]; a context without a key has no [aesgcm]. *)
Definition aesgcm_setup (memory : bool) (m : gmap Z Z) (key : option bytes) (iv : Z) (key_size : nat) : res aesgcm_context :=
  let! static_iv := loadn m iv PTLS_AESGCM_IV_SIZE in
  let static_iv := _mm_shuffle_epi8 static_iv bswap8 in
  match key with
  | None => Ok (mk_aesgcm None static_iv)
  | Some key => let! g := ptls_fusion_aesgcm_new memory key key_size 1500 in Ok (mk_aesgcm g static_iv)
  end.
Definition aes128gcm_setup (memory : bool) (m : gmap Z Z) (key : option bytes) (iv : Z) : res aesgcm_context := aesgcm_setup memory m key iv PTLS_AES128_KEY_SIZE.
Definition aes256gcm_setup (memory : bool) (m : gmap Z Z) (key : option bytes) (iv : Z) : res aesgcm_context := aesgcm_setup memory m key iv PTLS_AES256_KEY_SIZE.

(** ** The processor: the results of [cpuid] *)

Definition ptls_fusion_is_supported_by_cpu (leaf_cnt leaf1_ecx leaf7_ebx : Z) : bool :=
  if leaf_cnt <? 7 then false
  else if Z.land leaf7_ebx (Z.shiftl 1 5) =? 0 then false
  else if Z.land leaf1_ecx (Z.shiftl 1 25) =? 0 then false
  else if Z.land leaf1_ecx (Z.shiftl 1 1) =? 0 then false
  else true.

(** ** Nonces *)

(** The nonce of a record: RFC 8446, section 5.3 *)
Definition fusion_nonce (iv : bytes) (seq : Z) : bytes := take 4 iv ++ xor_list (drop 4 iv) (be 8 seq).
Lemma fusion_nonce_built iv seq : length iv = 12%nat -> is_bytes iv -> ptls_aead__build_iv PTLS_AESGCM_IV_SIZE iv seq = Ok (fusion_nonce iv seq).
Proof. intros Hl Hb. by rewrite build_iv_spec by (done || unfold PTLS_AESGCM_IV_SIZE; lia). Qed.
Lemma fusion_nonce_ok iv seq : length iv = 12%nat -> is_bytes iv -> length (fusion_nonce iv seq) = 12%nat /\ is_bytes (fusion_nonce iv seq).
Proof.
  intros Hl Hb. unfold fusion_nonce, xor_list. split; [rewrite length_app, length_zip_with, length_take, length_drop, length_be; lia|].
  apply Forall_app_2; [by apply Forall_take | apply xor_bytes; [by apply Forall_drop | apply be_bytes]].
Qed.

Lemma static_iv_spec m p iv :
  paged m -> octets m -> holds_at m p iv -> length iv = 12%nat -> is_bytes iv ->
  exists v, loadn m p PTLS_AESGCM_IV_SIZE = Ok v /\ _mm_shuffle_epi8 v bswap8 = replicate 4 0 ++ rev iv.
Proof.
  intros Hp Ho Hh Hl Hb. eexists. split; [unfold PTLS_AESGCM_IV_SIZE; rewrite <- Hl; by apply loadn_spec; [..|lia]|]. rewrite Hl.
  rewrite bswap_rev by (split; [rewrite length_app, length_replicate; lia | apply Forall_app_2; [done | by apply Forall_replicate]]). by rewrite rev_app_distr.
Qed.

Lemma zip_rev (a b : bytes) : length b = length a -> zip_with Z.lxor (rev a) (rev b) = rev (zip_with Z.lxor a b).
Proof.
  revert b. induction a as [|x a IH]; intros [|y b] H; try discriminate; [done|]. cbn [rev zip_with]. injection H as H. rewrite zip_with_app by (by rewrite !length_rev). by rewrite IH.
Qed.

Lemma counter_spec iv seq : length iv = 12%nat -> calc_counter (replicate 4 0 ++ rev iv) seq = creg (fusion_nonce iv seq) 0.
Proof.
  intros Hl. unfold calc_counter, creg, fusion_nonce, xor_list. change (le 4 (Z.of_nat 0)) with (replicate 4 0).
  assert (Es : _mm_slli_si128 (_mm_insert_epi64 _mm_setzero_si128 seq 0) 4 = replicate 4 0 ++ le 8 seq ++ replicate 4 0).
  { unfold _mm_slli_si128, _mm_insert_epi64. change (take (8 * 0) _mm_setzero_si128) with (@nil Z). change (drop (8 * 0 + 8) _mm_setzero_si128) with (replicate 8 0). cbn [app].
    change (replicate 8 0) with (replicate 4 0 ++ replicate 4 0). rewrite !app_assoc. apply take_app_length'. by rewrite !length_app, length_le. }
  rewrite Es. unfold _mm_xor_si128. rewrite zip_with_app by done. f_equal. rewrite <- (take_drop 4 iv) at 1. rewrite !rev_app_distr.
  rewrite zip_with_app by (by rewrite length_rev, length_drop, length_le, Hl). rewrite <- rev_le. f_equal.
  - rewrite <- (rev_involutive (le 8 seq)) at 1. apply zip_rev. by rewrite length_rev, length_le, length_drop, Hl.
  - assert (H4 : length (take 4 iv) = 4%nat) by (rewrite length_take; lia). destruct (take 4 iv) as [|a [|b [|c [|d [|]]]]]; try discriminate. cbn. by rewrite !Z.lxor_0_r.
Qed.

(** ** Contexts *)

Record fusion_ready (key iv : bytes) (ctx : aesgcm_context) : Prop := {
  fr_iv : length iv = 12%nat /\ is_bytes iv;
  fr_static : fa_static_iv ctx = replicate 4 0 ++ rev iv;
  fr_gcm : exists g, fa_aesgcm ctx = Some g /\ gcm_ready key g /\ fg_capacity g = 1500%nat /\ fg_ghash_cnt g = aesgcm_calc_ghash_cnt 1500
}.

Lemma setup_ready key iv ms ivp :
  fusion_key key -> length iv = 12%nat -> is_bytes iv -> paged ms -> octets ms -> holds_at ms ivp iv ->
  exists ctx, aesgcm_setup true ms (Some key) ivp (length key) = Ok ctx /\ fusion_ready key iv ctx.
Proof.
  intros Hk Hl Hb Hp Ho Hiv. unfold aesgcm_setup. destruct (static_iv_spec ms ivp iv Hp Ho Hiv Hl Hb) as (v & -> & Es). cbn [res_bind].
  destruct (fusion_new_spec key 1500 Hk) as (g & -> & Hg & Hc & Hn & _). cbn [res_bind]. eexists. split; [reflexivity|]. constructor; [done | done | by exists g].
Qed.

(** The table is long enough for whatever the capacity admits. *)
Lemma table_fits a b c : (a + b <= c)%nat -> ((a + 15) / 16 + (b + 15) / 16 + 1 <= aesgcm_calc_ghash_cnt c)%nat.
Proof.
  intros H. unfold aesgcm_calc_ghash_cnt. pose proof (Nat.div_mod (a + 15) 16 ltac:(lia)). pose proof (Nat.div_mod (b + 15) 16 ltac:(lia)). pose proof (Nat.div_mod (c + 15) 16 ltac:(lia)).
  pose proof (Nat.mod_upper_bound (a + 15) 16 ltac:(lia)). pose proof (Nat.mod_upper_bound (b + 15) 16 ltac:(lia)). pose proof (Nat.mod_upper_bound (c + 15) 16 ltac:(lia)). lia.
Qed.
Lemma ready_table key g a b :
  gcm_ready key g -> fg_ghash_cnt g = aesgcm_calc_ghash_cnt 1500 -> (a + b <= 1500)%nat -> table_ok (hash_key key) (fg_ghash g) ((a + 15) / 16 + (b + 15) / 16 + 1).
Proof. intros Hg Hc Hab i Hi. apply (gr_table _ _ Hg). pose proof (table_fits a b 1500 Hab). lia. Qed.

Lemma reserve_enough memory key iv ctx n :
  fusion_ready key iv ctx -> (n <= 1500)%nat ->
  exists g, fa_reserve memory ctx n = Ok ctx /\ fa_deref ctx = Ok g /\ gcm_ready key g /\ fg_ghash_cnt g = aesgcm_calc_ghash_cnt 1500.
Proof.
  intros [_ _ (g & E & Hg & Hc & Hn)] Hle. exists g. unfold fa_reserve, fa_deref. rewrite E. cbn [res_bind]. rewrite Hc, (proj2 (Nat.ltb_ge _ _)) by lia. done.
Qed.

(** ** Sealing and opening *)

(** The arguments of a call that seals. *)
Record seal_args (key : bytes) (m0 : memory) (output input : Z) (text : bytes) (aad : Z) (ad : bytes)
    (supp : option ptls_aead_supplementary_encryption_t) (skey : bytes) : Prop := {
  sa_bytes : is_bytes text /\ is_bytes ad;
  sa_fits : (length text + length ad <= 1500)%nat;
  sa_paged : paged m0;
  sa_octets : octets m0;
  sa_in : holds_at m0 input text;
  sa_aad : holds_at m0 aad ad;
  sa_out : mapped m0 output (length text + 16);
  sa_over : output <= input \/ input + Z.of_nat (length text) <= output;
  sa_aad_apart : apart aad (Z.of_nat (length ad)) output (Z.of_nat (length text));
  sa_supp : match supp with
            | None => True
            | Some sp =>
                ecb_ready skey (ctr_fusion (supp_ctx sp)) /\ length skey = length key /\ mapped m0 (supp_input sp) 16 /\ mapped m0 (supp_output sp) 16 /\
                apart (supp_output sp) 16 output (Z.of_nat (length text + 16)) /\ apart (supp_output sp) 16 input (Z.of_nat (length text)) /\
                apart (supp_output sp) 16 aad (Z.of_nat (length ad)) /\ apart (supp_output sp) 16 (supp_input sp) 16
            end
}.

Lemma seal_spec key iv ctx memory seq m0 output input text aad ad supp skey :
  fusion_ready key iv ctx -> seal_args key m0 output input text aad ad supp skey ->
  let nonce := fusion_nonce iv seq in
  let c := gcm_crypt (fips_aes key) nonce text in
  exists m', aead_do_encrypt memory ctx m0 output input (length text) seq aad (length ad) supp = Ok (ctx, m') /\
    holds_at m' output (c ++ gcm_tag (fips_aes key) nonce ad c 16) /\ supp_result supp skey m' /\ untouched supp m0 output text m'.
Proof.
  intros Hr [S1 S2 S3 S4 S5 S6 S7 S8 S9 S10] nonce c. pose proof Hr as [[Hl Hb] Hst _]. destruct (reserve_enough memory key iv ctx (length text + length ad) Hr S2) as (g & E1 & E2 & Hg & Hc).
  unfold aead_do_encrypt. rewrite E1. cbn [res_bind]. rewrite E2. cbn [res_bind]. rewrite Hst, counter_spec by done. fold nonce.
  assert (Hcall : enc_call key g supp skey m0 output input text (creg nonce 0) nonce aad ad).
  { constructor; try done; [apply Hg | by apply (ready_table key); [done | done | lia] | by apply fusion_nonce_ok | split; lia]. }
  destruct (fusion_encrypt_spec _ _ _ _ _ _ _ _ _ _ _ _ Hcall) as (m' & -> & H1 & H2 & H3). cbn [res_bind]. by exists m'.
Qed.

(** The arguments of a call that opens the ciphertext [c] with the tag [t]. *)
Record open_args (m0 : memory) (output input : Z) (c t : bytes) (aad : Z) (ad : bytes) : Prop := {
  oa_bytes : is_bytes c /\ is_bytes ad;
  oa_tag : length t = 16%nat;
  oa_fits : (length c + length ad <= 1500)%nat;
  oa_paged : paged m0;
  oa_octets : octets m0;
  oa_in : holds_at m0 input (c ++ t);
  oa_aad : holds_at m0 aad ad;
  oa_out : mapped m0 output (length c);
  oa_over : output <= input \/ input + Z.of_nat (length c + 16) <= output;
  oa_aad_apart : apart aad (Z.of_nat (length ad)) output (Z.of_nat (length c))
}.

Lemma open_spec key iv ctx memory seq m0 output input c t aad ad :
  fusion_ready key iv ctx -> open_args m0 output input c t aad ad ->
  let nonce := fusion_nonce iv seq in
  exists m', aead_do_decrypt memory ctx m0 output input (length (c ++ t)) seq aad (length ad) =
      Ok (ctx, m', if bool_decide (t = gcm_tag (fips_aes key) nonce ad c 16) then Some (length c) else None) /\
    holds_at m' output (gcm_crypt (fips_aes key) nonce c) /\ (forall a, ~ (output <= a < output + Z.of_nat (length c)) -> m' !! a = m0 !! a).
Proof.
  intros Hr [O1 O2 O3 O4 O5 O6 O7 O8 O9 O10] nonce. pose proof Hr as [[Hl Hb] Hst _]. destruct (reserve_enough memory key iv ctx (length c + length ad) Hr O3) as (g & E1 & E2 & Hg & Hc).
  unfold aead_do_decrypt. rewrite length_app, O2, (proj2 (Nat.ltb_ge _ _)) by lia. replace (length c + 16 - 16)%nat with (length c) by lia. rewrite E1. cbn [res_bind]. rewrite E2. cbn [res_bind]. rewrite Hst, counter_spec by done. fold nonce.
  apply holds_at_app in O6 as [Oc Ot].
  assert (Hcall : dec_call key g m0 output input c nonce aad ad (input + Z.of_nat (length c)) t).
  { constructor; try done; [apply Hg | by apply (ready_table key); [done | done | lia] | by apply fusion_nonce_ok | split; lia | lia | split_and!; [done | done | unfold apart; lia]]. }
  destruct (fusion_decrypt_spec _ _ _ _ _ _ _ _ _ _ _ Hcall) as (m' & -> & H1 & H2). cbn [res_bind]. exists m'. split_and!; [by destruct (bool_decide _) | done | done].
Qed.

(** C6: the fusion engine seals as SP 800-38D says. A context that [aesgcm_setup] built for any
    AES-128 or AES-256 key and any 12-octet IV seals every record of up to 1500 octets (text and
    additional data together) under every sequence number: [aead_do_encrypt] terminates without
    undefined behaviour, writes the AES-GCM ciphertext and tag under the nonce that
    [ptls_aead__build_iv] builds, with the text in place or behind the output, changes no other
    octet, and, when asked to, computes the AES encryption, under a supplementary key of the
    record key's size, of the 16 octets that the sample has in the end, although the sample may lie in the ciphertext that is being written. *)
Theorem fusion_encrypt_is_sp800_38d key iv ms ivp :
  fusion_key key -> length iv = 12%nat -> is_bytes iv -> paged ms -> octets ms -> holds_at ms ivp iv ->
  exists ctx, aesgcm_setup true ms (Some key) ivp (length key) = Ok ctx /\
    forall memory seq m0 output input text aad ad supp skey,
      seal_args key m0 output input text aad ad supp skey ->
      exists nonce m', ptls_aead__build_iv PTLS_AESGCM_IV_SIZE iv seq = Ok nonce /\
        aead_do_encrypt memory ctx m0 output input (length text) seq aad (length ad) supp = Ok (ctx, m') /\
        (let c := gcm_crypt (fips_aes key) nonce text in holds_at m' output (c ++ gcm_tag (fips_aes key) nonce ad c 16)) /\
        supp_result supp skey m' /\ untouched supp m0 output text m'.
Proof.
  intros Hk Hl Hb Hp Ho Hiv. destruct (setup_ready key iv ms ivp Hk Hl Hb Hp Ho Hiv) as (ctx & Es & Hr). exists ctx. split; [done|]. intros memory seq m0 output input text aad ad supp skey Hs.
  destruct (seal_spec key iv ctx memory seq m0 output input text aad ad supp skey Hr Hs) as (m' & E & H1 & H2 & H3).
  exists (fusion_nonce iv seq), m'. split_and!; [by apply fusion_nonce_built | exact E | exact H1 | exact H2 | exact H3].
Qed.

(** C7: the fusion engine opens as SP 800-38D says. A context that [aesgcm_setup] built opens
    every record of up to 1500 octets: [aead_do_decrypt] terminates without undefined behaviour,
    returns the length of the plaintext if the tag is the one of the ciphertext and the
    additional data under the nonce of the record and [SIZE_MAX] otherwise, writes the
    decryption to the output, in place too, and changes no other octet; an input shorter than
    a tag is refused. *)
Theorem fusion_decrypt_is_sp800_38d key iv ms ivp :
  fusion_key key -> length iv = 12%nat -> is_bytes iv -> paged ms -> octets ms -> holds_at ms ivp iv ->
  exists ctx, aesgcm_setup true ms (Some key) ivp (length key) = Ok ctx /\
    (forall memory seq m0 output input c t aad ad,
      open_args m0 output input c t aad ad ->
      exists nonce m', ptls_aead__build_iv PTLS_AESGCM_IV_SIZE iv seq = Ok nonce /\
        aead_do_decrypt memory ctx m0 output input (length (c ++ t)) seq aad (length ad) =
          Ok (ctx, m', if bool_decide (t = gcm_tag (fips_aes key) nonce ad c 16) then Some (length c) else None) /\
        holds_at m' output (gcm_crypt (fips_aes key) nonce c) /\ (forall a, ~ (output <= a < output + Z.of_nat (length c)) -> m' !! a = m0 !! a)) /\
    (forall memory seq m0 output input inlen aad aadlen, (inlen < 16)%nat -> aead_do_decrypt memory ctx m0 output input inlen seq aad aadlen = Ok (ctx, m0, None)).
Proof.
  intros Hk Hl Hb Hp Ho Hiv. destruct (setup_ready key iv ms ivp Hk Hl Hb Hp Ho Hiv) as (ctx & Es & Hr). exists ctx. split; [done|]. split.
  - intros memory seq m0 output input c t aad ad Ha. destruct (open_spec key iv ctx memory seq m0 output input c t aad ad Hr Ha) as (m' & E & H1 & H2).
    exists (fusion_nonce iv seq), m'. split_and!; [by apply fusion_nonce_built | exact E | exact H1 | exact H2].
  - intros. unfold aead_do_decrypt. by rewrite (proj2 (Nat.ltb_lt _ _)).
Qed.

(** ** Header protection *)

Lemma xor_comm (a b : bytes) : zip_with Z.lxor a b = zip_with Z.lxor b a.
Proof. revert b. induction a as [|x a IH]; intros [|y b]; try done. cbn [zip_with]. by rewrite IH, Z.lxor_comm. Qed.

(** C39: counter mode of the fusion engine. After [aesctr_setup] and [ctr_init], one call of
    [ctr_transform] on 1 to 16 octets writes the input xored with the AES encryption of the IV
    and changes nothing else; [loadn] may read behind the end of the input, but touches no page
    that has no octet of it. A second call without a new IV fails the assertion. *)
Theorem ctr_is_aes_ctr key m ivp iv input text output :
  fusion_key key -> paged m -> octets m -> holds_at m ivp iv -> length iv = 16%nat -> holds_at m input text -> (1 <= length text <= 16)%nat -> mapped m output (length text) ->
  exists ctx ctx1 ctx2 m', aesctr_setup key (length key) = Ok ctx /\ ctr_init ctx m ivp = Ok ctx1 /\ ctr_transform ctx1 m output input (length text) = Ok (ctx2, m') /\
    holds_at m' output (zip_with Z.lxor text (fips_aes key iv)) /\
    (forall a, ~ (output <= a < output + Z.of_nat (length text)) -> m' !! a = m !! a) /\
    (forall m2 o i n, ctr_transform ctx2 m2 o i n = Stuck AssertFail).
Proof.
  intros Hk Hp Ho Hiv Hl Ht Hn Hout. unfold aesctr_setup. destruct (fusion_init_spec key Hk) as (ecb & -> & Hr). cbn [res_bind].
  assert (Hbl : forall p bs, holds_at m p bs -> is_bytes bs) by (intros p bs H; apply Forall_lookup; intros i b Hb; exact (Ho _ _ (H i b Hb))).
  destruct (fips_block key ecb Hr iv (conj Hl (Hbl _ _ Hiv))) as [LE _]. set (mask := fips_aes key iv) in *.
  destruct (store_spec m output (zip_with Z.lxor text mask)) as (m' & Em & Hs); [by rewrite length_zip_with, LE, Nat.min_l by lia|].
  assert (Hlen : length (zip_with Z.lxor text mask) = length text) by (rewrite length_zip_with; lia).
  exists (mk_ctrc ecb None false), (mk_ctrc ecb (Some mask) true), (mk_ctrc ecb (Some mask) false), m'. split_and!; [done | | | exact (stored_here _ _ _ _ Hs) | intros a Ha; apply (stored_else _ _ _ _ Hs); lia | done].
  - unfold ctr_init, _mm_loadu_si128. rewrite (load_ok _ _ iv) by done. cbn [res_bind ctr_fusion]. by rewrite (aes_block_spec key ecb Hr) by (split; [done | by apply (Hbl ivp)]).
  - unfold ctr_transform. cbn [ctr_is_ready ctr_fusion ctr_bits andb]. rewrite (proj2 (Nat.leb_le _ _)) by lia. cbn [c_assert res_bind load_bits ctr_bits].
    assert (Ex : forall v, take (length text) v = text -> take (length text) (_mm_xor_si128 mask v) = zip_with Z.lxor text mask).
    { intros v Ev. unfold _mm_xor_si128. rewrite xor_comm, take_xor. by rewrite Ev. }
    destruct (Nat.ltb_spec (length text) 16) as [Hlt|Hge].
    + rewrite loadn_spec by (done || lia). cbn [res_bind]. unfold storen. rewrite Ex by (by rewrite take_app_length). by rewrite Em.
    + unfold _mm_loadu_si128, _mm_storeu_si128. rewrite (load_ok _ _ text) by (done || lia). cbn [res_bind]. specialize (Ex text (firstn_all text)).
      rewrite take_ge in Ex by (unfold _mm_xor_si128; rewrite length_zip_with; lia). by rewrite Ex, Em.
Qed.

(** Nothing to transform: the mask is read from behind [loadn_mask]. *)
Lemma ctr_empty_overreads ecb bits m output input : ctr_transform (mk_ctrc ecb (Some bits) true) m output input 0 = Stuck OutOfBounds.
Proof. done. Qed.

(** ** The capacity *)

(** C40: [ptls_fusion_aesgcm_set_capacity] enlarges the table of powers without filling it. For a
    context that [ptls_fusion_aesgcm_new] built and any capacity that needs more entries, the
    call succeeds and records the new capacity, so that it is not repeated, but the condition of
    its loop is the wrong way round: no entry is computed, and the first step of GHASH on a
    record that needs one of the new entries reads memory that was never written. *)
Theorem capacity_not_extended key capacity capacity' :
  fusion_key key -> (aesgcm_calc_ghash_cnt capacity < aesgcm_calc_ghash_cnt capacity')%nat ->
  exists ctx ctx', ptls_fusion_aesgcm_new true key (length key) capacity = Ok (Some ctx) /\
    ptls_fusion_aesgcm_set_capacity true ctx capacity' = Ok (Some ctx') /\
    fg_capacity ctx' = capacity' /\ fg_ghash_cnt ctx' = aesgcm_calc_ghash_cnt capacity /\ length (fg_ghash ctx') = aesgcm_calc_ghash_cnt capacity' /\
    (forall a n X g, let entries := ((a + 15) / 16 + (n + 15) / 16 + 1)%nat in
      (aesgcm_calc_ghash_cnt capacity < entries <= aesgcm_calc_ghash_cnt capacity')%nat -> feed_one ctx' X g entries = Stuck Uninitialized).
Proof.
  intros Hk Hlt. destruct (fusion_new_spec key capacity Hk) as (ctx & En & _ & Hc & Hn & Hl). exists ctx. unfold ptls_fusion_aesgcm_set_capacity.
  rewrite Hn, (proj2 (Nat.leb_gt _ _)) by done. cbn [negb]. rewrite Hl. set (cnt := aesgcm_calc_ghash_cnt capacity) in *. set (cnt' := aesgcm_calc_ghash_cnt capacity') in *.
  destruct cnt' as [|fuel] eqn:Ec; [lia|]. cbn [capacity_loop fg_ghash_cnt]. rewrite (proj2 (Nat.ltb_ge _ _)) by lia. cbn [res_bind]. eexists. split; [done|]. split; [reflexivity|]. cbn [fg_capacity fg_ghash_cnt fg_ghash].
  split_and!; [done | done | rewrite length_app, length_replicate; lia |]. intros a n X g. generalize ((a + 15) / 16 + (n + 15) / 16 + 1)%nat. intros entries He. destruct entries as [|i]; [lia|]. cbn [feed_one fg_ghash]. unfold get_entry.
  rewrite lookup_app_r by lia. by rewrite lookup_replicate_2 by lia.
Qed.

(** ** Witnesses *)

(** Two pages of zeros *)
Definition zero_pages : memory := gset_to_gmap 0 (list_to_set (seqZ 0 8192)).
Lemma zero_lookup a : zero_pages !! a = if decide (0 <= a < 8192) then Some 0 else None.
Proof.
  unfold zero_pages. destruct (decide (0 <= a < 8192)) as [H|H].
  - apply lookup_gset_to_gmap_Some. split; [|done]. apply elem_of_list_to_set, elem_of_seqZ. lia.
  - apply lookup_gset_to_gmap_None. intros Hin. apply elem_of_list_to_set, elem_of_seqZ in Hin. lia.
Qed.
Lemma zero_mapped p n : 0 <= p -> p + Z.of_nat n <= 8192 -> mapped zero_pages p n.
Proof. intros H1 H2 i Hi. rewrite zero_lookup. destruct (decide _); [by eexists | lia]. Qed.
Lemma zero_holds p n : 0 <= p -> p + Z.of_nat n <= 8192 -> holds_at zero_pages p (replicate n 0).
Proof. intros H1 H2 i b Hb. apply lookup_replicate in Hb as [-> Hi]. rewrite zero_lookup. destruct (decide _); [done | lia]. Qed.
Lemma zero_paged : paged zero_pages.
Proof.
  intros a b Hab. rewrite !zero_lookup. destruct (decide (0 <= a < 8192)); [|by intros []]. intros _. destruct (decide (0 <= b < 8192)); [by eexists|].
  unfold page_size in Hab. exfalso. modlia.
Qed.
Lemma zero_octets : octets zero_pages.
Proof. intros a b. rewrite zero_lookup. destruct (decide _); [|done]. intros [= <-]. done. Qed.
Lemma zero_key : fusion_key (replicate 16 0).
Proof. split; [by left | by apply Forall_replicate]. Qed.

(** Sealing 20 octets in place, with 5 octets of additional data. *)
Lemma zero_seal_args : seal_args (replicate 16 0) zero_pages 100 100 (replicate 20 0) 200 (replicate 5 0) None [].
Proof.
  constructor; rewrite ?length_replicate.
  - split; by apply Forall_replicate.
  - lia.
  - apply zero_paged.
  - apply zero_octets.
  - apply zero_holds; lia.
  - apply zero_holds; lia.
  - apply zero_mapped; lia.
  - lia.
  - right. lia.
  - exact I.
Qed.
Lemma zero_open_args : open_args zero_pages 100 100 (replicate 20 0) (replicate 16 0) 200 (replicate 5 0).
Proof.
  constructor; rewrite ?length_replicate.
  - split; by apply Forall_replicate.
  - lia.
  - lia.
  - apply zero_paged.
  - apply zero_octets.
  - rewrite <- replicate_add. apply zero_holds; lia.
  - apply zero_holds; lia.
  - apply zero_mapped; lia.
  - lia.
  - right. lia.
Qed.

Lemma fusion_encrypt_is_sp800_38d_witness :
  exists ctx nonce m', aesgcm_setup true zero_pages (Some (replicate 16 0)) 300 16 = Ok ctx /\ ptls_aead__build_iv PTLS_AESGCM_IV_SIZE (replicate 12 0) 7 = Ok nonce /\
    aead_do_encrypt true ctx zero_pages 100 100 20 7 200 5 None = Ok (ctx, m') /\
    (let c := gcm_crypt (fips_aes (replicate 16 0)) nonce (replicate 20 0) in holds_at m' 100 (c ++ gcm_tag (fips_aes (replicate 16 0)) nonce (replicate 5 0) c 16)).
Proof.
  destruct (fusion_encrypt_is_sp800_38d (replicate 16 0) (replicate 12 0) zero_pages 300) as (ctx & Es & H);
    [apply zero_key | done | by apply Forall_replicate | apply zero_paged | apply zero_octets | apply zero_holds; lia|].
  destruct (H true 7 zero_pages 100 100 (replicate 20 0) 200 (replicate 5 0) None [] zero_seal_args) as (nonce & m' & H1 & H2 & H3 & _). exists ctx, nonce, m'. split_and!; [exact Es | exact H1 | exact H2 | exact H3].
Defined.

Lemma fusion_decrypt_is_sp800_38d_witness :
  exists ctx nonce m' r, aesgcm_setup true zero_pages (Some (replicate 16 0)) 300 16 = Ok ctx /\ ptls_aead__build_iv PTLS_AESGCM_IV_SIZE (replicate 12 0) 7 = Ok nonce /\
    aead_do_decrypt true ctx zero_pages 100 100 36 7 200 5 = Ok (ctx, m', r) /\ holds_at m' 100 (gcm_crypt (fips_aes (replicate 16 0)) nonce (replicate 20 0)).
Proof.
  destruct (fusion_decrypt_is_sp800_38d (replicate 16 0) (replicate 12 0) zero_pages 300) as (ctx & Es & H & _);
    [apply zero_key | done | by apply Forall_replicate | apply zero_paged | apply zero_octets | apply zero_holds; lia|].
  destruct (H true 7 zero_pages 100 100 (replicate 20 0) (replicate 16 0) 200 (replicate 5 0) zero_open_args) as (nonce & m' & H1 & H2 & H3 & _).
  change (length (replicate 20 0 ++ replicate 16 0)) with 36%nat in H2. change (length (replicate 5 0)) with 5%nat in H2.
  destruct (bool_decide _) in H2; (exists ctx, nonce, m'; eexists; split; [exact Es|]; split; [exact H1|]; split; [exact H2 | exact H3]).
Defined.

Lemma ctr_is_aes_ctr_witness :
  exists ctx ctx1 ctx2 m', aesctr_setup (replicate 16 0) 16 = Ok ctx /\ ctr_init ctx zero_pages 300 = Ok ctx1 /\ ctr_transform ctx1 zero_pages 100 4090 5 = Ok (ctx2, m') /\
    holds_at m' 100 (zip_with Z.lxor (replicate 5 0) (fips_aes (replicate 16 0) (replicate 16 0))).
Proof.
  destruct (ctr_is_aes_ctr (replicate 16 0) zero_pages 300 (replicate 16 0) 4090 (replicate 5 0) 100) as (ctx & ctx1 & ctx2 & m' & H1 & H2 & H3 & H4 & _);
    [apply zero_key | apply zero_paged | apply zero_octets | apply zero_holds; lia | done | apply zero_holds; lia | rewrite length_replicate; lia | apply zero_mapped; rewrite ?length_replicate; lia|].
  exists ctx, ctx1, ctx2, m'. split_and!; [exact H1 | exact H2 | exact H3 | exact H4].
Defined.

Lemma capacity_not_extended_witness :
  exists ctx ctx', ptls_fusion_aesgcm_new true (replicate 16 0) 16 100 = Ok (Some ctx) /\ ptls_fusion_aesgcm_set_capacity true ctx 165 = Ok (Some ctx') /\
    fg_capacity ctx' = 165%nat /\ feed_one ctx' (replicate 16 0) gfmul_zero ((5 + 15) / 16 + (160 + 15) / 16 + 1) = Stuck Uninitialized.
Proof.
  destruct (capacity_not_extended (replicate 16 0) 100 165) as (ctx & ctx' & H1 & H2 & H3 & _ & _ & H4); [apply zero_key | apply Nat.ltb_lt; vm_compute; reflexivity|].
  exists ctx, ctx'. split; [exact H1|]. split; [exact H2|]. split; [exact H3|].
  refine (H4 5%nat 160%nat (replicate 16 0) gfmul_zero _). split; [apply Nat.ltb_lt | apply Nat.leb_le]; vm_compute; reflexivity.
Defined.
