(* ===== verification/Record.v ===== *)
(** * Record: the record layer of [lib/picotls.c]

    Protection of records with an AEAD, the fragmentation of outgoing data into
    records, the reassembly of incoming records from arbitrary segments, and the
    removal of padding.

    Main results: what [buffer_encrypt_record] and [buffer_push_encrypted_records]
    write is read back by [parse_record] and [aead_decrypt] record by record, the
    in-place path of [buffer_encrypt_record] writes what the general path does,
    and how the input is segmented has no influence on the records found in it. *)
From S2P Require Import Prelude Constants Wire Crypto.

Record st_ptls_traffic_protection_t := mk_tp {
  tp_secret : bytes;
  tp_epoch : nat;
  tp_aead : option ptls_aead_context_t;
  tp_seq : Z
}.

Definition tp_zero : st_ptls_traffic_protection_t := mk_tp (replicate PTLS_MAX_DIGEST_SIZE 0) 0 None 0.

(** ** Protection *)

Definition build_aad (reclen : Z) : bytes :=
  [PTLS_CONTENT_TYPE_APPDATA; PTLS_RECORD_VERSION_MAJOR; PTLS_RECORD_VERSION_MINOR; u8 (Z.shiftr reclen 8); u8 reclen].

(** The octets written to [output], and the context with its counter advanced. *)
Definition aead_encrypt (ctx : st_ptls_traffic_protection_t) (input : bytes) (content_type : Z)
    : res (bytes * st_ptls_traffic_protection_t) :=
  match tp_aead ctx with
  | None => Stuck NullDeref
  | Some aead =>
      let a := aead_algo aead in
      let aad := build_aad (Z.of_nat (length input + 1 + tag_size a)) in
      let output := seal2 a (aead_key aead) (aead_iv aead) (tp_seq ctx) aad input [content_type] in
      Ok (output, mk_tp (tp_secret ctx) (tp_epoch ctx) (tp_aead ctx) (u64 (tp_seq ctx + 1)))
  end.

(** A failure leaves the counter alone. *)
Definition aead_decrypt (ctx : st_ptls_traffic_protection_t) (input : bytes) : res (bytes * st_ptls_traffic_protection_t) :=
  match tp_aead ctx with
  | None => Stuck NullDeref
  | Some aead =>
      let aad := build_aad (Z.of_nat (length input)) in
      match do_decrypt (aead_algo aead) (aead_key aead) (aead_iv aead) (tp_seq ctx) aad input with
      | None => Err PTLS_ALERT_BAD_RECORD_MAC
      | Some output => Ok (output, mk_tp (tp_secret ctx) (tp_epoch ctx) (tp_aead ctx) (u64 (tp_seq ctx + 1)))
      end
  end.

(** ** Writing records *)

(** What [buffer_push_record(buf, type, { push body })] appends. *)
Definition buffer_push_record (type : Z) (body : bytes) : bytes :=
  [u8 type; PTLS_RECORD_VERSION_MAJOR; PTLS_RECORD_VERSION_MINOR] ++ push_block 2 body.

(** [while (len != 0)]: one record per chunk of at most
    [PTLS_MAX_PLAINTEXT_RECORD_SIZE] octets. *)
Fixpoint push_encrypted_loop (fuel : nat) (buf : bytes) (type : Z) (src : bytes) (enc : st_ptls_traffic_protection_t)
    : res (bytes * st_ptls_traffic_protection_t) :=
  if (length src =? 0)%nat then Ok (buf, enc)
  else match fuel with
  | O => Stuck OutOfFuel
  | S fuel =>
      let chunk_size := Nat.min (length src) (Z.to_nat PTLS_MAX_PLAINTEXT_RECORD_SIZE) in
      let! '(ct, enc) := aead_encrypt enc (take chunk_size src) type in
      push_encrypted_loop fuel (buf ++ buffer_push_record PTLS_CONTENT_TYPE_APPDATA ct) type (drop chunk_size src) enc
  end.

Definition buffer_push_encrypted_records (buf : bytes) (type : Z) (src : bytes) (enc : st_ptls_traffic_protection_t)
    : res (bytes * st_ptls_traffic_protection_t) :=
  push_encrypted_loop (length src) buf type src enc.

(** [buf] holds a plaintext record from [rec_start] on. *)
Definition buffer_encrypt_record (buf : bytes) (rec_start : nat) (enc : st_ptls_traffic_protection_t)
    : res (bytes * st_ptls_traffic_protection_t) :=
  let bodylen := (length buf - rec_start - 5)%nat in
  let! type := rd buf rec_start in
  let body := slice buf (rec_start + 5) (rec_start + 5 + bodylen) in
  if Z.of_nat bodylen <=? PTLS_MAX_PLAINTEXT_RECORD_SIZE then
    match tp_aead enc with
    | None => Stuck NullDeref
    | Some aead =>
        let overhead := (1 + tag_size (aead_algo aead))%nat in
        let! '(ct, enc) := aead_encrypt enc body type in
        let encrypted_len := length ct in
        let! _ := c_assert (encrypted_len =? bodylen + overhead)%nat in
        let buf := take (rec_start + 5) buf ++ ct in
        let buf := <[rec_start := PTLS_CONTENT_TYPE_APPDATA]> buf in
        let buf := <[(rec_start + 3)%nat := Z.land (Z.shiftr (Z.of_nat encrypted_len) 8) 0xff]> buf in
        let buf := <[(rec_start + 4)%nat := Z.land (Z.of_nat encrypted_len) 0xff]> buf in
        Ok (buf, enc)
    end
  else buffer_push_encrypted_records (take rec_start buf) type body enc.

(** ** The message emitter of the record layer *)

(** The record header is a placeholder until the message is committed; the new
    contents of the buffer and [rec_start]. *)
Definition begin_record_message (buf : bytes) : bytes * nat :=
  (buf ++ [PTLS_CONTENT_TYPE_HANDSHAKE; PTLS_RECORD_VERSION_MAJOR; PTLS_RECORD_VERSION_MINOR; 0; 0], length buf).

Definition commit_record_message (buf : bytes) (rec_start : nat) (enc : st_ptls_traffic_protection_t)
    : res (bytes * st_ptls_traffic_protection_t) :=
  match tp_aead enc with
  | Some _ => buffer_encrypt_record buf rec_start enc
  | None =>
      let sz := (length buf - rec_start - 5)%nat in
      let! _ := c_assert (Z.of_nat sz <=? PTLS_MAX_PLAINTEXT_RECORD_SIZE) in
      let buf := <[(rec_start + 3)%nat := u8 (Z.shiftr (Z.of_nat sz) 8)]> buf in
      let buf := <[(rec_start + 4)%nat := u8 (Z.of_nat sz)]> buf in
      Ok (buf, enc)
  end.

(** ** Reading records *)

Record st_ptls_record_t := mk_rec {
  rec_type : Z;
  rec_version : Z;
  rec_length : nat;
  rec_fragment : option bytes
}.

Definition rec_zero : st_ptls_record_t := mk_rec 0 0 0 None.

(** The code returned, and the header fields. *)
Definition parse_record_header (src : bytes) : res (Z * st_ptls_record_t) :=
  let! type := rd src 0 in
  let! version := ntoh16 src 1 in
  let! len := ntoh16 src 3 in
  let rec := mk_rec type version (Z.to_nat len) None in
  if (if type =? PTLS_CONTENT_TYPE_APPDATA then PTLS_MAX_ENCRYPTED_RECORD_SIZE else PTLS_MAX_PLAINTEXT_RECORD_SIZE) <? len
  then Ok (PTLS_ALERT_DECODE_ERROR, rec) else Ok (0, rec).

(** [while (recvbuf.off < 5) { if (src == end) return IN_PROGRESS; *base[off++] = *src++ }]:
    whether the header is complete, the buffer, and the rest of the input. *)
Fixpoint fill_header (missing : nat) (buf src : bytes) : bool * bytes * bytes :=
  match missing with
  | O => (true, buf, src)
  | S missing =>
      match src with
      | [] => (false, buf, [])
      | b :: src => fill_header missing (buf ++ [b]) src
      end
  end.

(** The slow path, on the octets [buf] received so far and the new input: the
    code returned, the record, the buffer, and the value of [*len]. *)
Definition parse_record_slow (buf src : bytes) : res (Z * st_ptls_record_t * bytes * nat) :=
  let len := length src in
  let '(filled, buf, src) := fill_header (5 - length buf) buf src in
  if negb filled then Ok (PTLS_ERROR_IN_PROGRESS, rec_zero, buf, len)
  else
    let! '(ret, rec) := parse_record_header buf in
    if negb (ret =? 0) then Ok (ret, rec, buf, len)
    else
      let addlen := (rec_length rec + 5 - length buf)%nat in
      let addlen := Nat.min addlen (length src) in
      let buf := buf ++ take addlen src in
      let src := drop addlen src in
      if (length buf =? rec_length rec + 5)%nat then
        Ok (0, mk_rec (rec_type rec) (rec_version rec) (rec_length rec) (Some (drop 5 buf)), buf, (len - length src)%nat)
      else Ok (PTLS_ERROR_IN_PROGRESS, rec, buf, (len - length src)%nat).

(** [recvbuf] is [tls->recvbuf.rec], [None] when its base is [NULL]. *)
Definition parse_record (recvbuf : option bytes) (src : bytes) : res (Z * st_ptls_record_t * option bytes * nat) :=
  let len := length src in
  let slow (_ : unit) :=
    let! '(ret, rec, buf, consumed) := parse_record_slow (default [] recvbuf) src in
    Ok (ret, rec, Some buf, consumed) in
  match recvbuf with
  | None =>
      if (5 <=? len)%nat then
        let! '(ret, rec) := parse_record_header src in
        if negb (ret =? 0) then Ok (ret, rec, None, len)
        else if (5 + rec_length rec <=? len)%nat then
          Ok (0, mk_rec (rec_type rec) (rec_version rec) (rec_length rec) (Some (slice src 5 (5 + rec_length rec))),
              None, (rec_length rec + 5)%nat)
        else slow tt
      else slow tt
  | Some _ => slow tt
  end.

(** [for (; rec.length != 0; --rec.length) if (fragment[rec.length - 1] != 0) break;] *)
Fixpoint skip_padding (fragment : bytes) (len : nat) : res nat :=
  match len with
  | O => Ok 0%nat
  | S n => let! b := rd fragment n in if b =? 0 then skip_padding fragment n else Ok (S n)
  end.

(** The content type and the content of a decrypted record. *)
Definition remove_padding (fragment : bytes) : res (Z * bytes) :=
  let! len := skip_padding fragment (length fragment) in
  if (len =? 0)%nat then Err PTLS_ALERT_UNEXPECTED_MESSAGE
  else
    let! type := rd fragment (len - 1) in
    Ok (type, take (len - 1) fragment).

(** ** Reassembly: what the input holds, however it was segmented *)

Inductive found := Incomplete | Malformed | Found (r : st_ptls_record_t).

Definition record_limit (type : Z) : Z :=
  if type =? PTLS_CONTENT_TYPE_APPDATA then PTLS_MAX_ENCRYPTED_RECORD_SIZE else PTLS_MAX_PLAINTEXT_RECORD_SIZE.

(** The first record of an octet string. *)
Definition next_record (s : bytes) : found :=
  match s with
  | t :: v1 :: v2 :: l1 :: l2 :: body =>
      let len := of_be [l1; l2] in
      if record_limit t <? len then Malformed
      else if (length body <? Z.to_nat len)%nat then Incomplete
      else Found (mk_rec t (of_be [v1; v2]) (Z.to_nat len) (Some (take (Z.to_nat len) body)))
  | _ => Incomplete
  end.

Lemma parse_header_spec t v1 v2 l1 l2 body :
  is_bytes (t :: v1 :: v2 :: l1 :: l2 :: body) ->
  parse_record_header (t :: v1 :: v2 :: l1 :: l2 :: body)
  = Ok (if record_limit t <? of_be [l1; l2] then PTLS_ALERT_DECODE_ERROR else 0,
        mk_rec t (of_be [v1; v2]) (Z.to_nat (of_be [l1; l2])) None).
Proof.
  intros Hb. set (s := t :: v1 :: v2 :: l1 :: l2 :: body) in *. unfold parse_record_header.
  change (rd s 0) with (Ok t : res Z). cbn [res_bind].
  assert (Hv : at_mem s 1 [v1; v2]) by (unfold at_mem; done).
  assert (Hl : at_mem s 3 [l1; l2]) by (unfold at_mem; done).
  unfold s in Hb. repeat (apply Forall_cons_1 in Hb as [? Hb]).
  rewrite (ntoh16_at _ _ _ _ Hv), (ntoh16_at _ _ _ _ Hl) by solve_bytes. cbn [res_bind].
  unfold record_limit. by destruct (_ <? of_be _).
Qed.

Lemma fill_header_spec n buf src :
  fill_header n buf src =
    if (n <=? length src)%nat then (true, buf ++ take n src, drop n src) else (false, buf ++ src, []).
Proof.
  revert buf src. induction n as [|n IH]; intros buf src; cbn [fill_header].
  - by rewrite app_nil_r, drop_0.
  - destruct src as [|b src]; [cbn; by rewrite app_nil_r|]. rewrite IH. cbn [length Nat.leb take drop].
    rewrite <- !app_assoc. done.
Qed.

(** The slow path sees the octets received so far followed by the input. *)
Lemma parse_slow_spec buf src :
  is_bytes (buf ++ src) -> next_record buf = Incomplete ->
  exists ret rec buf' n, parse_record_slow buf src = Ok (ret, rec, buf', n) /\
  match next_record (buf ++ src) with
  | Found r => ret = 0 /\ rec = r /\ (length buf + n = rec_length r + 5)%nat
  | Malformed => ret = PTLS_ALERT_DECODE_ERROR
  | Incomplete => ret = PTLS_ERROR_IN_PROGRESS /\ buf' = buf ++ src /\ n = length src
  end.
Proof.
  intros Hb Hinc. unfold parse_record_slow. rewrite fill_header_spec.
  destruct (Nat.leb_spec (5 - length buf) (length src)) as [Hle|Hgt].
  2: { cbn [negb]. do 4 eexists. split; [reflexivity|].
       assert (Hs : (length (buf ++ src) < 5)%nat) by (rewrite length_app; lia).
       assert (Hi : next_record (buf ++ src) = Incomplete)
         by (destruct (buf ++ src) as [|? [|? [|? [|? [|? ?]]]]]; simpl in Hs; done || lia).
       by rewrite Hi. }
  cbn [negb]. set (h := buf ++ take (5 - length buf) src). set (rest := drop (5 - length buf) src).
  assert (Hcat : buf ++ src = h ++ rest) by (unfold h, rest; by rewrite <- app_assoc, take_drop).
  assert (Hlh : (5 <= length h)%nat) by (unfold h; rewrite length_app, length_take; lia).
  rewrite Hcat in Hb |- *. apply Forall_app in Hb as [Hbh Hbr].
  assert (Hlr : (length src = length rest + (5 - length buf))%nat) by (unfold rest; rewrite length_drop; lia).
  assert (Hlh2 : length h = Nat.max 5 (length buf)) by (unfold h; rewrite length_app, length_take; lia).
  assert (Hbh_inc : (5 <= length buf)%nat -> h = buf)
    by (intros; unfold h; replace (5 - length buf)%nat with 0%nat by lia; by rewrite app_nil_r).
  clearbody h rest. destruct h as [|t [|v1 [|v2 [|l1 [|l2 body]]]]]; simpl in Hlh; try lia.
  rewrite parse_header_spec by done. cbn [res_bind]. cbn [app next_record].
  destruct (record_limit t <? of_be [l1; l2]) eqn:Elim; [by do 4 eexists|]. change (negb (0 =? 0)) with false. cbv iota.
  cbn [rec_length rec_type rec_version length]. set (len := Z.to_nat (of_be [l1; l2])) in *.
  assert (Hbody : (length body < len \/ length body = 0)%nat).
  { destruct (le_lt_dec 5 (length buf)) as [Hb5|Hb5]; [|simpl in Hlh2; lia]. rewrite <- (Hbh_inc Hb5) in Hinc.
    cbn [next_record] in Hinc. rewrite Elim in Hinc. fold len in Hinc. destruct (Nat.ltb_spec (length body) len); [lia | done]. }
  set (add := Nat.min (len + 5 - S (S (S (S (S (length body)))))) (length rest)).
  cbn [app]. rewrite length_app. cbn [length]. rewrite length_take.
  destruct (Nat.eqb_spec (S (S (S (S (S (length body + Nat.min add (length rest))))))) (len + 5)) as [E|E].
  - do 4 eexists. split; [reflexivity|]. rewrite length_app.
    destruct (Nat.ltb_spec (length body + length rest) len); [lia|]. split_and!; [done | | rewrite length_drop; simpl in *; lia].
    f_equal. f_equal. cbn [drop]. rewrite take_app, (take_ge body) by lia. rewrite drop_0. f_equal. f_equal. lia.
  - do 4 eexists. split; [reflexivity|]. rewrite length_app.
    destruct (Nat.ltb_spec (length body + length rest) len); [|lia]. cbn [app].
    assert (Hadd : add = length rest) by lia. rewrite Hadd, take_ge, drop_ge by lia. simpl. split_and!; [done | done | lia].
Qed.

Lemma next_record_length s r : next_record s = Found r -> (rec_length r + 5 <= length s)%nat.
Proof.
  destruct s as [|t [|v1 [|v2 [|l1 [|l2 body]]]]]; cbn [next_record]; try done.
  destruct (_ <? _); [done|]. destruct (Nat.ltb_spec (length body) (Z.to_nat (of_be [l1; l2]))); [done|].
  intros [= <-]. cbn [rec_length length]. lia.
Qed.

(** The contract of [parse_record]: only the octets received since the last
    record matter. *)
Lemma parse_record_spec recvbuf src :
  let buf := default [] recvbuf in
  is_bytes (buf ++ src) -> next_record buf = Incomplete ->
  exists ret rec recvbuf' n, parse_record recvbuf src = Ok (ret, rec, recvbuf', n) /\
  match next_record (buf ++ src) with
  | Found r => ret = 0 /\ rec = r /\ (length buf + n = rec_length r + 5)%nat
  | Malformed => ret = PTLS_ALERT_DECODE_ERROR
  | Incomplete => ret = PTLS_ERROR_IN_PROGRESS /\ recvbuf' = Some (buf ++ src) /\ n = length src
  end.
Proof.
  intros buf Hb Hinc. unfold parse_record.
  assert (Hslow : exists ret rec recvbuf' n,
    (let! '(ret, rec, buf, consumed) := parse_record_slow buf src in Ok (ret, rec, Some buf, consumed)) = Ok (ret, rec, recvbuf', n) /\
    match next_record (buf ++ src) with
    | Found r => ret = 0 /\ rec = r /\ (length buf + n = rec_length r + 5)%nat
    | Malformed => ret = PTLS_ALERT_DECODE_ERROR
    | Incomplete => ret = PTLS_ERROR_IN_PROGRESS /\ recvbuf' = Some (buf ++ src) /\ n = length src
    end).
  { destruct (parse_slow_spec buf src Hb Hinc) as (ret & rec & buf' & n & -> & H). do 4 eexists. split; [reflexivity|].
    destruct (next_record (buf ++ src)); [|done..]. destruct H as (-> & -> & ->). done. }
  destruct recvbuf as [rb|]; [exact Hslow|]. subst buf. cbn [default app] in *.
  destruct (Nat.leb_spec 5 (length src)) as [Hlen|Hlen]; [|exact Hslow].
  destruct src as [|t [|v1 [|v2 [|l1 [|l2 body]]]]]; simpl in Hlen; try lia.
  rewrite parse_header_spec by done. cbn [res_bind]. cbn [next_record] in *.
  destruct (record_limit t <? of_be [l1; l2]); [by do 4 eexists|]. change (negb (0 =? 0)) with false. cbv iota.
  cbn [rec_length rec_type rec_version length] in *. set (len := Z.to_nat (of_be [l1; l2])) in *.
  destruct (Nat.leb_spec (5 + len) (S (S (S (S (S (length body))))))) as [Hc|Hc].
  - destruct (Nat.ltb_spec (length body) len); [lia|]. do 4 eexists. split; [reflexivity|].
    split_and!; [done | | simpl; lia]. f_equal. f_equal. unfold slice.
    replace (5 + len - 5)%nat with len by lia. done.
  - exact Hslow.
Qed.

(** Feeding the input segment by segment until a record is complete: the record
    and the segments not consumed. *)
Fixpoint feed (recvbuf : option bytes) (segments : list bytes) : res (option (st_ptls_record_t * list bytes)) :=
  match segments with
  | [] => Ok None
  | seg :: segments =>
      let! '(ret, rec, recvbuf, consumed) := parse_record recvbuf seg in
      if ret =? 0 then Ok (Some (rec, drop consumed seg :: segments))
      else if ret =? PTLS_ERROR_IN_PROGRESS then feed recvbuf segments
      else Err ret
  end.

Lemma next_record_prefix s t : next_record s = Malformed -> next_record (s ++ t) = Malformed.
Proof.
  destruct s as [|t0 [|v1 [|v2 [|l1 [|l2 body]]]]]; cbn [next_record app]; try done.
  destruct (_ <? _); [done|]. by destruct (_ <? _)%nat.
Qed.

Lemma next_record_app s t r : next_record s = Found r -> next_record (s ++ t) = Found r.
Proof.
  destruct s as [|t0 [|v1 [|v2 [|l1 [|l2 body]]]]]; cbn [next_record app]; try done.
  destruct (_ <? _); [done|]. rewrite length_app. destruct (Nat.ltb_spec (length body) (Z.to_nat (of_be [l1; l2]))); [done|].
  destruct (Nat.ltb_spec (length body + length t) (Z.to_nat (of_be [l1; l2]))); [lia|].
  by rewrite take_app_le by lia.
Qed.

Lemma feed_spec segments recvbuf :
  let buf := default [] recvbuf in
  is_bytes (buf ++ concat segments) -> next_record buf = Incomplete ->
  match next_record (buf ++ concat segments) with
  | Found r => exists rest, feed recvbuf segments = Ok (Some (r, rest)) /\
                 concat rest = drop (rec_length r + 5) (buf ++ concat segments)
  | Malformed => feed recvbuf segments = Err PTLS_ALERT_DECODE_ERROR
  | Incomplete => feed recvbuf segments = Ok None
  end.
Proof.
  revert recvbuf. induction segments as [|seg segments IH]; intros recvbuf buf Hb Hinc; cbn [concat feed].
  { rewrite app_nil_r. by rewrite Hinc. }
  cbn [concat] in Hb. rewrite app_assoc in *. apply Forall_app in Hb as [Hb1 Hb2].
  destruct (parse_record_spec recvbuf seg Hb1 Hinc) as (ret & rec & recvbuf' & n & -> & H). fold buf in H. cbn [res_bind].
  destruct (next_record (buf ++ seg)) as [| |r] eqn:E.
  - destruct H as (-> & -> & ->). change (PTLS_ERROR_IN_PROGRESS =? 0) with false.
    change (PTLS_ERROR_IN_PROGRESS =? PTLS_ERROR_IN_PROGRESS) with true. cbv iota.
    apply (IH (Some (buf ++ seg))); [|done]. cbn. by apply Forall_app.
  - subst ret. by rewrite (next_record_prefix _ _ E).
  - destruct H as (-> & -> & Hn). rewrite (next_record_app _ _ _ E). eexists. split; [reflexivity|].
    pose proof (next_record_length _ _ E) as Hl. cbn [concat]. rewrite <- Hn.
    rewrite length_app in Hl. rewrite <- app_assoc, drop_app_add, drop_app_le by lia. done.
Qed.

(** ** Protection and its inverse *)

(** A writer and a reader that share the algorithm, key, IV and counter. *)
Definition paired (e d : st_ptls_traffic_protection_t) : Prop :=
  exists ae ad, tp_aead e = Some ae /\ tp_aead d = Some ad /\ AeadLaws (aead_algo ae) /\
    aead_algo ae = aead_algo ad /\ aead_key ae = aead_key ad /\ aead_iv ae = aead_iv ad /\ tp_seq e = tp_seq d.

Definition advance (tp : st_ptls_traffic_protection_t) : st_ptls_traffic_protection_t :=
  mk_tp (tp_secret tp) (tp_epoch tp) (tp_aead tp) (u64 (tp_seq tp + 1)).

Lemma paired_advance e d : paired e d -> paired (advance e) (advance d).
Proof. intros (ae & ad & H1 & H2 & H3 & H4 & H5 & H6 & H7). exists ae, ad. split_and!; try done. simpl. by rewrite H7. Qed.

Lemma encrypt_decrypt e d input type :
  paired e d -> is_bytes input -> is_byte type ->
  exists ct, aead_encrypt e input type = Ok (ct, advance e) /\ is_bytes ct /\
    (length input + 1 <= length ct <= length input + 256)%nat /\
    aead_decrypt d ct = Ok (input ++ [type], advance d).
Proof.
  intros (ae & ad & He & Hd & Hl & Halg & Hk & Hiv & Hs) Hi Ht. unfold aead_encrypt, aead_decrypt, advance. rewrite He, Hd.
  eexists. split; [reflexivity|].
  pose proof (seal_length (aead_key ae) (aead_iv ae) (tp_seq e)
                (build_aad (Z.of_nat (length input + 1 + tag_size (aead_algo ae)))) input [type]) as Hlen.
  rewrite length_app in Hlen. cbn [length] in Hlen. pose proof (tag_size_max (a := aead_algo ae)).
  split_and!; [apply seal_bytes | lia | lia |].
  rewrite <- Halg, <- Hk, <- Hiv, <- Hs, Hlen, open_seal; [done | done | solve_bytes].
Qed.

Lemma skip_padding_zeros fragment n k :
  (forall i, (n <= i < n + k)%nat -> fragment !! i = Some 0) -> skip_padding fragment (n + k) = skip_padding fragment n.
Proof.
  induction k as [|k IH]; intros H; [by rewrite Nat.add_0_r|].
  replace (n + S k)%nat with (S (n + k)) by lia. cbn [skip_padding]. unfold rd. rewrite H by lia. cbn [res_bind].
  change (0 =? 0) with true. cbv iota. apply IH. intros. apply H. lia.
Qed.

Lemma remove_padding_spec data type n :
  type <> 0 -> remove_padding (data ++ [type] ++ replicate n 0) = Ok (type, data).
Proof.
  intros Ht. unfold remove_padding. set (f := data ++ [type] ++ replicate n 0).
  assert (Hf : length f = (S (length data) + n)%nat) by (unfold f; rewrite !length_app, length_replicate; simpl; lia).
  assert (Htype : f !! length data = Some type) by (unfold f; rewrite lookup_app_r, Nat.sub_diag by lia; done).
  rewrite Hf, skip_padding_zeros.
  2: { intros i Hi. unfold f. rewrite lookup_app_r by lia. rewrite lookup_app_r by (simpl; lia).
       apply lookup_replicate. simpl. split; [done | lia]. }
  cbn [skip_padding]. rewrite (rd_at _ _ _ Htype). cbn [res_bind]. destruct (Z.eqb_spec type 0); [done|].
  cbn [res_bind Nat.eqb]. replace (S (length data) - 1)%nat with (length data) by lia.
  rewrite (rd_at _ _ _ Htype). cbn [res_bind]. do 2 f_equal. unfold f. by rewrite take_app_length.
Qed.

Lemma remove_padding_zeros n : remove_padding (replicate n 0) = Err PTLS_ALERT_UNEXPECTED_MESSAGE.
Proof.
  unfold remove_padding. rewrite length_replicate. pose proof (skip_padding_zeros (replicate n 0) 0 n) as H.
  cbn [Nat.add] in H. rewrite H; [done|]. intros i Hi. apply lookup_replicate. split; [done | lia].
Qed.

Lemma next_record_appdata ct rest :
  is_bytes ct -> Z.of_nat (length ct) <= PTLS_MAX_ENCRYPTED_RECORD_SIZE ->
  next_record (buffer_push_record PTLS_CONTENT_TYPE_APPDATA ct ++ rest)
  = Found (mk_rec PTLS_CONTENT_TYPE_APPDATA 0x0303 (length ct) (Some ct)).
Proof.
  intros Hb Hl. unfold buffer_push_record, push_block. unfold PTLS_MAX_ENCRYPTED_RECORD_SIZE in Hl.
  pose proof (of_be_be_small 2 (Z.of_nat (length ct)) ltac:(lia)) as Hof.
  destruct (be 2 (Z.of_nat (length ct))) as [|l1 [|l2 [|]]] eqn:E; try done.
  cbn [app]. unfold next_record. rewrite Hof. change (u8 PTLS_CONTENT_TYPE_APPDATA) with PTLS_CONTENT_TYPE_APPDATA.
  unfold record_limit. rewrite Z.eqb_refl, Nat2Z.id.
  destruct (Z.ltb_spec PTLS_MAX_ENCRYPTED_RECORD_SIZE (Z.of_nat (length ct))); [unfold PTLS_MAX_ENCRYPTED_RECORD_SIZE in *; lia|].
  rewrite length_app. destruct (Nat.ltb_spec (length ct + length rest) (length ct)); [lia|].
  rewrite take_app_length. done.
Qed.

Lemma length_push_record type body : length (buffer_push_record type body) = (5 + length body)%nat.
Proof. unfold buffer_push_record. rewrite length_app, length_push_block. simpl. lia. Qed.

Lemma push_record_bytes type body : is_bytes body -> is_bytes (buffer_push_record type body).
Proof. intros. unfold buffer_push_record. solve_bytes. Qed.

(** Reading everything a peer sent, with the functions the receiver uses: the
    records found in the segments, decrypted and stripped of their padding. *)
Fixpoint read_all (fuel : nat) (d : st_ptls_traffic_protection_t) (segments : list bytes)
    : res (list (Z * bytes) * st_ptls_traffic_protection_t) :=
  let! o := feed None segments in
  match o, fuel with
  | None, _ => Ok ([], d)
  | Some _, O => Stuck OutOfFuel
  | Some (rec, segments), S fuel =>
      match rec_fragment rec with
      | None => Stuck NullDeref
      | Some fragment =>
          let! '(plain, d) := aead_decrypt d fragment in
          let! content := remove_padding plain in
          let! '(rest, d) := read_all fuel d segments in
          Ok (content :: rest, d)
      end
  end.

(** Encrypting [src] and reading it back, whatever the segmentation. *)
Lemma encrypted_records_spec fuel e d type src :
  paired e d -> is_bytes src -> is_byte type -> type <> 0 -> (length src <= fuel)%nat ->
  exists out e' chunks d',
    (forall buf, push_encrypted_loop fuel buf type src e = Ok (buf ++ out, e')) /\
    is_bytes out /\ paired e' d' /\
    concat chunks = src /\ Forall (fun c => 0 < Z.of_nat (length c) <= PTLS_MAX_PLAINTEXT_RECORD_SIZE) chunks /\
    (forall fuel' segments, (length chunks <= fuel')%nat -> concat segments = out ->
       read_all fuel' d segments = Ok (map (pair type) chunks, d')).
Proof.
  intros Hp Hb Ht Hnz Hf. revert e d src Hp Hb Hf. induction fuel as [|fuel IH]; intros e d src Hp Hb Hf.
  all: destruct (Nat.eqb_spec (length src) 0) as [E0|E0]; [|try lia].
  1, 2: exists [], e, [], d; split_and!; try done;
    [ intros; cbn [push_encrypted_loop]; rewrite E0; by rewrite app_nil_r
    | by destruct src | intros fuel' segments _ Hs; destruct fuel'; cbn [read_all];
      pose proof (feed_spec segments None) as Hfd; cbn [default app] in Hfd; rewrite Hs in Hfd; cbn [next_record] in Hfd;
      rewrite Hfd; done ].
  set (n := Nat.min (length src) (Z.to_nat PTLS_MAX_PLAINTEXT_RECORD_SIZE)).
  assert (Hn : (0 < n <= length src)%nat /\ Z.of_nat n <= PTLS_MAX_PLAINTEXT_RECORD_SIZE)
    by (unfold n, PTLS_MAX_PLAINTEXT_RECORD_SIZE; lia).
  assert (Hln : length (take n src) = n) by (rewrite length_take; lia).
  destruct (encrypt_decrypt e d (take n src) type Hp) as (ct & Henc & Hbct & Hlct & Hdec); [by apply Forall_take | done |].
  rewrite Hln in Hlct.
  destruct (IH (advance e) (advance d) (drop n src)) as (out & e' & chunks & d' & Hpush & Hbout & Hp' & Hcat & Hsz & Hread);
    [by apply paired_advance | by apply Forall_drop | rewrite length_drop; lia |].
  exists (buffer_push_record PTLS_CONTENT_TYPE_APPDATA ct ++ out), e', (take n src :: chunks), d'.
  assert (Hbo : is_bytes (buffer_push_record PTLS_CONTENT_TYPE_APPDATA ct ++ out))
    by (apply Forall_app; split; [by apply push_record_bytes | done]).
  split_and!; try done.
  - intros buf. cbn [push_encrypted_loop]. destruct (Nat.eqb_spec (length src) 0); [done|]. fold n.
    rewrite Henc. cbn [res_bind]. by rewrite Hpush, <- app_assoc.
  - cbn [concat]. by rewrite Hcat, take_drop.
  - constructor; [rewrite Hln; lia | done].
  - intros fuel' segments Hf' Hs. destruct fuel' as [|fuel']; [simpl in Hf'; lia|]. cbn [read_all].
    pose proof (feed_spec segments None) as Hfd. cbn [default app] in Hfd. rewrite Hs in Hfd.
    rewrite next_record_appdata in Hfd by (done || unfold PTLS_MAX_ENCRYPTED_RECORD_SIZE, PTLS_MAX_PLAINTEXT_RECORD_SIZE in *; lia).
    destruct (Hfd Hbo eq_refl) as (rest & -> & Hrest). cbn [res_bind rec_fragment rec_length] in *.
    rewrite Hdec. cbn [res_bind].
    pose proof (remove_padding_spec (take n src) type 0 Hnz) as Hpad. rewrite app_nil_r in Hpad. rewrite Hpad. cbn [res_bind].
    assert (Hrest' : concat rest = out).
    { rewrite Hrest. replace (length ct + 5)%nat with (length (buffer_push_record PTLS_CONTENT_TYPE_APPDATA ct))
        by (rewrite length_push_record; lia). apply drop_app_length. }
    rewrite (Hread fuel' rest) by (simpl in Hf'; done || lia). done.
Qed.

(** The in-place path of [buffer_encrypt_record]. *)
Lemma encrypt_record_spec pre type body x y e d :
  paired e d -> is_bytes body -> is_byte type -> Z.of_nat (length body) <= PTLS_MAX_PLAINTEXT_RECORD_SIZE ->
  exists ct,
    aead_encrypt e body type = Ok (ct, advance e) /\ aead_decrypt d ct = Ok (body ++ [type], advance d) /\
    buffer_encrypt_record (pre ++ [type; PTLS_RECORD_VERSION_MAJOR; PTLS_RECORD_VERSION_MINOR; x; y] ++ body) (length pre) e
    = Ok (pre ++ buffer_push_record PTLS_CONTENT_TYPE_APPDATA ct, advance e).
Proof.
  intros Hp Hb Ht Hl. destruct (encrypt_decrypt e d body type Hp Hb Ht) as (ct & Henc & Hbct & Hlct & Hdec).
  exists ct. split_and!; [done | done |]. unfold buffer_encrypt_record.
  set (hdr := [type; PTLS_RECORD_VERSION_MAJOR; PTLS_RECORD_VERSION_MINOR; x; y]).
  assert (Hrd : rd (pre ++ hdr ++ body) (length pre) = Ok type)
    by (apply rd_at; unfold hdr; rewrite lookup_app_r, Nat.sub_diag by lia; done).
  rewrite Hrd. cbn [res_bind].
  replace (length (pre ++ hdr ++ body) - length pre - 5)%nat with (length body)
    by (rewrite !length_app; simpl; lia).
  destruct (Z.leb_spec (Z.of_nat (length body)) PTLS_MAX_PLAINTEXT_RECORD_SIZE); [|lia].
  assert (Hsl : slice (pre ++ hdr ++ body) (length pre + 5) (length pre + 5 + length body) = body).
  { unfold slice. replace (length pre + 5 + length body - (length pre + 5))%nat with (length body) by lia.
    rewrite app_assoc. replace (length pre + 5)%nat with (length (pre ++ hdr)) by (rewrite length_app; done).
    rewrite drop_app_length. apply firstn_all. }
  rewrite Hsl, Henc. destruct Hp as (ae & ad & He & _ & Hlaws & _). rewrite He. cbn [res_bind].
  assert (Hct : length ct = (length body + (1 + tag_size (aead_algo ae)))%nat).
  { unfold aead_encrypt in Henc. rewrite He in Henc. injection Henc as <-. rewrite seal_length, length_app. simpl. lia. }
  rewrite Hct, Nat.eqb_refl. cbn [c_assert res_bind]. do 2 f_equal.
  replace (length pre + 5)%nat with (length (pre ++ hdr)) by (rewrite length_app; done).
  rewrite (app_assoc pre hdr body), take_app_length. rewrite <- app_assoc.
  rewrite <- (Nat.add_0_r (length pre)) at 3. rewrite !insert_app_r.
  unfold hdr. cbn [app insert list_insert]. unfold buffer_push_record, push_block. cbn [app be].
  rewrite !land_ff, Hct. change (Z.of_nat 1) with 1. change (Z.of_nat 0) with 0. rewrite Z.mul_0_r, Z.shiftr_0_r. done.
Qed.

(** ** Properties *)

(** C23: reassembly does not depend on segmentation: handing the input to
    [parse_record] segment by segment, keeping [recvbuf] in between, finds the
    record, the error or the lack of a complete record that one call on the whole
    input finds, and leaves the same octets unconsumed. *)
Theorem segmentation_independent segments :
  is_bytes (concat segments) ->
  exists ret rec recvbuf n, parse_record None (concat segments) = Ok (ret, rec, recvbuf, n) /\
  if ret =? 0 then
    exists rest, feed None segments = Ok (Some (rec, rest)) /\ concat rest = drop n (concat segments)
  else if ret =? PTLS_ERROR_IN_PROGRESS then feed None segments = Ok None
  else feed None segments = Err ret.
Proof.
  intros Hb. pose proof (feed_spec segments None Hb eq_refl) as Hf.
  destruct (parse_record_spec None (concat segments) Hb eq_refl) as (ret & rec & recvbuf & n & Hp & H).
  exists ret, rec, recvbuf, n. split; [done|]. cbn [default app] in *.
  destruct (next_record (concat segments)).
  - by destruct H as (-> & _).
  - by rewrite H.
  - destruct H as (-> & -> & Hn). change (0 =? 0) with true. cbv iota.
    destruct Hf as (rest & Hf & Hr). exists rest. split; [done|]. cbn [length Nat.add] in Hn. by rewrite Hn.
Qed.

Lemma segmentation_independent_witness :
  exists rest, feed None [[22; 3]; [3; 0; 2; 7]; [8; 9]] = Ok (Some (mk_rec 22 0x0303 2 (Some [7; 8]), rest)).
Proof.
  destruct (segmentation_independent [[22; 3]; [3; 0; 2; 7]; [8; 9]]) as (ret & rec & rb & n & H & H');
    [by repeat constructor|]. vm_compute in H. injection H as <- <- _ _. cbn [Z.eqb] in H'.
  destruct H' as (rest & H' & _). exists rest. exact H'.
Defined.

(** C15: the record layer is transparent: what [buffer_push_encrypted_records]
    writes for [src] is read back by a receiver that shares the key, IV and record
    counter, whatever the segmentation of the stream, as records of the same
    content type whose contents concatenate to [src], each within the size limit,
    and both sides end with counters that still agree. *)
Theorem record_layer_roundtrip e d type src :
  paired e d -> is_bytes src -> is_byte type -> type <> 0 ->
  exists out e' chunks d',
    buffer_push_encrypted_records [] type src e = Ok (out, e') /\ paired e' d' /\
    concat chunks = src /\ Forall (fun c => 0 < Z.of_nat (length c) <= PTLS_MAX_PLAINTEXT_RECORD_SIZE) chunks /\
    forall segments, concat segments = out -> read_all (length chunks) d segments = Ok (map (pair type) chunks, d').
Proof.
  intros Hp Hb Ht Hnz.
  destruct (encrypted_records_spec (length src) e d type src Hp Hb Ht Hnz) as (out & e' & chunks & d' & H1 & _ & H3 & H4 & H5 & H6);
    [lia|]. exists out, e', chunks, d'. split_and!; try done; [apply (H1 [])|]. intros. by apply H6.
Qed.

Definition toy_tp (is_enc : bool) : st_ptls_traffic_protection_t :=
  mk_tp (replicate 64 0) 3 (Some (mk_aead_ctx toy_aead is_enc (replicate 16 1) (replicate 12 2))) 41.

Lemma record_layer_roundtrip_witness :
  exists out e' chunks d', buffer_push_encrypted_records [] 23 [1; 2; 3] (toy_tp true) = Ok (out, e') /\
    read_all (length chunks) (toy_tp false) [out] = Ok (map (pair 23) chunks, d') /\ concat chunks = [1; 2; 3].
Proof.
  destruct (record_layer_roundtrip (toy_tp true) (toy_tp false) 23 [1; 2; 3]) as (out & e' & chunks & d' & H1 & _ & H3 & _ & H5).
  - do 2 eexists. split_and!; try reflexivity. cbn. apply toy_aead_laws.
  - by repeat constructor.
  - done.
  - done.
  - exists out, e', chunks, d'. split_and!; [done | apply H5; simpl; apply app_nil_r | done].
Defined.

(** C31: the in-place path of [buffer_encrypt_record] writes exactly what the
    general path would: for a non-empty body that fits in a record, replacing the
    plaintext record by its encryption equals truncating the buffer and pushing
    the body through [buffer_push_encrypted_records]. *)
Theorem encrypt_record_in_place pre type body x y e d :
  paired e d -> is_bytes body -> is_byte type -> body <> [] ->
  Z.of_nat (length body) <= PTLS_MAX_PLAINTEXT_RECORD_SIZE ->
  buffer_encrypt_record (pre ++ [type; PTLS_RECORD_VERSION_MAJOR; PTLS_RECORD_VERSION_MINOR; x; y] ++ body) (length pre) e
  = buffer_push_encrypted_records pre type body e.
Proof.
  intros Hp Hb Ht Hne Hl. destruct (encrypt_record_spec pre type body x y e d Hp Hb Ht Hl) as (ct & Henc & _ & ->).
  unfold buffer_push_encrypted_records. destruct body as [|b body]; [done|].
  change (length (b :: body)) with (S (length body)). cbn [push_encrypted_loop length Nat.eqb].
  change (S (length body)) with (length (b :: body)).
  rewrite Nat.min_l by (unfold PTLS_MAX_PLAINTEXT_RECORD_SIZE in *; lia).
  rewrite firstn_all, Henc, drop_all. cbn [res_bind]. by destruct body.
Qed.

Lemma encrypt_record_in_place_witness :
  buffer_encrypt_record ([9; 9] ++ [22; 3; 3; 0; 0] ++ [5; 6; 7]) 2 (toy_tp true)
  = buffer_push_encrypted_records [9; 9] 22 [5; 6; 7] (toy_tp true).
Proof.
  apply (encrypt_record_in_place [9; 9] 22 [5; 6; 7] 0 0 (toy_tp true) (toy_tp false)); try done.
  - do 2 eexists. split_and!; try reflexivity. cbn. apply toy_aead_laws.
  - by repeat constructor.
Defined.

(** Padding is removed exactly: content, content type and any number of zero
    octets give back type and content; a record of zeros only is rejected with
    [PTLS_ALERT_UNEXPECTED_MESSAGE]. *)
Theorem padding_removed data type n :
  (type <> 0 -> remove_padding (data ++ [type] ++ replicate n 0) = Ok (type, data)) /\
  remove_padding (replicate n 0) = Err PTLS_ALERT_UNEXPECTED_MESSAGE.
Proof. split; [apply remove_padding_spec | apply remove_padding_zeros]. Qed.
