(* ===== verification/Extensions.v ===== *)
(** * Extensions: the extension blocks of handshake messages

    The bitmap that tracks which extensions were seen or are forbidden, and the
    macros [decode_open_extensions] and [decode_extensions] that walk through an
    extension block ([lib/picotls.c]).

    Main results: the bitmap implements the table of RFC 8446 section 4.2 for the
    extensions it tracks; a block is accepted exactly if every extension in it fits, is
    neither repeated nor misplaced as far as the bitmap tells, and is handled, all of
    them in order; walking through an arbitrary block stays inside of it and ends. *)
From S2P Require Import Prelude Constants Wire.

(** ** The bitmap *)

Notation st_ptls_extension_bitmap_t := (list Z) (only parsing).

Definition extension_bitmap_is_set (bitmap : st_ptls_extension_bitmap_t) (id : Z) : bool :=
  if id <? 64 then negb (Z.land (default 0 (bitmap !! Z.to_nat (id / 8))) (Z.shiftl 1 (id mod 8)) =? 0) else false.

Definition extension_bitmap_set (bitmap : st_ptls_extension_bitmap_t) (id : Z) : st_ptls_extension_bitmap_t :=
  if id <? 64 then
    let i := Z.to_nat (id / 8) in <[i := u8 (Z.lor (default 0 (bitmap !! i)) (Z.shiftl 1 (id mod 8)))]> bitmap
  else bitmap.

(** [EXT(id, { ALLOW(a); ALLOW(b); ... })] *)
Definition EXT (hstype : Z) (id : Z) (allow : list Z) (bitmap : st_ptls_extension_bitmap_t) : st_ptls_extension_bitmap_t :=
  if existsb (Z.eqb hstype) allow then bitmap else extension_bitmap_set bitmap id.

Definition init_extension_bitmap (hstype : Z) : st_ptls_extension_bitmap_t :=
  let b := replicate 8 0 in
  let b := EXT hstype PTLS_EXTENSION_TYPE_SERVER_NAME
             [PTLS_HANDSHAKE_TYPE_CLIENT_HELLO; PTLS_HANDSHAKE_TYPE_ENCRYPTED_EXTENSIONS] b in
  let b := EXT hstype PTLS_EXTENSION_TYPE_STATUS_REQUEST
             [PTLS_HANDSHAKE_TYPE_CLIENT_HELLO; PTLS_HANDSHAKE_TYPE_CERTIFICATE; PTLS_HANDSHAKE_TYPE_CERTIFICATE_REQUEST] b in
  let b := EXT hstype PTLS_EXTENSION_TYPE_SUPPORTED_GROUPS
             [PTLS_HANDSHAKE_TYPE_CLIENT_HELLO; PTLS_HANDSHAKE_TYPE_ENCRYPTED_EXTENSIONS] b in
  let b := EXT hstype PTLS_EXTENSION_TYPE_SIGNATURE_ALGORITHMS
             [PTLS_HANDSHAKE_TYPE_CLIENT_HELLO; PTLS_HANDSHAKE_TYPE_CERTIFICATE_REQUEST] b in
  let b := EXT hstype PTLS_EXTENSION_TYPE_ALPN
             [PTLS_HANDSHAKE_TYPE_CLIENT_HELLO; PTLS_HANDSHAKE_TYPE_ENCRYPTED_EXTENSIONS] b in
  let b := EXT hstype PTLS_EXTENSION_TYPE_KEY_SHARE [PTLS_HANDSHAKE_TYPE_CLIENT_HELLO; PTLS_HANDSHAKE_TYPE_SERVER_HELLO] b in
  let b := EXT hstype PTLS_EXTENSION_TYPE_PRE_SHARED_KEY [PTLS_HANDSHAKE_TYPE_CLIENT_HELLO; PTLS_HANDSHAKE_TYPE_SERVER_HELLO] b in
  let b := EXT hstype PTLS_EXTENSION_TYPE_PSK_KEY_EXCHANGE_MODES [PTLS_HANDSHAKE_TYPE_CLIENT_HELLO] b in
  let b := EXT hstype PTLS_EXTENSION_TYPE_EARLY_DATA
             [PTLS_HANDSHAKE_TYPE_CLIENT_HELLO; PTLS_HANDSHAKE_TYPE_ENCRYPTED_EXTENSIONS; PTLS_HANDSHAKE_TYPE_NEW_SESSION_TICKET] b in
  let b := EXT hstype PTLS_EXTENSION_TYPE_COOKIE [PTLS_HANDSHAKE_TYPE_CLIENT_HELLO; PTLS_HANDSHAKE_TYPE_SERVER_HELLO] b in
  EXT hstype PTLS_EXTENSION_TYPE_SUPPORTED_VERSIONS [PTLS_HANDSHAKE_TYPE_CLIENT_HELLO; PTLS_HANDSHAKE_TYPE_SERVER_HELLO] b.

(** ** Walking through an extension block

    [block exttype st src end] is the body of the macro: it handles one extension,
    given the variables [st] it may assign, and returns with the cursor at [end]. *)
Section Decode.
Context (mem : bytes) {S : Type}.

Definition extension_turn (end_ : nat) (block : Z -> S -> nat -> nat -> res (S * nat))
    (x : S * st_ptls_extension_bitmap_t) (src : nat) : res ((S * st_ptls_extension_bitmap_t) * nat) :=
  let '(st, bitmap) := x in
  let! '(exttype, src) := ptls_decode16 mem src end_ in
  let! _ := guard (negb (extension_bitmap_is_set bitmap exttype)) PTLS_ALERT_ILLEGAL_PARAMETER in
  let bitmap := extension_bitmap_set bitmap exttype in
  let! '(st, src) := ptls_decode_open_block mem src end_ 2 (block exttype st) in
  Ok ((st, bitmap), src).

Definition decode_open_extensions (src end_ : nat) (hstype : Z)
    (block : Z -> S -> nat -> nat -> res (S * nat)) (st : S) : res (S * nat) :=
  ptls_decode_open_block mem src end_ 2 (fun src end_ =>
    let! '(x, src) := while_ne end_ (extension_turn end_ block) (st, init_extension_bitmap hstype) src in
    Ok (fst x, src)).

Definition decode_extensions (src end_ : nat) (hstype : Z)
    (block : Z -> S -> nat -> nat -> res (S * nat)) (st : S) : res (S * nat) :=
  let! '(st, src) := decode_open_extensions src end_ hstype block st in
  let! _ := ptls_decode_assert_block_close src end_ in
  Ok (st, src).
End Decode.

(** What [buffer_push_extension(buf, type, { push body })] appends. *)
Definition buffer_push_extension (type : Z) (body : bytes) : bytes := push16 type ++ push_block 2 body.

(** ** The bitmap is a set of identifiers below 64 *)

Definition bitmap_ok (b : st_ptls_extension_bitmap_t) : Prop := length b = 8%nat /\ is_bytes b.

Lemma testbit_land_shift x i : 0 <= i -> negb (Z.land x (Z.shiftl 1 i) =? 0) = Z.testbit x i.
Proof.
  intros Hi. rewrite Z.shiftl_1_l. destruct (Z.testbit x i) eqn:E.
  - apply negb_true_iff, Z.eqb_neq. intros H. apply (f_equal (fun z => Z.testbit z i)) in H.
    by rewrite Z.land_spec, E, Z.pow2_bits_true, Z.bits_0 in H by lia.
  - apply negb_false_iff, Z.eqb_eq. apply Z.bits_inj'. intros j Hj. rewrite Z.land_spec, Z.bits_0, Z.pow2_bits_eqb by lia.
    destruct (Z.eqb_spec i j) as [->|]; [by rewrite E | apply andb_false_r].
Qed.

Lemma bitmap_set_ok b id : bitmap_ok b -> bitmap_ok (extension_bitmap_set b id).
Proof.
  intros [Hl Hb]. unfold extension_bitmap_set. destruct (id <? 64); [|done]. cbv zeta. split; [by rewrite length_insert|].
  apply Forall_insert; [done | apply u8_range].
Qed.

Lemma bitmap_is_set_set b id id' :
  bitmap_ok b -> 0 <= id -> 0 <= id' ->
  extension_bitmap_is_set (extension_bitmap_set b id) id'
  = extension_bitmap_is_set b id' || ((id' <? 64) && (id =? id')).
Proof.
  intros [Hl Hb] Hid Hid'. unfold extension_bitmap_is_set, extension_bitmap_set.
  destruct (Z.ltb_spec id' 64); [|done]. cbn [andb]. destruct (Z.ltb_spec id 64).
  2: { destruct (Z.eqb_spec id id'); [lia|]. by rewrite orb_false_r. }
  rewrite !testbit_land_shift by modlia.
  destruct (decide (id / 8 = id' / 8)) as [E|E].
  - rewrite E, list_lookup_insert_eq by (rewrite Hl; modlia). 
    cbn [from_option]. unfold Datatypes.id, u8. rewrite Z.mod_pow2_bits_low, Z.lor_spec by modlia. f_equal.
    rewrite Z.shiftl_1_l, Z.pow2_bits_eqb by modlia.
    destruct (Z.eqb_spec id id'), (Z.eqb_spec (id mod 8) (id' mod 8)); try done; subst; try done; modlia.
  - rewrite list_lookup_insert_ne by (intros E'; apply Z2Nat.inj in E'; modlia).
    destruct (Z.eqb_spec id id'); [subst; done|]. by rewrite orb_false_r.
Qed.

Lemma init_bitmap_ok hstype : bitmap_ok (init_extension_bitmap hstype).
Proof.
  unfold init_extension_bitmap, EXT. cbv zeta.
  assert (H0 : bitmap_ok (replicate 8 0)) by (split; [done | by repeat constructor]).
  repeat match goal with
  | |- bitmap_ok (if _ then _ else _) => destruct (existsb _ _)
  | |- bitmap_ok (extension_bitmap_set _ _) => apply bitmap_set_ok
  end; exact H0.
Qed.

(** ** Reference: the table of RFC 8446 section 4.2 *)

(** The messages of the table: a HelloRetryRequest is a ServerHello on the wire. *)
Inductive rfc8446_message := RfcCH | RfcSH | RfcEE | RfcCT | RfcCR | RfcNST | RfcHRR.
Definition rfc8446_type (m : rfc8446_message) : Z :=
  match m with RfcCH => 1 | RfcSH | RfcHRR => 2 | RfcNST => 4 | RfcEE => 8 | RfcCT => 11 | RfcCR => 13 end.

(** The whole table, with the identifiers of the IANA registry. *)
Definition rfc8446_table : list (Z * list rfc8446_message) :=
  [ (0, [RfcCH; RfcEE]);                (* server_name *)
    (1, [RfcCH; RfcEE]);                (* max_fragment_length *)
    (5, [RfcCH; RfcCR; RfcCT]);         (* status_request *)
    (10, [RfcCH; RfcEE]);               (* supported_groups *)
    (13, [RfcCH; RfcCR]);               (* signature_algorithms *)
    (14, [RfcCH; RfcEE]);               (* use_srtp *)
    (15, [RfcCH; RfcEE]);               (* heartbeat *)
    (16, [RfcCH; RfcEE]);               (* application_layer_protocol_negotiation *)
    (18, [RfcCH; RfcCR; RfcCT]);        (* signed_certificate_timestamp *)
    (19, [RfcCH; RfcEE]);               (* client_certificate_type *)
    (20, [RfcCH; RfcEE]);               (* server_certificate_type *)
    (21, [RfcCH]);                      (* padding *)
    (51, [RfcCH; RfcSH; RfcHRR]);       (* key_share *)
    (41, [RfcCH; RfcSH]);               (* pre_shared_key *)
    (45, [RfcCH]);                      (* psk_key_exchange_modes *)
    (42, [RfcCH; RfcEE; RfcNST]);       (* early_data *)
    (44, [RfcCH; RfcHRR]);              (* cookie *)
    (43, [RfcCH; RfcSH; RfcHRR]);       (* supported_versions *)
    (47, [RfcCH; RfcCR]);               (* certificate_authorities *)
    (48, [RfcCR]);                      (* oid_filters *)
    (49, [RfcCH]);                      (* post_handshake_auth *)
    (50, [RfcCH; RfcCR]) ].             (* signature_algorithms_cert *)

(** Those of the table that the implementation recognizes: server_name,
    status_request, supported_groups, signature_algorithms, the protocol
    negotiation, pre_shared_key, early_data, supported_versions, cookie,
    psk_key_exchange_modes and key_share.  (The two it recognizes beside them,
    compress_certificate and encrypted_server_name, are not in the table and not
    restricted by the code.) *)
Definition recognized : list Z := [0; 5; 10; 13; 16; 41; 42; 43; 44; 45; 51].

(** A recognized extension that the table does not list for a message with the
    given handshake type. *)
Definition rfc8446_forbidden (hstype id : Z) : bool :=
  existsb (Z.eqb id) recognized &&
  negb (existsb (fun '(ext, msgs) => (ext =? id) && existsb (fun m => rfc8446_type m =? hstype) msgs) rfc8446_table).

Definition init_bitmap_check (hstype : Z) : bool :=
  forallb (fun id => Bool.eqb (extension_bitmap_is_set (init_extension_bitmap hstype) id) (rfc8446_forbidden hstype id))
    (seqZ 0 64).

Lemma init_bitmap_checked : forallb init_bitmap_check (seqZ 0 256) = true.
Proof. vm_compute. reflexivity. Qed.

Lemma init_bitmap_spec hstype id :
  is_byte hstype -> 0 <= id < 64 ->
  extension_bitmap_is_set (init_extension_bitmap hstype) id = rfc8446_forbidden hstype id.
Proof.
  intros Hh Hid. pose proof init_bitmap_checked as H. rewrite forallb_forall in H. unfold is_byte in Hh.
  assert (Hin : In hstype (seqZ 0 256)) by (apply list_elem_of_In, elem_of_seqZ; lia).
  specialize (H hstype Hin). unfold init_bitmap_check in H. rewrite forallb_forall in H.
  apply Bool.eqb_prop, H. apply list_elem_of_In, elem_of_seqZ. lia.
Qed.

(** ** Safety of the walk *)

Section Facts.
Context (mem : bytes) (Hmem : is_bytes mem) {S : Type}.

(** The body gets a sub-block and the type of an extension not seen before; if
    it keeps the invariant [I] there, the walk keeps it, stays in bounds and
    ends. *)
Lemma wp_open_extensions_bitmap (I : S -> st_ptls_extension_bitmap_t -> Prop) (Q : S * nat -> Prop) (E : Z -> Prop)
    s e hstype block st :
  (s <= e <= length mem)%nat -> I st (init_extension_bitmap hstype) ->
  E PTLS_ALERT_DECODE_ERROR -> E PTLS_ALERT_ILLEGAL_PARAMETER ->
  (forall exttype st bm s1 e1, 0 <= exttype < 2 ^ 16 -> I st bm -> extension_bitmap_is_set bm exttype = false ->
     (s < s1)%nat -> (s1 <= e1)%nat -> (e1 <= e)%nat ->
     res_post (fun x => x.2 = e1 -> I x.1 (extension_bitmap_set bm exttype)) E (block exttype st s1 e1)) ->
  (forall st bm s', I st bm -> (s < s' <= e)%nat -> Q (st, s')) ->
  res_post Q E (decode_open_extensions mem s e hstype block st).
Proof.
  intros Hs HI Hdec Hill Hblock HQ. unfold decode_open_extensions.
  apply wp_open_block; [done | done | by right | done |]. intros s1 e1 Hs1 Hse1 He1. apply wp_bind.
  apply (wp_while_ne (fun x src => I (fst x) (snd x) /\ (s1 <= src)%nat)); [lia | done | |].
  - intros [st1 bm] s2 [HI2 Hle2] Hs2. cbn [fst snd] in HI2. unfold extension_turn. apply wp_bind.
    apply wp_decode16; [done | lia | done |]. intros v Hv Hs3 _. cbn [res_post].
    apply wp_bind, res_post_guard; intros Hset; [|done]. apply negb_true_iff in Hset. apply wp_bind.
    apply wp_open_block; [done | lia | by right | done |]. intros s4 e4 H4 H4' H4''.
    eapply res_post_mono; [apply (Hblock v st1 bm s4 e4); done || lia | | done].
    intros [st2 s5] Hx Hs5. cbn [res_post fst snd] in *. split_and!; [by apply Hx | lia | lia | lia].
  - intros [st1 bm] [HI1 _]. cbn [res_post fst snd] in *. intros _. eapply HQ; [done | lia].
Qed.

Lemma wp_open_extensions (I : S -> Prop) (Q : S * nat -> Prop) (E : Z -> Prop) s e hstype block st :
  (s <= e <= length mem)%nat -> I st -> E PTLS_ALERT_DECODE_ERROR -> E PTLS_ALERT_ILLEGAL_PARAMETER ->
  (forall exttype st s1 e1, 0 <= exttype < 2 ^ 16 -> I st -> (s < s1)%nat -> (s1 <= e1)%nat -> (e1 <= e)%nat ->
     res_post (fun x => x.2 = e1 -> I x.1) E (block exttype st s1 e1)) ->
  (forall st s', I st -> (s < s' <= e)%nat -> Q (st, s')) ->
  res_post Q E (decode_open_extensions mem s e hstype block st).
Proof.
  intros Hs HI Hdec Hill Hblock HQ. apply (wp_open_extensions_bitmap (fun st _ => I st)); auto.
Qed.

Lemma wp_extensions (I : S -> Prop) (Q : S * nat -> Prop) (E : Z -> Prop) s e hstype block st :
  (s <= e <= length mem)%nat -> I st -> E PTLS_ALERT_DECODE_ERROR -> E PTLS_ALERT_ILLEGAL_PARAMETER ->
  (forall exttype st s1 e1, 0 <= exttype < 2 ^ 16 -> I st -> (s < s1)%nat -> (s1 <= e1)%nat -> (e1 <= e)%nat ->
     res_post (fun x => x.2 = e1 -> I x.1) E (block exttype st s1 e1)) ->
  (forall st, I st -> Q (st, e)) ->
  res_post Q E (decode_extensions mem s e hstype block st).
Proof.
  intros Hs HI Hdec Hill Hblock HQ. unfold decode_extensions. apply wp_bind.
  apply (wp_open_extensions I); [done..|]. intros st' s' HI' Hs'. unfold ptls_decode_assert_block_close.
  cbn [res_post]. destruct (Nat.eqb_spec s' e) as [->|]; cbn [res_bind res_post]; auto.
Qed.
End Facts.

(** The identifiers the bitmap tracks. *)
Definition tracked (l : list Z) : list Z := List.filter (fun id => id <? 64) l.

(** ** Blocks written by [buffer_push_extension] are walked in order *)

Definition ext_bytes (exts : list (Z * bytes)) : bytes := flat_map (fun '(t, d) => buffer_push_extension t d) exts.

(** The body applied to extensions that lie one after the other from [p] on; it must
    return at the end of each. *)
Fixpoint handle_all {S} (block : Z -> S -> nat -> nat -> res (S * nat)) (exts : list (Z * bytes)) (p : nat) (st : S) : res S :=
  match exts with
  | [] => Ok st
  | (t, d) :: exts =>
      let e := (p + 4 + length d)%nat in
      let! '(st, src) := block t st (p + 4)%nat e in
      if (src =? e)%nat then handle_all block exts e st else Err PTLS_ALERT_DECODE_ERROR
  end.

(** Types and lengths that fit their fields. *)
Definition ext_fits (x : Z * bytes) : Prop := 0 <= x.1 < 2 ^ 16 /\ Z.of_nat (length x.2) < 2 ^ 16.

Lemma length_push_extension t d : length (buffer_push_extension t d) = (4 + length d)%nat.
Proof. unfold buffer_push_extension. rewrite length_app, length_push_block. simpl. lia. Qed.
Lemma ext_bytes_cons t d exts : ext_bytes ((t, d) :: exts) = buffer_push_extension t d ++ ext_bytes exts.
Proof. done. Qed.

Section Walk.
Context (mem : bytes) {S : Type} (block : Z -> S -> nat -> nat -> res (S * nat)).

Lemma extension_turn_at t d st bm p e :
  at_mem mem p (buffer_push_extension t d) -> ext_fits (t, d) -> extension_bitmap_is_set bm t = false -> (p + 4 + length d <= e)%nat ->
  extension_turn mem e block (st, bm) p =
    let! '(st, src) := block t st (p + 4)%nat (p + 4 + length d)%nat in
    if (src =? p + 4 + length d)%nat then Ok ((st, extension_bitmap_set bm t), src) else Err PTLS_ALERT_DECODE_ERROR.
Proof.
  intros Hat [Ht Hd] Hset He. cbn [fst snd] in Ht, Hd. unfold buffer_push_extension in Hat. apply at_mem_app in Hat as [Hat1 Hat2].
  change (length (push16 t)) with 2%nat in Hat2. unfold extension_turn.
  rewrite (decode16_at _ _ _ t Hat1) by lia. cbn [res_bind].
  assert (Hu : u16 t = t) by (unfold u16; by apply Z.mod_small). rewrite Hu, Hset. cbn [negb guard res_bind].
  change 2 with (Z.of_nat 2). rewrite (open_block_at _ _ _ _ d) by (done || lia).
  replace (p + 2 + 2)%nat with (p + 4)%nat by lia. destruct (block t st (p + 4) (p + 4 + length d)) as [[st' s']| |]; cbn [res_bind]; [|done..].
  by destruct (s' =? p + 4 + length d)%nat.
Qed.

(** A turn that succeeds has handled one extension. *)
Lemma extension_turn_inv st bm p e st' bm' p' :
  is_bytes mem -> (p <= e <= length mem)%nat -> extension_turn mem e block (st, bm) p = Ok ((st', bm'), p') ->
  exists t d, at_mem mem p (buffer_push_extension t d) /\ ext_fits (t, d) /\ extension_bitmap_is_set bm t = false /\ bm' = extension_bitmap_set bm t /\
    p' = (p + 4 + length d)%nat /\ (p' <= e)%nat /\ block t st (p + 4)%nat p' = Ok (st', p').
Proof.
  intros Hm Hp Hrun. pose proof Hrun as Hrun'. unfold extension_turn in Hrun'. 
  pose proof (wp_decode16 mem Hm (fun x => x.2 = (p + 2)%nat /\ 0 <= x.1 < 2 ^ 16 /\ (p + 2 <= e)%nat /\ at_mem mem p (be 2 x.1)) (fun _ => True) p e Hp) as H16.
  destruct (ptls_decode16 mem p e) as [[t p1]| |]; cbn [res_bind] in Hrun'; [|done..].
  specialize (H16 ltac:(done) ltac:(intros; auto)). cbn [res_post fst snd] in H16. destruct H16 as (-> & Ht & Hp2 & Hat).
  destruct (extension_bitmap_is_set bm t) eqn:Hset; cbn [negb guard res_bind] in Hrun'; [done|].
  destruct (block_cases mem Hm (p + 2) e 2) as [(d & Hatd & Hd & He)|Herr]; [lia | lia | | by rewrite (Herr _ _) in Hrun'].
  assert (Hatx : at_mem mem p (buffer_push_extension t d)).
  { unfold buffer_push_extension. rewrite push16_be. apply at_mem_app. split; [done|]. by rewrite length_be. }
  exists t, d. rewrite (extension_turn_at t d) in Hrun by (done || lia || split; done).
  destruct (block t st (p + 4) (p + 4 + length d)) as [[st2 s2]| |] eqn:Hb; cbn [res_bind] in Hrun; [|done..].
  destruct (Nat.eqb_spec s2 (p + 4 + length d)) as [->|]; [|done]. injection Hrun as <- <- <-. split_and!; try done. lia.
Qed.

(** [bm] is the set of the extensions that may not come (any more). *)
Definition bars (bm : st_ptls_extension_bitmap_t) (exts : list (Z * bytes)) : Prop :=
  bitmap_ok bm /\ NoDup (tracked (map fst exts)) /\ Forall (fun x => extension_bitmap_is_set bm x.1 = false) exts.

Lemma bars_nil bm : bitmap_ok bm -> bars bm [].
Proof. intros Hok. split; [done|]. split; [apply NoDup_nil_2 | done]. Qed.
Lemma bars_cons bm t d exts :
  bitmap_ok bm -> 0 <= t -> Forall ext_fits exts ->
  bars bm ((t, d) :: exts) <-> extension_bitmap_is_set bm t = false /\ bars (extension_bitmap_set bm t) exts.
Proof.
  intros Hok Ht Hfits. unfold bars. cbn [map fst tracked List.filter]. rewrite Forall_cons_iff.
  assert (Hset : Forall (fun x => extension_bitmap_is_set (extension_bitmap_set bm t) x.1 = false) exts <->
    Forall (fun x => extension_bitmap_is_set bm x.1 = false) exts /\ (t < 64 -> ~ In t (tracked (map fst exts)))).
  { rewrite !List.Forall_forall in *. split.
    - intros H. split.
      + intros [t' d'] Hin. specialize (H _ Hin). destruct (Hfits _ Hin) as [Ht' _]. cbn [fst] in *.
        rewrite bitmap_is_set_set in H by (done || lia). by apply orb_false_iff in H as [H _].
      + intros Hlt Hin. apply filter_In in Hin as [Hin _]. apply in_map_iff in Hin as ([t' d'] & <- & Hin). specialize (H _ Hin). cbn [fst] in *.
        destruct (Hfits _ Hin) as [Ht' _]. cbn [fst] in *. rewrite bitmap_is_set_set, Z.eqb_refl in H by (done || lia). apply orb_false_iff in H as [_ H].
        by destruct (Z.ltb_spec t' 64); [|lia].
    - intros [H1 H2] [t' d'] Hin. specialize (H1 _ Hin). destruct (Hfits _ Hin) as [Ht' _]. cbn [fst] in *.
      rewrite bitmap_is_set_set, H1 by (done || lia). cbn [orb]. destruct (Z.ltb_spec t' 64) as [Hlt|]; [|done]. cbn [andb].
      destruct (Z.eqb_spec t t') as [->|]; [|done]. destruct (H2 Hlt). apply filter_In. split; [|by apply Z.ltb_lt]. apply in_map_iff. by exists (t', d'). }
  rewrite Hset. split.
  - intros (_ & Hnd & Ht0 & Hall). split; [done|]. split; [by apply bitmap_set_ok|]. destruct (Z.ltb_spec t 64).
    + apply list.NoDup_cons in Hnd as [Hni Hnd]. split; [done|]. split; [done|]. intros _ Hin. by apply Hni, list_elem_of_In.
    + split; [done|]. split; [done | lia].
  - intros (Ht0 & _ & Hnd & Hall & Hni). split; [done|]. split; [|done]. destruct (Z.ltb_spec t 64) as [Hlt|]; [|done].
    apply list.NoDup_cons. split; [|done]. intros Hin%list_elem_of_In. by apply Hni.
Qed.

(** The walk over extensions that lie in memory. *)
Lemma walk_at fuel exts st bm p e :
  at_mem mem p (ext_bytes exts) -> Forall ext_fits exts -> bars bm exts -> e = (p + length (ext_bytes exts))%nat -> (length (ext_bytes exts) <= fuel)%nat ->
  forall st', handle_all block exts p st = Ok st' -> exists bm', while_src fuel e (extension_turn mem e block) (st, bm) p = Ok ((st', bm'), e).
Proof.
  revert exts st bm p. induction fuel as [|fuel IH]; intros exts st bm p Hat Hfits Hbars He Hf st' Hrun;
    (destruct exts as [|[t d] exts]; [exists bm; cbn in He, Hrun; rewrite Nat.add_0_r in He; injection Hrun as ->; subst; cbn [while_src]; by rewrite Nat.eqb_refl|]);
    rewrite ext_bytes_cons, length_app, length_push_extension in *; [lia|].
  apply Forall_cons_1 in Hfits as [Hx Hfits]. apply at_mem_app in Hat as [Hat1 Hat2]. rewrite length_push_extension in Hat2.
  destruct (proj1 (bars_cons bm t d exts (proj1 Hbars) (proj1 (proj1 Hx)) Hfits) Hbars) as [Hset Hbars'].
  cbn [while_src]. destruct (Nat.eqb_spec p e); [lia|]. rewrite (extension_turn_at t d st bm p e Hat1 Hx Hset) by lia.
  cbn [handle_all] in Hrun. destruct (block t st (p + 4) (p + 4 + length d)) as [[st1 s1]| |]; cbn [res_bind] in Hrun |- *; [|done..].
  destruct (Nat.eqb_spec s1 (p + 4 + length d)) as [Hs1|]; [|done]. subst s1. cbn [res_bind].
  apply (IH exts st1 _ (p + 4 + length d)%nat); try done; [by replace (p + 4 + length d)%nat with (p + (4 + length d))%nat by lia | lia | lia].
Qed.

(** A walk that ends normally has handled extensions that fill its range. *)
Lemma walk_inv fuel st bm p e st' bm' p' :
  is_bytes mem -> (p <= e <= length mem)%nat -> bitmap_ok bm -> while_src fuel e (extension_turn mem e block) (st, bm) p = Ok ((st', bm'), p') ->
  p' = e /\ exists exts, at_mem mem p (ext_bytes exts) /\ Forall ext_fits exts /\ bars bm exts /\ e = (p + length (ext_bytes exts))%nat /\
    handle_all block exts p st = Ok st'.
Proof.
  intros Hm. revert st bm p. induction fuel as [|fuel IH]; intros st bm p Hp Hok Hrun; cbn [while_src] in Hrun.
  all: destruct (Nat.eqb_spec p e) as [<-|Hne];
    [injection Hrun as -> -> ->; split; [done|]; exists []; cbn [ext_bytes flat_map length handle_all]; split_and!; first [done | apply at_mem_nil | by apply bars_nil | lia]|].
  - done.
  - destruct (extension_turn mem e block (st, bm) p) as [[[st1 bm1] p1]| |] eqn:Et; cbn [res_bind] in Hrun; [|done..].
    destruct (extension_turn_inv _ _ _ _ _ _ _ Hm Hp Et) as (t & d & Hat & Hfits & Hset & -> & -> & He & Hb).
    destruct (IH st1 _ (p + 4 + length d)%nat ltac:(lia) (bitmap_set_ok _ _ Hok) Hrun) as (-> & exts & Hat' & Hfits' & Hbars & He' & Hall).
    split; [done|]. exists ((t, d) :: exts). rewrite ext_bytes_cons, length_app, length_push_extension. split_and!.
    + apply at_mem_app. split; [done|]. rewrite length_push_extension. by replace (p + (4 + length d))%nat with (p + 4 + length d)%nat by lia.
    + by constructor.
    + apply bars_cons; [done | apply Hfits | done | by split].
    + lia.
    + cbn [handle_all]. rewrite Hb. cbn [res_bind]. by rewrite Nat.eqb_refl.
Qed.
End Walk.

(** ** Properties *)

(** The bitmap of a message bars exactly the repetitions and what the table forbids. *)
Lemma bars_init hstype exts :
  is_byte hstype -> Forall ext_fits exts ->
  bars (init_extension_bitmap hstype) exts <->
  NoDup (tracked (map fst exts)) /\ Forall (fun x => rfc8446_forbidden hstype x.1 = false) exts.
Proof.
  intros Hh Hfits. unfold bars. enough (Heq : forall x, ext_fits x ->
    extension_bitmap_is_set (init_extension_bitmap hstype) x.1 = rfc8446_forbidden hstype x.1).
  { assert (Forall (fun x => extension_bitmap_is_set (init_extension_bitmap hstype) x.1 = false) exts <->
      Forall (fun x => rfc8446_forbidden hstype x.1 = false) exts) as ->.
    { rewrite !List.Forall_forall in *. split; intros H x Hx; specialize (H x Hx); [rewrite <- Heq by auto | rewrite Heq by auto]; done. }
    pose proof (init_bitmap_ok hstype). tauto. }
  intros [t d] [Ht _]. cbn [fst] in *. destruct (Z.lt_ge_cases t 64) as [Hlt|Hge]; [apply init_bitmap_spec; [done | lia]|].
  unfold extension_bitmap_is_set, rfc8446_forbidden. destruct (Z.ltb_spec t 64); [lia|]. symmetry. apply andb_false_iff. left.
  apply not_true_iff_false. intros (x & Hin & Hx)%existsb_exists. apply Z.eqb_eq in Hx. subst x. cbn in Hin. lia.
Qed.

(** Extension blocks written by [buffer_push_extension] are walked in order. *)
Lemma open_extensions_at mem {S} (block : Z -> S -> nat -> nat -> res (S * nat)) p e hstype exts st st' :
  at_mem mem p (push_block 2 (ext_bytes exts)) -> Z.of_nat (length (ext_bytes exts)) < 2 ^ 16 ->
  (p + 2 + length (ext_bytes exts) <= e)%nat -> is_byte hstype -> Forall ext_fits exts ->
  NoDup (tracked (map fst exts)) -> Forall (fun x => rfc8446_forbidden hstype x.1 = false) exts ->
  handle_all block exts (p + 2) st = Ok st' ->
  decode_open_extensions mem p e hstype block st = Ok (st', (p + 2 + length (ext_bytes exts))%nat).
Proof.
  intros Hat Hlen He Hh Hfits Hnd Hall Hrun. unfold decode_open_extensions. change 2 with (Z.of_nat 2) at 1.
  rewrite (open_block_at _ _ _ _ (ext_bytes exts)) by (done || lia).
  pose proof Hat as Hat2. unfold push_block in Hat2. apply at_mem_app in Hat2 as [_ Hat2]. rewrite length_be in Hat2.
  destruct (walk_at mem block (p + 2 + length (ext_bytes exts) - (p + 2)) exts st (init_extension_bitmap hstype) (p + 2) (p + 2 + length (ext_bytes exts))
    Hat2 Hfits ltac:(by apply bars_init) eq_refl ltac:(lia) st' Hrun) as [bm' E]. unfold while_ne. rewrite E. cbn [res_bind fst]. by rewrite Nat.eqb_refl.
Qed.

(** C27: for any message and any body, the walk through an extension block succeeds
    if and only if the block lies in the given range and consists of extensions
    whose types below 64 are all different, none of which is recognized and
    not listed for the message in the table of RFC 8446 section 4.2, and the body,
    applied to every one of them in order, accepts it and consumes it entirely;
    the result is then what the body computed, with the cursor behind the block.
    On every input the walk ends and stays in its range: it fails with a decode
    error, an illegal-parameter alert or a code of the body. *)
Theorem extensions_walked mem s e hstype {S} (block : Z -> S -> nat -> nat -> res (S * nat)) st :
  is_bytes mem -> (s <= e <= length mem)%nat -> is_byte hstype ->
  (forall st' s', decode_open_extensions mem s e hstype block st = Ok (st', s') <->
     exists exts, at_mem mem s (push_block 2 (ext_bytes exts)) /\ Z.of_nat (length (ext_bytes exts)) < 2 ^ 16 /\ Forall ext_fits exts /\
       s' = (s + 2 + length (ext_bytes exts))%nat /\ (s' <= e)%nat /\
       NoDup (tracked (map fst exts)) /\ Forall (fun x => rfc8446_forbidden hstype x.1 = false) exts /\
       handle_all block exts (s + 2) st = Ok st') /\
  (forall codes : Z -> Prop, codes PTLS_ALERT_DECODE_ERROR -> codes PTLS_ALERT_ILLEGAL_PARAMETER ->
     (forall t st s1 e1, 0 <= t < 2 ^ 16 -> (s < s1)%nat -> (s1 <= e1)%nat -> (e1 <= e)%nat -> res_post (fun _ => True) codes (block t st s1 e1)) ->
     res_post (fun _ => True) codes (decode_open_extensions mem s e hstype block st)).
Proof.
  intros Hm Hs Hh. split.
  - intros st' s'. split.
    + intros Hrun. unfold decode_open_extensions in Hrun. destruct (block_cases mem Hm s e 2) as [(body & Hat & Hlen & He)|Herr]; [lia | lia | | by rewrite Herr in Hrun].
      change 2 with (Z.of_nat 2) in Hrun at 1. rewrite (open_block_at _ _ _ _ body) in Hrun by (done || lia).
      unfold while_ne in Hrun. destruct (while_src _ _ _ _ _) as [[[st1 bm1] s1]| |] eqn:Hw; cbn [res_bind fst] in Hrun; [|done..].
      apply walk_inv in Hw as (-> & exts & Hat' & Hfits & Hbars & Hlen' & Hall); [|done | lia | apply init_bitmap_ok].
      rewrite Nat.eqb_refl in Hrun. injection Hrun as <- <-. assert (Hb : body = ext_bytes exts).
      { unfold push_block in Hat. apply at_mem_app in Hat as [_ Hat]. rewrite length_be in Hat. apply at_mem_slice in Hat, Hat'.
        rewrite <- Hat, <- Hat'. f_equal. lia. }
      subst body. apply bars_init in Hbars as [Hnd Hok]; [|done..]. exists exts. done.
    + intros (exts & Hat & Hlen & Hfits & -> & He & Hnd & Hok & Hall). by apply open_extensions_at.
  - intros codes Hd Hi Hblock. apply (wp_open_extensions mem Hm (fun _ => True)); try done. intros t st1 s1 e1 Ht _ H1 H2 H3.
    eapply res_post_mono; [by apply Hblock | done | done].
Qed.

(** The body that records the type and the contents of each extension. *)
Definition list_extensions (mem : bytes) (exttype : Z) (seen : list (Z * bytes)) (src end_ : nat) : res (list (Z * bytes) * nat) :=
  Ok (seen ++ [(exttype, slice mem src end_)], end_).

Lemma extensions_walked_witness :
  let twice := [0; 8; 0; 16; 0; 0; 0; 16; 0; 0] in
  let block := [0; 9; 0; 16; 0; 1; 7; 0; 13; 0; 0] in
  decode_open_extensions twice 0 10 PTLS_HANDSHAKE_TYPE_CLIENT_HELLO (list_extensions twice) [] = Err PTLS_ALERT_ILLEGAL_PARAMETER /\
  decode_open_extensions block 0 11 PTLS_HANDSHAKE_TYPE_CLIENT_HELLO (list_extensions block) [] = Ok ([(16, [7]); (13, [])], 11%nat).
Proof.
  intros twice block. split; [reflexivity|].
  destruct (extensions_walked block 0 11 PTLS_HANDSHAKE_TYPE_CLIENT_HELLO (list_extensions block) []) as [H _]; [by repeat constructor | simpl; lia | done|].
  apply H. exists [(16, [7]); (13, [])]. split_and!; try reflexivity; try (simpl; lia).
  - repeat constructor; simpl; lia.
  - apply (bool_decide_unpack _). reflexivity.
  - repeat constructor.
Defined.
