(* ===== verification/KeySchedule.v ===== *)
(** * KeySchedule: secrets and transcript of [lib/picotls.c]

    The key schedule holds the secret of the current generation (early,
    handshake, master) and one running transcript hash per hash function still in
    play: a client that offers suites with different hashes feeds all of them and
    keeps one when the server has chosen.

    Main results: the secrets are those of the schedule of RFC 8446 section 7.1,
    selecting a suite leaves the schedule that a client offering only that suite
    would have, and no offered suite can fail the selection. *)
From S2P Require Import Prelude Constants Wire Crypto.

Record ptls_cipher_suite_t := mk_cs {
  cs_id : Z;
  cs_aead : ptls_aead_algorithm_t;
  cs_hash : ptls_hash_algorithm_t
}.

Record st_ptls_key_schedule_t := mk_sched {
  generation : Z;
  hkdf_label_prefix : bytes;
  secret : bytes;
  hashes : list (ptls_hash_algorithm_t * ptls_hash_context_t)
}.

Definition set_hashes (sched : st_ptls_key_schedule_t) (hs : list (ptls_hash_algorithm_t * ptls_hash_context_t)) :=
  mk_sched (generation sched) (hkdf_label_prefix sched) (secret sched) hs.

(** Comparison of [ptls_hash_algorithm_t *]. *)
Definition hash_eqb (a b : ptls_hash_algorithm_t) : bool := (hash_ptr a =? hash_ptr b)%nat.

(** [sched->hashes[0]] *)
Definition hash0 (sched : st_ptls_key_schedule_t) : res (ptls_hash_algorithm_t * ptls_hash_context_t) :=
  match hashes sched with
  | h :: _ => Ok h
  | [] => Stuck OutOfBounds
  end.

(** Writing [d] at the start of an array. *)
Definition overwrite (a d : bytes) : bytes := d ++ drop (length d) a.

(** ** Construction *)

(** The hashes [FOREACH_HASH] visits among the offered suites: not the preferred
    one, and no repetitions ([prev] are the suites before this one). *)
Fixpoint offered_hashes (preferred : option ptls_cipher_suite_t) (prev offered : list ptls_cipher_suite_t)
    : list ptls_hash_algorithm_t :=
  match offered with
  | [] => []
  | cs :: offered =>
      (if negb match preferred with Some p => hash_eqb (cs_hash cs) (cs_hash p) | None => false end
          && negb (existsb (fun o => hash_eqb (cs_hash cs) (cs_hash o)) prev)
       then [cs_hash cs] else [])
      ++ offered_hashes preferred (prev ++ [cs]) offered
  end.

Definition foreach_hash (preferred : option ptls_cipher_suite_t) (offered : option (list ptls_cipher_suite_t))
    : list ptls_hash_algorithm_t :=
  match preferred with Some p => [cs_hash p] | None => [] end
  ++ match offered with Some o => offered_hashes preferred [] o | None => [] end.

(** [offered] is a [NULL]-terminated array, or [NULL].  The allocations of the
    schedule and of its hash contexts are taken to succeed (the code returns
    [NULL] otherwise), here as in the HMAC and HKDF functions below. *)
Definition key_schedule_new (preferred : option ptls_cipher_suite_t) (offered : option (list ptls_cipher_suite_t))
    (label_prefix : option bytes) : st_ptls_key_schedule_t :=
  mk_sched 0 (default PTLS_HKDF_EXPAND_LABEL_PREFIX label_prefix) (replicate PTLS_MAX_DIGEST_SIZE 0)
    (map (fun h => (h, hash_create)) (foreach_hash preferred offered)).

(** ** Secrets *)

(** [ikm] is [None] for an iovec whose base is [NULL].  The code fails only with
    the [PTLS_ERROR_NO_MEMORY] of an HMAC context. *)
Definition key_schedule_extract (sched : st_ptls_key_schedule_t) (ikm : option bytes) : res st_ptls_key_schedule_t :=
  let! '(algo, _) := hash0 sched in
  let ikm := default (take (digest_size algo) zeroes_of_max_digest_size) ikm in
  let! secret' :=
    if negb (generation sched =? 0) then
      let! d := hkdf_expand_label algo (digest_size algo) (take (digest_size algo) (secret sched)) (str "derived")
                  (empty_digest algo) (hkdf_label_prefix sched) in
      Ok (overwrite (secret sched) d)
    else Ok (secret sched) in
  let! d := ptls_hkdf_extract algo (take (digest_size algo) secret') ikm in
  Ok (mk_sched (generation sched + 1) (hkdf_label_prefix sched) (overwrite secret' d) (hashes sched)).

(** The search for the slot of the selected hash; finding it twice fails the
    assertion. *)
Fixpoint find_slot (hs : list (ptls_hash_algorithm_t * ptls_hash_context_t)) (algo : ptls_hash_algorithm_t) (i : nat)
    (found_slot : option nat) : res (option nat) :=
  match hs with
  | [] => Ok found_slot
  | (a, _) :: hs =>
      if hash_eqb a algo then
        match found_slot with
        | None => find_slot hs algo (S i) (Some i)
        | Some _ => Stuck AssertFail
        end
      else find_slot hs algo (S i) found_slot
  end.

(** A hash that is not there leaves [found_slot] at [SIZE_MAX]. *)
Definition key_schedule_select_one (sched : st_ptls_key_schedule_t) (cs : ptls_cipher_suite_t) (reset : bool)
    : res st_ptls_key_schedule_t :=
  let! _ := c_assert (generation sched =? 1) in
  let! found_slot := find_slot (hashes sched) (cs_hash cs) 0 None in
  let! '(slot, reset) :=
    match found_slot with
    | Some O => Ok (0%nat, reset)
    | Some slot => Ok (slot, true)
    | None => Stuck OutOfBounds
    end in
  match hashes sched !! slot with
  | None => Stuck OutOfBounds
  | Some h =>
      let sched := set_hashes sched [h] in
      if reset then
        key_schedule_extract (mk_sched (generation sched - 1) (hkdf_label_prefix sched) (replicate PTLS_MAX_DIGEST_SIZE 0) (hashes sched)) None
      else Ok sched
  end.

(** ** Transcript *)

Definition ptls__key_schedule_update_hash (sched : st_ptls_key_schedule_t) (msg : bytes) : st_ptls_key_schedule_t :=
  set_hashes sched (map (fun '(a, ctx) => (a, hash_update ctx msg)) (hashes sched)).

Definition key_schedule_update_ch1hash_prefix (sched : st_ptls_key_schedule_t) : res st_ptls_key_schedule_t :=
  let! '(algo, _) := hash0 sched in
  Ok (ptls__key_schedule_update_hash sched [PTLS_HANDSHAKE_TYPE_MESSAGE_HASH; 0; 0; u8 (Z.of_nat (digest_size algo))]).

(** The digest, and the schedule whose first hash was reset. *)
Definition key_schedule_extract_ch1hash (sched : st_ptls_key_schedule_t) : res (bytes * st_ptls_key_schedule_t) :=
  match hashes sched with
  | [] => Stuck OutOfBounds
  | (algo, ctx) :: hs =>
      let '(md, ctx) := hash_final algo ctx PTLS_HASH_FINAL_MODE_RESET in
      Ok (md, set_hashes sched ((algo, default [] ctx) :: hs))
  end.

Definition key_schedule_transform_post_ch1hash (sched : st_ptls_key_schedule_t) : res st_ptls_key_schedule_t :=
  let! '(ch1hash, sched) := key_schedule_extract_ch1hash sched in
  let! sched := key_schedule_update_ch1hash_prefix sched in
  let! '(algo, _) := hash0 sched in
  Ok (ptls__key_schedule_update_hash sched (take (digest_size algo) ch1hash)).

(** ** Derived secrets *)

Definition derive_secret_with_hash (sched : st_ptls_key_schedule_t) (label hash : bytes) : res bytes :=
  let! '(algo, _) := hash0 sched in
  hkdf_expand_label algo (digest_size algo) (take (digest_size algo) (secret sched)) label
    (take (digest_size algo) hash) (hkdf_label_prefix sched).

(** The digest of the transcript so far (SNAPSHOT mode). *)
Definition transcript_hash (sched : st_ptls_key_schedule_t) : res bytes :=
  let! '(algo, ctx) := hash0 sched in
  Ok (fst (hash_final algo ctx PTLS_HASH_FINAL_MODE_SNAPSHOT)).

Definition derive_secret (sched : st_ptls_key_schedule_t) (label : bytes) : res bytes :=
  let! hash_value := transcript_hash sched in
  derive_secret_with_hash sched label hash_value.

Definition derive_secret_with_empty_digest (sched : st_ptls_key_schedule_t) (label : bytes) : res bytes :=
  let! '(algo, _) := hash0 sched in
  derive_secret_with_hash sched label (empty_digest algo).

Definition derive_resumption_secret (sched : st_ptls_key_schedule_t) (nonce : bytes) : res bytes :=
  let! s := derive_secret sched (str "res master") in
  let! '(algo, _) := hash0 sched in
  hkdf_expand_label algo (digest_size algo) (take (digest_size algo) s) (str "resumption") nonce (hkdf_label_prefix sched).

(** ** Finished and CertificateVerify *)

Definition PTLS_SERVER_CERTIFICATE_VERIFY_CONTEXT_STRING : bytes := str "TLS 1.3, server CertificateVerify".
Definition PTLS_CLIENT_CERTIFICATE_VERIFY_CONTEXT_STRING : bytes := str "TLS 1.3, client CertificateVerify".

Definition build_certificate_verify_signdata (sched : st_ptls_key_schedule_t) (context_string : bytes) : res bytes :=
  let! h := transcript_hash sched in
  let data := replicate 64 32 ++ context_string ++ [0] ++ h in
  let! _ := c_assert (length data <=? PTLS_MAX_CERTIFICATE_VERIFY_SIGNDATA_SIZE)%nat in
  Ok data.

(** [secret'] is a traffic secret, in an array of [PTLS_MAX_DIGEST_SIZE]. *)
Definition calc_verify_data (sched : st_ptls_key_schedule_t) (secret' : bytes) : res bytes :=
  let! '(algo, ctx) := hash0 sched in
  let! finished_key := hkdf_expand_label algo (digest_size algo) (take (digest_size algo) secret') (str "finished") []
                         (hkdf_label_prefix sched) in
  let! hmac := ptls_hmac_create algo finished_key in
  let! h := transcript_hash sched in
  let! '(output, _) := hmac_final algo (hmac_update hmac (take (digest_size algo) h)) true PTLS_HASH_FINAL_MODE_FREE in
  Ok output.

(** ** Reference: RFC 8446 section 7.1

    Written from the text of the RFC: [HkdfLabel] is the structure

      struct {
          uint16 length;
          opaque label<7..255> = "tls13 " + Label;
          opaque context<0..255>;
      } HkdfLabel;

    octet by octet.  [prefix] stands for ["tls13 "], which the application may
    replace; the length octets of a label or context that does not fit are
    reduced to their width. *)

Definition rfc_uint8 (n : nat) : bytes := [Z.of_nat n mod 256].
Definition rfc_uint16 (n : nat) : bytes := [Z.of_nat n / 256 mod 256; Z.of_nat n mod 256].
(** The octets of ["tls13 "]. *)
Definition rfc_tls13 : bytes := [116; 108; 115; 49; 51; 32].
Definition HkdfLabel (prefix : bytes) (L : nat) (Label Context : bytes) : bytes :=
  rfc_uint16 L ++ rfc_uint8 (length prefix + length Label) ++ prefix ++ Label ++ rfc_uint8 (length Context) ++ Context.

Section Rfc8446.
Context (algo : ptls_hash_algorithm_t) (prefix : bytes).

(** HKDF-Expand-Label for the length of the hash; Derive-Secret hands it the
    transcript hash. *)
Definition rfc_derive (S label hash : bytes) : bytes :=
  rfc5869_expand algo S (HkdfLabel prefix (digest_size algo) label hash) (digest_size algo).
(** Section 4.4.4. *)
Definition rfc_verify_data (base_key transcript : bytes) : bytes :=
  HMAC algo (rfc_derive base_key (str "finished") []) (digest algo transcript).
Definition rfc_zero : bytes := replicate (digest_size algo) 0.
Definition rfc_early (psk : option bytes) : bytes := HMAC algo rfc_zero (default rfc_zero psk).
Definition rfc_handshake (psk dhe : option bytes) : bytes :=
  HMAC algo (rfc_derive (rfc_early psk) (str "derived") (digest algo [])) (default rfc_zero dhe).
Definition rfc_master (psk dhe : option bytes) : bytes :=
  HMAC algo (rfc_derive (rfc_handshake psk dhe) (str "derived") (digest algo [])) rfc_zero.
End Rfc8446.

Lemma hkdf_label_rfc L label hash prefix : hkdf_label L label hash prefix = HkdfLabel prefix L label hash.
Proof.
  unfold hkdf_label, HkdfLabel, push_block. rewrite push16_be, length_app, <- !app_assoc.
  unfold rfc_uint16, rfc_uint8. cbn [be app]. unfold u8. rewrite !Z.shiftr_div_pow2, !Z.div_1_r by lia. done.
Qed.

Lemma expand_label_spec algo `{!HashLaws algo} secret label hash prefix :
  is_bytes secret -> (length secret <= block_size algo)%nat ->
  hkdf_expand_label algo (digest_size algo) secret label hash prefix = Ok (rfc_derive algo prefix secret label hash).
Proof. intros. unfold rfc_derive. rewrite <- hkdf_label_rfc. by apply hkdf_expand_label_spec. Qed.

(** ** Well-formed schedules *)

Record sched_ok (s : st_ptls_key_schedule_t) : Prop := {
  sched_secret_length : length (secret s) = PTLS_MAX_DIGEST_SIZE;
  sched_secret_bytes : is_bytes (secret s);
  sched_hashes : hashes s <> [];
  sched_laws : Forall (fun h => HashLaws (fst h)) (hashes s);
  sched_distinct : NoDup (map (fun h => hash_ptr (fst h)) (hashes s))
}.

Lemma overwrite_ok a d :
  length a = PTLS_MAX_DIGEST_SIZE -> is_bytes a -> is_bytes d -> (length d <= PTLS_MAX_DIGEST_SIZE)%nat ->
  length (overwrite a d) = PTLS_MAX_DIGEST_SIZE /\ is_bytes (overwrite a d) /\ take (length d) (overwrite a d) = d.
Proof.
  intros Ha Hba Hbd Hd. unfold overwrite. split_and!.
  - rewrite length_app, length_drop. lia.
  - apply Forall_app; split; [done | by apply Forall_drop].
  - apply take_app_length.
Qed.

Lemma take_zeroes algo `{!HashLaws algo} : take (digest_size algo) zeroes_of_max_digest_size = rfc_zero algo.
Proof.
  unfold zeroes_of_max_digest_size, rfc_zero. rewrite take_replicate. f_equal. pose proof (digest_size_max (algo:=algo)). lia.
Qed.

(** The salt of the next extraction. *)
Definition next_salt (algo : ptls_hash_algorithm_t) (s : st_ptls_key_schedule_t) : bytes :=
  let S := take (digest_size algo) (secret s) in
  if generation s =? 0 then S else rfc_derive algo (hkdf_label_prefix s) S (str "derived") (digest algo []).

Lemma extract_spec s algo ctx hs ikm :
  sched_ok s -> hashes s = (algo, ctx) :: hs ->
  exists s', key_schedule_extract s ikm = Ok s' /\ sched_ok s' /\ generation s' = generation s + 1 /\
    hashes s' = hashes s /\ hkdf_label_prefix s' = hkdf_label_prefix s /\
    take (digest_size algo) (secret s') = HMAC algo (next_salt algo s) (default (rfc_zero algo) ikm) /\
    drop (digest_size algo) (secret s') = drop (digest_size algo) (secret s).
Proof.
  intros [Hlen Hb Hne Hlaws Hnd] Hh. rewrite Hh in Hlaws. pose proof (Forall_inv Hlaws) as Hl. cbn [fst] in Hl.
  pose proof (digest_size_max (algo:=algo)) as Hmax. pose proof (digest_size_pos (algo:=algo)) as Hpos.
  pose proof (digest_size_block (algo:=algo)) as Hblk.
  unfold key_schedule_extract, hash0. rewrite Hh. cbn [res_bind]. rewrite take_zeroes by done.
  set (S := take (digest_size algo) (secret s)).
  assert (HS : length S = digest_size algo) by (unfold S; rewrite length_take; lia).
  assert (HbS : is_bytes S) by (by apply Forall_take).
  assert (Hsalt : exists sec, (if negb (generation s =? 0) then
      let! d := hkdf_expand_label algo (digest_size algo) S (str "derived") (empty_digest algo) (hkdf_label_prefix s) in
      Ok (overwrite (secret s) d) else Ok (secret s)) = Ok sec /\ length sec = PTLS_MAX_DIGEST_SIZE /\ is_bytes sec /\
      take (digest_size algo) sec = next_salt algo s /\ drop (digest_size algo) sec = drop (digest_size algo) (secret s)).
  { unfold next_salt. fold S. destruct (generation s =? 0); cbn [negb]; [by exists (secret s)|].
    rewrite expand_label_spec by (done || lia). cbn [res_bind]. rewrite empty_digest_spec.
    eexists. split; [reflexivity|]. set (d := rfc_derive _ _ _ _ _).
    assert (Hd : length d = digest_size algo) by (by apply rfc5869_expand_length).
    destruct (overwrite_ok (secret s) d) as (H1 & H2 & H3); [done | done | by apply rfc5869_expand_bytes | lia |].
    rewrite Hd in H3. split_and!; try done. unfold overwrite. by rewrite <- Hd, drop_app_length. }
  destruct Hsalt as (sec & -> & Hsl & Hsb & Hst & Hsd). cbn [res_bind].
  assert (Hltake : length (take (digest_size algo) sec) = digest_size algo) by (rewrite length_take; lia).
  rewrite hkdf_extract_spec by (done || (by apply Forall_take) || lia).
  destruct (decide (take (digest_size algo) sec = [])) as [E|_]; [rewrite E in Hltake; simpl in Hltake; lia|].
  cbn [res_bind]. rewrite Hst. set (d := HMAC _ _ _). assert (Hd : length d = digest_size algo) by (by apply HMAC_length).
  destruct (overwrite_ok sec d) as (H1 & H2 & H3); [done | done | by apply HMAC_bytes | lia |].
  eexists. split; [reflexivity|]. rewrite Hd in H3. split_and!; try done.
  - rewrite Hh in Hnd. by constructor.
  - cbn [secret]. unfold overwrite. by rewrite <- Hd, drop_app_length, Hd.
Qed.

Lemma update_ok s m : sched_ok s -> sched_ok (ptls__key_schedule_update_hash s m).
Proof.
  intros [H1 H2 H3 H4 H5]. constructor; cbn [ptls__key_schedule_update_hash set_hashes secret hashes]; try done.
  - by destruct (hashes s).
  - clear - H4. induction H4 as [|[a c] hs Ha _ IH]; constructor; done.
  - rewrite map_map. by erewrite map_ext; [exact H5|]; intros [a c].
Qed.

(** ** The hashes of a new schedule *)

Lemma offered_hashes_in preferred prev offered h :
  In h (offered_hashes preferred prev offered) ->
  (exists cs, In cs offered /\ h = cs_hash cs) /\
  (forall p, preferred = Some p -> hash_ptr h <> hash_ptr (cs_hash p)) /\
  (forall o, In o prev -> hash_ptr h <> hash_ptr (cs_hash o)).
Proof.
  revert prev. induction offered as [|cs offered IH]; intros prev; cbn [offered_hashes]; [done|].
  rewrite in_app_iff. intros [Hin|Hin].
  - destruct (_ && _) eqn:E; [|done]. destruct Hin as [<-|[]]. apply andb_true_iff in E as [E1 E2].
    apply negb_true_iff in E1, E2. split_and!.
    + exists cs. split; [by left | done].
    + intros p ->. unfold hash_eqb in E1. by apply Nat.eqb_neq in E1.
    + intros o Ho Heq. assert (existsb (fun o => hash_eqb (cs_hash cs) (cs_hash o)) prev = true); [|congruence].
      apply existsb_exists. exists o. split; [done|]. unfold hash_eqb. by apply Nat.eqb_eq.
  - destruct (IH _ Hin) as ((cs' & Hcs' & ->) & Hp & Hprev). split_and!.
    + exists cs'. split; [by right | done].
    + done.
    + intros o Ho. apply Hprev, in_app_iff. by left.
Qed.

Lemma offered_hashes_nodup preferred prev offered : NoDup (map hash_ptr (offered_hashes preferred prev offered)).
Proof.
  revert prev. induction offered as [|cs offered IH]; intros prev; cbn [offered_hashes map]; [by apply NoDup_nil_2|].
  destruct (_ && _); cbn [app map]; [|apply IH]. apply NoDup_cons_2; [|apply IH].
  intros Hin. apply list_elem_of_In, in_map_iff in Hin as (h & Heq & Hin).
  apply offered_hashes_in in Hin as (_ & _ & Hprev). apply (Hprev cs); [apply in_app_iff; right; by left | done].
Qed.

Lemma offered_hashes_cover preferred prev offered cs :
  In cs offered ->
  (exists p, preferred = Some p /\ hash_ptr (cs_hash cs) = hash_ptr (cs_hash p)) \/
  (exists o, In o prev /\ hash_ptr (cs_hash cs) = hash_ptr (cs_hash o)) \/
  In (hash_ptr (cs_hash cs)) (map hash_ptr (offered_hashes preferred prev offered)).
Proof.
  revert prev. induction offered as [|c offered IH]; intros prev Hin; [done|]. cbn [offered_hashes]. rewrite map_app, in_app_iff.
  destruct Hin as [->|Hin].
  - destruct (match preferred with Some p => hash_eqb (cs_hash cs) (cs_hash p) | None => false end) eqn:E1.
    { destruct preferred as [p|]; [|done]. left. exists p. split; [done|]. by apply Nat.eqb_eq in E1. }
    destruct (existsb (fun o => hash_eqb (cs_hash cs) (cs_hash o)) prev) eqn:E2.
    { right; left. apply existsb_exists in E2 as (o & Ho & E2). exists o. split; [done|]. by apply Nat.eqb_eq in E2. }
    right; right; left. cbn. by left.
  - destruct (IH (prev ++ [c]) Hin) as [H|[(o & Ho & Heq)|H]]; [by left | | by do 3 right].
    apply in_app_iff in Ho as [Ho|[<-|[]]]; [right; left; by exists o|].
    destruct (match preferred with Some p => hash_eqb (cs_hash c) (cs_hash p) | None => false end) eqn:E1.
    { destruct preferred as [p|]; [|done]. left. exists p. split; [done|]. apply Nat.eqb_eq in E1. congruence. }
    destruct (existsb (fun o => hash_eqb (cs_hash c) (cs_hash o)) prev) eqn:E2.
    { right; left. apply existsb_exists in E2 as (o & Ho & E2). exists o. split; [done|]. apply Nat.eqb_eq in E2. congruence. }
    right; right; left. cbn. by left.
Qed.

Definition suites_of (preferred : option ptls_cipher_suite_t) (offered : option (list ptls_cipher_suite_t)) : list ptls_cipher_suite_t :=
  match preferred with Some p => [p] | None => [] end ++ default [] offered.

Lemma foreach_hash_nodup preferred offered : NoDup (map hash_ptr (foreach_hash preferred offered)).
Proof.
  unfold foreach_hash. assert (H : NoDup (map hash_ptr match offered with Some o => offered_hashes preferred [] o | None => [] end))
    by (destruct offered; [apply offered_hashes_nodup | apply NoDup_nil_2]).
  destruct preferred as [p|]; [|done]. cbn [app map]. apply NoDup_cons_2; [|done].
  intros Hin. apply list_elem_of_In, in_map_iff in Hin as (h & Heq & Hin). destruct offered as [o|]; [|done].
  apply offered_hashes_in in Hin as (_ & Hp & _). by apply (Hp p).
Qed.

Lemma foreach_hash_cover preferred offered cs :
  In cs (suites_of preferred offered) -> In (hash_ptr (cs_hash cs)) (map hash_ptr (foreach_hash preferred offered)).
Proof.
  unfold suites_of, foreach_hash. rewrite map_app, !in_app_iff. intros [Hin|Hin].
  - left. destruct preferred; [|done]. destruct Hin as [->|[]]. by left.
  - destruct offered as [o|]; [|done]. cbn [default] in Hin.
    destruct (offered_hashes_cover preferred [] o cs Hin) as [(p & -> & Heq)|[(o' & [] & _)|H]]; [left; cbn; by left | by right].
Qed.

Lemma foreach_hash_suite preferred offered h :
  In h (foreach_hash preferred offered) -> exists cs, In cs (suites_of preferred offered) /\ h = cs_hash cs.
Proof.
  unfold suites_of, foreach_hash. rewrite in_app_iff. intros [Hin|Hin].
  - destruct preferred as [p|]; [|done]. destruct Hin as [<-|[]]. exists p. split; [by left | done].
  - destruct offered as [o|]; [|done]. apply offered_hashes_in in Hin as ((cs & Hcs & ->) & _).
    exists cs. split; [apply in_app_iff; by right | done].
Qed.

(** ** Selection *)

Lemma find_slot_absent hs algo i found :
  ~ In (hash_ptr algo) (map (fun h => hash_ptr (fst h)) hs) -> find_slot hs algo i found = Ok found.
Proof.
  revert i. induction hs as [|[a c] hs IH]; intros i Hin; [done|]. cbn [find_slot map fst In] in *.
  unfold hash_eqb. destruct (Nat.eqb_spec (hash_ptr a) (hash_ptr algo)); [tauto|]. apply IH. tauto.
Qed.

Lemma find_slot_present hs algo i k a c :
  NoDup (map (fun h => hash_ptr (fst h)) hs) -> hs !! k = Some (a, c) -> hash_ptr a = hash_ptr algo ->
  find_slot hs algo i None = Ok (Some (i + k)%nat).
Proof.
  revert i k. induction hs as [|[a' c'] hs IH]; intros i k Hnd Hk Hp; [done|].
  cbn [map fst] in Hnd. apply NoDup_cons_1_1 in Hnd as Hnin. apply NoDup_cons_1_2 in Hnd. cbn [find_slot].
  destruct k as [|k].
  - injection Hk as -> ->. unfold hash_eqb. rewrite Hp, Nat.eqb_refl, Nat.add_0_r.
    apply find_slot_absent. rewrite <- Hp. intros Hin. by apply Hnin, list_elem_of_In.
  - cbn in Hk. unfold hash_eqb. destruct (Nat.eqb_spec (hash_ptr a') (hash_ptr algo)) as [E|E].
    + exfalso. apply Hnin. apply list_elem_of_In, in_map_iff. exists (a, c). split; [cbn; congruence|].
      apply list_elem_of_In. by eapply list_elem_of_lookup_2.
    + rewrite (IH (S i) k) by done. f_equal. f_equal. lia.
Qed.

Definition updates (s : st_ptls_key_schedule_t) (ms : list bytes) : st_ptls_key_schedule_t := foldl ptls__key_schedule_update_hash s ms.

Lemma updates_spec s ms :
  updates s ms = set_hashes s (map (fun '(a, ctx) => (a, ctx ++ concat ms)) (hashes s)).
Proof.
  unfold updates. revert s. induction ms as [|m ms IH]; intros s; simpl.
  - destruct s as [g p sec hs]. unfold set_hashes. cbn. f_equal. induction hs as [|[a c] hs IHh]; [done|].
    cbn. by rewrite app_nil_r, <- IHh.
  - rewrite IH. unfold ptls__key_schedule_update_hash, set_hashes. cbn. f_equal. rewrite map_map. apply map_ext.
    intros [a c]. unfold hash_update. by rewrite app_assoc.
Qed.

Lemma new_ok preferred offered prefix :
  suites_of preferred offered <> [] -> Forall (fun cs => HashLaws (cs_hash cs)) (suites_of preferred offered) ->
  sched_ok (key_schedule_new preferred offered prefix).
Proof.
  intros Hne Hlaws. constructor; cbn [key_schedule_new secret hashes].
  - apply length_replicate.
  - apply zeroes_bytes.
  - destruct (suites_of preferred offered) as [|cs l] eqn:E; [done|].
    assert (Hin : In cs (suites_of preferred offered)) by (rewrite E; by left).
    apply foreach_hash_cover in Hin. by destruct (foreach_hash preferred offered).
  - apply List.Forall_forall. intros x (h & <- & Hh)%in_map_iff. apply foreach_hash_suite in Hh as (cs & Hcs & ->).
    rewrite List.Forall_forall in Hlaws. by apply Hlaws.
  - rewrite map_map. cbn [fst]. apply foreach_hash_nodup.
Qed.

Lemma sched_eq s s' :
  generation s = generation s' -> hkdf_label_prefix s = hkdf_label_prefix s' -> secret s = secret s' ->
  hashes s = hashes s' -> s = s'.
Proof. destruct s, s'. cbn. by intros -> -> -> ->. Qed.

(** The secret of the pre-shared key survives the selection if the caller does
    not ask for a reset and the selected hash is that of the first suite, with
    which the secret was made. *)
Definition keeps_psk (preferred : option ptls_cipher_suite_t) (offered : option (list ptls_cipher_suite_t)) (cs : ptls_cipher_suite_t)
    (reset : bool) : bool :=
  negb reset && match suites_of preferred offered with first :: _ => hash_eqb (cs_hash first) (cs_hash cs) | [] => false end.

Lemma foreach_hash_first preferred offered : head (foreach_hash preferred offered) = cs_hash <$> head (suites_of preferred offered).
Proof. unfold foreach_hash, suites_of. by destruct preferred, offered as [[|cs o]|]. Qed.

Lemma keeps_psk_slot preferred offered cs reset k :
  foreach_hash preferred offered !! k = Some (cs_hash cs) -> keeps_psk preferred offered cs reset = negb reset && (k =? 0)%nat.
Proof.
  intros Hk. unfold keeps_psk. f_equal. pose proof (foreach_hash_first preferred offered) as Hf. pose proof (foreach_hash_nodup preferred offered) as Hnd.
  destruct (foreach_hash preferred offered) as [|h l]; [done|]. destruct (suites_of preferred offered) as [|cs0 suites]; [done|]. injection Hf as ->.
  unfold hash_eqb. destruct k as [|k]; [injection Hk as ->; apply Nat.eqb_refl|]. apply Nat.eqb_neq. intros E. cbn [map] in Hnd.
  apply NoDup_cons_1_1 in Hnd. apply Hnd. rewrite E. apply list_elem_of_In, in_map, list_elem_of_In. by eapply list_elem_of_lookup_2.
Qed.

(** Restarting the schedule keeps the transcript and yields the early secret of
    a schedule for the one suite. *)
Lemma restart_spec cs prefix transcript s1' :
  HashLaws (cs_hash cs) -> key_schedule_extract (key_schedule_new (Some cs) None prefix) None = Ok s1' ->
  key_schedule_extract (mk_sched 0 (default PTLS_HKDF_EXPAND_LABEL_PREFIX prefix) (replicate PTLS_MAX_DIGEST_SIZE 0) [(cs_hash cs, transcript)]) None
  = Ok (set_hashes s1' [(cs_hash cs, transcript)]).
Proof.
  intros Hl Hs1'. unfold key_schedule_extract, key_schedule_new in *. cbn [hash0 foreach_hash hashes map app res_bind generation secret hkdf_label_prefix Z.eqb negb] in *.
  destruct (ptls_hkdf_extract _ _ _) as [d| |]; cbn [res_bind] in *; [|done..]. injection Hs1' as <-. done.
Qed.

(** Selecting one of the offered suites. *)
Lemma select_spec preferred offered prefix cs psk reset ms s1 :
  In cs (suites_of preferred offered) ->
  Forall (fun cs => HashLaws (cs_hash cs)) (suites_of preferred offered) ->
  (forall a b, In a (suites_of preferred offered) -> In b (suites_of preferred offered) ->
     hash_ptr (cs_hash a) = hash_ptr (cs_hash b) -> cs_hash a = cs_hash b) ->
  key_schedule_extract (key_schedule_new preferred offered prefix) psk = Ok s1 ->
  exists s1', key_schedule_extract (key_schedule_new (Some cs) None prefix) (if keeps_psk preferred offered cs reset then psk else None) = Ok s1' /\
    key_schedule_select_one (updates s1 ms) cs reset = Ok (updates s1' ms).
Proof.
  intros Hin Hlaws Hptr Hext.
  assert (Hne : suites_of preferred offered <> []) by (intros E; by rewrite E in Hin).
  pose proof (new_ok preferred offered prefix Hne Hlaws) as Hok.
  assert (Hcs : HashLaws (cs_hash cs)) by (rewrite List.Forall_forall in Hlaws; by apply Hlaws).
  assert (Hok1 : sched_ok (key_schedule_new (Some cs) None prefix)) by (apply new_ok; [done | by constructor]).
  destruct (hashes (key_schedule_new preferred offered prefix)) as [|[a0 c0] hs0] eqn:Ehs; [by destruct Hok|].
  destruct (extract_spec _ a0 c0 hs0 psk Hok Ehs) as (s1'' & Hs1'' & _ & Hg & Hh & Hp & Ht & Hd).
  rewrite Hext in Hs1''. injection Hs1'' as <-. cbn [key_schedule_new generation] in Hg.
  (* the slot *)
  pose proof (foreach_hash_cover _ _ _ Hin) as Hcov. apply in_map_iff in Hcov as (h & Hhp & Hhin).
  destruct (foreach_hash_suite _ _ _ Hhin) as (cs' & Hcs' & ->).
  assert (Hheq : cs_hash cs' = cs_hash cs) by (by apply Hptr). rewrite Hheq in *. clear cs' Hcs' Hheq Hhp.
  apply list_elem_of_In, list_elem_of_lookup_1 in Hhin as [k Hk]. rewrite (keeps_psk_slot _ _ _ reset _ Hk).
  set (kept := if _ : bool then psk else None).
  destruct (extract_spec _ (cs_hash cs) [] [] kept Hok1 eq_refl) as (s1' & Hs1' & _ & Hg1' & Hh1' & Hp1' & Ht1' & Hd1').
  exists s1'. split; [done|].
  assert (Hslot : hashes (updates s1 ms) !! k = Some (cs_hash cs, concat ms)).
  { rewrite updates_spec. cbn [set_hashes hashes]. rewrite Hh. cbn [key_schedule_new hashes].
    change (map ?f ?l) with (f <$> l). rewrite !list_lookup_fmap, Hk. done. }
  assert (Hgu : generation (updates s1 ms) = 1) by (rewrite updates_spec; cbn; lia).
  assert (Hndu : NoDup (map (fun h => hash_ptr (fst h)) (hashes (updates s1 ms)))).
  { rewrite updates_spec. cbn [set_hashes hashes]. rewrite map_map, Hh. destruct Hok.
    erewrite map_ext; [exact sched_distinct0|]. by intros [a c]. }
  assert (Hs1u : updates s1' ms = set_hashes s1' [(cs_hash cs, concat ms)]) by (by rewrite updates_spec, Hh1').
  assert (Hpre : hkdf_label_prefix (updates s1 ms) = default PTLS_HKDF_EXPAND_LABEL_PREFIX prefix) by (rewrite updates_spec; cbn; by rewrite Hp).
  unfold key_schedule_select_one. rewrite Hgu. cbn [Z.eqb Pos.eqb c_assert res_bind].
  rewrite (find_slot_present _ _ 0 k _ _ Hndu Hslot eq_refl). cbn [res_bind Nat.add].
  replace (match k with O => Ok (0%nat, reset) | S _ => Ok (k, true) end) with (Ok (k, reset || negb (k =? 0)%nat))
    by (destruct k; cbn; by rewrite ?orb_false_r, ?orb_true_r).
  cbn [res_bind]. rewrite Hslot, Hs1u. destruct (reset || negb (k =? 0)%nat) eqn:Er.
  { cbn [set_hashes generation hkdf_label_prefix hashes]. rewrite Hgu, Hpre. apply restart_spec; [done|].
    subst kept. by destruct reset, k. }
  destruct reset; [done|]. destruct k; [|done]. rewrite updates_spec. unfold set_hashes. cbn [generation hkdf_label_prefix secret hashes]. f_equal. f_equal.
  - cbn in Hg1'. lia.
  - by rewrite Hp, Hp1'.
  - destruct (foreach_hash preferred offered) as [|h0 l0] eqn:Ef; [done|]. injection Hk as ->.
    cbn [key_schedule_new hashes] in Ehs. rewrite Ef in Ehs. injection Ehs as <- <- <-.
    rewrite <- (take_drop (digest_size (cs_hash cs)) (secret s1)), <- (take_drop (digest_size (cs_hash cs)) (secret s1')).
    rewrite Ht, Ht1', Hd, Hd1'. done.
Qed.

(** The transcript does not influence the secret. *)
Lemma next_salt_update algo s m : next_salt algo (ptls__key_schedule_update_hash s m) = next_salt algo s.
Proof. done. Qed.

Lemma rfc_derive_length algo `{!HashLaws algo} prefix S label hash : length (rfc_derive algo prefix S label hash) = digest_size algo.
Proof. by apply rfc5869_expand_length. Qed.

Lemma rfc_derive_bytes algo `{!HashLaws algo} prefix S label hash : is_bytes (rfc_derive algo prefix S label hash).
Proof. by apply rfc5869_expand_bytes. Qed.

Lemma take_digest algo `{!HashLaws algo} m : take (digest_size algo) (digest algo m) = digest algo m.
Proof. apply take_ge. by rewrite digest_length. Qed.

Lemma derive_secret_spec s algo ctx hs label :
  sched_ok s -> hashes s = (algo, ctx) :: hs ->
  derive_secret s label
  = Ok (rfc_derive algo (hkdf_label_prefix s) (take (digest_size algo) (secret s)) label (digest algo ctx)).
Proof.
  intros Hok Hh. destruct Hok. rewrite Hh in sched_laws0. pose proof (Forall_inv sched_laws0) as Hl. cbn [fst] in Hl.
  unfold derive_secret, transcript_hash, derive_secret_with_hash, hash0. rewrite Hh. cbn [res_bind hash_final fst].
  rewrite take_digest by done. apply expand_label_spec; [done | by apply Forall_take|].
  rewrite length_take. pose proof (digest_size_block (algo:=algo)). lia.
Qed.

Lemma calc_verify_data_spec s algo ctx hs sec :
  sched_ok s -> hashes s = (algo, ctx) :: hs -> is_bytes sec ->
  calc_verify_data s sec
  = Ok (rfc_verify_data algo (hkdf_label_prefix s) (take (digest_size algo) sec) ctx).
Proof.
  intros Hok Hh Hb. destruct Hok. rewrite Hh in sched_laws0. pose proof (Forall_inv sched_laws0) as Hl. cbn [fst] in Hl.
  pose proof (digest_size_block (algo:=algo)) as Hblk.
  unfold calc_verify_data, transcript_hash, hash0. rewrite Hh. cbn [res_bind hash_final fst].
  rewrite expand_label_spec; [|done | by apply Forall_take | rewrite length_take; lia]. cbn [res_bind].
  rewrite hmac_create_spec; [| by apply rfc_derive_bytes | rewrite rfc_derive_length by done; lia]. cbn [res_bind].
  rewrite take_digest, hmac_update_spec, hmac_final_free by (done || by apply rfc_derive_bytes). done.
Qed.

Lemma signdata_spec s algo ctx hs context_string :
  sched_ok s -> hashes s = (algo, ctx) :: hs -> (length context_string <= 33)%nat ->
  build_certificate_verify_signdata s context_string
  = Ok (replicate 64 32 ++ context_string ++ [0] ++ digest algo ctx).
Proof.
  intros Hok Hh Hc. destruct Hok. rewrite Hh in sched_laws0. pose proof (Forall_inv sched_laws0) as Hl. cbn [fst] in Hl.
  unfold build_certificate_verify_signdata, transcript_hash, hash0. rewrite Hh. cbn [res_bind hash_final fst].
  set (data := _ ++ _). assert (Hlen : (length data <= PTLS_MAX_CERTIFICATE_VERIFY_SIGNDATA_SIZE)%nat).
  { unfold data. rewrite !length_app, length_replicate, digest_length. pose proof (digest_size_max (algo:=algo)) as Hm.
    unfold PTLS_MAX_CERTIFICATE_VERIFY_SIGNDATA_SIZE, PTLS_MAX_DIGEST_SIZE in *. simpl length. lia. }
  apply Nat.leb_le in Hlen. rewrite Hlen. done.
Qed.

(** ** Properties *)

Lemma updates_ok s ms : sched_ok s -> sched_ok (updates s ms).
Proof. revert s. induction ms as [|m ms IH]; intros s Hs; [done|]. by apply IH, update_ok. Qed.

(** One extraction of a schedule for a single hash, after some messages. *)
Lemma extract_single s algo transcript ms ikm :
  sched_ok s -> hashes s = [(algo, transcript)] ->
  exists s', key_schedule_extract (updates s ms) ikm = Ok s' /\ sched_ok s' /\ generation s' = generation s + 1 /\
    hashes s' = [(algo, transcript ++ concat ms)] /\ hkdf_label_prefix s' = hkdf_label_prefix s /\
    take (digest_size algo) (secret s') = HMAC algo (next_salt algo s) (default (rfc_zero algo) ikm).
Proof.
  intros Hok Hh. assert (Hu : hashes (updates s ms) = [(algo, transcript ++ concat ms)]) by (rewrite updates_spec; cbn [set_hashes hashes]; by rewrite Hh).
  destruct (extract_spec (updates s ms) algo _ [] ikm (updates_ok s ms Hok) Hu) as (s' & H & Hok' & Hg & Hh' & Hp & Ht & _).
  exists s'. rewrite Hh', Hu. rewrite updates_spec in Hg, Hp, Ht. done.
Qed.

(** C12: the three extractions of a handshake produce the early, handshake and
    master secrets of RFC 8446 section 7.1, whatever messages enter the transcript
    in between, and the secrets derived from the handshake and the master secret
    under any label are Derive-Secret of all messages so far; the labels are
    those of the RFC, with ["tls13 "] unless the application replaces it.
    Allocations are taken to succeed. *)
Theorem key_schedule_is_rfc8446 cs prefix psk dhe ms1 ms2 ms3 :
  HashLaws (cs_hash cs) ->
  let algo := cs_hash cs in
  let p := default rfc_tls13 prefix in
  exists s1 s2 s3,
    key_schedule_extract (key_schedule_new (Some cs) None prefix) psk = Ok s1 /\
    key_schedule_extract (updates s1 ms1) dhe = Ok s2 /\
    key_schedule_extract (updates s2 ms2) None = Ok s3 /\
    generation s3 = 3 /\
    take (digest_size algo) (secret s1) = rfc_early algo psk /\
    take (digest_size algo) (secret s2) = rfc_handshake algo p psk dhe /\
    take (digest_size algo) (secret s3) = rfc_master algo p psk dhe /\
    forall label,
      derive_secret (updates s2 ms2) label = Ok (rfc_derive algo p (rfc_handshake algo p psk dhe) label (digest algo (concat ms1 ++ concat ms2))) /\
      derive_secret (updates s3 ms3) label
      = Ok (rfc_derive algo p (rfc_master algo p psk dhe) label (digest algo (concat ms1 ++ concat ms2 ++ concat ms3))).
Proof.
  intros Hl algo p. set (s0 := key_schedule_new (Some cs) None prefix).
  assert (Hok0 : sched_ok s0) by (apply new_ok; [done | by constructor]).
  destruct (extract_single s0 algo [] [] psk Hok0 eq_refl) as (s1 & H1 & Hok1 & Hg1 & Hh1 & Hp1 & Ht1).
  destruct (extract_single s1 algo _ ms1 dhe Hok1 Hh1) as (s2 & H2 & Hok2 & Hg2 & Hh2 & Hp2 & Ht2).
  destruct (extract_single s2 algo _ ms2 None Hok2 Hh2) as (s3 & H3 & Hok3 & Hg3 & Hh3 & Hp3 & Ht3).
  assert (Hp : hkdf_label_prefix s0 = p) by done. change (generation s0) with 0 in Hg1.
  unfold next_salt in Ht1, Ht2, Ht3. rewrite Hg2 in Hg3, Ht3. rewrite Hg1 in Hg3, Ht3, Ht2. change (generation s0 =? 0) with true in Ht1.
  change (0 + 1 =? 0) with false in Ht2. change (0 + 1 + 1 =? 0) with false in Ht3. cbv iota in Ht1, Ht2, Ht3.
  assert (He : take (digest_size algo) (secret s1) = rfc_early algo psk).
  { rewrite Ht1. unfold rfc_early. f_equal. by apply take_zeroes. }
  rewrite He, Hp1, Hp in Ht2. fold (rfc_handshake algo p psk dhe) in Ht2.
  rewrite Ht2, Hp2, Hp1, Hp in Ht3. fold (rfc_master algo p psk dhe) in Ht3.
  exists s1, s2, s3. split_and!; try done. intros label. split.
  - rewrite (derive_secret_spec _ algo (concat ms1 ++ concat ms2) []); [| by apply updates_ok | rewrite updates_spec; cbn [set_hashes hashes]; by rewrite Hh2].
    rewrite updates_spec. cbn [set_hashes hkdf_label_prefix secret]. by rewrite Hp2, Hp1, Ht2.
  - rewrite (derive_secret_spec _ algo (concat ms1 ++ concat ms2 ++ concat ms3) []);
      [| by apply updates_ok | rewrite updates_spec; cbn [set_hashes hashes]; rewrite Hh3; cbn [map concat app]; by rewrite <- app_assoc].
    rewrite updates_spec. cbn [set_hashes hkdf_label_prefix secret]. by rewrite Hp3, Hp2, Hp1, Ht3.
Qed.

Definition toy_cs : ptls_cipher_suite_t := mk_cs 0x1301 toy_aead toy_hash.

Lemma key_schedule_is_rfc8446_witness :
  exists s1, key_schedule_extract (key_schedule_new (Some toy_cs) None None) (Some [1; 2]) = Ok s1 /\
    take 32 (secret s1) = rfc_early toy_hash (Some [1; 2]).
Proof.
  destruct (key_schedule_is_rfc8446 toy_cs None (Some [1; 2]) None [[1]] [[2]; [3; 4]] []) as (s1 & _ & _ & H & _ & _ & _ & H' & _);
    [apply toy_hash_laws | eauto].
Defined.

(** C24: running the transcript hashes of all offered suites in parallel and
    keeping one is the same as having offered that one only: for every offered
    suite, every preference, pre-shared key and sequence of messages,
    [key_schedule_select_one] succeeds (its assertion holds and the slot exists)
    and yields the schedule a single-suite client would have: with the
    pre-shared key if the caller does not reset the schedule (it was not refused)
    and the selected hash is the one the key was extracted with, without it
    otherwise. *)
Theorem select_one_refines_single preferred offered prefix psk reset cs ms :
  In cs (suites_of preferred offered) ->
  Forall (fun cs => HashLaws (cs_hash cs)) (suites_of preferred offered) ->
  (forall a b, In a (suites_of preferred offered) -> In b (suites_of preferred offered) ->
     hash_ptr (cs_hash a) = hash_ptr (cs_hash b) -> cs_hash a = cs_hash b) ->
  exists s1 s1',
    key_schedule_extract (key_schedule_new preferred offered prefix) psk = Ok s1 /\
    key_schedule_extract (key_schedule_new (Some cs) None prefix) (if keeps_psk preferred offered cs reset then psk else None) = Ok s1' /\
    key_schedule_select_one (updates s1 ms) cs reset = Ok (updates s1' ms).
Proof.
  intros Hin Hlaws Hptr. assert (Hne : suites_of preferred offered <> []) by (intros E; by rewrite E in Hin).
  pose proof (new_ok preferred offered prefix Hne Hlaws) as Hok.
  destruct (hashes (key_schedule_new preferred offered prefix)) as [|[a0 c0] hs0] eqn:Ehs; [by destruct Hok|].
  destruct (extract_spec _ a0 c0 hs0 psk Hok Ehs) as (s1 & Hs1 & _).
  destruct (select_spec preferred offered prefix cs psk reset ms s1 Hin Hlaws Hptr Hs1) as (s1' & H1 & H2). by exists s1, s1'.
Qed.

(** A second hash, with another digest. *)
Definition toy_hash2 : ptls_hash_algorithm_t := mk_hash 2 128 48 (fun m => be 48 (Z.of_nat (length m) + 1)) (be 48 1).
#[export] Instance toy_hash2_laws : HashLaws toy_hash2.
Proof.
  constructor; cbn [toy_hash2 digest digest_size block_size empty_digest]; intros; try apply length_be; try apply be_bytes.
  all: first [done | unfold PTLS_MAX_DIGEST_SIZE; lia].
Qed.
Definition toy_cs2 : ptls_cipher_suite_t := mk_cs 0x1302 toy_aead toy_hash2.

(** A client that offers two suites with different hashes and a pre-shared key
    for the first; the server picks the second. *)
Lemma select_one_refines_single_witness :
  exists s1 s1',
    key_schedule_extract (key_schedule_new (Some toy_cs) (Some [toy_cs; toy_cs2]) None) (Some [7]) = Ok s1 /\
    length (hashes (key_schedule_new (Some toy_cs) (Some [toy_cs; toy_cs2]) None)) = 2%nat /\
    key_schedule_extract (key_schedule_new (Some toy_cs2) None None) None = Ok s1' /\
    key_schedule_select_one (updates s1 [[1]; [2; 3]]) toy_cs2 true = Ok (updates s1' [[1]; [2; 3]]).
Proof.
  destruct (select_one_refines_single (Some toy_cs) (Some [toy_cs; toy_cs2]) None (Some [7]) true toy_cs2 [[1]; [2; 3]]) as (s1 & s1' & H1 & H2 & H3).
  - right. right. by left.
  - repeat first [apply Forall_cons_2; [first [apply toy_hash_laws | apply toy_hash2_laws]|] | apply Forall_nil_2].
  - intros a b [<-|[<-|[<-|[]]]] [<-|[<-|[<-|[]]]] E; first [reflexivity | discriminate E].
  - exists s1, s1'. exact (conj H1 (conj eq_refl (conj H2 H3))).
Defined.

(** Selecting a suite whose hash was not offered reads outside of the array of
    hashes: [found_slot] is still [SIZE_MAX] when it is used as an index. *)
Theorem select_one_unknown_hash s cs reset :
  generation s = 1 -> ~ In (hash_ptr (cs_hash cs)) (map (fun h => hash_ptr (fst h)) (hashes s)) ->
  key_schedule_select_one s cs reset = Stuck OutOfBounds.
Proof.
  intros Hg Hin. unfold key_schedule_select_one. rewrite Hg. cbn [Z.eqb Pos.eqb c_assert res_bind].
  by rewrite find_slot_absent.
Qed.

Lemma select_one_unknown_hash_witness :
  key_schedule_select_one (mk_sched 1 [] [] []) toy_cs false = Stuck OutOfBounds.
Proof. apply (select_one_unknown_hash (mk_sched 1 [] [] []) toy_cs false); [done | cbn; tauto]. Defined.
