(* ===== verification/Messages.v ===== *)
(** * Messages: the parts of handshake messages

    Readers and writers of the structures carried by handshake messages
    ([lib/picotls.c]): session tickets and session identifiers, signature
    algorithms, key shares, server names, certificates and certificate requests,
    and the selection loops over the lists a peer sends.

    Main results: every reader, on every input, stays inside of it, ends, and
    fails only with the documented alerts; what the writers produce is read back;
    the selection loops return the first acceptable entry of the peer's list. *)
From S2P Require Import Prelude Constants Wire Crypto KeySchedule Extensions.

(** ** Key exchanges

    Implemented by the crypto backends.  [env] numbers the calls to the
    environment, so that each call may return fresh randomness.  Failures are
    non-zero codes. *)
Record ptls_key_exchange_context_t := mk_kxc {
  kxc_id : Z;
  kxc_pubkey : bytes;
  kxc_on_exchange : bytes -> Z + bytes
}.

Record ptls_key_exchange_algorithm_t := mk_kx {
  kx_id : Z;
  kx_create : Z -> Z + ptls_key_exchange_context_t;
  kx_exchange : Z -> bytes -> Z + (bytes * bytes)
}.

(** The callback [ctx->on_extension]; [NULL] is [None]. *)
Definition on_extension_t : Type := option (Z -> Z -> bytes -> Z).

(** [if (ctx->on_extension != NULL && (ret = ctx->on_extension->cb(...) != 0)) goto Exit;]
    The comparison binds tighter than the assignment: a failing callback makes
    the function return 1, not the code of the callback. *)
Definition call_on_extension (on_extension : on_extension_t) (hstype exttype : Z) (data : bytes) : res unit :=
  match on_extension with
  | None => Ok tt
  | Some cb => if cb hstype exttype data =? 0 then Ok tt else Err 1
  end.

(** First entry of a [NULL]-terminated array with the given id. *)
Definition find_kx (candidates : list ptls_key_exchange_algorithm_t) (id : Z) : option ptls_key_exchange_algorithm_t :=
  List.find (fun c => kx_id c =? id) candidates.
Definition find_cs (candidates : list ptls_cipher_suite_t) (id : Z) : option ptls_cipher_suite_t :=
  List.find (fun c => cs_id c =? id) candidates.

Section Readers.
Context (mem : bytes).

(** ** NewSessionTicket *)

Record new_session_ticket := mk_nst {
  nst_lifetime : Z;
  nst_age_add : Z;
  nst_nonce : bytes;
  nst_ticket : bytes;
  nst_max_early_data_size : Z
}.

Definition new_session_ticket_extension (on_extension : on_extension_t) (exttype : Z) (max_early_data_size : Z) (src end_ : nat)
    : res (Z * nat) :=
  let! _ := call_on_extension on_extension PTLS_HANDSHAKE_TYPE_NEW_SESSION_TICKET exttype (slice mem src end_) in
  if exttype =? PTLS_EXTENSION_TYPE_EARLY_DATA then ptls_decode32 mem src end_
  else Ok (max_early_data_size, end_).

Definition decode_new_session_ticket (on_extension : on_extension_t) (src end_ : nat) : res new_session_ticket :=
  let! '(lifetime, src) := ptls_decode32 mem src end_ in
  let! '(age_add, src) := ptls_decode32 mem src end_ in
  let! '(nonce, src) := ptls_decode_open_block mem src end_ 1 (take_all mem) in
  let! '(ticket, src) := ptls_decode_open_block mem src end_ 2 (fun src end_ =>
    if (src =? end_)%nat then Err PTLS_ALERT_DECODE_ERROR else take_all mem src end_) in
  let! '(max_early_data_size, src) :=
    decode_extensions mem src end_ PTLS_HANDSHAKE_TYPE_NEW_SESSION_TICKET (new_session_ticket_extension on_extension) 0 in
  Ok (mk_nst lifetime age_add nonce ticket max_early_data_size).

(** ** Tickets stored by the client *)

Record stored_ticket := mk_stored {
  st_key_share : ptls_key_exchange_algorithm_t;
  st_cs : ptls_cipher_suite_t;
  st_secret : bytes;
  st_obfuscated_ticket_age : Z;
  st_ticket : bytes;
  st_max_early_data_size : Z
}.

Definition decode_stored_session_ticket (on_extension : on_extension_t) (key_exchanges : list ptls_key_exchange_algorithm_t)
    (cipher_suites : list ptls_cipher_suite_t) (now : Z) (src end_ : nat) : res stored_ticket :=
  let! '(obtained_at, src) := ptls_decode64 mem src end_ in
  let! '(kxid, src) := ptls_decode16 mem src end_ in
  let! '(csid, src) := ptls_decode16 mem src end_ in
  let! '(nst, src) := ptls_decode_open_block mem src end_ 3 (fun src end_ =>
    let! nst := decode_new_session_ticket on_extension src end_ in Ok (nst, end_)) in
  let! '(secret, src) := ptls_decode_block mem src end_ 2 (take_all mem) in
  match find_kx key_exchanges kxid with
  | None => Err PTLS_ERROR_LIBRARY
  | Some key_share =>
      match find_cs cipher_suites csid with
      | None => Err PTLS_ERROR_LIBRARY
      | Some cs =>
          if negb ((obtained_at <=? now) && (u64 (now - obtained_at) <? 7 * 86400 * 1000)) then Err PTLS_ERROR_LIBRARY
          else
            let age := u32 (u32 (u64 (now - obtained_at)) + nst_age_add nst) in
            Ok (mk_stored key_share cs secret age (nst_ticket nst) (nst_max_early_data_size nst))
      end
  end.

(** ** Session identifiers issued by the server *)

Definition SESSION_IDENTIFIER_MAGIC : bytes := str "ptls0001".

Record session_identifier := mk_sid {
  sid_issued_at : Z;
  sid_psk : bytes;
  sid_ticket_age_add : Z;
  sid_server_name : bytes;
  sid_key_exchange_id : Z;
  sid_csid : Z;
  sid_negotiated_protocol : bytes
}.

Definition decode_session_identifier (src end_ : nat) : res session_identifier :=
  let! '(sid, _) := ptls_decode_block mem src end_ 2 (fun src end_ =>
    if (end_ - src <? length SESSION_IDENTIFIER_MAGIC)%nat then Err PTLS_ALERT_DECODE_ERROR
    else if negb (bool_decide (slice mem src (src + length SESSION_IDENTIFIER_MAGIC) = SESSION_IDENTIFIER_MAGIC))
    then Err PTLS_ALERT_DECODE_ERROR
    else
      let src := (src + length SESSION_IDENTIFIER_MAGIC)%nat in
      let! '(issued_at, src) := ptls_decode64 mem src end_ in
      let! '(psk, src) := ptls_decode_open_block mem src end_ 2 (take_all mem) in
      let! '(key_exchange_id, src) := ptls_decode16 mem src end_ in
      let! '(csid, src) := ptls_decode16 mem src end_ in
      let! '(ticket_age_add, src) := ptls_decode32 mem src end_ in
      let! '(server_name, src) := ptls_decode_open_block mem src end_ 2 (take_all mem) in
      let! '(negotiated_protocol, src) := ptls_decode_open_block mem src end_ 1 (take_all mem) in
      Ok (mk_sid issued_at psk ticket_age_add server_name key_exchange_id csid negotiated_protocol, src)) in
  Ok sid.

(** ** Signature algorithms: at most 16 are kept *)

Definition signature_algorithm_turn (end_ : nat) (sa : list Z) (src : nat) : res (list Z * nat) :=
  let! '(id, src) := ptls_decode16 mem src end_ in
  Ok (if (length sa <? 16)%nat then sa ++ [id] else sa, src).

Definition decode_signature_algorithms (sa : list Z) (src end_ : nat) : res (list Z * nat) :=
  ptls_decode_block mem src end_ 2 (fun src end_ => do_while_ne end_ (signature_algorithm_turn end_) sa src).

(** ** Selection loops *)

(** The remaining entries are not looked at once a suite was selected. *)
Fixpoint select_cipher_loop (fuel : nat) (candidates : list ptls_cipher_suite_t) (src end_ : nat) : res ptls_cipher_suite_t :=
  if (src =? end_)%nat then Err PTLS_ALERT_HANDSHAKE_FAILURE
  else match fuel with
  | O => Stuck OutOfFuel
  | S fuel =>
      let! '(id, src) := ptls_decode16 mem src end_ in
      match find_cs candidates id with
      | Some c => Ok c
      | None => select_cipher_loop fuel candidates src end_
      end
  end.
Definition select_cipher (candidates : list ptls_cipher_suite_t) (src end_ : nat) : res ptls_cipher_suite_t :=
  select_cipher_loop (end_ - src) candidates src end_.

Definition decode_key_share_entry (src end_ : nat) : res (Z * bytes * nat) :=
  let! '(group, src) := ptls_decode16 mem src end_ in
  let! '(key_exchange, src) := ptls_decode_open_block mem src end_ 2 (take_all mem) in
  Ok (group, key_exchange, src).

(** One entry: [selected] and [peer_key] are set together, and once. *)
Definition key_share_turn (candidates : list ptls_key_exchange_algorithm_t) (end_ : nat)
    (selected : option (ptls_key_exchange_algorithm_t * bytes)) (src : nat)
    : res (option (ptls_key_exchange_algorithm_t * bytes) * nat) :=
  let! '(group, key, src) := decode_key_share_entry src end_ in
  Ok (match selected with
      | Some s => Some s
      | None => match find_kx candidates group with Some c => Some (c, key) | None => None end
      end, src).

Definition select_key_share (candidates : list ptls_key_exchange_algorithm_t) (src end_ : nat) (expect_one : bool)
    : res (option (ptls_key_exchange_algorithm_t * bytes) * nat) :=
  if expect_one && (src =? end_)%nat then Err PTLS_ALERT_ILLEGAL_PARAMETER
  else if expect_one then
    let! '(selected, src) := key_share_turn candidates end_ None src in
    match selected with
    | Some _ => Ok (selected, src)
    | None => Err PTLS_ALERT_ILLEGAL_PARAMETER
    end
  else while_ne end_ (key_share_turn candidates end_) None src.

(** The group selected is the first acceptable one of the client's list; the
    function returns from inside of the block. *)
Fixpoint select_group_loop (fuel : nat) (candidates : list ptls_key_exchange_algorithm_t) (src end_ : nat)
    : res (option ptls_key_exchange_algorithm_t) :=
  if (src =? end_)%nat then Ok None
  else match fuel with
  | O => Stuck OutOfFuel
  | S fuel =>
      let! '(group, src) := ptls_decode16 mem src end_ in
      match find_kx candidates group with
      | Some c => Ok (Some c)
      | None => select_group_loop fuel candidates src end_
      end
  end.
Definition select_negotiated_group (candidates : list ptls_key_exchange_algorithm_t) (src end_ : nat)
    : res ptls_key_exchange_algorithm_t :=
  let! '(block_size, src) := decode_block_size mem src end_ 2 in
  if Z.of_nat (end_ - src) <? block_size then Err PTLS_ALERT_DECODE_ERROR
  else
    let block_end := (src + Z.to_nat block_size)%nat in
    let! selected := select_group_loop (block_end - src) candidates src block_end in
    match selected with
    | Some c => Ok c
    | None =>
        let! _ := ptls_decode_assert_block_close block_end end_ in
        Err PTLS_ALERT_HANDSHAKE_FAILURE
    end.

(** ** Server names *)

Definition server_name_turn (end_ : nat) (name : option bytes) (src : nat) : res (option bytes * nat) :=
  let! type := rd mem src in
  ptls_decode_open_block mem (src + 1) end_ 2 (fun src end_ =>
    if type =? PTLS_SERVER_NAME_TYPE_HOSTNAME then
      if existsb (Z.eqb 0) (slice mem src end_) then Err PTLS_ALERT_ILLEGAL_PARAMETER
      else Ok (Some (slice mem src end_), end_)
    else Ok (name, end_)).

(** [name] is the variable the function may assign. *)
Definition client_hello_decode_server_name (name : option bytes) (src end_ : nat) : res (option bytes * nat) :=
  ptls_decode_open_block mem src end_ 2 (fun src end_ =>
    if (src =? end_)%nat then Err PTLS_ALERT_DECODE_ERROR
    else do_while_ne end_ (server_name_turn end_) name src).

(** ** Certificates *)

Record st_ptls_certificate_request_t := mk_cr {
  cr_context : option bytes;
  cr_signature_algorithms : list Z
}.

Definition certificate_request_extension (on_extension : on_extension_t) (exttype : Z) (sa : list Z) (src end_ : nat)
    : res (list Z * nat) :=
  let! _ := call_on_extension on_extension PTLS_HANDSHAKE_TYPE_CERTIFICATE_REQUEST exttype (slice mem src end_) in
  if exttype =? PTLS_EXTENSION_TYPE_SIGNATURE_ALGORITHMS then
    let! '(sa, src) := decode_signature_algorithms sa src end_ in Ok (sa, end_)
  else Ok (sa, end_).

(** [sa] is what [cr->signature_algorithms] holds before. *)
Definition decode_certificate_request (on_extension : on_extension_t) (sa : list Z) (src end_ : nat)
    : res st_ptls_certificate_request_t :=
  let! '(context, src) := ptls_decode_open_block mem src end_ 1 (fun src end_ =>
    if (255 <? end_ - src)%nat then Err PTLS_ALERT_DECODE_ERROR else take_all mem src end_) in
  let! '(sa, src) := decode_extensions mem src end_ PTLS_HANDSHAKE_TYPE_CERTIFICATE_REQUEST
                       (certificate_request_extension on_extension) sa in
  if (length sa =? 0)%nat then Err PTLS_ALERT_MISSING_EXTENSION
  else Ok (mk_cr (Some context) sa).

Definition certificate_turn (on_extension : on_extension_t) (end_ : nat) (certs : list bytes) (src : nat) : res (list bytes * nat) :=
  let! '(certs, src) := ptls_decode_open_block mem src end_ 3 (fun src end_ =>
    Ok (if (length certs <? 16)%nat then certs ++ [slice mem src end_] else certs, end_)) in
  let! '(_, src) := decode_open_extensions mem src end_ PTLS_HANDSHAKE_TYPE_CERTIFICATE (fun exttype st src end_ =>
    let! _ := call_on_extension on_extension PTLS_HANDSHAKE_TYPE_CERTIFICATE exttype (slice mem src end_) in
    Ok (st, end_)) tt in
  Ok (certs, src).

(** The certificates of a Certificate message; at most 16 are kept. *)
Definition decode_certificates (on_extension : on_extension_t) (src end_ : nat) : res (list bytes) :=
  let! '(_, src) := ptls_decode_open_block mem src end_ 1 (fun src end_ =>
    if negb (src =? end_)%nat then Err PTLS_ALERT_ILLEGAL_PARAMETER else Ok (tt, src)) in
  let! '(certs, src) := ptls_decode_block mem src end_ 3 (fun src end_ =>
    while_ne end_ (certificate_turn on_extension end_) [] src) in
  Ok certs.
End Readers.

(** ** Writers *)

(** [psk] is what [derive_resumption_secret] computed, [now] the time. *)
Definition encode_session_identifier (now : Z) (psk : bytes) (ticket_age_add : Z) (server_name : option bytes)
    (key_exchange_id csid : Z) (negotiated_protocol : option bytes) : bytes :=
  push_block 2
    (SESSION_IDENTIFIER_MAGIC ++ push64 now ++ push_block 2 psk ++ push16 key_exchange_id ++ push16 csid ++
     push32 ticket_age_add ++ push_block 2 (default [] server_name) ++ push_block 1 (default [] negotiated_protocol)).

(** [additional_extensions]: [None] when there are no properties or no list. *)
Definition push_additional_extensions (additional_extensions : option (list (Z * bytes))) : bytes :=
  flat_map (fun '(type, data) => buffer_push_extension type data) (default [] additional_extensions).

Definition push_signature_algorithms : bytes :=
  push_block 2
    (push16 PTLS_SIGNATURE_RSA_PSS_RSAE_SHA256 ++ push16 PTLS_SIGNATURE_ECDSA_SECP256R1_SHA256 ++
     push16 PTLS_SIGNATURE_RSA_PKCS1_SHA256 ++ push16 PTLS_SIGNATURE_RSA_PKCS1_SHA1).

Definition push_key_share_entry (group : Z) (pubkey : bytes) : bytes := push16 group ++ push_block 2 pubkey.

Definition emit_server_name_extension (server_name : bytes) : bytes :=
  push_block 2 ([PTLS_SERVER_NAME_TYPE_HOSTNAME] ++ push_block 2 server_name).

(** Only the first certificate carries the OCSP response. *)
Fixpoint push_certificates (first : bool) (certificates : list bytes) (ocsp_status : bytes) : bytes :=
  match certificates with
  | [] => []
  | cert :: certificates =>
      push_block 3 cert ++
      push_block 2 (if first && negb (length ocsp_status =? 0)%nat
                    then buffer_push_extension PTLS_EXTENSION_TYPE_STATUS_REQUEST ([1] ++ push_block 3 ocsp_status) else []) ++
      push_certificates false certificates ocsp_status
  end.

Definition ptls_build_certificate_message (context : bytes) (certificates : list bytes) (ocsp_status : bytes) : bytes :=
  push_block 1 context ++ push_block 3 (push_certificates true certificates ocsp_status).

(** [create_sha256_context]: the hash of the first suite that uses SHA-256. *)
Definition create_sha256_context (cipher_suites : list ptls_cipher_suite_t) : option ptls_hash_algorithm_t :=
  option_map cs_hash
    (List.find (fun c => (cs_id c =? PTLS_CIPHER_SUITE_AES_128_GCM_SHA256) || (cs_id c =? PTLS_CIPHER_SUITE_CHACHA20_POLY1305_SHA256))
       cipher_suites).

(** ** Safety of the readers

    [decode_code] are the codes a reader may fail with: the alerts of the
    protocol, [PTLS_ERROR_LIBRARY] for unusable stored tickets, and 1 for a
    failing callback. *)
Definition decode_code (c : Z) : Prop :=
  existsb (Z.eqb c)
    [1; PTLS_ALERT_DECODE_ERROR; PTLS_ALERT_ILLEGAL_PARAMETER; PTLS_ALERT_HANDSHAKE_FAILURE; PTLS_ALERT_MISSING_EXTENSION;
     PTLS_ALERT_PROTOCOL_VERSION; PTLS_ERROR_LIBRARY] = true.

Lemma find_cs_some candidates id c : find_cs candidates id = Some c -> In c candidates /\ cs_id c = id.
Proof. intros H. apply List.find_some in H as [? H]. by apply Z.eqb_eq in H. Qed.

Lemma find_kx_some candidates id c : find_kx candidates id = Some c -> In c candidates /\ kx_id c = id.
Proof. intros H. apply List.find_some in H as [? H]. by apply Z.eqb_eq in H. Qed.

Section ReaderSafety.
Context (mem : bytes) (Hmem : is_bytes mem).

Lemma wp_on_extension (Q : unit -> Prop) cb hstype exttype data :
  Q tt -> res_post Q decode_code (call_on_extension cb hstype exttype data).
Proof. intros HQ. unfold call_on_extension. destruct cb; [|done]. by destruct (_ =? 0). Qed.

Lemma wp_decode_new_session_ticket cb s e :
  (s <= e <= length mem)%nat ->
  res_post (fun t => nst_ticket t <> [] /\ is_bytes (nst_nonce t) /\ is_bytes (nst_ticket t) /\
                     0 <= nst_lifetime t < 2 ^ 32 /\ 0 <= nst_age_add t < 2 ^ 32 /\ 0 <= nst_max_early_data_size t < 2 ^ 32)
    decode_code (decode_new_session_ticket mem cb s e).
Proof.
  intros Hs. unfold decode_new_session_ticket. wp; [done|].
  apply (wp_extensions mem Hmem (fun m => 0 <= m < 2 ^ 32)); [lia | lia | done | done | |].
  - intros exttype m ss ee Ht Hm Hr1 Hr2 Hr3. unfold new_session_ticket_extension. apply wp_bind, wp_on_extension.
    destruct (_ =? _); [wp; done || lia | by cbn].
  - intros m Hm. cbn. split_and!; try apply slice_bytes; try lia; try done.
    intros E. apply (f_equal length) in E. rewrite length_slice in E by lia. simpl in E. lia.
Qed.
Lemma wp_signature_algorithms (Q : list Z * nat -> Prop) sa s e :
  (s <= e <= length mem)%nat -> (length sa <= 16)%nat ->
  (forall sa', (length sa' <= 16)%nat -> Q (sa', e)) ->
  res_post Q decode_code (decode_signature_algorithms mem sa s e).
Proof.
  intros Hs Hsa HQ. unfold decode_signature_algorithms.
  assert (Hturn : forall e1 sa s1, (s1 <= e1 <= length mem)%nat -> (length sa <= 16)%nat ->
            res_post (fun x => (length x.1 <= 16)%nat /\ (s1 < x.2 <= e1)%nat) decode_code (signature_algorithm_turn mem e1 sa s1)).
  { intros e1 sa1 s1 H1 Hl. unfold signature_algorithm_turn. wp. split; [|lia].
    destruct (Nat.ltb_spec (length sa1) 16); [rewrite length_app; simpl; lia | done]. }
  wp; try done.
  - apply (wp_do_while_ne (fun sa _ => (length sa <= 16)%nat)); [lia | done | |]; intros; [apply Hturn; done || lia | by apply HQ].
  - apply (wp_do_while_ne (fun sa _ => (length sa <= 16)%nat)); [lia | done | |]; intros; [apply Hturn; done || lia | done].
Qed.

Lemma wp_select_cipher (Q : ptls_cipher_suite_t -> Prop) candidates s e :
  (s <= e <= length mem)%nat -> (forall c, In c candidates -> Q c) ->
  res_post Q decode_code (select_cipher mem candidates s e).
Proof.
  intros Hs HQ. unfold select_cipher. assert (Hf : (e - s <= e - s)%nat) by lia. revert Hf.
  generalize (e - s)%nat at 2 3 as fuel. intros fuel. revert s Hs.
  induction fuel as [|fuel IH]; intros s Hs Hf; cbn [select_cipher_loop]; destruct (Nat.eqb_spec s e); try done; [lia|].
  wp; try done. destruct (find_cs candidates _) as [c|] eqn:E; [|apply IH; lia].
  apply HQ, (find_cs_some _ _ _ E).
Qed.

Lemma wp_key_share_entry (Q : Z * bytes * nat -> Prop) s e :
  (s <= e <= length mem)%nat ->
  (forall g k s', 0 <= g < 2 ^ 16 -> is_bytes k -> (s < s' <= e)%nat -> Q (g, k, s')) ->
  res_post Q decode_code (decode_key_share_entry mem s e).
Proof. intros Hs HQ. unfold decode_key_share_entry. wp; try done. apply HQ; [lia | by apply slice_bytes | lia]. Qed.

Definition selected_from (candidates : list ptls_key_exchange_algorithm_t) (o : option (ptls_key_exchange_algorithm_t * bytes)) : Prop :=
  match o with Some (c, k) => In c candidates /\ is_bytes k | None => True end.

Lemma wp_key_share_turn candidates e sel s :
  (s <= e <= length mem)%nat -> selected_from candidates sel ->
  res_post (fun x => selected_from candidates x.1 /\ (s < x.2 <= e)%nat) decode_code (key_share_turn mem candidates e sel s).
Proof.
  intros Hs Hsel. unfold key_share_turn. apply wp_bind, wp_key_share_entry; [done|]. intros g k s' Hg Hk Hs'. cbn.
  split; [|lia]. destruct sel as [[c0 k0]|]; [done|]. destruct (find_kx candidates g) as [c|] eqn:E; [|done].
  cbn. split; [apply (find_kx_some _ _ _ E) | done].
Qed.

Lemma wp_select_key_share (Q : option (ptls_key_exchange_algorithm_t * bytes) * nat -> Prop) candidates s e one :
  (s <= e <= length mem)%nat ->
  (forall o s', selected_from candidates o -> (one = true -> is_Some o /\ (s < s' <= e)%nat) -> (one = false -> s' = e) -> Q (o, s')) ->
  res_post Q decode_code (select_key_share mem candidates s e one).
Proof.
  intros Hs HQ. unfold select_key_share. destruct one; cbn [andb].
  - destruct (s =? e)%nat; [done|]. apply wp_bind. eapply res_post_mono; [apply (wp_key_share_turn candidates); done | | done].
    intros [[x|] s'] [Hx Hs']; cbn in *; [|done]. apply HQ; [done | intros _; split; [eauto | lia] | done].
  - apply (wp_while_ne (fun o _ => selected_from candidates o)); [lia | done | |].
    + intros. apply wp_key_share_turn; [lia | done].
    + intros o Ho. apply HQ; [done | done | done].
Qed.

Lemma wp_select_negotiated_group (Q : ptls_key_exchange_algorithm_t -> Prop) candidates s e :
  (s <= e <= length mem)%nat -> (forall c, In c candidates -> Q c) ->
  res_post Q decode_code (select_negotiated_group mem candidates s e).
Proof.
  intros Hs HQ. unfold select_negotiated_group. apply wp_bind, wp_decode_block_size; [done | done | by right | done |].
  intros v s1 Hv Hs1. cbn. destruct (Z.ltb_spec (Z.of_nat (e - s1)) v); [done|].
  set (be_ := (s1 + Z.to_nat v)%nat). assert (Hbe : (s1 <= be_ <= e)%nat) by (unfold be_; lia). apply wp_bind.
  assert (Hloop : forall fuel s2, (be_ - s2 <= fuel)%nat -> (s2 <= be_)%nat ->
    res_post (fun o => match o with Some c => In c candidates | None => True end) decode_code
      (select_group_loop mem fuel candidates s2 be_)).
  { induction fuel as [|fuel IH]; intros s2 Hf Hs2; cbn [select_group_loop]; destruct (Nat.eqb_spec s2 be_); try done; [lia|].
    wp; try done. destruct (find_kx candidates _) as [c|] eqn:E; [apply (find_kx_some _ _ _ E) | apply IH; lia]. }
  eapply res_post_mono; [apply Hloop; lia | | done]. intros [c|] Hc; [by apply HQ|].
  unfold ptls_decode_assert_block_close. by destruct (_ =? _)%nat.
Qed.

Definition name_ok (o : option bytes) : Prop := match o with Some n => ~ In 0 n /\ is_bytes n | None => True end.

Lemma wp_decode_server_name (Q : option bytes * nat -> Prop) name s e :
  (s <= e <= length mem)%nat -> name_ok name -> (forall n s', name_ok n -> (s < s' <= e)%nat -> Q (n, s')) ->
  res_post Q decode_code (client_hello_decode_server_name mem name s e).
Proof.
  intros Hs Hn HQ. unfold client_hello_decode_server_name. wp; try done.
  apply (wp_do_while_lt (fun n s2 => name_ok n /\ (s1 <= s2)%nat)); [lia | done | |].
  - intros n s2 [Hn' Hle] Hlt. unfold server_name_turn. wp; try done; cbn [fst snd].
    + split_and!; [|lia | lia | lia]. split; [|by apply slice_bytes]. intros Hin.
      assert (Hex : existsb (Z.eqb 0) (slice mem s0 e0) = true) by (apply existsb_exists; by exists 0). congruence.
    + split_and!; [done | lia | lia | lia].
  - intros n [Hn' _]. intros _. apply HQ; [done | lia].
Qed.
Lemma wp_decode_stored_session_ticket cb kxs css now s e :
  (s <= e <= length mem)%nat ->
  res_post (fun t => In (st_key_share t) kxs /\ In (st_cs t) css /\ is_bytes (st_secret t) /\ is_bytes (st_ticket t) /\
                     0 <= st_obfuscated_ticket_age t < 2 ^ 32 /\ 0 <= st_max_early_data_size t < 2 ^ 32)
    decode_code (decode_stored_session_ticket mem cb kxs css now s e).
Proof.
  intros Hs. unfold decode_stored_session_ticket. wp; try done.
  eapply res_post_mono; [apply wp_decode_new_session_ticket; lia | | done].
  intros nst (_ & _ & Ht & _ & Ha & Hm). cbn [res_post fst snd]. intros _. wp; try done.
  destruct (find_kx kxs _) as [kx|] eqn:Ekx; [|done]. destruct (find_cs css _) as [cs|] eqn:Ecs; [|done].
  destruct (negb _); [done|]. cbn. apply find_kx_some in Ekx as [? _]. apply find_cs_some in Ecs as [? _].
  split_and!; try done; try (by apply slice_bytes); try lia; unfold u32; apply Z.mod_pos_bound; lia.
Qed.

Lemma wp_decode_session_identifier s e :
  (s <= e <= length mem)%nat ->
  res_post (fun t => is_bytes (sid_psk t) /\ is_bytes (sid_server_name t) /\ is_bytes (sid_negotiated_protocol t) /\
                     0 <= sid_issued_at t < 2 ^ 64 /\ 0 <= sid_ticket_age_add t < 2 ^ 32)
    decode_code (decode_session_identifier mem s e).
Proof.
  intros Hs. unfold decode_session_identifier. wp; try done; cbn; split_and!; try (by apply slice_bytes); lia.
Qed.

Lemma wp_decode_certificate_request cb sa s e :
  (s <= e <= length mem)%nat -> (length sa <= 16)%nat ->
  res_post (fun cr => (0 < length (cr_signature_algorithms cr) <= 16)%nat) decode_code (decode_certificate_request mem cb sa s e).
Proof.
  intros Hs Hsa. unfold decode_certificate_request. wp; [done|].
  apply (wp_extensions mem Hmem (fun sa => (length sa <= 16)%nat)); [lia | done | done | done | |].
  - intros exttype sa' ss ee Ht Hm Hr1 Hr2 Hr3. unfold certificate_request_extension. apply wp_bind, wp_on_extension.
    destruct (_ =? _); [|by cbn]. apply wp_bind, wp_signature_algorithms; [lia | done|]. by cbn.
  - intros sa' Hsa'. cbn. destruct (Nat.eqb_spec (length sa') 0); [done|]. cbn. lia.
Qed.

Lemma wp_decode_certificates cb s e :
  (s <= e <= length mem)%nat ->
  res_post (fun certs => (length certs <= 16)%nat /\ Forall (fun c => is_bytes c) certs) decode_code (decode_certificates mem cb s e).
Proof.
  intros Hs. unfold decode_certificates.
  assert (Hturn : forall e1 certs s1, (s1 <= e1 <= length mem)%nat ->
            (length certs <= 16)%nat /\ Forall (fun c => is_bytes c) certs ->
            res_post (fun x => ((length x.1 <= 16)%nat /\ Forall (fun c => is_bytes c) x.1) /\ (s1 < x.2 <= e1)%nat) decode_code
              (certificate_turn mem cb e1 certs s1)).
  { intros e1 certs s1 H1 [Hl Hf]. unfold certificate_turn. wp; try done.
    apply (wp_open_extensions mem Hmem (fun _ => True)); [lia | done | done | done | |].
    - intros. apply wp_bind, wp_on_extension. by cbn.
    - intros [] s' _ Hs'. cbn [res_post fst snd]. split; [|lia]. destruct (Nat.ltb_spec (length certs) 16); [|done]. split.
      + rewrite length_app. simpl. lia.
      + apply Forall_app; split; [done|]. constructor; [by apply slice_bytes | done]. }
  wp; try done; apply (wp_while_ne (fun certs _ => (length certs <= 16)%nat /\ Forall (fun c => is_bytes c) certs)); try lia;
    try (split; [simpl; lia | done]); try done; intros; apply Hturn; done || lia.
Qed.
End ReaderSafety.

(** ** What the writers produce is read back *)

(** Lists of 16-bit identifiers. *)
Definition push16_list (ids : list Z) : bytes := flat_map push16 ids.

Lemma length_push16 v : length (push16 v) = 2%nat.
Proof. done. Qed.
Lemma length_push16_list ids : length (push16_list ids) = (2 * length ids)%nat.
Proof. induction ids; simpl; [done|]. rewrite IHids. lia. Qed.

Lemma select_cipher_spec mem candidates ids p fuel :
  at_mem mem p (push16_list ids) -> Forall (fun id => 0 <= id < 2 ^ 16) ids -> (2 * length ids <= fuel)%nat ->
  select_cipher_loop mem fuel candidates p (p + 2 * length ids) =
    match List.find (fun id => bool_decide (is_Some (find_cs candidates id))) ids with
    | Some id => match find_cs candidates id with Some c => Ok c | None => Err PTLS_ALERT_HANDSHAKE_FAILURE end
    | None => Err PTLS_ALERT_HANDSHAKE_FAILURE
    end.
Proof.
  revert p fuel. induction ids as [|id ids IH]; intros p fuel Hat Hr Hf.
  - rewrite Nat.mul_0_r, Nat.add_0_r. destruct fuel; cbn [select_cipher_loop]; by rewrite Nat.eqb_refl.
  - apply Forall_cons_1 in Hr as [Hid Hr]. cbn [push16_list flat_map] in Hat. apply at_mem_app in Hat as [Hat1 Hat2].
    simpl length in *. destruct fuel as [|fuel]; [lia|]. cbn [select_cipher_loop].
    destruct (Nat.eqb_spec p (p + 2 * S (length ids))); [lia|].
    rewrite (decode16_at _ _ _ id) by (done || lia). cbn [res_bind].
    assert (Hu : u16 id = id) by (unfold u16; by apply Z.mod_small). rewrite Hu. cbn [List.find].
    destruct (find_cs candidates id) as [c|] eqn:E.
    + rewrite bool_decide_eq_true_2 by eauto. by rewrite E.
    + rewrite bool_decide_eq_false_2 by (intros [? ?]; done).
      replace (p + 2 * S (length ids))%nat with (p + 2 + 2 * length ids)%nat by lia. apply IH; [done | done | lia].
Qed.

(** [decode16], [open_block] and the others, right where the writers put them. *)
Ltac rd_wire :=
  repeat first
    [ match goal with
      | H : at_mem ?mem ?p (push16 ?v) |- context [ptls_decode16 ?mem ?p ?e] => rewrite (decode16_at mem p e v H) by lia
      | H : at_mem ?mem ?p (push32 ?v) |- context [ptls_decode32 ?mem ?p ?e] => rewrite (decode32_at mem p e v H) by lia
      | H : at_mem ?mem ?p (push64 ?v) |- context [ptls_decode64 ?mem ?p ?e] => rewrite (decode64_at mem p e v H) by lia
      | H : at_mem ?mem ?p (push_block ?n ?body) |- context [ptls_decode_open_block ?mem ?p ?e ?c (take_all ?mem)] =>
          change c with (Z.of_nat n); rewrite (open_block_take mem p e n body H) by lia
      end
    | progress cbn [res_bind] ].

Ltac open_at body :=
  match goal with
  | |- context [ptls_decode_open_block ?mem ?p ?e ?c ?k] =>
      let n := eval vm_compute in (Z.to_nat c) in
      change (ptls_decode_open_block mem p e c k) with (ptls_decode_open_block mem p e (Z.of_nat n) k);
      rewrite (open_block_at mem p e n body) by (done || (simpl; lia))
  end.

Lemma decode_session_identifier_encode mem p now psk age sn kx cs np :
  let enc := encode_session_identifier now psk age sn kx cs np in
  at_mem mem p enc ->
  0 <= now < 2 ^ 64 -> 0 <= age < 2 ^ 32 -> 0 <= kx < 2 ^ 16 -> 0 <= cs < 2 ^ 16 ->
  Z.of_nat (length psk) < 2 ^ 8 -> Z.of_nat (length (default [] sn)) < 2 ^ 12 -> Z.of_nat (length (default [] np)) < 2 ^ 8 ->
  decode_session_identifier mem p (p + length enc)
  = Ok (mk_sid now psk age (default [] sn) kx cs (default [] np)).
Proof.
  intros enc Hat Hnow Hage Hkx Hcs Hpsk Hsn Hnp. unfold enc, encode_session_identifier in *.
  set (sn' := default [] sn) in *. set (np' := default [] np) in *.
  set (body := SESSION_IDENTIFIER_MAGIC ++ _) in *. clear enc.
  assert (Hlb : length body = (8 + 8 + (2 + length psk) + 2 + 2 + 4 + (2 + length sn') + (1 + length np'))%nat).
  { unfold body. rewrite !length_app, !length_push_block. simpl. lia. }
  pose proof Hat as Hat0. unfold push_block in Hat0. apply at_mem_app in Hat0 as [_ Hb]. rewrite length_be in Hb.
  rewrite length_push_block. unfold decode_session_identifier.
  replace (p + (2 + length body))%nat with (p + 2 + length body)%nat by lia.
  change 2 with (Z.of_nat 2) at 1. rewrite (block_at _ _ _ body _ (mk_sid now psk age sn' kx cs np')); [done | done | lia | lia |].
  set (e := (p + 2 + length body)%nat). assert (He : e = (p + 2 + length body)%nat) by done. clearbody e.
  unfold body in Hb. do 7 (apply at_mem_app in Hb as [? Hb]).
  change (length SESSION_IDENTIFIER_MAGIC) with 8%nat in *.
  rewrite ?length_push16, ?length_push_block in *. change (length (push64 now)) with 8%nat in *.
  change (length (push32 age)) with 4%nat in *.
  destruct (Nat.ltb_spec (e - (p + 2)) 8); [lia|].
  rewrite bool_decide_eq_true_2; cbn [negb].
  2: { change 8%nat with (length SESSION_IDENTIFIER_MAGIC) at 1. by apply at_mem_slice. }
  rewrite ?Nat.add_assoc in *. rd_wire. unfold u16, u32, u64. rewrite !Z.mod_small by lia. do 2 f_equal. lia.
Qed.

Lemma server_name_roundtrip_at mem p e name0 name :
  at_mem mem p (emit_server_name_extension name) -> Z.of_nat (length name) < 2 ^ 12 -> ~ In 0 name ->
  (p + length (emit_server_name_extension name) <= e)%nat ->
  client_hello_decode_server_name mem name0 p e = Ok (Some name, (p + length (emit_server_name_extension name))%nat).
Proof.
  intros Hat Hlen Hnul He. unfold emit_server_name_extension in *. set (body := [_] ++ _) in *.
  assert (Hlb : length body = (3 + length name)%nat) by (unfold body; rewrite length_app, length_push_block; simpl; lia).
  rewrite length_push_block in *. unfold client_hello_decode_server_name. open_at body.
  pose proof Hat as Hb. unfold push_block in Hb. apply at_mem_app in Hb as [_ Hb]. rewrite length_be in Hb.
  unfold body in Hb. apply at_mem_app in Hb as [Hb1 Hb2]. change (length [PTLS_SERVER_NAME_TYPE_HOSTNAME]) with 1%nat in Hb2.
  destruct (Nat.eqb_spec (p + 2) (p + 2 + length body)); [lia|].
  unfold do_while_ne, server_name_turn. apply at_mem_cons in Hb1 as [Hb1 _]. rewrite (rd_at _ _ _ Hb1). cbn [res_bind].
  open_at name.
  change (PTLS_SERVER_NAME_TYPE_HOSTNAME =? PTLS_SERVER_NAME_TYPE_HOSTNAME) with true. cbv iota.
  pose proof Hb2 as Hn. unfold push_block in Hn. apply at_mem_app in Hn as [_ Hn]. rewrite length_be in Hn.
  rewrite (at_mem_slice _ _ _ Hn).
  destruct (existsb (Z.eqb 0) name) eqn:Ex; [apply existsb_exists in Ex as (x & Hx & E%Z.eqb_eq); by subst x|].
  cbn [res_bind]. rewrite Nat.eqb_refl. cbn [res_bind]. unfold while_ne.
  replace (p + 2 + 1 + 2 + length name)%nat with (p + 2 + length body)%nat by lia.
  rewrite Nat.sub_diag. cbn [while_src]. rewrite Nat.eqb_refl. cbn [res_bind]. rewrite Nat.eqb_refl.
  do 2 f_equal. lia.
Qed.

(** The extensions of the entry of a certificate. *)
Definition certificate_exts (first : bool) (ocsp_status : bytes) : list (Z * bytes) :=
  if first && negb (length ocsp_status =? 0)%nat then [(PTLS_EXTENSION_TYPE_STATUS_REQUEST, [1] ++ push_block 3 ocsp_status)] else [].

Lemma push_certificates_cons first cert certs ocsp :
  push_certificates first (cert :: certs) ocsp
  = (push_block 3 cert ++ push_block 2 (ext_bytes (certificate_exts first ocsp))) ++ push_certificates false certs ocsp.
Proof.
  cbn [push_certificates]. rewrite <- app_assoc. do 3 f_equal. unfold certificate_exts.
  destruct (_ && _); [cbn [ext_bytes flat_map]; by rewrite app_nil_r | done].
Qed.

Lemma certificate_exts_length first ocsp :
  Z.of_nat (length ocsp) < 2 ^ 15 -> Z.of_nat (length (ext_bytes (certificate_exts first ocsp))) < 2 ^ 16.
Proof.
  intros H. unfold certificate_exts. destruct (_ && _); [|done]. cbn [ext_bytes flat_map]. rewrite app_nil_r.
  unfold buffer_push_extension. rewrite length_app, length_push_block, length_app, length_push_block. simpl length. lia.
Qed.

(** The application accepts the extension that carries the OCSP response, if there
    is one. *)
Definition accepts_status (cb : on_extension_t) (ocsp : bytes) : Prop :=
  ocsp <> [] -> call_on_extension cb PTLS_HANDSHAKE_TYPE_CERTIFICATE PTLS_EXTENSION_TYPE_STATUS_REQUEST ([1] ++ push_block 3 ocsp) = Ok tt.

Lemma certificate_turn_at mem cb p e first cert ocsp certs :
  accepts_status cb ocsp ->
  at_mem mem p (push_block 3 cert ++ push_block 2 (ext_bytes (certificate_exts first ocsp))) ->
  Z.of_nat (length cert) < 2 ^ 24 -> Z.of_nat (length ocsp) < 2 ^ 15 -> (length certs < 16)%nat ->
  let n := length (push_block 3 cert ++ push_block 2 (ext_bytes (certificate_exts first ocsp))) in
  (p + n <= e)%nat ->
  certificate_turn mem cb e certs p = Ok (certs ++ [cert], (p + n)%nat).
Proof.
  intros Hacc Hat Hc Ho Hl n He. unfold n in *. clear n. rewrite length_app, !length_push_block in *.
  apply at_mem_app in Hat as [Hat1 Hat2]. rewrite length_push_block in Hat2. unfold certificate_turn.
  open_at cert.
  pose proof Hat1 as Hc1. unfold push_block in Hc1. apply at_mem_app in Hc1 as [_ Hc1]. rewrite length_be in Hc1.
  rewrite (at_mem_slice _ _ _ Hc1). destruct (Nat.ltb_spec (length certs) 16); [|lia]. cbn [res_bind].
  rewrite Nat.eqb_refl. cbn [res_bind]. replace (p + (3 + length cert))%nat with (p + 3 + length cert)%nat in Hat2 by lia.
  assert (Hfits : Forall ext_fits (certificate_exts first ocsp)).
  { unfold certificate_exts. destruct (_ && _); [|done]. constructor; [|done]. split; [done|]. cbn [snd]. rewrite length_app, length_push_block. simpl length. lia. }
  rewrite (open_extensions_at mem _ (p + 3 + length cert) e PTLS_HANDSHAKE_TYPE_CERTIFICATE (certificate_exts first ocsp) tt tt Hat2);
    [cbn [res_bind]; do 2 f_equal; lia | by apply certificate_exts_length | lia | done | done | | |].
  - unfold certificate_exts. destruct (_ && _); [apply NoDup_singleton | apply NoDup_nil_2].
  - unfold certificate_exts. destruct (_ && _); [|done]. by constructor.
  - unfold push_block in Hat2. apply at_mem_app in Hat2 as [_ Hat2]. rewrite length_be in Hat2. revert Hat2.
    unfold certificate_exts. destruct (_ && _) eqn:Eb; [|done]. rewrite ext_bytes_cons. intros [Hat2 _]%at_mem_app. unfold buffer_push_extension in Hat2.
    apply at_mem_app in Hat2 as [_ Hat2]. unfold push_block in Hat2 at 1. apply at_mem_app in Hat2 as [_ Hat2]. rewrite length_be in Hat2.
    change (length (push16 _)) with 2%nat in Hat2. replace (p + 3 + length cert + 2 + 2 + 2)%nat with (p + 3 + length cert + 2 + 4)%nat in Hat2 by lia.
    cbn [handle_all]. rewrite (at_mem_slice _ _ _ Hat2), Hacc by (intros ->; by rewrite andb_false_r in Eb). cbn [res_bind]. by rewrite Nat.eqb_refl.
Qed.

Lemma certificates_at mem cb certs first ocsp p fuel acc :
  accepts_status cb ocsp ->
  at_mem mem p (push_certificates first certs ocsp) -> Z.of_nat (length ocsp) < 2 ^ 15 ->
  Forall (fun c => Z.of_nat (length c) < 2 ^ 24) certs -> (length acc + length certs <= 16)%nat ->
  let e := (p + length (push_certificates first certs ocsp))%nat in
  (e - p <= fuel)%nat ->
  while_src fuel e (certificate_turn mem cb e) acc p = Ok (acc ++ certs, e).
Proof.
  intros Hacc Hat Ho. revert first p fuel acc Hat. induction certs as [|cert certs IH]; intros first p fuel acc Hat Hf Hn e Hfu.
  - assert (e = p) as -> by (unfold e; cbn; lia). rewrite app_nil_r. destruct fuel; cbn [while_src]; by rewrite Nat.eqb_refl.
  - apply Forall_cons_1 in Hf as [Hc Hf]. rewrite push_certificates_cons in Hat. unfold e in *. clear e.
    rewrite push_certificates_cons in *. set (hd := push_block 3 cert ++ _) in *. apply at_mem_app in Hat as [Hat1 Hat2].
    assert (Hhd : (0 < length hd)%nat) by (unfold hd; rewrite length_app, !length_push_block; lia).
    rewrite length_app in *. simpl length in Hn. destruct fuel as [|fuel]; [lia|]. cbn [while_src].
    destruct (Nat.eqb_spec p (p + (length hd + length (push_certificates false certs ocsp)))); [lia|].
    rewrite (certificate_turn_at mem cb p _ first cert ocsp acc Hacc Hat1 Hc Ho) by (fold hd; lia). fold hd. cbn [res_bind].
    rewrite Nat.add_assoc. change (cert :: certs) with ([cert] ++ certs). rewrite app_assoc.
    apply (IH false (p + length hd)%nat fuel (acc ++ [cert]) Hat2 Hf); rewrite ?length_app; simpl length; lia.
Qed.

(** A toy key exchange for the examples: "public keys" of one octet, multiplied. *)
Definition toy_dh (a : Z) (peer : bytes) : bytes := [u8 (u8 a * hd 0 peer)].
Definition toy_kxc (a : Z) : ptls_key_exchange_context_t := mk_kxc PTLS_GROUP_X25519 [u8 a] (fun peer => inr (toy_dh a peer)).
Definition toy_kx : ptls_key_exchange_algorithm_t :=
  mk_kx PTLS_GROUP_X25519 (fun env => inr (toy_kxc env)) (fun env peer => inr ([u8 env], toy_dh env peer)).

(** ** Properties *)

(** A Certificate message built by [ptls_build_certificate_message] for up to
    16 certificates, with or without an OCSP response that the application accepts,
    is decoded to exactly these certificates in order. *)
Lemma certificate_message_roundtrip pre cb certs ocsp :
  accepts_status cb ocsp ->
  (length certs <= 16)%nat -> Forall (fun c => Z.of_nat (length c) < 2 ^ 24) certs -> Z.of_nat (length ocsp) < 2 ^ 15 ->
  Z.of_nat (length (push_certificates true certs ocsp)) < 2 ^ 24 ->
  let msg := ptls_build_certificate_message [] certs ocsp in
  decode_certificates (pre ++ msg) cb (length pre) (length (pre ++ msg)) = Ok certs.
Proof.
  intros Hacc Hn Hf Ho Hl msg. set (body := push_certificates true certs ocsp) in *.
  assert (Hm : at_mem (pre ++ msg) (length pre) msg) by (pose proof (at_mem_intro pre msg []) as H; by rewrite app_nil_r in H).
  unfold msg, ptls_build_certificate_message in Hm. fold body in Hm. apply at_mem_app in Hm as [Hm1 Hm2].
  change (length (push_block 1 [])) with 1%nat in Hm2. set (mem := pre ++ msg) in *.
  assert (Hlen : length mem = (length pre + 1 + 3 + length body)%nat).
  { unfold mem, msg, ptls_build_certificate_message. fold body. rewrite !length_app, !length_push_block. simpl. lia. }
  rewrite Hlen. unfold decode_certificates. open_at (@nil Z). cbn [length]. rewrite Nat.add_0_r, Nat.eqb_refl. cbn [negb res_bind].
  rewrite Nat.eqb_refl. cbn [res_bind]. change 3 with (Z.of_nat 3) at 1.
  rewrite (block_at _ _ _ body _ certs); [done | done | lia | lia |].
  pose proof Hm2 as Hb. unfold push_block in Hb. apply at_mem_app in Hb as [_ Hb]. rewrite length_be in Hb.
  unfold while_ne. apply (certificates_at mem cb certs true ocsp (length pre + 1 + 3) _ [] Hacc Hb Ho Hf); [simpl; lia|]. fold body. lia.
Qed.

(** Session identifiers round-trip: what [encode_session_identifier] puts into
    a ticket is what [decode_session_identifier] recovers, field by field. *)
Theorem session_identifier_roundtrip now psk age sn kx cs np :
  0 <= now < 2 ^ 64 -> 0 <= age < 2 ^ 32 -> 0 <= kx < 2 ^ 16 -> 0 <= cs < 2 ^ 16 ->
  Z.of_nat (length psk) < 2 ^ 8 -> Z.of_nat (length (default [] sn)) < 2 ^ 12 -> Z.of_nat (length (default [] np)) < 2 ^ 8 ->
  let enc := encode_session_identifier now psk age sn kx cs np in
  decode_session_identifier enc 0 (length enc) = Ok (mk_sid now psk age (default [] sn) kx cs (default [] np)).
Proof. intros. by apply (decode_session_identifier_encode enc 0); [apply at_mem_self|..]. Qed.

Lemma session_identifier_roundtrip_witness :
  let enc := encode_session_identifier 1600000000000 (replicate 32 5) 77 (Some (str "example.com")) 29 0x1301 None in
  decode_session_identifier enc 0 (length enc) = Ok (mk_sid 1600000000000 (replicate 32 5) 77 (str "example.com") 29 0x1301 []).
Proof. apply (session_identifier_roundtrip 1600000000000 (replicate 32 5) 77 (Some (str "example.com")) 29 0x1301 None); done. Defined.

(** The server_name extension written by the client is what the server reads,
    for every host name without NUL octets; a name with a NUL is never accepted,
    whatever the extension contains. *)
Theorem server_name_roundtrip pre name post :
  Z.of_nat (length name) < 2 ^ 12 -> ~ In 0 name ->
  let mem := pre ++ emit_server_name_extension name ++ post in
  client_hello_decode_server_name mem None (length pre) (length pre + length (emit_server_name_extension name))
  = Ok (Some name, (length pre + length (emit_server_name_extension name))%nat).
Proof. intros Hl Hn mem. apply server_name_roundtrip_at; [apply at_mem_intro | done | done | done]. Qed.

(** The server's choice of a cipher suite follows the client's order: it is
    the first identifier of the client's list that the server supports, and the
    handshake fails exactly when there is none. *)
Theorem select_cipher_client_preference candidates ids :
  Forall (fun id => 0 <= id < 2 ^ 16) ids ->
  select_cipher (push16_list ids) candidates 0 (2 * length ids) =
    match List.find (fun id => bool_decide (is_Some (find_cs candidates id))) ids with
    | Some id => match find_cs candidates id with Some c => Ok c | None => Err PTLS_ALERT_HANDSHAKE_FAILURE end
    | None => Err PTLS_ALERT_HANDSHAKE_FAILURE
    end.
Proof.
  intros Hr. unfold select_cipher. rewrite Nat.sub_0_r.
  apply (select_cipher_spec _ candidates ids 0); [apply at_mem_self | done | lia].
Qed.
