(* ===== verification/Minicrypto.v ===== *)
(** * Minicrypto: key exchange and signatures of the minicrypto backend

    [src/lib/uecc.c] and [src/lib/cifra/x25519.c]: the functions that make the curve
    arithmetic of micro-ecc and cifra available as picotls key exchanges and as a
    [sign_certificate] callback. The libraries are parameters ([Uecc], [Curve25519]) with
    the laws their documentation states; [cifra_curve25519] is cifra's own code, the
    X25519 of RFC 7748. What the client and the
    server need from a key exchange is the class [KxLaws]; both backends are shown to
    be instances. *)
From S2P Require Import Prelude X25519 MinicryptoAead Constants Monad Wire Buffer Asn1 Crypto Record KeySchedule Extensions Messages Sha2.

(** ** The contract of a key exchange

    Whatever context the initiator created and whatever key the responder chose, the
    responder derives a secret from the initiator's key, and the initiator the same
    one from the responder's (or it is out of memory). *)
Class KxLaws (kx : ptls_key_exchange_algorithm_t) : Prop := {
  kx_agreement n m kxc pub secret :
    kx_create kx n = inr kxc -> kx_exchange kx m (kxc_pubkey kxc) = inr (pub, secret) ->
    kxc_on_exchange kxc pub = inr secret \/ kxc_on_exchange kxc pub = inl PTLS_ERROR_NO_MEMORY;
  kx_context_id n kxc : kx_create kx n = inr kxc -> kxc_id kxc = kx_id kx
}.

Definition SECP256R1_PRIVATE_KEY_SIZE : nat := 32.
Definition SECP256R1_PUBLIC_KEY_SIZE : nat := 65.
Definition SECP256R1_SHARED_SECRET_SIZE : nat := 32.
Definition TYPE_UNCOMPRESSED_PUBLIC_KEY : Z := 4.
Definition X25519_KEY_SIZE : nat := 32.

(** Whether a [malloc] returns memory: the first ([false]) and the second ([true]) one
    for the [n]th key. *)
Class Memory := malloc_ok : Z -> bool -> bool.

(** ** secp256r1 *)

(** micro-ecc. [uECC_make_key n] is the [n]th key pair (public, private) of the random
    number generator, [uECC_sign n] the signature with its [n]th nonce. Each function
    is [None] when it returns 0 for an error, its output arrays not being written. *)
Class Uecc := {
  uECC_make_key : Z -> option (bytes * bytes);
  uECC_shared_secret : bytes -> bytes -> option bytes;
  uECC_sign : Z -> bytes -> bytes -> option bytes
}.

(** Its documentation: sizes, and both sides of a key agreement get the same. *)
Class UeccLaws (U : Uecc) : Prop := {
  uecc_public_size n pub priv : uECC_make_key n = Some (pub, priv) -> length pub = 64%nat;
  uecc_agreement n m pubn privn pubm privm :
    uECC_make_key n = Some (pubn, privn) -> uECC_make_key m = Some (pubm, privm) ->
    uECC_shared_secret pubn privm = uECC_shared_secret pubm privn;
  uecc_sign_size n key hash sig : uECC_sign n key hash = Some sig -> length sig = 64%nat;
  uecc_sign_bytes n key hash sig : uECC_sign n key hash = Some sig -> is_bytes sig
}.

(** The random number generator works: every key pair is generated. *)
Class UeccReady (U : Uecc) : Prop := uecc_ready n : is_Some (uECC_make_key n).

(** What the arrays for the [n]th key pair (public, private) hold before
    [uECC_make_key] is called. *)
Class Stale := stale_keys : Z -> bytes * bytes.

(** The arrays after [uECC_make_key(pub, priv, uECC_secp256r1());], whose result the
    callers ignore. *)
Definition made_keys `{Uecc, Stale} (n : Z) : bytes * bytes := default (stale_keys n) (uECC_make_key n).

Record st_secp256r1_key_exhchange_t := mk_secp256r1 { secp_priv : bytes; secp_pub : bytes }.

(** The check of the peer's key, the same in both functions. *)
Definition secp256r1_bad_peerkey (peerkey : bytes) : bool :=
  negb (length peerkey =? SECP256R1_PUBLIC_KEY_SIZE)%nat || negb (default 0 (peerkey !! 0%nat) =? TYPE_UNCOMPRESSED_PUBLIC_KEY).

(** The code or the secret ([None] when the caller passed no place for it), and
    [*_ctx], which is [NULL] after a release. *)
Definition secp256r1_on_exchange `{Uecc} (memory : bool) (ctx : st_secp256r1_key_exhchange_t) (release wants_secret : bool) (peerkey : bytes)
    : (Z + option bytes) * option st_secp256r1_key_exhchange_t :=
  let result :=
    if negb wants_secret then inr None
    else if secp256r1_bad_peerkey peerkey
    then inl PTLS_ALERT_DECRYPT_ERROR
    else if negb memory then inl PTLS_ERROR_NO_MEMORY
    else match uECC_shared_secret (drop 1 peerkey) (secp_priv ctx) with
         | None => inl PTLS_ALERT_DECRYPT_ERROR
         | Some secbytes => inr (Some secbytes)
         end in
  (result, if release then None else Some ctx).

(** The secret of a call that asks for it and releases the context. *)
Definition exchanged {C} (r : (Z + option bytes) * C) : Z + bytes :=
  match r.1 with
  | inl code => inl code
  | inr (Some secret) => inr secret
  | inr None => inr []
  end.

Definition secp256r1_create_key_exchange `{Uecc, Stale, Memory} (n : Z) : Z + ptls_key_exchange_context_t :=
  if negb (malloc_ok n false) then inl PTLS_ERROR_NO_MEMORY
  else
    let '(pub, priv) := made_keys n in
    let ctx := mk_secp256r1 priv (TYPE_UNCOMPRESSED_PUBLIC_KEY :: pub) in
    inr (mk_kxc PTLS_GROUP_SECP256R1 (secp_pub ctx) (fun peerkey => exchanged (secp256r1_on_exchange (malloc_ok n true) ctx true true peerkey))).

Definition secp256r1_key_exchange `{Uecc, Stale, Memory} (n : Z) (peerkey : bytes) : Z + (bytes * bytes) :=
  if secp256r1_bad_peerkey peerkey
  then inl PTLS_ALERT_DECRYPT_ERROR
  else if negb (malloc_ok n false) || negb (malloc_ok n true) then inl PTLS_ERROR_NO_MEMORY
  else
    let '(pub, priv) := made_keys n in
    match uECC_shared_secret (drop 1 peerkey) priv with
    | None => inl PTLS_ALERT_DECRYPT_ERROR
    | Some secbytes => inr (TYPE_UNCOMPRESSED_PUBLIC_KEY :: pub, secbytes)
    end.

Definition ptls_minicrypto_secp256r1 `{Uecc, Stale, Memory} : ptls_key_exchange_algorithm_t :=
  mk_kx PTLS_GROUP_SECP256R1 secp256r1_create_key_exchange secp256r1_key_exchange.

Lemma secp256r1_good_peerkey pub : length pub = 64%nat -> secp256r1_bad_peerkey (TYPE_UNCOMPRESSED_PUBLIC_KEY :: pub) = false.
Proof. intros Hp. unfold secp256r1_bad_peerkey. cbn [length]. by rewrite Hp. Qed.

#[export] Instance secp256r1_laws `{U : Uecc, Stale, Memory} `{!UeccLaws U, !UeccReady U} : KxLaws ptls_minicrypto_secp256r1.
Proof.
  split.
  - intros n m kxc pub secret. cbn [ptls_minicrypto_secp256r1 kx_create kx_exchange].
    unfold secp256r1_create_key_exchange, secp256r1_key_exchange, made_keys.
    destruct (uecc_ready n) as [[pubn privn] En]. destruct (uecc_ready m) as [[pubm privm] Em].
    pose proof (uecc_public_size _ _ _ En) as Hn. pose proof (uecc_public_size _ _ _ Em) as Hm.
    pose proof (uecc_agreement _ _ _ _ _ _ En Em) as Ha. rewrite En, Em. cbn [default from_option id].
    destruct (malloc_ok n false); [|done]. intros [= <-].
    cbn [kxc_pubkey kxc_on_exchange secp_pub] in *. rewrite secp256r1_good_peerkey by done.
    destruct (malloc_ok m false), (malloc_ok m true); try done.
    cbn [negb orb drop] in *. rewrite drop_0. destruct (uECC_shared_secret pubn privm); [|discriminate]. intros [= <- <-].
    unfold exchanged, secp256r1_on_exchange. rewrite secp256r1_good_peerkey by done. cbn [negb fst secp_priv drop].
    rewrite drop_0, <- Ha. destruct (malloc_ok n true); [by left | by right].
  - intros n kxc. cbn [ptls_minicrypto_secp256r1 kx_create kx_id]. unfold secp256r1_create_key_exchange.
    destruct (malloc_ok n false); [|done]. destruct (made_keys n). by intros [= <-].
Qed.

(** ** x25519 *)

(** cifra. [ptls_minicrypto_random_bytes n] is the [n]th key drawn. *)
Class Curve25519 := {
  ptls_minicrypto_random_bytes : Z -> bytes;
  cf_curve25519_mul_base : bytes -> bytes;
  cf_curve25519_mul : bytes -> bytes -> bytes
}.

(** Scalar multiplication commutes, and a point has 32 octets. *)
Class Curve25519Laws (C : Curve25519) : Prop := {
  curve25519_base_size k : length (cf_curve25519_mul_base k) = X25519_KEY_SIZE;
  curve25519_agreement a b : cf_curve25519_mul a (cf_curve25519_mul_base b) = cf_curve25519_mul b (cf_curve25519_mul_base a)
}.

Record st_x25519_key_exchange_t := mk_x25519 { x_priv : bytes; x_pub : bytes }.

(** [priv] and [pub] *)
Definition x25519_create_keypair `{Curve25519} (n : Z) : bytes * bytes :=
  let priv := ptls_minicrypto_random_bytes n in (priv, cf_curve25519_mul_base priv).

Definition x25519_derive_secret `{Curve25519} (memory : bool) (clientpriv : option bytes) (clientpub : bytes) (serverpriv : option bytes)
    (serverpub : bytes) : Z + bytes :=
  if negb memory then inl PTLS_ERROR_NO_MEMORY
  else match clientpriv with
       | Some priv => inr (cf_curve25519_mul priv serverpub)
       | None => inr (cf_curve25519_mul (default [] serverpriv) clientpub)
       end.

Definition x25519_on_exchange `{Curve25519} (memory : bool) (ctx : st_x25519_key_exchange_t) (release wants_secret : bool) (peerkey : bytes)
    : (Z + option bytes) * option st_x25519_key_exchange_t :=
  let result :=
    if negb wants_secret then inr None
    else if negb (length peerkey =? X25519_KEY_SIZE)%nat then inl PTLS_ALERT_DECRYPT_ERROR
    else match x25519_derive_secret memory (Some (x_priv ctx)) (x_pub ctx) None peerkey with
         | inl code => inl code
         | inr secret => inr (Some secret)
         end in
  (result, if release then None else Some ctx).

Definition x25519_create_key_exchange `{Curve25519, Memory} (n : Z) : Z + ptls_key_exchange_context_t :=
  if negb (malloc_ok n false) then inl PTLS_ERROR_NO_MEMORY
  else
    let '(priv, pub) := x25519_create_keypair n in
    let ctx := mk_x25519 priv pub in
    inr (mk_kxc PTLS_GROUP_X25519 (x_pub ctx) (fun peerkey => exchanged (x25519_on_exchange (malloc_ok n true) ctx true true peerkey))).

Definition x25519_key_exchange `{Curve25519, Memory} (n : Z) (peerkey : bytes) : Z + (bytes * bytes) :=
  if negb (length peerkey =? X25519_KEY_SIZE)%nat then inl PTLS_ALERT_DECRYPT_ERROR
  else if negb (malloc_ok n false) then inl PTLS_ERROR_NO_MEMORY
  else
    let '(priv, pub) := x25519_create_keypair n in
    match x25519_derive_secret (malloc_ok n true) None peerkey (Some priv) pub with
    | inl code => inl code
    | inr secret => inr (pub, secret)
    end.

Definition ptls_minicrypto_x25519 `{Curve25519, Memory} : ptls_key_exchange_algorithm_t :=
  mk_kx PTLS_GROUP_X25519 x25519_create_key_exchange x25519_key_exchange.

#[export] Instance x25519_laws `{C : Curve25519, Memory} `{!Curve25519Laws C} : KxLaws ptls_minicrypto_x25519.
Proof.
  split.
  - intros n m kxc pub secret. cbn [ptls_minicrypto_x25519 kx_create kx_exchange].
    unfold x25519_create_key_exchange, x25519_key_exchange, x25519_create_keypair.
    destruct (malloc_ok n false); [|done]. intros [= <-]. cbn [kxc_pubkey kxc_on_exchange x_pub].
    rewrite curve25519_base_size, Nat.eqb_refl. destruct (malloc_ok m false); [|done]. unfold x25519_derive_secret at 1.
    destruct (malloc_ok m true); [|done]. cbn [negb default]. intros [= <- <-].
    unfold exchanged, x25519_on_exchange, x25519_derive_secret. cbn [fst negb]. rewrite curve25519_base_size, Nat.eqb_refl. cbn [negb x_priv].
    destruct (malloc_ok n true); [left | by right]. cbn. f_equal. apply curve25519_agreement.
  - intros n kxc. cbn [ptls_minicrypto_x25519 kx_create kx_id]. unfold x25519_create_key_exchange.
    destruct (malloc_ok n false); [|done]. by intros [= <-].
Qed.

(** cifra's own code as an instance: the function it computes is the one of RFC 7748,
    so that the law is the commutativity of RFC 7748's X25519. *)
Section Cifra.
Context (random_bytes : Z -> bytes).

Definition curve25519_mul (k p : bytes) : bytes :=
  match X25519.cf_curve25519_mul (copied X25519_KEY_SIZE k) (copied X25519_KEY_SIZE p) with Ok q => q | _ => [] end.
Definition cifra_curve25519 : Curve25519 := {|
  ptls_minicrypto_random_bytes := random_bytes;
  cf_curve25519_mul_base k := curve25519_mul k X25519._9;
  cf_curve25519_mul := curve25519_mul
|}.

Lemma curve25519_mul_rfc k p : curve25519_mul k p = X25519.rfc7748_X25519 (copied X25519_KEY_SIZE k) (copied X25519_KEY_SIZE p).
Proof. unfold curve25519_mul. rewrite X25519.curve25519_mul_spec; auto using copied_bytes, length_copied. Qed.

#[export] Instance cifra_curve25519_laws :
  (forall k l, length k = 32%nat -> is_bytes k -> length l = 32%nat -> is_bytes l ->
     X25519.rfc7748_X25519 k (X25519.rfc7748_X25519 l X25519._9) = X25519.rfc7748_X25519 l (X25519.rfc7748_X25519 k X25519._9)) ->
  Curve25519Laws cifra_curve25519.
Proof.
  intros H. assert (Hid : forall k l, copied X25519_KEY_SIZE (X25519.rfc7748_X25519 k l) = X25519.rfc7748_X25519 k l).
  { intros k l. apply copied_id; [apply le_bytes | apply length_le]. }
  assert (H9 : copied X25519_KEY_SIZE X25519._9 = X25519._9) by done.
  split; cbn [cifra_curve25519 cf_curve25519_mul_base cf_curve25519_mul].
  - intros k. rewrite curve25519_mul_rfc. apply length_le.
  - intros a b. rewrite !curve25519_mul_rfc, !Hid, H9. apply H; auto using copied_bytes, length_copied.
Qed.
End Cifra.

(** The key exchanges of the minicrypto backend agree: with both x25519 and
    secp256r1, for every pair of keys the responder derives a secret for, the initiator
    derives the same secret from the responder's public key (or reports that it is
    out of memory), and the context carries the group it was created for. The random
    number generator of micro-ecc is taken to work ([UeccReady]). *)
Theorem minicrypto_key_agreement `{U : Uecc, C : Curve25519, Stale, Memory} `{!UeccLaws U, !UeccReady U, !Curve25519Laws C} kx n m kxc pub secret :
  In kx [ptls_minicrypto_secp256r1; ptls_minicrypto_x25519] ->
  kx_create kx n = inr kxc -> kx_exchange kx m (kxc_pubkey kxc) = inr (pub, secret) ->
  (kxc_on_exchange kxc pub = inr secret \/ kxc_on_exchange kxc pub = inl PTLS_ERROR_NO_MEMORY) /\ kxc_id kxc = kx_id kx.
Proof.
  intros Hin Hc Hx. assert (KxLaws kx) by (destruct Hin as [<-|[<-|[]]]; apply _).
  split; [by eapply (kx_agreement (kx := kx)) | by eapply (kx_context_id (kx := kx))].
Qed.

(** ** Signatures *)

Definition ptls_buffer_push_asn1_sequence `{Allocator} (block : M bstate unit) : M bstate unit :=
  ptls_buffer__do_pushv [0x30] ;;; ptls_buffer_push_asn1_block block.

Record ptls_minicrypto_secp256r1sha256_sign_certificate_t := mk_sign { sign_key : bytes }.

(** [for (i = 0; i != num_algorithms; ++i) if (algorithms[i] == ...) break;] *)
Definition offers_ecdsa (algorithms : list Z) : bool := existsb (Z.eqb PTLS_SIGNATURE_ECDSA_SECP256R1_SHA256) algorithms.

(** The octets of a local array that a callee may not have written. *)
Definition written {S A} (o : option A) : M S A := match o with Some a => ret a | None => undefined Uninitialized end.

(** The signature goes to the buffer; the value is [*selected_algorithm]. The result of
    [uECC_sign] is not tested. *)
Definition secp256r1sha256_sign `{Allocator, Uecc} (self : ptls_minicrypto_secp256r1sha256_sign_certificate_t) (n : Z) (input : bytes)
    (algorithms : list Z) : M bstate Z :=
  if negb (offers_ecdsa algorithms) then fail PTLS_ALERT_HANDSHAKE_FAILURE
  else
    let hash := one_shot cf_sha256_init cf_sha256_update cf_sha256_digest_final input in
    let sig := uECC_sign n (sign_key self) hash in
    ptls_buffer_push_asn1_sequence
      (do! sig := written sig in
       ptls_buffer_push_asn1_ubigint (take 32 sig) ;;; ptls_buffer_push_asn1_ubigint (drop 32 sig)) ;;;
    ret PTLS_SIGNATURE_ECDSA_SECP256R1_SHA256.

(** [key] is the pointer and the length of the iovec: [None] is [NULL]. *)
Definition ptls_minicrypto_init_secp256r1sha256_sign_certificate (key : option bytes) (len : Z)
    : res ptls_minicrypto_secp256r1sha256_sign_certificate_t :=
  if negb (len =? Z.of_nat SECP256R1_PRIVATE_KEY_SIZE) then Err PTLS_ERROR_INCOMPATIBLE_KEY
  else match key with
       | None => Stuck NullDeref
       | Some key => if Z.of_nat (length key) <? len then Stuck OutOfBounds else Ok (mk_sign (take SECP256R1_PRIVATE_KEY_SIZE key))
       end.

(** The signature of RFC 3279: a SEQUENCE of two INTEGERs. *)
Definition ecdsa_sig_value (sig : bytes) : bytes := der 0x30 (der_ubigint (take 32 sig) ++ der_ubigint (drop 32 sig)).

Lemma der_ubigint_der bignum :
  (length bignum <= 32)%nat -> exists body, der_ubigint bignum = der 0x02 body /\ (length body <= 33)%nat.
Proof.
  intros Hl. unfold der_ubigint. set (body := _ ++ _).
  assert (Hb : (length body <= 33)%nat).
  { unfold body. rewrite length_app, length_drop. destruct (0x80 <=? _); cbn [length]; lia. }
  exists body. split; [|done]. unfold der, der_length. rewrite (proj2 (Z.ltb_lt _ _)) by lia. done.
Qed.

Lemma ecdsa_sig_value_der sig : length sig = 64%nat -> der_element (ecdsa_sig_value sig).
Proof.
  intros Hl. unfold ecdsa_sig_value.
  destruct (der_ubigint_der (take 32 sig)) as (r & Er & Hr); [rewrite length_take; lia|].
  destruct (der_ubigint_der (drop 32 sig)) as (s & Es & Hs); [rewrite length_drop; lia|].
  assert (Hsmall : forall b, (length b <= 33)%nat -> (length (der 0x02 b) <= 35)%nat).
  { intros b Hb. rewrite length_der. unfold der_length. rewrite (proj2 (Z.ltb_lt _ _)) by lia. cbn [length]. lia. }
  pose proof (Hsmall _ Hr). pose proof (Hsmall _ Hs). rewrite Er, Es.
  apply der_constructed; [done | done | done | rewrite length_app; lia|].
  apply der_more; [apply der_primitive; done || lia|]. rewrite <- (app_nil_r (der 0x02 s)).
  apply der_more; [apply der_primitive; done || lia | apply der_none].
Qed.

Lemma der_ubigint_bytes bignum : (length bignum <= 32)%nat -> is_bytes bignum -> is_bytes (der_ubigint bignum).
Proof.
  intros Hl Hb. unfold der_ubigint. set (body := _ ++ _).
  assert (Hbody : is_bytes body) by (apply Forall_app_2; [destruct (0x80 <=? _); by repeat constructor | by apply Forall_drop]).
  assert (Hlen : (length body <= 33)%nat) by (unfold body; rewrite length_app, length_drop; destruct (0x80 <=? _); cbn [length]; lia).
  repeat apply List.Forall_cons; [done | unfold is_byte; lia | done].
Qed.

Lemma length_der_ubigint bignum : (length bignum <= 32)%nat -> (length (der_ubigint bignum) <= 35)%nat.
Proof.
  intros Hl. unfold der_ubigint. cbn [length]. rewrite length_app, length_drop. destruct (0x80 <=? _); cbn [length]; lia.
Qed.

Lemma ecdsa_sig_value_bytes sig : length sig = 64%nat -> is_bytes sig -> is_bytes (ecdsa_sig_value sig).
Proof.
  intros Hl Hb. unfold ecdsa_sig_value, der.
  pose proof (length_der_ubigint (take 32 sig) ltac:(rewrite length_take; lia)).
  pose proof (length_der_ubigint (drop 32 sig) ltac:(rewrite length_drop; lia)).
  apply List.Forall_cons; [done|]. apply Forall_app_2.
  - unfold der_length. rewrite (proj2 (Z.ltb_lt _ _)) by (rewrite length_app; lia). constructor; [|done]. unfold is_byte. rewrite length_app. lia.
  - apply Forall_app_2; apply der_ubigint_bytes; (rewrite ?length_take, ?length_drop; lia) || by (apply Forall_take || apply Forall_drop).
Qed.

(** Both numbers of a signature are positive, as ECDSA demands. *)
Definition nonzero_halves (sig : bytes) : Prop :=
  (exists b, In b (take 32 sig) /\ b <> 0) /\ (exists b, In b (drop 32 sig) /\ b <> 0).

Lemma length_ecdsa_sig_value sig : length sig = 64%nat -> (length (ecdsa_sig_value sig) <= 72)%nat.
Proof.
  intros Hl. pose proof (length_der_ubigint (take 32 sig) ltac:(rewrite length_take; lia)).
  pose proof (length_der_ubigint (drop 32 sig) ltac:(rewrite length_drop; lia)).
  unfold ecdsa_sig_value. rewrite length_der, length_app. unfold der_length. rewrite (proj2 (Z.ltb_lt _ _)) by lia. cbn [length]. lia.
Qed.

Lemma sign_appends `{Allocator} sig :
  length sig = 64%nat -> nonzero_halves sig ->
  block_appends (ecdsa_sig_value sig)
    (ptls_buffer_push_asn1_sequence
       (do! sig := written (Some sig) in
        ptls_buffer_push_asn1_ubigint (take 32 sig) ;;; ptls_buffer_push_asn1_ubigint (drop 32 sig))).
Proof.
  intros Hl [Hr Hs].
  pose proof (length_der_ubigint (take 32 sig) ltac:(rewrite length_take; lia)).
  pose proof (length_der_ubigint (drop 32 sig) ltac:(rewrite length_drop; lia)).
  unfold ecdsa_sig_value, der, der_length. rewrite (proj2 (Z.ltb_lt _ _)) by (rewrite length_app; lia).
  change (0x30 :: ?x ++ ?y) with ([0x30] ++ x ++ y). apply seq_appends; [apply pushv_appends|].
  apply (push_asn1_block_appends (der_ubigint (take 32 sig) ++ der_ubigint (drop 32 sig))); [rewrite length_app; lia|].
  intros st. revert st. apply (seq_appends (der_ubigint (take 32 sig)) (der_ubigint (drop 32 sig)));
    apply push_asn1_ubigint_appends; done || lia.
Qed.

(** What follows a push that finds its memory. *)
Lemma after_pushv `{Allocator} {A} src (k : M bstate A) (Q : outcome bstate A -> Prop) st :
  buf_ok (buf st) -> off (buf st) + Z.of_nat (length src) <= 2 ^ 63 ->
  (forall st', no_memory st PTLS_ERROR_NO_MEMORY st' -> Q (Fail PTLS_ERROR_NO_MEMORY st')) ->
  (forall st', appends src st st' -> Q (k st')) ->
  Q ((ptls_buffer__do_pushv src ;;; k) st).
Proof.
  intros Hok Hoff Hf Hk. pose proof (pushv_spec src st Hok Hoff) as Hp. unfold wpm in Hp. unfold bind.
  destruct (ptls_buffer__do_pushv src st) as [[] st'|c st'|?]; [by apply Hk | | done].
  pose proof Hp as [-> _]. by apply Hf.
Qed.

(** Without a signature the array is read before anything has been stored in it. *)
Lemma sign_undefined `{Allocator} st :
  buf_ok (buf st) -> is_Some (base (buf st)) -> off (buf st) + 80 <= 2 ^ 63 ->
  match ptls_buffer_push_asn1_sequence
          (do! sig := written None in
           ptls_buffer_push_asn1_ubigint (take 32 sig) ;;; ptls_buffer_push_asn1_ubigint (drop 32 sig)) st with
  | Undefined f => f = Uninitialized
  | Fail c _ => c = PTLS_ERROR_NO_MEMORY
  | Done _ _ => False
  end.
Proof.
  intros Hok Hb Hoff. unfold ptls_buffer_push_asn1_sequence.
  apply (after_pushv [0x30] _ (fun o => match o with Undefined f => f = Uninitialized | Fail c _ => c = PTLS_ERROR_NO_MEMORY | Done _ _ => False end));
    [done | cbn [length]; lia | done |]. intros st1 (Hok1 & Hc1 & _ & _).
  pose proof (length_contents _ Hok) as Hl. pose proof (length_contents _ Hok1) as Hl1. rewrite Hc1, length_app in Hl1. cbn [length] in Hl1.
  unfold ptls_buffer_push_asn1_block.
  by apply (after_pushv [0xff] _ (fun o => match o with Undefined f => f = Uninitialized | Fail c _ => c = PTLS_ERROR_NO_MEMORY | Done _ _ => False end));
    [done | cbn [length]; lia | |].
Qed.


(** ** Concrete runs *)

(** Stand-ins for the libraries: "curves" over the octets. *)
#[local] Instance toy_memory : Memory := fun _ _ => true.
#[local] Instance toy_stale : Stale := fun _ => ([], []).
#[local] Instance toy_uecc : Uecc := {|
  uECC_make_key n := Some (replicate 64 (u8 n), replicate 32 (u8 n));
  uECC_shared_secret pub priv := Some [u8 (default 0 (head pub) * default 0 (head priv))];
  uECC_sign n key hash := if n =? 13 then None else Some (replicate 64 200)
|}.
#[local] Instance toy_curve : Curve25519 := {|
  ptls_minicrypto_random_bytes n := replicate 32 (u8 n);
  cf_curve25519_mul_base k := replicate 32 (default 0 (head k));
  cf_curve25519_mul a b := replicate 32 (u8 (default 0 (head a) * default 0 (head b)))
|}.

#[local] Instance toy_uecc_laws : UeccLaws toy_uecc.
Proof.
  split.
  - intros n pub priv [= <- <-]. reflexivity.
  - intros n m pubn privn pubm privm [= <- <-] [= <- <-]. cbn. do 2 f_equal. by rewrite Z.mul_comm.
  - intros n key hash sig. cbn. destruct (n =? 13); [done|]. intros [= <-]. reflexivity.
  - intros n key hash sig. cbn. destruct (n =? 13); [done|]. intros [= <-]. apply (bool_decide_unpack _). reflexivity.
Qed.
#[local] Instance toy_uecc_ready : UeccReady toy_uecc.
Proof. intros n. by eexists. Qed.

#[local] Instance toy_curve_laws : Curve25519Laws toy_curve.
Proof. split; intros; [apply length_replicate|]. cbn. by rewrite Z.mul_comm. Qed.

Definition toy_context_of (kx : ptls_key_exchange_algorithm_t) (n : Z) : ptls_key_exchange_context_t :=
  match kx_create kx n with inr kxc => kxc | inl _ => mk_kxc 0 [] (fun _ => inr []) end.

Lemma minicrypto_key_agreement_witness :
  (kxc_on_exchange (toy_context_of ptls_minicrypto_x25519 7) (replicate 32 9) = inr (replicate 32 63) \/
   kxc_on_exchange (toy_context_of ptls_minicrypto_x25519 7) (replicate 32 9) = inl PTLS_ERROR_NO_MEMORY) /\
  kxc_id (toy_context_of ptls_minicrypto_x25519 7) = kx_id ptls_minicrypto_x25519.
Proof.
  apply (minicrypto_key_agreement ptls_minicrypto_x25519 7 9).
  - right. left. reflexivity.
  - reflexivity.
  - reflexivity.
Defined.


(** A failed signature, with memory to spare. *)
Example ecdsa_sign_ignores_failure :
  secp256r1sha256_sign (mk_sign (replicate 32 1)) 13 (str "message") [1027]
    (mk_bstate (mk_buffer (Some [0]) 1 0 false) (2%nat : @heap budget_allocator) []) = Undefined Uninitialized.
Proof. vm_compute. reflexivity. Qed.

Example ecdsa_sign_run :
  match secp256r1sha256_sign (mk_sign (replicate 32 1)) 0 (str "message") [1025; 1027]
          (mk_bstate (mk_buffer (Some [0]) 1 0 false) (2%nat : @heap budget_allocator) []) with
  | Done a st => a = 1027 /\ take 6 (contents (buf st)) = [0x30; 70; 0x02; 33; 0; 200] /\ length (contents (buf st)) = 72%nat
  | _ => False
  end.
Proof. vm_compute. done. Qed.
