(* ===== verification/MinicryptoPem.v ===== *)
(** * MinicryptoPem: loading a private key

    [src/lib/minicrypto-pem.c]: the PKCS #8 structure of a private key in a PEM file,
    the ECDSA key in it (RFC 5915), and the signing callback made from it. A local
    variable that a callee may leave unassigned is an option; using it is undefined. *)
From S2P Require Import Prelude Constants Monad Wire Buffer Base64 Asn1 Crypto Record KeySchedule Extensions Messages Minicrypto.

Record ptls_asn1_pkcs8_private_key_t := mk_pkey {
  pk_vec : bytes;
  algorithm_index : Z;
  algorithm_length : Z;
  parameters_index : Z;
  parameters_length : Z;
  key_data_index : Z;
  key_data_length : Z
}.
#[export] Instance eta_pkey : Eta ptls_asn1_pkcs8_private_key_t := fun r =>
  mk_pkey (pk_vec r) (algorithm_index r) (algorithm_length r) (parameters_index r) (parameters_length r) (key_data_index r)
    (key_data_length r).

Notation pkey_t := ptls_asn1_pkcs8_private_key_t.

(** [if ( *decode_error == 0) m], [x] being the values it would have changed. *)
Definition when_ok {A} (x : A) (m : MA A) : MA A := do! e := gets a_decode_error in if e =? 0 then m else ret x.
(** A variable that must have been assigned. *)
Definition assigned {A} (o : option A) : MA A := match o with Some a => ret a | None => undefined Uninitialized end.
(** [byte_index = ptls_asn1_error_message(label, ...); *decode_error = code;] *)
Definition refuse (label : String.string) (bytes_max byte_index level code : Z) : MA Z :=
  do! byte_index := ptls_asn1_error_message label bytes_max byte_index level in
  set_error code ;;; ret byte_index.

Section Decode.
Variable pkey : pkey_t.
Notation mem := (pk_vec pkey).
Notation bytes_max := (Z.of_nat (length (pk_vec pkey))).

(** The version: INTEGER 0. *)
Definition decode_key_version (byte_index : Z) : MA Z :=
  if bytes_max <? byte_index + 3 then refuse "Cannot find key version" bytes_max byte_index 0 PTLS_ERROR_INCORRECT_PEM_KEY_VERSION
  else
    do! b0 := at_ mem 0 byte_index in
    do! b1 := at_ mem 0 (byte_index + 1) in
    do! b2 := at_ mem 0 (byte_index + 2) in
    if negb (b0 =? 0x02) || negb (b1 =? 0x01) || negb (b2 =? 0x00)
    then refuse "Incorrect PEM Version" bytes_max byte_index 0 PTLS_ERROR_INCORRECT_PEM_KEY_VERSION
    else logging (log_fn (str "   Version = 1," ++ lf) []) ;;; ret (byte_index + 3).

(** The OID of the algorithm. *)
Definition decode_key_algorithm (byte_index last_byte1 : Z) : MA (Z * pkey_t) :=
  logging (log_fn (str "   Algorithm Identifier:" ++ lf) []) ;;;
  do! '(byte_index, oid) := ptls_asn1_get_expected_type_and_length mem 0 last_byte1 byte_index 0x06 false in
  when_ok (byte_index, pkey)
    (do! '(oid_length, _, _) := assigned oid in
     logging (log_fn (str "      Algorithm:") [] ;;;
              ptls_asn1_dump_content mem byte_index oid_length 0 ;;;
              log_fn (str "," ++ lf) []) ;;;
     ret (byte_index + oid_length, pkey <| algorithm_index := byte_index |> <| algorithm_length := oid_length |>)).
End Decode.

(** The parameters: any element, or none. *)
Definition decode_key_parameters (pkey : pkey_t) (byte_index last_byte1 : Z) : MA (Z * pkey_t) :=
  let bytes_max := Z.of_nat (length (pk_vec pkey)) in
  logging (log_fn (str "      Parameters:" ++ lf) []) ;;;
  do! '(byte_index, pkey) :=
    (if last_byte1 <=? byte_index then ret (byte_index, pkey <| parameters_index := 0 |> <| parameters_length := 0 |>)
     else
       do! n := ptls_asn1_validation_recursive (pk_vec pkey) (S (Z.to_nat (last_byte1 - byte_index))) byte_index
                  (last_byte1 - byte_index) 2 in
       let pkey := pkey <| parameters_index := byte_index |> <| parameters_length := u32 n |> in
       do! byte_index := when_ok byte_index (ret (byte_index + u32 n)) in
       ret (byte_index, pkey)) in
  logging (log_fn lf []) ;;;
  do! byte_index := when_ok byte_index
    (if negb (byte_index =? last_byte1) then refuse "Length larger than element" bytes_max byte_index 2 PTLS_ERROR_BER_ELEMENT_TOO_SHORT
     else ret byte_index) in
  ret (byte_index, pkey).

(** The OCTET STRING with the key; with a log its content is validated. *)
Definition decode_key_data (pkey : pkey_t) (byte_index last_byte0 : Z) : MA (Z * pkey_t) :=
  do! '(byte_index, data) := ptls_asn1_get_expected_type_and_length (pk_vec pkey) 0 last_byte0 byte_index 0x04 false in
  when_ok (byte_index, pkey)
    (do! '(length, _, _) := assigned data in
     let pkey := pkey <| key_data_index := byte_index |> <| key_data_length := length |> in
     logging (log_fn (str "   Key data (%d bytes):" ++ lf) [LInt (to_int32 length)] ;;;
              do! _ := ptls_asn1_validation_recursive (pk_vec pkey) (S (Z.to_nat length)) (key_data_index pkey) length 1 in
              log_fn lf []) ;;;
     ret (byte_index + length, pkey)).

(** The return value and the fields of [*pkey]. *)
Definition ptls_minicrypto_asn1_decode_private_key (pkey : pkey_t) : MA (Z * pkey_t) :=
  let bytes := pk_vec pkey in
  let bytes_max := Z.of_nat (length bytes) in
  do! '(byte_index, seq0) := ptls_asn1_get_expected_type_and_length bytes 0 bytes_max 0 0x30 false in
  do! byte_index := when_ok byte_index
    (do! '(_, _, last_byte0) := assigned seq0 in
     if negb (bytes_max =? last_byte0) then refuse "Length larger than message" bytes_max byte_index 0 PTLS_ERROR_BER_EXCESSIVE_LENGTH
     else ret byte_index) in
  do! byte_index := when_ok byte_index (decode_key_version pkey byte_index) in
  do! '(byte_index, last_byte1) := when_ok (byte_index, 0)
    (do! '(byte_index, seq1) := ptls_asn1_get_expected_type_and_length bytes 0 bytes_max byte_index 0x30 false in
     ret (byte_index, match seq1 with Some (_, _, last) => last | None => 0 end)) in
  do! '(byte_index, pkey) := when_ok (byte_index, pkey) (decode_key_algorithm pkey byte_index last_byte1) in
  do! '(byte_index, pkey) := when_ok (byte_index, pkey) (decode_key_parameters pkey byte_index last_byte1) in
  do! '(byte_index, pkey) := when_ok (byte_index, pkey)
    (do! '(_, _, last_byte0) := assigned seq0 in decode_key_data pkey byte_index last_byte0) in
  do! byte_index := when_ok byte_index
    (do! '(_, _, last_byte0) := assigned seq0 in
     if negb (byte_index =? last_byte0) then refuse "Length larger than element" bytes_max byte_index 0 PTLS_ERROR_BER_ELEMENT_TOO_SHORT
     else ret byte_index) in
  logging (log_fn lf []) ;;;
  ret (byte_index, pkey).

(** The code, and the key as far as it was decoded. *)
Definition ptls_pem_parse_private_key (pushes : list bool) (file : option bytes) (log : option (list log_call)) : res (Z * pkey_t) :=
  let! '(ret_, objs) := ptls_load_pem_objects pushes file (str "PRIVATE KEY") 1 in
  let pkey := mk_pkey (default [] (head objs)) 0 0 0 0 0 0 in
  if ret_ =? 0 then
    if negb (length objs =? 1)%nat then Ok (PTLS_ERROR_PEM_LABEL_NOT_FOUND, pkey)
    else
      match (logging (log_fn (lf ++ str "Found PRIVATE KEY, length = %d bytes" ++ lf) [LInt (Z.of_nat (length (pk_vec pkey)))]) ;;;
             ptls_minicrypto_asn1_decode_private_key pkey) (mk_asn1 0 log) with
      | Done (_, pkey) s => Ok (a_decode_error s, pkey)
      | Fail c _ => Err c
      | Undefined f => Stuck f
      end
  else Ok (ret_, pkey).

Definition ptls_asn1_algorithm_ecdsa : bytes := [0x2a; 0x86; 0x48; 0xce; 0x3d; 0x02; 0x01].
Definition ptls_asn1_curve_secp256r1 : bytes := [0x2a; 0x86; 0x48; 0xce; 0x3d; 0x03; 0x01; 0x07].

(** [memcmp(vec.base + index, x, sizeof(x)) == 0] *)
Definition memcmp_eq (mem : bytes) (index : Z) (x : bytes) : res bool :=
  if Z.of_nat (length mem) <? index + Z.of_nat (length x) then Stuck OutOfBounds
  else Ok (bool_decide (take (length x) (drop (Z.to_nat index) mem) = x)).

(** The version of the ECDSA key: INTEGER 1. *)
Definition decode_ecdsa_version (mem : bytes) (bytes bytes_max byte_index : Z) : MA Z :=
  if bytes_max <? byte_index + 3
  then refuse "Cannot find ECDSA Key Data Version" bytes_max byte_index 0 PTLS_ERROR_INCORRECT_ASN1_ECDSA_KEY_SYNTAX
  else
    do! b0 := at_ mem bytes byte_index in
    do! b1 := at_ mem bytes (byte_index + 1) in
    do! b2 := at_ mem bytes (byte_index + 2) in
    if negb (b0 =? 0x02) || negb (b1 =? 0x01) || negb (b2 =? 0x01)
    then refuse "Incorrect ECDSA Key Data Version" bytes_max byte_index 0 PTLS_ERROR_INCORRECT_PEM_ECDSA_KEY_VERSION
    else logging (log_fn (str "ECDSA Version = 1," ++ lf) []) ;;; ret (byte_index + 3).

(** The curve (pointer and length) and the private key (pointer and length); [NULL]
    is [None]. *)
Definition decode_ecdsa_key (pkey : pkey_t) : MA ((option Z * Z) * (option Z * Z)) :=
  let mem := pk_vec pkey in
  let bytes := parameters_index pkey in
  let bytes_max := parameters_length pkey in
  do! '(byte_index, curve) := ptls_asn1_get_expected_type_and_length mem bytes bytes_max 0 0x06 false in
  let '(curve_id_length, last_byte) := match curve with Some (l, _, last) => (l, last) | None => (0, 0) end in
  do! byte_index := when_ok byte_index
    (if negb (bytes_max =? last_byte) then refuse "Length larger than parameters" bytes_max byte_index 0 PTLS_ERROR_BER_EXCESSIVE_LENGTH
     else ret byte_index) in
  do! curve_id := when_ok None
    (logging (log_fn (str "Curve: ") [] ;;; ptls_asn1_dump_content mem (bytes + byte_index) curve_id_length 0 ;;; log_fn lf []) ;;;
     ret (Some (bytes + byte_index))) in
  let bytes := key_data_index pkey in
  let bytes_max := key_data_length pkey in
  do! '(byte_index, last_byte) := when_ok (0, last_byte)
    (do! '(byte_index, seq) := ptls_asn1_get_expected_type_and_length mem bytes bytes_max 0 0x30 false in
     ret (byte_index, match seq with Some (_, _, last) => last | None => last_byte end)) in
  do! byte_index := when_ok byte_index
    (if negb (bytes_max =? last_byte) then refuse "Length larger than key data" bytes_max byte_index 0 PTLS_ERROR_BER_ELEMENT_TOO_SHORT
     else ret byte_index) in
  do! byte_index := when_ok byte_index (decode_ecdsa_version mem bytes bytes_max byte_index) in
  do! key := when_ok (None, 0)
    (do! '(byte_index, data) := ptls_asn1_get_expected_type_and_length mem bytes last_byte byte_index 0x04 false in
     let length := match data with Some (l, _, _) => l | None => 0 end in
     do! key := when_ok None (ret (Some (bytes + byte_index))) in
     ret (key, length)) in
  ret ((curve_id, curve_id_length), key).

(** [memory] tells whether [malloc] succeeds; the value is the new
    [ctx->sign_certificate]. What was decoded so far decides, not [decode_error]. *)
Definition ptls_set_ecdsa_private_key (memory : bool) (pkey : pkey_t) (log : option (list log_call))
    : res (ptls_minicrypto_secp256r1sha256_sign_certificate_t) :=
  let mem := pk_vec pkey in
  match decode_ecdsa_key pkey (mk_asn1 0 log) with
  | Undefined f => Stuck f
  | Fail c _ => Err c
  | Done ((curve_id, curve_id_length), (ecdsa_key_data, ecdsa_key_data_length)) _ =>
      let! is_secp256r1 :=
        if negb (curve_id_length =? Z.of_nat (length ptls_asn1_curve_secp256r1)) then Ok false
        else match curve_id with None => Ok false | Some p => memcmp_eq mem p ptls_asn1_curve_secp256r1 end in
      if (is_secp256r1 : bool) then
        if negb (Z.of_nat SECP256R1_PRIVATE_KEY_SIZE =? ecdsa_key_data_length) then Err PTLS_ERROR_INCORRECT_PEM_ECDSA_KEYSIZE
        else if negb memory then Err PTLS_ERROR_NO_MEMORY
        else ptls_minicrypto_init_secp256r1sha256_sign_certificate (p ← ecdsa_key_data; Some (drop (Z.to_nat p) mem)) ecdsa_key_data_length
      else Err PTLS_ERROR_INCORRECT_PEM_ECDSA_CURVE
  end.

(** [file] is the content of [pem_fname], [None] if it cannot be opened; [pushes]
    are the outcomes of the pushes of the PEM reader. *)
Definition ptls_minicrypto_load_private_key (memory : bool) (pushes : list bool) (file : option bytes)
    : res (ptls_minicrypto_secp256r1sha256_sign_certificate_t) :=
  let! '(ret_, pkey) := ptls_pem_parse_private_key pushes file None in
  if negb (ret_ =? 0) then Err ret_
  else
    let! is_ecdsa :=
      if negb (algorithm_length pkey =? Z.of_nat (length ptls_asn1_algorithm_ecdsa)) then Ok false
      else memcmp_eq (pk_vec pkey) (algorithm_index pkey) ptls_asn1_algorithm_ecdsa in
    if negb is_ecdsa then Err (-1)
    else ptls_set_ecdsa_private_key memory pkey None.

(** ** Keys round-trip *)

(** The structures of RFC 5958 and RFC 5915 for a key on secp256r1: an ECPrivateKey of
    version 1 with the members [rest]; [extra] are its optional members. *)
Definition ec_sequence (rest : bytes) : bytes := der 0x30 ([0x02; 0x01; 0x01] ++ rest).
Definition ec_private_key (key extra : bytes) : bytes := ec_sequence (der 0x04 key ++ extra).
Definition ec_algorithm : bytes := der 0x30 (der 0x06 ptls_asn1_algorithm_ecdsa ++ der 0x06 ptls_asn1_curve_secp256r1).
Definition private_key_info (ec : bytes) : bytes := der 0x30 ([0x02; 0x01; 0x00] ++ ec_algorithm ++ der 0x04 ec).
Definition pkcs8 (key extra : bytes) : bytes := private_key_info (ec_private_key key extra).

(** No error, no log. *)
Notation quiet := (mk_asn1 0 None).

Lemma bind_quiet {A B} (m : MA A) (k : A -> MA B) a : m quiet = Done a quiet -> bind m k quiet = k a quiet.
Proof. unfold bind. by intros ->. Qed.
Lemma when_ok_quiet {A} (x : A) (m : MA A) : when_ok x m quiet = m quiet.
Proof. done. Qed.
Lemma logging_quiet (m : MA unit) : logging m quiet = Done tt quiet.
Proof. done. Qed.

Lemma length_der_le type content : Z.of_nat (length (der type content)) <= Z.of_nat (length content) + 6.
Proof.
  rewrite length_der. unfold der_length. destruct (_ <? 128); cbn [length]; [lia|]. rewrite length_be.
  unfold length_octets. repeat case_match; lia.
Qed.

(** The key at an address is copied. *)
Lemma init_at mem p key :
  0 <= p -> length key = SECP256R1_PRIVATE_KEY_SIZE -> at_mem mem (Z.to_nat p) key ->
  ptls_minicrypto_init_secp256r1sha256_sign_certificate (p ← Some p; Some (drop (Z.to_nat p) mem)) 32 = Ok (mk_sign key).
Proof.
  intros Hp Hkey H. unfold ptls_minicrypto_init_secp256r1sha256_sign_certificate.
  change (negb (32 =? Z.of_nat SECP256R1_PRIVATE_KEY_SIZE)) with false.
  cbn [mbind option_bind]. pose proof (at_mem_le _ _ _ H ltac:(by destruct key)) as Hle. rewrite length_drop.
  unfold SECP256R1_PRIVATE_KEY_SIZE in *. rewrite (proj2 (Z.ltb_ge _ _)) by lia. unfold at_mem in H. rewrite Hkey in H. by rewrite H.
Qed.

Section Keys.
Variable mem : bytes.
Notation holds p i bs := (at_mem mem (Z.to_nat (p + i)) bs).

Lemma holds_content p i type content : 0 <= p + i -> holds p i (der type content) ->
  holds p (i + (1 + Z.of_nat (length (der_length (Z.of_nat (length content)))))) content.
Proof.
  intros Hp H. change (der type content) with ([type] ++ der_length (Z.of_nat (length content)) ++ content) in H.
  apply (holds_app mem) in H as [_ H]; [|lia]. apply (holds_app mem) in H as [_ H]; [|cbn; lia]. rewrite (Z.add_assoc i). exact H.
Qed.

Lemma expected_der p bytes_max i type content :
  0 <= p -> 0 <= i -> Z.of_nat (length content) < 2 ^ 32 -> holds p i (der type content) ->
  i + Z.of_nat (length (der type content)) <= bytes_max ->
  ptls_asn1_get_expected_type_and_length mem p bytes_max i type false quiet =
    Done (i + (1 + Z.of_nat (length (der_length (Z.of_nat (length content))))),
          Some (Z.of_nat (length content), false, i + Z.of_nat (length (der type content)))) quiet.
Proof.
  intros Hp Hi Hlen Hat Hb. unfold ptls_asn1_get_expected_type_and_length.
  erewrite bind_quiet by (eapply at_run; [|exact Hat]; lia). rewrite Z.eqb_refl. cbn [negb].
  rewrite length_der in Hb |- *.
  erewrite bind_quiet.
  2: { apply (read_length_der mem p bytes_max (i + 1) 0 (Z.of_nat (length content))); [done | lia | lia | | lia | done]. change (der type content) with ([type] ++ der_length (Z.of_nat (length content)) ++ content) in Hat.
       apply (holds_app mem) in Hat as [_ H]; [|lia]. apply (holds_app mem) in H as [H _]; [exact H | cbn; lia]. }
  cbn [andb negb]. unfold ret. do 2 f_equal; [lia|]. do 2 f_equal. lia.
Qed.

Lemma validation_quiet e fuel p bytes_max level :
  is_bytes mem -> der_element e -> 0 <= p -> p + bytes_max <= Z.of_nat (length mem) -> holds p 0 e -> Z.of_nat (length e) <= bytes_max ->
  (length e <= fuel)%nat -> ptls_asn1_validation_recursive mem fuel p bytes_max level quiet = Done (Z.of_nat (length e)) quiet.
Proof.
  intros Hm He Hp Hb Hat Hl Hf.
  pose proof (proj1 (der_accepted mem Hm) e He fuel p bytes_max level Hp Hb Hat Hl Hf quiet eq_refl) as H. unfold wpm in H.
  destruct (ptls_asn1_validation_recursive _ _ _ _ _ _) as [n s|? ?|?]; [|done..]. destruct H as [-> [He' Hlog]].
  destruct s as [err l]. cbn in He', Hlog. subst err. destruct l; [|done]. by destruct Hlog as [[? ?] _].
Qed.
End Keys.

Lemma memcmp_at mem index x : 0 <= index -> x <> [] -> at_mem mem (Z.to_nat index) x -> memcmp_eq mem index x = Ok true.
Proof.
  intros Hi Hx H. unfold memcmp_eq. pose proof (at_mem_le _ _ _ H Hx). rewrite (proj2 (Z.ltb_ge _ _)) by lia.
  by rewrite bool_decide_true.
Qed.

Lemma private_key_label : wf_label (str "PRIVATE KEY").
Proof. split; [cbn; lia | vm_compute; naive_solver]. Qed.

Lemma der_bytes t c : is_byte t -> is_bytes c -> Z.of_nat (length c) < 2 ^ 32 -> is_bytes (der t c).
Proof.
  intros Ht Hc Hl. apply List.Forall_cons; [done|]. apply Forall_app_2; [|done]. unfold der_length.
  destruct (Z.ltb_spec (Z.of_nat (length c)) 128); [constructor; [unfold is_byte; lia | done]|].
  apply List.Forall_cons; [|apply be_bytes]. destruct (length_octets_range (Z.of_nat (length c))); [lia|]. unfold is_byte. lia.
Qed.

(** A PrivateKeyInfo whose ECPrivateKey has version 1 and the members [rest]. *)
Section Pkcs8.
Variable rest : bytes.
Hypotheses (Hrb : is_bytes rest) (Hrest : Z.of_nat (length rest) < 2 ^ 31 + 40).

Notation inner := ([0x02; 0x01; 0x01] ++ rest).
Notation eck := (ec_sequence rest).
Notation body := ([0x02; 0x01; 0x00] ++ ec_algorithm ++ der 0x04 eck).
Notation P := (private_key_info eck).
(** The sizes of the headers. *)
Notation head c := (1 + Z.of_nat (length (der_length (Z.of_nat (length c))))).
Notation holds i bs := (at_mem P (Z.to_nat (0 + i)) bs).

Lemma length_eck : Z.of_nat (length eck) <= Z.of_nat (length rest) + 10.
Proof. pose proof (length_der_le 0x30 inner). unfold ec_sequence. rewrite !length_app in *. cbn [length] in *. lia. Qed.

Lemma length_body : Z.of_nat (length body) = 24 + head eck + Z.of_nat (length eck) /\ Z.of_nat (length body) <= Z.of_nat (length rest) + 40.
Proof.
  pose proof length_eck. pose proof (length_der_le 0x04 eck). rewrite !length_app in *.
  change (length ec_algorithm) with 21%nat. change (length [0x02; 0x01; 0x00]) with 3%nat. rewrite length_der in *. lia.
Qed.

Lemma length_pkcs8 : Z.of_nat (length P) = head body + 24 + head eck + Z.of_nat (length eck).
Proof. pose proof length_body. unfold private_key_info. rewrite length_der. lia. Qed.

(** Where the members are. *)
Lemma holds_version : holds (head body) [0x02; 0x01; 0x00].
Proof.
  pose proof (holds_content P 0 0 0x30 body ltac:(lia) (at_mem_self P)) as H.
  rewrite Z.add_0_l in H. by apply (holds_app P 0) in H as [H _]; [|lia].
Qed.

Lemma holds_rest : holds (head body + 3) (ec_algorithm ++ der 0x04 eck).
Proof.
  pose proof (holds_content P 0 0 0x30 body ltac:(lia) (at_mem_self P)) as H.
  rewrite Z.add_0_l in H. by apply (holds_app P 0) in H as [_ H]; [|lia].
Qed.

Lemma holds_algorithm : holds (head body + 3) ec_algorithm.
Proof. pose proof holds_rest as H. by apply (holds_app P 0) in H as [H _]; [|lia]. Qed.

Lemma holds_oids : holds (head body + 5) (der 0x06 ptls_asn1_algorithm_ecdsa ++ der 0x06 ptls_asn1_curve_secp256r1).
Proof.
  pose proof (holds_content P 0 (head body + 3) 0x30 _ ltac:(lia) holds_algorithm) as H.
  assert (E : head (der 0x06 ptls_asn1_algorithm_ecdsa ++ der 0x06 ptls_asn1_curve_secp256r1) = 2) by reflexivity.
  rewrite E in H. by replace (head body + 5) with (head body + 3 + 2) by lia.
Qed.

Lemma holds_algorithm_oid : holds (head body + 5) (der 0x06 ptls_asn1_algorithm_ecdsa).
Proof. pose proof holds_oids as H. by apply (holds_app P 0) in H as [H _]; [|lia]. Qed.

Lemma holds_algorithm_value : holds (head body + 7) ptls_asn1_algorithm_ecdsa.
Proof.
  pose proof (holds_content P 0 (head body + 5) 0x06 _ ltac:(lia) holds_algorithm_oid) as H.
  assert (E : head ptls_asn1_algorithm_ecdsa = 2) by reflexivity. rewrite E in H.
  by replace (head body + 7) with (head body + 5 + 2) by lia.
Qed.

Lemma holds_curve : holds (head body + 14) (der 0x06 ptls_asn1_curve_secp256r1).
Proof.
  pose proof holds_oids as H. apply (holds_app P 0) in H as [_ H]; [|lia].
  change (Z.of_nat (length (der 0x06 ptls_asn1_algorithm_ecdsa))) with 9 in H. by replace (head body + 14) with (head body + 5 + 9) by lia.
Qed.

Lemma holds_key_data : holds (head body + 24) (der 0x04 eck).
Proof.
  pose proof holds_rest as H. apply (holds_app P 0) in H as [_ H]; [|lia].
  change (Z.of_nat (length ec_algorithm)) with 21 in H. by replace (head body + 24) with (head body + 3 + 21) by lia.
Qed.

Lemma pkcs8_bytes : is_bytes P.
Proof.
  pose proof length_body as [_ Hb]. pose proof length_eck as He.
  assert (Hecb : is_bytes eck).
  { apply der_bytes; [done | |].
    - apply Forall_app_2; [by repeat constructor | done].
    - rewrite !length_app. cbn [length]. lia. }
  apply der_bytes; [done | | lia]. apply Forall_app_2; [by repeat constructor|]. apply Forall_app_2; [by repeat constructor|].
  apply der_bytes; [done | done | lia].
Qed.

(** ** The decoders on these structures *)

Lemma at_quiet i b bs : 0 <= i -> holds i (b :: bs) -> at_ P 0 i quiet = Done b quiet.
Proof. intros Hi H. eapply at_run; [lia | exact H]. Qed.

Lemma decode_version_run pkey : pk_vec pkey = P -> decode_key_version pkey (head body) quiet = Done (head body + 3) quiet.
Proof.
  intros Hp. unfold decode_key_version. rewrite Hp, length_pkcs8. pose proof length_eck.
  rewrite (proj2 (Z.ltb_ge _ _)) by lia. pose proof holds_version as H0.
  erewrite bind_quiet by (eapply at_quiet; [lia | exact H0]).
  pose proof (holds_tail P 0 (head body) _ _ ltac:(lia) H0) as H1. erewrite bind_quiet by (eapply at_quiet; [lia | exact H1]).
  pose proof (holds_tail P 0 (head body + 1) _ _ ltac:(lia) H1) as H2. replace (head body + 1 + 1) with (head body + 2) in H2 by lia.
  erewrite bind_quiet by (eapply at_quiet; [lia | exact H2]). done.
Qed.

Definition decoded_algorithm (pkey : pkey_t) : pkey_t := pkey <| algorithm_index := head body + 7 |> <| algorithm_length := 7 |>.
Definition decoded_parameters (pkey : pkey_t) : pkey_t := pkey <| parameters_index := head body + 14 |> <| parameters_length := 10 |>.
Definition decoded_key (pkey : pkey_t) : pkey_t :=
  pkey <| key_data_index := head body + 24 + head eck |> <| key_data_length := Z.of_nat (length eck) |>.

Lemma decode_algorithm_run pkey :
  pk_vec pkey = P -> decode_key_algorithm pkey (head body + 5) (head body + 24) quiet = Done (head body + 14, decoded_algorithm pkey) quiet.
Proof.
  intros Hp. unfold decode_key_algorithm. rewrite Hp. erewrite bind_quiet by apply logging_quiet.
  erewrite bind_quiet by (apply (expected_der P 0 _ _ 0x06 ptls_asn1_algorithm_ecdsa);
    [lia | lia | done | apply holds_algorithm_oid | change (length (der 0x06 ptls_asn1_algorithm_ecdsa)) with 9%nat; lia]).
  cbv beta iota. rewrite when_ok_quiet. cbn [assigned]. erewrite bind_quiet by reflexivity. cbv beta iota. erewrite bind_quiet by apply logging_quiet.
  change (length (der_length (Z.of_nat (length ptls_asn1_algorithm_ecdsa)))) with 1%nat.
  change (Z.of_nat (length ptls_asn1_algorithm_ecdsa)) with 7. unfold ret, decoded_algorithm.
  replace (head body + 5 + (1 + Z.of_nat 1)) with (head body + 7) by lia. by replace (head body + 7 + 7) with (head body + 14) by lia.
Qed.

Lemma decode_parameters_run pkey :
  pk_vec pkey = P -> decode_key_parameters pkey (head body + 14) (head body + 24) quiet = Done (head body + 24, decoded_parameters pkey) quiet.
Proof.
  intros Hp. unfold decode_key_parameters. rewrite Hp. erewrite bind_quiet by apply logging_quiet.
  rewrite (proj2 (Z.leb_gt _ _)) by lia. replace (head body + 24 - (head body + 14)) with 10 by lia.
  pose proof length_pkcs8. pose proof length_eck.
  erewrite bind_quiet.
  2: { erewrite bind_quiet.
       2: { apply (validation_quiet P (der 0x06 ptls_asn1_curve_secp256r1));
              [apply pkcs8_bytes | apply der_primitive; done | lia | lia | | done | change (length (der 0x06 ptls_asn1_curve_secp256r1)) with 10%nat; lia].
            pose proof holds_curve as Hc. rewrite Z.add_0_l in Hc. by rewrite Z.add_0_r. }
       change (u32 (Z.of_nat (length (der 0x06 ptls_asn1_curve_secp256r1)))) with 10.
       erewrite bind_quiet by apply when_ok_quiet. reflexivity. }
  cbv beta iota. erewrite bind_quiet by apply logging_quiet. replace (head body + 14 + 10) with (head body + 24) by lia.
  erewrite bind_quiet; [reflexivity|]. rewrite when_ok_quiet, Z.eqb_refl. done.
Qed.

Lemma decode_key_data_run pkey :
  pk_vec pkey = P -> decode_key_data pkey (head body + 24) (Z.of_nat (length P)) quiet = Done (Z.of_nat (length P), decoded_key pkey) quiet.
Proof.
  intros Hp. unfold decode_key_data. rewrite Hp. pose proof length_pkcs8 as HP. pose proof length_eck.
  erewrite bind_quiet by (apply (expected_der P 0 _ _ 0x04 eck); [lia | lia | lia | apply holds_key_data | rewrite length_der; lia]).
  cbv beta iota. rewrite when_ok_quiet. cbn [assigned]. erewrite bind_quiet by reflexivity. cbv beta iota. erewrite bind_quiet by apply logging_quiet.
  unfold ret, decoded_key. rewrite HP. done.
Qed.

Lemma decode_private_key_run :
  ptls_minicrypto_asn1_decode_private_key (mk_pkey P 0 0 0 0 0 0) quiet =
    Done (Z.of_nat (length P),
          mk_pkey P (head body + 7) 7 (head body + 14) 10 (head body + 24 + head eck) (Z.of_nat (length eck))) quiet.
Proof.
  unfold ptls_minicrypto_asn1_decode_private_key. cbn [pk_vec]. pose proof length_pkcs8 as HP. pose proof length_eck. pose proof length_body.
  erewrite bind_quiet by (apply (expected_der P 0 _ 0 0x30 body); [lia | lia | lia | apply at_mem_self | done]).
  rewrite !Z.add_0_l. fold P.
  cbv beta iota. erewrite bind_quiet.
  2: { rewrite when_ok_quiet. cbn [assigned]. erewrite bind_quiet by reflexivity. cbv beta iota. rewrite Z.eqb_refl. reflexivity. }
  erewrite bind_quiet by (rewrite when_ok_quiet; apply decode_version_run; reflexivity).
  erewrite bind_quiet.
  2: { rewrite when_ok_quiet.
       erewrite bind_quiet by (apply (expected_der P 0 _ _ 0x30 (der 0x06 ptls_asn1_algorithm_ecdsa ++ der 0x06 ptls_asn1_curve_secp256r1));
         [lia | lia | done | apply holds_algorithm | change (length (der 0x30 _)) with 21%nat; lia]).
       cbv beta iota. change (Z.of_nat (length (der 0x30 _))) with 21.
       assert (E : head (der 0x06 ptls_asn1_algorithm_ecdsa ++ der 0x06 ptls_asn1_curve_secp256r1) = 2) by reflexivity. rewrite E.
       replace (head body + 3 + 2) with (head body + 5) by lia. replace (head body + 3 + 21) with (head body + 24) by lia. reflexivity. }
  cbv beta iota. erewrite bind_quiet by (rewrite when_ok_quiet; apply decode_algorithm_run; reflexivity).
  cbv beta iota. erewrite bind_quiet by (rewrite when_ok_quiet; apply decode_parameters_run; reflexivity).
  cbv beta iota. erewrite bind_quiet.
  2: { rewrite when_ok_quiet. cbn [assigned]. erewrite bind_quiet by reflexivity. cbv beta iota. apply decode_key_data_run. reflexivity. }
  cbv beta iota. erewrite bind_quiet.
  2: { rewrite when_ok_quiet. cbn [assigned]. erewrite bind_quiet by reflexivity. cbv beta iota. rewrite Z.eqb_refl. reflexivity. }
  erewrite bind_quiet by apply logging_quiet. reflexivity.
Qed.

Notation K := (head body + 24 + head eck).
Notation pkey := (mk_pkey P (head body + 7) 7 (head body + 14) 10 K (Z.of_nat (length eck))).

Lemma holds_eck : at_mem P (Z.to_nat (K + 0)) (der 0x30 inner).
Proof.
  pose proof (holds_content P 0 (head body + 24) 0x04 eck ltac:(lia) holds_key_data) as H.
  by rewrite Z.add_0_l, Z.add_0_r in *.
Qed.

Lemma holds_inner : at_mem P (Z.to_nat (K + head inner)) inner.
Proof. pose proof (holds_content P K 0 0x30 inner ltac:(lia) holds_eck) as H. by rewrite Z.add_0_l in H. Qed.

Lemma holds_members : at_mem P (Z.to_nat (K + (head inner + 3))) rest.
Proof. pose proof holds_inner as H. by apply (holds_app P K) in H as [_ H]; [|lia]. Qed.

Lemma ecdsa_version_run : decode_ecdsa_version P K (Z.of_nat (length eck)) (head inner) quiet = Done (head inner + 3) quiet.
Proof.
  unfold decode_ecdsa_version.
  assert (Hl : head inner + 3 <= Z.of_nat (length eck)) by (unfold ec_sequence; rewrite length_der, !length_app; cbn [length]; lia).
  rewrite (proj2 (Z.ltb_ge _ _)) by lia.
  assert (H0 : at_mem P (Z.to_nat (K + head inner)) (0x02 :: 0x01 :: 0x01 :: rest)) by apply holds_inner.
  erewrite bind_quiet by (eapply (at_run P); [|exact H0]; lia).
  pose proof (holds_tail P K (head inner) _ _ ltac:(lia) H0) as H1. erewrite bind_quiet by (eapply (at_run P); [|exact H1]; lia).
  pose proof (holds_tail P K (head inner + 1) _ _ ltac:(lia) H1) as H2. replace (head inner + 1 + 1) with (head inner + 2) in H2 by lia.
  erewrite bind_quiet by (eapply (at_run P); [|exact H2]; lia). done.
Qed.

(** The OCTET STRING of the key: where it is if it can be read, and its length. *)
Definition read_key (mem : bytes) (bytes last_byte byte_index : Z) : MA (option Z * Z) :=
  do! '(byte_index, data) := ptls_asn1_get_expected_type_and_length mem bytes last_byte byte_index 0x04 false in
  let length := match data with Some (l, _, _) => l | None => 0 end in
  do! key := when_ok None (ret (Some (bytes + byte_index))) in
  ret (key, length).

(** The decoder gets as far as the members. *)
Lemma decode_ecdsa_members r :
  read_key P K (Z.of_nat (length eck)) (head inner + 3) quiet = r ->
  decode_ecdsa_key pkey quiet =
    match r with Done key s => Done ((Some (head body + 16), 8), key) s | Fail c s => Fail c s | Undefined f => Undefined f end.
Proof.
  intros <-. unfold decode_ecdsa_key. cbn [pk_vec parameters_index parameters_length key_data_index key_data_length].
  pose proof length_pkcs8. pose proof length_eck as Heck.
  erewrite bind_quiet by (apply (expected_der P _ _ 0 0x06 ptls_asn1_curve_secp256r1); [lia | lia | done | | done];
    pose proof holds_curve as Hc; rewrite Z.add_0_l in Hc; by rewrite Z.add_0_r).
  cbv beta iota. assert (E : head ptls_asn1_curve_secp256r1 = 2) by reflexivity. rewrite E. rewrite !Z.add_0_l.
  change (Z.of_nat (length (der 0x06 ptls_asn1_curve_secp256r1))) with 10. change (Z.of_nat (length ptls_asn1_curve_secp256r1)) with 8.
  erewrite bind_quiet by (rewrite when_ok_quiet, Z.eqb_refl; reflexivity).
  erewrite bind_quiet by (rewrite when_ok_quiet; erewrite bind_quiet by apply logging_quiet; reflexivity).
  replace (head body + 14 + 2) with (head body + 16) by lia.
  erewrite bind_quiet.
  2: { rewrite when_ok_quiet. erewrite bind_quiet by (apply (expected_der P K _ 0 0x30 inner); [lia | lia | | apply holds_eck | done];
         unfold ec_sequence in Heck; rewrite length_der in Heck; lia).
       rewrite !Z.add_0_l. reflexivity. }
  cbv beta iota. fold (ec_sequence rest). erewrite bind_quiet by (rewrite when_ok_quiet, Z.eqb_refl; reflexivity).
  erewrite bind_quiet by (rewrite when_ok_quiet; apply ecdsa_version_run).
  reflexivity.
Qed.

Lemma curve_matches : memcmp_eq P (head body + 16) ptls_asn1_curve_secp256r1 = Ok true.
Proof.
  apply memcmp_at; [lia | done |].
  pose proof (holds_content P 0 (head body + 14) 0x06 _ ltac:(lia) holds_curve) as H.
  assert (E : head ptls_asn1_curve_secp256r1 = 2) by reflexivity. rewrite E, Z.add_0_l in H.
  by replace (head body + 16) with (head body + 14 + 2) by lia.
Qed.

(** Loading such a file comes down to installing the key that was read. *)
Lemma load_members chunks key n s :
  wf_chunks chunks -> List.concat chunks = P -> n = 32 ->
  read_key P K (Z.of_nat (length eck)) (head inner + 3) quiet = Done (key, n) s ->
  ptls_minicrypto_load_private_key true [] (Some (pem_file (str "PRIVATE KEY") [chunks])) =
  ptls_minicrypto_init_secp256r1sha256_sign_certificate (p ← key; Some (drop (Z.to_nat p) P)) n.
Proof.
  intros Hwf Hcat Hn Hread. unfold ptls_minicrypto_load_private_key, ptls_pem_parse_private_key.
  assert (Hne : List.concat chunks <> []) by (rewrite Hcat; discriminate).
  rewrite load_pem_file; [| apply private_key_label | constructor; [by split | constructor] | discriminate | cbn; lia].
  cbn [res_bind map]. rewrite Hcat. change (0 =? 0) with true. cbv beta iota. cbn [length Nat.eqb negb].
  cbn [List.hd_error default from_option id].
  erewrite bind_quiet by apply logging_quiet. rewrite decode_private_key_run.
  cbn [res_bind a_decode_error algorithm_length pk_vec algorithm_index].
  change (negb (0 =? 0)) with false. change (negb (7 =? Z.of_nat (length ptls_asn1_algorithm_ecdsa))) with false. cbv beta iota.
  rewrite memcmp_at; [| lia | done | apply holds_algorithm_value].
  cbn [res_bind negb]. unfold ptls_set_ecdsa_private_key. rewrite (decode_ecdsa_members _ Hread). cbn [pk_vec].
  change (negb (8 =? Z.of_nat (length ptls_asn1_curve_secp256r1))) with false. cbv beta iota. rewrite curve_matches.
  cbn [res_bind]. subst n. done.
Qed.

(** A whole key. *)
Lemma read_whole_key key extra :
  rest = der 0x04 key ++ extra -> length key = SECP256R1_PRIVATE_KEY_SIZE ->
  read_key P K (Z.of_nat (length eck)) (head inner + 3) quiet = Done (Some (K + (head inner + 5)), 32) quiet /\
  at_mem P (Z.to_nat (K + (head inner + 5))) key.
Proof.
  intros E Hkey.
  assert (H : at_mem P (Z.to_nat (K + (head inner + 3))) (der 0x04 key ++ extra)) by (rewrite <- E; apply holds_members).
  assert (Hl : (length (der 0x04 key) <= length rest)%nat) by (rewrite E, length_app; lia).
  apply (holds_app P K) in H as [H _]; [|lia].
  assert (Hhk : head key = 2) by (by rewrite Hkey). pose proof length_pkcs8 as HP. split.
  - unfold read_key. erewrite bind_quiet.
    2: { apply (expected_der P K _ _ 0x04 key); [lia | lia | unfold SECP256R1_PRIVATE_KEY_SIZE in Hkey; lia | exact H |].
         unfold ec_sequence. rewrite (length_der 0x30). assert (length inner = 3 + length rest)%nat by done. lia. }
    cbv beta iota. rewrite Hhk. erewrite bind_quiet by (rewrite when_ok_quiet; reflexivity). rewrite Hkey.
    replace (head inner + 3 + 2) with (head inner + 5) by lia. reflexivity.
  - apply (holds_content P K (head inner + 3) 0x04 key) in H; [|lia]. rewrite Hhk in H.
    by replace (head inner + 5) with (head inner + 3 + 2) by lia.
Qed.

(** A key that announces 32 octets and has fewer. *)
Lemma read_truncated_key cut :
  rest = 0x04 :: 0x20 :: cut -> (length cut < SECP256R1_PRIVATE_KEY_SIZE)%nat ->
  read_key P K (Z.of_nat (length eck)) (head inner + 3) quiet = Done (None, 32) (mk_asn1 PTLS_ERROR_BER_EXCESSIVE_LENGTH None).
Proof.
  intros E Hcut. pose proof length_pkcs8 as HP.
  assert (H : at_mem P (Z.to_nat (K + (head inner + 3))) (0x04 :: 0x20 :: cut)) by (rewrite <- E; apply holds_members).
  assert (Hr : length rest = S (S (length cut))) by (by rewrite E).
  assert (Hl : Z.of_nat (length eck) = head inner + 5 + Z.of_nat (length cut)).
  { unfold ec_sequence. rewrite length_der. assert (length inner = 3 + length rest)%nat by done. lia. }
  unfold read_key, ptls_asn1_get_expected_type_and_length, SECP256R1_PRIVATE_KEY_SIZE in *.
  unfold bind at 1 2. erewrite (at_run P); [|lia|exact H]. cbn [Z.eqb Pos.eqb negb]. unfold bind at 1.
  apply (holds_tail P K) in H; [|lia]. unfold ptls_asn1_read_length.
  rewrite (proj2 (Z.ltb_lt _ (Z.of_nat (length eck)))) by lia. unfold bind at 1. erewrite (at_run P); [|lia|exact H].
  change (negb (Z.land 32 128 =? 0)) with false. unfold bind, ret, gets. cbn [a_decode_error Z.eqb andb].
  rewrite (proj2 (Z.ltb_lt (Z.of_nat (length eck)) _)) by lia. reflexivity.
Qed.
End Pkcs8.

(** ** Properties *)

(** C20: private keys round-trip: a PEM file with the PKCS #8 encoding of any key on
    secp256r1 (lines of up to 248 characters, all but the last made of whole quanta,
    any optional members after the key) is loaded when the memory it needs is granted,
    and the callback it installs signs with exactly that key. *)
Theorem load_private_key_roundtrip key extra chunks :
  length key = SECP256R1_PRIVATE_KEY_SIZE -> is_bytes key -> is_bytes extra -> Z.of_nat (length extra) < 2 ^ 31 ->
  wf_chunks chunks -> List.concat chunks = pkcs8 key extra ->
  ptls_minicrypto_load_private_key true [] (Some (pem_file (str "PRIVATE KEY") [chunks])) = Ok (mk_sign key).
Proof.
  intros Hkey Hkb Hxb Hextra Hwf Hcat. pose proof (length_der_le 0x04 key). unfold SECP256R1_PRIVATE_KEY_SIZE in Hkey.
  assert (Hr : is_bytes (der 0x04 key ++ extra)) by (apply Forall_app_2; [apply der_bytes; [done | done | lia] | done]).
  assert (Hl : Z.of_nat (length (der 0x04 key ++ extra)) < 2 ^ 31 + 40) by (rewrite length_app; lia).
  destruct (read_whole_key _ key extra eq_refl Hkey) as [Hread Hat].
  rewrite (load_members _ Hr Hl chunks _ _ _ Hwf Hcat eq_refl Hread). apply init_at; [lia | done | done].
Qed.

Lemma load_private_key_roundtrip_witness :
  ptls_minicrypto_load_private_key true []
    (Some (pem_file (str "PRIVATE KEY") [[take 48 (pkcs8 (replicate 32 7) [0xa1; 0x00]); drop 48 (pkcs8 (replicate 32 7) [0xa1; 0x00])]])) =
  Ok (mk_sign (replicate 32 7)).
Proof.
  apply (load_private_key_roundtrip (replicate 32 7) [0xa1; 0x00]).
  - reflexivity.
  - apply (bool_decide_unpack _). reflexivity.
  - apply (bool_decide_unpack _). reflexivity.
  - reflexivity.
  - split_and!; try (apply (bool_decide_unpack _); reflexivity); done.
  - reflexivity.
Defined.

(** A key that ends after its version makes the decoder read the octet behind it. *)
Example key_ends_after_version :
  ptls_minicrypto_asn1_decode_private_key (mk_pkey [0x30; 0x03; 0x02; 0x01; 0x00] 0 0 0 0 0 0) quiet = Undefined OutOfBounds.
Proof. reflexivity. Qed.

(** C38: the loader crashes on every truncated key: for a PEM file with a PKCS #8
    structure on secp256r1 whose ECPrivateKey ends before the 32 octets that its OCTET
    STRING announces (any number from 0 to 31 of them present), the excessive length is
    noticed, but only the announced length decides that the key, whose address is still
    [NULL], is copied. *)
Theorem truncated_key_crashes cut chunks :
  (length cut < SECP256R1_PRIVATE_KEY_SIZE)%nat -> is_bytes cut ->
  wf_chunks chunks -> List.concat chunks = private_key_info (ec_sequence (0x04 :: 0x20 :: cut)) ->
  ptls_minicrypto_load_private_key true [] (Some (pem_file (str "PRIVATE KEY") [chunks])) = Stuck NullDeref.
Proof.
  intros Hcut Hb Hwf Hcat. unfold SECP256R1_PRIVATE_KEY_SIZE in Hcut.
  assert (Hr : is_bytes (0x04 :: 0x20 :: cut)) by (repeat (apply List.Forall_cons; [done|]); done).
  assert (Hl : Z.of_nat (length (0x04 :: 0x20 :: cut)) < 2 ^ 31 + 40) by (cbn [length]; lia).
  by rewrite (load_members _ Hr Hl chunks _ _ _ Hwf Hcat eq_refl (read_truncated_key _ cut eq_refl Hcut)).
Qed.

(** The key has one octet, the file two lines. *)
Lemma truncated_key_crashes_witness :
  ptls_minicrypto_load_private_key true []
    (Some (pem_file (str "PRIVATE KEY") [[take 30 (private_key_info (ec_sequence [0x04; 0x20; 0x07]));
                                          drop 30 (private_key_info (ec_sequence [0x04; 0x20; 0x07]))]])) = Stuck NullDeref.
Proof.
  apply (truncated_key_crashes [0x07]).
  - apply (bool_decide_unpack _). reflexivity.
  - apply (bool_decide_unpack _). reflexivity.
  - split_and!; try (apply (bool_decide_unpack _); reflexivity); done.
  - reflexivity.
Defined.
