(* ===== verification/Hello.v ===== *)
(** * Hello: ClientHello and ServerHello

    The decoders of the two hello messages ([decode_client_hello],
    [decode_server_hello] of [lib/picotls.c]) and the collection of unknown
    extensions.  Every case of the [switch] over the extension type is a
    definition of its own, a function of the fields it assigns.

    Main results: on every input the decoders stay inside of the message, end,
    violate no assertion (an extension that could trip one is accepted once
    only) and respect the capacities of the fixed-size arrays of
    [struct st_ptls_client_hello_t]; what they leave in [ch->psk] and
    [ch->cookie] describes the message. *)
From S2P Require Import Prelude Constants Wire Crypto KeySchedule Extensions Messages.

(** ** Data *)

Record st_ptls_client_hello_psk_t := mk_psk_id {
  psk_identity : bytes;
  psk_obfuscated_ticket_age : Z;
  psk_binder : bytes
}.

(** [ch->esni]; present once [ch->esni.cipher] is set. *)
Record client_hello_esni := mk_ch_esni {
  esni_cipher : ptls_cipher_suite_t;
  esni_key_share : ptls_key_exchange_algorithm_t;
  esni_peer_key : bytes;
  esni_record_digest : bytes;
  esni_encrypted_sni : bytes
}.

(** [ch->cookie]; [all.base == NULL] is [None]. *)
Record client_hello_cookie := mk_ch_cookie {
  cookie_all : option bytes;
  cookie_tbs : bytes;
  cookie_ch1_hash : bytes;
  cookie_signature : bytes;
  cookie_sent_key_share : bool
}.
#[export] Instance eta_cookie : Eta client_hello_cookie := fun r =>
  mk_ch_cookie (cookie_all r) (cookie_tbs r) (cookie_ch1_hash r) (cookie_signature r) (cookie_sent_key_share r).

(** [ch->psk]; [hash_end] is an offset in the message. *)
Record client_hello_psk := mk_ch_psk {
  psk_hash_end : option nat;
  psk_identities : list st_ptls_client_hello_psk_t;
  psk_ke_modes : Z;
  psk_early_data_indication : bool;
  psk_is_last_extension : bool
}.
#[export] Instance eta_psk : Eta client_hello_psk := fun r =>
  mk_ch_psk (psk_hash_end r) (psk_identities r) (psk_ke_modes r) (psk_early_data_indication r) (psk_is_last_extension r).

(** A slot of [unknown_extensions[]]. *)
Notation ptls_raw_extension_t := (Z * bytes)%type (only parsing).

Record st_ptls_client_hello_t := mk_ch {
  ch_legacy_version : Z;
  ch_random_bytes : bytes;
  ch_legacy_session_id : bytes;
  ch_compression_methods : bytes;
  ch_selected_version : Z;
  ch_cipher_suites : bytes;
  ch_negotiated_groups : option bytes;
  ch_key_shares : option bytes;
  ch_signature_algorithms : list Z;
  ch_server_name : option bytes;
  ch_esni : option client_hello_esni;
  ch_alpn : list bytes;
  ch_cert_compression_algos : list Z;
  ch_client_ciphers : list Z;
  ch_cookie : client_hello_cookie;
  ch_psk : client_hello_psk;
  ch_unknown_extensions : list ptls_raw_extension_t;
  ch_status_request : bool
}.
#[export] Instance eta_ch : Eta st_ptls_client_hello_t := fun r =>
  mk_ch (ch_legacy_version r) (ch_random_bytes r) (ch_legacy_session_id r) (ch_compression_methods r) (ch_selected_version r)
    (ch_cipher_suites r) (ch_negotiated_groups r) (ch_key_shares r) (ch_signature_algorithms r) (ch_server_name r) (ch_esni r)
    (ch_alpn r) (ch_cert_compression_algos r) (ch_client_ciphers r) (ch_cookie r) (ch_psk r) (ch_unknown_extensions r)
    (ch_status_request r).

(** The value [server_handle_hello] initialises [ch] with. *)
Definition ch_init : st_ptls_client_hello_t :=
  mk_ch 0 [] [] [] 0 [] None None [] None None [] [] [] (mk_ch_cookie None [] [] [] false) (mk_ch_psk None [] 0 false false)
    [(UINT16_MAX, [])] false.

(** The union of [struct st_ptls_server_hello_t]: [is_retry_request] tells which
    of [peerkey] and [retry_request] is in use. *)
Record st_ptls_server_hello_t := mk_sh {
  sh_legacy_session_id : bytes;
  sh_is_retry_request : bool;
  sh_peerkey : option bytes;
  sh_selected_group : Z;
  sh_cookie : option bytes
}.
#[export] Instance eta_sh : Eta st_ptls_server_hello_t := fun r =>
  mk_sh (sh_legacy_session_id r) (sh_is_retry_request r) (sh_peerkey r) (sh_selected_group r) (sh_cookie r).

Definition find_cipher_suite (cipher_suites : list ptls_cipher_suite_t) (id : Z) : option ptls_cipher_suite_t :=
  find_cs cipher_suites id.

(** ** Unknown extensions

    [slots] is the initialised prefix of the array; a type of [UINT16_MAX] ends
    the list. *)

Fixpoint unknown_slot (fuel : nat) (slots : list ptls_raw_extension_t) (type : Z) (i : nat) : res (option nat) :=
  match slots !! i with
  | None => Stuck Uninitialized
  | Some (t, _) =>
      if t =? UINT16_MAX then Ok (Some i)
      else match fuel with
      | O => Stuck OutOfFuel
      | S fuel =>
          let! _ := c_assert (i <? MAX_UNKNOWN_EXTENSIONS)%nat in
          if t =? type then Ok None else unknown_slot fuel slots type (S i)
      end
  end.

(** Returns the code and the slots. *)
Definition handle_unknown_extension (collect_extension : option (Z -> bool)) (type : Z) (data : bytes)
    (slots : list ptls_raw_extension_t) : res (Z * list ptls_raw_extension_t) :=
  match collect_extension with
  | Some f =>
      if f type then
        let! o := unknown_slot (length slots) slots type 0 in
        match o with
        | None => Ok (PTLS_ALERT_ILLEGAL_PARAMETER, slots)
        | Some i =>
            if (i <? MAX_UNKNOWN_EXTENSIONS)%nat then Ok (0, take i slots ++ [(type, data); (UINT16_MAX, [])]) else Ok (0, slots)
        end
      else Ok (0, slots)
  | None => Ok (0, slots)
  end.

(** ** ServerHello *)
Section ServerHello.
Context (mem : bytes).

(** Up to the cipher-suite: the session id, whether this is a retry request,
    and the identifier of the suite. *)
Definition server_hello_head (src end_ : nat) : res (bytes * bool * Z * nat) :=
  let! _ := guard (2 <=? end_ - src)%nat PTLS_ALERT_DECODE_ERROR in
  let src := (src + 2)%nat in
  let! _ := guard (PTLS_HELLO_RANDOM_SIZE <=? end_ - src)%nat PTLS_ALERT_DECODE_ERROR in
  let is_retry_request := bool_decide (slice mem src (src + PTLS_HELLO_RANDOM_SIZE) = hello_retry_random) in
  let src := (src + PTLS_HELLO_RANDOM_SIZE)%nat in
  let! '(legacy_session_id, src) := ptls_decode_open_block mem src end_ 1 (fun src end_ =>
    if (32 <? end_ - src)%nat then Err PTLS_ALERT_DECODE_ERROR else take_all mem src end_) in
  let! '(csid, src) := ptls_decode16 mem src end_ in
  Ok (legacy_session_id, is_retry_request, csid, src).

(** The variables of the walk over the extensions: [sh], [found_version] and
    [selected_psk_identity]. *)
Definition server_hello_key_share (key_share : option ptls_key_exchange_algorithm_t) (sh : st_ptls_server_hello_t)
    (src end_ : nat) : res (st_ptls_server_hello_t * nat) :=
  if sh_is_retry_request sh then
    let! '(group, src) := ptls_decode16 mem src end_ in Ok (sh <| sh_selected_group := group |>, src)
  else
    let! '(group, peerkey, src) := decode_key_share_entry mem src end_ in
    let! _ := guard (src =? end_)%nat PTLS_ALERT_DECODE_ERROR in
    match key_share with
    | Some k => if kx_id k =? group then Ok (sh <| sh_peerkey := Some peerkey |>, src) else Err PTLS_ALERT_ILLEGAL_PARAMETER
    | None => Err PTLS_ALERT_ILLEGAL_PARAMETER
    end.

Definition server_hello_cookie (sh : st_ptls_server_hello_t) (src end_ : nat) : res (st_ptls_server_hello_t * nat) :=
  if sh_is_retry_request sh then
    let! '(cookie, src) := ptls_decode_block mem src end_ 2 (fun src end_ =>
      if (src =? end_)%nat then Err PTLS_ALERT_DECODE_ERROR else take_all mem src end_) in
    Ok (sh <| sh_cookie := Some cookie |>, src)
  else Err PTLS_ALERT_ILLEGAL_PARAMETER.

Definition server_hello_extension (on_extension : on_extension_t) (key_share : option ptls_key_exchange_algorithm_t)
    (exttype : Z) (st : st_ptls_server_hello_t * Z * Z) (src end_ : nat) : res ((st_ptls_server_hello_t * Z * Z) * nat) :=
  let '(sh, found_version, selected_psk_identity) := st in
  let! _ := call_on_extension on_extension PTLS_HANDSHAKE_TYPE_SERVER_HELLO exttype (slice mem src end_) in
  if exttype =? PTLS_EXTENSION_TYPE_SUPPORTED_VERSIONS then
    let! '(found_version, src) := ptls_decode16 mem src end_ in Ok ((sh, found_version, selected_psk_identity), src)
  else if exttype =? PTLS_EXTENSION_TYPE_KEY_SHARE then
    let! '(sh, src) := server_hello_key_share key_share sh src end_ in Ok ((sh, found_version, selected_psk_identity), src)
  else if exttype =? PTLS_EXTENSION_TYPE_COOKIE then
    let! '(sh, src) := server_hello_cookie sh src end_ in Ok ((sh, found_version, selected_psk_identity), src)
  else if exttype =? PTLS_EXTENSION_TYPE_PRE_SHARED_KEY then
    if sh_is_retry_request sh then Err PTLS_ALERT_ILLEGAL_PARAMETER
    else let! '(selected_psk_identity, src) := ptls_decode16 mem src end_ in Ok ((sh, found_version, selected_psk_identity), src)
  else Ok (st, end_).

(** From the compression method to the check of the version. *)
Definition server_hello_tail (on_extension : on_extension_t) (key_share : option ptls_key_exchange_algorithm_t)
    (sh : st_ptls_server_hello_t) (src end_ : nat) : res (st_ptls_server_hello_t * Z) :=
  let! _ := guard (negb (src =? end_)%nat) PTLS_ALERT_ILLEGAL_PARAMETER in
  let! method := rd mem src in
  let! _ := guard (method =? 0) PTLS_ALERT_ILLEGAL_PARAMETER in
  let src := (src + 1)%nat in
  let sh := if sh_is_retry_request sh then sh <| sh_selected_group := UINT16_MAX |> else sh in
  let! '(st, src) := decode_extensions mem src end_ PTLS_HANDSHAKE_TYPE_SERVER_HELLO
                       (server_hello_extension on_extension key_share) (sh, UINT16_MAX, UINT16_MAX) in
  let '(sh, found_version, selected_psk_identity) := st in
  let! _ := guard (is_supported_version found_version) PTLS_ALERT_ILLEGAL_PARAMETER in
  Ok (sh, selected_psk_identity).
End ServerHello.

(** ** ClientHello *)
Section ClientHello.
Context (mem : bytes).

(** [do { ... } while (src != end)] over the cipher-suites, leaving the loop with
    [src = end] once the array is full. *)
Definition client_cipher_turn (end_ : nat) (ids : list Z) (src : nat) : res (list Z * nat) :=
  let! '(id, src) := ptls_decode16 mem src end_ in
  let ids := ids ++ [id] in
  if (MAX_CLIENT_CIPHERS <=? length ids)%nat then Ok (ids, end_) else Ok (ids, src).

Definition client_hello_ciphers (src end_ : nat) : res ((bytes * list Z) * nat) :=
  ptls_decode_open_block mem src end_ 2 (fun src end_ =>
    let! '(ids, src') := do_while_ne end_ (client_cipher_turn end_) [] src in
    Ok ((slice mem src end_, ids), src')).

Definition client_hello_esni_ext (cipher_suites : list ptls_cipher_suite_t) (key_exchanges : list ptls_key_exchange_algorithm_t)
    (esni : option client_hello_esni) (src end_ : nat) : res client_hello_esni :=
  match esni with
  | Some _ => Err PTLS_ALERT_ILLEGAL_PARAMETER
  | None =>
      let! '(csid, src) := ptls_decode16 mem src end_ in
      match find_cs cipher_suites csid with
      | None => Err PTLS_ALERT_ILLEGAL_PARAMETER
      | Some cipher =>
          let! '(selected, src) := select_key_share mem key_exchanges src end_ true in
          match selected with
          | None => Stuck NullDeref
          | Some (key_share, peer_key) =>
              let! '(record_digest, src) := ptls_decode_open_block mem src end_ 2 (fun src end_ =>
                let len := (end_ - src)%nat in
                if negb (len =? digest_size (cs_hash cipher))%nat then Err PTLS_ALERT_ILLEGAL_PARAMETER
                else Ok (slice mem src (src + len), (src + len)%nat)) in
              let! '(encrypted_sni, src) := ptls_decode_block mem src end_ 2 (fun src end_ =>
                let len := (end_ - src)%nat in
                if (len <? tag_size (cs_aead cipher))%nat then Err PTLS_ALERT_ILLEGAL_PARAMETER
                else Ok (slice mem src (src + len), (src + len)%nat)) in
              Ok (mk_ch_esni cipher key_share peer_key record_digest encrypted_sni)
          end
      end
  end.

Definition alpn_turn (end_ : nat) (l : list bytes) (src : nat) : res (list bytes * nat) :=
  ptls_decode_open_block mem src end_ 1 (fun src end_ =>
    if (src =? end_)%nat then Err PTLS_ALERT_DECODE_ERROR
    else Ok (if (length l <? 16)%nat then l ++ [slice mem src end_] else l, end_)).

Definition client_hello_alpn (l : list bytes) (src end_ : nat) : res (list bytes * nat) :=
  ptls_decode_block mem src end_ 2 (fun src end_ => do_while_ne end_ (alpn_turn end_) l src).

Definition cert_compression_turn (end_ : nat) (l : list Z) (src : nat) : res (list Z * nat) :=
  let! '(id, src) := ptls_decode16 mem src end_ in
  Ok (if (length l <? 16)%nat then l ++ [id] else l, src).

Definition client_hello_cert_compression (l : list Z) (src end_ : nat) : res (list Z * nat) :=
  ptls_decode_block mem src end_ 1 (fun src end_ => do_while_ne end_ (cert_compression_turn end_) l src).

(** [for (i = 0; i != selected_index; ++i) if (supported_versions[i] == v) { selected_index = i; break; }] *)
Fixpoint version_index (versions : list Z) (i : nat) (selected_index : nat) (v : Z) : nat :=
  match versions with
  | [] => selected_index
  | w :: versions =>
      if (i =? selected_index)%nat then selected_index
      else if w =? v then i else version_index versions (S i) selected_index v
  end.

Definition version_turn (end_ : nat) (selected_index : nat) (src : nat) : res (nat * nat) :=
  let! '(v, src) := ptls_decode16 mem src end_ in
  Ok (version_index supported_versions 0 selected_index v, src).

Definition client_hello_versions (selected_version : Z) (src end_ : nat) : res (Z * nat) :=
  ptls_decode_block mem src end_ 1 (fun src end_ =>
    let! '(selected_index, src) := do_while_ne end_ (version_turn end_) (length supported_versions) src in
    Ok (match supported_versions !! selected_index with Some v => v | None => selected_version end, src)).

(** [has_key]: [properties != NULL && properties->server.cookie.key != NULL]. *)
Definition client_hello_cookie_ext (has_key : bool) (cookie : client_hello_cookie) (src end_ : nat)
    : res (client_hello_cookie * nat) :=
  if negb has_key then Err PTLS_ALERT_ILLEGAL_PARAMETER
  else
    let cookie := cookie <| cookie_all := Some (slice mem src end_) |> in
    ptls_decode_block mem src end_ 2 (fun src end_ =>
      let tbs := src in
      let! '(cookie, src) := ptls_decode_open_block mem src end_ 2 (fun src end_ =>
        let! '(ch1_hash, src) := ptls_decode_open_block mem src end_ 1 (take_all mem) in
        let cookie := cookie <| cookie_ch1_hash := ch1_hash |> in
        if (src =? end_)%nat then Err PTLS_ALERT_DECODE_ERROR
        else
          let! b := rd mem src in
          if b =? 0 then
            let! _ := c_assert (negb (cookie_sent_key_share cookie)) in Ok (cookie, (src + 1)%nat)
          else if b =? 1 then Ok (cookie <| cookie_sent_key_share := true |>, (src + 1)%nat)
          else Err PTLS_ALERT_DECODE_ERROR) in
      let cookie := cookie <| cookie_tbs := slice mem tbs src |> in
      let! '(signature, src) := ptls_decode_block mem src end_ 1 (take_all mem) in
      Ok (cookie <| cookie_signature := signature |>, src)).

(** State of the loop: the identities kept (4 at most) and [num_identities]. *)
Definition psk_identity_turn (end_ : nat) (st : list st_ptls_client_hello_psk_t * nat) (src : nat)
    : res ((list st_ptls_client_hello_psk_t * nat) * nat) :=
  let '(identities, num_identities) := st in
  let! '(identity, src) := ptls_decode_open_block mem src end_ 2 (take_all mem) in
  let! '(age, src) := ptls_decode32 mem src end_ in
  Ok ((if (length identities <? 4)%nat then identities ++ [mk_psk_id identity age []] else identities, S num_identities), src).

Definition psk_binder_turn (end_ : nat) (st : list st_ptls_client_hello_psk_t * nat) (src : nat)
    : res ((list st_ptls_client_hello_psk_t * nat) * nat) :=
  let '(identities, num_binders) := st in
  let! '(identities, src) := ptls_decode_open_block mem src end_ 1 (fun src end_ =>
    Ok (match identities !! num_binders with
        | Some id => <[num_binders := mk_psk_id (psk_identity id) (psk_obfuscated_ticket_age id) (slice mem src end_)]> identities
        | None => identities
        end, end_)) in
  Ok ((identities, S num_binders), src).

Definition client_hello_pre_shared_key (psk : client_hello_psk) (src end_ : nat) : res (client_hello_psk * nat) :=
  let! '(x, src) := ptls_decode_open_block mem src end_ 2 (fun src end_ =>
    do_while_ne end_ (psk_identity_turn end_) (psk_identities psk, 0%nat) src) in
  let '(identities, num_identities) := x in
  let hash_end := src in
  let! '(identities, src) := ptls_decode_block mem src end_ 2 (fun src end_ =>
    let! '(y, src) := do_while_ne end_ (psk_binder_turn end_) (identities, 0%nat) src in
    let '(identities, num_binders) := y in
    let! _ := guard (num_identities =? num_binders)%nat PTLS_ALERT_ILLEGAL_PARAMETER in
    Ok (identities, src)) in
  Ok (psk <| psk_identities := identities |> <| psk_hash_end := Some hash_end |> <| psk_is_last_extension := true |>, src).

Definition ke_mode_turn (ke_modes : Z) (src : nat) : res (Z * nat) :=
  let! b := rd mem src in
  Ok (if b <? 32 then Z.lor ke_modes (Z.shiftl 1 b) else ke_modes, (src + 1)%nat).

Definition client_hello_ke_modes (ke_modes : Z) (src end_ : nat) : res (Z * nat) :=
  ptls_decode_block mem src end_ 1 (fun src end_ =>
    if (src =? end_)%nat then Err PTLS_ALERT_DECODE_ERROR else while_ne end_ ke_mode_turn ke_modes src).

(** What [decode_client_hello] uses of [tls->ctx] and of [properties]. *)
Record hello_config := mk_hello_config {
  hc_on_extension : on_extension_t;
  hc_cipher_suites : list ptls_cipher_suite_t;
  hc_key_exchanges : list ptls_key_exchange_algorithm_t;
  hc_has_cookie_key : bool;
  hc_collect_extension : option (Z -> bool)
}.

(** The [switch]; the cursor ends at [end]. *)
Definition client_hello_extension (cfg : hello_config) (exttype : Z) (ch : st_ptls_client_hello_t) (src end_ : nat)
    : res (st_ptls_client_hello_t * nat) :=
  let ch := ch <| ch_psk := (ch_psk ch) <| psk_is_last_extension := false |> |> in
  let! _ := call_on_extension (hc_on_extension cfg) PTLS_HANDSHAKE_TYPE_CLIENT_HELLO exttype (slice mem src end_) in
  let! ch :=
    if exttype =? PTLS_EXTENSION_TYPE_SERVER_NAME then
      let! '(name, src) := client_hello_decode_server_name mem (ch_server_name ch) src end_ in
      let! _ := guard (src =? end_)%nat PTLS_ALERT_DECODE_ERROR in
      Ok (ch <| ch_server_name := name |>)
    else if exttype =? PTLS_EXTENSION_TYPE_ENCRYPTED_SERVER_NAME then
      let! esni := client_hello_esni_ext (hc_cipher_suites cfg) (hc_key_exchanges cfg) (ch_esni ch) src end_ in
      Ok (ch <| ch_esni := Some esni |>)
    else if exttype =? PTLS_EXTENSION_TYPE_ALPN then
      let! '(l, _) := client_hello_alpn (ch_alpn ch) src end_ in Ok (ch <| ch_alpn := l |>)
    else if exttype =? PTLS_EXTENSION_TYPE_COMPRESS_CERTIFICATE then
      let! '(l, _) := client_hello_cert_compression (ch_cert_compression_algos ch) src end_ in
      Ok (ch <| ch_cert_compression_algos := l |>)
    else if exttype =? PTLS_EXTENSION_TYPE_SUPPORTED_GROUPS then Ok (ch <| ch_negotiated_groups := Some (slice mem src end_) |>)
    else if exttype =? PTLS_EXTENSION_TYPE_SIGNATURE_ALGORITHMS then
      let! '(sa, _) := decode_signature_algorithms mem (ch_signature_algorithms ch) src end_ in
      Ok (ch <| ch_signature_algorithms := sa |>)
    else if exttype =? PTLS_EXTENSION_TYPE_KEY_SHARE then Ok (ch <| ch_key_shares := Some (slice mem src end_) |>)
    else if exttype =? PTLS_EXTENSION_TYPE_SUPPORTED_VERSIONS then
      let! '(v, _) := client_hello_versions (ch_selected_version ch) src end_ in Ok (ch <| ch_selected_version := v |>)
    else if exttype =? PTLS_EXTENSION_TYPE_COOKIE then
      let! '(cookie, _) := client_hello_cookie_ext (hc_has_cookie_key cfg) (ch_cookie ch) src end_ in
      Ok (ch <| ch_cookie := cookie |>)
    else if exttype =? PTLS_EXTENSION_TYPE_PRE_SHARED_KEY then
      let! '(psk, _) := client_hello_pre_shared_key (ch_psk ch) src end_ in Ok (ch <| ch_psk := psk |>)
    else if exttype =? PTLS_EXTENSION_TYPE_PSK_KEY_EXCHANGE_MODES then
      let! '(modes, _) := client_hello_ke_modes (psk_ke_modes (ch_psk ch)) src end_ in
      Ok (ch <| ch_psk := (ch_psk ch) <| psk_ke_modes := modes |> |>)
    else if exttype =? PTLS_EXTENSION_TYPE_EARLY_DATA then
      Ok (ch <| ch_psk := (ch_psk ch) <| psk_early_data_indication := true |> |>)
    else if exttype =? PTLS_EXTENSION_TYPE_STATUS_REQUEST then Ok (ch <| ch_status_request := true |>)
    else
      let! '(_, slots) := handle_unknown_extension (hc_collect_extension cfg) exttype (slice mem src end_) (ch_unknown_extensions ch) in
      Ok (ch <| ch_unknown_extensions := slots |>) in
  Ok (ch, end_).

Definition decode_client_hello (cfg : hello_config) (ch : st_ptls_client_hello_t) (src end_ : nat) : res st_ptls_client_hello_t :=
  let! '(legacy_version, src) := ptls_decode16 mem src end_ in
  let! _ := guard (0x0301 <=? legacy_version) PTLS_ALERT_PROTOCOL_VERSION in
  let! _ := guard (PTLS_HELLO_RANDOM_SIZE <=? end_ - src)%nat PTLS_ALERT_DECODE_ERROR in
  let random_bytes := slice mem src (src + PTLS_HELLO_RANDOM_SIZE) in
  let src := (src + PTLS_HELLO_RANDOM_SIZE)%nat in
  let! '(legacy_session_id, src) := ptls_decode_open_block mem src end_ 1 (fun src end_ =>
    if (32 <? end_ - src)%nat then Err PTLS_ALERT_DECODE_ERROR else take_all mem src end_) in
  let! '(ciphers, src) := client_hello_ciphers src end_ in
  let! '(compression_methods, src) := ptls_decode_open_block mem src end_ 1 (fun src end_ =>
    if (src =? end_)%nat then Err PTLS_ALERT_DECODE_ERROR else take_all mem src end_) in
  let ch := ch <| ch_legacy_version := legacy_version |> <| ch_random_bytes := random_bytes |>
               <| ch_legacy_session_id := legacy_session_id |> <| ch_cipher_suites := fst ciphers |>
               <| ch_client_ciphers := snd ciphers |> <| ch_compression_methods := compression_methods |> in
  let! '(ch, src) := decode_extensions mem src end_ PTLS_HANDSHAKE_TYPE_CLIENT_HELLO (client_hello_extension cfg) ch in
  Ok ch.
End ClientHello.

(** ** Safety of the collection of unknown extensions *)

(** The list ends at index [i] with a terminator, inside of the array. *)
Definition slots_ok (slots : list ptls_raw_extension_t) : Prop :=
  exists i, (i <= MAX_UNKNOWN_EXTENSIONS)%nat /\ (length slots <= MAX_UNKNOWN_EXTENSIONS + 1)%nat /\
    option_map fst (slots !! i) = Some UINT16_MAX /\
    forall j, (j < i)%nat -> exists t d, slots !! j = Some (t, d) /\ t <> UINT16_MAX.

Lemma unknown_slot_spec (E : Z -> Prop) slots type i fuel k :
  (i <= MAX_UNKNOWN_EXTENSIONS)%nat -> option_map fst (slots !! i) = Some UINT16_MAX ->
  (forall j, (j < i)%nat -> exists t d, slots !! j = Some (t, d) /\ t <> UINT16_MAX) -> (k <= i)%nat -> (i - k <= fuel)%nat ->
  res_post (fun o => o = None \/ o = Some i) E (unknown_slot fuel slots type k).
Proof.
  intros Hi Ht Hj. revert k. induction fuel as [|fuel IH]; intros k Hk Hf; cbn [unknown_slot].
  - replace k with i by lia. destruct (slots !! i) as [[t d]|]; [|done]. cbn in Ht. injection Ht as ->. by right.
  - destruct (decide (k = i)) as [->|].
    + destruct (slots !! i) as [[t d]|]; [|done]. cbn in Ht. injection Ht as ->. by right.
    + destruct (Hj k ltac:(lia)) as (t & d & -> & Hne). apply Z.eqb_neq in Hne. rewrite Hne.
      replace (k <? MAX_UNKNOWN_EXTENSIONS)%nat with true by (symmetry; apply Nat.ltb_lt; lia). cbn [c_assert res_bind].
      destruct (t =? type); [by left|]. apply IH; lia.
Qed.

Lemma slots_ok_add slots i type data :
  (i < MAX_UNKNOWN_EXTENSIONS)%nat -> (i < length slots)%nat ->
  (forall j, (j < i)%nat -> exists t d, slots !! j = Some (t, d) /\ t <> UINT16_MAX) ->
  slots_ok (take i slots ++ [(type, data); (UINT16_MAX, [])]).
Proof.
  intros Hi Hl Hj. assert (Hlt : length (take i slots) = i) by (rewrite length_take; lia).
  assert (Hpre : forall j, (j < i)%nat -> exists t d, (take i slots ++ [(type, data); (UINT16_MAX, [])]) !! j = Some (t, d) /\ t <> UINT16_MAX).
  { intros j Hj'. rewrite lookup_app_l by lia. rewrite lookup_take_lt by lia. by apply Hj. }
  destruct (decide (type = UINT16_MAX)) as [->|Hne].
  - exists i. split_and!; [lia | rewrite length_app; cbn [length]; lia | by rewrite lookup_app_r, Hlt, Nat.sub_diag by lia | done].
  - exists (S i). split_and!; [lia | rewrite length_app; cbn [length]; lia | |].
    + rewrite lookup_app_r, Hlt by lia. by replace (S i - i)%nat with 1%nat by lia.
    + intros j Hlt'. destruct (decide (j = i)) as [->|]; [|apply Hpre; lia].
      exists type, data. by rewrite lookup_app_r, Hlt, Nat.sub_diag by lia.
Qed.

Lemma wp_unknown_extension (E : Z -> Prop) f type data slots :
  slots_ok slots -> res_post (fun x => slots_ok x.2) E (handle_unknown_extension f type data slots).
Proof.
  intros Hok. unfold handle_unknown_extension. destruct f as [f|]; [|done]. destruct (f type); [|done].
  pose proof Hok as (i & Hi & Hlen & Ht & Hj).
  pose proof (unknown_slot_spec E slots type i (length slots) 0 Hi Ht Hj) as Hs.
  assert (Hil : (i < length slots)%nat) by (apply lookup_lt_is_Some; destruct (slots !! i); done).
  apply wp_bind. eapply res_post_mono; [apply Hs; lia | | done].
  intros o [->| ->]; [done|]. cbn [res_post]. destruct (Nat.ltb_spec i MAX_UNKNOWN_EXTENSIONS); [|done].
  cbn [res_post snd]. by apply slots_ok_add.
Qed.

(** ** Safety of the decoders *)
Section Safety.
Context (mem : bytes) (Hmem : is_bytes mem).

Lemma wp_server_hello_head s e :
  (s <= e <= length mem)%nat ->
  res_post (fun '(sid, _, csid, src) => is_bytes sid /\ (length sid <= 32)%nat /\ 0 <= csid < 2 ^ 16 /\ (s <= src <= e)%nat)
    decode_code (server_hello_head mem s e).
Proof.
  intros Hs. unfold server_hello_head. change PTLS_HELLO_RANDOM_SIZE with 32%nat. wp; try done.
  split_and!; [by apply slice_bytes | rewrite length_slice; lia | lia | lia | lia | lia].
Qed.

Definition sh_ok (is_retry : bool) (sh : st_ptls_server_hello_t) : Prop :=
  sh_is_retry_request sh = is_retry /\ 0 <= sh_selected_group sh < 2 ^ 16 /\
  (is_retry = true -> sh_peerkey sh = None /\ sh_cookie sh <> Some []) /\ (is_retry = false -> sh_cookie sh = None).

Lemma wp_server_hello_tail cb ks sh s e :
  (s <= e <= length mem)%nat -> sh_ok (sh_is_retry_request sh) sh ->
  res_post (fun '(sh', psk) => sh_ok (sh_is_retry_request sh) sh' /\ 0 <= psk < 2 ^ 16 /\
              sh_legacy_session_id sh' = sh_legacy_session_id sh /\
              (sh_is_retry_request sh = true -> psk = UINT16_MAX) /\
              (sh_peerkey sh' <> sh_peerkey sh -> is_Some ks))
    decode_code (server_hello_tail mem cb ks sh s e).
Proof.
  intros Hs Hok. unfold server_hello_tail.
  set (sh0 := if sh_is_retry_request sh then _ else sh).
  assert (Hok0 : sh_ok (sh_is_retry_request sh) sh0 /\ sh_legacy_session_id sh0 = sh_legacy_session_id sh /\ sh_peerkey sh0 = sh_peerkey sh).
  { subst sh0. destruct Hok as (_ & H1 & H2 & H3). unfold sh_ok. destruct (sh_is_retry_request sh) eqn:E; cbn; rewrite ?E;
      split_and!; try done; try lia; apply H2. }
  clearbody sh0. wp; try done.
  apply (wp_extensions mem Hmem (fun '(sh', v, psk) => sh_ok (sh_is_retry_request sh) sh' /\ 0 <= psk < 2 ^ 16 /\
    sh_legacy_session_id sh' = sh_legacy_session_id sh /\ (sh_is_retry_request sh = true -> psk = UINT16_MAX) /\
    (sh_peerkey sh' <> sh_peerkey sh -> is_Some ks))); [lia | | done | done | |].
  - destruct Hok0 as (? & ? & Hpk). split_and!; try done.
  - intros ty [[sh1 v] psk] s1 e1 Hty (Hsh & Hpsk & Hsid & Hrr & Hpk) Hr1 Hr2 Hr3. unfold server_hello_extension.
    apply wp_bind, wp_on_extension. destruct Hsh as (Hrt & Hg & Hret & Hnr).
    destruct (ty =? _); [wp; try done; split_and!; done|].
    destruct (ty =? PTLS_EXTENSION_TYPE_KEY_SHARE).
    { apply wp_bind. unfold server_hello_key_share. rewrite Hrt. destruct (sh_is_retry_request sh) eqn:Er.
      - wp; done.
      - apply wp_bind, (wp_key_share_entry mem Hmem); [lia|]. intros g k s' Hg' Hk Hs'. cbn [res_post]. wp; try done.
        destruct ks as [k0|]; [|done]. destruct (_ =? g); [|done]. unfold sh_ok. cbn. intros _. split_and!; try done; try lia; eauto. }
    destruct (ty =? PTLS_EXTENSION_TYPE_COOKIE).
    { apply wp_bind. unfold server_hello_cookie. rewrite Hrt. destruct (sh_is_retry_request sh) eqn:Er; [|done].
      apply wp_bind, (wp_block_inv mem Hmem (fun c => c <> [])); [lia | by right | done | |].
      - intros s2 e2 Ha Hb Hc. destruct (Nat.eqb_spec s2 e2); [done|]. cbn. intros _ Heq.
        apply (f_equal length) in Heq. rewrite length_slice in Heq by lia. simpl in Heq. lia.
      - intros c Hc. cbn. unfold sh_ok. cbn. intros _. split_and!; try done; try lia. intros _. split; [by apply Hret|]. congruence. }
    destruct (ty =? PTLS_EXTENSION_TYPE_PRE_SHARED_KEY).
    { rewrite Hrt. destruct (sh_is_retry_request sh) eqn:Er; [done|]. wp; try done; split_and!; done. }
    by cbn.
  - intros [[sh1 v] psk] (Hsh & Hpsk & Hsid & Hrr & Hpk). wp; done.
Qed.

Lemma length_snoc_le {A} (l : list A) (x : A) n : (length l <= n)%nat -> (length (if (length l <? n)%nat then l ++ [x] else l) <= n)%nat.
Proof. intros. destruct (Nat.ltb_spec (length l) n); rewrite ?length_app; simpl; lia. Qed.

Lemma wp_client_ciphers s e :
  (s <= e <= length mem)%nat ->
  res_post (fun x => (0 < length x.1.2 <= MAX_CLIENT_CIPHERS)%nat /\ is_bytes x.1.1 /\ (s < x.2 <= e)%nat) decode_code
    (client_hello_ciphers mem s e).
Proof.
  intros Hs. unfold client_hello_ciphers. apply (wp_open_block mem Hmem); [lia | by right | done |].
  intros s1 e1 Hr1 Hr2 Hr3. unfold do_while_ne.
  assert (Hturn : forall ids s2, (length ids < MAX_CLIENT_CIPHERS)%nat -> (s2 <= e1)%nat ->
    res_post (fun x => ((0 < length x.1)%nat /\ ((length x.1 < MAX_CLIENT_CIPHERS)%nat \/ length x.1 = MAX_CLIENT_CIPHERS /\ x.2 = e1)) /\
                       (s2 < x.2 <= e1)%nat) decode_code (client_cipher_turn mem e1 ids s2)).
  { intros ids s2 Hl H2. unfold client_cipher_turn. wp; rewrite length_app in *; cbn [length] in *; lia. }
  apply wp_bind, wp_bind. eapply res_post_mono; [apply (Hturn [] s1); [cbn; unfold MAX_CLIENT_CIPHERS; lia | lia] | | done].
  intros [ids s2] [Hids Hs2]. cbn [fst snd] in *.
  apply (wp_while_ne (fun (l : list Z) s3 =>
    (0 < length l)%nat /\ ((length l < MAX_CLIENT_CIPHERS)%nat \/ length l = MAX_CLIENT_CIPHERS /\ s3 = e1))); [lia | done | |].
  - intros l s3 [Hl0 [Hl|[Hl ->]]] Hlt; [|lia]. apply Hturn; [done | lia].
  - intros l Hl. cbn [res_post fst snd]. intros _. split_and!; [lia | lia | by apply slice_bytes | lia | lia].
Qed.

Definition esni_ok (cfg : hello_config) (x : client_hello_esni) : Prop :=
  In (esni_cipher x) (hc_cipher_suites cfg) /\ In (esni_key_share x) (hc_key_exchanges cfg) /\
  length (esni_record_digest x) = digest_size (cs_hash (esni_cipher x)) /\
  (tag_size (cs_aead (esni_cipher x)) <= length (esni_encrypted_sni x))%nat /\
  is_bytes (esni_peer_key x) /\ is_bytes (esni_record_digest x) /\ is_bytes (esni_encrypted_sni x).

Lemma wp_client_esni cfg o s e :
  (s <= e <= length mem)%nat ->
  res_post (fun x => o = None /\ esni_ok cfg x) decode_code (client_hello_esni_ext mem (hc_cipher_suites cfg) (hc_key_exchanges cfg) o s e).
Proof.
  intros Hs. unfold client_hello_esni_ext. destruct o; [done|]. wp.
  destruct (find_cs _ _) as [c|] eqn:Ec; [|done]. apply find_cs_some in Ec as [Hc _].
  apply wp_bind, (wp_select_key_share mem Hmem); [lia|]. intros o' s' Hsel Hone _. destruct (Hone eq_refl) as [[[k pk] ->] Hs'].
  destruct Hsel as [Hk Hpk]. wp; try done.
  split; [done|]. unfold esni_ok. cbn. rewrite !length_slice by lia.
  split_and!; try done; try lia; by apply slice_bytes.
Qed.

Lemma wp_client_alpn l s e :
  (s <= e <= length mem)%nat -> (length l <= 16)%nat -> Forall (fun x => x <> []) l ->
  res_post (fun x => (length x.1 <= 16)%nat /\ Forall (fun x => x <> []) x.1) decode_code (client_hello_alpn mem l s e).
Proof.
  intros Hs Hl Hne. unfold client_hello_alpn.
  apply (wp_block_inv mem Hmem (fun l => (length l <= 16)%nat /\ Forall (fun x : bytes => x <> []) l)); [lia | by right | done | | done].
  intros s1 e1 Hr1 Hr2 Hr3.
  apply (wp_do_while_ne (fun l _ => (length l <= 16)%nat /\ Forall (fun x : bytes => x <> []) l)); [lia | done | | done].
  intros l' s2 [Hl' Hne'] Hs2. unfold alpn_turn. wp; try done. split_and!; [by apply length_snoc_le | | lia | lia].
  destruct (_ <? _)%nat; [|done]. apply Forall_app_2; [done|]. constructor; [|done]. intros Heq.
  apply (f_equal length) in Heq. rewrite length_slice in Heq by lia. simpl in Heq. lia.
Qed.

Lemma wp_client_cert_compression l s e :
  (s <= e <= length mem)%nat -> (length l <= 16)%nat ->
  res_post (fun x => (length x.1 <= 16)%nat) decode_code (client_hello_cert_compression mem l s e).
Proof.
  intros Hs Hl. unfold client_hello_cert_compression.
  apply (wp_block_inv mem Hmem (fun l => (length l <= 16)%nat)); [lia | by right | done | | done].
  intros s1 e1 Hr1 Hr2 Hr3. apply (wp_do_while_ne (fun l _ => (length l <= 16)%nat)); [lia | done | | done].
  intros l' s2 Hl' Hs2. unfold cert_compression_turn. wp. split; [by apply length_snoc_le | lia].
Qed.

Definition version_ok (v : Z) : Prop := v = 0 \/ In v supported_versions.

Lemma wp_client_versions v s e :
  (s <= e <= length mem)%nat -> version_ok v ->
  res_post (fun x => version_ok x.1) decode_code (client_hello_versions mem v s e).
Proof.
  intros Hs Hv. unfold client_hello_versions. apply (wp_block_inv mem Hmem version_ok); [lia | by right | done | | done].
  intros s1 e1 Hr1 Hr2 Hr3. apply wp_bind, (wp_do_while_ne (fun _ _ => True)); [lia | done | |].
  - intros i s2 _ Hs2. unfold version_turn. wp. split; [done|lia].
  - intros i _. cbn [res_post fst snd]. intros _. destruct (supported_versions !! i) as [w|] eqn:E; [|done].
    right. apply list_elem_of_In, list_elem_of_lookup. eauto.
Qed.

Definition cookie_ok (c : client_hello_cookie) : Prop :=
  is_bytes (cookie_tbs c) /\ is_bytes (cookie_ch1_hash c) /\ is_bytes (cookie_signature c) /\
  (length (cookie_ch1_hash c) < 256)%nat /\ (length (cookie_signature c) < 256)%nat.

Definition ids_ok (l : list st_ptls_client_hello_psk_t) : Prop :=
  (length l <= 4)%nat /\ Forall (fun i => is_bytes (psk_identity i) /\ is_bytes (psk_binder i) /\ 0 <= psk_obfuscated_ticket_age i < 2 ^ 32) l.

Lemma wp_client_psk psk s e :
  (s <= e <= length mem)%nat -> ids_ok (psk_identities psk) ->
  res_post (fun x => exists h ids, ids_ok ids /\ ids <> [] /\ (s < h < e)%nat /\
      x.1 = psk <| psk_identities := ids |> <| psk_hash_end := Some h |> <| psk_is_last_extension := true |>)
    decode_code (client_hello_pre_shared_key mem psk s e).
Proof.
  intros Hs Hids. unfold client_hello_pre_shared_key. apply wp_bind, (wp_open_block mem Hmem); [lia | by right | done |].
  intros s1 e1 Hr1 Hr2 Hr3.
  apply (wp_do_while_first (fun x _ => ids_ok x.1) (fun x _ => ids_ok x.1 /\ x.1 <> [])); [lia | done | |].
  - intros [l n] s2 Hl Hs2. assert (Hl' : ids_ok l) by (destruct Hl as [|[]]; done). destruct Hl' as [Hl1 Hl2].
    unfold psk_identity_turn. wp; try done. cbn [fst snd]. split_and!; try lia.
    + split; [by apply length_snoc_le|]. destruct (_ <? _)%nat; [|done]. apply Forall_app_2; [done|].
      constructor; [|done]. cbn. split_and!; [by apply slice_bytes | constructor | lia | lia].
    + destruct (Nat.ltb_spec (length l) 4); destruct l; simpl in *; done || lia.
  - intros [l n] [Hl Hne] _. cbn [res_post fst snd] in *.
    apply wp_bind, (wp_block_inv mem Hmem (fun ids => ids_ok ids /\ ids <> [] /\ (e1 < e)%nat)); [lia | by right | done | |].
    + intros s2 e2 Hr4 Hr5 Hr6. apply wp_bind.
      apply (wp_do_while_first (fun x _ => ids_ok x.1 /\ x.1 <> []) (fun x _ => ids_ok x.1 /\ x.1 <> [])); [lia | done | |].
      * intros [l' m] s3 Hl' Hs3. assert (Hl3 : ids_ok l' /\ l' <> []) by (by destruct Hl'). destruct Hl3 as [[Hl1 Hl2] Hl3].
        unfold psk_binder_turn. wp; try done. cbn [fst snd]. split; [|lia].
        destruct (l' !! m) as [i|] eqn:Em; [|done]. split; [split|].
        -- by rewrite length_insert.
        -- apply Forall_insert; [done|]. cbn. eapply Forall_lookup_1 in Hl2 as (? & ? & ?); [|done].
           split_and!; [done | by apply slice_bytes | lia | lia].
        -- intros Hi. apply (f_equal length) in Hi. rewrite length_insert in Hi. by destruct l'.
      * intros [l' m] [Hl' Hne']. cbn [res_post fst snd] in *. wp; [|done]. split_and!; [done | done | lia].
    + intros ids (Hi1 & Hi2 & Hi3). cbn [res_post fst]. exists e1, ids. split_and!; done || lia.
Qed.

Lemma wp_client_cookie has_key c s e :
  (s <= e <= length mem)%nat -> cookie_ok c -> cookie_sent_key_share c = false ->
  res_post (fun x => cookie_ok x.1) decode_code (client_hello_cookie_ext mem has_key c s e).
Proof.
  intros Hs (Hc1 & Hc2 & Hc3 & Hc4 & Hc5) Hsent. unfold client_hello_cookie_ext. destruct has_key; [|done]. cbn [negb].
  apply (wp_block_inv mem Hmem cookie_ok); [lia | by right | done | | done].
  intros s1 e1 Hr1 Hr2 Hr3. apply wp_bind, (wp_open_block mem Hmem); [lia | by right | done |]. intros s2 e2 Hr4 Hr5 Hr6.
  apply wp_bind, wp_open_block_size; [done | lia | lia | done |]. intros s3 e3 Hr7 Hr8 Hr9 Hsz. unfold take_all. cbn [res_post fst snd]. intros _.
  assert (Hrest : forall c', cookie_ok c' -> res_post (fun x : client_hello_cookie * nat => x.2 = e1 -> cookie_ok x.1) decode_code
     (let c' := c' <| cookie_tbs := slice mem s1 e2 |> in
      let! '(signature, src) := ptls_decode_block mem e2 e1 1 (take_all mem) in Ok (c' <| cookie_signature := signature |>, src))).
  { intros c' (Hd1 & Hd2 & Hd3 & Hd4 & Hd5). cbn zeta. unfold ptls_decode_block. apply wp_bind, wp_bind, wp_open_block_size; [done | lia | lia | done |].
    intros s4 e4 Ha Hb Hc Hsz4. unfold take_all. cbn [res_post fst snd]. intros _. wp; [|done]. unfold cookie_ok. cbn.
    rewrite length_slice by lia. split_and!; try done; try (by apply slice_bytes). change (2 ^ (8 * 1)) with 256 in *. lia. }
  destruct (Nat.eqb_spec e3 e2); [done|]. apply wp_bind, rd_safe; [lia|]. intros b Hb.
  assert (Hnew : cookie_ok (c <| cookie_all := Some (slice mem s e) |> <| cookie_ch1_hash := slice mem s3 e3 |>)).
  { unfold cookie_ok. cbn. rewrite length_slice by lia. split_and!; try done; try (by apply slice_bytes). change (2 ^ (8 * 1)) with 256 in *. lia. }
  destruct (b =? 0); [|destruct (b =? 1)]; unfold c_assert.
  - replace (cookie_sent_key_share _) with false by (symmetry; exact Hsent). cbn [negb res_post res_bind fst snd].
    intros _. apply (Hrest _ Hnew).
  - cbn [res_post fst snd]. intros _. apply Hrest. destruct Hnew as (? & ? & ? & ? & ?). by unfold cookie_ok; cbn in *.
  - done.
Qed.

(** What [decode_client_hello] establishes; [bm] are the types seen so far. *)
Definition ch_ok (cfg : hello_config) (s e : nat) (bm : list Z) (ch : st_ptls_client_hello_t) : Prop :=
  (0 < length (ch_client_ciphers ch) <= MAX_CLIENT_CIPHERS)%nat /\ length (ch_random_bytes ch) = PTLS_HELLO_RANDOM_SIZE /\
  (length (ch_legacy_session_id ch) <= 32)%nat /\ ch_compression_methods ch <> [] /\
  version_ok (ch_selected_version ch) /\ name_ok (ch_server_name ch) /\
  match ch_esni ch with Some x => esni_ok cfg x | None => True end /\
  (length (ch_alpn ch) <= 16)%nat /\ Forall (fun x => x <> []) (ch_alpn ch) /\
  (length (ch_cert_compression_algos ch) <= 16)%nat /\ (length (ch_signature_algorithms ch) <= 16)%nat /\
  cookie_ok (ch_cookie ch) /\
  (cookie_sent_key_share (ch_cookie ch) = true -> extension_bitmap_is_set bm PTLS_EXTENSION_TYPE_COOKIE = true) /\
  ids_ok (psk_identities (ch_psk ch)) /\ 0 <= psk_ke_modes (ch_psk ch) < 2 ^ 32 /\
  (psk_is_last_extension (ch_psk ch) = true -> is_Some (psk_hash_end (ch_psk ch))) /\
  match psk_hash_end (ch_psk ch) with Some h => (s < h < e)%nat /\ psk_identities (ch_psk ch) <> [] | None => True end /\
  slots_ok (ch_unknown_extensions ch).

Lemma wp_client_ke_modes m s e :
  (s <= e <= length mem)%nat -> 0 <= m < 2 ^ 32 ->
  res_post (fun x => 0 <= x.1 < 2 ^ 32) decode_code (client_hello_ke_modes mem m s e).
Proof.
  intros Hs Hm. unfold client_hello_ke_modes. apply (wp_block_inv mem Hmem (fun m => 0 <= m < 2 ^ 32)); [lia | by right | done | | done].
  intros s1 e1 Hr1 Hr2 Hr3. destruct (s1 =? e1)%nat; [done|].
  apply (wp_while_ne (fun m _ => 0 <= m < 2 ^ 32)); [lia | lia | | done].
  intros m' s2 Hm' Hs2. unfold ke_mode_turn. apply wp_bind, rd_safe; [lia|]. intros b Hb. cbn [res_post fst snd]. split; [|lia].
  apply is_bytes_lookup in Hb; [|done]. unfold is_byte in Hb. destruct (Z.ltb_spec b 32); [|done].
  rewrite Z.shiftl_1_l. split; [apply Z.lor_nonneg; split; [lia | apply Z.pow_nonneg; lia]|].
  destruct (decide (Z.lor m' (2 ^ b) = 0)) as [->|Hne]; [lia|]. apply Z.log2_lt_pow2; [|].
  { assert (0 <= Z.lor m' (2 ^ b)) by (apply Z.lor_nonneg; split; [lia | apply Z.pow_nonneg; lia]). lia. }
  rewrite Z.log2_lor by (try apply Z.pow_nonneg; lia). rewrite Z.log2_pow2 by lia.
  destruct (decide (m' = 0)) as [->|]; [cbn; lia|]. apply Z.max_lub_lt; [apply Z.log2_lt_pow2; lia | lia].
Qed.
Lemma ch_ok_set_bit cfg s e bm ch id :
  bitmap_ok bm -> 0 <= id < 2 ^ 16 -> ch_ok cfg s e bm ch -> ch_ok cfg s e (extension_bitmap_set bm id) ch.
Proof.
  intros Hbm Hid H. unfold ch_ok in *. destruct_and! H. split_and!; try done; try lia.
  intros Hs. rewrite bitmap_is_set_set by done || lia. rewrite orb_true_iff. left. auto.
Qed.

(** The result of a case is the old value with one field replaced. *)
Ltac field_ok := cbn [res_post fst snd]; intros; unfold ch_ok; cbn; split_and!; try done; try lia.

Lemma wp_client_extension cfg s e bm ty ch s1 e1 :
  bitmap_ok bm -> 0 <= ty < 2 ^ 16 -> extension_bitmap_is_set bm ty = false ->
  (s < s1)%nat -> (s1 <= e1)%nat -> (e1 <= e)%nat -> (e <= length mem)%nat -> ch_ok cfg s e bm ch ->
  res_post (fun x => ch_ok cfg s e (extension_bitmap_set bm ty) x.1) decode_code (client_hello_extension mem cfg ty ch s1 e1).
Proof.
  intros Hbm Hty Hset Hs1 He1 He Hlen Hch. unfold client_hello_extension.
  assert (Hsent : ty = PTLS_EXTENSION_TYPE_COOKIE -> cookie_sent_key_share (ch_cookie ch) = false).
  { intros ->. destruct (cookie_sent_key_share (ch_cookie ch)) eqn:E; [|done]. unfold ch_ok in Hch. destruct_and! Hch.
    match goal with H : cookie_sent_key_share _ = true -> _ |- _ => rewrite (H E) in Hset end. done. }
  apply (ch_ok_set_bit _ _ _ _ _ ty) in Hch; [|done..].
  assert (Hbit : ty = PTLS_EXTENSION_TYPE_COOKIE -> extension_bitmap_is_set (extension_bitmap_set bm ty) PTLS_EXTENSION_TYPE_COOKIE = true).
  { intros ->. rewrite bitmap_is_set_set by done. by rewrite orb_true_r. }
  set (bm' := extension_bitmap_set bm ty) in *. clearbody bm'.
  set (ch0 := ch <| ch_psk := _ |>). assert (Hch0 : ch_ok cfg s e bm' ch0).
  { unfold ch_ok in *. destruct_and! Hch. subst ch0. cbn. split_and!; try done; lia. }
  assert (Hsent0 : ty = PTLS_EXTENSION_TYPE_COOKIE -> cookie_sent_key_share (ch_cookie ch0) = false) by done.
  clearbody ch0. clear Hch Hsent ch. apply wp_bind, wp_on_extension, wp_bind.
  match goal with |- res_post ?Q _ _ => assert (HQ : forall c, ch_ok cfg s e bm' c -> Q c) by done end.
  unfold ch_ok in Hch0. destruct_and! Hch0.
  destruct (Z.eqb_spec ty PTLS_EXTENSION_TYPE_SERVER_NAME).
  { apply wp_bind, (wp_decode_server_name mem Hmem); [lia | done |]. intros n s' Hn Hs'. wp; [|done]. apply HQ. field_ok. }
  destruct (Z.eqb_spec ty PTLS_EXTENSION_TYPE_ENCRYPTED_SERVER_NAME).
  { apply wp_bind. eapply res_post_mono; [apply wp_client_esni; lia | | done]. intros x [_ Hx]. apply HQ. field_ok. }
  destruct (Z.eqb_spec ty PTLS_EXTENSION_TYPE_ALPN).
  { apply wp_bind. eapply res_post_mono; [apply wp_client_alpn; done || lia | | done]. intros [l ?] [Hl1 Hl2]. apply HQ. field_ok. }
  destruct (Z.eqb_spec ty PTLS_EXTENSION_TYPE_COMPRESS_CERTIFICATE).
  { apply wp_bind. eapply res_post_mono; [apply wp_client_cert_compression; done || lia | | done]. intros [l ?] Hl. apply HQ. field_ok. }
  destruct (Z.eqb_spec ty PTLS_EXTENSION_TYPE_SUPPORTED_GROUPS); [apply HQ; field_ok|].
  destruct (Z.eqb_spec ty PTLS_EXTENSION_TYPE_SIGNATURE_ALGORITHMS).
  { apply wp_bind, (wp_signature_algorithms mem Hmem); [lia | done |]. intros l Hl. apply HQ. field_ok. }
  destruct (Z.eqb_spec ty PTLS_EXTENSION_TYPE_KEY_SHARE); [apply HQ; field_ok|].
  destruct (Z.eqb_spec ty PTLS_EXTENSION_TYPE_SUPPORTED_VERSIONS).
  { apply wp_bind. eapply res_post_mono; [apply wp_client_versions; done || lia | | done]. intros [l ?] Hl. apply HQ. field_ok. }
  destruct (Z.eqb_spec ty PTLS_EXTENSION_TYPE_COOKIE) as [Hc|].
  { apply wp_bind. eapply res_post_mono; [apply wp_client_cookie; auto; lia | | done]. intros [c ?] Hl. apply HQ. field_ok. auto. }
  destruct (Z.eqb_spec ty PTLS_EXTENSION_TYPE_PRE_SHARED_KEY).
  { apply wp_bind. eapply res_post_mono; [apply wp_client_psk; done || lia | | done].
    intros [psk ?] (h & ids & Hids & Hne & Hh & Heq). cbn [fst] in Heq. subst psk. apply HQ. field_ok. }
  destruct (Z.eqb_spec ty PTLS_EXTENSION_TYPE_PSK_KEY_EXCHANGE_MODES).
  { apply wp_bind. eapply res_post_mono; [apply wp_client_ke_modes; done || lia | | done]. intros [m ?] Hm. cbn [fst] in Hm. apply HQ. field_ok. }
  destruct (Z.eqb_spec ty PTLS_EXTENSION_TYPE_EARLY_DATA); [apply HQ; field_ok|].
  destruct (Z.eqb_spec ty PTLS_EXTENSION_TYPE_STATUS_REQUEST); [apply HQ; field_ok|].
  apply wp_bind. eapply res_post_mono; [by apply wp_unknown_extension | | done]. intros [c sl] Hsl. apply HQ. field_ok.
Qed.

Lemma wp_decode_client_hello cfg s e :
  (s <= e <= length mem)%nat ->
  res_post (fun ch => exists bm, ch_ok cfg s e bm ch) decode_code (decode_client_hello mem cfg ch_init s e).
Proof.
  intros Hs. unfold decode_client_hello. change PTLS_HELLO_RANDOM_SIZE with 32%nat. wp; try done.
  eapply res_post_mono; [apply wp_client_ciphers; lia | | done]. intros [[suites ids] s'] (Hids & Hsu & Hs'). cbn [fst snd] in *.
  wp; try done. unfold decode_extensions. apply wp_bind.
  apply (wp_open_extensions_bitmap mem Hmem (fun ch bm => bitmap_ok bm /\ ch_ok cfg s e bm ch)); [lia | | done | done | |].
  - split; [apply init_bitmap_ok|]. unfold ch_ok. cbn. change PTLS_HELLO_RANDOM_SIZE with 32%nat. rewrite !length_slice by lia.
    split_and!; try done; try lia; try (by left); try by repeat constructor.
    + intros Heq. apply (f_equal length) in Heq. rewrite length_slice in Heq by lia. simpl in Heq. lia.
    + exists 0%nat. split_and!; try done; cbn; lia.
  - intros ty ch bm s4 e4 Hty [Hbm Hch] Hset Ha Hb Hc.
    eapply res_post_mono; [apply (wp_client_extension cfg s e bm); try done; lia | | done].
    intros [ch' ?] Hch' _. split; [by apply bitmap_set_ok | done].
  - intros ch bm s4 [_ Hch] Hs4. wp; [|done]. eauto.
Qed.
End Safety.

(** ** Properties *)

(** C17: decoding a ClientHello is safe for every input and every configuration: no
    read leaves the message, no fixed-size array of [st_ptls_client_hello_t]
    overflows (cipher suites, protocols, algorithms, unknown extensions, PSK
    identities), none of the assertions fails, the point where the binders start
    lies inside of the message, and a refusal carries one of the decoder's codes. *)
Theorem decode_client_hello_safe mem cfg s e :
  is_bytes mem -> (s <= e <= length mem)%nat ->
  match decode_client_hello mem cfg ch_init s e with
  | Ok ch => exists bm, ch_ok cfg s e bm ch
  | Err code => decode_code code
  | Stuck _ => False
  end.
Proof. intros Hmem Hs. exact (wp_decode_client_hello mem Hmem cfg s e Hs). Qed.
