(* ===== verification/Esni.v ===== *)
(** * Esni: encrypted server names (draft-ietf-tls-esni-03)

    The client parses an [ESNIKeys] structure, derives a key from an exchange
    with one of its key shares and encrypts the server name; the server does the
    reverse ([lib/picotls.c]).

    Main results: what the client encrypts under a published record, the server
    that holds the private keys of this record decrypts to the same nonce, name
    and shared secret, if the name leaves 16 octets of the padding; the parsers
    are safe on every input. *)
From S2P Require Import Prelude Constants Wire Crypto KeySchedule Extensions Messages Hello.

(** ** Data *)

(** The [client] part of the secret. *)
Record esni_client := mk_esni_client {
  ec_key_share : ptls_key_exchange_algorithm_t;
  ec_cipher : ptls_cipher_suite_t;
  ec_pubkey : bytes;
  ec_record_digest : bytes;
  ec_padded_length : Z
}.

Record ptls_esni_secret_t := mk_esni_secret {
  es_secret : bytes;
  es_nonce : bytes;
  es_contents_hash : bytes;
  es_client : option esni_client;
  es_version : Z
}.

Record ptls_esni_context_t := mk_esni_context {
  ectx_key_exchanges : list ptls_key_exchange_context_t;
  ectx_cipher_suites : list (ptls_cipher_suite_t * bytes);
  ectx_padded_length : Z;
  ectx_not_before : Z;
  ectx_not_after : Z;
  ectx_version : Z
}.

(** The outcome of [parse_esni_keys]; [selected_key_share] may be left [NULL]. *)
Record esni_keys := mk_esni_keys {
  ek_version : Z;
  ek_published_sni : bytes;
  ek_key_share : option (ptls_key_exchange_algorithm_t * bytes);
  ek_cipher : ptls_cipher_suite_t;
  ek_padded_length : Z
}.

Section Parse.
Context (mem : bytes).

(** [{ decode16(&id); open_block(2, { src = end; }); }] *)
Definition skip_extension_turn (end_ : nat) (st : unit) (src : nat) : res (unit * nat) :=
  let! '(id, src) := ptls_decode16 mem src end_ in
  let! '(_, src) := ptls_decode_open_block mem src end_ 2 (fun src end_ => Ok (tt, end_)) in
  Ok (st, src).

Definition skip_extensions (src end_ : nat) : res (unit * nat) :=
  ptls_decode_block mem src end_ 2 (fun src end_ => while_ne end_ (skip_extension_turn end_) tt src).

(** [mem] is the [ESNIKeys] structure; [now] is the time. *)
Definition parse_esni_keys (cipher_suites : list ptls_cipher_suite_t) (key_exchanges : list ptls_key_exchange_algorithm_t)
    (now : Z) : res esni_keys :=
  let end_ := length mem in
  let! '(version, src) := ptls_decode16 mem 0 end_ in
  let! _ := guard (version =? PTLS_ESNI_VERSION_DRAFT03) PTLS_ALERT_DECODE_ERROR in
  let! _ := guard (4 <=? end_ - src)%nat PTLS_ALERT_DECODE_ERROR in
  match create_sha256_context cipher_suites with
  | None => Err PTLS_ERROR_LIBRARY
  | Some sha256 =>
      let hctx := hash_update (hash_update (hash_update hash_create (slice mem 0 src)) [0; 0; 0; 0]) (slice mem (src + 4) end_) in
      let digest := fst (hash_final sha256 hctx PTLS_HASH_FINAL_MODE_FREE) in
      let! _ := guard (bool_decide (slice mem src (src + 4) = take 4 digest)) PTLS_ALERT_DECODE_ERROR in
      let src := (src + 4)%nat in
      let! '(published_sni, src) := ptls_decode_open_block mem src end_ 2 (take_all mem) in
      let! '(key_share, src) := ptls_decode_open_block mem src end_ 2 (fun src end_ =>
        select_key_share mem key_exchanges src end_ false) in
      let! '(cipher, src) := ptls_decode_open_block mem src end_ 2 (fun src end_ =>
        let! c := select_cipher mem cipher_suites src end_ in Ok (c, end_)) in
      let! '(padded_length, src) := ptls_decode16 mem src end_ in
      let! '(not_before, src) := ptls_decode64 mem src end_ in
      let! '(not_after, src) := ptls_decode64 mem src end_ in
      let! '(_, src) := skip_extensions src end_ in
      let! _ := guard ((u64 (not_before * 1000) <=? now) && (now <=? u64 (not_after * 1000))) PTLS_ALERT_DECODE_ERROR in
      Ok (mk_esni_keys version published_sni key_share cipher padded_length)
  end.

(** One entry of the key shares; [found] is compared with [NULL], not the entry
    it points to, so that a missing key is never reported. *)
Definition esni_key_turn (end_ : nat) (st : unit) (src : nat) : res (unit * nat) := skip_extension_turn end_ st src.

Definition esni_cipher_turn (cipher_suites : list ptls_cipher_suite_t) (end_ : nat) (l : list ptls_cipher_suite_t) (src : nat)
    : res (list ptls_cipher_suite_t * nat) :=
  let! '(id, src) := ptls_decode16 mem src end_ in
  Ok (match find_cs cipher_suites id with Some c => l ++ [c] | None => l end, src).

Definition ptls_esni_init_context (cipher_suites : list ptls_cipher_suite_t) (key_exchanges : list ptls_key_exchange_context_t)
    : res ptls_esni_context_t :=
  let end_ := length mem in
  let! '(version, src) := ptls_decode16 mem 0 end_ in
  let! _ := guard (4 <=? end_ - src)%nat PTLS_ALERT_DECRYPT_ERROR in
  let src := (src + 4)%nat in
  let! '(_, src) := ptls_decode_open_block mem src end_ 2 (fun src end_ => Ok (tt, end_)) in
  let! '(_, src) := ptls_decode_open_block mem src end_ 2 (fun src end_ => do_while_ne end_ (esni_key_turn end_) tt src) in
  let! '(suites, src) := ptls_decode_open_block mem src end_ 2 (fun src end_ =>
    do_while_ne end_ (esni_cipher_turn cipher_suites end_) [] src) in
  let! '(padded_length, src) := ptls_decode16 mem src end_ in
  let! '(not_before, src) := ptls_decode64 mem src end_ in
  let! '(not_after, src) := ptls_decode64 mem src end_ in
  let! '(_, src) := skip_extensions src end_ in
  Ok (mk_esni_context key_exchanges (map (fun c => (c, ptls_calc_hash (cs_hash c) mem)) suites) padded_length not_before not_after version).
End Parse.

(** ** Keys *)

Definition create_esni_aead (is_enc : bool) (cipher : ptls_cipher_suite_t) (ecdh_secret esni_contents_hash : bytes)
    : res ptls_aead_context_t :=
  let! aead_secret := ptls_hkdf_extract (cs_hash cipher) [] ecdh_secret in
  let! aead := new_aead (cs_aead cipher) (cs_hash cipher) is_enc aead_secret (take (digest_size (cs_hash cipher)) esni_contents_hash)
                 (Some (str "tls13 esni ")) in
  match aead with
  | Some aead => Ok aead
  | None => Err PTLS_ERROR_NO_MEMORY
  end.

Definition build_esni_contents_hash (hash : ptls_hash_algorithm_t) (record_digest : bytes) (group : Z) (pubkey client_random : bytes)
    : bytes :=
  ptls_calc_hash hash
    (push_block 2 (take (digest_size hash) record_digest) ++ push_key_share_entry group pubkey ++ take PTLS_HELLO_RANDOM_SIZE client_random).

(** ** Client *)

(** A malformed [ESNIKeys] is ignored: the result is then [None].  [env] numbers
    the key exchange. *)
Definition client_setup_esni (cipher_suites : list ptls_cipher_suite_t) (key_exchanges : list ptls_key_exchange_algorithm_t)
    (now env : Z) (nonce keys client_random : bytes) : res (option (ptls_esni_secret_t * bytes)) :=
  match parse_esni_keys keys cipher_suites key_exchanges now with
  | Stuck f => Stuck f
  | Err _ => Ok None
  | Ok k =>
      let record_digest := ptls_calc_hash (cs_hash (ek_cipher k)) keys in
      match ek_key_share k with
      | None => Stuck NullDeref
      | Some (key_share, peer_key) =>
          match kx_exchange key_share env peer_key with
          | inl code => Err code
          | inr (pubkey, secret) =>
              let h := build_esni_contents_hash (cs_hash (ek_cipher k)) record_digest (kx_id key_share) pubkey client_random in
              Ok (Some (mk_esni_secret secret nonce h
                          (Some (mk_esni_client key_share (ek_cipher k) pubkey record_digest (ek_padded_length k))) (ek_version k),
                        ek_published_sni k))
          end
      end
  end.

(** [key_share_ch]: the body of the key_share extension of the same ClientHello. *)
Definition emit_esni_extension (esni : ptls_esni_secret_t) (server_name key_share_ch : bytes) : res bytes :=
  match es_client esni with
  | None => Stuck NullDeref
  | Some c =>
      let! aead := create_esni_aead true (ec_cipher c) (es_secret esni) (es_contents_hash esni) in
      let text := take PTLS_ESNI_NONCE_SIZE (es_nonce esni) ++ emit_server_name_extension server_name in
      let padded := (Z.to_nat (ec_padded_length c) + PTLS_ESNI_NONCE_SIZE)%nat in
      let text := if (length text <? padded)%nat then text ++ replicate (padded - length text) 0 else text in
      Ok (push16 (cs_id (ec_cipher c)) ++ push_key_share_entry (kx_id (ec_key_share c)) (ec_pubkey c) ++
          push_block 2 (take (digest_size (cs_hash (ec_cipher c))) (ec_record_digest c)) ++
          push_block 2 (ptls_aead_encrypt aead text 0 key_share_ch))
  end.

(** ** Server *)

(** The structure whose record digest, for the suite the client uses, is the
    client's; a structure without the suite ends the search. *)
Fixpoint find_esni (esnis : list ptls_esni_context_t) (cipher : ptls_cipher_suite_t) (record_digest : bytes) : res ptls_esni_context_t :=
  match esnis with
  | [] => Err PTLS_ALERT_ILLEGAL_PARAMETER
  | esni :: esnis =>
      match List.find (fun '(c, _) => cs_id c =? cs_id cipher) (ectx_cipher_suites esni) with
      | None => Err PTLS_ALERT_ILLEGAL_PARAMETER
      | Some (_, digest) =>
          if bool_decide (take (digest_size (cs_hash cipher)) digest = take (digest_size (cs_hash cipher)) record_digest) then Ok esni
          else find_esni esnis cipher record_digest
      end
  end.

(** [for (; src != end; ++src) if ( *src != '\0') ...] *)
Definition zero_turn (mem : bytes) (st : unit) (src : nat) : res (unit * nat) :=
  let! b := rd mem src in
  let! _ := guard (b =? 0) PTLS_ALERT_ILLEGAL_PARAMETER in
  Ok (st, (src + 1)%nat).

(** The text that was decrypted: the nonce and the name. *)
Definition decode_esni_text (decrypted : bytes) (padded_length : nat) : res (bytes * bytes) :=
  let end_ := padded_length in
  let! _ := guard (PTLS_ESNI_NONCE_SIZE <=? end_)%nat PTLS_ALERT_ILLEGAL_PARAMETER in
  let nonce := slice decrypted 0 PTLS_ESNI_NONCE_SIZE in
  let! '(found_name, src) := client_hello_decode_server_name decrypted None PTLS_ESNI_NONCE_SIZE end_ in
  let! '(_, src) := while_ne end_ (zero_turn decrypted) tt src in
  match found_name with
  | Some name => Ok (nonce, name)
  | None => Stuck Uninitialized
  end.

Definition client_hello_decrypt_esni (esnis : list ptls_esni_context_t) (esni_ch : client_hello_esni) (random_bytes key_shares : bytes)
    : res (bytes * ptls_esni_secret_t) :=
  let cipher := esni_cipher esni_ch in
  let! esni := find_esni esnis cipher (esni_record_digest esni_ch) in
  match List.find (fun k => kxc_id k =? kx_id (esni_key_share esni_ch)) (ectx_key_exchanges esni) with
  | None => Err PTLS_ALERT_ILLEGAL_PARAMETER
  | Some key_share_ctx =>
      let h := build_esni_contents_hash (cs_hash cipher) (esni_record_digest esni_ch) (kx_id (esni_key_share esni_ch))
                 (esni_peer_key esni_ch) random_bytes in
      match kxc_on_exchange key_share_ctx (esni_peer_key esni_ch) with
      | inl code => Err code
      | inr secret =>
          let padded := (Z.to_nat (ectx_padded_length esni) + PTLS_ESNI_NONCE_SIZE)%nat in
          let! _ := guard (length (esni_encrypted_sni esni_ch) - tag_size (cs_aead cipher) =? padded)%nat PTLS_ALERT_ILLEGAL_PARAMETER in
          let! aead := create_esni_aead false cipher secret h in
          match ptls_aead_decrypt aead (esni_encrypted_sni esni_ch) 0 key_shares with
          | None => Err PTLS_ALERT_DECRYPT_ERROR
          | Some decrypted =>
              let! _ := guard (length decrypted =? padded)%nat PTLS_ALERT_DECRYPT_ERROR in
              let! '(nonce, name) := decode_esni_text decrypted (Z.to_nat (ectx_padded_length esni)) in
              Ok (name, mk_esni_secret secret nonce h None (ectx_version esni))
          end
      end
  end.

(** ** The two parsers of [ESNIKeys] agree *)

Lemma open_block_inv {A} mem s e c (f : nat -> nat -> res (A * nat)) a s' :
  ptls_decode_open_block mem s e c f = Ok (a, s') ->
  exists n src, decode_block_size mem s e c = Ok (n, src) /\ s' = (src + Z.to_nat n)%nat /\ f src s' = Ok (a, s').
Proof.
  unfold ptls_decode_open_block. intros H. apply res_bind_ok in H as ([n src] & H1 & H2).
  destruct (_ <? n); [done|]. apply res_bind_ok in H2 as ([a' s''] & H2 & H3).
  destruct (Nat.eqb_spec s'' (src + Z.to_nat n)); [|done]. simplify_eq. eauto.
Qed.

(** Two walks over the same block end at the same place. *)
Lemma open_block_same {A B} mem s e c (f : nat -> nat -> res (A * nat)) (g : nat -> nat -> res (B * nat)) a s1 b s2 :
  ptls_decode_open_block mem s e c f = Ok (a, s1) -> ptls_decode_open_block mem s e c g = Ok (b, s2) ->
  s2 = s1 /\ exists src, f src s1 = Ok (a, s1) /\ g src s1 = Ok (b, s1).
Proof.
  intros (n & src & H1 & -> & H2)%open_block_inv (n' & src' & H3 & -> & H4)%open_block_inv.
  rewrite H1 in H3. simplify_eq. eauto.
Qed.

Section Suites.
Context (mem : bytes) (suites : list ptls_cipher_suite_t) (e : nat).
Notation turn := (esni_cipher_turn mem suites e).
Notation from_suites l := (forall x, In x l -> find_cs suites (cs_id x) = Some x).

Lemma esni_turn_inv acc s l s' :
  turn acc s = Ok (l, s') ->
  exists id, ptls_decode16 mem s e = Ok (id, s') /\ l = match find_cs suites id with Some c => acc ++ [c] | None => acc end.
Proof. unfold esni_cipher_turn. intros H. apply res_bind_ok in H as ([id s1] & H1 & H2). simplify_eq. eauto. Qed.

Lemma esni_while_spec fuel acc s l s' :
  while_src fuel e turn acc s = Ok (l, s') -> from_suites acc -> from_suites l /\ forall x, In x acc -> In x l.
Proof.
  revert acc s. induction fuel as [|fuel IH]; intros acc s H Hacc; cbn [while_src] in H; destruct (s =? e)%nat; simplify_eq; auto.
  apply res_bind_ok in H as ([acc' s1] & H1 & H2). apply esni_turn_inv in H1 as (id & _ & ->).
  destruct (find_cs suites id) as [c|] eqn:Ef; [|by apply (IH acc s1)].
  destruct (IH _ _ H2) as [Hl Hin].
  - intros x [Hx|[<-|[]]]%in_app_or; [auto|]. by destruct (find_cs_some _ _ _ Ef) as [_ ->].
  - split; [done|]. intros x Hx. apply Hin, in_or_app. by left.
Qed.

Lemma esni_while_picks fuel1 fuel2 acc s l s' c :
  select_cipher_loop mem fuel1 suites s e = Ok c -> while_src fuel2 e turn acc s = Ok (l, s') -> from_suites acc -> In c l.
Proof.
  revert fuel2 acc s. induction fuel1 as [|fuel1 IH]; intros fuel2 acc s H1 H2 Hacc; cbn [select_cipher_loop] in H1;
    destruct (s =? e)%nat eqn:Es; simplify_eq.
  destruct fuel2 as [|fuel2]; cbn [while_src] in H2; rewrite Es in H2; [done|].
  apply res_bind_ok in H1 as ([id s1] & H1 & H3). apply res_bind_ok in H2 as ([acc' s2] & H2 & H4).
  apply esni_turn_inv in H2 as (id' & H2 & ->). rewrite H1 in H2. simplify_eq.
  destruct (find_cs suites id') as [c'|] eqn:Ef; simplify_eq; [|by eapply IH].
  apply esni_while_spec in H4 as [_ H4]; [apply H4, in_or_app; right; by left|].
  intros x [Hx|[<-|[]]]%in_app_or; [auto|]. by destruct (find_cs_some _ _ _ Ef) as [_ ->].
Qed.

Lemma esni_suites_agree s l s' c :
  select_cipher mem suites s e = Ok c -> do_while_ne e turn [] s = Ok (l, s') -> from_suites l /\ In c l.
Proof.
  unfold select_cipher, do_while_ne. intros H1 H2. apply res_bind_ok in H2 as ([acc s1] & H2 & H3).
  assert (Hw : while_src (S (e - s1)) e turn [] s = Ok (l, s')).
  { cbn [while_src]. destruct (s =? e)%nat eqn:Es; [|by rewrite H2].
    destruct (e - s)%nat; cbn [select_cipher_loop] in H1; rewrite Es in H1; done. }
  split; [by eapply esni_while_spec in Hw as [? _] | by eapply esni_while_picks].
Qed.
End Suites.

(** Splits the first step off a computation that returned. *)
Ltac first_step H x Hx := apply res_bind_ok in H as (x & Hx & H).

Lemma find_suite_by_id (l : list ptls_cipher_suite_t) suites c (f : ptls_cipher_suite_t -> bytes) :
  (forall x, In x l -> find_cs suites (cs_id x) = Some x) -> In c l ->
  List.find (fun '(c', _) => cs_id c' =? cs_id c) (map (fun x => (x, f x)) l) = Some (c, f c).
Proof.
  induction l as [|x l IH]; intros Hl Hin; [done|]. cbn [map List.find]. destruct (Z.eqb_spec (cs_id x) (cs_id c)) as [E|E].
  - assert (find_cs suites (cs_id c) = Some c) by by apply Hl. assert (find_cs suites (cs_id x) = Some x) by (apply Hl; by left). congruence.
  - destruct Hin as [->|Hin]; [done|]. apply IH; [|done]. intros y Hy. apply Hl. by right.
Qed.

Lemma select_key_share_found mem kxs s e o s' :
  select_key_share mem kxs s e false = Ok (o, s') -> match o with Some (k, _) => find_kx kxs (kx_id k) = Some k | None => True end.
Proof.
  unfold select_key_share. cbn [andb]. unfold while_ne. generalize (e - s)%nat as fuel. intros fuel.
  assert (Hgen : forall acc s, match acc with Some (k, _) => find_kx kxs (kx_id k) = Some k | None => True end ->
            while_src fuel e (key_share_turn mem kxs e) acc s = Ok (o, s') ->
            match o with Some (k, _) => find_kx kxs (kx_id k) = Some k | None => True end).
  { induction fuel as [|fuel IH]; intros acc s0 Hacc H; cbn [while_src] in H; destruct (s0 =? e)%nat; simplify_eq; [done..|].
    first_step H x Hx. destruct x as [acc' s1]. apply (IH acc' s1); [|done]. unfold key_share_turn in Hx.
    first_step Hx y Hy. destruct y as [[g kb] s2]. simplify_eq. destruct acc as [[]|]; [done|].
    destruct (find_kx kxs g) as [c|] eqn:E; [|done]. by destruct (find_kx_some _ _ _ E) as [_ ->]. }
  intros H. by apply (Hgen None s).
Qed.

(** What the client selected from [ESNIKeys] is in the context of the server. *)
Lemma esni_contexts_agree keys suites kxs now kctxs k ectx :
  parse_esni_keys keys suites kxs now = Ok k -> ptls_esni_init_context keys suites kctxs = Ok ectx ->
  ectx_padded_length ectx = ek_padded_length k /\ ectx_key_exchanges ectx = kctxs /\ ectx_version ectx = ek_version k /\
  find_cs suites (cs_id (ek_cipher k)) = Some (ek_cipher k) /\
  match ek_key_share k with Some (ks, _) => find_kx kxs (kx_id ks) = Some ks | None => True end /\
  List.find (fun '(c, _) => cs_id c =? cs_id (ek_cipher k)) (ectx_cipher_suites ectx)
    = Some (ek_cipher k, ptls_calc_hash (cs_hash (ek_cipher k)) keys).
Proof.
  unfold parse_esni_keys, ptls_esni_init_context. intros H1 H2.
  first_step H1 x Hx. rewrite Hx in H2. destruct x as [ver src]. cbn [res_bind] in H2.
  first_step H1 x1 G1. first_step H1 x2 G2. destruct (create_sha256_context suites); [|done]. first_step H1 x3 G3. clear x1 x2 x3 G1 G2 G3.
  first_step H2 y0 G0. clear y0 G0.
  first_step H1 x1 G1. first_step H2 y1 G2. destruct x1 as [sni s1], y1 as [u1 s1'].
  destruct (open_block_same _ _ _ _ _ _ _ _ _ _ G1 G2) as [-> _]. clear G1 G2.
  first_step H1 x2 G1. first_step H2 y2 G2. destruct x2 as [ks s2], y2 as [u2 s2'].
  destruct (open_block_same _ _ _ _ _ _ _ _ _ _ G1 G2) as (-> & src2 & Gks & _). clear G1 G2.
  apply select_key_share_found in Gks. first_step H1 x3 G1. first_step H2 y3 G2. destruct x3 as [cipher s3], y3 as [l s3'].
  destruct (open_block_same _ _ _ _ _ _ _ _ _ _ G1 G2) as (-> & src3 & G3 & G4). clear G1 G2.
  first_step G3 c3 G5. simplify_eq.
  first_step H1 x4 G6. rewrite G6 in H2. destruct x4 as [pl s4]. cbn [res_bind] in H2.
  first_step H1 x5 G7. rewrite G7 in H2. destruct x5 as [nb s5]. cbn [res_bind] in H2.
  first_step H1 x6 G8. rewrite G8 in H2. destruct x6 as [na s6]. cbn [res_bind] in H2.
  first_step H1 x7 G9. rewrite G9 in H2. destruct x7 as [u7 s7]. cbn [res_bind] in H2.
  first_step H1 x8 G10. simplify_eq. cbn.
  destruct (esni_suites_agree _ _ _ _ _ _ _ G5 G4) as [Hl Hin].
  split_and!; try done; [by apply Hl | by eapply find_suite_by_id].
Qed.

(** ** What the client emits is what the server reads *)

Lemma create_esni_aead_pair cipher secret h e :
  create_esni_aead true cipher secret h = Ok e -> (forall key iv, setup_crypto (cs_aead cipher) false key iv = true) ->
  exists d, create_esni_aead false cipher secret h = Ok d /\
    aead_algo e = cs_aead cipher /\ aead_algo d = cs_aead cipher /\ aead_key d = aead_key e /\ aead_iv d = aead_iv e.
Proof.
  unfold create_esni_aead, new_aead, ptls_aead_new_direct. intros H Hs. first_step H s0 Hs0. rewrite Hs0. cbn [res_bind].
  first_step H o Ho. first_step Ho key Hk. first_step Ho iv Hiv. rewrite Hk, Hiv. cbn [res_bind]. rewrite Hs.
  destruct (setup_crypto _ true _ _); simplify_eq. eexists. split; [done|]. done.
Qed.

Lemma zero_run mem n p : at_mem mem p (replicate n 0) -> while_src n (p + n) (zero_turn mem) tt p = Ok (tt, (p + n)%nat).
Proof.
  revert p. induction n as [|n IH]; intros p Hat; cbn [while_src].
  - by rewrite Nat.add_0_r, Nat.eqb_refl.
  - destruct (Nat.eqb_spec p (p + S n)); [lia|]. cbn [replicate] in Hat. apply at_mem_cons in Hat as [H0 Hat].
    unfold zero_turn at 1. rewrite (rd_at _ _ _ H0). cbn [res_bind guard Z.eqb].
    replace (p + S n)%nat with (p + 1 + n)%nat by lia. rewrite IH; [done|]. by rewrite Nat.add_1_r.
Qed.

(** The padded text decodes to the nonce and the name if 16 octets of padding are left. *)
Lemma decode_esni_text_at nonce name pl :
  length nonce = PTLS_ESNI_NONCE_SIZE -> Z.of_nat (length name) < 2 ^ 12 -> ~ In 0 name ->
  (PTLS_ESNI_NONCE_SIZE + length (emit_server_name_extension name) <= pl)%nat ->
  decode_esni_text (nonce ++ emit_server_name_extension name ++
      replicate (pl + PTLS_ESNI_NONCE_SIZE - length (nonce ++ emit_server_name_extension name)) 0) pl = Ok (nonce, name).
Proof.
  intros Hn Hl H0 Hpl. change PTLS_ESNI_NONCE_SIZE with 16%nat in *. rewrite length_app, Hn.
  set (ext := emit_server_name_extension name) in *. set (text := nonce ++ ext ++ _).
  unfold decode_esni_text. change PTLS_ESNI_NONCE_SIZE with 16%nat. destruct (Nat.leb_spec 16 pl); [|lia]. cbn [guard res_bind].
  assert (Hat : at_mem text 16 ext) by (rewrite <- Hn; apply at_mem_intro).
  rewrite (server_name_roundtrip_at text 16 pl None name Hat Hl H0) by (fold ext; lia). cbn [res_bind]. fold ext.
  unfold while_ne. replace pl with (16 + length ext + (pl - (16 + length ext)))%nat at 2 by lia.
  rewrite zero_run.
  - cbn [res_bind]. unfold slice, text. rewrite drop_0, Nat.sub_0_r, <- Hn. by rewrite take_app_length.
  - pose proof (at_mem_intro (nonce ++ ext) (replicate (pl - (16 + length ext)) 0) (replicate 16 0)) as Hz.
    rewrite length_app, Hn, <- app_assoc in Hz. unfold text.
    replace (pl + 16 - (16 + length ext))%nat with (pl - (16 + length ext) + 16)%nat by lia. by rewrite replicate_add.
Qed.

Lemma esni_extension_at mem p cipher ks pubkey digest enc suites kxs :
  let ext := push16 (cs_id cipher) ++ push_key_share_entry (kx_id ks) pubkey ++ push_block 2 digest ++ push_block 2 enc in
  at_mem mem p ext -> find_cs suites (cs_id cipher) = Some cipher -> find_kx kxs (kx_id ks) = Some ks ->
  0 <= cs_id cipher < 2 ^ 16 -> 0 <= kx_id ks < 2 ^ 16 -> Z.of_nat (length pubkey) < 2 ^ 16 ->
  length digest = digest_size (cs_hash cipher) -> Z.of_nat (length digest) < 2 ^ 16 ->
  (tag_size (cs_aead cipher) <= length enc)%nat -> Z.of_nat (length enc) < 2 ^ 16 ->
  client_hello_esni_ext mem suites kxs None p (p + length ext) = Ok (mk_ch_esni cipher ks pubkey digest enc).
Proof.
  intros ext Hat Hcs Hkx Rc Rk Lp Ld Ld' Le Le'. unfold ext in *. clear ext. unfold push_key_share_entry in *.
  rewrite !length_app, !length_push_block, !length_push16 in *. rewrite <- !app_assoc in Hat.
  apply at_mem_app in Hat as [H1 Hat]. apply at_mem_app in Hat as [H2 Hat]. apply at_mem_app in Hat as [H3 Hat].
  apply at_mem_app in Hat as [H4 H5]. rewrite ?length_push_block, ?length_push16 in *.
  set (e := (p + _)%nat). assert (He : e = (p + 2 + 2 + (2 + length pubkey) + (2 + length digest) + (2 + length enc))%nat) by (unfold e; lia).
  clearbody e. assert (Hu : forall v, 0 <= v < 2 ^ 16 -> u16 v = v) by (intros; by apply Z.mod_small).
  unfold client_hello_esni_ext. rd_wire. rewrite Hu, Hcs by done.
  unfold select_key_share. cbn [andb]. destruct (Nat.eqb_spec (p + 2) e); [lia|].
  unfold key_share_turn, decode_key_share_entry. rd_wire. rewrite Hu, Hkx by done. cbn [res_bind].
  replace (p + 2 + 2 + (2 + length pubkey))%nat with (p + 2 + 2 + 2 + length pubkey)%nat in * by lia.
  replace (p + 2 + 2 + 2 + length pubkey + (2 + length digest))%nat with (p + 2 + 2 + 2 + length pubkey + 2 + length digest)%nat in * by lia.
  open_at digest. rewrite !Nat.add_sub'. destruct (Nat.eqb_spec (length digest) (digest_size (cs_hash cipher))); [|lia].
  cbn [negb res_bind]. rewrite Nat.eqb_refl. cbn [res_bind].
  set (q := (p + 2 + 2 + 2 + length pubkey + 2 + length digest)%nat) in *.
  replace e with (q + 2 + length enc)%nat by (unfold q; lia).
  rewrite (block_at mem q 2 enc _ enc H5); [|lia|done|].
  - cbn [res_bind]. do 2 f_equal. unfold push_block in H4. apply at_mem_app in H4 as [_ H4]. rewrite length_be in H4. by apply at_mem_slice.
  - rewrite !Nat.add_sub'. destruct (Nat.ltb_spec (length enc) (tag_size (cs_aead cipher))); [lia|]. do 2 f_equal.
    unfold push_block in H5. apply at_mem_app in H5 as [_ H5]. rewrite length_be in H5. by apply at_mem_slice.
Qed.

(** ** Properties *)

Lemma setup_esni_inv suites kxs now env nonce keys random esni sni :
  client_setup_esni suites kxs now env nonce keys random = Ok (Some (esni, sni)) ->
  exists k ks pk pubkey secret,
    parse_esni_keys keys suites kxs now = Ok k /\ ek_key_share k = Some (ks, pk) /\
    let digest := ptls_calc_hash (cs_hash (ek_cipher k)) keys in
    esni = mk_esni_secret secret nonce (build_esni_contents_hash (cs_hash (ek_cipher k)) digest (kx_id ks) pubkey random)
             (Some (mk_esni_client ks (ek_cipher k) pubkey digest (ek_padded_length k))) (ek_version k).
Proof.
  unfold client_setup_esni. destruct (parse_esni_keys keys suites kxs now) as [k| |]; try done.
  destruct (ek_key_share k) as [[ks pk]|] eqn:E; [|done]. destruct (kx_exchange ks env pk) as [|[pubkey secret]]; [done|].
  intros H. simplify_eq. eauto 10.
Qed.

Ltac esni_fields := cbn [es_secret es_nonce es_contents_hash es_client es_version ec_key_share ec_cipher ec_pubkey
  ec_record_digest ec_padded_length] in *.

(** C25: encrypted server names round-trip: a client that sets up ESNI from a
    published [ESNIKeys] and emits the extension, and a server initialised with the
    same structure whose private key yields the same shared secret, agree: the
    server reads the extension and decrypts it to the client's server name, nonce
    and secret.  (The name must leave 16 octets of the padded length unused: the
    server looks at [padded_length] octets of the [padded_length + 16] it
    decrypted.) *)
Theorem esni_roundtrip suites kxs kctxs now env nonce keys random esni sni c ectx kctx name ks ext pre post :
  client_setup_esni suites kxs now env nonce keys random = Ok (Some (esni, sni)) -> es_client esni = Some c ->
  ptls_esni_init_context keys suites kctxs = Ok ectx ->
  List.find (fun k => kxc_id k =? kx_id (ec_key_share c)) kctxs = Some kctx ->
  kxc_on_exchange kctx (ec_pubkey c) = inr (es_secret esni) ->
  HashLaws (cs_hash (ec_cipher c)) -> AeadLaws (cs_aead (ec_cipher c)) ->
  (forall key iv, setup_crypto (cs_aead (ec_cipher c)) false key iv = true) ->
  emit_esni_extension esni name ks = Ok ext ->
  length nonce = PTLS_ESNI_NONCE_SIZE -> is_bytes nonce -> is_bytes name -> ~ In 0 name -> Z.of_nat (length name) < 2 ^ 12 ->
  (PTLS_ESNI_NONCE_SIZE + length (emit_server_name_extension name) <= Z.to_nat (ec_padded_length c))%nat ->
  ec_padded_length c + 16 + 255 < 2 ^ 16 -> Z.of_nat (length (ec_pubkey c)) < 2 ^ 16 ->
  0 <= cs_id (ec_cipher c) < 2 ^ 16 -> 0 <= kx_id (ec_key_share c) < 2 ^ 16 ->
  let mem := pre ++ ext ++ post in
  exists x, client_hello_esni_ext mem suites kxs None (length pre) (length pre + length ext) = Ok x /\
    client_hello_decrypt_esni [ectx] x random ks
    = Ok (name, mk_esni_secret (es_secret esni) nonce (es_contents_hash esni) None (es_version esni)).
Proof.
  intros Hsetup Hc Hctx Hkctx Hdh HL AL Hset Hemit Hnl Hnb Hsb Hs0 Hsl Hpad Hmax Hpk Rc Rk mem.
  apply setup_esni_inv in Hsetup as (k & ks0 & pk & pubkey & secret & Hparse & Hks & ->). esni_fields. injection Hc as <-. esni_fields.
  destruct (esni_contexts_agree _ _ _ _ _ _ _ Hparse Hctx) as (Epl & Ekx & Ever & Ecs & Eks & Efind). rewrite Hks in Eks.
  unfold emit_esni_extension in Hemit. esni_fields. first_step Hemit aead Haead.
  set (cipher := ek_cipher k) in *. set (digest := ptls_calc_hash (cs_hash cipher) keys) in *.
  assert (Hdl : length digest = digest_size (cs_hash cipher)) by apply digest_length.
  pose proof (digest_size_max (algo := cs_hash cipher)) as Hdm. change PTLS_MAX_DIGEST_SIZE with 64%nat in Hdm.
  set (h := build_esni_contents_hash (cs_hash cipher) digest (kx_id ks0) pubkey random) in *.
  destruct (create_esni_aead_pair _ _ _ _ Haead Hset) as (d & Hd & Ha1 & Ha2 & Hkey & Hiv).
  set (pl := Z.to_nat (ek_padded_length k)) in *. rewrite (take_ge nonce) in Hemit by lia. rewrite length_app, Hnl in Hemit.
  rewrite (take_ge digest) in Hemit by lia.
  destruct (Nat.ltb_spec (PTLS_ESNI_NONCE_SIZE + length (emit_server_name_extension name)) (pl + PTLS_ESNI_NONCE_SIZE)) as [_|Hge];
    [|change PTLS_ESNI_NONCE_SIZE with 16%nat in *; lia].
  rewrite <- app_assoc, <- Hnl, <- length_app, Hnl in Hemit.
  set (text := nonce ++ emit_server_name_extension name ++ _) in *. set (enc := ptls_aead_encrypt aead text 0 ks) in *.
  assert (Htl : length text = (pl + PTLS_ESNI_NONCE_SIZE)%nat).
  { unfold text. rewrite !length_app, length_replicate, Hnl. lia. }
  assert (Htb : is_bytes text).
  { unfold text, emit_server_name_extension. apply Forall_app_2; [done|]. apply Forall_app_2; [|auto with ptls].
    apply push_block_bytes, Forall_app_2; [by repeat constructor | auto with ptls]. }
  assert (AL' : AeadLaws (aead_algo aead)) by by rewrite Ha1.
  assert (Hel : length enc = (length text + tag_size (cs_aead cipher))%nat).
  { unfold enc. rewrite encrypt_seal2, seal_length, app_nil_r, Ha1 by done. done. }
  pose proof (tag_size_max (a := cs_aead cipher)) as Htm. injection Hemit as <-.
  exists (mk_ch_esni cipher ks0 pubkey digest enc). split.
  - apply esni_extension_at; try done; try lia; [apply at_mem_intro|]. rewrite Hel, Htl. unfold pl, PTLS_ESNI_NONCE_SIZE. lia.
  - unfold client_hello_decrypt_esni. cbn [esni_cipher esni_key_share esni_peer_key esni_record_digest esni_encrypted_sni find_esni].
    rewrite Efind. rewrite bool_decide_eq_true_2 by done. cbn [res_bind]. rewrite Ekx, Hkctx, Hdh. fold h.
    rewrite Hel, Nat.add_sub, Htl, Epl. fold pl. rewrite Nat.eqb_refl. cbn [guard res_bind]. rewrite Hd. cbn [res_bind].
    unfold enc. rewrite (decrypt_encrypt aead d) by (done || by rewrite Ha2). rewrite Htl, Nat.eqb_refl. cbn [guard res_bind].
    unfold text. rewrite decode_esni_text_at by done. cbn [res_bind]. by rewrite Ever.
Qed.

(** An [ESNIKeys] structure with one key share and one suite. *)
Definition toy_esni_keys : bytes :=
  let body := push_block 2 (str "front") ++ push_block 2 (push_key_share_entry PTLS_GROUP_X25519 [7]) ++
              push_block 2 (push16 (cs_id toy_cs)) ++ push16 64 ++ push64 0 ++ push64 1000 ++ push_block 2 [] in
  push16 PTLS_ESNI_VERSION_DRAFT03 ++
  take 4 (digest toy_hash (push16 PTLS_ESNI_VERSION_DRAFT03 ++ [0; 0; 0; 0] ++ body)) ++ body.

Definition toy_esni_setup : res (option (ptls_esni_secret_t * bytes)) :=
  client_setup_esni [toy_cs] [toy_kx] 5 3 (replicate 16 9) toy_esni_keys (replicate 32 1).

Definition toy_esni_check : bool :=
  match toy_esni_setup, ptls_esni_init_context toy_esni_keys [toy_cs] [toy_kxc 7] with
  | Ok (Some (esni, _)), Ok ectx =>
      match es_client esni, emit_esni_extension esni (str "secret.example") [0; 0] with
      | Some c, Ok ext =>
          (ec_padded_length c =? 64) && bool_decide (ec_pubkey c = [3]) && bool_decide (es_secret esni = [21]) &&
          (kx_id (ec_key_share c) =? PTLS_GROUP_X25519) && (cs_id (ec_cipher c) =? cs_id toy_cs)
      | _, _ => false
      end
  | _, _ => false
  end.

Lemma toy_esni_checked : toy_esni_check = true.
Proof. vm_compute. reflexivity. Qed.

Lemma toy_name_ok : ~ In 0 (str "secret.example").
Proof. vm_compute. naive_solver. Qed.

Lemma esni_roundtrip_witness :
  exists ectx ext x secret,
    ptls_esni_init_context toy_esni_keys [toy_cs] [toy_kxc 7] = Ok ectx /\
    client_hello_esni_ext ([] ++ ext ++ []) [toy_cs] [toy_kx] None 0 (0 + length ext) = Ok x /\
    client_hello_decrypt_esni [ectx] x (replicate 32 1) [0; 0] = Ok (str "secret.example", secret).
Proof.
  pose proof toy_esni_checked as Hc. unfold toy_esni_check in Hc.
  destruct toy_esni_setup as [[[esni sni]|]| |] eqn:Es; [|discriminate Hc..].
  destruct (ptls_esni_init_context _ _ _) as [ectx| |] eqn:Ec; [|discriminate Hc..].
  destruct (es_client esni) as [c|] eqn:Ecl; [|discriminate Hc].
  destruct (emit_esni_extension _ _ _) as [ext| |] eqn:Ee; [|discriminate Hc..]. b2p. repeat match goal with H : bool_decide _ = true |- _ => apply bool_decide_eq_true_1 in H end.
  assert (Hcs : ec_cipher c = toy_cs).
  { destruct (setup_esni_inv _ _ _ _ _ _ _ _ _ Es) as (k & ks & pk & pubkey & sec & Hp & Hks & ->). cbn [es_client] in Ecl.
    injection Ecl as <-. cbn [ec_cipher]. destruct (esni_contexts_agree _ _ _ _ _ _ _ Hp Ec) as (_ & _ & _ & Hf & _).
    apply find_cs_some in Hf as [[<-|[]] _]. done. }
  unshelve epose proof (esni_roundtrip [toy_cs] [toy_kx] [toy_kxc 7] 5 3 (replicate 16 9) toy_esni_keys (replicate 32 1) esni sni c ectx
    (toy_kxc 7) (str "secret.example") [0; 0] ext [] [] Es Ecl Ec _ _ _ _ _ Ee eq_refl _ _ _ _ _ _ _ _ _) as (x & Hx & Hd).
  - cbn [List.find]. change (kxc_id (toy_kxc 7)) with PTLS_GROUP_X25519. match goal with H : kx_id _ = _ |- _ => by rewrite H end.
  - match goal with H : ec_pubkey c = _, H' : es_secret esni = _ |- _ => rewrite H, H' end. reflexivity.
  - rewrite Hcs. apply toy_hash_laws.
  - rewrite Hcs. apply toy_aead_laws.
  - rewrite Hcs. reflexivity.
  - repeat constructor; done.
  - apply str_bytes.
  - exact toy_name_ok.
  - reflexivity.
  - match goal with H : ec_padded_length c = _ |- _ => rewrite H end. vm_compute. lia.
  - match goal with H : ec_padded_length c = _ |- _ => rewrite H end. reflexivity.
  - match goal with H : ec_pubkey c = _ |- _ => rewrite H end. reflexivity.
  - rewrite Hcs. split; [discriminate | reflexivity].
  - match goal with H : kx_id _ = _ |- _ => rewrite H end. split; [discriminate | reflexivity].
  - eexists ectx, ext, x, _. exact (conj eq_refl (conj Hx Hd)).
Defined.
