(* ===== verification/Context.v ===== *)
(** * Context: the connection object and its environment

    The structures every handshake function works on ([ptls_context_t],
    [ptls_handshake_properties_t] of [include/picotls.h], [ptls_t] of
    [lib/picotls.c]) and the state [conn] of the handshake monad: the connection,
    the output buffer of the message emitter, the values written through the
    properties, and a trace of the calls to the application.

    The application's callbacks are functions.  A call whose answer may differ
    from one call to the next (time, randomness, signatures, tickets, key
    exchanges) takes the number of the call, [c_env].  [tls->ctx] is a parameter
    of the models: [ptls_set_context] from inside of a callback is not modelled. *)
From S2P Require Import Prelude Constants Monad Wire Crypto Record KeySchedule Extensions Messages Hello Esni.

(** ** Configuration *)

Record ptls_on_client_hello_parameters_t := mk_och {
  och_server_name : option bytes;
  och_raw_message : bytes;
  och_negotiated_protocols : list bytes;
  och_signature_algorithms : list Z;
  och_certificate_compression_algorithms : list Z;
  och_cipher_suites : list Z;
  och_esni : bool;
  och_incompatible_version : bool
}.

Record ptls_decompress_certificate_t := mk_decomp {
  dc_supported_algorithms : list Z;
  dc_cb : Z -> Z -> bytes -> Z + bytes
}.

(** [on_client_hello] returns its code and the names it set with
    [ptls_set_server_name] and [ptls_set_negotiated_protocol]; [emit_certificate]
    the type and the body of the message it pushed; [sign_certificate] the
    algorithm and the signature; [verify_certificate] the verifier it registered;
    [encrypt_ticket] its code and what it appended to [dst]. *)
Record ptls_context_t := mk_ctx {
  random_bytes : Z -> nat -> bytes;
  get_time : Z -> Z;
  key_exchanges : list ptls_key_exchange_algorithm_t;
  cipher_suites : list ptls_cipher_suite_t;
  certificates : list bytes;
  ctx_esni : option (list ptls_esni_context_t);
  on_client_hello : option (ptls_on_client_hello_parameters_t -> Z * option bytes * option bytes);
  emit_certificate : option (bytes -> bool -> list Z -> Z + (Z * bytes));
  sign_certificate : option (Z -> bytes -> list Z -> Z + (Z * bytes));
  verify_certificate : option (list bytes -> Z + option (bytes -> bytes -> Z));
  ticket_lifetime : Z;
  max_early_data_size : Z;
  max_buffer_size : Z;
  hkdf_label_prefix__obsolete : option bytes;
  require_dhe_on_psk : bool;
  use_exporter : bool;
  ctx_send_change_cipher_spec : bool;
  require_client_authentication : bool;
  omit_end_of_early_data : bool;
  encrypt_ticket : option (Z -> bool -> bytes -> Z * bytes);
  save_ticket : option (bytes -> Z);
  ctx_update_traffic_key : option (bool -> nat -> bytes -> Z);
  decompress_certificate : option ptls_decompress_certificate_t;
  update_esni_key : option (bytes -> ptls_hash_algorithm_t -> bytes -> Z);
  on_extension : on_extension_t
}.

(** [p_wants_early_data] is [client.max_early_data_size != NULL]. *)
Record ptls_handshake_properties_t := mk_props {
  p_negotiated_protocols : list bytes;
  p_session_ticket : option bytes;
  p_wants_early_data : bool;
  p_negotiate_before_key_exchange : bool;
  p_esni_keys : option bytes;
  p_cookie_key : option bytes;
  p_cookie_additional_data : bytes;
  p_enforce_retry : bool;
  p_retry_uses_cookie : bool;
  p_additional_extensions : option (list (Z * bytes));
  p_collect_extension : option (Z -> bool);
  p_collected_extensions : option (list ptls_raw_extension_t -> Z)
}.

Inductive ptls_early_data_acceptance_t :=
| PTLS_EARLY_DATA_ACCEPTANCE_UNKNOWN
| PTLS_EARLY_DATA_REJECTED
| PTLS_EARLY_DATA_ACCEPTED.

(** ** The connection *)

Inductive en_ptls_state_t :=
| PTLS_STATE_CLIENT_HANDSHAKE_START
| PTLS_STATE_CLIENT_EXPECT_SERVER_HELLO
| PTLS_STATE_CLIENT_EXPECT_SECOND_SERVER_HELLO
| PTLS_STATE_CLIENT_EXPECT_ENCRYPTED_EXTENSIONS
| PTLS_STATE_CLIENT_EXPECT_CERTIFICATE_REQUEST_OR_CERTIFICATE
| PTLS_STATE_CLIENT_EXPECT_CERTIFICATE
| PTLS_STATE_CLIENT_EXPECT_CERTIFICATE_VERIFY
| PTLS_STATE_CLIENT_EXPECT_FINISHED
| PTLS_STATE_SERVER_EXPECT_CLIENT_HELLO
| PTLS_STATE_SERVER_EXPECT_SECOND_CLIENT_HELLO
| PTLS_STATE_SERVER_EXPECT_CERTIFICATE
| PTLS_STATE_SERVER_EXPECT_CERTIFICATE_VERIFY
| PTLS_STATE_SERVER_EXPECT_END_OF_EARLY_DATA
| PTLS_STATE_SERVER_EXPECT_FINISHED
| PTLS_STATE_CLIENT_POST_HANDSHAKE
| PTLS_STATE_SERVER_POST_HANDSHAKE.

#[export] Instance state_eq_dec : EqDecision en_ptls_state_t.
Proof. solve_decision. Defined.

(** The value of the enumerator, for the comparisons of states. *)
Definition state_val (s : en_ptls_state_t) : nat :=
  match s with
  | PTLS_STATE_CLIENT_HANDSHAKE_START => 0
  | PTLS_STATE_CLIENT_EXPECT_SERVER_HELLO => 1
  | PTLS_STATE_CLIENT_EXPECT_SECOND_SERVER_HELLO => 2
  | PTLS_STATE_CLIENT_EXPECT_ENCRYPTED_EXTENSIONS => 3
  | PTLS_STATE_CLIENT_EXPECT_CERTIFICATE_REQUEST_OR_CERTIFICATE => 4
  | PTLS_STATE_CLIENT_EXPECT_CERTIFICATE => 5
  | PTLS_STATE_CLIENT_EXPECT_CERTIFICATE_VERIFY => 6
  | PTLS_STATE_CLIENT_EXPECT_FINISHED => 7
  | PTLS_STATE_SERVER_EXPECT_CLIENT_HELLO => 8
  | PTLS_STATE_SERVER_EXPECT_SECOND_CLIENT_HELLO => 9
  | PTLS_STATE_SERVER_EXPECT_CERTIFICATE => 10
  | PTLS_STATE_SERVER_EXPECT_CERTIFICATE_VERIFY => 11
  | PTLS_STATE_SERVER_EXPECT_END_OF_EARLY_DATA => 12
  | PTLS_STATE_SERVER_EXPECT_FINISHED => 13
  | PTLS_STATE_CLIENT_POST_HANDSHAKE => 14
  | PTLS_STATE_SERVER_POST_HANDSHAKE => 15
  end.
Definition PTLS_STATE_POST_HANDSHAKE_MIN : en_ptls_state_t := PTLS_STATE_CLIENT_POST_HANDSHAKE.

(** The members of the anonymous union are fields of their own: [is_server] does
    not change and each side uses its own. *)
Record ptls_t := mk_tls {
  t_state : en_ptls_state_t;
  t_recvbuf_rec : option bytes;
  t_recvbuf_mess : option bytes;
  t_key_schedule : option st_ptls_key_schedule_t;
  t_dec : st_ptls_traffic_protection_t;
  t_enc : st_ptls_traffic_protection_t;
  t_server_name : option bytes;
  t_negotiated_protocol : option bytes;
  t_key_share : option ptls_key_exchange_algorithm_t;
  t_cipher_suite : option ptls_cipher_suite_t;
  t_client_random : bytes;
  t_esni : option ptls_esni_secret_t;
  t_exporter_early : option bytes;
  t_exporter_one_rtt : option bytes;
  t_is_server : bool;
  t_is_psk_handshake : bool;
  t_send_change_cipher_spec : bool;
  t_needs_key_update : bool;
  t_key_update_send_request : bool;
  t_legacy_session_id : bytes;
  t_key_share_ctx : option ptls_key_exchange_context_t;
  t_offered_psk : bool;
  t_using_early_data : bool;
  t_certificate_request : st_ptls_certificate_request_t;
  t_pending_traffic_secret : bytes;
  t_early_data_skipped_bytes : Z;
  t_certificate_verify : option (bytes -> bytes -> Z);
  t_pending_handshake_secret : option bytes
}.
#[export] Instance eta_tls : Eta ptls_t := fun r =>
  mk_tls (t_state r) (t_recvbuf_rec r) (t_recvbuf_mess r) (t_key_schedule r) (t_dec r) (t_enc r) (t_server_name r)
    (t_negotiated_protocol r) (t_key_share r) (t_cipher_suite r) (t_client_random r) (t_esni r) (t_exporter_early r)
    (t_exporter_one_rtt r) (t_is_server r) (t_is_psk_handshake r) (t_send_change_cipher_spec r) (t_needs_key_update r)
    (t_key_update_send_request r) (t_legacy_session_id r) (t_key_share_ctx r) (t_offered_psk r) (t_using_early_data r)
    (t_certificate_request r) (t_pending_traffic_secret r) (t_early_data_skipped_bytes r) (t_certificate_verify r)
    (t_pending_handshake_secret r).

#[export] Instance eta_tp : Eta st_ptls_traffic_protection_t := fun r =>
  mk_tp (tp_secret r) (tp_epoch r) (tp_aead r) (tp_seq r).

(** ** The state of the handshake functions *)

(** Calls to the application and checks that passed, in order. *)
Inductive event :=
| EvLogSecret (type : bytes) (secret : bytes)
| EvTrafficKey (is_enc : bool) (epoch : nat) (secret : bytes)
| EvSaveTicket (ticket : bytes)
| EvEsniKey (secret : bytes)
| EvClientHello (params : ptls_on_client_hello_parameters_t)
| EvCertificates (certs : list bytes)
| EvSignatureVerified (data signature : bytes)
| EvFinishedVerified (received : bytes).

(** [RecordEmitter]: messages go out in records; [RawEmitter]: messages are handed
    to an application with its own record layer, which learns from
    [epoch_offsets] under which keys they belong. *)
Inductive emitter_kind := RecordEmitter | RawEmitter.

Record conn := mk_conn {
  c_tls : ptls_t;
  c_emitter : emitter_kind;
  c_buf : bytes;
  c_epoch_offsets : list nat;
  c_env : Z;
  c_max_early_data_size : Z;
  c_early_data_acceptance : ptls_early_data_acceptance_t;
  c_selected_psk_binder : bytes;
  c_trace : list event
}.
#[export] Instance eta_conn : Eta conn := fun r =>
  mk_conn (c_tls r) (c_emitter r) (c_buf r) (c_epoch_offsets r) (c_env r) (c_max_early_data_size r)
    (c_early_data_acceptance r) (c_selected_psk_binder r) (c_trace r).

Notation MC := (M conn).

(** Reading and assigning a field of [*tls]. *)
Definition tls_get {A} (f : ptls_t -> A) : MC A := gets (fun c => f (c_tls c)).
Definition tls_set (f : ptls_t -> ptls_t) : MC unit := modify (fun c => c <| c_tls := f (c_tls c) |>).
Notation "'tls->' f ':=' v" := (tls_set (fun t => t <| f := v |>)) (at level 99, f at level 9, v at level 99) : monad_scope.
(** A field that the code dereferences. *)
Definition tls_deref {A} (f : ptls_t -> option A) : MC A := do! o := tls_get f in deref o.
(** The number of the next call to the environment. *)
Definition next_call : MC Z := do! n := gets c_env in modify (fun c => c <| c_env := n + 1 |>) ;;; ret n.
Definition log (e : event) : MC unit := modify (fun c => c <| c_trace := c_trace c ++ [e] |>).
(** A callback that returns a code: non-zero is an error. *)
Definition check_code (code : Z) : MC unit := mguard (code =? 0) code.
(** An environment call that fails with a code. *)
Definition lift_sum {A} (r : Z + A) : MC A := match r with inl code => fail code | inr a => ret a end.

(** [tls->key_schedule] through one of the functions on key schedules. *)
Definition sched_get {A} (f : st_ptls_key_schedule_t -> res A) : MC A :=
  do! s := tls_deref t_key_schedule in lift (f s).
Definition sched_upd (f : st_ptls_key_schedule_t -> res st_ptls_key_schedule_t) : MC unit :=
  do! s := tls_deref t_key_schedule in
  do! s := lift (f s) in
  tls-> t_key_schedule := Some s.
Definition update_hash (msg : bytes) : MC unit := sched_upd (fun s => Ok (ptls__key_schedule_update_hash s msg)).
Definition sched_algo : MC ptls_hash_algorithm_t := do! h := sched_get hash0 in ret (fst h).

(** ** Emitting messages *)

(** [ptls_buffer_push_message_body]: the octets of a handshake message. *)
Definition message_body (type : Z) (body : bytes) : bytes := [u8 type] ++ push_block 3 body.

(** [begin_raw_message] and [commit_raw_message]: the message is appended as it is
    and accounted to the epoch of the current write key; a second ClientHello
    belongs to epoch 0 although the early-data key is in place. *)
Fixpoint raw_epoch_loop (n : nat) (epoch start_off off : nat) (offsets : list nat) : res (list nat) :=
  match n with
  | O => Ok offsets
  | S n =>
      if (epoch <? 5)%nat then
        let! _ := c_assert (default 0%nat (offsets !! epoch) =? start_off)%nat in
        raw_epoch_loop n (S epoch) start_off off (<[epoch := off]> offsets)
      else Ok offsets
  end.

Definition commit_raw_message (enc_epoch start_off : nat) (buf : bytes) (offsets : list nat) : res (list nat) :=
  let! first := rd buf start_off in
  let epoch := if (enc_epoch =? 1)%nat && (first =? PTLS_HANDSHAKE_TYPE_CLIENT_HELLO) then 0%nat else enc_epoch in
  raw_epoch_loop 5 (S epoch) start_off (length buf) offsets.

(** [ptls_push_message(emitter, hashed ? tls->key_schedule : NULL, type, body)] *)
Definition ptls_push_message (hashed : bool) (type : Z) (body : bytes) : MC unit :=
  do! kind := gets c_emitter in
  do! buf := gets c_buf in
  let msg := message_body type body in
  match kind with
  | RecordEmitter =>
      let '(buf, rec_start) := begin_record_message buf in
      when hashed (update_hash msg) ;;;
      do! enc := tls_get t_enc in
      do! x := lift (commit_record_message (buf ++ msg) rec_start enc) in
      modify (fun c => c <| c_buf := fst x |>) ;;;
      tls-> t_enc := snd x
  | RawEmitter =>
      when hashed (update_hash msg) ;;;
      do! enc := tls_get t_enc in
      do! offsets := gets c_epoch_offsets in
      do! offsets := lift (commit_raw_message (tp_epoch enc) (length buf) (buf ++ msg) offsets) in
      modify (fun c => c <| c_buf := buf ++ msg |> <| c_epoch_offsets := offsets |>)
  end.

(** [emitter->record_header_length] *)
Definition record_header_length (k : emitter_kind) : nat := match k with RecordEmitter => 5 | RawEmitter => 0 end.
