(* ===== verification/Handshake.v ===== *)
(** * Handshake: operations shared by the client and the server

    Traffic keys, Finished messages, session tickets, certificates and key updates
    ([lib/picotls.c]).  Every function is a computation of the monad of
    [Context]; [ctx] is [tls->ctx], [props] is [properties]. *)
From S2P Require Import Prelude Constants Monad Wire Crypto Record KeySchedule Extensions Messages Hello Esni Context.

(** [m], then [cleanup] whether [m] failed or not: the code after an [Exit] label. *)
Definition mfinally {S A} (m : M S A) (cleanup : M S unit) : M S A := fun s =>
  match m s with
  | Done a s => bind cleanup (fun _ => ret a) s
  | Fail c s => bind cleanup (fun _ => fail c) s
  | Undefined f => Undefined f
  end.

Section Handshake.
Context (ctx : ptls_context_t) (props : option ptls_handshake_properties_t).

(** ** Traffic protection *)

Definition tp_get (is_enc : bool) : MC st_ptls_traffic_protection_t := tls_get (if is_enc then t_enc else t_dec).
Definition tp_set (is_enc : bool) (tp : st_ptls_traffic_protection_t) : MC unit :=
  if is_enc then tls-> t_enc := tp else tls-> t_dec := tp.

(** [log_labels[is_server == is_enc][epoch]] *)
Definition log_label (is_server is_enc : bool) (epoch : nat) : bytes :=
  if eqb is_server is_enc then
    match epoch with
    | 2%nat => str "SERVER_HANDSHAKE_TRAFFIC_SECRET"
    | 3%nat => str "SERVER_TRAFFIC_SECRET_0"
    | _ => []
    end
  else
    match epoch with
    | 1%nat => str "CLIENT_EARLY_TRAFFIC_SECRET"
    | 2%nat => str "CLIENT_HANDSHAKE_TRAFFIC_SECRET"
    | 3%nat => str "CLIENT_TRAFFIC_SECRET_0"
    | _ => []
    end.

(** A new key starts its sequence numbers at 0. *)
Definition setup_traffic_protection (is_enc : bool) (secret_label : option bytes) (epoch : nat) (skip_notify : bool) : MC unit :=
  match secret_label with
  | Some label =>
      do! secret := sched_get (fun s => derive_secret s label) in
      do! tp := tp_get is_enc in
      tp_set is_enc (tp <| tp_secret := overwrite (tp_secret tp) secret |>)
  | None => ret tt
  end ;;;
  do! tp := tp_get is_enc in
  let tp := tp <| tp_epoch := epoch |> in
  tp_set is_enc tp ;;;
  match ctx_update_traffic_key ctx with
  | Some cb =>
      if skip_notify then ret tt
      else log (EvTrafficKey is_enc epoch (tp_secret tp)) ;;; check_code (cb is_enc epoch (tp_secret tp))
  | None =>
      do! cs := tls_deref t_cipher_suite in
      do! aead := lift (ptls_aead_new (cs_aead cs) (cs_hash cs) is_enc (tp_secret tp) (hkdf_label_prefix__obsolete ctx)) in
      match aead with
      | None => tp_set is_enc (tp <| tp_aead := None |>) ;;; fail PTLS_ERROR_NO_MEMORY
      | Some aead =>
          tp_set is_enc (tp <| tp_aead := Some aead |> <| tp_seq := 0 |>) ;;;
          do! algo := sched_algo in
          do! is_server := tls_get t_is_server in
          log (EvLogSecret (log_label is_server is_enc epoch) (take (digest_size algo) (tp_secret tp)))
      end
  end.

Definition commission_handshake_secret : MC unit :=
  do! is_server := tls_get t_is_server in
  let is_enc := negb is_server in
  do! pending := tls_get t_pending_handshake_secret in
  match pending with
  | None => undefined AssertFail
  | Some secret =>
      do! tp := tp_get is_enc in
      tp_set is_enc (tp <| tp_secret := secret |>) ;;;
      tls-> t_pending_handshake_secret := None ;;;
      setup_traffic_protection is_enc None 2 true
  end.

Definition derive_exporter_secret (is_early : bool) : MC unit :=
  if negb (use_exporter ctx) then ret tt
  else
    do! slot := tls_get (if is_early then t_exporter_early else t_exporter_one_rtt) in
    massert (match slot with None => true | Some _ => false end) ;;;
    do! secret := sched_get (fun s => derive_secret s (if is_early then str "e exp master" else str "exp master")) in
    (if is_early then tls-> t_exporter_early := Some secret else tls-> t_exporter_one_rtt := Some secret) ;;;
    log (EvLogSecret (if is_early then str "EARLY_EXPORTER_SECRET" else str "EXPORTER_SECRET") secret).

(** ** Finished *)

Definition verify_finished (message : bytes) : MC unit :=
  do! algo := sched_algo in
  mguard (PTLS_HANDSHAKE_HEADER_SIZE + digest_size algo =? length message)%nat PTLS_ALERT_DECODE_ERROR ;;;
  do! dec := tls_get t_dec in
  do! verify_data := sched_get (fun s => calc_verify_data s (tp_secret dec)) in
  do! equal := lift (ptls_mem_equal (drop PTLS_HANDSHAKE_HEADER_SIZE message) verify_data (digest_size algo)) in
  mguard equal PTLS_ALERT_HANDSHAKE_FAILURE ;;;
  log (EvFinishedVerified (drop PTLS_HANDSHAKE_HEADER_SIZE message)).

Definition send_finished : MC unit :=
  do! enc := tls_get t_enc in
  do! verify_data := sched_get (fun s => calc_verify_data s (tp_secret enc)) in
  ptls_push_message true PTLS_HANDSHAKE_TYPE_FINISHED verify_data.

(** ** Change-cipher-spec *)

Definition push_change_cipher_spec : MC unit :=
  do! flag := tls_get t_send_change_cipher_spec in
  if negb flag then ret tt
  else
    do! kind := gets c_emitter in
    match kind with
    | RawEmitter => fail PTLS_ALERT_UNEXPECTED_MESSAGE
    | RecordEmitter =>
        modify (fun c => c <| c_buf := c_buf c ++ buffer_push_record PTLS_CONTENT_TYPE_CHANGE_CIPHER_SPEC [1] |>) ;;;
        tls-> t_send_change_cipher_spec := false
    end.

(** ** Session tickets *)

(** Four octets as an [uint32_t] of the (little-endian) host. *)
Definition of_le32 (l : bytes) : Z := of_be (rev l).

(** The transcript is extended with the messages the client is going to send. *)
Definition predict_client_finished : MC unit :=
  do! pending := tls_get t_pending_handshake_secret in
  match pending with
  | Some _ =>
      when (negb (omit_end_of_early_data ctx))
        (do! state := tls_get t_state in
         massert (bool_decide (state = PTLS_STATE_SERVER_EXPECT_END_OF_EARLY_DATA)) ;;;
         update_hash (message_body PTLS_HANDSHAKE_TYPE_END_OF_EARLY_DATA []))
  | None => ret tt
  end ;;;
  do! dec := tls_get t_dec in
  do! verify_data := sched_get (fun s => calc_verify_data s (default (tp_secret dec) pending)) in
  update_hash (message_body PTLS_HANDSHAKE_TYPE_FINISHED verify_data).

Definition emit_session_ticket : MC unit :=
  predict_client_finished ;;;
  do! n := next_call in
  let ticket_age_add := of_le32 (random_bytes ctx n 4) in
  do! n := next_call in
  do! psk := sched_get (fun s => derive_resumption_secret s []) in
  do! key_share := tls_deref t_key_share in
  do! cs := tls_deref t_cipher_suite in
  do! server_name := tls_get t_server_name in
  do! protocol := tls_get t_negotiated_protocol in
  let session_id := encode_session_identifier (get_time ctx n) psk ticket_age_add server_name (kx_id key_share) (cs_id cs) protocol in
  do! n := next_call in
  do! cb := deref (encrypt_ticket ctx) in
  let '(code, ticket) := cb n true session_id in
  check_code code ;;;
  ptls_push_message true PTLS_HANDSHAKE_TYPE_NEW_SESSION_TICKET
    (push32 (ticket_lifetime ctx) ++ push32 ticket_age_add ++ push_block 1 [] ++ push_block 2 ticket ++
     push_block 2 (if max_early_data_size ctx =? 0 then []
                   else buffer_push_extension PTLS_EXTENSION_TYPE_EARLY_DATA (push32 (max_early_data_size ctx)))).

(** The transcript is restored at the end. *)
Definition send_session_ticket : MC unit :=
  do! backup := sched_get hash0 in
  massert (negb (ticket_lifetime ctx =? 0)) ;;;
  massert (match encrypt_ticket ctx with Some _ => true | None => false end) ;;;
  mfinally emit_session_ticket
    (sched_upd (fun s => match hashes s with
                         | (algo, _) :: hs => Ok (set_hashes s ((algo, snd backup) :: hs))
                         | [] => Stuck OutOfBounds
                         end)).

(** ** Certificates *)

(** The type and the body of the Certificate message (or of its equivalent). *)
Definition certificate_message (context : bytes) (push_status_request : bool) (compress_algos : list Z) : MC (Z * bytes) :=
  let default_message := (PTLS_HANDSHAKE_TYPE_CERTIFICATE, ptls_build_certificate_message context (certificates ctx) []) in
  match emit_certificate ctx with
  | None => ret default_message
  | Some cb =>
      match cb context push_status_request compress_algos with
      | inl code => if code =? PTLS_ERROR_DELEGATE then ret default_message else fail code
      | inr msg => ret msg
      end
  end.

Definition send_certificate_and_certificate_verify (signature_algorithms : list Z) (context context_string : bytes)
    (push_status_request : bool) (compress_algos : list Z) : MC unit :=
  mguard (negb (length signature_algorithms =? 0)%nat) PTLS_ALERT_MISSING_EXTENSION ;;;
  do! msg := certificate_message context push_status_request compress_algos in
  ptls_push_message true (fst msg) (snd msg) ;;;
  match sign_certificate ctx with
  | None => ret tt
  | Some cb =>
      do! data := sched_get (fun s => build_certificate_verify_signdata s context_string) in
      do! n := next_call in
      do! x := lift_sum (cb n data signature_algorithms) in
      ptls_push_message true PTLS_HANDSHAKE_TYPE_CERTIFICATE_VERIFY (push16 (fst x) ++ push_block 2 (snd x))
  end.

(** Whether there were certificates; [mem] is the message or what it
    decompressed to. *)
Definition handle_certificate (mem : bytes) (src end_ : nat) : MC bool :=
  do! certs := lift (decode_certificates mem (on_extension ctx) src end_) in
  match verify_certificate ctx with
  | Some cb =>
      when (negb (length certs =? 0)%nat)
        (do! verifier := lift_sum (cb certs) in
         log (EvCertificates certs) ;;;
         tls-> t_certificate_verify := verifier)
  | None => ret tt
  end ;;;
  ret (negb (length certs =? 0)%nat).

Definition handle_certificate_verify (message context_string : bytes) : MC unit :=
  let end_ := length message in
  do! x := lift (let! '(algo, src) := ptls_decode16 message PTLS_HANDSHAKE_HEADER_SIZE end_ in
                 let! '(signature, _) := ptls_decode_block message src end_ 2 (take_all message) in
                 Ok (algo, signature)) in
  let '(algo, signature) := x in
  mguard ((algo =? PTLS_SIGNATURE_RSA_PSS_RSAE_SHA256) || (algo =? PTLS_SIGNATURE_ECDSA_SECP256R1_SHA256)) PTLS_ALERT_ILLEGAL_PARAMETER ;;;
  do! signdata := sched_get (fun s => build_certificate_verify_signdata s context_string) in
  do! cb := tls_get t_certificate_verify in
  tls-> t_certificate_verify := None ;;;
  match cb with
  | Some verify => check_code (verify signdata signature) ;;; log (EvSignatureVerified signdata signature)
  | None => ret tt
  end ;;;
  update_hash message.

(** ** Key updates *)

Definition update_traffic_key (is_enc : bool) : MC unit :=
  do! tp := tp_get is_enc in
  do! secret := sched_get (fun s =>
    let! '(hash, _) := hash0 s in
    hkdf_expand_label hash (digest_size hash) (take (digest_size hash) (tp_secret tp)) (str "traffic upd") [] (hkdf_label_prefix s)) in
  tp_set is_enc (tp <| tp_secret := overwrite (tp_secret tp) secret |>) ;;;
  setup_traffic_protection is_enc None 3 true.

Definition handle_key_update (message : bytes) : MC unit :=
  match drop PTLS_HANDSHAKE_HEADER_SIZE message with
  | [request] =>
      mguard (request <=? 1) PTLS_ALERT_DECODE_ERROR ;;;
      update_traffic_key false ;;;
      when (negb (request =? 0))
        (match ctx_update_traffic_key ctx with
         | Some _ => fail PTLS_ALERT_UNEXPECTED_MESSAGE
         | None => tls-> t_needs_key_update := true
         end)
  | _ => fail PTLS_ALERT_DECODE_ERROR
  end.

(** ** Unknown extensions *)

Definition collect_extension : option (Z -> bool) := match props with Some p => p_collect_extension p | None => None end.

Definition report_unknown_extensions (slots : list ptls_raw_extension_t) : MC unit :=
  match props with
  | Some p =>
      match p_collect_extension p with
      | None => ret tt
      | Some _ =>
          match p_collected_extensions p with
          | None => undefined AssertFail
          | Some cb => check_code (cb slots)
          end
      end
  | None => ret tt
  end.
End Handshake.
