(* ===== verification/Client.v ===== *)
(** * Client: the client side of the handshake

    [send_client_hello] and the handlers [client_handle_*] of [lib/picotls.c],
    with their dispatcher.  A handler returns 0 or [PTLS_ERROR_IN_PROGRESS];
    every other code is a failure of the monad. *)
From S2P Require Import Prelude Constants Monad Wire Crypto Record KeySchedule Extensions Messages Hello Esni Context Handshake.

Section Client.
(** [ptls_server_name_is_ipaddr] asks the C library. *)
Context (is_ipaddr : bytes -> bool) (ctx : ptls_context_t) (props : option ptls_handshake_properties_t).

(** ** ClientHello *)

Definition sends_sni (server_name : option bytes) : bool :=
  match server_name with Some name => negb (is_ipaddr name) | None => false end.

(** ESNI, on the first flight: the secret goes to [tls->esni], the result is the
    name to publish.  The callback dereferences [tls->esni] even if the keys were
    not usable. *)
Definition client_hello_setup_esni (is_second_flight send_sni : bool) : MC (option bytes) :=
  match props with
  | None => ret None
  | Some p =>
      match p_esni_keys p with
      | None => ret None
      | Some keys =>
          if is_second_flight || negb send_sni then ret None
          else
            do! n1 := next_call in
            do! n2 := next_call in
            do! n3 := next_call in
            do! random := tls_get t_client_random in
            do! r := lift (client_setup_esni (cipher_suites ctx) (key_exchanges ctx) (get_time ctx n1) n3
                             (random_bytes ctx n2 PTLS_ESNI_NONCE_SIZE) keys random) in
            tls-> t_esni := option_map fst r ;;;
            match update_esni_key ctx with
            | None => ret tt
            | Some cb =>
                do! esni := tls_deref t_esni in
                do! c := deref (es_client esni) in
                log (EvEsniKey (es_secret esni)) ;;;
                check_code (cb (es_secret esni) (cs_hash (ec_cipher c)) (es_contents_hash esni))
            end ;;;
            ret (option_map snd r)
      end
  end.

(** Resumption: the data of the stored ticket, if it is usable. *)
Definition client_hello_setup_resumption (is_second_flight : bool) : MC (option stored_ticket) :=
  match props with
  | None => ret None
  | Some p =>
      do! resumption :=
        match p_session_ticket p with
        | None => ret None
        | Some ticket =>
            do! n := next_call in
            match decode_stored_session_ticket ticket (on_extension ctx) (key_exchanges ctx) (cipher_suites ctx) (get_time ctx n)
                    0 (length ticket) with
            | Stuck f => undefined f
            | Err _ => ret None
            | Ok st =>
                tls-> t_offered_psk := true ;;;
                do! key_share := tls_get t_key_share in
                match key_share with
                | None => tls-> t_key_share := Some (st_key_share st)
                | Some _ => ret tt
                end ;;;
                tls-> t_cipher_suite := Some (st_cs st) ;;;
                when (negb is_second_flight && negb (st_max_early_data_size st =? 0) && p_wants_early_data p)
                  (tls-> t_using_early_data := true ;;;
                   modify (fun c => c <| c_max_early_data_size := st_max_early_data_size st |>)) ;;;
                ret (Some st)
            end
        end in
      do! using_early_data := tls_get t_using_early_data in
      (if using_early_data then modify (fun c => c <| c_early_data_acceptance := PTLS_EARLY_DATA_ACCEPTANCE_UNKNOWN |>)
       else
         when (p_wants_early_data p) (modify (fun c => c <| c_max_early_data_size := 0 |>)) ;;;
         modify (fun c => c <| c_early_data_acceptance := PTLS_EARLY_DATA_REJECTED |>)) ;;;
      ret resumption
  end.

(** The body of the key_share extension; the private key stays in
    [tls->client.key_share_ctx]. *)
Definition client_hello_key_share_ext : MC bytes :=
  do! key_share := tls_get t_key_share in
  match key_share with
  | None => ret (push_block 2 [])
  | Some kx =>
      do! n := next_call in
      do! kxc := lift_sum (kx_create kx n) in
      tls-> t_key_share_ctx := Some kxc ;;;
      ret (push_block 2 (push_key_share_entry (kx_id kx) (kxc_pubkey kxc)))
  end.

Definition client_hello_sni_exts (send_sni : bool) (published_sni : option bytes) (key_share_ch : bytes) : MC (list (Z * bytes)) :=
  if negb send_sni then ret []
  else
    do! name := tls_deref t_server_name in
    do! esni := tls_get t_esni in
    match esni with
    | Some esni =>
        do! ext := lift (emit_esni_extension esni name key_share_ch) in
        ret (match published_sni with Some sni => [(PTLS_EXTENSION_TYPE_SERVER_NAME, emit_server_name_extension sni)] | None => [] end ++
             [(PTLS_EXTENSION_TYPE_ENCRYPTED_SERVER_NAME, ext)])
    | None => ret [(PTLS_EXTENSION_TYPE_SERVER_NAME, emit_server_name_extension name)]
    end.

Definition push16_list_of {A} (f : A -> Z) (l : list A) : bytes := flat_map (fun x => push16 (f x)) l.

(** The extensions from ALPN to the cookie. *)
Definition client_hello_fixed_exts (cookie : option (option bytes)) : list (Z * bytes) :=
  match props with
  | Some p => if (length (p_negotiated_protocols p) =? 0)%nat then []
              else [(PTLS_EXTENSION_TYPE_ALPN, push_block 2 (flat_map (push_block 1) (p_negotiated_protocols p)))]
  | None => []
  end ++
  match decompress_certificate ctx with
  | Some d => [(PTLS_EXTENSION_TYPE_COMPRESS_CERTIFICATE, push_block 1 (push16_list_of id (dc_supported_algorithms d)))]
  | None => []
  end ++
  [(PTLS_EXTENSION_TYPE_SUPPORTED_VERSIONS, push_block 1 (push16_list_of id supported_versions));
   (PTLS_EXTENSION_TYPE_SIGNATURE_ALGORITHMS, push_signature_algorithms);
   (PTLS_EXTENSION_TYPE_SUPPORTED_GROUPS, push_block 2 (push16_list_of kx_id (key_exchanges ctx)))] ++
  match cookie with Some (Some c) => [(PTLS_EXTENSION_TYPE_COOKIE, push_block 2 c)] | _ => [] end ++
  default [] (match props with Some p => p_additional_extensions p | None => None end).

(** The extensions on pre-shared keys; the binder is a placeholder of
    [digest_size] octets. *)
Definition client_hello_psk_exts (resumption : option stored_ticket) (early_data : bool) (digest_size : nat) : list (Z * bytes) :=
  (if match save_ticket ctx, resumption with None, None => false | _, _ => true end
   then [(PTLS_EXTENSION_TYPE_PSK_KEY_EXCHANGE_MODES,
          push_block 1 ((if require_dhe_on_psk ctx then [] else [PTLS_PSK_KE_MODE_PSK]) ++ [PTLS_PSK_KE_MODE_PSK_DHE]))]
   else []) ++
  match resumption with
  | None => []
  | Some st =>
      (if early_data then [(PTLS_EXTENSION_TYPE_EARLY_DATA, [])] else []) ++
      [(PTLS_EXTENSION_TYPE_PRE_SHARED_KEY,
        push_block 2 (push_block 2 (st_ticket st) ++ push32 (st_obfuscated_ticket_age st)) ++
        push_block 2 (push_block 1 (replicate digest_size 0)))]
  end.

Definition client_hello_body (client_random legacy_session_id : bytes) (suites : list ptls_cipher_suite_t)
    (exts : list (Z * bytes)) : bytes :=
  push16 0x0303 ++ client_random ++ push_block 1 legacy_session_id ++ push_block 2 (push16_list_of cs_id suites) ++
  push_block 1 [0] ++ push_block 2 (ext_bytes exts).

(** The binder is the HMAC of the message up to the binders; it is written over
    the placeholder. *)
Definition fill_psk_binder (msghash_off : nat) : MC nat :=
  do! algo := sched_algo in
  do! buf := gets c_buf in
  let psk_binder_off := (length buf - (3 + digest_size algo))%nat in
  do! binder_key := sched_get (fun s => derive_secret_with_empty_digest s (str "res binder")) in
  update_hash (slice buf msghash_off psk_binder_off) ;;;
  do! binder := sched_get (fun s => calc_verify_data s binder_key) in
  modify (fun c => c <| c_buf := take (psk_binder_off + 3) buf ++ binder ++ drop (psk_binder_off + 3 + length binder) buf |>) ;;;
  ret psk_binder_off.

Definition send_client_hello (cookie : option (option bytes)) : MC Z :=
  do! sched := tls_get t_key_schedule in
  do! server_name := tls_get t_server_name in
  let is_second_flight := match sched with Some _ => true | None => false end in
  let send_sni := sends_sni server_name in
  do! published_sni := client_hello_setup_esni is_second_flight send_sni in
  do! resumption := client_hello_setup_resumption is_second_flight in
  do! key_share := tls_get t_key_share in
  match key_share with
  | None => when (negb (match props with Some p => p_negotiate_before_key_exchange p | None => false end))
              (tls-> t_key_share := head (key_exchanges ctx))
  | Some _ => ret tt
  end ;;;
  when (negb is_second_flight)
    (do! cs := tls_get t_cipher_suite in
     tls-> t_key_schedule := Some (key_schedule_new cs (Some (cipher_suites ctx)) (hkdf_label_prefix__obsolete ctx)) ;;;
     sched_upd (fun s => key_schedule_extract s (option_map st_secret resumption))) ;;;
  do! kind := gets c_emitter in
  do! buf := gets c_buf in
  let msghash_off := (length buf + record_header_length kind)%nat in
  (* the body of the message *)
  do! key_share_ch := client_hello_key_share_ext in
  do! sni := client_hello_sni_exts send_sni published_sni key_share_ch in
  massert (match decompress_certificate ctx with Some d => negb (length (dc_supported_algorithms d) =? 0)%nat | None => true end) ;;;
  do! using_early_data := tls_get t_using_early_data in
  do! algo := sched_algo in
  let exts := (PTLS_EXTENSION_TYPE_KEY_SHARE, key_share_ch) :: sni ++ client_hello_fixed_exts cookie ++
              client_hello_psk_exts resumption (using_early_data && negb is_second_flight) (digest_size algo) in
  do! client_random := tls_get t_client_random in
  do! legacy_session_id := tls_get t_legacy_session_id in
  ptls_push_message false PTLS_HANDSHAKE_TYPE_CLIENT_HELLO (client_hello_body client_random legacy_session_id (cipher_suites ctx) exts) ;;;
  (* the transcript *)
  do! msghash_off := match resumption with Some _ => fill_psk_binder msghash_off | None => ret msghash_off end in
  do! buf := gets c_buf in
  update_hash (slice buf msghash_off (length buf)) ;;;
  when using_early_data
    (massert (negb is_second_flight) ;;;
     setup_traffic_protection ctx true (Some (str "c e traffic")) 1 false ;;;
     push_change_cipher_spec) ;;;
  when (match resumption with Some _ => negb is_second_flight | None => false end) (derive_exporter_secret ctx true) ;;;
  tls-> t_state := (match cookie with None => PTLS_STATE_CLIENT_EXPECT_SERVER_HELLO | Some _ => PTLS_STATE_CLIENT_EXPECT_SECOND_SERVER_HELLO end) ;;;
  ret PTLS_ERROR_IN_PROGRESS.

(** ** ServerHello *)

Definition decode_server_hello (message : bytes) : MC st_ptls_server_hello_t :=
  let end_ := length message in
  do! head := lift (server_hello_head message PTLS_HANDSHAKE_HEADER_SIZE end_) in
  let '(legacy_session_id, is_retry_request, csid, src) := head in
  let cs := find_cipher_suite (cipher_suites ctx) csid in
  tls-> t_cipher_suite := cs ;;;
  match cs with
  | None => fail PTLS_ALERT_ILLEGAL_PARAMETER
  | Some _ =>
      do! key_share := tls_get t_key_share in
      do! x := lift (server_hello_tail message (on_extension ctx) key_share
                       (mk_sh legacy_session_id is_retry_request None 0 None) src end_) in
      let '(sh, selected_psk_identity) := x in
      when (negb is_retry_request)
        (when (negb (selected_psk_identity =? UINT16_MAX))
           (do! offered := tls_get t_offered_psk in
            mguard offered PTLS_ALERT_ILLEGAL_PARAMETER ;;;
            mguard (selected_psk_identity =? 0) PTLS_ALERT_ILLEGAL_PARAMETER ;;;
            tls-> t_is_psk_handshake := true) ;;;
         do! is_psk := tls_get t_is_psk_handshake in
         mguard (match sh_peerkey sh with Some _ => true | None => is_psk end) PTLS_ALERT_ILLEGAL_PARAMETER) ;;;
      ret sh
  end.

Definition handle_hello_retry_request (sh : st_ptls_server_hello_t) (message : bytes) : MC Z :=
  tls-> t_key_share_ctx := None ;;;
  do! using_early_data := tls_get t_using_early_data in
  when using_early_data
    (match ctx_update_traffic_key ctx with
     | None =>
         do! enc := tls_get t_enc in
         massert (match tp_aead enc with Some _ => true | None => false end) ;;;
         tls-> t_enc := enc <| tp_aead := None |>
     | Some _ => ret tt
     end ;;;
     tls-> t_using_early_data := false) ;;;
  (if negb (sh_selected_group sh =? UINT16_MAX) then
     match find_kx (key_exchanges ctx) (sh_selected_group sh) with
     | None => fail PTLS_ALERT_ILLEGAL_PARAMETER
     | Some kx => tls-> t_key_share := Some kx
     end
   else
     do! key_share := tls_get t_key_share in
     mguard (match key_share with Some _ => true | None => false end) PTLS_ALERT_ILLEGAL_PARAMETER) ;;;
  sched_upd key_schedule_transform_post_ch1hash ;;;
  update_hash message ;;;
  send_client_hello (Some (sh_cookie sh)).

(** The secrets of the handshake, from the transcript up to the ServerHello. *)
Definition client_setup_handshake_keys : MC unit :=
  setup_traffic_protection ctx false (Some (str "s hs traffic")) 2 false ;;;
  do! using_early_data := tls_get t_using_early_data in
  if using_early_data then
    do! secret := sched_get (fun s => derive_secret s (str "c hs traffic")) in
    let pending := overwrite (replicate PTLS_MAX_DIGEST_SIZE 0) secret in
    tls-> t_pending_handshake_secret := Some pending ;;;
    match ctx_update_traffic_key ctx with
    | Some cb => log (EvTrafficKey true 2 pending) ;;; check_code (cb true 2%nat pending)
    | None => ret tt
    end
  else setup_traffic_protection ctx true (Some (str "c hs traffic")) 2 false.

Definition client_handle_hello (message : bytes) : MC Z :=
  do! sh := decode_server_hello message in
  do! legacy_session_id := tls_get t_legacy_session_id in
  mguard (length (sh_legacy_session_id sh) =? length legacy_session_id)%nat PTLS_ALERT_ILLEGAL_PARAMETER ;;;
  do! equal := lift (ptls_mem_equal (sh_legacy_session_id sh) legacy_session_id (length legacy_session_id)) in
  mguard equal PTLS_ALERT_ILLEGAL_PARAMETER ;;;
  do! cs := tls_deref t_cipher_suite in
  if sh_is_retry_request sh then
    sched_upd (fun s => key_schedule_select_one s cs false) ;;;
    handle_hello_retry_request sh message
  else
    do! offered_psk := tls_get t_offered_psk in
    do! is_psk := tls_get t_is_psk_handshake in
    sched_upd (fun s => key_schedule_select_one s cs (offered_psk && negb is_psk)) ;;;
    do! ecdh_secret :=
      match sh_peerkey sh with
      | Some peerkey =>
          do! kxc := tls_deref t_key_share_ctx in
          tls-> t_key_share_ctx := None ;;;
          do! secret := lift_sum (kxc_on_exchange kxc peerkey) in
          ret (Some secret)
      | None => ret None
      end in
    update_hash message ;;;
    sched_upd (fun s => key_schedule_extract s ecdh_secret) ;;;
    client_setup_handshake_keys ;;;
    tls-> t_state := PTLS_STATE_CLIENT_EXPECT_ENCRYPTED_EXTENSIONS ;;;
    ret PTLS_ERROR_IN_PROGRESS.

(** ** EncryptedExtensions *)

(** What the walk over the extensions assigns. *)
Record encrypted_extensions := mk_ee {
  ee_esni_nonce : option bytes;
  ee_protocol : option bytes;
  ee_skip_early_data : bool;
  ee_unknown : list ptls_raw_extension_t
}.

Definition encrypted_extensions_alpn (mem : bytes) (src end_ : nat) : res (bytes * nat) :=
  ptls_decode_block mem src end_ 2 (fun src end_ =>
    let! '(protocol, src) := ptls_decode_open_block mem src end_ 1 (fun src end_ =>
      if (src =? end_)%nat then Err PTLS_ALERT_DECODE_ERROR else take_all mem src end_) in
    if (src =? end_)%nat then Ok (protocol, src) else Err PTLS_ALERT_HANDSHAKE_FAILURE).

(** The first octet of an encrypted_server_name extension is read without a check
    of its length. *)
Definition encrypted_extension (mem : bytes) (server_name : option bytes) (using_early_data : bool) (exttype : Z)
    (ee : encrypted_extensions) (src end_ : nat) : res (encrypted_extensions * nat) :=
  let! _ := call_on_extension (on_extension ctx) PTLS_HANDSHAKE_TYPE_ENCRYPTED_EXTENSIONS exttype (slice mem src end_) in
  let! ee :=
    if exttype =? PTLS_EXTENSION_TYPE_SERVER_NAME then
      let! _ := guard (src =? end_)%nat PTLS_ALERT_DECODE_ERROR in
      let! _ := guard (sends_sni server_name) PTLS_ALERT_ILLEGAL_PARAMETER in
      Ok ee
    else if exttype =? PTLS_EXTENSION_TYPE_ENCRYPTED_SERVER_NAME then
      let! response := rd mem src in
      if response =? PTLS_ESNI_RESPONSE_TYPE_ACCEPT then
        let! _ := guard (end_ - src =? PTLS_ESNI_NONCE_SIZE + 1)%nat PTLS_ALERT_ILLEGAL_PARAMETER in
        Ok (mk_ee (Some (slice mem (src + 1) end_)) (ee_protocol ee) (ee_skip_early_data ee) (ee_unknown ee))
      else Err PTLS_ERROR_ESNI_RETRY
    else if exttype =? PTLS_EXTENSION_TYPE_ALPN then
      let! '(protocol, _) := encrypted_extensions_alpn mem src end_ in
      Ok (mk_ee (ee_esni_nonce ee) (Some protocol) (ee_skip_early_data ee) (ee_unknown ee))
    else if exttype =? PTLS_EXTENSION_TYPE_EARLY_DATA then
      let! _ := guard using_early_data PTLS_ALERT_ILLEGAL_PARAMETER in
      Ok (mk_ee (ee_esni_nonce ee) (ee_protocol ee) false (ee_unknown ee))
    else
      let! '(_, slots) := handle_unknown_extension (collect_extension props) exttype (slice mem src end_) (ee_unknown ee) in
      Ok (mk_ee (ee_esni_nonce ee) (ee_protocol ee) (ee_skip_early_data ee) slots) in
  Ok (ee, end_).

(** The server must return the nonce of the encrypted server name, if there is
    one. *)
Definition check_esni_nonce (nonce : option bytes) : MC unit :=
  do! esni := tls_get t_esni in
  match esni, nonce with
  | Some esni, Some nonce =>
      do! equal := lift (ptls_mem_equal nonce (es_nonce esni) PTLS_ESNI_NONCE_SIZE) in
      mguard equal PTLS_ALERT_ILLEGAL_PARAMETER ;;;
      tls-> t_esni := None
  | Some _, None => fail PTLS_ALERT_ILLEGAL_PARAMETER
  | None, Some _ => fail PTLS_ALERT_ILLEGAL_PARAMETER
  | None, None => ret tt
  end.

(** The protocol is set during the walk in the code, and after it here: the two differ
    only in the state that a message refused by the walk leaves behind, when the
    handshake is over. *)
Definition client_handle_encrypted_extensions (message : bytes) : MC Z :=
  do! server_name := tls_get t_server_name in
  do! using_early_data := tls_get t_using_early_data in
  do! x := lift (decode_extensions message PTLS_HANDSHAKE_HEADER_SIZE (length message) PTLS_HANDSHAKE_TYPE_ENCRYPTED_EXTENSIONS
                   (encrypted_extension message server_name using_early_data) (mk_ee None None true [(UINT16_MAX, [])])) in
  let ee := fst x in
  match ee_protocol ee with Some p => tls-> t_negotiated_protocol := Some p | None => ret tt end ;;;
  check_esni_nonce (ee_esni_nonce ee) ;;;
  when using_early_data
    (when (ee_skip_early_data ee) (tls-> t_using_early_data := false) ;;;
     match props with
     | Some _ => modify (fun c => c <| c_early_data_acceptance :=
                   (if ee_skip_early_data ee then PTLS_EARLY_DATA_REJECTED else PTLS_EARLY_DATA_ACCEPTED) |>)
     | None => ret tt
     end) ;;;
  report_unknown_extensions props (ee_unknown ee) ;;;
  update_hash message ;;;
  do! is_psk := tls_get t_is_psk_handshake in
  tls-> t_state := (if is_psk then PTLS_STATE_CLIENT_EXPECT_FINISHED else PTLS_STATE_CLIENT_EXPECT_CERTIFICATE_REQUEST_OR_CERTIFICATE) ;;;
  ret PTLS_ERROR_IN_PROGRESS.

(** ** Certificates *)

(** A request that is refused while it is decoded leaves the members decoded so far in
    the code, and the old request here; the handshake is over in both. *)
Definition client_handle_certificate_request (message : bytes) : MC Z :=
  do! old := tls_get t_certificate_request in
  do! cr := lift (decode_certificate_request message (on_extension ctx) (cr_signature_algorithms old)
                    PTLS_HANDSHAKE_HEADER_SIZE (length message)) in
  tls-> t_certificate_request := cr ;;;
  mguard (length (default [] (cr_context cr)) =? 0)%nat PTLS_ALERT_ILLEGAL_PARAMETER ;;;
  tls-> t_state := PTLS_STATE_CLIENT_EXPECT_CERTIFICATE ;;;
  update_hash message ;;;
  ret PTLS_ERROR_IN_PROGRESS.

Definition client_do_handle_certificate (mem : bytes) (src end_ : nat) : MC unit :=
  do! got_certs := handle_certificate ctx mem src end_ in
  mguard got_certs PTLS_ALERT_ILLEGAL_PARAMETER.

Definition client_handle_certificate (message : bytes) : MC Z :=
  client_do_handle_certificate message PTLS_HANDSHAKE_HEADER_SIZE (length message) ;;;
  update_hash message ;;;
  tls-> t_state := PTLS_STATE_CLIENT_EXPECT_CERTIFICATE_VERIFY ;;;
  ret PTLS_ERROR_IN_PROGRESS.

Definition client_handle_compressed_certificate (message : bytes) : MC Z :=
  let end_ := length message in
  match decompress_certificate ctx with
  | None => fail PTLS_ALERT_UNEXPECTED_MESSAGE
  | Some d =>
      do! uncompressed := lift (
        let! '(algo, src) := ptls_decode16 message PTLS_HANDSHAKE_HEADER_SIZE end_ in
        let! '(uncompressed_size, src) := ptls_decode24 message src end_ in
        let! _ := guard (uncompressed_size <=? 65536) PTLS_ALERT_BAD_CERTIFICATE in
        let! '(uncompressed, _) := ptls_decode_block message src end_ 3 (fun src end_ =>
          match dc_cb d algo uncompressed_size (slice message src end_) with
          | inl code => Err code
          | inr output => Ok (take (Z.to_nat uncompressed_size) output, end_)
          end) in
        Ok uncompressed) in
      client_do_handle_certificate uncompressed 0 (length uncompressed) ;;;
      update_hash message ;;;
      tls-> t_state := PTLS_STATE_CLIENT_EXPECT_CERTIFICATE_VERIFY ;;;
      ret PTLS_ERROR_IN_PROGRESS
  end.

Definition client_handle_certificate_verify (message : bytes) : MC Z :=
  handle_certificate_verify message PTLS_SERVER_CERTIFICATE_VERIFY_CONTEXT_STRING ;;;
  tls-> t_state := PTLS_STATE_CLIENT_EXPECT_FINISHED ;;;
  ret PTLS_ERROR_IN_PROGRESS.

(** ** Finished *)

(** The end of early data: EndOfEarlyData goes out under the early-data key. *)
Definition client_end_early_data : MC unit :=
  do! pending := tls_get t_pending_handshake_secret in
  match pending with
  | None => ret tt
  | Some _ =>
      do! enc := tls_get t_enc in
      massert (match tp_aead enc, ctx_update_traffic_key ctx with None, None => false | _, _ => true end) ;;;
      do! using_early_data := tls_get t_using_early_data in
      when (using_early_data && negb (omit_end_of_early_data ctx)) (ptls_push_message true PTLS_HANDSHAKE_TYPE_END_OF_EARLY_DATA []) ;;;
      tls-> t_using_early_data := false ;;;
      commission_handshake_secret ctx
  end.

Definition client_authenticate : MC unit :=
  do! cr := tls_get t_certificate_request in
  match cr_context cr with
  | None => ret tt
  | Some context =>
      do! is_psk := tls_get t_is_psk_handshake in
      mguard (negb is_psk) PTLS_ALERT_ILLEGAL_PARAMETER ;;;
      mfinally (send_certificate_and_certificate_verify ctx (cr_signature_algorithms cr) context
                  PTLS_CLIENT_CERTIFICATE_VERIFY_CONTEXT_STRING false [])
        (tls-> t_certificate_request := mk_cr None (cr_signature_algorithms cr))
  end.

(** The code of [send_finished] is overwritten by the one of the next call. *)
Definition client_handle_finished (message : bytes) : MC Z :=
  verify_finished message ;;;
  update_hash message ;;;
  sched_upd (fun s => key_schedule_extract s None) ;;;
  setup_traffic_protection ctx false (Some (str "s ap traffic")) 3 false ;;;
  do! send_secret := sched_get (fun s => derive_secret s (str "c ap traffic")) in
  derive_exporter_secret ctx false ;;;
  client_end_early_data ;;;
  push_change_cipher_spec ;;;
  client_authenticate ;;;
  do! _ := code_of send_finished in
  do! enc := tls_get t_enc in
  tls-> t_enc := enc <| tp_secret := overwrite (tp_secret enc) send_secret |> ;;;
  setup_traffic_protection ctx true None 3 false ;;;
  tls-> t_state := PTLS_STATE_CLIENT_POST_HANDSHAKE ;;;
  ret 0.

(** ** NewSessionTicket *)

Definition client_handle_new_session_ticket (message : bytes) : MC Z :=
  let end_ := length message in
  do! nst := lift (decode_new_session_ticket message (on_extension ctx) PTLS_HANDSHAKE_HEADER_SIZE end_) in
  match save_ticket ctx with
  | None => ret 0
  | Some cb =>
      do! n := next_call in
      do! key_share := tls_deref t_key_share in
      do! cs := tls_deref t_cipher_suite in
      do! secret := sched_get (fun s => derive_resumption_secret s (nst_nonce nst)) in
      let ticket := push64 (get_time ctx n) ++ push16 (kx_id key_share) ++ push16 (cs_id cs) ++
                    push_block 3 (slice message PTLS_HANDSHAKE_HEADER_SIZE end_) ++ push_block 2 secret in
      log (EvSaveTicket ticket) ;;;
      check_code (cb ticket) ;;;
      ret 0
  end.

(** ** Dispatch *)

Definition handle_client_handshake_message (message : bytes) (is_end_of_record : bool) : MC Z :=
  do! type := lift (rd message 0) in
  do! state := tls_get t_state in
  let certificate :=
    if type =? PTLS_HANDSHAKE_TYPE_CERTIFICATE then client_handle_certificate message
    else if type =? PTLS_HANDSHAKE_TYPE_COMPRESSED_CERTIFICATE then client_handle_compressed_certificate message
    else fail PTLS_ALERT_UNEXPECTED_MESSAGE in
  match state with
  | PTLS_STATE_CLIENT_EXPECT_SERVER_HELLO
  | PTLS_STATE_CLIENT_EXPECT_SECOND_SERVER_HELLO =>
      if (type =? PTLS_HANDSHAKE_TYPE_SERVER_HELLO) && is_end_of_record then client_handle_hello message
      else fail PTLS_ALERT_UNEXPECTED_MESSAGE
  | PTLS_STATE_CLIENT_EXPECT_ENCRYPTED_EXTENSIONS =>
      if type =? PTLS_HANDSHAKE_TYPE_ENCRYPTED_EXTENSIONS then client_handle_encrypted_extensions message
      else fail PTLS_ALERT_UNEXPECTED_MESSAGE
  | PTLS_STATE_CLIENT_EXPECT_CERTIFICATE_REQUEST_OR_CERTIFICATE =>
      if type =? PTLS_HANDSHAKE_TYPE_CERTIFICATE_REQUEST then client_handle_certificate_request message else certificate
  | PTLS_STATE_CLIENT_EXPECT_CERTIFICATE => certificate
  | PTLS_STATE_CLIENT_EXPECT_CERTIFICATE_VERIFY =>
      if type =? PTLS_HANDSHAKE_TYPE_CERTIFICATE_VERIFY then client_handle_certificate_verify message
      else fail PTLS_ALERT_UNEXPECTED_MESSAGE
  | PTLS_STATE_CLIENT_EXPECT_FINISHED =>
      if (type =? PTLS_HANDSHAKE_TYPE_FINISHED) && is_end_of_record then client_handle_finished message
      else fail PTLS_ALERT_UNEXPECTED_MESSAGE
  | PTLS_STATE_CLIENT_POST_HANDSHAKE =>
      if type =? PTLS_HANDSHAKE_TYPE_NEW_SESSION_TICKET then client_handle_new_session_ticket message
      else if type =? PTLS_HANDSHAKE_TYPE_KEY_UPDATE then handle_key_update ctx message ;;; ret 0
      else fail PTLS_ALERT_UNEXPECTED_MESSAGE
  | _ => undefined AssertFail
  end.
End Client.

(** ** Safety of ServerHello *)

(** C18: decoding a ServerHello is safe for every message and every connection: it
    has no undefined behaviour, it fails only with the codes of the decoders, and
    it succeeds only with a cipher suite of the context; a peer key comes only with
    a key share that was offered, a PSK only if one was offered, and one of the two
    is there unless the message is a HelloRetryRequest. *)
Theorem decode_server_hello_safe ctx message c :
  is_bytes message -> (PTLS_HANDSHAKE_HEADER_SIZE <= length message)%nat -> t_is_psk_handshake (c_tls c) = false ->
  match decode_server_hello ctx message c with
  | Done sh c' =>
      (exists cs, t_cipher_suite (c_tls c') = Some cs /\ In cs (cipher_suites ctx)) /\
      (sh_peerkey sh <> None -> is_Some (t_key_share (c_tls c))) /\
      (t_is_psk_handshake (c_tls c') = true -> t_offered_psk (c_tls c) = true) /\
      (sh_is_retry_request sh = false -> sh_peerkey sh <> None \/ t_is_psk_handshake (c_tls c') = true)
  | Fail code _ => decode_code code
  | Undefined _ => False
  end.
Proof.
  intros Hb Hl Hpsk. unfold decode_server_hello.
  pose proof (wp_server_hello_head message Hb PTLS_HANDSHAKE_HEADER_SIZE (length message) ltac:(lia)) as Hhead.
  unfold bind at 1. destruct (server_hello_head _ _ _) as [[[[sid retry] csid] src]|code|]; [|done..]. cbn [lift ret].
  destruct Hhead as (_ & _ & _ & Hsrc). set (c1 := c <| c_tls := (c_tls c) <| t_cipher_suite := find_cipher_suite (cipher_suites ctx) csid |> |>).
  unfold bind, tls_set, modify. fold c1. destruct (find_cipher_suite (cipher_suites ctx) csid) as [cs|] eqn:Ecs; [|done].
  assert (Hcs : exists cs, t_cipher_suite (c_tls c1) = Some cs /\ In cs (cipher_suites ctx)).
  { exists cs. split; [done|]. by apply List.find_some in Ecs as [? _]. }
  unfold tls_get, gets. change (t_key_share (c_tls c1)) with (t_key_share (c_tls c)).
  assert (Hok : sh_ok retry (mk_sh sid retry None 0 None)) by (split_and!; try done; cbn; lia).
  pose proof (wp_server_hello_tail message Hb (on_extension ctx) (t_key_share (c_tls c)) (mk_sh sid retry None 0 None) src (length message) ltac:(lia) Hok) as Htail.
  destruct (server_hello_tail _ _ _ _ _ _) as [[sh psk]|code|]; [|apply Htail..]; cbn [lift ret].
  destruct Htail as ((Hretry & _ & Hr1 & _) & _ & _ & _ & Hpeer). cbn in Hretry.
  assert (Hpk : sh_peerkey sh <> None -> is_Some (t_key_share (c_tls c))) by (intros; by apply Hpeer).
  assert (Hpsk1 : t_is_psk_handshake (c_tls c1) = false) by done. assert (Hoff : t_offered_psk (c_tls c1) = t_offered_psk (c_tls c)) by done.
  destruct retry; cbn [negb when]; [cbn [ret]; by split_and!; [| |rewrite Hpsk1|rewrite Hretry]|].
  destruct (psk =? UINT16_MAX); cbn [negb when].
  - cbn [ret]. rewrite Hpsk1. unfold mguard. destruct (sh_peerkey sh) eqn:Epk; cbn [ret fail]; [|done].
    split_and!; [done | rewrite Epk; done | by rewrite Hpsk1 | by left; rewrite Epk].
  - rewrite Hoff. unfold mguard. destruct (t_offered_psk (c_tls c)) eqn:Eoff; cbn [ret fail]; [|done]. destruct (psk =? 0); cbn [ret fail]; [|done].
    set (c2 := c1 <| c_tls := (c_tls c1) <| t_is_psk_handshake := true |> |>). change (t_is_psk_handshake (c_tls c2)) with true.
    assert (Hany : match sh_peerkey sh with Some _ => true | None => true end = true) by (by destruct (sh_peerkey sh)). rewrite Hany. cbn [ret].
    split_and!; [exact Hcs | done | done | by right].
Qed.
