(* ===== verification/CertCompress.v ===== *)
(** * CertCompress: compressed certificates

    [src/lib/certificate_compression.c]: the server compresses its certificate chain
    once, with and without an OCSP response, and emits one of the two to clients that
    know brotli; the client decompresses. Brotli is a parameter with its law.

    Main result: whatever the client supports, the handler of the message the server
    emits sees exactly the chain of the server ([certificate_delivery]). *)
From S2P Require Import Prelude Constants Wire Monad Messages Context Handshake Client.

Definition PTLS_CERTIFICATE_COMPRESSION_ALGORITHM_GZIP : Z := 1.
Definition PTLS_CERTIFICATE_COMPRESSION_ALGORITHM_BROTLI : Z := 2.

(** brotli's one-shot functions: the input and the capacity of the output; [None] when
    the result is not [BROTLI_DECODER_RESULT_SUCCESS] or [BROTLI_TRUE]. *)
Class Brotli := {
  BrotliDecoderDecompress : bytes -> nat -> option bytes;
  BrotliEncoderCompress : bytes -> nat -> option bytes
}.
Class BrotliLaws (B : Brotli) : Prop := {
  brotli_fits x n y : BrotliEncoderCompress x n = Some y -> (length y <= n)%nat;
  brotli_inverts x n y m : BrotliEncoderCompress x n = Some y -> (length x <= m)%nat -> BrotliDecoderDecompress y m = Some x
}.

(** Whether the [malloc] for [n] octets returns memory. *)
Class Malloc := malloc : nat -> bool.

Record st_ptls_compressed_certificate_entry_t := mk_ccentry { uncompressed_length : Z; cc_bytes : bytes }.
Record ptls_emit_compressed_certificate_t := mk_ecc {
  ecc_algo : Z;
  with_ocsp_status : st_ptls_compressed_certificate_entry_t;
  without_ocsp_status : st_ptls_compressed_certificate_entry_t
}.
Definition empty_entry : st_ptls_compressed_certificate_entry_t := mk_ccentry 0 [].

Section Compression.
Context `{B : Brotli, Malloc}.

(** The output buffer has [output_len] octets; the [PTLS_ALERT_BAD_CERTIFICATE] of
    [Fail] is the only error. *)
Definition decompress_brotli (algorithm output_len : Z) (input : bytes) : Z + bytes :=
  if negb (algorithm =? PTLS_CERTIFICATE_COMPRESSION_ALGORITHM_BROTLI) then inl PTLS_ALERT_BAD_CERTIFICATE
  else
    match BrotliDecoderDecompress input (Z.to_nat output_len) with
    | None => inl PTLS_ALERT_BAD_CERTIFICATE
    | Some output =>
        if negb (Z.of_nat (length output) =? output_len) then inl PTLS_ALERT_BAD_CERTIFICATE else inr output
    end.

(** The array is terminated by [UINT16_MAX] in C. *)
Definition algorithms : list Z := [PTLS_CERTIFICATE_COMPRESSION_ALGORITHM_BROTLI].
Definition ptls_decompress_certificate : ptls_decompress_certificate_t := mk_decomp algorithms decompress_brotli.

(** The type and the body of the message that is pushed, or a code. *)
Definition emit_compressed_certificate (self : ptls_emit_compressed_certificate_t) (context : bytes) (push_status_request : bool)
    (compress_algos : list Z) : res (Z + (Z * bytes)) :=
  let! _ := c_assert (length context =? 0)%nat in
  if existsb (Z.eqb PTLS_CERTIFICATE_COMPRESSION_ALGORITHM_BROTLI) compress_algos then
    let entry := if push_status_request && negb (uncompressed_length (with_ocsp_status self) =? 0)
                 then with_ocsp_status self else without_ocsp_status self in
    Ok (inr (PTLS_HANDSHAKE_TYPE_COMPRESSED_CERTIFICATE,
             push16 PTLS_CERTIFICATE_COMPRESSION_ALGORITHM_BROTLI ++ push24 (uncompressed_length entry) ++ push_block 3 (cc_bytes entry)))
  else Ok (inl PTLS_ERROR_DELEGATE).

Definition build_compressed (certificates : list bytes) (ocsp_status : bytes) : res st_ptls_compressed_certificate_entry_t :=
  let uncompressed := ptls_build_certificate_message [] certificates ocsp_status in
  let capacity := (length uncompressed - 1)%nat in
  if malloc capacity then
    match BrotliEncoderCompress uncompressed capacity with
    | Some compressed => Ok (mk_ccentry (u32 (Z.of_nat (length uncompressed))) compressed)
    | None => Err PTLS_ERROR_COMPRESSION_FAILURE
    end
  else Err PTLS_ERROR_NO_MEMORY.

Definition ptls_init_compressed_certificate (certificates : list bytes) (ocsp_status : bytes) : res ptls_emit_compressed_certificate_t :=
  let! without_ocsp := build_compressed certificates [] in
  let! with_ocsp :=
    if negb (length ocsp_status =? 0)%nat then build_compressed certificates ocsp_status else Ok empty_entry in
  Ok (mk_ecc PTLS_CERTIFICATE_COMPRESSION_ALGORITHM_BROTLI with_ocsp without_ocsp).

(** ** Properties *)

(** What a client does once it has the certificates of the message. *)
Definition verify_chain (ctx : ptls_context_t) (certs : list bytes) : MC unit :=
  match verify_certificate ctx with
  | Some cb =>
      when (negb (length certs =? 0)%nat)
        (do! verifier := lift_sum (cb certs) in
         log (EvCertificates certs) ;;;
         tls-> t_certificate_verify := verifier)
  | None => ret tt
  end.
Definition certificates_received (ctx : ptls_context_t) (certs : list bytes) (message : bytes) : MC Z :=
  verify_chain ctx certs ;;;
  mguard (negb (length certs =? 0)%nat) PTLS_ALERT_ILLEGAL_PARAMETER ;;;
  update_hash message ;;;
  tls-> t_state := PTLS_STATE_CLIENT_EXPECT_CERTIFICATE_VERIFY ;;;
  ret PTLS_ERROR_IN_PROGRESS.

(** Chains that both sides can handle: 16 certificates, and 64 KB for the message. *)
Record deliverable (certs : list bytes) (ocsp : bytes) : Prop := {
  few_certificates : (length certs <= 16)%nat;
  short_ocsp : Z.of_nat (length ocsp) < 2 ^ 15;
  short_message : Z.of_nat (length (ptls_build_certificate_message [] certs ocsp)) <= 65536
}.

Lemma push_certificates_bound certs first ocsp :
  (length (push_certificates first certs []) <= length (push_certificates first certs ocsp))%nat /\
  Forall (fun c => (length c <= length (push_certificates first certs ocsp))%nat) certs.
Proof.
  revert first. induction certs as [|cert certs IH]; intros first; cbn [push_certificates]; [done|].
  destruct (IH false) as [IH1 IH2]. cbn [length Nat.eqb negb]. rewrite andb_false_r, !length_app, !length_push_block. cbn [length]. split; [lia|].
  constructor; [lia|]. eapply List.Forall_impl; [|exact IH2]. cbn. intros. lia.
Qed.

Lemma message_length certs ocsp : length (ptls_build_certificate_message [] certs ocsp) = (4 + length (push_certificates true certs ocsp))%nat.
Proof. unfold ptls_build_certificate_message. rewrite length_app, !length_push_block. reflexivity. Qed.

Lemma deliverable_plain certs ocsp : deliverable certs ocsp -> deliverable certs [].
Proof.
  intros [H1 H2 H3]. rewrite message_length in H3. pose proof (push_certificates_bound certs true ocsp) as [Hle _].
  constructor; [done | done | rewrite message_length; lia].
Qed.

(** The chain is read back wherever the message lies. *)
Lemma deliverable_decoded pre cb certs ocsp :
  deliverable certs ocsp -> accepts_status cb ocsp ->
  let mem := pre ++ ptls_build_certificate_message [] certs ocsp in
  decode_certificates mem cb (length pre) (length mem) = Ok certs.
Proof.
  intros [H1 H2 H3] Hacc. rewrite message_length in H3. pose proof (push_certificates_bound certs true ocsp) as [_ Hall].
  apply certificate_message_roundtrip; [done | done | | done | lia]. eapply List.Forall_impl; [|exact Hall]. cbn. intros. lia.
Qed.

Lemma handle_decoded ctx certs mem src e message c :
  decode_certificates mem (on_extension ctx) src e = Ok certs ->
  (client_do_handle_certificate ctx mem src e ;;; update_hash message ;;;
   tls-> t_state := PTLS_STATE_CLIENT_EXPECT_CERTIFICATE_VERIFY ;;; ret PTLS_ERROR_IN_PROGRESS) c = certificates_received ctx certs message c.
Proof.
  intros E. assert (Hh : handle_certificate ctx mem src e = (verify_chain ctx certs ;;; ret (negb (length certs =? 0)%nat))).
  { unfold handle_certificate. by rewrite E. }
  unfold client_do_handle_certificate, certificates_received. rewrite Hh.
  unfold bind, ret. by destruct (verify_chain ctx certs c) as [[] s| |].
Qed.
Context `{!BrotliLaws B}.

(** What a successful [build_compressed] guarantees for the decompression callback. *)
Lemma build_compressed_spec certs ocsp entry :
  build_compressed certs ocsp = Ok entry -> deliverable certs ocsp ->
  let plain := ptls_build_certificate_message [] certs ocsp in
  uncompressed_length entry = Z.of_nat (length plain) /\ (length (cc_bytes entry) < length plain)%nat /\
  decompress_brotli PTLS_CERTIFICATE_COMPRESSION_ALGORITHM_BROTLI (uncompressed_length entry) (cc_bytes entry) = inr plain.
Proof.
  intros Hb [_ _ Hs] plain. unfold build_compressed in Hb. fold plain in Hb, Hs. destruct (malloc _); [|done].
  destruct (BrotliEncoderCompress plain _) as [y|] eqn:E; [|done]. assert (Hu : u32 (Z.of_nat (length plain)) = Z.of_nat (length plain)) by (apply Z.mod_small; lia).
  rewrite Hu in Hb. assert (entry = mk_ccentry (Z.of_nat (length plain)) y) as -> by congruence. cbn [uncompressed_length cc_bytes].
  assert (Hpos : (0 < length plain)%nat) by (unfold plain; rewrite message_length; lia).
  pose proof (brotli_fits _ _ _ E). split; [done|]. split; [lia|].
  unfold decompress_brotli. rewrite Z.eqb_refl, Nat2Z.id, (brotli_inverts _ _ _ _ E) by lia. cbn [negb]. by rewrite Z.eqb_refl.
Qed.

Lemma compressed_handled ctx certs ocsp entry c :
  build_compressed certs ocsp = Ok entry -> deliverable certs ocsp ->
  decompress_certificate ctx = Some ptls_decompress_certificate -> accepts_status (on_extension ctx) ocsp ->
  let message := message_body PTLS_HANDSHAKE_TYPE_COMPRESSED_CERTIFICATE
    (push16 PTLS_CERTIFICATE_COMPRESSION_ALGORITHM_BROTLI ++ push24 (uncompressed_length entry) ++ push_block 3 (cc_bytes entry)) in
  client_handle_compressed_certificate ctx message c = certificates_received ctx certs message c.
Proof.
  intros Hb Hd Hdc Hext message. destruct (build_compressed_spec certs ocsp entry Hb Hd) as (Hlen & Hshort & Hdec).
  pose proof (short_message _ _ Hd) as Hs. set (plain := ptls_build_certificate_message [] certs ocsp) in *.
  pose proof (deliverable_decoded [] (on_extension ctx) certs ocsp Hd Hext) as Hc. cbn [app length] in Hc. fold plain in Hc.
  assert (Hat : at_mem message 4 (push16 PTLS_CERTIFICATE_COMPRESSION_ALGORITHM_BROTLI ++ push24 (uncompressed_length entry) ++ push_block 3 (cc_bytes entry))).
  { set (body := push16 _ ++ _). pose proof (at_mem_intro (u8 PTLS_HANDSHAKE_TYPE_COMPRESSED_CERTIFICATE :: be 3 (Z.of_nat (length body))) body []) as Hi.
    rewrite app_nil_r in Hi. exact Hi. }
  apply at_mem_app in Hat as [H1 Hat]. apply at_mem_app in Hat as [H2 H3].
  change (4 + length (push16 _))%nat with 6%nat in H2. change (6 + length (push24 _))%nat with 9%nat in H3.
  assert (Hml : length message = (9 + 3 + length (cc_bytes entry))%nat) by done.
  unfold client_handle_compressed_certificate. rewrite Hdc. change PTLS_HANDSHAKE_HEADER_SIZE with 4%nat.
  rewrite (decode16_at message 4 _ _ H1) by lia. cbn [res_bind Nat.add]. rewrite (decode24_push message 6 _ _ H2) by lia. cbn [res_bind Nat.add]. unfold u24. rewrite Z.mod_small by lia.
  rewrite (proj2 (Z.leb_le _ _)) by lia. cbn [guard res_bind]. rewrite Hml. change 3 with (Z.of_nat 3) at 1.
  rewrite (block_at message 9 3 (cc_bytes entry) _ plain H3); [| lia | lia |].
  - cbn [res_bind lift]. by apply handle_decoded.
  - pose proof H3 as Hb3. unfold push_block in Hb3. apply at_mem_app in Hb3 as [_ Hb3]. rewrite length_be in Hb3.
    change (4 + length (push16 _) + length (push24 _) + 3)%nat with (9 + 3)%nat in Hb3. rewrite (at_mem_slice message _ _ Hb3).
    change (u16 PTLS_CERTIFICATE_COMPRESSION_ALGORITHM_BROTLI) with PTLS_CERTIFICATE_COMPRESSION_ALGORITHM_BROTLI.
    cbn [dc_cb ptls_decompress_certificate]. rewrite Hdec, Hlen, Nat2Z.id. by rewrite firstn_all.
Qed.

Lemma accepts_no_status cb : accepts_status cb [].
Proof. by intros H0. Qed.

Lemma plain_handled ctx certs c :
  deliverable certs [] ->
  let message := message_body PTLS_HANDSHAKE_TYPE_CERTIFICATE (ptls_build_certificate_message [] certs []) in
  client_handle_certificate ctx message c = certificates_received ctx certs message c.
Proof.
  intros Hd message. unfold client_handle_certificate. apply handle_decoded.
  exact (deliverable_decoded (u8 PTLS_HANDSHAKE_TYPE_CERTIFICATE :: be 3 (Z.of_nat (length (ptls_build_certificate_message [] certs [])))) _ certs [] Hd (accepts_no_status _)).
Qed.

(** The body of the message that carries [plain]: itself, or a brotli stream the client's callback turns into it. *)
Definition carries (brotli : bool) (body plain : bytes) : Prop :=
  if brotli then
    exists compressed, body = push16 PTLS_CERTIFICATE_COMPRESSION_ALGORITHM_BROTLI ++ push24 (Z.of_nat (length plain)) ++ push_block 3 compressed /\
      decompress_brotli PTLS_CERTIFICATE_COMPRESSION_ALGORITHM_BROTLI (Z.of_nat (length plain)) compressed = inr plain
  else body = plain.

Lemma compressed_delivered cctx certs ocsp entry c' :
  build_compressed certs ocsp = Ok entry -> deliverable certs ocsp ->
  decompress_certificate cctx = Some ptls_decompress_certificate -> accepts_status (on_extension cctx) ocsp ->
  let body := push16 PTLS_CERTIFICATE_COMPRESSION_ALGORITHM_BROTLI ++ push24 (uncompressed_length entry) ++ push_block 3 (cc_bytes entry) in
  let message := message_body PTLS_HANDSHAKE_TYPE_COMPRESSED_CERTIFICATE body in
  carries true body (ptls_build_certificate_message [] certs ocsp) /\
  client_handle_compressed_certificate cctx message c' = certificates_received cctx certs message c'.
Proof.
  intros Hb Hd Hdc Hacc body message. split; [|by apply (compressed_handled _ _ ocsp)].
  destruct (build_compressed_spec certs ocsp entry Hb Hd) as (Hlen & _ & Hdec). exists (cc_bytes entry). unfold body. rewrite Hlen in *. done.
Qed.

(** C32: certificates are delivered, compressed or not.  For a server that prepared its
    chain with [ptls_init_compressed_certificate] (at most 16 certificates and 64 KB, an
    OCSP response below 32 KB), the message it emits is a CompressedCertificate exactly when the
    client offers brotli, and carries the chain, with the OCSP response exactly when it
    is compressed, the client asks for one and the server has one.  It makes a
    client with [ptls_decompress_certificate] whose application accepts the extension
    of the OCSP response go on with exactly this chain. *)
Theorem certificate_delivery certs ocsp self sctx cb cctx status algos c c' :
  ptls_init_compressed_certificate certs ocsp = Ok self -> deliverable certs ocsp ->
  certificates sctx = certs -> emit_certificate sctx = Some cb ->
  (forall status algos, emit_compressed_certificate self [] status algos = Ok (cb [] status algos)) ->
  decompress_certificate cctx = Some ptls_decompress_certificate -> accepts_status (on_extension cctx) ocsp ->
  let brotli := existsb (Z.eqb PTLS_CERTIFICATE_COMPRESSION_ALGORITHM_BROTLI) algos in
  let type := if brotli then PTLS_HANDSHAKE_TYPE_COMPRESSED_CERTIFICATE else PTLS_HANDSHAKE_TYPE_CERTIFICATE in
  exists body, certificate_message sctx [] status algos c = Done (type, body) c /\
    carries brotli body (ptls_build_certificate_message [] certs (if brotli && status then ocsp else [])) /\
    let message := message_body type body in
    (if brotli then client_handle_compressed_certificate cctx message else client_handle_certificate cctx message) c' =
    certificates_received cctx certs message c'.
Proof.
  intros Hi Hd Hcerts Hcb Hemit Hdc Hacc brotli type. unfold certificate_message. rewrite Hcb, Hcerts.
  specialize (Hemit status algos). unfold emit_compressed_certificate in Hemit. cbn [length Nat.eqb c_assert res_bind] in Hemit. fold brotli in Hemit.
  pose proof (deliverable_plain _ _ Hd) as Hd0.
  unfold ptls_init_compressed_certificate in Hi. destruct (build_compressed certs []) as [plain| |] eqn:E1; [|done..]. cbn [res_bind] in Hi.
  destruct brotli; injection Hemit as <-; [|eexists; split; [reflexivity|]; split; [done | by apply plain_handled]].
  eexists. split; [reflexivity|]. cbn [andb]. destruct ocsp as [|o ocsp]; cbn [length Nat.eqb negb] in Hi.
  - injection Hi as <-. cbn [with_ocsp_status without_ocsp_status uncompressed_length empty_entry Z.eqb negb]. rewrite andb_false_r.
    replace (if status then [] else []) with (@nil Z) by (by destruct status). apply compressed_delivered; auto using accepts_no_status.
  - destruct (build_compressed certs (o :: ocsp)) as [stapled| |] eqn:E2; [|done..]. injection Hi as <-. cbn [with_ocsp_status without_ocsp_status].
    destruct (build_compressed_spec _ _ _ E2 Hd) as (Hlen & _ & _). rewrite message_length in Hlen.
    destruct (Z.eqb_spec (uncompressed_length stapled) 0); [lia|]. cbn [negb]. rewrite andb_true_r.
    destruct status; apply compressed_delivered; auto using accepts_no_status.
Qed.
End Compression.

(** ** A toy codec

    It drops the empty certificate context, which every such message starts with. *)
#[export] Instance toy_brotli : Brotli := {
  BrotliDecoderDecompress y m := if (S (length y) <=? m)%nat then Some (0 :: y) else None;
  BrotliEncoderCompress x n := match x with 0 :: t => if (length t <=? n)%nat then Some t else None | _ => None end
}.
#[export] Instance toy_brotli_laws : BrotliLaws toy_brotli.
Proof.
  assert (Hinv : forall x n y, BrotliEncoderCompress (Brotli := toy_brotli) x n = Some y -> x = 0 :: y /\ (length y <= n)%nat).
  { intros [|[] t] n y; cbn; try done. destruct (Nat.leb_spec (length t) n); [|done]. by intros [= ->]. }
  split; [by intros x n y [_ H]%Hinv|]. intros x n y m [-> _]%Hinv Hm.
  change (BrotliDecoderDecompress y m) with (if (S (length y) <=? m)%nat then Some (0 :: y) else None). by rewrite (proj2 (Nat.leb_le _ _)).
Qed.
#[export] Instance toy_malloc : Malloc := fun _ => true.
