(* ===== verification/Server.v ===== *)
(** * Server: the server side of the handshake

    [server_handle_hello] and the other handlers of [lib/picotls.c], with their
    dispatcher.  [server_handle_hello] is cut into the steps its comments
    announce; each is a definition, in the order of the code. *)
From S2P Require Import Prelude Constants Monad Wire Crypto Record KeySchedule Extensions Messages Hello Esni Context Handshake.

Section Server.
Context (ctx : ptls_context_t) (props : option ptls_handshake_properties_t).

(** ** Pre-shared keys *)

(** [strncmp(x, y, x.len) == 0], for a C string [y] (its NUL is not in the list). *)
Fixpoint strncmp_eq (x y : bytes) : bool :=
  match x, y with
  | [], _ => true
  | a :: _, [] => a =? 0
  | a :: x, b :: y => (a =? b) && strncmp_eq x y
  end.

(** [strncmp(x.base, y, x.len) == 0 && y[x.len] == '\0'] *)
Definition vec_is_string (x y : bytes) : res bool :=
  if strncmp_eq x y then let! b := rd (y ++ [0]) (length x) in Ok (b =? 0) else Ok false.

(** The octets up to the first NUL: what [strlen] sees. *)
Fixpoint c_string (l : bytes) : bytes :=
  match l with
  | [] => []
  | b :: l => if b =? 0 then [] else b :: c_string l
  end.

(** A 64-bit two's complement value. *)
Definition to_int64 (v : Z) : Z := let v := u64 v in if v <? 2 ^ 63 then v else v - 2 ^ 64.

(** The age of the ticket as the server and as the client see it, within 10
    seconds. *)
Definition early_data_age_ok (now issued_at obfuscated_ticket_age age_add : Z) : bool :=
  let delta := to_int64 (u64 (now - issued_at) - u32 (obfuscated_ticket_age - age_add)) in
  (if delta <? 0 then - delta else delta) <=? PTLS_EARLY_DATA_MAX_DELAY.

(** The server name of the ticket is the one of the connection. *)
Definition psk_server_name_ok (server_name : option bytes) (sid : session_identifier) : res bool :=
  match server_name with
  | Some name => if (length (sid_server_name sid) =? 0)%nat then Ok false else vec_is_string (sid_server_name sid) name
  | None => Ok (length (sid_server_name sid) =? 0)%nat
  end.

(** A ticket without a protocol fits every connection. *)
Definition psk_protocol_ok (protocol : option bytes) (sid : session_identifier) : res bool :=
  if (length (sid_negotiated_protocol sid) =? 0)%nat then Ok true
  else match protocol with
  | Some p => vec_is_string (sid_negotiated_protocol sid) p
  | None => Ok false
  end.

(** The search: the result is the index of the identity, its secret, and whether
    early data is acceptable.  [accept] carries [*accept_early_data] from one
    identity to the next. *)
Fixpoint find_psk (identities : list st_ptls_client_hello_psk_t) (psk_index : nat) (now : Z) (early_data_indication accept : bool)
    : MC (option (nat * bytes * bool)) :=
  match identities with
  | [] => ret None
  | identity :: rest =>
      let continue_ := find_psk rest (S psk_index) now early_data_indication in
      do! n := next_call in
      do! cb := deref (encrypt_ticket ctx) in
      let '(code, decbuf) := cb n false (psk_identity identity) in
      if negb ((code =? 0) || (code =? PTLS_ERROR_REJECT_EARLY_DATA)) then continue_ accept
      else
        match decode_session_identifier decbuf 0 (length decbuf) with
        | Stuck f => undefined f
        | Err _ => continue_ accept
        | Ok sid =>
            if negb ((sid_issued_at sid <=? now) && (u64 (now - sid_issued_at sid) <=? u64 (ticket_lifetime ctx * 1000)))
            then continue_ accept
            else
              let accept := early_data_indication && (code =? 0) &&
                            early_data_age_ok now (sid_issued_at sid) (psk_obfuscated_ticket_age identity) (sid_ticket_age_add sid) in
              do! server_name := tls_get t_server_name in
              do! name_ok := lift (psk_server_name_ok server_name sid) in
              if negb name_ok then continue_ accept
              else match find_kx (key_exchanges ctx) (sid_key_exchange_id sid) with
              | None => continue_ accept
              | Some kx =>
                  tls-> t_key_share := Some kx ;;;
                  do! cs := tls_deref t_cipher_suite in
                  if negb (sid_csid sid =? cs_id cs) then continue_ accept
                  else
                    do! protocol := tls_get t_negotiated_protocol in
                    do! protocol_ok := lift (psk_protocol_ok protocol sid) in
                    do! algo := sched_algo in
                    if protocol_ok && (length (sid_psk sid) =? digest_size algo)%nat && (length (psk_binder identity) =? digest_size algo)%nat
                    then ret (Some (psk_index, sid_psk sid, accept))
                    else continue_ accept
              end
        end
  end.

(** [ch_trunc] is the ClientHello up to the binders. *)
Definition try_psk_handshake (psk : client_hello_psk) (ch_trunc : bytes) : MC (option nat * bool) :=
  do! n := next_call in
  do! found := find_psk (psk_identities psk) 0 (get_time ctx n) (psk_early_data_indication psk) false in
  match found with
  | None =>
      tls-> t_key_share := None ;;;
      ret (None, false)
  | Some (psk_index, ticket_psk, accept_early_data) =>
      sched_upd (fun s => key_schedule_extract s (Some ticket_psk)) ;;;
      do! binder_key := sched_get (fun s => derive_secret s (str "res binder")) in
      update_hash ch_trunc ;;;
      do! verify_data := sched_get (fun s => calc_verify_data s binder_key) in
      do! algo := sched_algo in
      do! identity := deref (psk_identities psk !! psk_index) in
      do! equal := lift (ptls_mem_equal (psk_binder identity) verify_data (digest_size algo)) in
      mguard equal PTLS_ALERT_DECRYPT_ERROR ;;;
      ret (Some psk_index, accept_early_data)
  end.

(** ** Cookies *)

(** [UPDATE_BLOCK]: the length must be below [UINT8_MAX]. *)
Definition cookie_block (p : bytes) : res bytes :=
  let! _ := c_assert (Z.of_nat (length p) <? 255) in
  Ok ([u8 (Z.of_nat (length p))] ++ p).

Definition calc_cookie_signature (p : ptls_handshake_properties_t) (negotiated_group : ptls_key_exchange_algorithm_t) (tbs : bytes)
    : MC bytes :=
  do! first := deref (head (cipher_suites ctx)) in
  let algo := cs_hash first in
  do! key := deref (p_cookie_key p) in
  do! client_random := tls_get t_client_random in
  do! server_name := tls_get t_server_name in
  do! cs := tls_deref t_cipher_suite in
  lift (let! hctx := ptls_hmac_create algo (take (digest_size algo) key) in
        let! b1 := cookie_block client_random in
        let! b2 := cookie_block (default [] server_name) in
        let! b3 := cookie_block (p_cookie_additional_data p) in
        let! b4 := cookie_block tbs in
        let hctx := hmac_update (hmac_update (hmac_update hctx b1) b2) (push16 (cs_id cs)) in
        let hctx := hmac_update (hmac_update (hmac_update hctx (push16 (kx_id negotiated_group))) b3) b4 in
        let! '(sig, _) := hmac_final algo hctx true PTLS_HASH_FINAL_MODE_FREE in
        Ok sig).

(** ** Hello messages of the server *)

(** [EMIT_SERVER_HELLO] *)
Definition server_hello_body (random legacy_session_id : bytes) (csid selected_version : Z) (extensions : list (Z * bytes)) : bytes :=
  push16 0x0303 ++ random ++ push_block 1 legacy_session_id ++ push16 csid ++ [0] ++
  push_block 2 (ext_bytes ((PTLS_EXTENSION_TYPE_SUPPORTED_VERSIONS, push16 selected_version) :: extensions)).

(** [EMIT_HELLO_RETRY_REQUEST] *)
Definition hello_retry_request_body (ch : st_ptls_client_hello_t) (csid : Z) (negotiated_group : option ptls_key_exchange_algorithm_t)
    (additional_extensions : list (Z * bytes)) : bytes :=
  server_hello_body hello_retry_random (ch_legacy_session_id ch) csid (ch_selected_version ch)
    (match negotiated_group with Some g => [(PTLS_EXTENSION_TYPE_KEY_SHARE, push16 (kx_id g))] | None => [] end ++
     additional_extensions).

(** ** Steps of [server_handle_hello] *)

(** [decode_client_hello] *)
Definition server_decode_hello (message : bytes) : MC st_ptls_client_hello_t :=
  lift (decode_client_hello message
          (mk_hello_config (on_extension ctx) (cipher_suites ctx) (key_exchanges ctx)
             (match props with Some p => match p_cookie_key p with Some _ => true | None => false end | None => false end)
             (collect_extension props))
          ch_init PTLS_HANDSHAKE_HEADER_SIZE (length message)).

Definition call_on_client_hello (params : ptls_on_client_hello_parameters_t) : MC unit :=
  match on_client_hello ctx with
  | None => ret tt
  | Some cb =>
      let '(code, server_name, protocol) := cb params in
      log (EvClientHello params) ;;;
      match server_name with Some name => tls-> t_server_name := Some (c_string name) | None => ret tt end ;;;
      match protocol with Some p => tls-> t_negotiated_protocol := Some (c_string p) | None => ret tt end ;;;
      check_code code
  end.

(** A ClientHello that is not of TLS 1.3. *)
Definition server_check_version (is_second_flight : bool) (message : bytes) (ch : st_ptls_client_hello_t) : MC unit :=
  when (negb (is_supported_version (ch_selected_version ch)))
    (when (negb is_second_flight)
       (call_on_client_hello (mk_och (ch_server_name ch) message (ch_alpn ch) [] [] [] false true)) ;;;
     fail PTLS_ALERT_PROTOCOL_VERSION).

Definition server_check_hello (ch : st_ptls_client_hello_t) : MC unit :=
  mguard (negb (ch_legacy_version ch <=? 0x0300)) PTLS_ALERT_PROTOCOL_VERSION ;;;
  mguard (bool_decide (ch_compression_methods ch = [0])) PTLS_ALERT_ILLEGAL_PARAMETER ;;;
  mguard (match ch_esni ch, ch_key_shares ch with Some _, None => false | _, _ => true end) PTLS_ALERT_ILLEGAL_PARAMETER ;;;
  match psk_hash_end (ch_psk ch) with
  | Some _ => mguard (psk_is_last_extension (ch_psk ch)) PTLS_ALERT_ILLEGAL_PARAMETER
  | None => mguard (negb (psk_early_data_indication (ch_psk ch))) PTLS_ALERT_ILLEGAL_PARAMETER
  end.

(** [ch.psk.ke_modes], without the PSK-only mode if DHE is required. *)
Definition server_ke_modes (ch : st_ptls_client_hello_t) : Z :=
  if require_dhe_on_psk ctx then Z.land (psk_ke_modes (ch_psk ch)) (Z.lnot (Z.shiftl 1 PTLS_PSK_KE_MODE_PSK)) else psk_ke_modes (ch_psk ch).

(** The name of the server: decrypted, or in the clear. *)
Definition server_find_name (ch : st_ptls_client_hello_t) : MC (option bytes * bool) :=
  match ch_esni ch, ctx_esni ctx with
  | Some esni, Some esnis =>
      do! old := tls_get t_esni in
      massert (match old with None => true | Some _ => false end) ;;;
      do! x := lift (client_hello_decrypt_esni esnis esni (ch_random_bytes ch) (default [] (ch_key_shares ch))) in
      let '(name, secret) := x in
      tls-> t_esni := Some secret ;;;
      match update_esni_key ctx with
      | Some cb =>
          log (EvEsniKey (es_secret secret)) ;;;
          check_code (cb (es_secret secret) (cs_hash (esni_cipher esni)) (es_contents_hash secret))
      | None => ret tt
      end ;;;
      ret (Some name, true)
  | _, _ => ret (ch_server_name ch, false)
  end.

Definition server_handle_first_hello (message : bytes) (ch : st_ptls_client_hello_t) : MC unit :=
  tls-> t_client_random := ch_random_bytes ch ;;;
  when (negb (length (ch_legacy_session_id ch) =? 0)%nat) (tls-> t_send_change_cipher_spec := true) ;;;
  do! x := server_find_name ch in
  let '(server_name, is_esni) := x in
  call_on_client_hello (mk_och server_name message (ch_alpn ch) (ch_signature_algorithms ch) (ch_cert_compression_algos ch)
                          (ch_client_ciphers ch) is_esni false).

Definition server_check_second_hello (ch : st_ptls_client_hello_t) : MC unit :=
  mguard (negb (psk_early_data_indication (ch_psk ch))) PTLS_ALERT_DECODE_ERROR ;;;
  do! client_random := tls_get t_client_random in
  do! equal := lift (ptls_mem_equal client_random (ch_random_bytes ch) PTLS_HELLO_RANDOM_SIZE) in
  mguard equal PTLS_ALERT_HANDSHAKE_FAILURE ;;;
  do! server_name := tls_get t_server_name in
  match server_name with
  | Some name => mguard (bool_decide (default [] (ch_server_name ch) = name)) PTLS_ALERT_HANDSHAKE_FAILURE
  | None => ret tt
  end.

(** The comparison of suites on the second flight is one of pointers; suites of
    one context are told apart by their identifiers. *)
Definition server_select_cipher (is_second_flight : bool) (ch : st_ptls_client_hello_t) : MC unit :=
  do! cs := lift (select_cipher (ch_cipher_suites ch) (cipher_suites ctx) 0 (length (ch_cipher_suites ch))) in
  if negb is_second_flight then
    tls-> t_cipher_suite := Some cs ;;;
    tls-> t_key_schedule := Some (key_schedule_new (Some cs) None (hkdf_label_prefix__obsolete ctx))
  else
    do! old := tls_get t_cipher_suite in
    mguard (match old with Some old => cs_id old =? cs_id cs | None => false end) PTLS_ALERT_HANDSHAKE_FAILURE.

Definition server_select_key_share (ch : st_ptls_client_hello_t) : MC (option (ptls_key_exchange_algorithm_t * bytes)) :=
  match ch_key_shares ch with
  | None => ret None
  | Some key_shares =>
      do! x := lift (ptls_decode_block key_shares 0 (length key_shares) 2 (fun src end_ =>
        select_key_share key_shares (key_exchanges ctx) src end_ false)) in
      ret (fst x)
  end.

(** A valid cookie stands for the first flight: the transcript is rebuilt from
    it, with the HelloRetryRequest that was sent. *)
Definition server_restore_from_cookie (ch : st_ptls_client_hello_t) (key_share : ptls_key_exchange_algorithm_t) : MC unit :=
  let cookie := ch_cookie ch in
  do! p := deref props in
  do! first := deref (head (cipher_suites ctx)) in
  let sigsize := digest_size (cs_hash first) in
  do! sig := calc_cookie_signature p key_share (cookie_tbs cookie) in
  mguard (length (cookie_signature cookie) =? sigsize)%nat PTLS_ALERT_HANDSHAKE_FAILURE ;;;
  do! equal := lift (ptls_mem_equal (cookie_signature cookie) sig sigsize) in
  mguard equal PTLS_ALERT_HANDSHAKE_FAILURE ;;;
  sched_upd key_schedule_update_ch1hash_prefix ;;;
  update_hash (cookie_ch1_hash cookie) ;;;
  sched_upd (fun s => key_schedule_extract s None) ;;;
  do! cs := tls_deref t_cipher_suite in
  do! buf := gets c_buf in
  ptls_push_message true PTLS_HANDSHAKE_TYPE_SERVER_HELLO
    (hello_retry_request_body ch (cs_id cs) (if cookie_sent_key_share cookie then Some key_share else None)
       [(PTLS_EXTENSION_TYPE_COOKIE, default [] (cookie_all cookie))]) ;;;
  modify (fun c => c <| c_buf := buf |>).

(** The cookie: the hash of the first ClientHello and whether a key share was
    asked for, signed. *)
Definition server_build_cookie (p : ptls_handshake_properties_t) (has_key_share : bool) (negotiated_group : ptls_key_exchange_algorithm_t)
    : MC bytes :=
  do! cs := tls_deref t_cipher_suite in
  do! sched := tls_deref t_key_schedule in
  do! x := lift (key_schedule_extract_ch1hash sched) in
  tls-> t_key_schedule := Some (snd x) ;;;
  let tbs := push_block 2 (push_block 1 (take (digest_size (cs_hash cs)) (fst x)) ++ [if has_key_share then 0 else 1]) in
  do! sig := calc_cookie_signature p negotiated_group tbs in
  ret (push_block 2 (tbs ++ push_block 1 sig)).

(** The state of the first flight is kept in the connection. *)
Definition server_stateful_retry (ch : st_ptls_client_hello_t) (csid : Z) (group : option ptls_key_exchange_algorithm_t) : MC Z :=
  sched_upd key_schedule_transform_post_ch1hash ;;;
  sched_upd (fun s => key_schedule_extract s None) ;;;
  ptls_push_message true PTLS_HANDSHAKE_TYPE_SERVER_HELLO (hello_retry_request_body ch csid group []) ;;;
  push_change_cipher_spec ;;;
  tls-> t_state := PTLS_STATE_SERVER_EXPECT_SECOND_CLIENT_HELLO ;;;
  when (psk_early_data_indication (ch_psk ch)) (tls-> t_early_data_skipped_bytes := 0) ;;;
  ret PTLS_ERROR_IN_PROGRESS.

Definition server_send_retry (message : bytes) (ch : st_ptls_client_hello_t) (has_key_share : bool) : MC Z :=
  match ch_negotiated_groups ch with
  | None => fail PTLS_ALERT_MISSING_EXTENSION
  | Some groups =>
      do! negotiated_group := lift (select_negotiated_group groups (key_exchanges ctx) 0 (length groups)) in
      update_hash message ;;;
      do! sched := tls_deref t_key_schedule in
      massert (generation sched =? 0) ;;;
      do! cs := tls_deref t_cipher_suite in
      let group := if has_key_share then None else Some negotiated_group in
      match props with
      | Some p =>
          if p_retry_uses_cookie p then
            do! cookie := server_build_cookie p has_key_share negotiated_group in
            ptls_push_message false PTLS_HANDSHAKE_TYPE_SERVER_HELLO
              (hello_retry_request_body ch (cs_id cs) group [(PTLS_EXTENSION_TYPE_COOKIE, cookie)]) ;;;
            push_change_cipher_spec ;;;
            fail PTLS_ERROR_STATELESS_RETRY
          else server_stateful_retry ch (cs_id cs) group
      | None => server_stateful_retry ch (cs_id cs) group
      end
  end.

(** ** Modes *)

Inductive handshake_mode := HANDSHAKE_MODE_FULL | HANDSHAKE_MODE_PSK | HANDSHAKE_MODE_PSK_DHE.

Definition is_full (mode : handshake_mode) : bool := match mode with HANDSHAKE_MODE_FULL => true | _ => false end.
Definition uses_dhe (mode : handshake_mode) : bool := match mode with HANDSHAKE_MODE_PSK => false | _ => true end.
Definition has_mode (ke_modes mode : Z) : bool := negb (Z.land ke_modes (Z.shiftl 1 mode) =? 0).

Definition server_try_psk (is_second_flight : bool) (message : bytes) (ch : st_ptls_client_hello_t) : MC (option nat * bool) :=
  match psk_hash_end (ch_psk ch) with
  | Some hash_end =>
      if negb is_second_flight &&
         (has_mode (server_ke_modes ch) PTLS_PSK_KE_MODE_PSK || has_mode (server_ke_modes ch) PTLS_PSK_KE_MODE_PSK_DHE) &&
         match encrypt_ticket ctx with Some _ => true | None => false end && negb (require_client_authentication ctx)
      then try_psk_handshake (ch_psk ch) (slice message 0 hash_end)
      else ret (None, false)
  | None => ret (None, false)
  end.

(** The transcript gets (the rest of) the ClientHello. *)
Definition server_select_mode (is_second_flight : bool) (message : bytes) (ch : st_ptls_client_hello_t) (psk_index : option nat)
    : MC handshake_mode :=
  match psk_index, require_client_authentication ctx with
  | Some psk_index, false =>
      do! hash_end := deref (psk_hash_end (ch_psk ch)) in
      update_hash (slice message hash_end (length message)) ;;;
      do! mode :=
        (if has_mode (server_ke_modes ch) PTLS_PSK_KE_MODE_PSK then ret HANDSHAKE_MODE_PSK
         else massert (has_mode (server_ke_modes ch) PTLS_PSK_KE_MODE_PSK_DHE) ;;; ret HANDSHAKE_MODE_PSK_DHE) in
      tls-> t_is_psk_handshake := true ;;;
      match props with
      | Some _ =>
          do! identity := deref (psk_identities (ch_psk ch) !! psk_index) in
          modify (fun c => c <| c_selected_psk_binder := psk_binder identity |>)
      | None => ret tt
      end ;;;
      ret mode
  | _, _ =>
      update_hash message ;;;
      when (negb is_second_flight)
        (do! sched := tls_deref t_key_schedule in
         massert (generation sched =? 0) ;;;
         sched_upd (fun s => key_schedule_extract s None)) ;;;
      match props with Some _ => modify (fun c => c <| c_selected_psk_binder := [] |>) | None => ret tt end ;;;
      ret HANDSHAKE_MODE_FULL
  end.

(** Early data is accepted for the first identity only. *)
Definition server_accept_early_data (accept_early_data : bool) (psk_index : option nat) : MC unit :=
  when (accept_early_data && negb (max_early_data_size ctx =? 0) && match psk_index with Some O => true | _ => false end)
    (tls-> t_pending_handshake_secret := Some (replicate PTLS_MAX_DIGEST_SIZE 0) ;;;
     derive_exporter_secret ctx true ;;;
     setup_traffic_protection ctx false (Some (str "c e traffic")) 1 false).

(** The public key and the shared secret. *)
Definition server_run_key_exchange (mode : handshake_mode) (ch : st_ptls_client_hello_t)
    (key_share : option (ptls_key_exchange_algorithm_t * bytes)) : MC (option (Z * bytes * bytes)) :=
  if negb (uses_dhe mode) then ret None
  else match key_share with
  | None => fail (match ch_key_shares ch with Some _ => PTLS_ALERT_HANDSHAKE_FAILURE | None => PTLS_ALERT_MISSING_EXTENSION end)
  | Some (kx, peer_key) =>
      do! n := next_call in
      do! x := lift_sum (kx_exchange kx n peer_key) in
      tls-> t_key_share := Some kx ;;;
      ret (Some (kx_id kx, fst x, snd x))
  end.

(** ** The flight of the server *)

Definition server_send_hello (mode : handshake_mode) (ch : st_ptls_client_hello_t) (psk_index : option nat)
    (exchanged : option (Z * bytes * bytes)) : MC unit :=
  do! n := next_call in
  do! cs := tls_deref t_cipher_suite in
  ptls_push_message true PTLS_HANDSHAKE_TYPE_SERVER_HELLO
    (server_hello_body (random_bytes ctx n PTLS_HELLO_RANDOM_SIZE) (ch_legacy_session_id ch) (cs_id cs) (ch_selected_version ch)
       (match exchanged with
        | Some (group, pubkey, _) => [(PTLS_EXTENSION_TYPE_KEY_SHARE, push16 group ++ push_block 2 pubkey)]
        | None => []
        end ++
        (if is_full mode then []
         else [(PTLS_EXTENSION_TYPE_PRE_SHARED_KEY, push16 (match psk_index with Some i => Z.of_nat i | None => SIZE_MAX end))]))) ;;;
  push_change_cipher_spec.

Definition server_setup_handshake_keys (ch : st_ptls_client_hello_t) (ecdh_secret : option bytes) : MC unit :=
  do! sched := tls_deref t_key_schedule in
  massert (generation sched =? 1) ;;;
  sched_upd (fun s => key_schedule_extract s ecdh_secret) ;;;
  setup_traffic_protection ctx true (Some (str "s hs traffic")) 2 false ;;;
  do! pending := tls_get t_pending_handshake_secret in
  match pending with
  | Some pending =>
      do! secret := sched_get (fun s => derive_secret s (str "c hs traffic")) in
      let pending := overwrite pending secret in
      tls-> t_pending_handshake_secret := Some pending ;;;
      match ctx_update_traffic_key ctx with
      | Some cb => log (EvTrafficKey false 2 pending) ;;; check_code (cb false 2%nat pending)
      | None => ret tt
      end
  | None =>
      setup_traffic_protection ctx false (Some (str "c hs traffic")) 2 false ;;;
      when (psk_early_data_indication (ch_psk ch)) (tls-> t_early_data_skipped_bytes := 0)
  end.

Definition server_send_encrypted_extensions : MC unit :=
  do! esni := tls_get t_esni in
  do! server_name := tls_get t_server_name in
  do! protocol := tls_get t_negotiated_protocol in
  do! pending := tls_get t_pending_handshake_secret in
  tls-> t_esni := None ;;;
  ptls_push_message true PTLS_HANDSHAKE_TYPE_ENCRYPTED_EXTENSIONS
    (push_block 2 (ext_bytes (
       match esni, server_name with
       | Some esni, _ => [(PTLS_EXTENSION_TYPE_ENCRYPTED_SERVER_NAME, [PTLS_ESNI_RESPONSE_TYPE_ACCEPT] ++ es_nonce esni)]
       | None, Some _ => [(PTLS_EXTENSION_TYPE_SERVER_NAME, [])]
       | None, None => []
       end ++
       match protocol with Some p => [(PTLS_EXTENSION_TYPE_ALPN, push_block 2 (push_block 1 p))] | None => [] end ++
       match pending with Some _ => [(PTLS_EXTENSION_TYPE_EARLY_DATA, [])] | None => [] end ++
       default [] (match props with Some p => p_additional_extensions p | None => None end)))).

Definition server_send_certificates (mode : handshake_mode) (ch : st_ptls_client_hello_t) : MC unit :=
  when (is_full mode)
    (when (require_client_authentication ctx)
       (ptls_push_message true PTLS_HANDSHAKE_TYPE_CERTIFICATE_REQUEST
          ([0] ++ push_block 2 (buffer_push_extension PTLS_EXTENSION_TYPE_SIGNATURE_ALGORITHMS push_signature_algorithms))) ;;;
     send_certificate_and_certificate_verify ctx (ch_signature_algorithms ch) [] PTLS_SERVER_CERTIFICATE_VERIFY_CONTEXT_STRING
       (ch_status_request ch) (ch_cert_compression_algos ch)).

(** The keys for application data: the write key is in place after the server's
    Finished, the read key waits for the client's. *)
Definition server_setup_application_keys : MC unit :=
  do! sched := tls_deref t_key_schedule in
  massert (generation sched =? 2) ;;;
  sched_upd (fun s => key_schedule_extract s None) ;;;
  setup_traffic_protection ctx true (Some (str "s ap traffic")) 3 false ;;;
  do! secret := sched_get (fun s => derive_secret s (str "c ap traffic")) in
  do! old := tls_get t_pending_traffic_secret in
  tls-> t_pending_traffic_secret := overwrite old secret ;;;
  derive_exporter_secret ctx false.

Definition server_next_state : MC unit :=
  do! pending := tls_get t_pending_handshake_secret in
  match pending with
  | Some _ =>
      if omit_end_of_early_data ctx then
        commission_handshake_secret ctx ;;;
        tls-> t_state := PTLS_STATE_SERVER_EXPECT_FINISHED
      else tls-> t_state := PTLS_STATE_SERVER_EXPECT_END_OF_EARLY_DATA
  | None =>
      tls-> t_state := (if require_client_authentication ctx then PTLS_STATE_SERVER_EXPECT_CERTIFICATE else PTLS_STATE_SERVER_EXPECT_FINISHED)
  end.

(** From the unknown extensions to the end. *)
Definition server_complete_hello (is_second_flight : bool) (message : bytes) (ch : st_ptls_client_hello_t)
    (key_share : option (ptls_key_exchange_algorithm_t * bytes)) : MC Z :=
  report_unknown_extensions props (ch_unknown_extensions ch) ;;;
  do! psk := server_try_psk is_second_flight message ch in
  let '(psk_index, accept_early_data) := psk in
  do! mode := server_select_mode is_second_flight message ch psk_index in
  server_accept_early_data accept_early_data psk_index ;;;
  do! exchanged := server_run_key_exchange mode ch key_share in
  server_send_hello mode ch psk_index exchanged ;;;
  server_setup_handshake_keys ch (match exchanged with Some (_, _, secret) => Some secret | None => None end) ;;;
  server_send_encrypted_extensions ;;;
  server_send_certificates mode ch ;;;
  send_finished ;;;
  server_setup_application_keys ;;;
  server_next_state ;;;
  when (negb (server_ke_modes ch =? 0) && negb (ticket_lifetime ctx =? 0)) (send_session_ticket ctx) ;;;
  ret (if require_client_authentication ctx then PTLS_ERROR_IN_PROGRESS else 0).

Definition server_handle_hello (message : bytes) : MC Z :=
  do! state := tls_get t_state in
  let is_second_flight := bool_decide (state = PTLS_STATE_SERVER_EXPECT_SECOND_CLIENT_HELLO) in
  do! ch := server_decode_hello message in
  server_check_version is_second_flight message ch ;;;
  server_check_hello ch ;;;
  (if negb is_second_flight then server_handle_first_hello message ch else server_check_second_hello ch) ;;;
  server_select_cipher is_second_flight ch ;;;
  do! key_share := server_select_key_share ch in
  let enforce_retry := match props with Some p => p_enforce_retry p | None => false end in
  let has_cookie := match cookie_all (ch_cookie ch) with Some c => negb (length c =? 0)%nat | None => false end in
  match is_second_flight, has_cookie, key_share with
  | true, _, _ => server_complete_hello true message ch key_share
  | false, true, Some (kx, _) =>
      server_restore_from_cookie ch kx ;;;
      server_complete_hello true message ch key_share
  | false, _, None => server_send_retry message ch false
  | false, false, Some _ => if enforce_retry then server_send_retry message ch true else server_complete_hello false message ch key_share
  end.

(** ** The other messages *)

Definition server_handle_certificate (message : bytes) : MC Z :=
  do! got_certs := handle_certificate ctx message PTLS_HANDSHAKE_HEADER_SIZE (length message) in
  mguard got_certs PTLS_ALERT_CERTIFICATE_REQUIRED ;;;
  update_hash message ;;;
  tls-> t_state := PTLS_STATE_SERVER_EXPECT_CERTIFICATE_VERIFY ;;;
  ret PTLS_ERROR_IN_PROGRESS.

Definition server_handle_certificate_verify (message : bytes) : MC Z :=
  handle_certificate_verify message PTLS_CLIENT_CERTIFICATE_VERIFY_CONTEXT_STRING ;;;
  tls-> t_state := PTLS_STATE_SERVER_EXPECT_FINISHED ;;;
  ret PTLS_ERROR_IN_PROGRESS.

Definition server_handle_end_of_early_data (message : bytes) : MC Z :=
  commission_handshake_secret ctx ;;;
  update_hash message ;;;
  tls-> t_state := PTLS_STATE_SERVER_EXPECT_FINISHED ;;;
  ret PTLS_ERROR_IN_PROGRESS.

Definition server_handle_finished (message : bytes) : MC Z :=
  verify_finished message ;;;
  do! dec := tls_get t_dec in
  do! pending := tls_get t_pending_traffic_secret in
  tls-> t_dec := dec <| tp_secret := pending |> ;;;
  tls-> t_pending_traffic_secret := replicate PTLS_MAX_DIGEST_SIZE 0 ;;;
  setup_traffic_protection ctx false None 3 false ;;;
  update_hash message ;;;
  tls-> t_state := PTLS_STATE_SERVER_POST_HANDSHAKE ;;;
  ret 0.

(** ** Dispatch *)

Definition handle_server_handshake_message (message : bytes) (is_end_of_record : bool) : MC Z :=
  do! type := lift (rd message 0) in
  do! state := tls_get t_state in
  match state with
  | PTLS_STATE_SERVER_EXPECT_CLIENT_HELLO
  | PTLS_STATE_SERVER_EXPECT_SECOND_CLIENT_HELLO =>
      if (type =? PTLS_HANDSHAKE_TYPE_CLIENT_HELLO) && is_end_of_record then server_handle_hello message
      else fail PTLS_ALERT_HANDSHAKE_FAILURE
  | PTLS_STATE_SERVER_EXPECT_CERTIFICATE =>
      if type =? PTLS_HANDSHAKE_TYPE_CERTIFICATE then server_handle_certificate message else fail PTLS_ALERT_UNEXPECTED_MESSAGE
  | PTLS_STATE_SERVER_EXPECT_CERTIFICATE_VERIFY =>
      if type =? PTLS_HANDSHAKE_TYPE_CERTIFICATE_VERIFY then server_handle_certificate_verify message
      else fail PTLS_ALERT_UNEXPECTED_MESSAGE
  | PTLS_STATE_SERVER_EXPECT_END_OF_EARLY_DATA =>
      massert (negb (omit_end_of_early_data ctx)) ;;;
      (if type =? PTLS_HANDSHAKE_TYPE_END_OF_EARLY_DATA then server_handle_end_of_early_data message
       else fail PTLS_ALERT_UNEXPECTED_MESSAGE)
  | PTLS_STATE_SERVER_EXPECT_FINISHED =>
      if (type =? PTLS_HANDSHAKE_TYPE_FINISHED) && is_end_of_record then server_handle_finished message
      else fail PTLS_ALERT_HANDSHAKE_FAILURE
  | PTLS_STATE_SERVER_POST_HANDSHAKE =>
      if type =? PTLS_HANDSHAKE_TYPE_KEY_UPDATE then handle_key_update ctx message ;;; ret 0
      else fail PTLS_ALERT_UNEXPECTED_MESSAGE
  | _ => undefined AssertFail
  end.
End Server.
