(* ===== verification/Api.v ===== *)
(** * Api: the functions the application calls

    Records in and out ([handle_handshake_record], [handle_input]), the entry
    points of [lib/picotls.c] on top of them ([ptls_handshake], [ptls_receive],
    [ptls_send], [ptls_handle_message], ...) and the creation of connections. *)
From S2P Require Import Prelude Constants Monad Wire Crypto Record KeySchedule Extensions Messages Hello Esni Context Handshake Client Server.

Definition state_lt (a b : en_ptls_state_t) : bool := (state_val a <? state_val b)%nat.
Definition state_le (a b : en_ptls_state_t) : bool := (state_val a <=? state_val b)%nat.

Section Api.
Context (is_ipaddr : bytes -> bool) (ctx : ptls_context_t) (props : option ptls_handshake_properties_t).

(** ** Handshake records *)

Definition message_buffer_is_overflow (size : nat) : bool :=
  if max_buffer_size ctx =? 0 then false else negb (Z.of_nat size <=? max_buffer_size ctx).

(** [while (src_end - src >= 4)]: the code of the last message and what is left of
    the input.  A message that fails discards the buffer. *)
Fixpoint handle_messages (fuel : nat) (cb : bytes -> bool -> MC Z) (ret_ : Z) (src : bytes) : MC (Z * bytes) :=
  if (length src <? 4)%nat then ret (ret_, src)
  else match fuel with
  | O => undefined OutOfFuel
  | S fuel =>
      do! size := lift (ntoh24 src 1) in
      let mess_len := (4 + Z.to_nat size)%nat in
      if (length src <? mess_len)%nat then ret (ret_, src)
      else
        do! code := code_of' (cb (take mess_len src) (length src =? mess_len)%nat) in
        if (code =? 0) || (code =? PTLS_ERROR_IN_PROGRESS) then handle_messages fuel cb code (drop mess_len src)
        else tls-> t_recvbuf_mess := None ;;; fail code
  end.

Definition handle_handshake_record (cb : bytes -> bool -> MC Z) (rec_type : Z) (fragment : bytes) : MC Z :=
  mguard (rec_type =? PTLS_CONTENT_TYPE_HANDSHAKE) PTLS_ALERT_DECODE_ERROR ;;;
  do! mess := tls_get t_recvbuf_mess in
  do! src :=
    match mess with
    | None => ret fragment
    | Some buf =>
        mguard (negb (message_buffer_is_overflow (length buf + length fragment))) PTLS_ALERT_HANDSHAKE_FAILURE ;;;
        tls-> t_recvbuf_mess := Some (buf ++ fragment) ;;;
        ret (buf ++ fragment)
    end in
  do! x := handle_messages (length src) cb PTLS_ERROR_IN_PROGRESS src in
  let '(code, src) := x in
  if negb (length src =? 0)%nat then
    mguard (negb (message_buffer_is_overflow (length src))) PTLS_ALERT_HANDSHAKE_FAILURE ;;;
    tls-> t_recvbuf_mess := Some src ;;;
    ret PTLS_ERROR_IN_PROGRESS
  else
    tls-> t_recvbuf_mess := None ;;;
    ret code.

Definition handle_message (message : bytes) (is_end_of_record : bool) : MC Z :=
  do! is_server := tls_get t_is_server in
  if is_server then handle_server_handshake_message ctx props message is_end_of_record
  else handle_client_handshake_message is_ipaddr ctx props message is_end_of_record.

(** ** Records *)

Definition handle_alert (fragment : bytes) : MC Z :=
  match fragment with
  | [_; desc] => fail (PTLS_ALERT_TO_PEER_ERROR desc)
  | _ => fail PTLS_ALERT_DECODE_ERROR
  end.

(** [NextRecord:] *)
Definition next_record_ {A} (m : MC A) : MC A := mfinally m (tls-> t_recvbuf_rec := None).

(** Early data the server did not accept is skipped, up to a limit. *)
Definition server_skip_early_data (length : nat) : MC (Z * bytes) :=
  do! skipped := tls_get t_early_data_skipped_bytes in
  let skipped := u32 (skipped + u32 (Z.of_nat length)) in
  tls-> t_early_data_skipped_bytes := skipped ;;;
  mguard (negb (PTLS_MAX_EARLY_DATA_SKIP_SIZE <? skipped)) PTLS_ALERT_HANDSHAKE_FAILURE ;;;
  tls-> t_recvbuf_rec := None ;;;
  ret (PTLS_ERROR_IN_PROGRESS, []).

(** The content of a record: the code and the application data. *)
Definition dispatch_record (type : Z) (fragment : bytes) : MC (Z * bytes) :=
  do! mess := tls_get t_recvbuf_mess in
  do! state := tls_get t_state in
  do! dec := tls_get t_dec in
  if match mess with Some _ => true | None => type =? PTLS_CONTENT_TYPE_HANDSHAKE end then
    do! code := handle_handshake_record handle_message type fragment in
    ret (code, [])
  else if type =? PTLS_CONTENT_TYPE_APPDATA then
    if state_le PTLS_STATE_POST_HANDSHAKE_MIN state then ret (0, fragment)
    else if bool_decide (state = PTLS_STATE_SERVER_EXPECT_END_OF_EARLY_DATA) then
      ret (0, match tp_aead dec with Some _ => fragment | None => [] end)
    else fail PTLS_ALERT_UNEXPECTED_MESSAGE
  else if type =? PTLS_CONTENT_TYPE_ALERT then do! code := handle_alert fragment in ret (code, [])
  else fail PTLS_ALERT_UNEXPECTED_MESSAGE.

(** [is_skipping]: the server is ready to skip early data. *)
Definition handle_record (rec : st_ptls_record_t) (fragment : bytes) : MC (Z * bytes) :=
  do! state := tls_get t_state in
  do! dec := tls_get t_dec in
  do! is_server := tls_get t_is_server in
  do! skipped := tls_get t_early_data_skipped_bytes in
  let is_skipping := is_server && negb (skipped =? UINT32_MAX) in
  if rec_type rec =? PTLS_CONTENT_TYPE_CHANGE_CIPHER_SPEC then
    mguard (state_lt state PTLS_STATE_POST_HANDSHAKE_MIN) PTLS_ALERT_HANDSHAKE_FAILURE ;;;
    mguard (bool_decide (fragment = [1])) PTLS_ALERT_ILLEGAL_PARAMETER ;;;
    tls-> t_recvbuf_rec := None ;;;
    ret (PTLS_ERROR_IN_PROGRESS, [])
  else if match tp_aead dec with Some _ => negb (rec_type rec =? PTLS_CONTENT_TYPE_ALERT) | None => false end then
    mguard (rec_type rec =? PTLS_CONTENT_TYPE_APPDATA) PTLS_ALERT_HANDSHAKE_FAILURE ;;;
    match aead_decrypt dec fragment with
    | Stuck f => undefined f
    | Err code => if is_skipping then server_skip_early_data (rec_length rec) else fail code
    | Ok (plain, dec) =>
        tls-> t_dec := dec ;;;
        do! x := lift (remove_padding plain) in
        next_record_ (dispatch_record (fst x) (snd x))
    end
  else if (rec_type rec =? PTLS_CONTENT_TYPE_APPDATA) && is_skipping then server_skip_early_data (rec_length rec)
  else next_record_ (dispatch_record (rec_type rec) fragment).

(** The code, the value of [*inlen], and the data appended to [decryptbuf]. *)
Definition handle_input (input : bytes) : MC (Z * nat * bytes) :=
  do! recvbuf := tls_get t_recvbuf_rec in
  do! x := lift (parse_record recvbuf input) in
  let '(code, rec, recvbuf, consumed) := x in
  tls-> t_recvbuf_rec := recvbuf ;;;
  if negb (code =? 0) then ret (code, consumed, [])
  else
    do! fragment := match rec_fragment rec with Some f => ret f | None => undefined AssertFail end in
    fun s =>
      match handle_record rec fragment s with
      | Done (code, data) s => Done (code, consumed, data) s
      | Fail code s => Done (code, consumed, []) s
      | Undefined f => Undefined f
      end.

(** ** Alerts *)

Definition ptls_send_alert (level description : Z) : MC unit :=
  do! buf := gets c_buf in
  do! enc := tls_get t_enc in
  do! state := tls_get t_state in
  let rec_start := length buf in
  let buf := buf ++ buffer_push_record PTLS_CONTENT_TYPE_ALERT [u8 level; u8 description] in
  if match tp_aead enc with Some _ => negb (state_le state PTLS_STATE_CLIENT_EXPECT_FINISHED) | None => false end then
    do! x := lift (buffer_encrypt_record buf rec_start enc) in
    modify (fun c => c <| c_buf := fst x |>) ;;;
    tls-> t_enc := snd x
  else modify (fun c => c <| c_buf := buf |>).

(** ** [ptls_handshake] *)

(** [while (ret == PTLS_ERROR_IN_PROGRESS && src != src_end)]; every turn consumes
    input. *)
Fixpoint handshake_loop (fuel : nat) (ret_ : Z) (src : bytes) : MC (Z * bytes) :=
  if negb (ret_ =? PTLS_ERROR_IN_PROGRESS) || (length src =? 0)%nat then ret (ret_, src)
  else match fuel with
  | O => undefined OutOfFuel
  | S fuel =>
      do! x := handle_input src in
      let '(code, consumed, data) := x in
      massert (length data =? 0)%nat ;;;
      handshake_loop fuel code (drop consumed src)
  end.

(** A failure discards what was written and sends an alert instead. *)
Definition report_failure (code : Z) (sendbuf_orig : bytes) : MC unit :=
  modify (fun c => c <| c_buf := sendbuf_orig |>) ;;;
  when (negb (PTLS_ERROR_GET_CLASS code =? PTLS_ERROR_CLASS_PEER_ALERT))
    (do! ret_ := code_of (ptls_send_alert PTLS_ALERT_LEVEL_FATAL
                           (if PTLS_ERROR_GET_CLASS code =? PTLS_ERROR_CLASS_SELF_ALERT then code else PTLS_ALERT_INTERNAL_ERROR)) in
     when (negb (ret_ =? 0)) (modify (fun c => c <| c_buf := sendbuf_orig |>))).

(** The code and the number of octets consumed. *)
Definition ptls_handshake (input : bytes) : MC (Z * nat) :=
  do! state := tls_get t_state in
  massert (state_lt state PTLS_STATE_POST_HANDSHAKE_MIN) ;;;
  do! sendbuf_orig := gets c_buf in
  if bool_decide (state = PTLS_STATE_CLIENT_HANDSHAKE_START) then
    massert (length input =? 0)%nat ;;;
    massert (negb (length (key_exchanges ctx) =? 0)%nat) ;;;
    do! code := code_of' (send_client_hello is_ipaddr ctx props None) in
    ret (code, length input)
  else
    do! x := handshake_loop (length input) PTLS_ERROR_IN_PROGRESS input in
    let '(code, src) := x in
    when (negb ((code =? 0) || (code =? PTLS_ERROR_IN_PROGRESS) || (code =? PTLS_ERROR_STATELESS_RETRY)))
      (report_failure code sendbuf_orig) ;;;
    ret (code, (length input - length src)%nat).

(** ** [ptls_receive] *)

Fixpoint receive_loop (fuel : nat) (ret_ : Z) (data input : bytes) : MC (Z * bytes * bytes) :=
  if negb (ret_ =? 0) || (length input =? 0)%nat || negb (length data =? 0)%nat then ret (ret_, data, input)
  else match fuel with
  | O => undefined OutOfFuel
  | S fuel =>
      do! x := handle_input input in
      let '(code, consumed, data) := x in
      receive_loop fuel (if code =? PTLS_ERROR_IN_PROGRESS then 0 else code) data (drop consumed input)
  end.

(** The code, the number of octets consumed and the application data. *)
Definition ptls_receive (input : bytes) : MC (Z * nat * bytes) :=
  do! state := tls_get t_state in
  massert (state_le PTLS_STATE_SERVER_EXPECT_END_OF_EARLY_DATA state) ;;;
  do! x := receive_loop (length input) 0 [] input in
  let '(code, data, rest) := x in
  ret (code, (length input - length rest)%nat, data).

(** ** [ptls_send] and key updates *)

(** The KeyUpdate goes out under the old key. *)
Definition update_send_key (request_update : bool) : MC unit :=
  do! sendbuf_orig := gets c_buf in
  fun s =>
    match (ptls_push_message false PTLS_HANDSHAKE_TYPE_KEY_UPDATE [if request_update then 1 else 0] ;;;
           update_traffic_key ctx true) s with
    | Fail code s => Fail code (s <| c_buf := sendbuf_orig |>)
    | r => r
    end.

Definition ptls_send (input : bytes) : MC unit :=
  do! enc := tls_get t_enc in
  massert (match tp_aead enc with Some _ => true | None => false end) ;;;
  when (16777216 <=? tp_seq enc) (tls-> t_needs_key_update := true) ;;;
  do! needs := tls_get t_needs_key_update in
  when needs
    (do! request := tls_get t_key_update_send_request in
     update_send_key request ;;;
     tls-> t_needs_key_update := false ;;;
     tls-> t_key_update_send_request := false) ;;;
  do! enc := tls_get t_enc in
  do! buf := gets c_buf in
  do! x := lift (buffer_push_encrypted_records buf PTLS_CONTENT_TYPE_APPDATA input enc) in
  modify (fun c => c <| c_buf := fst x |>) ;;;
  tls-> t_enc := snd x.

Definition ptls_update_key (request_update : bool) : MC unit :=
  massert (match ctx_update_traffic_key ctx with None => true | Some _ => false end) ;;;
  tls-> t_needs_key_update := true ;;;
  tls-> t_key_update_send_request := request_update.

Definition ptls_get_record_overhead : MC nat :=
  do! enc := tls_get t_enc in
  do! aead := deref (tp_aead enc) in
  ret (6 + tag_size (aead_algo aead))%nat.

(** ** Exporters *)

Definition ptls_export_secret (outlen : nat) (label context_value : bytes) (is_early : bool) : MC bytes :=
  do! algo := sched_algo in
  do! master_secret := tls_get (if is_early then t_exporter_early else t_exporter_one_rtt) in
  do! state := tls_get t_state in
  match master_secret with
  | None =>
      fail (if is_early then
              match state with
              | PTLS_STATE_CLIENT_HANDSHAKE_START | PTLS_STATE_SERVER_EXPECT_CLIENT_HELLO => PTLS_ERROR_IN_PROGRESS
              | _ => PTLS_ERROR_NOT_AVAILABLE
              end
            else PTLS_ERROR_IN_PROGRESS)
  | Some master_secret =>
      sched_get (fun s =>
        let context_value_hash := ptls_calc_hash algo context_value in
        let! derived_secret := hkdf_expand_label algo (digest_size algo) (take (digest_size algo) master_secret) label
                                 (empty_digest algo) (hkdf_label_prefix s) in
        hkdf_expand_label algo outlen (take (digest_size algo) derived_secret) (str "exporter")
          (take (digest_size algo) context_value_hash) (hkdf_label_prefix s))
  end.

(** ** Applications with their own record layer *)

Definition ptls_get_read_epoch (state : en_ptls_state_t) : res nat :=
  match state with
  | PTLS_STATE_CLIENT_HANDSHAKE_START
  | PTLS_STATE_CLIENT_EXPECT_SERVER_HELLO
  | PTLS_STATE_CLIENT_EXPECT_SECOND_SERVER_HELLO
  | PTLS_STATE_SERVER_EXPECT_CLIENT_HELLO
  | PTLS_STATE_SERVER_EXPECT_SECOND_CLIENT_HELLO => Ok 0%nat
  | PTLS_STATE_SERVER_EXPECT_END_OF_EARLY_DATA =>
      let! _ := c_assert (negb (omit_end_of_early_data ctx)) in Ok 1%nat
  | PTLS_STATE_CLIENT_EXPECT_ENCRYPTED_EXTENSIONS
  | PTLS_STATE_CLIENT_EXPECT_CERTIFICATE_REQUEST_OR_CERTIFICATE
  | PTLS_STATE_CLIENT_EXPECT_CERTIFICATE
  | PTLS_STATE_CLIENT_EXPECT_CERTIFICATE_VERIFY
  | PTLS_STATE_CLIENT_EXPECT_FINISHED
  | PTLS_STATE_SERVER_EXPECT_CERTIFICATE
  | PTLS_STATE_SERVER_EXPECT_CERTIFICATE_VERIFY
  | PTLS_STATE_SERVER_EXPECT_FINISHED => Ok 2%nat
  | PTLS_STATE_CLIENT_POST_HANDSHAKE
  | PTLS_STATE_SERVER_POST_HANDSHAKE => Ok 3%nat
  end.

(** [input] is [None] for [NULL]. *)
Definition ptls_client_handle_message (in_epoch : nat) (input : option bytes) : MC Z :=
  do! is_server := tls_get t_is_server in
  massert (negb is_server) ;;;
  match input with
  | None => send_client_hello is_ipaddr ctx props None
  | Some input =>
      do! state := tls_get t_state in
      do! epoch := lift (ptls_get_read_epoch state) in
      mguard (epoch =? in_epoch)%nat PTLS_ALERT_UNEXPECTED_MESSAGE ;;;
      handle_handshake_record (handle_client_handshake_message is_ipaddr ctx props) PTLS_CONTENT_TYPE_HANDSHAKE input
  end.

Definition ptls_server_handle_message (in_epoch : nat) (input : option bytes) : MC Z :=
  do! is_server := tls_get t_is_server in
  massert is_server ;;;
  match input with
  | None => undefined AssertFail
  | Some input =>
      do! state := tls_get t_state in
      do! epoch := lift (ptls_get_read_epoch state) in
      mguard (epoch =? in_epoch)%nat PTLS_ALERT_UNEXPECTED_MESSAGE ;;;
      handle_handshake_record (handle_server_handshake_message ctx props) PTLS_CONTENT_TYPE_HANDSHAKE input
  end.

Definition ptls_handle_message (in_epoch : nat) (input : option bytes) : MC Z :=
  do! is_server := tls_get t_is_server in
  if is_server then ptls_server_handle_message in_epoch input else ptls_client_handle_message in_epoch input.

(** ** Connections *)

Definition new_instance (is_server : bool) (state : en_ptls_state_t) : ptls_t :=
  mk_tls state None None None tp_zero tp_zero None None None None (replicate PTLS_HELLO_RANDOM_SIZE 0) None None None is_server false
    (ctx_send_change_cipher_spec ctx) false false [] None false false (mk_cr None []) (replicate PTLS_MAX_DIGEST_SIZE 0) 0 None None.

(** The two calls to [random_bytes] are [env] and [env + 1]. *)
Definition ptls_client_new (env : Z) : ptls_t :=
  let tls := new_instance false PTLS_STATE_CLIENT_HANDSHAKE_START in
  let tls := tls <| t_client_random := random_bytes ctx env PTLS_HELLO_RANDOM_SIZE |> in
  if t_send_change_cipher_spec tls then tls <| t_legacy_session_id := random_bytes ctx (env + 1) 32 |> else tls.

Definition ptls_server_new : ptls_t :=
  (new_instance true PTLS_STATE_SERVER_EXPECT_CLIENT_HELLO) <| t_early_data_skipped_bytes := UINT32_MAX |>.

(** A name of length 0 is taken as a C string. *)
Definition ptls_set_server_name (server_name : option bytes) (tls : ptls_t) : ptls_t :=
  tls <| t_server_name := option_map c_string server_name |>.
Definition ptls_set_negotiated_protocol (protocol : option bytes) (tls : ptls_t) : ptls_t :=
  tls <| t_negotiated_protocol := option_map c_string protocol |>.

Definition ptls_handshake_is_complete (tls : ptls_t) : bool := state_le PTLS_STATE_POST_HANDSHAKE_MIN (t_state tls).
Definition ptls_is_psk_handshake (tls : ptls_t) : bool := t_is_psk_handshake tls.
End Api.
