(* ===== verification/Frame.v ===== *)
(** * Frame: what the handshake functions leave alone

    [keeps view m]: whether [m] ends normally or fails, the part of the connection
    that [view] looks at is unchanged and the trace is only extended.  The rules
    are applied by the tactic [frame]; the lemmas on the functions of [Handshake]
    are in the hint database [frame]. *)
From S2P Require Import Prelude Constants Monad Wire Crypto Record KeySchedule Extensions Messages Hello Esni Context Handshake Client Server.

Definition trace_extends (c c' : conn) : Prop := exists evs, c_trace c' = c_trace c ++ evs.

Lemma trace_extends_refl c : trace_extends c c.
Proof. exists []. by rewrite app_nil_r. Qed.
Lemma trace_extends_trans c1 c2 c3 : trace_extends c1 c2 -> trace_extends c2 c3 -> trace_extends c1 c3.
Proof. intros [e1 H1] [e2 H2]. exists (e1 ++ e2). by rewrite H2, H1, app_assoc. Qed.
Lemma trace_extends_in c c' e : trace_extends c c' -> In e (c_trace c) -> In e (c_trace c').
Proof. intros [evs ->] H. apply in_or_app. by left. Qed.

Lemma logged_in c c' l e : c_trace c = l ++ [e] -> trace_extends c c' -> In e (c_trace c').
Proof. intros Hc He. eapply trace_extends_in; [exact He|]. rewrite Hc. apply in_or_app. right. by left. Qed.

Definition keeps {V A} (view : ptls_t -> V) (m : MC A) : Prop := forall c,
  match m c with
  | Done _ c' | Fail _ c' => view (c_tls c') = view (c_tls c) /\ trace_extends c c'
  | Undefined _ => True
  end.

Section Rules.
Context {V : Type} (view : ptls_t -> V).

Lemma keeps_bind {A B} (m : MC A) (k : A -> MC B) : keeps view m -> (forall a, keeps view (k a)) -> keeps view (bind m k).
Proof.
  intros Hm Hk c. unfold bind. specialize (Hm c). destruct (m c) as [a c1|e c1|f]; [|done..].
  destruct Hm as [Hv Ht]. specialize (Hk a c1). destruct (k a c1) as [b c2|e c2|f]; [| |done];
    destruct Hk as [Hv2 Ht2]; split; try congruence; by eapply trace_extends_trans.
Qed.

Lemma keeps_same {A} (m : MC A) : (forall c, match m c with Done _ c' | Fail _ c' => c' = c | Undefined _ => True end) -> keeps view m.
Proof.
  intros H c. specialize (H c). destruct (m c); subst; auto using trace_extends_refl.
Qed.
Lemma keeps_ret {A} (a : A) : keeps view (ret a).
Proof. by apply keeps_same. Qed.
Lemma keeps_fail {A} e : keeps view (@fail conn A e).
Proof. by apply keeps_same. Qed.
Lemma keeps_undefined {A} f : keeps view (@undefined conn A f).
Proof. by apply keeps_same. Qed.
Lemma keeps_gets {A} (f : conn -> A) : keeps view (gets f).
Proof. by apply keeps_same. Qed.
Lemma keeps_tls_get {A} (f : ptls_t -> A) : keeps view (tls_get f).
Proof. by apply keeps_same. Qed.
Lemma keeps_lift {A} (r : res A) : keeps view (lift r).
Proof. apply keeps_same. intros c. by destruct r. Qed.
Lemma keeps_lift_sum {A} (r : Z + A) : keeps view (lift_sum r).
Proof. apply keeps_same. intros c. by destruct r. Qed.
Lemma keeps_deref {A} (o : option A) : keeps view (deref o).
Proof. apply keeps_same. intros c. by destruct o. Qed.
Lemma keeps_mguard b e : keeps view (mguard b e).
Proof. apply keeps_same. intros c. by destruct b. Qed.
Lemma keeps_massert b : keeps view (massert b).
Proof. apply keeps_same. intros c. by destruct b. Qed.
Lemma keeps_check_code code : keeps view (check_code code).
Proof. apply keeps_mguard. Qed.
Lemma keeps_when b m : keeps view m -> keeps view (when b m).
Proof. destruct b; [done | intros; apply keeps_ret]. Qed.
Lemma keeps_tls_deref {A} (f : ptls_t -> option A) : keeps view (tls_deref f).
Proof. apply keeps_bind; [apply keeps_tls_get | intros; apply keeps_deref]. Qed.
Lemma keeps_tls_set f : (forall t, view (f t) = view t) -> keeps view (tls_set f).
Proof. intros H c. cbn. split; [apply H | exists []; by rewrite app_nil_r]. Qed.
Lemma keeps_modify f : (forall c, c_tls (f c) = c_tls c) -> (forall c, c_trace (f c) = c_trace c) -> keeps view (modify f).
Proof. intros H1 H2 c. cbn. split; [by rewrite H1 | exists []; by rewrite H2, app_nil_r]. Qed.
Lemma keeps_log e : keeps view (log e).
Proof. intros c. cbn. split; [done | by exists [e]]. Qed.
Lemma keeps_next_call : keeps view next_call.
Proof. apply keeps_bind; [apply keeps_gets|]. intros. apply keeps_bind; [by apply keeps_modify | intros; apply keeps_ret]. Qed.
Lemma keeps_code_of m : keeps view m -> keeps view (code_of m).
Proof. intros H c. unfold code_of. specialize (H c). by destruct (m c). Qed.
Lemma keeps_mfinally {A} (m : MC A) cleanup : keeps view m -> keeps view cleanup -> keeps view (mfinally m cleanup).
Proof.
  intros Hm Hc c. unfold mfinally. specialize (Hm c). destruct (m c) as [a c1|e c1|]; [| |done]; destruct Hm as [Hv Ht];
    unfold bind; specialize (Hc c1); destruct (cleanup c1) as [? c2|? c2|]; try done; destruct Hc as [Hv2 Ht2];
    (split; [congruence | by eapply trace_extends_trans]).
Qed.
Lemma keeps_sched_get {A} (f : st_ptls_key_schedule_t -> res A) : keeps view (sched_get f).
Proof. apply keeps_bind; [apply keeps_tls_deref | intros; apply keeps_lift]. Qed.
Lemma keeps_sched_algo : keeps view sched_algo.
Proof. apply keeps_bind; [apply keeps_sched_get | intros; apply keeps_ret]. Qed.
End Rules.

Lemma keeps_compose {V W A} (view : ptls_t -> V) (g : V -> W) (m : MC A) : keeps view m -> keeps (fun t => g (view t)) m.
Proof. intros H c. specialize (H c). destruct (m c); [| |done]; destruct H as [-> Ht]; done. Qed.

(** The fields an authentication depends on, and the same with the handshake
    secret that waits for the end of early data. *)
Definition auth_view (t : ptls_t) := (t_state t, t_is_psk_handshake t, t_certificate_verify t, t_is_server t).
Definition full_view (t : ptls_t) := (auth_view t, t_pending_handshake_secret t).

Lemma keeps_auth {A} (m : MC A) : keeps full_view m -> keeps auth_view m.
Proof. apply (keeps_compose full_view fst). Qed.

(** What the server's authentication depends on. *)
Definition has_pending (t : ptls_t) : bool := match t_pending_handshake_secret t with Some _ => true | None => false end.
Definition server_view (t : ptls_t) := (t_state t, t_certificate_verify t, has_pending t).

Lemma keeps_server {A} (m : MC A) : keeps full_view m -> keeps server_view m.
Proof.
  intros H c. specialize (H c). unfold full_view, auth_view, server_view, has_pending in *.
  destruct (m c); [| |done]; destruct H as [Hv Ht]; injection Hv as -> _ -> _ ->; done.
Qed.

Create HintDb frame.

(** One step of a frame proof: assignments are checked by computation. *)
Ltac frame_step :=
  lazymatch goal with
  | |- keeps _ (bind _ _) => apply keeps_bind; [|intros]
  | |- keeps _ (ret _) => apply keeps_ret
  | |- keeps _ (fail _) => apply keeps_fail
  | |- keeps _ (undefined _) => apply keeps_undefined
  | |- keeps _ (gets _) => apply keeps_gets
  | |- keeps _ (tls_get _) => apply keeps_tls_get
  | |- keeps _ (lift _) => apply keeps_lift
  | |- keeps _ (lift_sum _) => apply keeps_lift_sum
  | |- keeps _ (deref _) => apply keeps_deref
  | |- keeps _ (mguard _ _) => apply keeps_mguard
  | |- keeps _ (massert _) => apply keeps_massert
  | |- keeps _ (check_code _) => apply keeps_check_code
  | |- keeps _ (when _ _) => apply keeps_when
  | |- keeps _ (tls_deref _) => apply keeps_tls_deref
  | |- keeps _ (tls_set _) => apply keeps_tls_set; intros; reflexivity
  | |- keeps _ (modify _) => apply keeps_modify; intros; reflexivity
  | |- keeps _ (log _) => apply keeps_log
  | |- keeps _ next_call => apply keeps_next_call
  | |- keeps _ (code_of _) => apply keeps_code_of
  | |- keeps _ (mfinally _ _) => apply keeps_mfinally
  | |- keeps _ (sched_get _) => apply keeps_sched_get
  | |- keeps _ sched_algo => apply keeps_sched_algo
  | |- keeps _ (if ?b then _ else _) => destruct b
  | |- keeps _ (match ?x with _ => _ end) => destruct x
  | |- keeps _ (let '(_, _) := ?x in _) => destruct x
  | |- keeps _ _ => first [solve [eauto with frame nocore] | apply keeps_auth; solve [eauto with frame nocore]
                       | apply keeps_server; solve [eauto with frame nocore]]
  end.
Ltac frame := repeat (cbn zeta; frame_step).

Section Helpers.
Context (ctx : ptls_context_t) (props : option ptls_handshake_properties_t).

Lemma keeps_sched_upd f : keeps full_view (sched_upd f).
Proof. unfold sched_upd. frame. Qed.
Hint Resolve keeps_sched_upd : frame.
Lemma keeps_update_hash m : keeps full_view (update_hash m).
Proof. apply keeps_sched_upd. Qed.
Hint Resolve keeps_update_hash : frame.
Lemma keeps_push_message hashed type body : keeps full_view (ptls_push_message hashed type body).
Proof. unfold ptls_push_message. frame. Qed.
Hint Resolve keeps_push_message : frame.
Lemma keeps_tp_get is_enc : keeps full_view (tp_get is_enc).
Proof. unfold tp_get. frame. Qed.
Lemma keeps_tp_set is_enc tp : keeps full_view (tp_set is_enc tp).
Proof. unfold tp_set. frame. Qed.
Hint Resolve keeps_tp_get keeps_tp_set : frame.
Lemma keeps_setup_traffic_protection is_enc label epoch skip : keeps full_view (setup_traffic_protection ctx is_enc label epoch skip).
Proof. unfold setup_traffic_protection. frame. Qed.
Hint Resolve keeps_setup_traffic_protection : frame.
Lemma keeps_commission : keeps auth_view (commission_handshake_secret ctx).
Proof. unfold commission_handshake_secret. frame; apply keeps_auth; unfold tp_get, tp_set; frame. Qed.
Lemma keeps_derive_exporter is_early : keeps full_view (derive_exporter_secret ctx is_early).
Proof. unfold derive_exporter_secret. frame. Qed.
Lemma keeps_verify_finished m : keeps full_view (verify_finished m).
Proof. unfold verify_finished. frame. Qed.
Lemma keeps_send_finished : keeps full_view send_finished.
Proof. unfold send_finished. frame. Qed.
Lemma keeps_push_ccs : keeps full_view push_change_cipher_spec.
Proof. unfold push_change_cipher_spec. frame. Qed.
Hint Resolve keeps_commission keeps_derive_exporter keeps_verify_finished keeps_send_finished keeps_push_ccs : frame.
Lemma keeps_predict : keeps full_view (predict_client_finished ctx).
Proof. unfold predict_client_finished. frame. Qed.
Hint Resolve keeps_predict : frame.
Lemma keeps_emit_ticket : keeps full_view (emit_session_ticket ctx).
Proof. unfold emit_session_ticket. frame. Qed.
Hint Resolve keeps_emit_ticket : frame.
Lemma keeps_send_session_ticket : keeps full_view (send_session_ticket ctx).
Proof. unfold send_session_ticket. frame. Qed.
Lemma keeps_certificate_message c p a : keeps full_view (certificate_message ctx c p a).
Proof. unfold certificate_message. frame. Qed.
Hint Resolve keeps_send_session_ticket keeps_certificate_message : frame.
Lemma keeps_send_certificate sa c cs p a : keeps full_view (send_certificate_and_certificate_verify ctx sa c cs p a).
Proof. unfold send_certificate_and_certificate_verify. frame. Qed.
Lemma keeps_update_traffic_key is_enc : keeps full_view (update_traffic_key ctx is_enc).
Proof. unfold update_traffic_key. frame. Qed.
Hint Resolve keeps_send_certificate keeps_update_traffic_key : frame.
Lemma keeps_handle_key_update m : keeps full_view (handle_key_update ctx m).
Proof. unfold handle_key_update. frame. Qed.
Lemma keeps_report_unknown slots : keeps full_view (report_unknown_extensions props slots).
Proof. unfold report_unknown_extensions. frame. Qed.
End Helpers.
#[export] Hint Resolve keeps_sched_upd keeps_update_hash keeps_push_message keeps_tp_get keeps_tp_set keeps_setup_traffic_protection
  keeps_commission keeps_derive_exporter keeps_verify_finished keeps_send_finished keeps_push_ccs keeps_send_session_ticket
  keeps_certificate_message keeps_send_certificate keeps_update_traffic_key keeps_handle_key_update keeps_report_unknown : frame.

(** ** Partial correctness

    [wlp m Q E c]: run from [c], [m] ends normally only in states of [Q] and fails
    only in states of [E]; the absence of undefined behaviour is not claimed. *)
Definition wlp {A} (m : MC A) (Q : A -> conn -> Prop) (E : Z -> conn -> Prop) (c : conn) : Prop :=
  match m c with
  | Done a c' => Q a c'
  | Fail e c' => E e c'
  | Undefined _ => True
  end.

Section Wlp.
Implicit Types (E : Z -> conn -> Prop).

Lemma wlp_bind {A B} (m : MC A) (k : A -> MC B) Q E c : wlp m (fun a c => wlp (k a) Q E c) E c -> wlp (bind m k) Q E c.
Proof. unfold wlp, bind. by destruct (m c). Qed.
Lemma wlp_ret {A} (a : A) Q E c : Q a c -> wlp (ret a) Q E c.
Proof. done. Qed.
Lemma wlp_fail {A} e (Q : A -> conn -> Prop) E c : E e c -> wlp (fail e) Q E c.
Proof. done. Qed.
Lemma wlp_undefined {A} f (Q : A -> conn -> Prop) E c : wlp (undefined f) Q E c.
Proof. done. Qed.
Lemma wlp_tls_get {A} (f : ptls_t -> A) Q E c : Q (f (c_tls c)) c -> wlp (tls_get f) Q E c.
Proof. done. Qed.
Lemma wlp_mguard b e Q E c : (b = true -> Q tt c) -> (b = false -> E e c) -> wlp (mguard b e) Q E c.
Proof. destruct b; cbn; auto. Qed.
Lemma wlp_when b m Q E c : (b = true -> wlp m Q E c) -> (b = false -> Q tt c) -> wlp (when b m) Q E c.
Proof. destruct b; cbn; auto. Qed.
Lemma wlp_lift {A} (r : res A) Q E c : (forall a, r = Ok a -> Q a c) -> (forall e, r = Err e -> E e c) -> wlp (lift r) Q E c.
Proof. destruct r; cbn; auto. Qed.
Lemma wlp_lift_sum {A} (r : Z + A) Q E c : (forall a, r = inr a -> Q a c) -> (forall e, r = inl e -> E e c) -> wlp (lift_sum r) Q E c.
Proof. destruct r; cbn; auto. Qed.
Lemma wlp_sched_get {A} (f : st_ptls_key_schedule_t -> res A) Q E c :
  (forall s a, t_key_schedule (c_tls c) = Some s -> f s = Ok a -> Q a c) -> (forall e, E e c) -> wlp (sched_get f) Q E c.
Proof.
  intros HQ HE. unfold wlp, sched_get, tls_deref, tls_get, gets, bind. destruct (t_key_schedule (c_tls c)) as [s|]; cbn; [|done].
  destruct (f s) eqn:Hf; cbn; eauto.
Qed.
Lemma wlp_tls_set f Q E c :
  (forall c', full_view (c_tls c') = full_view (f (c_tls c)) -> trace_extends c c' -> Q tt c') -> wlp (tls_set f) Q E c.
Proof. intros H. cbn. apply H; [done | exists []; by rewrite app_nil_r]. Qed.
Lemma wlp_log e Q E c :
  (forall c', full_view (c_tls c') = full_view (c_tls c) -> c_trace c' = c_trace c ++ [e] -> trace_extends c c' -> Q tt c') -> wlp (log e) Q E c.
Proof. intros H. cbn. apply H; [done | done | by exists [e]]. Qed.
Lemma wlp_keeps {V A} (view : ptls_t -> V) (m : MC A) Q E c :
  keeps view m ->
  (forall a c', view (c_tls c') = view (c_tls c) -> trace_extends c c' -> Q a c') ->
  (forall e c', view (c_tls c') = view (c_tls c) -> trace_extends c c' -> E e c') -> wlp m Q E c.
Proof. intros Hk HQ HE. unfold wlp. specialize (Hk c). destruct (m c); [| |done]; destruct Hk; auto. Qed.
(** Feeding the transcript does not fail. *)
Lemma wlp_update_hash msg Q E c :
  (forall c', full_view (c_tls c') = full_view (c_tls c) -> trace_extends c c' -> Q tt c') -> wlp (update_hash msg) Q E c.
Proof.
  intros H. unfold wlp, update_hash, sched_upd, tls_deref, tls_get, gets, bind. destruct (t_key_schedule (c_tls c)); cbn; [|done].
  apply H; [done | exists []; by rewrite app_nil_r].
Qed.
Lemma wlp_mono {A} (m : MC A) (Q Q' : A -> conn -> Prop) E E' c :
  wlp m Q E c -> (forall a c', Q a c' -> Q' a c') -> (forall e c', E e c' -> E' e c') -> wlp m Q' E' c.
Proof. unfold wlp. destruct (m c); auto. Qed.
Lemma wlp_done {A} (m : MC A) Q E c a c' : wlp m Q E c -> m c = Done a c' -> Q a c'.
Proof. unfold wlp. intros H Heq. by rewrite Heq in H. Qed.
Lemma wlp_failed {A} (m : MC A) Q E c e c' : wlp m Q E c -> m c = Fail e c' -> E e c'.
Proof. unfold wlp. intros H Heq. by rewrite Heq in H. Qed.
End Wlp.

Lemma pending_eq t t' : t_pending_handshake_secret t = t_pending_handshake_secret t' -> has_pending t = has_pending t'.
Proof. unfold has_pending. by intros ->. Qed.

(** Equations between views become equations between fields. *)
Ltac views :=
  repeat match goal with
  | H : full_view _ = full_view _ |- _ => unfold full_view in H; cbn in H
  | H : auth_view _ = auth_view _ |- _ => unfold auth_view in H; cbn in H
  | H : server_view _ = server_view _ |- _ => unfold server_view in H; cbn in H
  | H : (_, _) = (_, _) |- _ => injection H as ? ?
  | H : t_pending_handshake_secret ?t = t_pending_handshake_secret ?t' |- _ =>
      assert_fails (assert (has_pending t = has_pending t') by assumption); pose proof (pending_eq _ _ H)
  end.
Ltac extends := repeat first [apply trace_extends_refl | eassumption | eapply trace_extends_trans; [|eassumption]].

(** One step of the symbolic execution of a handler; [special] comes first. *)
Ltac wl_step special :=
  lazymatch goal with
  | |- wlp (bind _ _) _ _ _ => apply wlp_bind; cbv beta
  | |- wlp (ret _) _ _ _ => apply wlp_ret; cbv beta
  | |- wlp (fail _) _ _ _ => apply wlp_fail; cbv beta
  | |- wlp (undefined _) _ _ _ => apply wlp_undefined
  | |- wlp (tls_get _) _ _ _ => apply wlp_tls_get; cbv beta
  | |- wlp (check_code _) _ _ _ => apply wlp_mguard; intros; b2p; cbv beta
  | |- wlp (mguard _ _) _ _ _ => apply wlp_mguard; intros; cbv beta
  | |- wlp (lift _) _ _ _ => apply wlp_lift; intros; cbv beta
  | |- wlp (lift_sum _) _ _ _ => apply wlp_lift_sum; intros; cbv beta
  | |- wlp (sched_get _) _ _ _ => apply wlp_sched_get; intros; cbv beta
  | |- wlp (tls_set _) _ _ _ => apply wlp_tls_set; intros; cbv beta
  | |- wlp (update_hash _) _ _ _ => apply wlp_update_hash; intros; cbv beta
  | |- wlp (log _) _ _ _ => apply wlp_log; intros; cbv beta
  | |- wlp (let '(_, _) := ?x in _) _ _ _ => destruct x
  | |- wlp _ _ _ _ =>
      first [ special
            | apply (wlp_keeps full_view); [solve [frame] | intros; cbv beta | intros; cbv beta]
            | apply (wlp_keeps auth_view); [solve [frame] | intros; cbv beta | intros; cbv beta]
            | apply (wlp_keeps server_view); [solve [frame] | intros; cbv beta | intros; cbv beta]
            | apply wlp_when; intros; cbv beta
            | lazymatch goal with
              | |- wlp (if ?b then _ else _) _ _ _ => destruct b eqn:?
              | |- wlp (match ?x with _ => _ end) _ _ _ => destruct x eqn:?
              end ]
  end.
Ltac wl_with special := repeat (cbn zeta; wl_step special).
Ltac wl := wl_with fail.
(** The same, following the branches of every [match] on an option. *)
Ltac wl_options := wl_with ltac:(idtac; lazymatch goal with |- wlp (match ?x with Some _ => _ | None => _ end) _ _ _ => destruct x eqn:? end).
