(* ===== verification/Auth.v ===== *)
(** * Auth: the state machines of the handshake

    The handlers of [Client] and [Server], seen as the steps of two state
    machines, and what holds when they reach the end: the peer's Finished was
    verified and, before that, the peer's signature (unless the handshake
    resumes a session). *)
From S2P Require Import Prelude Constants Monad Wire Crypto Record KeySchedule Extensions Messages Hello Esni Context Handshake Client Server Api Frame.

Section Shared.
Context (ctx : ptls_context_t).

(** The received octets are the verify_data that RFC 8446 section 4.4.4
    prescribes for the transcript and the secret of the receiving side. *)
Definition finished_valid (tls : ptls_t) (received : bytes) : Prop :=
  exists sched, t_key_schedule tls = Some sched /\
    forall algo transcript others, sched_ok sched -> hashes sched = (algo, transcript) :: others ->
      is_bytes (tp_secret (t_dec tls)) -> is_bytes received ->
      received = rfc_verify_data algo (hkdf_label_prefix sched) (take (digest_size algo) (tp_secret (t_dec tls))) transcript.

(** From [c] to [c'], a Finished was accepted. *)
Definition accepts_finished (c c' : conn) : Prop :=
  exists received after, finished_valid (c_tls c) received /\ c_trace c' = c_trace c ++ EvFinishedVerified received :: after.

(** The connection went through a state [c0], of those that [reachable] describes,
    that expected a Finished and accepted the octets [received] as such; [P] held
    of [c0]. *)
Definition finished_after (reachable : conn -> Prop) (expects : en_ptls_state_t) (P : conn -> Prop) (c : conn) : Prop :=
  exists c0 received after, reachable c0 /\ t_state (c_tls c0) = expects /\ finished_valid (c_tls c0) received /\ P c0 /\
    c_trace c = c_trace c0 ++ EvFinishedVerified received :: after.

(** The octets that RFC 8446 section 4.4.3 has the peer sign. *)
Definition signdata_valid (tls : ptls_t) (context_string data : bytes) : Prop :=
  exists sched, t_key_schedule tls = Some sched /\
    forall algo transcript others, sched_ok sched -> hashes sched = (algo, transcript) :: others ->
      data = replicate 64 32 ++ context_string ++ [0] ++ digest algo transcript.

(** From [c] to [c'], the verifier that came with an accepted chain accepted a
    signature of the transcript. *)
Definition accepts_signature (context_string : bytes) (c c' : conn) : Prop :=
  exists cb certs verifier data signature evs after,
    verify_certificate ctx = Some cb /\ cb certs = inr (Some verifier) /\ In (EvCertificates certs) (c_trace c) /\
    verifier data signature = 0 /\ signdata_valid (c_tls c) context_string data /\
    c_trace c' = c_trace c ++ evs ++ EvSignatureVerified data signature :: after.

(** The connection went through a state of those that [reachable] describes that
    expected a CertificateVerify, and accepted one: the application accepted the
    peer's chain and the verifier it returned accepted the signature. *)
Definition peer_authenticated (reachable : conn -> Prop) (expects : en_ptls_state_t) (context_string : bytes) (c : conn) : Prop :=
  exists c0 c1, reachable c0 /\ t_state (c_tls c0) = expects /\ accepts_signature context_string c0 c1 /\ trace_extends c1 c.

(** The verifier that is waiting for a CertificateVerify came with a chain. *)
Definition verifier_registered (c : conn) : Prop :=
  exists cb certs verifier, verify_certificate ctx = Some cb /\ cb certs = inr (Some verifier) /\
    t_certificate_verify (c_tls c) = Some verifier /\ In (EvCertificates certs) (c_trace c).

Lemma accepts_finished_extends c c1 c' : accepts_finished c c1 -> trace_extends c1 c' -> accepts_finished c c'.
Proof. intros (v & a & Hv & Hc) [evs He]. exists v, (a ++ evs). split; [done|]. rewrite He, Hc, <- app_assoc. done. Qed.
Lemma accepts_finished_after (R : conn -> Prop) st (P : conn -> Prop) c c' :
  R c -> t_state (c_tls c) = st -> P c -> accepts_finished c c' -> finished_after R st P c'.
Proof. intros HR Hs HP (v & a & Hv & Hc). exists c, v, a. auto 6. Qed.
Lemma finished_after_extends R st P c c' : trace_extends c c' -> finished_after R st P c -> finished_after R st P c'.
Proof.
  intros [evs He] (c0 & v & a & HR & Hs & Hv & HP & Hc). exists c0, v, (a ++ evs). rewrite He, Hc, <- app_assoc. done.
Qed.
Lemma accepts_signature_authenticated (R : conn -> Prop) st context_string c c' :
  R c -> t_state (c_tls c) = st -> accepts_signature context_string c c' -> peer_authenticated R st context_string c'.
Proof. intros HR Hs Ha. exists c, c'. split_and!; [done.. | apply trace_extends_refl]. Qed.
Lemma accepts_signature_extends s c c1 c' : accepts_signature s c c1 -> trace_extends c1 c' -> accepts_signature s c c'.
Proof.
  intros (cb & certs & v & d & sig & evs & a & ? & ? & ? & ? & ? & Hc) [evs' He]. exists cb, certs, v, d, sig, evs, (a ++ evs').
  split_and!; try done. rewrite He, Hc, <- !app_assoc. done.
Qed.

(** [c'] follows [c] without a change of the authentication state, other than
    [t_state]. *)
Definition moved (c c' : conn) : Prop :=
  t_is_psk_handshake (c_tls c') = t_is_psk_handshake (c_tls c) /\
  t_certificate_verify (c_tls c') = t_certificate_verify (c_tls c) /\ trace_extends c c'.
Definition same_state (c c' : conn) : Prop := t_state (c_tls c') = t_state (c_tls c).
Definition moved_to (c : conn) (st : en_ptls_state_t) (c' : conn) : Prop := t_state (c_tls c') = st /\ moved c c'.

Lemma mem_equal_true x y len :
  ptls_mem_equal x y len = Ok true -> is_bytes x -> is_bytes y -> length x = len -> length y = len -> x = y.
Proof.
  intros H Hx Hy Hlx Hly. rewrite mem_equal_spec in H by (done || lia). injection H as H. apply bool_decide_eq_true_1 in H.
  by rewrite !take_ge in H by lia.
Qed.

Lemma verify_finished_logs message c :
  wlp (verify_finished message)
    (fun _ c' => full_view (c_tls c') = full_view (c_tls c) /\
       accepts_finished c c')
    (fun _ c' => full_view (c_tls c') = full_view (c_tls c)) c.
Proof.
  unfold verify_finished, sched_algo. wl; views; try done. split; [unfold full_view, auth_view; congruence|].
  eexists _, []. split; [|eassumption]. exists s. split; [done|]. intros algo transcript others Hok Hh Hsec Hrec.
  unfold hash0 in *. simplify_eq. rewrite Hh in *. simplify_eq. cbn [fst] in *. b2p.
  rewrite (calc_verify_data_spec s algo transcript others) in H3 by done. simplify_eq.
  pose proof (sched_laws _ Hok) as Hl. rewrite Hh in Hl. apply Forall_inv in Hl. cbn [fst] in Hl.
  eapply mem_equal_true; [eassumption | done | by apply HMAC_bytes | rewrite length_drop; lia | by apply HMAC_length].
Qed.

Lemma handle_certificate_registers mem src end_ c :
  wlp (handle_certificate ctx mem src end_)
    (fun got c' => same_state c c' /\ t_is_psk_handshake (c_tls c') = t_is_psk_handshake (c_tls c) /\ trace_extends c c' /\
       (got = true ->
        match verify_certificate ctx with
        | Some cb => exists certs verifier, cb certs = inr verifier /\ t_certificate_verify (c_tls c') = verifier /\
                       In (EvCertificates certs) (c_trace c')
        | None => True
        end))
    (fun _ c' => same_state c c') c.
Proof.
  unfold handle_certificate, same_state. wl; views; split_and?; try congruence; try extends; intros; try done.
  eexists _, _. split_and!; [eassumption | eassumption|]. eapply logged_in; eassumption.
Qed.

Lemma handle_certificate_verify_checks message context_string c :
  wlp (handle_certificate_verify message context_string)
    (fun _ c' => same_state c c' /\ t_is_psk_handshake (c_tls c') = t_is_psk_handshake (c_tls c) /\ trace_extends c c' /\
       ((length context_string <= 33)%nat -> verifier_registered c -> accepts_signature context_string c c'))
    (fun _ c' => same_state c c') c.
Proof.
  unfold handle_certificate_verify, same_state. wl_options; views; split_and?; try congruence; try extends.
  all: intros Hlen (cb & certs & v & Hcb & Hcerts & Hv & Hin); simplify_eq.
  eapply accepts_signature_extends; [|eassumption]. match goal with H : trace_extends c c' |- _ => destruct H as [evs He] end.
  eexists cb, certs, _, _, _, evs, []. split_and!; try eassumption; [|by rewrite app_assoc, <- He].
  eexists. split; [eassumption|]. intros algo transcript others Hok Hh. rewrite (signdata_spec _ algo transcript others) in H2 by done. by simplify_eq.
Qed.
End Shared.

(** ** The client *)

(** The transitions of the client, with the type of the message that causes
    each (RFC 8446, appendix A.1; a HelloRetryRequest is a ServerHello). *)
Inductive client_transition : en_ptls_state_t -> Z -> en_ptls_state_t -> Prop :=
| ct_retry s : s = PTLS_STATE_CLIENT_EXPECT_SERVER_HELLO \/ s = PTLS_STATE_CLIENT_EXPECT_SECOND_SERVER_HELLO ->
    client_transition s PTLS_HANDSHAKE_TYPE_SERVER_HELLO PTLS_STATE_CLIENT_EXPECT_SECOND_SERVER_HELLO
| ct_hello s : s = PTLS_STATE_CLIENT_EXPECT_SERVER_HELLO \/ s = PTLS_STATE_CLIENT_EXPECT_SECOND_SERVER_HELLO ->
    client_transition s PTLS_HANDSHAKE_TYPE_SERVER_HELLO PTLS_STATE_CLIENT_EXPECT_ENCRYPTED_EXTENSIONS
| ct_extensions_psk :
    client_transition PTLS_STATE_CLIENT_EXPECT_ENCRYPTED_EXTENSIONS PTLS_HANDSHAKE_TYPE_ENCRYPTED_EXTENSIONS PTLS_STATE_CLIENT_EXPECT_FINISHED
| ct_extensions :
    client_transition PTLS_STATE_CLIENT_EXPECT_ENCRYPTED_EXTENSIONS PTLS_HANDSHAKE_TYPE_ENCRYPTED_EXTENSIONS
      PTLS_STATE_CLIENT_EXPECT_CERTIFICATE_REQUEST_OR_CERTIFICATE
| ct_certificate_request :
    client_transition PTLS_STATE_CLIENT_EXPECT_CERTIFICATE_REQUEST_OR_CERTIFICATE PTLS_HANDSHAKE_TYPE_CERTIFICATE_REQUEST
      PTLS_STATE_CLIENT_EXPECT_CERTIFICATE
| ct_certificate s t :
    s = PTLS_STATE_CLIENT_EXPECT_CERTIFICATE_REQUEST_OR_CERTIFICATE \/ s = PTLS_STATE_CLIENT_EXPECT_CERTIFICATE ->
    t = PTLS_HANDSHAKE_TYPE_CERTIFICATE \/ t = PTLS_HANDSHAKE_TYPE_COMPRESSED_CERTIFICATE ->
    client_transition s t PTLS_STATE_CLIENT_EXPECT_CERTIFICATE_VERIFY
| ct_certificate_verify :
    client_transition PTLS_STATE_CLIENT_EXPECT_CERTIFICATE_VERIFY PTLS_HANDSHAKE_TYPE_CERTIFICATE_VERIFY PTLS_STATE_CLIENT_EXPECT_FINISHED
| ct_finished :
    client_transition PTLS_STATE_CLIENT_EXPECT_FINISHED PTLS_HANDSHAKE_TYPE_FINISHED PTLS_STATE_CLIENT_POST_HANDSHAKE
| ct_post t : t = PTLS_HANDSHAKE_TYPE_NEW_SESSION_TICKET \/ t = PTLS_HANDSHAKE_TYPE_KEY_UPDATE ->
    client_transition PTLS_STATE_CLIENT_POST_HANDSHAKE t PTLS_STATE_CLIENT_POST_HANDSHAKE.

Section Client.
Context (is_ipaddr : bytes -> bool) (ctx : ptls_context_t) (props : option ptls_handshake_properties_t).

Lemma keeps_setup_esni second sni : keeps full_view (client_hello_setup_esni ctx props second sni).
Proof. unfold client_hello_setup_esni. frame. Qed.
Lemma keeps_setup_resumption second : keeps full_view (client_hello_setup_resumption ctx props second).
Proof. unfold client_hello_setup_resumption. frame. Qed.
Lemma keeps_key_share_ext : keeps full_view client_hello_key_share_ext.
Proof. unfold client_hello_key_share_ext. frame. Qed.
Lemma keeps_sni_exts a b d : keeps full_view (client_hello_sni_exts a b d).
Proof. unfold client_hello_sni_exts. frame. Qed.
Lemma keeps_fill_psk_binder n : keeps full_view (fill_psk_binder n).
Proof. unfold fill_psk_binder. frame. Qed.
Lemma keeps_check_esni_nonce n : keeps full_view (check_esni_nonce n).
Proof. unfold check_esni_nonce. frame. Qed.
Hint Resolve keeps_setup_esni keeps_setup_resumption keeps_key_share_ext keeps_sni_exts keeps_fill_psk_binder keeps_check_esni_nonce : frame.

Lemma send_client_hello_moves cookie c :
  wlp (send_client_hello is_ipaddr ctx props cookie)
    (fun r c' => r = PTLS_ERROR_IN_PROGRESS /\
       moved_to c (match cookie with None => PTLS_STATE_CLIENT_EXPECT_SERVER_HELLO | Some _ => PTLS_STATE_CLIENT_EXPECT_SECOND_SERVER_HELLO end) c')
    (fun _ c' => same_state c c') c.
Proof.
  unfold send_client_hello, moved_to, moved, same_state. wl; views; split_and?; try congruence; try extends.
Qed.

Lemma keeps_handshake_keys : keeps auth_view (client_setup_handshake_keys ctx).
Proof. unfold client_setup_handshake_keys. frame. Qed.
Lemma keeps_end_early_data : keeps auth_view (client_end_early_data ctx).
Proof. unfold client_end_early_data. frame. Qed.
Lemma keeps_authenticate : keeps full_view (client_authenticate ctx).
Proof. unfold client_authenticate. frame. Qed.
Lemma keeps_new_session_ticket message : keeps full_view (client_handle_new_session_ticket ctx message).
Proof. unfold client_handle_new_session_ticket. frame. Qed.
Hint Resolve keeps_handshake_keys keeps_end_early_data keeps_authenticate keeps_new_session_ticket : frame.

Lemma decode_server_hello_moves message c :
  wlp (decode_server_hello ctx message) (fun _ c' => same_state c c' /\ trace_extends c c') (fun _ c' => same_state c c') c.
Proof. unfold decode_server_hello, same_state. wl; views; split_and?; try congruence; try extends. Qed.

Lemma client_handle_hello_moves message c :
  wlp (client_handle_hello is_ipaddr ctx props message)
    (fun r c' => r = PTLS_ERROR_IN_PROGRESS /\ trace_extends c c' /\
       (t_state (c_tls c') = PTLS_STATE_CLIENT_EXPECT_SECOND_SERVER_HELLO \/ t_state (c_tls c') = PTLS_STATE_CLIENT_EXPECT_ENCRYPTED_EXTENSIONS))
    (fun _ c' => same_state c c') c.
Proof.
  unfold client_handle_hello, handle_hello_retry_request, same_state. apply wlp_bind.
  eapply wlp_mono; [apply decode_server_hello_moves | | done]. intros sh c1 [Hs Ht]; cbv beta. unfold same_state in Hs.
  wl_with ltac:(idtac; lazymatch goal with |- wlp (send_client_hello _ _ _ _) _ _ _ =>
    eapply wlp_mono; [apply send_client_hello_moves | | ]; cbv beta; unfold moved_to, moved, same_state; intros; destruct_and? end);
    views; split_and?; try congruence; try extends; eauto.
Qed.

Lemma client_handle_encrypted_extensions_moves message c :
  wlp (client_handle_encrypted_extensions is_ipaddr ctx props message)
    (fun r c' => r = PTLS_ERROR_IN_PROGRESS /\
       moved_to c (if t_is_psk_handshake (c_tls c) then PTLS_STATE_CLIENT_EXPECT_FINISHED
                   else PTLS_STATE_CLIENT_EXPECT_CERTIFICATE_REQUEST_OR_CERTIFICATE) c')
    (fun _ c' => same_state c c') c.
Proof.
  unfold client_handle_encrypted_extensions, moved_to, moved, same_state. wl; views; split_and?; try congruence; try extends.
  repeat case_match; congruence.
Qed.

Lemma client_handle_certificate_request_moves message c :
  wlp (client_handle_certificate_request ctx message)
    (fun r c' => r = PTLS_ERROR_IN_PROGRESS /\ moved_to c PTLS_STATE_CLIENT_EXPECT_CERTIFICATE c') (fun _ c' => same_state c c') c.
Proof.
  unfold client_handle_certificate_request, moved_to, moved, same_state. wl; views; split_and?; try congruence; try extends.
Qed.

(** After a certificate the verifier is the one the application returned. *)
Definition certificate_post (c c' : conn) : Prop :=
  t_state (c_tls c') = PTLS_STATE_CLIENT_EXPECT_CERTIFICATE_VERIFY /\ t_is_psk_handshake (c_tls c') = t_is_psk_handshake (c_tls c) /\
  trace_extends c c' /\
  match verify_certificate ctx with
  | Some cb => exists certs verifier, cb certs = inr verifier /\ t_certificate_verify (c_tls c') = verifier /\ In (EvCertificates certs) (c_trace c')
  | None => True
  end.

Lemma client_do_handle_certificate_moves mem src end_ message c :
  wlp (client_do_handle_certificate ctx mem src end_ ;;; update_hash message ;;;
       tls_set (fun t => t <| t_state := PTLS_STATE_CLIENT_EXPECT_CERTIFICATE_VERIFY |>) ;;; ret PTLS_ERROR_IN_PROGRESS)
    (fun r c' => r = PTLS_ERROR_IN_PROGRESS /\ certificate_post c c') (fun _ c' => same_state c c') c.
Proof.
  unfold client_do_handle_certificate. do 2 apply wlp_bind. eapply wlp_mono; [apply handle_certificate_registers | | done].
  intros got c1 (Hs & Hp & Ht & Hcb). unfold same_state, certificate_post in *. wl; views; split_and?; try congruence; try extends.
  destruct (verify_certificate ctx); [|done]. destruct Hcb as (certs & v & ? & ? & ?); [done|].
  exists certs, v. split_and!; [done | congruence|]. eapply trace_extends_in; [|eassumption]. extends.
Qed.

Lemma client_handle_certificate_moves message c :
  wlp (client_handle_certificate ctx message) (fun r c' => r = PTLS_ERROR_IN_PROGRESS /\ certificate_post c c') (fun _ c' => same_state c c') c.
Proof. apply client_do_handle_certificate_moves. Qed.

Lemma client_handle_compressed_certificate_moves message c :
  wlp (client_handle_compressed_certificate ctx message)
    (fun r c' => r = PTLS_ERROR_IN_PROGRESS /\ certificate_post c c') (fun _ c' => same_state c c') c.
Proof.
  unfold client_handle_compressed_certificate. destruct (decompress_certificate ctx); [|done]. apply wlp_bind.
  apply wlp_lift; [|done]. intros. apply client_do_handle_certificate_moves.
Qed.

Lemma client_handle_certificate_verify_moves message c :
  wlp (client_handle_certificate_verify message)
    (fun r c' => r = PTLS_ERROR_IN_PROGRESS /\ t_state (c_tls c') = PTLS_STATE_CLIENT_EXPECT_FINISHED /\
       t_is_psk_handshake (c_tls c') = t_is_psk_handshake (c_tls c) /\ trace_extends c c' /\
       (verifier_registered ctx c -> accepts_signature ctx PTLS_SERVER_CERTIFICATE_VERIFY_CONTEXT_STRING c c'))
    (fun _ c' => same_state c c') c.
Proof.
  apply wlp_bind. eapply wlp_mono; [apply (handle_certificate_verify_checks ctx) | | done].
  intros _ c1 (Hs & Hp & Ht & Hv). unfold same_state in *. wl; views; split_and?; try congruence; try extends.
  intros Hreg. eapply accepts_signature_extends; [apply Hv; [cbn; lia | done] | extends].
Qed.

Lemma client_handle_finished_moves message c :
  wlp (client_handle_finished ctx message)
    (fun r c' => r = 0 /\ t_state (c_tls c') = PTLS_STATE_CLIENT_POST_HANDSHAKE /\
       t_is_psk_handshake (c_tls c') = t_is_psk_handshake (c_tls c) /\
       accepts_finished c c')
    (fun _ c' => same_state c c') c.
Proof.
  apply wlp_bind. eapply wlp_mono; [apply verify_finished_logs | | cbv beta; intros; views; done].
  intros _ c1 (Hs & Ha). unfold same_state in *. wl; views; split_and?; try congruence; try extends.
  eapply accepts_finished_extends; [exact Ha | extends].
Qed.

(** What a message of the given type does in each state. *)
Definition client_post (type : Z) (last : bool) (c : conn) (r : Z) (c' : conn) : Prop :=
  match t_state (c_tls c) with
  | PTLS_STATE_CLIENT_EXPECT_SERVER_HELLO
  | PTLS_STATE_CLIENT_EXPECT_SECOND_SERVER_HELLO =>
      type = PTLS_HANDSHAKE_TYPE_SERVER_HELLO /\ last = true /\ r = PTLS_ERROR_IN_PROGRESS /\ trace_extends c c' /\
      (t_state (c_tls c') = PTLS_STATE_CLIENT_EXPECT_SECOND_SERVER_HELLO \/ t_state (c_tls c') = PTLS_STATE_CLIENT_EXPECT_ENCRYPTED_EXTENSIONS)
  | PTLS_STATE_CLIENT_EXPECT_ENCRYPTED_EXTENSIONS =>
      type = PTLS_HANDSHAKE_TYPE_ENCRYPTED_EXTENSIONS /\ r = PTLS_ERROR_IN_PROGRESS /\
      moved_to c (if t_is_psk_handshake (c_tls c) then PTLS_STATE_CLIENT_EXPECT_FINISHED
                  else PTLS_STATE_CLIENT_EXPECT_CERTIFICATE_REQUEST_OR_CERTIFICATE) c'
  | PTLS_STATE_CLIENT_EXPECT_CERTIFICATE_REQUEST_OR_CERTIFICATE =>
      (type = PTLS_HANDSHAKE_TYPE_CERTIFICATE_REQUEST /\ r = PTLS_ERROR_IN_PROGRESS /\ moved_to c PTLS_STATE_CLIENT_EXPECT_CERTIFICATE c') \/
      ((type = PTLS_HANDSHAKE_TYPE_CERTIFICATE \/ type = PTLS_HANDSHAKE_TYPE_COMPRESSED_CERTIFICATE) /\
       r = PTLS_ERROR_IN_PROGRESS /\ certificate_post c c')
  | PTLS_STATE_CLIENT_EXPECT_CERTIFICATE =>
      (type = PTLS_HANDSHAKE_TYPE_CERTIFICATE \/ type = PTLS_HANDSHAKE_TYPE_COMPRESSED_CERTIFICATE) /\
      r = PTLS_ERROR_IN_PROGRESS /\ certificate_post c c'
  | PTLS_STATE_CLIENT_EXPECT_CERTIFICATE_VERIFY =>
      type = PTLS_HANDSHAKE_TYPE_CERTIFICATE_VERIFY /\ r = PTLS_ERROR_IN_PROGRESS /\ t_state (c_tls c') = PTLS_STATE_CLIENT_EXPECT_FINISHED /\
      t_is_psk_handshake (c_tls c') = t_is_psk_handshake (c_tls c) /\ trace_extends c c' /\
      (verifier_registered ctx c -> accepts_signature ctx PTLS_SERVER_CERTIFICATE_VERIFY_CONTEXT_STRING c c')
  | PTLS_STATE_CLIENT_EXPECT_FINISHED =>
      type = PTLS_HANDSHAKE_TYPE_FINISHED /\ last = true /\ r = 0 /\ t_state (c_tls c') = PTLS_STATE_CLIENT_POST_HANDSHAKE /\
      t_is_psk_handshake (c_tls c') = t_is_psk_handshake (c_tls c) /\
      accepts_finished c c'
  | PTLS_STATE_CLIENT_POST_HANDSHAKE =>
      (type = PTLS_HANDSHAKE_TYPE_NEW_SESSION_TICKET \/ type = PTLS_HANDSHAKE_TYPE_KEY_UPDATE) /\ r = 0 /\
      moved_to c PTLS_STATE_CLIENT_POST_HANDSHAKE c'
  | _ => False
  end.

Lemma wlp_refuse {A} e (Q : A -> conn -> Prop) c : wlp (fail e) Q (fun _ c' => same_state c c') c.
Proof. by apply wlp_fail. Qed.

Lemma certificate_dispatch type message c :
  wlp (if type =? PTLS_HANDSHAKE_TYPE_CERTIFICATE then client_handle_certificate ctx message
       else if type =? PTLS_HANDSHAKE_TYPE_COMPRESSED_CERTIFICATE then client_handle_compressed_certificate ctx message
       else fail PTLS_ALERT_UNEXPECTED_MESSAGE)
    (fun r c' => (type = PTLS_HANDSHAKE_TYPE_CERTIFICATE \/ type = PTLS_HANDSHAKE_TYPE_COMPRESSED_CERTIFICATE) /\
       r = PTLS_ERROR_IN_PROGRESS /\ certificate_post c c')
    (fun _ c' => same_state c c') c.
Proof.
  repeat case_match; b2p; [| |apply wlp_refuse].
  - eapply wlp_mono; [apply client_handle_certificate_moves | naive_solver | done].
  - eapply wlp_mono; [apply client_handle_compressed_certificate_moves | naive_solver | done].
Qed.

Lemma client_handle_new_session_ticket_code message c : wlp (client_handle_new_session_ticket ctx message) (fun r _ => r = 0) (fun _ _ => True) c.
Proof. unfold client_handle_new_session_ticket. wl_options; done. Qed.

Lemma client_dispatch message eor c :
  wlp (handle_client_handshake_message is_ipaddr ctx props message eor)
    (fun r c' => exists type rest, message = type :: rest /\ client_post type eor c r c')
    (fun _ c' => same_state c c') c.
Proof.
  unfold handle_client_handshake_message. apply wlp_bind, wlp_lift; [|done]. intros type Htype.
  assert (exists rest, message = type :: rest) as [rest ->] by (destruct message; [done|]; inversion Htype; eauto).
  eapply wlp_mono with (Q := client_post type eor c) (E := fun _ c' => same_state c c'); [| by eauto | done].
  apply wlp_bind, wlp_tls_get. cbn zeta. unfold client_post. destruct (t_state (c_tls c)) eqn:Hst; try done.
  1-2: destruct ((type =? PTLS_HANDSHAKE_TYPE_SERVER_HELLO) && eor) eqn:Hm; [b2p | apply wlp_refuse];
    (eapply wlp_mono; [apply client_handle_hello_moves | naive_solver | done]).
  - destruct (type =? _) eqn:Hm; b2p; [|apply wlp_refuse].
    eapply wlp_mono; [apply client_handle_encrypted_extensions_moves | naive_solver | done].
  - destruct (type =? PTLS_HANDSHAKE_TYPE_CERTIFICATE_REQUEST) eqn:Hm; b2p; 
      (eapply wlp_mono; [first [apply client_handle_certificate_request_moves | apply certificate_dispatch] | naive_solver | done]).
  - apply certificate_dispatch.
  - destruct (type =? _) eqn:Hm; b2p; [|apply wlp_refuse].
    eapply wlp_mono; [apply client_handle_certificate_verify_moves | naive_solver | done].
  - destruct ((type =? PTLS_HANDSHAKE_TYPE_FINISHED) && eor) eqn:Hm; b2p; [|apply wlp_refuse].
    eapply wlp_mono; [apply client_handle_finished_moves | naive_solver | done].
  - destruct (type =? PTLS_HANDSHAKE_TYPE_NEW_SESSION_TICKET) eqn:Hm; b2p; [|destruct (type =? PTLS_HANDSHAKE_TYPE_KEY_UPDATE) eqn:Hk; b2p; [|apply wlp_refuse]].
    + unfold client_handle_new_session_ticket, moved_to, moved, same_state. wl_options; views; split_and?; try congruence; try extends; by auto.
    + unfold moved_to, moved, same_state. wl; views; split_and?; try congruence; try extends; by auto.
Qed.

(** ** Runs of a client *)

(** Handshakes whose messages were all handled without an error.  Between two
    messages anything may change except the fields of [auth_view]: the
    buffers, the record protection, the environment. *)
Inductive client_reachable : conn -> Prop :=
| client_started c r c' :
    t_state (c_tls c) = PTLS_STATE_CLIENT_HANDSHAKE_START -> t_is_psk_handshake (c_tls c) = false -> c_trace c = [] ->
    send_client_hello is_ipaddr ctx props None c = Done r c' -> client_reachable c'
| client_handled c message eor r c' :
    client_reachable c -> handle_client_handshake_message is_ipaddr ctx props message eor c = Done r c' -> client_reachable c'
| client_elsewhere c c' :
    client_reachable c -> auth_view (c_tls c') = auth_view (c_tls c) -> c_trace c' = c_trace c -> client_reachable c'.

Definition server_authenticated : conn -> Prop :=
  peer_authenticated ctx client_reachable PTLS_STATE_CLIENT_EXPECT_CERTIFICATE_VERIFY PTLS_SERVER_CERTIFICATE_VERIFY_CONTEXT_STRING.

Definition client_invariant (c : conn) : Prop :=
  let is_psk := t_is_psk_handshake (c_tls c) = true in
  match t_state (c_tls c) with
  | PTLS_STATE_CLIENT_EXPECT_CERTIFICATE_VERIFY => verifier_registered ctx c
  | PTLS_STATE_CLIENT_EXPECT_FINISHED => is_psk \/ server_authenticated c
  | PTLS_STATE_CLIENT_POST_HANDSHAKE =>
      finished_after client_reachable PTLS_STATE_CLIENT_EXPECT_FINISHED (fun before => is_psk \/ server_authenticated before) c
  | _ => True
  end.

Context (cb : list bytes -> Z + option (bytes -> bytes -> Z)).
Context (Hcb : verify_certificate ctx = Some cb) (Hverifier : forall certs v, cb certs = inr v -> is_Some v).

Lemma certificate_post_registers c c' : certificate_post c c' -> client_invariant c'.
Proof.
  intros (Hs & _ & _ & H). unfold client_invariant. rewrite Hs. rewrite Hcb in H. destruct H as (certs & v & Hc & Hv & Hin).
  destruct (Hverifier _ _ Hc) as [v' ->]. exists cb, certs, v'. auto.
Qed.

Lemma client_invariant_step message eor c r c' :
  client_reachable c -> client_invariant c -> handle_client_handshake_message is_ipaddr ctx props message eor c = Done r c' -> client_invariant c'.
Proof.
  intros Hr Hi Hrun. destruct (wlp_done _ _ _ _ _ _ (client_dispatch message eor c) Hrun) as (type & rest & _ & Hpost).
  unfold client_post in Hpost. unfold client_invariant in Hi. destruct (t_state (c_tls c)) eqn:Hst; try done.
  - by destruct Hpost as (_ & _ & _ & _ & [Hs|Hs]); unfold client_invariant; rewrite Hs.
  - by destruct Hpost as (_ & _ & _ & _ & [Hs|Hs]); unfold client_invariant; rewrite Hs.
  - destruct Hpost as (_ & _ & Hs & Hp & _). unfold client_invariant. rewrite Hs, Hp. destruct (t_is_psk_handshake _); auto.
  - destruct Hpost as [(_ & _ & Hs & _) | (_ & _ & Hpost)]; [unfold client_invariant; by rewrite Hs | by eapply certificate_post_registers].
  - destruct Hpost as (_ & _ & Hpost). by eapply certificate_post_registers.
  - destruct Hpost as (_ & _ & Hs & _ & _ & Hv). unfold client_invariant. rewrite Hs. right.
    eapply accepts_signature_authenticated; [exact Hr | exact Hst | by apply Hv].
  - destruct Hpost as (_ & _ & _ & Hs & Hp & Ha). unfold client_invariant. rewrite Hs, Hp. by eapply accepts_finished_after.
  - destruct Hpost as (_ & _ & Hs & Hp & _ & He). unfold client_invariant. rewrite Hs, Hp. by eapply finished_after_extends.
Qed.

Lemma client_invariant_reachable c : client_reachable c -> client_invariant c.
Proof.
  induction 1 as [c r c' Hs Hp Ht Hrun | c message eor r c' Hr IH Hrun | c c' _ IH Hv Ht].
  - destruct (wlp_done _ _ _ _ _ _ (send_client_hello_moves None c) Hrun) as (_ & Hs' & _). unfold client_invariant. by rewrite Hs'.
  - by eapply client_invariant_step.
  - views. unfold client_invariant, verifier_registered, finished_after, server_authenticated, peer_authenticated, trace_extends in *. repeat match goal with H : _ (c_tls c') = _ |- _ => rewrite H end.
    rewrite Ht. done.
Qed.

End Client.

(** C13: the client handles a message only as its state machine allows, returns 0
    exactly when the handshake is complete, and refuses a ServerHello or a
    Finished that is not at the end of its record; a message that fails leaves the
    state as it was. *)
Theorem client_refines_state_machine is_ipaddr ctx props message eor c :
  match handle_client_handshake_message is_ipaddr ctx props message eor c with
  | Done r c' =>
      exists type rest, message = type :: rest /\ client_transition (t_state (c_tls c)) type (t_state (c_tls c')) /\
        (type = PTLS_HANDSHAKE_TYPE_SERVER_HELLO \/ type = PTLS_HANDSHAKE_TYPE_FINISHED -> eor = true) /\
        r = (if bool_decide (t_state (c_tls c') = PTLS_STATE_CLIENT_POST_HANDSHAKE) then 0 else PTLS_ERROR_IN_PROGRESS)
  | Fail _ c' => t_state (c_tls c') = t_state (c_tls c)
  | Undefined _ => True
  end.
Proof.
  pose proof (client_dispatch is_ipaddr ctx props message eor c) as H. unfold wlp in H.
  destruct (handle_client_handshake_message is_ipaddr ctx props message eor c) as [r c'|e c'|]; [|done..].
  destruct H as (type & rest & -> & H). exists type, rest. split; [done|]. unfold client_post, moved_to, certificate_post in H.
  destruct (t_state (c_tls c)); try done; destruct_and?; destruct_or?; destruct_and?; destruct_or?; subst; try destruct (t_is_psk_handshake (c_tls c));
    repeat match goal with H : t_state (c_tls c') = _ |- _ => rewrite H end; (split; [solve [constructor; auto] | split; [by intros [|] | done]]).
Qed.

(** ** The server *)

(** The transitions of the server (RFC 8446, appendix A.2); a server that requires
    client authentication takes neither early data nor resumed sessions, and no
    server takes early data after a retry. *)
Inductive server_transition (client_auth : bool) : en_ptls_state_t -> Z -> en_ptls_state_t -> Prop :=
| st_retry :
    server_transition client_auth PTLS_STATE_SERVER_EXPECT_CLIENT_HELLO PTLS_HANDSHAKE_TYPE_CLIENT_HELLO
      PTLS_STATE_SERVER_EXPECT_SECOND_CLIENT_HELLO
| st_hello s s' : s = PTLS_STATE_SERVER_EXPECT_CLIENT_HELLO \/ s = PTLS_STATE_SERVER_EXPECT_SECOND_CLIENT_HELLO ->
    s' = (if client_auth then PTLS_STATE_SERVER_EXPECT_CERTIFICATE else PTLS_STATE_SERVER_EXPECT_FINISHED) ->
    server_transition client_auth s PTLS_HANDSHAKE_TYPE_CLIENT_HELLO s'
| st_hello_early : client_auth = false ->
    server_transition client_auth PTLS_STATE_SERVER_EXPECT_CLIENT_HELLO PTLS_HANDSHAKE_TYPE_CLIENT_HELLO
      PTLS_STATE_SERVER_EXPECT_END_OF_EARLY_DATA
| st_certificate :
    server_transition client_auth PTLS_STATE_SERVER_EXPECT_CERTIFICATE PTLS_HANDSHAKE_TYPE_CERTIFICATE
      PTLS_STATE_SERVER_EXPECT_CERTIFICATE_VERIFY
| st_certificate_verify :
    server_transition client_auth PTLS_STATE_SERVER_EXPECT_CERTIFICATE_VERIFY PTLS_HANDSHAKE_TYPE_CERTIFICATE_VERIFY
      PTLS_STATE_SERVER_EXPECT_FINISHED
| st_end_of_early_data :
    server_transition client_auth PTLS_STATE_SERVER_EXPECT_END_OF_EARLY_DATA PTLS_HANDSHAKE_TYPE_END_OF_EARLY_DATA
      PTLS_STATE_SERVER_EXPECT_FINISHED
| st_finished :
    server_transition client_auth PTLS_STATE_SERVER_EXPECT_FINISHED PTLS_HANDSHAKE_TYPE_FINISHED PTLS_STATE_SERVER_POST_HANDSHAKE
| st_post :
    server_transition client_auth PTLS_STATE_SERVER_POST_HANDSHAKE PTLS_HANDSHAKE_TYPE_KEY_UPDATE PTLS_STATE_SERVER_POST_HANDSHAKE.

Section Server.
Context (ctx : ptls_context_t) (props : option ptls_handshake_properties_t).

Lemma keeps_call_on_client_hello params : keeps full_view (call_on_client_hello ctx params).
Proof. unfold call_on_client_hello. frame. Qed.
Hint Resolve keeps_call_on_client_hello : frame.
Lemma keeps_decode_hello message : keeps full_view (server_decode_hello ctx props message).
Proof. unfold server_decode_hello. frame. Qed.
Lemma keeps_check_version second message ch : keeps full_view (server_check_version ctx second message ch).
Proof. unfold server_check_version. frame. Qed.
Lemma keeps_check_hello ch : keeps full_view (server_check_hello ch).
Proof. unfold server_check_hello. frame. Qed.
Lemma keeps_find_name ch : keeps full_view (server_find_name ctx ch).
Proof. unfold server_find_name. frame. Qed.
Hint Resolve keeps_decode_hello keeps_check_version keeps_check_hello keeps_find_name : frame.
Lemma keeps_first_hello message ch : keeps full_view (server_handle_first_hello ctx message ch).
Proof. unfold server_handle_first_hello. frame. Qed.
Lemma keeps_second_hello ch : keeps full_view (server_check_second_hello ch).
Proof. unfold server_check_second_hello. frame. Qed.
Lemma keeps_select_cipher second ch : keeps full_view (server_select_cipher ctx second ch).
Proof. unfold server_select_cipher. frame. Qed.
Lemma keeps_select_key_share ch : keeps full_view (server_select_key_share ctx ch).
Proof. unfold server_select_key_share. frame. Qed.
Lemma keeps_cookie_signature p group tbs : keeps full_view (calc_cookie_signature ctx p group tbs).
Proof. unfold calc_cookie_signature. frame. Qed.
Hint Resolve keeps_first_hello keeps_second_hello keeps_select_cipher keeps_select_key_share keeps_cookie_signature : frame.
Lemma keeps_restore ch kx : keeps full_view (server_restore_from_cookie ctx props ch kx).
Proof. unfold server_restore_from_cookie. frame. Qed.
Lemma keeps_build_cookie p has group : keeps full_view (server_build_cookie ctx p has group).
Proof. unfold server_build_cookie. frame. Qed.
Lemma keeps_find_psk ids i now early acc : keeps full_view (find_psk ctx ids i now early acc).
Proof. revert i acc. induction ids as [|id ids IH]; intros i acc; cbn [find_psk]; frame. Qed.
Hint Resolve keeps_restore keeps_build_cookie keeps_find_psk : frame.
Lemma keeps_try_psk_handshake psk t : keeps full_view (try_psk_handshake ctx psk t).
Proof. unfold try_psk_handshake. frame. Qed.
Hint Resolve keeps_try_psk_handshake : frame.
Lemma keeps_try_psk second message ch : keeps full_view (server_try_psk ctx second message ch).
Proof. unfold server_try_psk. frame. Qed.
Lemma keeps_select_mode second message ch i : keeps server_view (server_select_mode ctx props second message ch i).
Proof. unfold server_select_mode. frame. Qed.
Lemma keeps_run_key_exchange mode ch share : keeps full_view (server_run_key_exchange mode ch share).
Proof. unfold server_run_key_exchange. frame. Qed.
Lemma keeps_send_hello mode ch i x : keeps full_view (server_send_hello ctx mode ch i x).
Proof. unfold server_send_hello. frame. Qed.
Lemma keeps_encrypted_extensions : keeps full_view (server_send_encrypted_extensions props).
Proof. unfold server_send_encrypted_extensions. frame. Qed.
Lemma keeps_send_certificates mode ch : keeps full_view (server_send_certificates ctx mode ch).
Proof. unfold server_send_certificates. frame. Qed.
Lemma keeps_application_keys : keeps full_view (server_setup_application_keys ctx).
Proof. unfold server_setup_application_keys. frame. Qed.
Hint Resolve keeps_try_psk keeps_select_mode keeps_run_key_exchange keeps_send_hello keeps_encrypted_extensions keeps_send_certificates
  keeps_application_keys : frame.

Lemma try_psk_declines second message ch c :
  wlp (server_try_psk ctx second message ch)
    (fun x c' => server_view (c_tls c') = server_view (c_tls c) /\ trace_extends c c' /\
       (second = true \/ require_client_authentication ctx = true -> x = (None, false)))
    (fun _ c' => same_state c c') c.
Proof.
  assert (second = true \/ require_client_authentication ctx = true -> server_try_psk ctx second message ch = ret (None, false)) as Hskip.
  { unfold server_try_psk. destruct (psk_hash_end _); [|done]. intros [-> | ->]; cbn; by rewrite ?andb_false_r. }
  destruct (decide (second = true \/ require_client_authentication ctx = true)) as [Hd|Hd].
  - rewrite Hskip by done. apply wlp_ret. split_and!; [done | apply trace_extends_refl | done].
  - apply (wlp_keeps server_view); [apply keeps_server, keeps_try_psk | done |]. intros e c' Hv _. views. done.
Qed.

Lemma accept_early_data_pending accept i c :
  wlp (server_accept_early_data ctx accept i)
    (fun _ c' => same_state c c' /\ trace_extends c c' /\ (accept = false -> has_pending (c_tls c') = has_pending (c_tls c)))
    (fun _ c' => same_state c c') c.
Proof.
  unfold server_accept_early_data, same_state. apply wlp_when; intros Hb; [|by split_and!; [|extends|]].
  wl; views; split_and?; try congruence; try extends. intros ->. done.
Qed.

Lemma handshake_keys_pending ch secret c :
  wlp (server_setup_handshake_keys ctx ch secret)
    (fun _ c' => same_state c c' /\ trace_extends c c' /\ has_pending (c_tls c') = has_pending (c_tls c))
    (fun _ c' => same_state c c') c.
Proof.
  unfold server_setup_handshake_keys, same_state, has_pending. wl_options; views; split_and?; try congruence; try extends.
  all: repeat case_match; congruence.
Qed.

Lemma next_state_moves c :
  wlp (server_next_state ctx)
    (fun _ c' => trace_extends c c' /\
       if has_pending (c_tls c) then
         (t_state (c_tls c') = PTLS_STATE_SERVER_EXPECT_FINISHED \/ t_state (c_tls c') = PTLS_STATE_SERVER_EXPECT_END_OF_EARLY_DATA)
       else t_state (c_tls c') = (if require_client_authentication ctx then PTLS_STATE_SERVER_EXPECT_CERTIFICATE else PTLS_STATE_SERVER_EXPECT_FINISHED))
    (fun _ c' => same_state c c') c.
Proof.
  unfold server_next_state, same_state, has_pending. wl_options; views; split_and?; try congruence; try extends; auto.
Qed.

(** The outcome of a ClientHello that is not answered with a retry. *)
Definition hello_completed (second : bool) (c : conn) (r : Z) (c' : conn) : Prop :=
  trace_extends c c' /\ r = (if require_client_authentication ctx then PTLS_ERROR_IN_PROGRESS else 0) /\
  if second || require_client_authentication ctx
  then t_state (c_tls c') = (if require_client_authentication ctx then PTLS_STATE_SERVER_EXPECT_CERTIFICATE else PTLS_STATE_SERVER_EXPECT_FINISHED)
  else t_state (c_tls c') = PTLS_STATE_SERVER_EXPECT_FINISHED \/ t_state (c_tls c') = PTLS_STATE_SERVER_EXPECT_END_OF_EARLY_DATA.

Lemma complete_hello_moves second message ch share c :
  has_pending (c_tls c) = false ->
  wlp (server_complete_hello ctx props second message ch share) (hello_completed second c) (fun _ _ => True) c.
Proof.
  intros Hp. unfold server_complete_hello, hello_completed.
  wl_with ltac:(idtac; lazymatch goal with
    | |- wlp (server_try_psk _ _ _ _) _ _ _ => eapply wlp_mono; [apply try_psk_declines | cbv beta; intros [? ?] ? (? & ? & ?) | done]
    | |- wlp (server_accept_early_data _ _ _) _ _ _ => eapply wlp_mono; [apply accept_early_data_pending | cbv beta; intros ? ? (? & ? & ?) | done]
    | |- wlp (server_setup_handshake_keys _ _ _) _ _ _ => eapply wlp_mono; [apply handshake_keys_pending | cbv beta; intros ? ? (? & ? & ?) | done]
    | |- wlp (server_next_state _) _ _ _ => eapply wlp_mono; [apply next_state_moves | cbv beta; intros ? ? (? & ?) | done]
    end); try done; views; split_and?; try extends; try done.
  destruct (second || require_client_authentication ctx) eqn:Hd.
  - assert ((o, b) = (None, false)) as [= -> ->] by (apply orb_true_iff in Hd; auto).
    match goal with H : false = false -> _ |- _ => specialize (H eq_refl) end.
    case_match; congruence.
  - apply orb_false_iff in Hd as [-> Hr]. rewrite Hr in *. case_match; destruct_or?; first [left; congruence | right; congruence].
Qed.

Lemma stateful_retry_moves ch csid group c :
  wlp (server_stateful_retry ch csid group)
    (fun r c' => trace_extends c c' /\ r = PTLS_ERROR_IN_PROGRESS /\ t_state (c_tls c') = PTLS_STATE_SERVER_EXPECT_SECOND_CLIENT_HELLO /\
       has_pending (c_tls c') = has_pending (c_tls c))
    (fun _ _ => True) c.
Proof. unfold server_stateful_retry. wl; try done; views; split_and?; try congruence; extends. Qed.

Lemma send_retry_moves message ch has c :
  wlp (server_send_retry ctx props message ch has)
    (fun r c' => trace_extends c c' /\ r = PTLS_ERROR_IN_PROGRESS /\ t_state (c_tls c') = PTLS_STATE_SERVER_EXPECT_SECOND_CLIENT_HELLO /\
       has_pending (c_tls c') = has_pending (c_tls c))
    (fun _ _ => True) c.
Proof.
  unfold server_send_retry.
  wl_with ltac:(idtac; lazymatch goal with
    | |- wlp (server_stateful_retry _ _ _) _ _ _ => eapply wlp_mono; [apply stateful_retry_moves | cbv beta; intros ? ? (? & ? & ? & ?) | done]
    end); try done; views; split_and?; try congruence; extends.
Qed.

(** A ClientHello is answered with a retry, at most once, or completed. *)
Definition hello_handled (c : conn) (r : Z) (c' : conn) : Prop :=
  (exists second, (t_state (c_tls c) = PTLS_STATE_SERVER_EXPECT_SECOND_CLIENT_HELLO -> second = true) /\ hello_completed second c r c') \/
  (t_state (c_tls c) <> PTLS_STATE_SERVER_EXPECT_SECOND_CLIENT_HELLO /\ trace_extends c c' /\ r = PTLS_ERROR_IN_PROGRESS /\
   t_state (c_tls c') = PTLS_STATE_SERVER_EXPECT_SECOND_CLIENT_HELLO /\ has_pending (c_tls c') = false).

Lemma server_handle_hello_moves message c :
  has_pending (c_tls c) = false -> wlp (server_handle_hello ctx props message) (hello_handled c) (fun _ _ => True) c.
Proof.
  intros Hp. unfold server_handle_hello.
  wl_with ltac:(idtac; lazymatch goal with
    | |- wlp (server_complete_hello _ _ _ _ _ _) _ _ _ =>
        eapply wlp_mono; [apply complete_hello_moves | cbv beta; unfold hello_completed; intros ? ? (? & ? & ?) | done]
    | |- wlp (server_send_retry _ _ _ _ _) _ _ _ =>
        eapply wlp_mono; [apply send_retry_moves | cbv beta; intros ? ? (? & ? & ? & ?) | done]
    end); try done; views; try congruence.
  all: repeat match goal with
    | H : bool_decide _ = true |- _ => apply bool_decide_eq_true in H
    | H : bool_decide _ = false |- _ => apply bool_decide_eq_false in H
    end.
  all: first [ right; split_and!; [assumption | extends | assumption | assumption | congruence]
             | left; eexists; (split; [|split; [extends | split; eassumption]]); done ].
Qed.

Definition certificate_registered (c : conn) : Prop :=
  match verify_certificate ctx with
  | Some cb => exists certs verifier, cb certs = inr verifier /\ t_certificate_verify (c_tls c) = verifier /\ In (EvCertificates certs) (c_trace c)
  | None => True
  end.

Lemma server_handle_certificate_moves message c :
  wlp (server_handle_certificate ctx message)
    (fun r c' => r = PTLS_ERROR_IN_PROGRESS /\ t_state (c_tls c') = PTLS_STATE_SERVER_EXPECT_CERTIFICATE_VERIFY /\ certificate_registered c')
    (fun _ c' => same_state c c') c.
Proof.
  apply wlp_bind. eapply wlp_mono; [apply handle_certificate_registers | | done].
  intros got c1 (Hs & _ & _ & Hreg). unfold same_state, certificate_registered in *. wl; views; split_and?; try congruence.
  destruct (verify_certificate ctx); [|done]. destruct Hreg as (certs & v & ? & ? & ?); [done|].
  exists certs, v. split_and!; [done | congruence|]. eapply trace_extends_in; [|eassumption]. extends.
Qed.

Lemma server_handle_certificate_verify_moves message c :
  wlp (server_handle_certificate_verify message)
    (fun r c' => r = PTLS_ERROR_IN_PROGRESS /\ t_state (c_tls c') = PTLS_STATE_SERVER_EXPECT_FINISHED /\
       (verifier_registered ctx c -> accepts_signature ctx PTLS_CLIENT_CERTIFICATE_VERIFY_CONTEXT_STRING c c'))
    (fun _ c' => same_state c c') c.
Proof.
  apply wlp_bind. eapply wlp_mono; [apply (handle_certificate_verify_checks ctx) | | done].
  intros _ c1 (Hs & _ & _ & Hv). unfold same_state in *. wl; views; split_and?; try congruence.
  intros Hreg. eapply accepts_signature_extends; [apply Hv; [cbn; lia | done] | extends].
Qed.

Lemma server_handle_end_of_early_data_moves message c :
  wlp (server_handle_end_of_early_data ctx message)
    (fun r c' => r = PTLS_ERROR_IN_PROGRESS /\ t_state (c_tls c') = PTLS_STATE_SERVER_EXPECT_FINISHED) (fun _ c' => same_state c c') c.
Proof. unfold server_handle_end_of_early_data, same_state. wl; views; split_and?; congruence. Qed.

Lemma server_handle_finished_moves message c :
  wlp (server_handle_finished ctx message)
    (fun r c' => r = 0 /\ t_state (c_tls c') = PTLS_STATE_SERVER_POST_HANDSHAKE /\
       accepts_finished c c')
    (fun _ c' => same_state c c') c.
Proof.
  apply wlp_bind. eapply wlp_mono; [apply verify_finished_logs | | cbv beta; intros; views; done].
  intros _ c1 (Hs & Ha). unfold same_state in *. wl; views; split_and?; try congruence; try extends.
  eapply accepts_finished_extends; [exact Ha | extends].
Qed.

(** What a message of the given type does in each state. *)
Definition server_post (type : Z) (last : bool) (c : conn) (r : Z) (c' : conn) : Prop :=
  match t_state (c_tls c) with
  | PTLS_STATE_SERVER_EXPECT_CLIENT_HELLO
  | PTLS_STATE_SERVER_EXPECT_SECOND_CLIENT_HELLO =>
      type = PTLS_HANDSHAKE_TYPE_CLIENT_HELLO /\ last = true /\ hello_handled c r c'
  | PTLS_STATE_SERVER_EXPECT_CERTIFICATE =>
      type = PTLS_HANDSHAKE_TYPE_CERTIFICATE /\ r = PTLS_ERROR_IN_PROGRESS /\ t_state (c_tls c') = PTLS_STATE_SERVER_EXPECT_CERTIFICATE_VERIFY /\
      certificate_registered c'
  | PTLS_STATE_SERVER_EXPECT_CERTIFICATE_VERIFY =>
      type = PTLS_HANDSHAKE_TYPE_CERTIFICATE_VERIFY /\ r = PTLS_ERROR_IN_PROGRESS /\ t_state (c_tls c') = PTLS_STATE_SERVER_EXPECT_FINISHED /\
      (verifier_registered ctx c -> accepts_signature ctx PTLS_CLIENT_CERTIFICATE_VERIFY_CONTEXT_STRING c c')
  | PTLS_STATE_SERVER_EXPECT_END_OF_EARLY_DATA =>
      type = PTLS_HANDSHAKE_TYPE_END_OF_EARLY_DATA /\ r = PTLS_ERROR_IN_PROGRESS /\ t_state (c_tls c') = PTLS_STATE_SERVER_EXPECT_FINISHED
  | PTLS_STATE_SERVER_EXPECT_FINISHED =>
      type = PTLS_HANDSHAKE_TYPE_FINISHED /\ last = true /\ r = 0 /\ t_state (c_tls c') = PTLS_STATE_SERVER_POST_HANDSHAKE /\
      accepts_finished c c'
  | PTLS_STATE_SERVER_POST_HANDSHAKE =>
      type = PTLS_HANDSHAKE_TYPE_KEY_UPDATE /\ r = 0 /\ moved_to c PTLS_STATE_SERVER_POST_HANDSHAKE c'
  | _ => False
  end.
Definition expects_hello (s : en_ptls_state_t) : Prop :=
  s = PTLS_STATE_SERVER_EXPECT_CLIENT_HELLO \/ s = PTLS_STATE_SERVER_EXPECT_SECOND_CLIENT_HELLO.

Lemma server_dispatch message eor c :
  (expects_hello (t_state (c_tls c)) -> has_pending (c_tls c) = false) ->
  wlp (handle_server_handshake_message ctx props message eor)
    (fun r c' => exists type rest, message = type :: rest /\ server_post type eor c r c')
    (fun _ c' => expects_hello (t_state (c_tls c)) \/ same_state c c') c.
Proof.
  intros Hpending. unfold handle_server_handshake_message. apply wlp_bind, wlp_lift; [|by right]. intros type Htype.
  assert (exists rest, message = type :: rest) as [rest ->] by (destruct message; [done|]; inversion Htype; eauto).
  eapply wlp_mono with (Q := server_post type eor c) (E := fun _ c' => expects_hello (t_state (c_tls c)) \/ same_state c c'); [| by eauto | done].
  apply wlp_bind, wlp_tls_get. unfold server_post. destruct (t_state (c_tls c)) eqn:Hst; try done.
  1-2: destruct ((type =? PTLS_HANDSHAKE_TYPE_CLIENT_HELLO) && eor) eqn:Hm; [b2p | by right];
    (eapply wlp_mono; [apply server_handle_hello_moves, Hpending; unfold expects_hello; auto | naive_solver | unfold expects_hello; auto]).
  - destruct (type =? _) eqn:Hm; b2p; [|by right]. eapply wlp_mono; [apply server_handle_certificate_moves | naive_solver | auto].
  - destruct (type =? _) eqn:Hm; b2p; [|by right]. eapply wlp_mono; [apply server_handle_certificate_verify_moves | naive_solver | auto].
  - apply wlp_bind. destruct (omit_end_of_early_data ctx); [done|]. apply wlp_ret.
    destruct (type =? _) eqn:Hm; b2p; [|by right]. eapply wlp_mono; [apply server_handle_end_of_early_data_moves | naive_solver | auto].
  - destruct ((type =? PTLS_HANDSHAKE_TYPE_FINISHED) && eor) eqn:Hm; b2p; [|by right].
    eapply wlp_mono; [apply server_handle_finished_moves | naive_solver | auto].
  - destruct (type =? _) eqn:Hm; b2p; [|by right].
    unfold moved_to, moved, same_state. wl; views; split_and?; try right; try congruence; try extends.
Qed.

(** ** Runs of a server *)

Inductive server_reachable : conn -> Prop :=
| server_started c :
    t_state (c_tls c) = PTLS_STATE_SERVER_EXPECT_CLIENT_HELLO -> t_pending_handshake_secret (c_tls c) = None -> c_trace c = [] ->
    server_reachable c
| server_handled c message eor r c' :
    server_reachable c -> handle_server_handshake_message ctx props message eor c = Done r c' -> server_reachable c'
| server_elsewhere c c' :
    server_reachable c -> server_view (c_tls c') = server_view (c_tls c) -> c_trace c' = c_trace c -> server_reachable c'.

Lemma hello_handled_pending c r c' : hello_handled c r c' -> expects_hello (t_state (c_tls c')) -> has_pending (c_tls c') = false.
Proof.
  intros [(second & _ & _ & _ & Hs) | (_ & _ & _ & _ & Hp)] He; [|done]. exfalso.
  unfold expects_hello in He. repeat case_match; destruct_or?; congruence.
Qed.

Lemma server_reachable_pending c : server_reachable c -> expects_hello (t_state (c_tls c)) -> has_pending (c_tls c) = false.
Proof.
  induction 1 as [c Hs Hp Ht | c message eor r c' _ IH Hrun | c c' _ IH Hv Ht].
  - intros _. unfold has_pending. by rewrite Hp.
  - destruct (wlp_done _ _ _ _ _ _ (server_dispatch message eor c IH) Hrun) as (type & rest & _ & Hpost).
    unfold server_post, moved_to in Hpost. destruct (t_state (c_tls c)); try done; destruct_and?; try (by eapply hello_handled_pending);
      unfold expects_hello; intros [|]; congruence.
  - views. intros He. enough (has_pending (c_tls c) = false) by congruence. apply IH. unfold expects_hello in *. destruct He; [left|right]; congruence.
Qed.

(** Whether the server is done from the application's point of view after a
    message that took it from [s] to [s']: the handshake is complete, or its own
    flight is out and only the client's Finished (and, with early data, the
    EndOfEarlyData) is missing. *)
Definition server_done (s s' : en_ptls_state_t) : bool :=
  bool_decide (s' = PTLS_STATE_SERVER_POST_HANDSHAKE) ||
  (bool_decide (s = PTLS_STATE_SERVER_EXPECT_CLIENT_HELLO) || bool_decide (s = PTLS_STATE_SERVER_EXPECT_SECOND_CLIENT_HELLO)) &&
  (bool_decide (s' = PTLS_STATE_SERVER_EXPECT_FINISHED) || bool_decide (s' = PTLS_STATE_SERVER_EXPECT_END_OF_EARLY_DATA)).

(** C14: in every run the server handles a message only as its state machine
    allows (in which a server that requires client authentication awaits the
    client's Certificate after a ClientHello, and accepts no early data).  It
    returns 0 exactly if the handshake is complete or the message was a
    ClientHello after which the server awaits the client's Finished or, having
    accepted early data, its EndOfEarlyData; otherwise it returns
    PTLS_ERROR_IN_PROGRESS.  It refuses a ClientHello or a Finished that is not at
    the end of its record, and a message other than a ClientHello that fails
    leaves the state as it was. *)
Theorem server_refines_state_machine message eor c :
  server_reachable c ->
  match handle_server_handshake_message ctx props message eor c with
  | Done r c' =>
      exists type rest, message = type :: rest /\
        server_transition (require_client_authentication ctx) (t_state (c_tls c)) type (t_state (c_tls c')) /\
        (type = PTLS_HANDSHAKE_TYPE_CLIENT_HELLO \/ type = PTLS_HANDSHAKE_TYPE_FINISHED -> eor = true) /\
        r = (if server_done (t_state (c_tls c)) (t_state (c_tls c')) then 0 else PTLS_ERROR_IN_PROGRESS)
  | Fail _ c' => expects_hello (t_state (c_tls c)) \/ t_state (c_tls c') = t_state (c_tls c)
  | Undefined _ => True
  end.
Proof.
  intros Hr. pose proof (server_dispatch message eor c (server_reachable_pending c Hr)) as H. unfold wlp in H.
  destruct (handle_server_handshake_message ctx props message eor c) as [r c'|e c'|]; [|done..].
  destruct H as (type & rest & -> & H). exists type, rest. split; [done|].
  unfold server_post, hello_handled, hello_completed, moved_to in H.
  destruct (t_state (c_tls c)); try done; destruct_and?; destruct_or?; destruct_and?;
    repeat match goal with H : exists _, _ |- _ => destruct H as (second & Hsec & _ & ? & ?) end.
  all: try destruct second; try (specialize (Hsec eq_refl); discriminate Hsec).
  all: destruct (require_client_authentication ctx); cbn in *; destruct_or?; subst;
    repeat match goal with H : t_state (c_tls _) = _ |- _ => rewrite H end; (split; [solve [constructor; first [done | auto]]|]).
  all: split_and!; first [done | by intros [|] | by auto].
Qed.

Definition client_authenticated : conn -> Prop :=
  peer_authenticated ctx server_reachable PTLS_STATE_SERVER_EXPECT_CERTIFICATE_VERIFY PTLS_CLIENT_CERTIFICATE_VERIFY_CONTEXT_STRING.

Definition server_invariant (c : conn) : Prop :=
  match t_state (c_tls c) with
  | PTLS_STATE_SERVER_EXPECT_CERTIFICATE_VERIFY => verifier_registered ctx c
  | PTLS_STATE_SERVER_EXPECT_END_OF_EARLY_DATA => require_client_authentication ctx = false
  | PTLS_STATE_SERVER_EXPECT_FINISHED => require_client_authentication ctx = true -> client_authenticated c
  | PTLS_STATE_SERVER_POST_HANDSHAKE =>
      finished_after server_reachable PTLS_STATE_SERVER_EXPECT_FINISHED
        (fun before => require_client_authentication ctx = true -> client_authenticated before) c
  | _ => True
  end.

Context (cb : list bytes -> Z + option (bytes -> bytes -> Z)).
Context (Hcb : verify_certificate ctx = Some cb) (Hverifier : forall certs v, cb certs = inr v -> is_Some v).

Lemma server_hello_invariant c r c' : hello_handled c r c' -> server_invariant c'.
Proof.
  unfold hello_handled, hello_completed, server_invariant. intros [(second & _ & _ & _ & Hs) | (_ & _ & _ & Hs & _)]; [|by rewrite Hs].
  destruct (require_client_authentication ctx) eqn:Hr; [rewrite orb_true_r in Hs; by rewrite Hs|].
  destruct second; [by rewrite Hs | destruct Hs as [Hs|Hs]; by rewrite Hs].
Qed.

Lemma server_invariant_step message eor c r c' :
  server_reachable c -> server_invariant c -> handle_server_handshake_message ctx props message eor c = Done r c' -> server_invariant c'.
Proof.
  intros Hr Hi Hrun.
  destruct (wlp_done _ _ _ _ _ _ (server_dispatch message eor c (server_reachable_pending c Hr)) Hrun) as (type & rest & _ & Hpost).
  unfold server_post in Hpost. unfold server_invariant in Hi. destruct (t_state (c_tls c)) eqn:Hst; try done.
  1-2: destruct Hpost as (_ & _ & Hh); by eapply server_hello_invariant.
  - destruct Hpost as (_ & _ & Hs & H). unfold server_invariant. rewrite Hs. unfold certificate_registered in H. rewrite Hcb in H.
    destruct H as (certs & v & Hc & Hv & Hin). destruct (Hverifier _ _ Hc) as [v' ->]. exists cb, certs, v'. auto.
  - destruct Hpost as (_ & _ & Hs & Hv). unfold server_invariant. rewrite Hs. intros _.
    eapply accepts_signature_authenticated; [exact Hr | exact Hst | by apply Hv].
  - destruct Hpost as (_ & _ & Hs). unfold server_invariant. rewrite Hs. congruence.
  - destruct Hpost as (_ & _ & _ & Hs & Ha). unfold server_invariant. rewrite Hs. by eapply accepts_finished_after.
  - destruct Hpost as (_ & _ & Hs & _ & _ & He). unfold server_invariant. rewrite Hs. by eapply finished_after_extends.
Qed.

Lemma server_invariant_reachable c : server_reachable c -> server_invariant c.
Proof.
  induction 1 as [c Hs Hp Ht | c message eor r c' Hr IH Hrun | c c' _ IH Hv Ht].
  - unfold server_invariant. by rewrite Hs.
  - by eapply server_invariant_step.
  - views. unfold server_invariant, verifier_registered, finished_after, client_authenticated, peer_authenticated, trace_extends in *. repeat match goal with H : _ (c_tls c') = _ |- _ => rewrite H end.
    rewrite Ht. done.
Qed.

End Server.
