(* ===== verification/Locality.v ===== *)
(** * Locality: the handlers do not look at the message buffer

    [tls->recvbuf.mess] belongs to [handle_handshake_record]: the handlers of the
    handshake messages neither read nor write it.  [local m] says so for a
    stateful function: replacing the buffer before or after [m] is the same.  The
    rules are applied by the tactic [local], which unfolds what it does not know. *)
From S2P Require Import Prelude Constants Monad Wire Crypto Record KeySchedule Extensions Messages Hello Esni Context Handshake Client Server Api.

Definition set_mess (v : option bytes) (c : conn) : conn := c <| c_tls := (c_tls c) <| t_recvbuf_mess := v |> |>.
Definition in_outcome {A} (f : conn -> conn) (o : outcome conn A) : outcome conn A :=
  match o with
  | Done a c => Done a (f c)
  | Fail e c => Fail e (f c)
  | Undefined e => Undefined e
  end.
Definition local {A} (m : MC A) : Prop := forall v c, m (set_mess v c) = in_outcome (set_mess v) (m c).

Section Rules.
Lemma local_bind {A B} (m : MC A) (k : A -> MC B) : local m -> (forall a, local (k a)) -> local (bind m k).
Proof. intros Hm Hk v c. unfold bind. rewrite Hm. destruct (m c); cbn; [apply Hk | done..]. Qed.
Lemma local_ret {A} (a : A) : local (ret a).
Proof. done. Qed.
Lemma local_fail {A} e : local (@fail conn A e).
Proof. done. Qed.
Lemma local_undefined {A} f : local (@undefined conn A f).
Proof. done. Qed.
Lemma local_gets {A} (f : conn -> A) : (forall v c, f (set_mess v c) = f c) -> local (gets f).
Proof. intros H v c. unfold gets. cbn. by rewrite H. Qed.
Lemma local_modify f : (forall v c, f (set_mess v c) = set_mess v (f c)) -> local (modify f).
Proof. intros H v c. unfold modify. cbn. by rewrite H. Qed.
Lemma local_lift {A} (r : res A) : local (lift r).
Proof. by destruct r. Qed.
Lemma local_lift_sum {A} (r : Z + A) : local (lift_sum r).
Proof. by destruct r. Qed.
Lemma local_deref {A} (o : option A) : local (deref o).
Proof. by destruct o. Qed.
Lemma local_mguard b e : local (mguard b e).
Proof. by destruct b. Qed.
Lemma local_massert b : local (massert b).
Proof. by destruct b. Qed.
Lemma local_when b m : local m -> local (when b m).
Proof. by destruct b. Qed.
Lemma local_code_of m : local m -> local (code_of m).
Proof. intros H v c. unfold code_of. rewrite H. by destruct (m c). Qed.
Lemma local_code_of' m : local m -> local (code_of' m).
Proof. intros H v c. unfold code_of'. rewrite H. by destruct (m c). Qed.
Lemma local_mfinally {A} (m : MC A) cleanup : local m -> local cleanup -> local (mfinally m cleanup).
Proof.
  intros Hm Hc v c. unfold mfinally. rewrite Hm. destruct (m c) as [a c1|e c1|]; cbn; try done.
  all: unfold bind; rewrite Hc; by destruct (cleanup c1).
Qed.
End Rules.

Create HintDb local.

(** The function applied in a term. *)
Ltac unfold_head m :=
  lazymatch m with
  | ?f _ => unfold_head f
  | _ => unfold m
  end.
Ltac by_fields := intros; repeat match goal with |- context [if ?b then _ else _] => destruct b end; reflexivity.
(** One step; reading and assigning fields are checked by computation. *)
Ltac local_step :=
  lazymatch goal with
  | |- local (bind _ _) => apply local_bind; [|intros]
  | |- local (ret _) => apply local_ret
  | |- local (fail _) => apply local_fail
  | |- local (undefined _) => apply local_undefined
  | |- local (gets _) => apply local_gets; by_fields
  | |- local (tls_get _) => apply local_gets; by_fields
  | |- local (lift _) => apply local_lift
  | |- local (lift_sum _) => apply local_lift_sum
  | |- local (deref _) => apply local_deref
  | |- local (mguard _ _) => apply local_mguard
  | |- local (massert _) => apply local_massert
  | |- local (check_code _) => apply local_mguard
  | |- local (when _ _) => apply local_when
  | |- local (tls_set _) => apply local_modify; by_fields
  | |- local (modify _) => apply local_modify; by_fields
  | |- local (log _) => apply local_modify; by_fields
  | |- local (code_of _) => apply local_code_of
  | |- local (code_of' _) => apply local_code_of'
  | |- local (mfinally _ _) => apply local_mfinally
  | |- local (if ?b then _ else _) => destruct b
  | |- local (match ?x with _ => _ end) => destruct x
  | |- local (let '(_, _) := ?x in _) => destruct x
  | |- local ?m => first [solve [eauto with local nocore] | unfold_head m]
  end.
Ltac local := repeat (cbn zeta; local_step).

Section Handlers.
Context (is_ipaddr : bytes -> bool) (ctx : ptls_context_t) (props : option ptls_handshake_properties_t).

Lemma local_push_message hashed type body : local (ptls_push_message hashed type body).
Proof. local. Qed.
Lemma local_setup_traffic_protection is_enc label epoch skip : local (setup_traffic_protection ctx is_enc label epoch skip).
Proof. unfold setup_traffic_protection. local. Qed.
Hint Resolve local_push_message local_setup_traffic_protection : local.
Lemma local_send_certificate sa c cs p a : local (send_certificate_and_certificate_verify ctx sa c cs p a).
Proof. local. Qed.
Lemma local_handle_certificate mem src end_ : local (handle_certificate ctx mem src end_).
Proof. local. Qed.
Lemma local_send_client_hello cookie : local (send_client_hello is_ipaddr ctx props cookie).
Proof. local. Qed.
Lemma local_find_psk ids i now early acc : local (find_psk ctx ids i now early acc).
Proof. revert i acc. induction ids as [|id ids IH]; intros i acc; unfold find_psk; fold find_psk; local. Qed.
Hint Resolve local_send_certificate local_handle_certificate local_send_client_hello local_find_psk : local.
Lemma local_client_handler m eor : local (handle_client_handshake_message is_ipaddr ctx props m eor).
Proof. local. Qed.
Lemma local_server_handler m eor : local (handle_server_handshake_message ctx props m eor).
Proof. local. Qed.
Hint Resolve local_client_handler local_server_handler : local.

Lemma local_handle_message m eor : local (handle_message is_ipaddr ctx props m eor).
Proof. local. Qed.
End Handlers.
