(* ===== verification/Stream.v ===== *)
(** * Stream: handshake messages and application data over records

    [handle_handshake_record] hands the messages of the handshake stream to their
    handler, the real ones of the client and the server ([Locality]) included,
    however the stream is cut into records; early data that cannot be decrypted is
    skipped within its limit on the input path. *)
From S2P Require Import Prelude Constants Monad Wire Crypto Record KeySchedule Extensions Messages Hello Esni Context Handshake Client Server Api Locality.

(** ** The messages of a stream *)

(** The first complete message and what follows. *)
Definition next_message (s : bytes) : option (bytes * bytes) :=
  match s with
  | _ :: b0 :: b1 :: b2 :: _ =>
      let n := (4 + Z.to_nat (of_be [b0; b1; b2]))%nat in
      if (length s <? n)%nat then None else Some (take n s, drop n s)
  | _ => None
  end.

Fixpoint split_messages (fuel : nat) (s : bytes) : list bytes * bytes :=
  match fuel with
  | O => ([], s)
  | S fuel =>
      match next_message s with
      | None => ([], s)
      | Some (m, rest) => let '(ms, rest) := split_messages fuel rest in (m :: ms, rest)
      end
  end.
Definition messages (s : bytes) : list bytes * bytes := split_messages (length s) s.

Lemma next_message_split s m rest : next_message s = Some (m, rest) -> s = m ++ rest /\ (4 <= length m)%nat.
Proof.
  unfold next_message. destruct s as [|t [|b0 [|b1 [|b2 body]]]]; try done. destruct (Nat.ltb_spec (length (t :: b0 :: b1 :: b2 :: body)) (4 + Z.to_nat (of_be [b0; b1; b2]))); [done|].
  intros [= <- <-]. split; [by rewrite <- (take_drop (4 + Z.to_nat (of_be [b0; b1; b2])) (t :: b0 :: b1 :: b2 :: body)) at 1|].
  change (t :: b0 :: b1 :: b2 :: take (Z.to_nat (of_be [b0; b1; b2])) body) with (take (4 + Z.to_nat (of_be [b0; b1; b2])) (t :: b0 :: b1 :: b2 :: body)).
  rewrite length_take. lia.
Qed.

Lemma next_message_app s t m rest : next_message s = Some (m, rest) -> next_message (s ++ t) = Some (m, rest ++ t).
Proof.
  unfold next_message. destruct s as [|t0 [|b0 [|b1 [|b2 body]]]]; try done. cbn [app].
  set (n := (4 + Z.to_nat (of_be [b0; b1; b2]))%nat). change (t0 :: b0 :: b1 :: b2 :: body ++ t) with ((t0 :: b0 :: b1 :: b2 :: body) ++ t).
  set (s := t0 :: b0 :: b1 :: b2 :: body). rewrite length_app. destruct (Nat.ltb_spec (length s) n); [done|].
  destruct (Nat.ltb_spec (length s + length t) n); [lia|]. intros [= <- <-]. by rewrite take_app_le, drop_app_le by lia.
Qed.

Lemma split_messages_fuel fuel fuel' s : (length s <= fuel)%nat -> (length s <= fuel')%nat -> split_messages fuel s = split_messages fuel' s.
Proof.
  revert fuel' s. induction fuel as [|fuel IH]; intros [|fuel'] s H H'; cbn [split_messages]; try done.
  1, 2: destruct s; [done | simpl in *; lia].
  destruct (next_message s) as [[m rest]|] eqn:E; [|done]. apply next_message_split in E as [-> Hl]. rewrite length_app in *.
  by rewrite (IH fuel') by lia.
Qed.

Lemma messages_cons s m rest : next_message s = Some (m, rest) -> messages s = (m :: fst (messages rest), snd (messages rest)).
Proof.
  intros E. pose proof (next_message_split _ _ _ E) as [-> Hl]. unfold messages at 1.
  destruct (length (m ++ rest)) as [|n] eqn:En; [rewrite length_app in En; lia|]. cbn [split_messages]. rewrite E.
  rewrite (split_messages_fuel n (length rest)); [|rewrite length_app in En; lia..]. by destruct (split_messages (length rest) rest) eqn:?; unfold messages; rewrite Heqp.
Qed.
Lemma messages_none s : next_message s = None -> messages s = ([], s).
Proof. intros E. unfold messages. destruct (length s); cbn [split_messages]; by rewrite ?E. Qed.

(** Induction along the messages of a stream. *)
Lemma stream_ind (P : bytes -> Prop) :
  (forall s, next_message s = None -> P s) -> (forall s m rest, next_message s = Some (m, rest) -> P rest -> P s) -> forall s, P s.
Proof.
  intros Hnone Hsome s. induction s as [s IH] using (induction_ltof1 _ (@length Z)). destruct (next_message s) as [[m rest]|] eqn:E; [|auto].
  eapply Hsome; [exact E|]. apply IH. unfold ltof. apply next_message_split in E as [-> Hl]. rewrite length_app. lia.
Qed.

Lemma messages_app s t : messages (s ++ t) = (fst (messages s) ++ fst (messages (snd (messages s) ++ t)), snd (messages (snd (messages s) ++ t))).
Proof.
  induction s as [s E | s m rest E IH] using stream_ind.
  - rewrite (messages_none s) by done. cbn [fst snd app]. by destruct (messages (s ++ t)).
  - rewrite (messages_cons s m rest) by done. rewrite (messages_cons _ _ _ (next_message_app _ t _ _ E)), IH. done.
Qed.

(** ** Handing them to the handler *)

(** The handler learns whether a message is the last of the input. *)
Fixpoint run_messages (cb : bytes -> bool -> MC Z) (ret_ : Z) (ms : list bytes) (rest : bytes) : MC Z :=
  match ms with
  | [] => ret ret_
  | m :: ms =>
      do! code := code_of' (cb m (length (concat ms ++ rest) =? 0)%nat) in
      if (code =? 0) || (code =? PTLS_ERROR_IN_PROGRESS) then run_messages cb code ms rest
      else tls-> t_recvbuf_mess := None ;;; fail code
  end.

Lemma messages_concat s : s = concat (fst (messages s)) ++ snd (messages s).
Proof.
  induction s as [s E | s m rest E IH] using stream_ind; [by rewrite messages_none|]. rewrite (messages_cons s m rest) by done. cbn [fst snd concat].
  apply next_message_split in E as [-> _]. rewrite <- app_assoc. by rewrite <- IH.
Qed.

Lemma ntoh24_spec t b0 b1 b2 s : is_bytes (t :: b0 :: b1 :: b2 :: s) -> ntoh24 (t :: b0 :: b1 :: b2 :: s) 1 = Ok (of_be [b0; b1; b2]).
Proof.
  intros Hb. assert (Hb3 : is_bytes [b0; b1; b2]) by (apply (Forall_drop _ 1) in Hb; by apply (Forall_take _ 3) in Hb).
  pose proof (decode24_at (t :: b0 :: b1 :: b2 :: s) 1 4 b0 b1 b2) as H. unfold ptls_decode24 in H. unfold ntoh24. cbn [rd res_bind] in *.
  assert (at_mem (t :: b0 :: b1 :: b2 :: s) 1 [b0; b1; b2]) as Hat by done.
  specialize (H Hat Hb3 ltac:(lia)). cbn in H |- *. by injection H as ->.
Qed.

Lemma handle_messages_spec cb s fuel ret_ c :
  is_bytes s -> (length s <= fuel)%nat ->
  handle_messages fuel cb ret_ s c
  = (do! code := run_messages cb ret_ (fst (messages s)) (snd (messages s)) in ret (code, snd (messages s))) c.
Proof.
  revert fuel ret_ c. induction s as [s E | s m rest E IH] using stream_ind; intros fuel ret_ c Hb Hf.
  - rewrite messages_none by done. cbn [fst snd run_messages bind ret]. unfold next_message in E.
    destruct s as [|t [|b0 [|b1 [|b2 body]]]]; try (by destruct fuel).
    destruct fuel as [|fuel]; [simpl in Hf; lia|]. unfold handle_messages; fold handle_messages.
    destruct (Nat.ltb_spec (length (t :: b0 :: b1 :: b2 :: body)) 4) as [Hl|_]; [simpl in Hl; lia|].
    unfold bind. rewrite ntoh24_spec by done. cbn [lift].
    cbv zeta in E. cbn [ret]. by destruct (_ <? _)%nat.
  - rewrite (messages_cons s m rest) by done. cbn [fst snd run_messages]. unfold next_message in E.
    destruct s as [|t [|b0 [|b1 [|b2 body]]]]; try done.
    destruct fuel as [|fuel]; [simpl in Hf; lia|]. unfold handle_messages; fold handle_messages.
    destruct (Nat.ltb_spec (length (t :: b0 :: b1 :: b2 :: body)) 4) as [Hl|_]; [simpl in Hl; lia|].
    unfold bind at 1. rewrite ntoh24_spec by done. cbn [lift ret].
    cbv zeta in *. set (n := (4 + Z.to_nat (of_be [b0; b1; b2]))%nat) in *. set (s := t :: b0 :: b1 :: b2 :: body) in *.
    destruct (Nat.ltb_spec (length s) n) as [|Hn]; [done|]. apply (inj Some), pair_equal_spec in E as [Em Er].
    assert (Hl : length rest = (length s - n)%nat) by (by rewrite <- Er, length_drop). rewrite Em, Er, <- messages_concat, Hl.
    replace (length s - n =? 0)%nat with (length s =? n)%nat by (destruct (Nat.eqb_spec (length s) n), (Nat.eqb_spec (length s - n) 0); (done || lia)).
    unfold bind at 1 3 4. destruct (code_of' _ c) as [code c1|code c1|f]; [|done..].
    destruct ((code =? 0) || (code =? PTLS_ERROR_IN_PROGRESS)); [|done].
    assert (4 <= n)%nat by (unfold n; lia). apply IH; [rewrite <- Er; by apply Forall_drop | lia].
Qed.

(** [handle_handshake_record] in terms of the messages of the stream. *)
Definition handshake_record_spec (cb : bytes -> bool -> MC Z) (stream : bytes) : MC Z :=
  do! code := run_messages cb PTLS_ERROR_IN_PROGRESS (fst (messages stream)) (snd (messages stream)) in
  match snd (messages stream) with
  | [] => tls-> t_recvbuf_mess := None ;;; ret code
  | rest => tls-> t_recvbuf_mess := Some rest ;;; ret PTLS_ERROR_IN_PROGRESS
  end.

Lemma overflow_mono ctx n n' : (n <= n')%nat -> message_buffer_is_overflow ctx n' = false -> message_buffer_is_overflow ctx n = false.
Proof.
  unfold message_buffer_is_overflow. intros Hn. destruct (max_buffer_size ctx =? 0); [done|]. rewrite !negb_false_iff, !Z.leb_le. lia.
Qed.

Lemma messages_rest_length s : (length (snd (messages s)) <= length s)%nat.
Proof. rewrite (messages_concat s) at 2. rewrite length_app. lia. Qed.

Lemma handle_handshake_record_spec ctx cb fragment c :
  let stream := default [] (t_recvbuf_mess (c_tls c)) ++ fragment in
  message_buffer_is_overflow ctx (length stream) = false -> is_bytes stream ->
  handle_handshake_record ctx cb PTLS_CONTENT_TYPE_HANDSHAKE fragment c
  = handshake_record_spec cb stream
      (match t_recvbuf_mess (c_tls c) with Some buf => set_mess (Some (buf ++ fragment)) c | None => c end).
Proof.
  cbv zeta. intros Hmax Hb.
  assert (Hrun : forall src c1, is_bytes src -> message_buffer_is_overflow ctx (length src) = false ->
    (do! x := handle_messages (length src) cb PTLS_ERROR_IN_PROGRESS src in
     let '(code, src) := x in
     if negb (length src =? 0)%nat then
       mguard (negb (message_buffer_is_overflow ctx (length src))) PTLS_ALERT_HANDSHAKE_FAILURE ;;;
       tls-> t_recvbuf_mess := Some src ;;;
       ret PTLS_ERROR_IN_PROGRESS
     else tls-> t_recvbuf_mess := None ;;; ret code) c1 = handshake_record_spec cb src c1).
  { intros src c1 Hs Hsrc. unfold handshake_record_spec. unfold bind at 1. rewrite handle_messages_spec by done.
    unfold bind. destruct (run_messages _ _ _ _ c1) as [code c2|code c2|f]; [|done..]. cbn [ret].
    rewrite (overflow_mono ctx _ _ (messages_rest_length src) Hsrc). by destruct (snd (messages src)). }
  unfold handle_handshake_record. destruct (t_recvbuf_mess (c_tls c)) as [buf|] eqn:E; cbn [default app id] in *.
  all: rewrite <- Hrun by done; unfold bind, tls_get, gets; change (PTLS_CONTENT_TYPE_HANDSHAKE =? PTLS_CONTENT_TYPE_HANDSHAKE) with true;
    cbn [mguard ret]; rewrite E.
  - rewrite <- length_app, Hmax. done.
  - done.
Qed.

(** ** Independence of the fragmentation *)

Lemma messages_rest s : next_message (snd (messages s)) = None.
Proof. induction s as [s E | s m rest E IH] using stream_ind; [by rewrite messages_none | by rewrite (messages_cons s m rest)]. Qed.
Lemma messages_nonempty s : Forall (fun m => m <> []) (fst (messages s)).
Proof.
  induction s as [s E | s m rest E IH] using stream_ind; [by rewrite messages_none|]. rewrite (messages_cons s m rest) by done.
  constructor; [|done]. apply next_message_split in E as [_ Hl]. by destruct m; [simpl in Hl; lia|].
Qed.

(** Connections that differ at most in the buffer of the handshake stream. *)
Definition same_but_mess (c c' : conn) : Prop := set_mess None c = set_mess None c'.
#[export] Instance same_but_mess_equivalence : Equivalence same_but_mess.
Proof. unfold same_but_mess. split; congruence. Qed.
Lemma set_mess_same v c : same_but_mess (set_mess v c) c.
Proof. done. Qed.
Lemma same_but_mess_set c c' : same_but_mess c c' -> c' = set_mess (t_recvbuf_mess (c_tls c')) c.
Proof.
  intros H. change (set_mess (t_recvbuf_mess (c_tls c')) c) with (set_mess (t_recvbuf_mess (c_tls c')) (set_mess None c)). rewrite H.
  by destruct c' as [[] ? ? ? ? ? ? ? ?].
Qed.

Fixpoint feed_records (ctx : ptls_context_t) (cb : bytes -> bool -> MC Z) (code : Z) (fragments : list bytes) : MC Z :=
  match fragments with
  | [] => ret code
  | f :: fragments =>
      do! code := handle_handshake_record ctx cb PTLS_CONTENT_TYPE_HANDSHAKE f in
      feed_records ctx cb code fragments
  end.

(** The messages of a record, the last one marked if the record ends with it. *)
Fixpoint mark (ms : list bytes) (rest : bytes) : list (bytes * bool) :=
  match ms with
  | [] => []
  | m :: ms => (m, match ms, rest with [], [] => true | _, _ => false end) :: mark ms rest
  end.
(** The messages of a sequence of records; [pending] is left over from the records
    before. *)
Fixpoint marked (pending : bytes) (fragments : list bytes) : list (bytes * bool) :=
  match fragments with
  | [] => []
  | f :: fragments => mark (fst (messages (pending ++ f))) (snd (messages (pending ++ f))) ++ marked (snd (messages (pending ++ f))) fragments
  end.

(** The handler is called for one message after the other until it fails. *)
Fixpoint run_marked (cb : bytes -> bool -> MC Z) (code : Z) (ms : list (bytes * bool)) : MC Z :=
  match ms with
  | [] => ret code
  | (m, eor) :: ms =>
      do! code := code_of' (cb m eor) in
      if (code =? 0) || (code =? PTLS_ERROR_IN_PROGRESS) then run_marked cb code ms else fail code
  end.

Lemma mark_fst ms rest : map fst (mark ms rest) = ms.
Proof. induction ms as [|m ms IH]; [done|]. cbn. by rewrite IH. Qed.
Lemma marked_messages pending fragments :
  next_message pending = None -> map fst (marked pending fragments) = fst (messages (pending ++ concat fragments)).
Proof.
  revert pending. induction fragments as [|f fragments IH]; intros pending Hp; cbn [marked concat]; [by rewrite app_nil_r, messages_none|].
  rewrite map_app, mark_fst, IH by apply messages_rest. by rewrite app_assoc, (messages_app (pending ++ f) (concat fragments)).
Qed.
Lemma run_marked_app cb code l1 l2 c :
  run_marked cb code (l1 ++ l2) c = (do! code := run_marked cb code l1 in run_marked cb code l2) c.
Proof.
  revert code c. induction l1 as [|[m e] l1 IH]; intros code c; [done|]. cbn [run_marked app]. unfold bind at 1. unfold bind at 1. unfold bind at 1.
  destruct (code_of' (cb m e) c) as [code1 c1| |]; [|done..]. destruct (_ || _); [apply IH | done].
Qed.

(** Outcomes that agree up to the buffer; [R] relates the codes of a normal end. *)
Definition agree (R : Z -> Z -> conn -> Prop) (o o' : outcome conn Z) : Prop :=
  match o, o' with
  | Done r c, Done r' c' => R r r' c /\ same_but_mess c c'
  | Fail e c, Fail e' c' => e = e' /\ same_but_mess c c'
  | Undefined f, Undefined f' => f = f'
  | _, _ => False
  end.

Section Fragmentation.
Context (ctx : ptls_context_t) (cb : bytes -> bool -> MC Z) (Hcb : forall m eor, local (cb m eor)).

Lemma handler_agree m eor c c' : same_but_mess c c' -> agree (fun r r' _ => r = r') (code_of' (cb m eor) c) (code_of' (cb m eor) c').
Proof using Hcb.
  intros H. rewrite (same_but_mess_set _ _ H). rewrite (local_code_of' _ (Hcb m eor)). destruct (code_of' (cb m eor) c); done.
Qed.

Lemma run_messages_agree ms rest r r' c c' :
  Forall (fun m => m <> []) ms -> same_but_mess c c' ->
  agree (fun code code' _ => (r = r' \/ ms <> []) -> code = code') (run_messages cb r ms rest c) (run_marked cb r' (mark ms rest) c').
Proof using Hcb.
  intros Hms. revert r r' c c'. induction Hms as [|m ms Hm Hms IH]; intros r r' c c' Hc; [split; [|done]; by intros [|]|].
  cbn [run_messages mark run_marked]. unfold bind.
  replace (length (concat ms ++ rest) =? 0)%nat with (match ms, rest with [], [] => true | _, _ => false end).
  2: { destruct ms as [|[|x m'] ms]; [by destruct rest | by inversion Hms | done]. }
  set (eor := match ms with [] => _ | _ => _ end). pose proof (handler_agree m eor c c' Hc) as H. unfold agree in H.
  destruct (code_of' (cb m eor) c) as [code c1|code c1|], (code_of' (cb m eor) c') as [code' c1'|code' c1'|]; try done.
  destruct H as [<- H]. destruct (_ || _); [|split; done].
  specialize (IH code code c1 c1' H). unfold agree in IH |- *.
  destruct (run_messages cb code ms rest c1), (run_marked cb code (mark ms rest) c1'); try done. destruct IH as [IH ?]. split; [|done]. intros _. auto.
Qed.

(** One record. *)
Lemma handle_record_agree f r c c' :
  let stream := default [] (t_recvbuf_mess (c_tls c)) ++ f in
  message_buffer_is_overflow ctx (length stream) = false -> is_bytes stream -> same_but_mess c c' ->
  next_message (default [] (t_recvbuf_mess (c_tls c))) = None ->
  agree (fun code code' c1 => default [] (t_recvbuf_mess (c_tls c1)) = snd (messages stream) /\
           match snd (messages stream) with [] => f <> [] -> code = code' | _ => code = PTLS_ERROR_IN_PROGRESS end)
    (handle_handshake_record ctx cb PTLS_CONTENT_TYPE_HANDSHAKE f c)
    (run_marked cb r (mark (fst (messages stream)) (snd (messages stream))) c').
Proof using Hcb.
  cbv zeta. intros Hmax Hb Hc Hn. rewrite handle_handshake_record_spec by done. set (stream := _ ++ f) in *.
  set (c1 := match _ with Some _ => _ | None => _ end).
  assert (Hc1 : same_but_mess c1 c') by (unfold c1; by destruct (t_recvbuf_mess (c_tls c))).
  pose proof (run_messages_agree (fst (messages stream)) (snd (messages stream)) PTLS_ERROR_IN_PROGRESS r c1 c' (messages_nonempty _) Hc1) as H.
  unfold handshake_record_spec, bind. unfold agree in H |- *.
  destruct (run_messages _ _ _ _ c1) as [code c2|code c2|], (run_marked _ _ _ c') as [code' c2'|code' c2'|]; try done.
  destruct H as [Hr H]. destruct (snd (messages stream)) as [|b rest] eqn:Erest; cbn; (split; [|by rewrite <- H]); (split; [done|]); [|done].
  intros Hf. apply Hr. right. intros E. pose proof (messages_concat stream) as Hcat. rewrite E, Erest in Hcat. unfold stream in Hcat.
  by apply app_eq_nil in Hcat as [_ ?].
Qed.

Definition ends_with_message (fragments : list bytes) (stream : bytes) : Prop :=
  snd (messages stream) = [] /\ exists front f, fragments = front ++ [f] /\ f <> [].

Lemma feed_records_agree fragments r r' c c' :
  let stream := default [] (t_recvbuf_mess (c_tls c)) ++ concat fragments in
  message_buffer_is_overflow ctx (length stream) = false -> is_bytes stream -> same_but_mess c c' ->
  next_message (default [] (t_recvbuf_mess (c_tls c))) = None ->
  agree (fun code code' c1 => default [] (t_recvbuf_mess (c_tls c1)) = snd (messages stream) /\ (ends_with_message fragments stream -> code = code'))
    (feed_records ctx cb r fragments c) (run_marked cb r' (marked (default [] (t_recvbuf_mess (c_tls c))) fragments) c').
Proof using Hcb.
  cbv zeta. revert r r' c c'. induction fragments as [|f fragments IH]; intros r r' c c' Hmax Hb Hc Hn; cbn [concat feed_records marked] in *.
  - rewrite app_nil_r, messages_none by done. split; [|done]. split; [done|]. by intros (_ & [|] & f & ? & _).
  - rewrite app_assoc in *. rewrite run_marked_app. set (s := default [] (t_recvbuf_mess (c_tls c)) ++ f) in *. unfold bind.
    pose proof (handle_record_agree f r' c c') as H. cbv zeta in H. fold s in H.
    specialize (H ltac:(eapply overflow_mono; [|exact Hmax]; rewrite length_app; lia) ltac:(by apply Forall_app in Hb as [? _]) Hc Hn). unfold agree in H.
    destruct (handle_handshake_record _ _ _ f c) as [code c1|code c1|], (run_marked cb r' (mark _ _) c') as [code' c1'|code' c1'|]; try done.
    destruct H as [[Hm Hcode] Hs]. rewrite <- Hm. specialize (IH code code' c1 c1'). rewrite Hm in IH.
    pose proof (messages_concat s) as Hcat. apply Forall_app in Hb as [Hb1 Hb2]. rewrite Hcat in Hb1. apply Forall_app in Hb1 as [_ Hrest].
    specialize (IH ltac:(eapply overflow_mono; [|exact Hmax]; rewrite !length_app; pose proof (messages_rest_length s); lia)
                   ltac:(by apply Forall_app) Hs (messages_rest s)).
    rewrite Hm. assert (Ht : snd (messages (s ++ concat fragments)) = snd (messages (snd (messages s) ++ concat fragments))) by (by rewrite messages_app).
    rewrite Ht. destruct fragments as [|f2 fragments].
    + cbn [feed_records marked run_marked ret concat agree]. rewrite app_nil_r, messages_none by apply messages_rest. split; [|done]. split; [done|].
      intros [He (front & f' & Ef & Hf)]. rewrite app_nil_r in He. rewrite He in Hcode. destruct front as [|? [|]]; simplify_eq/=. auto.
    + unfold agree in IH |- *. destruct (feed_records ctx cb code (f2 :: fragments) c1), (run_marked cb code' _ c1'); try done.
      destruct IH as [[H1 H2] H3]. split; [|done]. split; [done|]. intros (He & [|x front] & f' & Ef & Hf); simplify_eq/=. apply H2. split; [by rewrite <- Ht | eauto].
Qed.
End Fragmentation.

(** C16: what a handshake stream does to a connection depends only on its octets and
    on which of its messages end a record.  However the octets are cut into
    records, [handle_handshake_record] calls the handler of the client or of the
    server for exactly the complete messages of the stream, in order, tells it
    for each whether a record ends with it, stops with the handler's code at the first
    message it refuses, and keeps the octets of an incomplete message; it
    returns the code of the last message if a record ended with that.  (The
    records are those left after decryption; the stream fits into the buffer
    limit of the context.) *)
Theorem handshake_stream_delivered is_ipaddr ctx props fragments c :
  let handler := handle_message is_ipaddr ctx props in
  let stream := concat fragments in
  t_recvbuf_mess (c_tls c) = None -> is_bytes stream -> message_buffer_is_overflow ctx (length stream) = false ->
  map fst (marked [] fragments) = fst (messages stream) /\
  agree (fun code code' c1 => default [] (t_recvbuf_mess (c_tls c1)) = snd (messages stream) /\ (ends_with_message fragments stream -> code = code'))
    (feed_records ctx handler PTLS_ERROR_IN_PROGRESS fragments c)
    (run_marked handler PTLS_ERROR_IN_PROGRESS (marked [] fragments) c).
Proof.
  cbv zeta. intros Hc Hb Hmax. split; [by apply marked_messages|].
  pose proof (feed_records_agree ctx (handle_message is_ipaddr ctx props) (local_handle_message is_ipaddr ctx props) fragments
    PTLS_ERROR_IN_PROGRESS PTLS_ERROR_IN_PROGRESS c c) as H. rewrite Hc in H. cbn [default app] in H. by apply H.
Qed.

(** ** Early data that is skipped *)

Section Skip.
Context (is_ipaddr : bytes -> bool) (ctx : ptls_context_t) (props : option ptls_handshake_properties_t).

(** A record that the server cannot read: it has no key yet, or the key fails. *)
Definition undecryptable (tls : ptls_t) (ct : bytes) : Prop :=
  match tp_aead (t_dec tls) with
  | Some _ => exists code, aead_decrypt (t_dec tls) ct = Err code
  | None => True
  end.
Definition skipped_to (n : Z) (c : conn) : conn := c <| c_tls := (c_tls c) <| t_early_data_skipped_bytes := n |> |>.
Definition appdata_records (cts : list bytes) : bytes := concat (map (buffer_push_record PTLS_CONTENT_TYPE_APPDATA) cts).
Definition octets (cts : list bytes) : Z := Z.of_nat (length (concat cts)).

(** What the server does with such a record. *)
Lemma handle_input_skips c ct rest skipped :
  t_is_server (c_tls c) = true -> t_recvbuf_rec (c_tls c) = None -> is_bytes ct -> is_bytes rest ->
  Z.of_nat (length ct) <= PTLS_MAX_ENCRYPTED_RECORD_SIZE -> undecryptable (c_tls c) ct ->
  t_early_data_skipped_bytes (c_tls c) = skipped -> 0 <= skipped <= PTLS_MAX_EARLY_DATA_SKIP_SIZE ->
  let total := skipped + Z.of_nat (length ct) in
  exists c', handle_input is_ipaddr ctx props (buffer_push_record PTLS_CONTENT_TYPE_APPDATA ct ++ rest) c
    = Done (if PTLS_MAX_EARLY_DATA_SKIP_SIZE <? total then PTLS_ALERT_HANDSHAKE_FAILURE else PTLS_ERROR_IN_PROGRESS, (5 + length ct)%nat, []) c' /\
    (total <= PTLS_MAX_EARLY_DATA_SKIP_SIZE -> c' = skipped_to total c).
Proof.
  cbv zeta. intros Hsrv Hrb Hct Hrest Hlen Hdec Hsk Hrange. unfold handle_input, bind at 1, tls_get at 1, gets. rewrite Hrb.
  destruct (parse_record_spec None (buffer_push_record PTLS_CONTENT_TYPE_APPDATA ct ++ rest)) as (r & rec & rb & n & Hp & Hfound);
    [cbn [default app]; apply Forall_app; split; [by apply push_record_bytes | done] | done |].
  cbn [default app] in Hfound. rewrite next_record_appdata in Hfound by done. destruct Hfound as (-> & -> & Hn). cbn [rec_length length] in Hn.
  unfold bind at 1. rewrite Hp. cbn [lift ret]. change (negb (0 =? 0)) with false. cbv iota. cbn [rec_fragment].
  unfold bind at 1 2. cbn [tls_set modify ret]. replace n with (5 + length ct)%nat by lia.
  set (c1 := c <| c_tls := (c_tls c) <| t_recvbuf_rec := rb |> |>).
  assert (Hskip : handle_record is_ipaddr ctx props (mk_rec PTLS_CONTENT_TYPE_APPDATA 771 (length ct) (Some ct)) ct c1 = server_skip_early_data (length ct) c1).
  { unfold handle_record, bind at 1 2 3 4, tls_get, gets. change (t_is_server (c_tls c1)) with (t_is_server (c_tls c)).
    change (t_early_data_skipped_bytes (c_tls c1)) with (t_early_data_skipped_bytes (c_tls c)). change (t_dec (c_tls c1)) with (t_dec (c_tls c)).
    rewrite Hsrv, Hsk. cbn [rec_type rec_length].
    replace (skipped =? UINT32_MAX) with false by (symmetry; apply Z.eqb_neq; unfold UINT32_MAX, PTLS_MAX_EARLY_DATA_SKIP_SIZE in *; lia).
    change (PTLS_CONTENT_TYPE_APPDATA =? PTLS_CONTENT_TYPE_CHANGE_CIPHER_SPEC) with false.
    change (PTLS_CONTENT_TYPE_APPDATA =? PTLS_CONTENT_TYPE_APPDATA) with true.
    change (negb (PTLS_CONTENT_TYPE_APPDATA =? PTLS_CONTENT_TYPE_ALERT)) with true. cbn [negb andb].
    unfold undecryptable in Hdec. destruct (tp_aead (t_dec (c_tls c))); [|done]. destruct Hdec as [code Hd]. unfold bind at 1. cbn [mguard ret].
    by rewrite Hd. }
  rewrite Hskip. unfold server_skip_early_data, bind, tls_get, gets.
  change (t_early_data_skipped_bytes (c_tls c1)) with (t_early_data_skipped_bytes (c_tls c)). rewrite Hsk.
  assert (Hu : u32 (skipped + u32 (Z.of_nat (length ct))) = skipped + Z.of_nat (length ct)).
  { unfold PTLS_MAX_ENCRYPTED_RECORD_SIZE, PTLS_MAX_EARLY_DATA_SKIP_SIZE in *. unfold u32. rewrite (Z.mod_small (Z.of_nat _)) by lia. rewrite Z.mod_small; lia. }
  rewrite Hu. cbn [tls_set modify]. unfold mguard.
  destruct (Z.ltb_spec PTLS_MAX_EARLY_DATA_SKIP_SIZE (skipped + Z.of_nat (length ct))) as [Hm|Hm]; cbn [negb fail ret].
  { eexists. split; [reflexivity|]. lia. }
  eexists. split; [reflexivity|]. intros _. unfold skipped_to, c1. destruct c as [[] ? ? ? ? ? ? ? ?]. cbn in Hrb. subst. done.
Qed.

Lemma skip_loop fuel cts c skipped :
  (length (appdata_records cts) <= fuel)%nat ->
  t_is_server (c_tls c) = true -> t_recvbuf_rec (c_tls c) = None ->
  Forall (fun ct => is_bytes ct /\ Z.of_nat (length ct) <= PTLS_MAX_ENCRYPTED_RECORD_SIZE /\ undecryptable (c_tls c) ct) cts ->
  t_early_data_skipped_bytes (c_tls c) = skipped -> 0 <= skipped <= PTLS_MAX_EARLY_DATA_SKIP_SIZE ->
  (skipped + octets cts <= PTLS_MAX_EARLY_DATA_SKIP_SIZE ->
     handshake_loop is_ipaddr ctx props fuel PTLS_ERROR_IN_PROGRESS (appdata_records cts) c = Done (PTLS_ERROR_IN_PROGRESS, []) (skipped_to (skipped + octets cts) c)) /\
  (PTLS_MAX_EARLY_DATA_SKIP_SIZE < skipped + octets cts ->
     exists front ct back c', cts = front ++ ct :: back /\ skipped + octets front <= PTLS_MAX_EARLY_DATA_SKIP_SIZE < skipped + octets (front ++ [ct]) /\
       handshake_loop is_ipaddr ctx props fuel PTLS_ERROR_IN_PROGRESS (appdata_records cts) c = Done (PTLS_ALERT_HANDSHAKE_FAILURE, appdata_records back) c').
Proof.
  revert cts c skipped. induction fuel as [|fuel IH]; intros cts c skipped Hf Hsrv Hrb Hcts Hsk Hrange.
  all: destruct cts as [|ct cts].
  1, 3: unfold octets; cbn [concat length]; split; [|lia]; intros _; cbn; do 2 f_equal; rewrite Z.add_0_r, <- Hsk; by destruct c as [[] ? ? ? ? ? ? ? ?].
  all: unfold appdata_records in Hf; cbn [map concat] in Hf; rewrite length_app, length_push_record in Hf; fold (appdata_records cts) in Hf.
  1: lia.
  apply Forall_cons_1 in Hcts as [(Hb & Hl & Hd) Hcts].
  assert (Hrest : is_bytes (appdata_records cts)).
  { clear -Hcts. induction Hcts as [|x cts (Hx & _ & _) _ IH]; [done|]. apply Forall_app. split; [by apply push_record_bytes | done]. }
  destruct (handle_input_skips c ct (appdata_records cts) skipped Hsrv Hrb Hb Hrest Hl Hd Hsk Hrange) as (c1 & Hin & Hc1).
  assert (Ho : octets (ct :: cts) = Z.of_nat (length ct) + octets cts) by (unfold octets; cbn [concat]; rewrite length_app; lia).
  assert (Hloop : handshake_loop is_ipaddr ctx props (S fuel) PTLS_ERROR_IN_PROGRESS (appdata_records (ct :: cts)) c
    = handshake_loop is_ipaddr ctx props fuel
        (if PTLS_MAX_EARLY_DATA_SKIP_SIZE <? skipped + Z.of_nat (length ct) then PTLS_ALERT_HANDSHAKE_FAILURE else PTLS_ERROR_IN_PROGRESS) (appdata_records cts) c1).
  { cbn [handshake_loop]. change (appdata_records (ct :: cts)) with (buffer_push_record PTLS_CONTENT_TYPE_APPDATA ct ++ appdata_records cts).
    assert (Hne : (length (buffer_push_record PTLS_CONTENT_TYPE_APPDATA ct ++ appdata_records cts) =? 0)%nat = false) by (by rewrite length_app, length_push_record).
    rewrite Hne. change (PTLS_ERROR_IN_PROGRESS =? PTLS_ERROR_IN_PROGRESS) with true.
    cbn [negb orb]. unfold bind at 1. rewrite Hin. unfold bind. cbn [length Nat.eqb massert ret].
    rewrite <- (length_push_record PTLS_CONTENT_TYPE_APPDATA ct), drop_app_length. done. }
  rewrite Hloop, Ho. destruct (Z.ltb_spec PTLS_MAX_EARLY_DATA_SKIP_SIZE (skipped + Z.of_nat (length ct))) as [Hm|Hm].
  - split; [unfold octets; lia|]. intros _. exists [], ct, cts, c1. split; [done|]. split; [unfold octets; cbn [concat app length]; rewrite app_nil_r; lia|].
    by destruct fuel.
  - specialize (Hc1 Hm). subst c1. destruct (IH cts (skipped_to (skipped + Z.of_nat (length ct)) c) (skipped + Z.of_nat (length ct))) as [H1 H2]; [lia | done | done | done | done | lia|].
    rewrite Z.add_assoc. split; [apply H1|]. intros Hlim. destruct (H2 Hlim) as (front & x & back & c' & -> & Hx & Hr).
    exists (ct :: front), x, back, c'. split; [done|]. split; [|done]. unfold octets in *. cbn [concat app]. rewrite !length_app. lia.
Qed.

(** C26: a server that skips the early data it did not accept drops at most
    [PTLS_MAX_EARLY_DATA_SKIP_SIZE] octets of it.  Fed any number of application data
    records that it cannot decrypt, the input loop of [ptls_handshake] drops them
    all, changing nothing but the count, if their contents are within the limit
    (the 32-bit counter does not wrap); otherwise it fails with handshake_failure
    at the first record that exceeds it. *)
Theorem skipped_early_data_bounded cts c :
  t_is_server (c_tls c) = true -> t_recvbuf_rec (c_tls c) = None -> t_early_data_skipped_bytes (c_tls c) = 0 ->
  Forall (fun ct => is_bytes ct /\ Z.of_nat (length ct) <= PTLS_MAX_ENCRYPTED_RECORD_SIZE /\ undecryptable (c_tls c) ct) cts ->
  let input := appdata_records cts in
  (octets cts <= PTLS_MAX_EARLY_DATA_SKIP_SIZE ->
     handshake_loop is_ipaddr ctx props (length input) PTLS_ERROR_IN_PROGRESS input c = Done (PTLS_ERROR_IN_PROGRESS, []) (skipped_to (octets cts) c)) /\
  (PTLS_MAX_EARLY_DATA_SKIP_SIZE < octets cts ->
     exists front ct back c', cts = front ++ ct :: back /\ octets front <= PTLS_MAX_EARLY_DATA_SKIP_SIZE < octets (front ++ [ct]) /\
       handshake_loop is_ipaddr ctx props (length input) PTLS_ERROR_IN_PROGRESS input c = Done (PTLS_ALERT_HANDSHAKE_FAILURE, appdata_records back) c').
Proof.
  intros Hsrv Hrb Hsk Hcts input. by apply (skip_loop (length input) cts c 0).
Qed.
End Skip.
