(* ===== verification/Transfer.v ===== *)
(** * Transfer: application data from one end to the other

    Two connections are [linked] when one reads with the keys the other writes
    with.  What [ptls_send] appends to its buffer, [ptls_receive] returns at the
    other end, and the connections stay linked: also when the sender updates its
    key first, which [ptls_send] does on request and after 2^24 records. *)
From S2P Require Import Prelude Constants Monad Wire Crypto Record KeySchedule Extensions Messages Hello Esni Context Handshake Client Server Api.

(** Execution of one step. *)
Lemma bind_run {A B} (m : MC A) (k : A -> MC B) c a c' : m c = Done a c' -> bind m k c = k a c'.
Proof. unfold bind. by intros ->. Qed.
Lemma tls_deref_run {A} (f : ptls_t -> option A) c a : f (c_tls c) = Some a -> tls_deref f c = Done a c.
Proof. intros H. unfold tls_deref, bind, tls_get, gets. by rewrite H. Qed.
Lemma sched_get_run {A} (f : st_ptls_key_schedule_t -> res A) c s a : t_key_schedule (c_tls c) = Some s -> f s = Ok a -> sched_get f c = Done a c.
Proof. intros H Hf. unfold sched_get. erewrite bind_run by (by apply tls_deref_run). by rewrite Hf. Qed.
Lemma sched_algo_run c s h x : t_key_schedule (c_tls c) = Some s -> hash0 s = Ok (h, x) -> sched_algo c = Done h c.
Proof. intros H Hh. unfold sched_algo. by erewrite bind_run by (by eapply sched_get_run). Qed.
Lemma lift_run {A} (r : res A) (c : conn) a : r = Ok a -> lift r c = Done a c.
Proof. by intros ->. Qed.

Section Transfer.
Context (is_ipaddr : bytes -> bool) (ctxc ctxs : ptls_context_t) (props : option ptls_handshake_properties_t).

(** ** The receiver, record by record *)

Definition post_handshake (t : ptls_t) : Prop :=
  t_state t = if t_is_server t then PTLS_STATE_SERVER_POST_HANDSHAKE else PTLS_STATE_CLIENT_POST_HANDSHAKE.
(** The handshake is complete and no record or message is half received. *)
Definition ready (t : ptls_t) : Prop := post_handshake t /\ t_recvbuf_rec t = None /\ t_recvbuf_mess t = None.

Definition after_record (s : conn) (rb : option bytes) (d : st_ptls_traffic_protection_t) : conn :=
  s <| c_tls := (c_tls s) <| t_recvbuf_rec := rb |> <| t_dec := d |> |>.

Definition end_record (s : conn) : conn := s <| c_tls := (c_tls s) <| t_recvbuf_rec := None |> |>.

Lemma next_record_done {A} (m : MC A) s a s' : m s = Done a s' -> next_record_ m s = Done a (end_record s').
Proof. intros H. unfold next_record_, mfinally. by rewrite H. Qed.

Lemma handle_input_encrypted s ct rest d data type :
  t_recvbuf_rec (c_tls s) = None -> is_bytes ct -> is_bytes rest -> Z.of_nat (length ct) <= PTLS_MAX_ENCRYPTED_RECORD_SIZE ->
  aead_decrypt (t_dec (c_tls s)) ct = Ok (data ++ [type], d) -> type <> 0 ->
  exists rb, handle_input is_ipaddr ctxs props (buffer_push_record PTLS_CONTENT_TYPE_APPDATA ct ++ rest) s
  = match next_record_ (dispatch_record is_ipaddr ctxs props type data) (after_record s rb d) with
    | Done (code, out) s' => Done (code, (5 + length ct)%nat, out) s'
    | Fail code s' => Done (code, (5 + length ct)%nat, []) s'
    | Undefined f => Undefined f
    end.
Proof.
  intros Hrb Hct Hrest Hlen Hdec Hty. unfold handle_input, bind at 1, tls_get at 1, gets. rewrite Hrb.
  destruct (parse_record_spec None (buffer_push_record PTLS_CONTENT_TYPE_APPDATA ct ++ rest)) as (r & rec & rb & n & Hp & Hfound);
    [cbn [default app]; apply Forall_app; split; [by apply push_record_bytes | done] | done |].
  cbn [default app] in Hfound. rewrite next_record_appdata in Hfound by done. destruct Hfound as (-> & -> & Hn). cbn [rec_length length] in Hn.
  exists rb. unfold bind at 1. rewrite Hp. cbn [lift ret]. change (negb (0 =? 0)) with false. cbv iota. cbn [rec_fragment].
  unfold bind at 1 2. cbn [tls_set modify ret]. replace n with (5 + length ct)%nat by lia.
  enough (handle_record is_ipaddr ctxs props (mk_rec PTLS_CONTENT_TYPE_APPDATA 771 (length ct) (Some ct)) ct
            (s <| c_tls := (c_tls s) <| t_recvbuf_rec := rb |> |>)
          = next_record_ (dispatch_record is_ipaddr ctxs props type data) (after_record s rb d)) as -> by done.
  unfold handle_record, bind, tls_get, gets. cbn [rec_type c_tls t_dec t_state t_is_server t_early_data_skipped_bytes].
  change (PTLS_CONTENT_TYPE_APPDATA =? PTLS_CONTENT_TYPE_CHANGE_CIPHER_SPEC) with false. cbv iota.
  change (t_dec (c_tls (s <| c_tls := (c_tls s) <| t_recvbuf_rec := rb |> |>))) with (t_dec (c_tls s)).
  pose proof Hdec as Hd. unfold aead_decrypt in Hd. destruct (tp_aead (t_dec (c_tls s))) eqn:Ha; [clear Hd|done].
  change (negb (PTLS_CONTENT_TYPE_APPDATA =? PTLS_CONTENT_TYPE_ALERT)) with true. cbv iota.
  rewrite Hdec. pose proof (remove_padding_spec data type 0 Hty) as Hpad. cbn [replicate] in Hpad. rewrite app_nil_r in Hpad.
  change (PTLS_CONTENT_TYPE_APPDATA =? PTLS_CONTENT_TYPE_APPDATA) with true. cbn [mguard ret tls_set modify]. rewrite Hpad. done.
Qed.

(** What a key update needs and the transfer of data does not change. *)
Definition key_view (t : ptls_t) := (t_state t, t_is_server t, t_key_schedule t, t_cipher_suite t).
Definition received (s : conn) (d : st_ptls_traffic_protection_t) (s' : conn) : Prop :=
  t_dec (c_tls s') = d /\ ready (c_tls s') /\ key_view (c_tls s') = key_view (c_tls s).

Lemma state_le_post t : post_handshake t -> state_le PTLS_STATE_POST_HANDSHAKE_MIN (t_state t) = true.
Proof. unfold post_handshake. intros ->. by destruct (t_is_server t). Qed.

Lemma drop_record ct rest : drop (5 + length ct) (buffer_push_record PTLS_CONTENT_TYPE_APPDATA ct ++ rest) = rest.
Proof. rewrite <- (length_push_record PTLS_CONTENT_TYPE_APPDATA ct). apply drop_app_length. Qed.

(** A record of application data ends the loop. *)
Lemma receive_data fuel s ct rest d data :
  ready (c_tls s) -> is_bytes ct -> is_bytes rest -> Z.of_nat (length ct) <= PTLS_MAX_ENCRYPTED_RECORD_SIZE ->
  aead_decrypt (t_dec (c_tls s)) ct = Ok (data ++ [PTLS_CONTENT_TYPE_APPDATA], d) -> data <> [] ->
  exists s', receive_loop is_ipaddr ctxs props (S fuel) 0 [] (buffer_push_record PTLS_CONTENT_TYPE_APPDATA ct ++ rest) s = Done (0, data, rest) s' /\
    received s d s'.
Proof.
  intros (Hpost & Hrb & Hmess) Hct Hrest Hlen Hdec Hdata.
  destruct (handle_input_encrypted s ct rest d data _ Hrb Hct Hrest Hlen Hdec) as [rb Hin]; [done|].
  exists (end_record (after_record s rb d)). split; [|by split_and!; [|split|]].
  assert (Hd : dispatch_record is_ipaddr ctxs props PTLS_CONTENT_TYPE_APPDATA data (after_record s rb d) = Done (0, data) (after_record s rb d)).
  { assert (Hm' : t_recvbuf_mess (c_tls (after_record s rb d)) = None) by exact Hmess.
    pose proof (state_le_post (c_tls (after_record s rb d)) Hpost) as Hle. unfold dispatch_record, bind, tls_get, gets.
    by rewrite Hm', Hle. }
  cbn [receive_loop]. rewrite length_app, length_push_record. cbn [Nat.add Nat.eqb orb negb Z.eqb length].
  unfold bind at 1. rewrite Hin, (next_record_done _ _ _ _ Hd). change (0 =? PTLS_ERROR_IN_PROGRESS) with false.
  rewrite drop_record. destruct data; [done|]. by destruct fuel, rest.
Qed.

(** ** Key updates *)

Definition next_secret (h : ptls_hash_algorithm_t) (prefix secret : bytes) : bytes :=
  overwrite secret (rfc5869_expand h (take (digest_size h) secret) (hkdf_label (digest_size h) (str "traffic upd") [] prefix) (digest_size h)).
Definition traffic_key (cs : ptls_cipher_suite_t) (n : nat) (is_iv : bool) (prefix : option bytes) (secret : bytes) : bytes :=
  rfc5869_expand (cs_hash cs) (take (digest_size (cs_hash cs)) secret)
    (hkdf_label n (if is_iv then str "iv" else str "key") [] (default PTLS_HKDF_EXPAND_LABEL_PREFIX prefix)) n.
(** The protection that follows [secret]. *)
Definition next_tp (cs : ptls_cipher_suite_t) (h : ptls_hash_algorithm_t) (label_prefix : bytes) (prefix : option bytes) (is_enc : bool)
    (secret : bytes) : st_ptls_traffic_protection_t :=
  let s := next_secret h label_prefix secret in
  mk_tp s 3 (Some (mk_aead_ctx (cs_aead cs) is_enc (traffic_key cs (key_size (cs_aead cs)) false prefix s)
                     (traffic_key cs (iv_size (cs_aead cs)) true prefix s))) 0.

(** What both ends agree on. *)
Record key_params := mk_kp { kp_cs : ptls_cipher_suite_t; kp_hash : ptls_hash_algorithm_t; kp_label_prefix : bytes; kp_prefix : option bytes }.
Record params_ok (k : key_params) : Prop := {
  kp_hash_laws : HashLaws (kp_hash k);
  kp_cs_hash_laws : HashLaws (cs_hash (kp_cs k));
  kp_aead_laws : AeadLaws (cs_aead (kp_cs k));
  kp_setup : forall is_enc key iv, setup_crypto (cs_aead (kp_cs k)) is_enc key iv = true
}.
Definition has_params (k : key_params) (ctx : ptls_context_t) (t : ptls_t) : Prop :=
  t_cipher_suite t = Some (kp_cs k) /\ ctx_update_traffic_key ctx = None /\ hkdf_label_prefix__obsolete ctx = kp_prefix k /\
  exists sched hctx, t_key_schedule t = Some sched /\ hash0 sched = Ok (kp_hash k, hctx) /\ hkdf_label_prefix sched = kp_label_prefix k.
Definition tp_of (is_enc : bool) (t : ptls_t) : st_ptls_traffic_protection_t := if is_enc then t_enc t else t_dec t.

Lemma next_secret_bytes h `{!HashLaws h} prefix secret : is_bytes secret -> is_bytes (next_secret h prefix secret).
Proof. intros H. unfold next_secret, overwrite. apply Forall_app. split; [apply rfc5869_expand_bytes; apply _ | by apply Forall_drop]. Qed.

Lemma new_aead_spec k is_enc secret : params_ok k -> is_bytes secret ->
  ptls_aead_new (cs_aead (kp_cs k)) (cs_hash (kp_cs k)) is_enc secret (kp_prefix k)
  = Ok (Some (mk_aead_ctx (cs_aead (kp_cs k)) is_enc (traffic_key (kp_cs k) (key_size (cs_aead (kp_cs k))) false (kp_prefix k) secret)
                (traffic_key (kp_cs k) (iv_size (cs_aead (kp_cs k))) true (kp_prefix k) secret))).
Proof.
  intros [Hh Hch Ha Hs] Hb. unfold ptls_aead_new, new_aead. rewrite !(get_traffic_key_spec (cs_hash (kp_cs k))) by done. cbn [res_bind].
  unfold ptls_aead_new_direct. by rewrite Hs.
Qed.

Lemma update_traffic_key_spec k ctx is_enc c :
  params_ok k -> has_params k ctx (c_tls c) -> is_bytes (tp_secret (tp_of is_enc (c_tls c))) ->
  exists evs,
    let tp := next_tp (kp_cs k) (kp_hash k) (kp_label_prefix k) (kp_prefix k) is_enc (tp_secret (tp_of is_enc (c_tls c))) in
    update_traffic_key ctx is_enc c
    = Done tt (c <| c_tls := (if is_enc then (c_tls c) <| t_enc := tp |> else (c_tls c) <| t_dec := tp |>) |> <| c_trace := c_trace c ++ evs |>).
Proof.
  intros Hok (Hcs & Hcb & Hpre & sched & hctx & Hsched & Hhash & Hlab) Hb. pose proof (kp_hash_laws k Hok).
  assert (Hexp : (let! '(hash, _) := hash0 sched in
    hkdf_expand_label hash (digest_size hash) (take (digest_size hash) (tp_secret (tp_of is_enc (c_tls c)))) (str "traffic upd") [] (hkdf_label_prefix sched))
    = Ok (rfc5869_expand (kp_hash k) (take (digest_size (kp_hash k)) (tp_secret (tp_of is_enc (c_tls c))))
            (hkdf_label (digest_size (kp_hash k)) (str "traffic upd") [] (kp_label_prefix k)) (digest_size (kp_hash k)))).
  { rewrite Hhash, Hlab. cbn [res_bind]. apply hkdf_expand_label_spec; [done | by apply Forall_take|].
    rewrite length_take. pose proof (digest_size_block (algo := kp_hash k)). lia. }
  assert (Hb' : is_bytes (next_secret (kp_hash k) (kp_label_prefix k) (tp_secret (tp_of is_enc (c_tls c))))) by (by apply next_secret_bytes).
  unfold update_traffic_key, setup_traffic_protection. rewrite Hcb, Hpre. unfold next_tp.
  set (sec := next_secret _ _ _) in *. destruct is_enc; eexists; cbn [tp_of tp_get tp_set] in *.
  all: erewrite bind_run by reflexivity; erewrite bind_run by (eapply sched_get_run; [exact Hsched | exact Hexp]).
  all: do 4 (erewrite bind_run by reflexivity).
  all: erewrite bind_run by (apply tls_deref_run; exact Hcs).
  all: erewrite bind_run by (apply lift_run, (new_aead_spec k _ _ Hok Hb')); cbv iota.
  all: erewrite bind_run by reflexivity; erewrite bind_run by (eapply sched_algo_run; [exact Hsched | exact Hhash]).
  all: erewrite bind_run by reflexivity; reflexivity.
Qed.

Definition key_update_message (request : bool) : bytes := [PTLS_HANDSHAKE_TYPE_KEY_UPDATE; 0; 0; 1; if request then 1 else 0].

(** The read key was replaced, and nothing else that matters here. *)
Definition read_key_updated (k : key_params) (s s' : conn) : Prop :=
  t_dec (c_tls s') = next_tp (kp_cs k) (kp_hash k) (kp_label_prefix k) (kp_prefix k) false (tp_secret (t_dec (c_tls s))) /\
  key_view (c_tls s') = key_view (c_tls s) /\ t_recvbuf_mess (c_tls s') = t_recvbuf_mess (c_tls s).

Lemma handle_key_update_spec k request s :
  params_ok k -> has_params k ctxs (c_tls s) -> is_bytes (tp_secret (t_dec (c_tls s))) ->
  exists s', handle_key_update ctxs (key_update_message request) s = Done tt s' /\ read_key_updated k s s'.
Proof.
  intros Hok Hp Hb. destruct (update_traffic_key_spec k ctxs false s Hok Hp Hb) as [evs Hrun]. cbn zeta in Hrun.
  unfold handle_key_update, key_update_message, PTLS_HANDSHAKE_HEADER_SIZE. cbn [drop].
  destruct Hp as (_ & -> & _). destruct request; cbn [Z.leb Z.eqb negb mguard when]; change (Z.pos 1 <=? 1) with true; cbn [mguard];
    (erewrite bind_run by reflexivity); (erewrite bind_run by exact Hrun); eexists; (split; [reflexivity|]); done.
Qed.

Lemma handle_message_key_update k request eor s :
  params_ok k -> has_params k ctxs (c_tls s) -> is_bytes (tp_secret (t_dec (c_tls s))) -> post_handshake (c_tls s) ->
  exists s', handle_message is_ipaddr ctxs props (key_update_message request) eor s = Done 0 s' /\ read_key_updated k s s'.
Proof.
  intros Hok Hp Hb Hpost. destruct (handle_key_update_spec k request s Hok Hp Hb) as (s' & Hrun & Hk). exists s'. split; [|done].
  unfold handle_message, post_handshake in *. erewrite bind_run by reflexivity.
  destruct (t_is_server (c_tls s)); unfold handle_server_handshake_message, handle_client_handshake_message.
  all: erewrite bind_run by (by apply lift_run); erewrite bind_run by reflexivity; rewrite Hpost.
  all: cbv zeta; change (PTLS_HANDSHAKE_TYPE_KEY_UPDATE =? PTLS_HANDSHAKE_TYPE_KEY_UPDATE) with true;
    change (PTLS_HANDSHAKE_TYPE_KEY_UPDATE =? PTLS_HANDSHAKE_TYPE_NEW_SESSION_TICKET) with false.
  all: cbv iota; by erewrite bind_run by exact Hrun.
Qed.

Lemma dispatch_key_update k request s :
  params_ok k -> has_params k ctxs (c_tls s) -> is_bytes (tp_secret (t_dec (c_tls s))) -> post_handshake (c_tls s) -> t_recvbuf_mess (c_tls s) = None ->
  exists s', dispatch_record is_ipaddr ctxs props PTLS_CONTENT_TYPE_HANDSHAKE (key_update_message request) s = Done (0, []) s' /\
    read_key_updated k s s'.
Proof.
  intros Hok Hp Hb Hpost Hm. destruct (handle_message_key_update k request true s Hok Hp Hb Hpost) as (s' & Hrun & Hd & Hv & Hm').
  exists (s' <| c_tls := (c_tls s') <| t_recvbuf_mess := None |> |>). split; [|by split_and!; [| |cbn; rewrite Hm]].
  unfold dispatch_record. do 3 (erewrite bind_run by reflexivity). rewrite Hm. 
  assert (Hmess : handle_messages 5 (handle_message is_ipaddr ctxs props) PTLS_ERROR_IN_PROGRESS (key_update_message request) s = Done (0, []) s').
  { unfold handle_messages; fold handle_messages. cbn [key_update_message length Nat.ltb Nat.leb].
    rewrite (bind_run _ _ s 1 s) by (apply lift_run; by destruct request).
    change (Z.to_nat 1) with 1%nat. cbn [Nat.add Nat.ltb Nat.leb Nat.eqb take drop].
    change (take 5 (key_update_message request)) with (key_update_message request). change (drop 5 (key_update_message request)) with (@nil Z).
    by rewrite (bind_run _ _ s 0 s') by (unfold code_of'; by rewrite Hrun). }
  change (PTLS_CONTENT_TYPE_HANDSHAKE =? PTLS_CONTENT_TYPE_HANDSHAKE) with true. cbv iota.
  unfold handle_handshake_record.
  erewrite bind_run; [reflexivity|]. do 2 (erewrite bind_run by reflexivity). rewrite Hm. erewrite bind_run by reflexivity.
  erewrite bind_run by exact Hmess. done.
Qed.

Lemma has_params_view k ctx t t' : key_view t' = key_view t -> has_params k ctx t -> has_params k ctx t'.
Proof. unfold key_view, has_params. intros [= _ _ -> ->]. done. Qed.
Lemma post_handshake_view t t' : key_view t' = key_view t -> post_handshake t -> post_handshake t'.
Proof. unfold key_view, post_handshake. intros [= -> -> _ _]. done. Qed.

(** A KeyUpdate is consumed and the loop goes on with the new key. *)
Lemma receive_key_update k s ct rest request d :
  params_ok k -> has_params k ctxs (c_tls s) -> is_bytes (tp_secret (t_dec (c_tls s))) -> ready (c_tls s) ->
  is_bytes ct -> is_bytes rest -> Z.of_nat (length ct) <= PTLS_MAX_ENCRYPTED_RECORD_SIZE ->
  aead_decrypt (t_dec (c_tls s)) ct = Ok (key_update_message request ++ [PTLS_CONTENT_TYPE_HANDSHAKE], d) ->
  tp_secret d = tp_secret (t_dec (c_tls s)) ->
  exists s', (forall fuel, receive_loop is_ipaddr ctxs props (S fuel) 0 [] (buffer_push_record PTLS_CONTENT_TYPE_APPDATA ct ++ rest) s
                           = receive_loop is_ipaddr ctxs props fuel 0 [] rest s') /\
    received s (next_tp (kp_cs k) (kp_hash k) (kp_label_prefix k) (kp_prefix k) false (tp_secret (t_dec (c_tls s)))) s'.
Proof.
  intros Hok Hp Hb (Hpost & Hrb & Hmess) Hct Hrest Hlen Hdec Hsec.
  destruct (handle_input_encrypted s ct rest d _ _ Hrb Hct Hrest Hlen Hdec) as [rb Hin]; [done|].
  destruct (dispatch_key_update k request (after_record s rb d) Hok) as (s' & Hrun & Hd & Hv & Hm); [done | cbn; by rewrite Hsec | done | done |].
  exists (end_record s'). cbn [c_tls after_record] in Hd, Hv, Hm. split.
  - intros fuel. cbn [receive_loop]. rewrite length_app, length_push_record. cbn [Nat.add Nat.eqb orb negb Z.eqb length].
    unfold bind at 1. rewrite Hin, (next_record_done _ _ _ _ Hrun). change (0 =? PTLS_ERROR_IN_PROGRESS) with false. by rewrite drop_record.
  - split_and!; [cbn; rewrite Hd; cbn; by rewrite Hsec | | exact Hv].
    split_and!; [by apply (post_handshake_view (c_tls s)) | done | cbn; rewrite Hm; exact Hmess].
Qed.

(** ** The sender *)

Lemma update_send_key_spec k request c d :
  params_ok k -> has_params k ctxc (c_tls c) -> is_bytes (tp_secret (t_enc (c_tls c))) -> paired (t_enc (c_tls c)) d -> c_emitter c = RecordEmitter ->
  exists ct c', update_send_key ctxc request c = Done tt c' /\
    c_buf c' = c_buf c ++ buffer_push_record PTLS_CONTENT_TYPE_APPDATA ct /\ is_bytes ct /\ Z.of_nat (length ct) <= PTLS_MAX_ENCRYPTED_RECORD_SIZE /\
    aead_decrypt d ct = Ok (key_update_message request ++ [PTLS_CONTENT_TYPE_HANDSHAKE], advance d) /\
    t_enc (c_tls c') = next_tp (kp_cs k) (kp_hash k) (kp_label_prefix k) (kp_prefix k) true (tp_secret (t_enc (c_tls c))) /\
    key_view (c_tls c') = key_view (c_tls c) /\ c_emitter c' = RecordEmitter.
Proof.
  intros Hok Hp Hb Hpair Hem.
  assert (Hkb : is_bytes (key_update_message request)) by (destruct request; by repeat constructor).
  destruct (encrypt_record_spec (c_buf c) PTLS_CONTENT_TYPE_HANDSHAKE (key_update_message request) 0 0 _ _ Hpair Hkb) as (ct & Henc & Hdec & Hbuf);
    [done | done |].
  destruct (encrypt_decrypt _ _ (key_update_message request) PTLS_CONTENT_TYPE_HANDSHAKE Hpair Hkb ltac:(done)) as (ct' & Henc' & Hbct & Hlct & _).
  rewrite Henc in Henc'. injection Henc' as <-. exists ct. clear Henc.
  set (c1 := c <| c_buf := c_buf c ++ buffer_push_record PTLS_CONTENT_TYPE_APPDATA ct |> <| c_tls := (c_tls c) <| t_enc := advance (t_enc (c_tls c)) |> |>).
  assert (Hpush : ptls_push_message false PTLS_HANDSHAKE_TYPE_KEY_UPDATE [if request then 1 else 0] c = Done tt c1).
  { unfold ptls_push_message. do 2 (erewrite bind_run by reflexivity). rewrite Hem. unfold begin_record_message.
    erewrite bind_run by reflexivity. erewrite bind_run by reflexivity.
    destruct Hpair as (ae & ad & Hae & _). unfold commit_record_message. rewrite Hae, <- app_assoc.
    change (message_body PTLS_HANDSHAKE_TYPE_KEY_UPDATE [if request then 1 else 0]) with (key_update_message request).
    erewrite bind_run by (apply lift_run, Hbuf). done. }
  destruct (update_traffic_key_spec k ctxc true c1 Hok) as [evs Hupd]; [done | done |].
  eexists. unfold update_send_key. erewrite bind_run by reflexivity. cbv beta. erewrite bind_run by exact Hpush. rewrite Hupd.
  split; [reflexivity|]. split_and!; try done. simpl in Hlct. unfold PTLS_MAX_ENCRYPTED_RECORD_SIZE. destruct request; simpl in Hlct; lia.
Qed.

(** ** Everything that was sent *)

(** Calls to [ptls_receive] until the input is used up: the data they return. *)
Fixpoint receive_all (fuel : nat) (input : bytes) : MC bytes :=
  match input, fuel with
  | [], _ => ret []
  | _, O => undefined OutOfFuel
  | _, S fuel =>
      do! x := ptls_receive is_ipaddr ctxs props input in
      let '(code, consumed, data) := x in
      mguard (code =? 0) code ;;;
      do! rest := receive_all fuel (drop consumed input) in
      ret (data ++ rest)
  end.

Lemma receive_run input s data rest s' :
  post_handshake (c_tls s) -> receive_loop is_ipaddr ctxs props (length input) 0 [] input s = Done (0, data, rest) s' ->
  ptls_receive is_ipaddr ctxs props input s = Done (0, (length input - length rest)%nat, data) s'.
Proof.
  intros Hpost Hrun. unfold ptls_receive. erewrite bind_run by reflexivity.
  rewrite (bind_run _ _ s tt s); [by erewrite bind_run by exact Hrun|].
  unfold massert, post_handshake in *. rewrite Hpost. by destruct (t_is_server (c_tls s)).
Qed.

Lemma receive_all_step fuel input s data rest s' :
  input <> [] -> post_handshake (c_tls s) -> receive_loop is_ipaddr ctxs props (length input) 0 [] input s = Done (0, data, rest) s' ->
  receive_all (S fuel) input s = (do! tail := receive_all fuel (drop (length input - length rest) input) in ret (data ++ tail)) s'.
Proof.
  intros Hne Hpost Hrun. apply receive_run in Hrun; [|done]. cbn [receive_all]. destruct input eqn:E; [done|]. rewrite <- E in *.
  rewrite (bind_run _ _ _ _ _ Hrun). cbv iota beta. by rewrite (bind_run (mguard _ _) _ s' tt s') by done.
Qed.

Lemma receive_all_inv fuel input s data s' :
  input <> [] -> post_handshake (c_tls s) -> receive_all (S fuel) input s = Done data s' ->
  exists first rest s1 tail, receive_loop is_ipaddr ctxs props (length input) 0 [] input s = Done (0, first, rest) s1 /\
    receive_all fuel (drop (length input - length rest) input) s1 = Done tail s' /\ data = first ++ tail.
Proof.
  intros Hne Hpost Hrun. cbn [receive_all] in Hrun. destruct input eqn:E; [done|]. rewrite <- E in *.
  unfold bind at 1, ptls_receive in Hrun. rewrite (bind_run (tls_get t_state) _ s (t_state (c_tls s)) s) in Hrun by done.
  rewrite (bind_run (massert _) _ s tt s) in Hrun.
  2: { unfold massert, post_handshake in *. rewrite Hpost. by destruct (t_is_server (c_tls s)). }
  unfold bind at 1 in Hrun. destruct (receive_loop is_ipaddr ctxs props (length input) 0 [] input s) as [[[code first] rest] s1| |]; [|done..].
  cbn [ret] in Hrun. unfold bind, mguard in Hrun. destruct (Z.eqb_spec code 0) as [->|]; [|done]. cbn [ret] in Hrun.
  destruct (receive_all fuel (drop (length input - length rest) input) s1) as [tail s2| |] eqn:Et; [|done..]. injection Hrun as <- <-.
  exists first, rest, s1, tail. done.
Qed.

Record linked (k : key_params) (c s : conn) : Prop := {
  link_params : params_ok k;
  link_sender : has_params k ctxc (c_tls c);
  link_receiver : has_params k ctxs (c_tls s);
  link_paired : paired (t_enc (c_tls c)) (t_dec (c_tls s));
  link_secret : tp_secret (t_enc (c_tls c)) = tp_secret (t_dec (c_tls s));
  link_bytes : is_bytes (tp_secret (t_enc (c_tls c)));
  link_ready : ready (c_tls s);
  link_emitter : c_emitter c = RecordEmitter
}.

(** Records of application data, under one key. *)
Lemma transfer_records fuel e d src :
  paired e d -> is_bytes src -> (length src <= fuel)%nat ->
  exists out e', (forall buf, push_encrypted_loop fuel buf PTLS_CONTENT_TYPE_APPDATA src e = Ok (buf ++ out, e')) /\ is_bytes out /\
    tp_secret e' = tp_secret e /\
    forall s, paired e (t_dec (c_tls s)) -> ready (c_tls s) -> exists s',
      (forall fuel', (length out <= fuel')%nat -> receive_all fuel' out s = Done src s') /\
      paired e' (t_dec (c_tls s')) /\ tp_secret (t_dec (c_tls s')) = tp_secret (t_dec (c_tls s)) /\
      ready (c_tls s') /\ key_view (c_tls s') = key_view (c_tls s).
Proof.
  revert e d src. induction fuel as [|fuel IH]; intros e d src Hp Hb Hf.
  all: destruct (Nat.eqb_spec (length src) 0) as [E0|E0]; [|try lia].
  1, 2: destruct src; [|done]; exists [], e; split_and!; try done; [intros; cbn; by rewrite app_nil_r|];
    intros s Hps Hrs; exists s; split_and!; try done; by intros [|].
  set (n := Nat.min (length src) (Z.to_nat PTLS_MAX_PLAINTEXT_RECORD_SIZE)).
  assert (Hn : (0 < n <= length src)%nat /\ Z.of_nat n <= PTLS_MAX_PLAINTEXT_RECORD_SIZE) by (unfold n, PTLS_MAX_PLAINTEXT_RECORD_SIZE; lia).
  assert (Hln : length (take n src) = n) by (rewrite length_take; lia).
  assert (Hbn : is_bytes (take n src)) by (by apply Forall_take).
  destruct (encrypt_decrypt e d (take n src) PTLS_CONTENT_TYPE_APPDATA Hp Hbn) as (ct & Henc & Hbct & Hlct & _); [done|]. rewrite Hln in Hlct.
  assert (Hmax : Z.of_nat (length ct) <= PTLS_MAX_ENCRYPTED_RECORD_SIZE)
    by (unfold PTLS_MAX_ENCRYPTED_RECORD_SIZE, PTLS_MAX_PLAINTEXT_RECORD_SIZE in *; lia).
  destruct (IH (advance e) (advance d) (drop n src)) as (out & e' & Hpush & Hbout & Hsec & Hrecv);
    [by apply paired_advance | by apply Forall_drop | rewrite length_drop; lia |].
  exists (buffer_push_record PTLS_CONTENT_TYPE_APPDATA ct ++ out), e'. split_and!; [ | by apply Forall_app; split; [apply push_record_bytes|] | done | ].
  { intros buf. cbn [push_encrypted_loop]. destruct (Nat.eqb_spec (length src) 0); [done|]. fold n. rewrite Henc. cbn [res_bind].
    by rewrite Hpush, <- app_assoc. }
  intros s Hps Hrs.
  destruct (encrypt_decrypt e _ (take n src) PTLS_CONTENT_TYPE_APPDATA Hps Hbn) as (ct' & Henc' & _ & _ & Hdec); [done|].
  rewrite Henc in Henc'. injection Henc' as <-.
  assert (Hne : take n src <> []) by (intros E; rewrite E in Hln; simpl in Hln; lia).
  set (input := buffer_push_record PTLS_CONTENT_TYPE_APPDATA ct ++ out).
  destruct (receive_data (length input - 1) s ct out _ _ Hrs Hbct Hbout Hmax Hdec Hne) as (s1 & Hrun & Hd1 & Hr1 & Hv1).
  destruct (Hrecv s1) as (s2 & Hall & Hp2 & Hs2 & Hr2 & Hv2); [rewrite Hd1; by apply paired_advance | done |].
  exists s2. split_and!; [ | done | by rewrite Hs2, Hd1 | done | congruence].
  assert (Hli : length input = (5 + length ct + length out)%nat) by (unfold input; rewrite length_app, length_push_record; done).
  intros [|fuel'] Hf'; [fold input in Hf'; lia|]. fold input in Hf', Hrun |- *.
  replace (S (length input - 1)) with (length input) in Hrun by lia.
  rewrite (receive_all_step _ _ _ _ _ _ ltac:(intros E; rewrite E in Hli; simpl in Hli; lia) (proj1 Hrs) Hrun).
  replace (drop (length input - length out) input) with out by (unfold input; by rewrite length_app, Nat.add_sub, drop_app_length).
  rewrite (bind_run _ _ _ _ _ (Hall fuel' ltac:(lia))). unfold ret. by rewrite take_drop.
Qed.

Lemma receive_loop_more fuel code data input s x s' extra :
  receive_loop is_ipaddr ctxs props fuel code data input s = Done x s' -> receive_loop is_ipaddr ctxs props (fuel + extra) code data input s = Done x s'.
Proof.
  revert code data input s. induction fuel as [|fuel IH]; intros code data input s H; cbn [receive_loop Nat.add] in *.
  - destruct extra; cbn [receive_loop]; by destruct (_ || _).
  - destruct (_ || _); [done|]. unfold bind in *. destruct (handle_input _ _ _ input s) as [[[code' consumed] data'] s1| |]; [|done..]. by apply IH.
Qed.
Lemma receive_loop_rest fuel code data input s code' data' rest s' :
  receive_loop is_ipaddr ctxs props fuel code data input s = Done (code', data', rest) s' -> (length rest <= length input)%nat.
Proof.
  revert code data input s. induction fuel as [|fuel IH]; intros code data input s H; cbn [receive_loop] in *.
  - destruct (_ || _); [by inversion H | done].
  - destruct (_ || _); [by inversion H|]. unfold bind in *. destruct (handle_input _ _ _ input s) as [[[code1 consumed] data1] s1| |]; [|done..].
    apply IH in H. rewrite length_drop in H. lia.
Qed.

(** A record that the loop consumes and returns nothing for. *)
Lemma receive_all_prefix pre out s s1 input s' :
  pre <> [] -> post_handshake (c_tls s) -> post_handshake (c_tls s1) ->
  (forall fuel, receive_loop is_ipaddr ctxs props (S fuel) 0 [] (pre ++ out) s = receive_loop is_ipaddr ctxs props fuel 0 [] out s1) ->
  (forall fuel, (length out <= fuel)%nat -> receive_all fuel out s1 = Done input s') ->
  receive_all (length (pre ++ out)) (pre ++ out) s = Done input s'.
Proof.
  intros Hpre Hpost Hpost1 Hloop Hall. set (L := length (pre ++ out)).
  assert (HL : (L = length pre + length out)%nat) by (unfold L; by rewrite length_app).
  assert (Hp1 : (1 <= length pre)%nat) by (destruct pre; [done | simpl; lia]).
  destruct L as [|f] eqn:EL; [lia|]. subst L.
  assert (Hne : pre ++ out <> []) by (intros E; rewrite E in EL; done). destruct out as [|b out'] eqn:Eo.
  - rewrite (receive_all_step f (pre ++ []) s [] [] s1 Hne Hpost); [|rewrite EL, Hloop; by destruct f].
    pose proof (Hall f ltac:(simpl; lia)) as Ha. rewrite app_nil_r, Nat.sub_0_r, drop_all. destruct f; cbn in Ha; injection Ha as <- <-; done.
  - rewrite <- Eo in *. assert (Hon : out <> []) by (by rewrite Eo). clear b out' Eo.
    destruct (receive_all_inv f out s1 input s' Hon Hpost1) as (first & rest & s2 & tail & Hrun & Htail & ->); [apply Hall; lia|].
    pose proof (receive_loop_rest _ _ _ _ _ _ _ _ _ Hrun) as Hrl.
    rewrite (receive_all_step f (pre ++ out) s first rest s2 Hne Hpost).
    2: { rewrite EL, Hloop. replace f with (length out + (f - length out))%nat by lia. by apply receive_loop_more. }
    replace (length (pre ++ out) - length rest)%nat with (length pre + (length out - length rest))%nat by lia.
    by rewrite drop_app_add, (bind_run _ _ _ _ _ Htail).
Qed.

(** ** [ptls_send] *)

Definition send_records (input : bytes) : MC unit :=
  do! enc := tls_get t_enc in
  do! buf := gets c_buf in
  do! x := lift (buffer_push_encrypted_records buf PTLS_CONTENT_TYPE_APPDATA input enc) in
  modify (fun c => c <| c_buf := fst x |>) ;;;
  tls-> t_enc := snd x.

Lemma send_records_spec k c s0 input :
  linked k c s0 -> is_bytes input ->
  exists out c', send_records input c = Done tt c' /\ c_buf c' = c_buf c ++ out /\ is_bytes out /\
    forall s, linked k c s -> exists s', (forall fuel, (length out <= fuel)%nat -> receive_all fuel out s = Done input s') /\ linked k c' s'.
Proof.
  intros Hl Hb. destruct (transfer_records (length input) _ _ input (link_paired _ _ _ Hl) Hb) as (out & e' & Hpush & Hbo & Hsec & Hrecv); [lia|].
  exists out. eexists. split_and!.
  - unfold send_records. do 2 (erewrite bind_run by reflexivity). rewrite (bind_run _ _ _ _ _ (lift_run _ c _ (Hpush (c_buf c)))). reflexivity.
  - done.
  - done.
  - intros s []. destruct (Hrecv s) as (s' & Hall & Hp' & Hs' & Hr' & Hv'); [done | done |]. exists s'. split; [done|].
    constructor; try done; cbn; [by eapply has_params_view | congruence | by rewrite Hsec].
Qed.

Lemma next_tp_paired k secret : params_ok k ->
  paired (next_tp (kp_cs k) (kp_hash k) (kp_label_prefix k) (kp_prefix k) true secret)
         (next_tp (kp_cs k) (kp_hash k) (kp_label_prefix k) (kp_prefix k) false secret).
Proof. intros []. do 2 eexists. by split_and!. Qed.

(** C3: application data survives the transfer: whatever [ptls_send] appends to
    the buffer of one end, the calls to [ptls_receive] at the other end return
    exactly the data that was sent, and the ends stay linked, also when
    [ptls_send] first replaces its write key (because a key update is pending, or
    because 2^24 records were written with the key). *)
Theorem send_receive_roundtrip k c s input :
  linked k c s -> is_bytes input ->
  exists c' out s', ptls_send ctxc input c = Done tt c' /\ c_buf c' = c_buf c ++ out /\
    receive_all (length out) out s = Done input s' /\ linked k c' s'.
Proof.
  intros Hl Hb. pose proof (link_paired _ _ _ Hl) as Hpair. destruct Hpair as (ae & ad & Hae & _).
  unfold ptls_send. erewrite bind_run by reflexivity. rewrite (bind_run (massert _) _ c tt c) by (by rewrite Hae).
  set (c0 := if 16777216 <=? tp_seq (t_enc (c_tls c)) then c <| c_tls := (c_tls c) <| t_needs_key_update := true |> |> else c).
  rewrite (bind_run (when _ _) _ c tt c0) by (unfold c0, when; by destruct (_ <=? _)).
  rewrite (bind_run (tls_get _) _ c0 (t_needs_key_update (c_tls c0)) c0) by done.
  assert (Hl0 : linked k c0 s) by (unfold c0; destruct (_ <=? _); [by destruct Hl; constructor | done]).
  assert (Hb0 : c_buf c0 = c_buf c) by (unfold c0; by destruct (_ <=? _)). rewrite <- Hb0. clearbody c0. clear Hl Hb0 Hae.
  destruct (t_needs_key_update (c_tls c0)); cbn [when].
  - destruct Hl0 as [Hok Hpc Hps Hpair Hsec Hbs Hr Hem].
    destruct (update_send_key_spec k (t_key_update_send_request (c_tls c0)) c0 _ Hok Hpc Hbs Hpair Hem)
      as (ct & c1 & Hrun & Hbuf & Hbct & Hlct & Hdec & Henc & Hv & Hem1).
    set (c2 := c1 <| c_tls := (c_tls c1) <| t_needs_key_update := false |> <| t_key_update_send_request := false |> |>).
    rewrite (bind_run _ _ c0 tt c2) by (erewrite bind_run by reflexivity; by rewrite (bind_run _ _ _ _ _ Hrun)).
    set (tp := next_tp (kp_cs k) (kp_hash k) (kp_label_prefix k) (kp_prefix k)) in *.
    assert (Hlink : forall s1, received s (tp false (tp_secret (t_dec (c_tls s)))) s1 -> linked k c2 s1).
    { intros s1 (Hd1 & Hr1 & Hv1). constructor; try done.
      - by apply (has_params_view k ctxc (c_tls c0)).
      - by apply (has_params_view k ctxs (c_tls s)).
      - cbn. rewrite Henc, Hd1, Hsec. by apply next_tp_paired.
      - cbn. by rewrite Henc, Hd1, Hsec.
      - cbn. rewrite Henc. apply next_secret_bytes; [apply Hok | done]. }
    destruct (send_records_spec k c2 (s <| c_tls := (c_tls s) <| t_dec := tp false (tp_secret (t_dec (c_tls s))) |> |>) input)
      as (out & c' & Hsend & Hbuf' & Hbout & Hrecv); [by apply Hlink | done |].
    assert (Hbsec : is_bytes (tp_secret (t_dec (c_tls s)))) by (by rewrite <- Hsec).
    destruct (receive_key_update k s ct out _ _ Hok Hps Hbsec Hr Hbct Hbout Hlct Hdec eq_refl) as (s1 & Hloop & Hrec).
    destruct (Hrecv s1 (Hlink s1 Hrec)) as (s' & Hall & Hl'). exists c', (buffer_push_record PTLS_CONTENT_TYPE_APPDATA ct ++ out), s'.
    split_and!; [exact Hsend | by rewrite Hbuf', app_assoc, <- Hbuf | | done].
    eapply receive_all_prefix; [done | apply Hr | apply Hrec | exact Hloop | exact Hall].
  - rewrite (bind_run _ _ c0 tt c0) by done. destruct (send_records_spec k c0 s input Hl0 Hb) as (out & c' & Hsend & Hbuf & _ & Hrecv).
    destruct (Hrecv s Hl0) as (s' & Hall & Hl'). exists c', out, s'. split_and!; [exact Hsend | done | by apply Hall | done].
Qed.
End Transfer.
