(* ===== verification/Simulation.v ===== *)
(** * Simulation: complete handshakes, executed

    A context built on the toy primitives of [Crypto], and the definitions of the
    development run on it: a handshake between a client and a server, with and
    without client authentication.  The runs are the witnesses of the theorems of
    [Auth], [Stream] and [Transfer]. *)
From S2P Require Import Prelude Constants Monad Wire Crypto Record KeySchedule Extensions Messages Hello Esni Context Handshake Client CertCompress Server Api Frame Auth Stream Transfer.

Definition toy_random (n : Z) (k : nat) : bytes := map (fun i => u8 (n * 17 + Z.of_nat i)) (seq 0 k).
Definition toy_sign (data : bytes) : bytes := digest toy_hash data.
Definition toy_verifier (data signature : bytes) : Z := if bool_decide (signature = toy_sign data) then 0 else PTLS_ALERT_DECRYPT_ERROR.
Definition toy_verify_certificate (certs : list bytes) : Z + option (bytes -> bytes -> Z) := inr (Some toy_verifier).
Definition toy_context (client_auth : bool) : ptls_context_t :=
  mk_ctx toy_random (fun n => 1000000 + n) [toy_kx] [toy_cs] [[1; 2; 3]] None None None
    (Some (fun _ data _ => inr (PTLS_SIGNATURE_RSA_PSS_RSAE_SHA256, toy_sign data)))
    (Some toy_verify_certificate) 0 0 0 None false true false client_auth false None None None None None None.
Definition toy_conn (emitter : emitter_kind) (tls : ptls_t) : conn :=
  mk_conn tls emitter [] [0; 0; 0; 0; 0]%nat 100 0 PTLS_EARLY_DATA_ACCEPTANCE_UNKNOWN [] [].
Definition no_ipaddr (_ : bytes) : bool := false.

(** Messages handled one after the other. *)
Fixpoint step_all (handle : bytes -> bool -> MC Z) (ms : list bytes) : MC unit :=
  match ms with
  | [] => ret tt
  | m :: ms => handle m true ;;; step_all handle ms
  end.

(** A handshake over the raw emitter: the connections at the end. *)
Definition toy_handshake (client_auth : bool) : option (conn * conn) :=
  let ctx := toy_context client_auth in
  let c0 := toy_conn RawEmitter (ptls_set_server_name (Some (str "example.com")) (ptls_client_new ctx 1)) in
  let s0 := toy_conn RawEmitter (ptls_server_new ctx) in
  match send_client_hello no_ipaddr ctx None None c0 with
  | Done _ c1 =>
      match step_all (handle_server_handshake_message ctx None) [c_buf c1] s0 with
      | Done _ s1 =>
          match step_all (handle_client_handshake_message no_ipaddr ctx None) (fst (messages (c_buf s1))) c1 with
          | Done _ c2 =>
              match step_all (handle_server_handshake_message ctx None) (fst (messages (drop (length (c_buf c1)) (c_buf c2)))) s1 with
              | Done _ s2 => Some (c2, s2)
              | _ => None
              end
          | _ => None
          end
      | _ => None
      end
  | _ => None
  end.

(** Both ends are done and hold the same secrets. *)
Definition handshake_complete (ends : option (conn * conn)) : bool :=
  match ends with
  | Some (c, s) =>
      bool_decide (t_state (c_tls c) = PTLS_STATE_CLIENT_POST_HANDSHAKE) && bool_decide (t_state (c_tls s) = PTLS_STATE_SERVER_POST_HANDSHAKE) &&
      bool_decide (tp_secret (t_enc (c_tls c)) = tp_secret (t_dec (c_tls s))) && bool_decide (tp_secret (t_dec (c_tls c)) = tp_secret (t_enc (c_tls s)))
  | None => false
  end.
Lemma handshake_complete_spec ends : handshake_complete ends = true ->
  exists c s, ends = Some (c, s) /\ t_state (c_tls c) = PTLS_STATE_CLIENT_POST_HANDSHAKE /\ t_state (c_tls s) = PTLS_STATE_SERVER_POST_HANDSHAKE.
Proof.
  destruct ends as [[c s]|]; [|discriminate]. cbn. intros H. exists c, s. split; [reflexivity|].
  apply andb_true_iff in H as [H _]. apply andb_true_iff in H as [H _]. apply andb_true_iff in H as [Hc Hs].
  split; [exact (bool_decide_eq_true_1 _ Hc) | exact (bool_decide_eq_true_1 _ Hs)].
Qed.

Lemma step_all_client is_ipaddr ctx props ms c c' :
  client_reachable is_ipaddr ctx props c -> step_all (handle_client_handshake_message is_ipaddr ctx props) ms c = Done tt c' ->
  client_reachable is_ipaddr ctx props c'.
Proof.
  revert c. induction ms as [|m ms IH]; intros c Hr Hrun; cbn [step_all] in Hrun; [by injection Hrun as <-|].
  unfold bind in Hrun. destruct (handle_client_handshake_message is_ipaddr ctx props m true c) as [r c1| |] eqn:E; [|discriminate Hrun..].
  apply (IH c1); [|exact Hrun]. eapply client_handled; [exact Hr | exact E].
Qed.
Lemma step_all_server ctx props ms c c' :
  server_reachable ctx props c -> step_all (handle_server_handshake_message ctx props) ms c = Done tt c' -> server_reachable ctx props c'.
Proof.
  revert c. induction ms as [|m ms IH]; intros c Hr Hrun; cbn [step_all] in Hrun; [by injection Hrun as <-|].
  unfold bind in Hrun. destruct (handle_server_handshake_message ctx props m true c) as [r c1| |] eqn:E; [|discriminate Hrun..].
  apply (IH c1); [|exact Hrun]. eapply server_handled; [exact Hr | exact E].
Qed.

(** Both ends of a run are reachable. *)
Lemma toy_handshake_reachable client_auth c s :
  toy_handshake client_auth = Some (c, s) ->
  client_reachable no_ipaddr (toy_context client_auth) None c /\ server_reachable (toy_context client_auth) None s.
Proof.
  unfold toy_handshake. set (c0 := toy_conn RawEmitter (ptls_set_server_name _ _)). set (s0 := toy_conn RawEmitter (ptls_server_new _)).
  assert (Hs0 : server_reachable (toy_context client_auth) None s0) by (by apply server_started).
  destruct (send_client_hello no_ipaddr (toy_context client_auth) None None c0) as [r c1| |] eqn:E1; [|discriminate..].
  assert (Hc1 : client_reachable no_ipaddr (toy_context client_auth) None c1) by (by eapply client_started; [| | | exact E1]).
  destruct (step_all _ [c_buf c1] s0) as [[] s1| |] eqn:E2; [|discriminate..].
  destruct (step_all _ (fst (messages (c_buf s1))) c1) as [[] c2| |] eqn:E3; [|discriminate..].
  destruct (step_all _ _ s1) as [[] s2| |] eqn:E4; [|discriminate..]. intros [= <- <-].
  split; [by eapply step_all_client | eapply step_all_server; [|exact E4]; by eapply step_all_server].
Qed.

Lemma toy_handshake_completes : handshake_complete (toy_handshake false) = true.
Proof. vm_compute. reflexivity. Qed.
Lemma toy_handshake_client_auth_completes : handshake_complete (toy_handshake true) = true.
Proof. vm_compute. reflexivity. Qed.

Lemma toy_verifiers certs v : toy_verify_certificate certs = inr v -> is_Some v.
Proof. intros [= <-]. by eexists. Qed.



Lemma server_refines_state_machine_witness :
  exists s, t_state (c_tls s) = PTLS_STATE_SERVER_POST_HANDSHAKE /\
    match handle_server_handshake_message (toy_context true) None (key_update_message true) true s with
    | Done r s' => r = (if server_done (t_state (c_tls s)) (t_state (c_tls s')) then 0 else PTLS_ERROR_IN_PROGRESS)
    | Fail _ s' => t_state (c_tls s') = t_state (c_tls s)
    | Undefined _ => True
    end.
Proof.
  destruct (handshake_complete_spec _ toy_handshake_client_auth_completes) as (c & s & Hrun & _ & Hs).
  destruct (toy_handshake_reachable _ _ _ Hrun) as [_ Hr]. exists s. split; [exact Hs|].
  pose proof (server_refines_state_machine (toy_context true) None (key_update_message true) true s Hr) as H.
  destruct (handle_server_handshake_message (toy_context true) None (key_update_message true) true s) as [r s'|e s'|].
  - destruct H as (type & rest & _ & _ & _ & H). exact H.
  - destruct H as [H|H]; [|exact H]. unfold expects_hello in H. rewrite Hs in H. destruct H; discriminate.
  - exact I.
Defined.

(** A server that gets a malformed ClientHello in two pieces; then a message in
    one record with the beginning of the next. *)
Lemma handshake_stream_delivered_witness :
  let fragments := [[1; 0; 0; 1]; [5]; [20; 0; 0; 0; 20; 0]] in
  let c := toy_conn RecordEmitter (ptls_server_new (toy_context false)) in
  map fst (marked [] fragments) = [[1; 0; 0; 1; 5]; [20; 0; 0; 0]] /\ map snd (marked [] fragments) = [true; false] /\
  exists code c1 c2,
    feed_records (toy_context false) (handle_message no_ipaddr (toy_context false) None) PTLS_ERROR_IN_PROGRESS fragments c = Fail code c1 /\
    run_marked (handle_message no_ipaddr (toy_context false) None) PTLS_ERROR_IN_PROGRESS (marked [] fragments) c = Fail code c2 /\
    same_but_mess c1 c2.
Proof.
  intros fragments c. destruct (handshake_stream_delivered no_ipaddr (toy_context false) None fragments c eq_refl ltac:(by repeat constructor) eq_refl) as [H1 H2].
  split; [exact H1|]. split; [reflexivity|].
  assert (Hf : match feed_records (toy_context false) (handle_message no_ipaddr (toy_context false) None) PTLS_ERROR_IN_PROGRESS fragments c with
               | Fail _ _ => true | _ => false end = true) by (vm_compute; reflexivity).
  unfold agree in H2. destruct (feed_records _ _ _ _ c) as [|code c1|]; [discriminate Hf | | discriminate Hf].
  destruct (run_marked _ _ _ c) as [|code' c2|]; [destruct H2 | | destruct H2]. destruct H2 as [<- H2]. exists code, c1, c2. auto.
Defined.

(** Two ends with the same traffic secret; the writer has used up its key. *)
Definition toy_secret : bytes := replicate PTLS_MAX_DIGEST_SIZE 7.
Definition toy_end (is_server is_enc : bool) : conn :=
  let tp := mk_tp toy_secret 3 (Some (mk_aead_ctx toy_aead is_enc (replicate 16 1) (replicate 12 2))) 16777216 in
  let tls := new_instance (toy_context false) is_server (if is_server then PTLS_STATE_SERVER_POST_HANDSHAKE else PTLS_STATE_CLIENT_POST_HANDSHAKE) in
  let tls := tls <| t_cipher_suite := Some toy_cs |> <| t_key_schedule := Some (key_schedule_new (Some toy_cs) None None) |> in
  toy_conn RecordEmitter (if is_enc then tls <| t_enc := tp |> else tls <| t_dec := tp |>).
Definition toy_params : key_params := mk_kp toy_cs toy_hash PTLS_HKDF_EXPAND_LABEL_PREFIX None.

Lemma toy_linked : linked (toy_context false) (toy_context false) toy_params (toy_end false true) (toy_end true false).
Proof.
  constructor; try done.
  - constructor; try apply _. done.
  - split_and!; try done. by do 2 eexists.
  - split_and!; try done. by do 2 eexists.
  - do 2 eexists. split_and!; try done. apply _.
  - apply Forall_replicate. done.
Qed.

Lemma send_receive_roundtrip_witness :
  exists c' out s', ptls_send (toy_context false) [1; 2; 3] (toy_end false true) = Done tt c' /\ c_buf c' = [] ++ out /\
    receive_all no_ipaddr (toy_context false) None (length out) out (toy_end true false) = Done [1; 2; 3] s' /\
    linked (toy_context false) (toy_context false) toy_params c' s'.
Proof.
  exact (send_receive_roundtrip no_ipaddr (toy_context false) (toy_context false) None toy_params (toy_end false true) (toy_end true false) [1; 2; 3]
           toy_linked ltac:(by repeat constructor)).
Defined.

Lemma skipped_early_data_bounded_witness :
  let c := toy_conn RecordEmitter ((ptls_server_new (toy_context false)) <| t_early_data_skipped_bytes := 0 |>) in
  let input := appdata_records [replicate 300 1; replicate 200 2] in
  handshake_loop no_ipaddr (toy_context false) None (length input) PTLS_ERROR_IN_PROGRESS input c = Done (PTLS_ERROR_IN_PROGRESS, []) (skipped_to 500 c).
Proof.
  intros c input. refine (proj1 (skipped_early_data_bounded no_ipaddr (toy_context false) None [replicate 300 1; replicate 200 2] c eq_refl eq_refl eq_refl _) _).
  - repeat first [apply Forall_cons_2; [split; [by apply Forall_replicate | by vm_compute]|] | apply Forall_nil_2].
  - by vm_compute.
Defined.

(** The hello messages of the handshake. *)
Definition toy_client : conn :=
  toy_conn RawEmitter (ptls_set_server_name (Some (str "example.com")) (ptls_client_new (toy_context false) 1)).
Definition toy_client_hello : bytes :=
  match send_client_hello no_ipaddr (toy_context false) None None toy_client with Done _ c => c_buf c | _ => [] end.
Definition toy_server_hello : bytes :=
  match handle_server_handshake_message (toy_context false) None toy_client_hello true (toy_conn RawEmitter (ptls_server_new (toy_context false))) with
  | Done _ s => hd [] (fst (messages (c_buf s)))
  | _ => []
  end.

Lemma bytes_check l : forallb (fun b => (0 <=? b) && (b <? 256)) l = true -> is_bytes l.
Proof. intros H. apply List.Forall_forall. intros b Hb. apply (proj1 (forallb_forall _ _) H) in Hb. unfold is_byte. b2p. lia. Qed.

Definition toy_hello_config : hello_config := mk_hello_config None [toy_cs] [toy_kx] false None.

Lemma decode_client_hello_safe_witness :
  exists ch bm, decode_client_hello toy_client_hello toy_hello_config ch_init 4 (length toy_client_hello) = Ok ch /\
    ch_ok toy_hello_config 4 (length toy_client_hello) bm ch.
Proof.
  assert (Hb : is_bytes toy_client_hello) by (apply bytes_check; vm_compute; reflexivity).
  assert (Hl : (4 <= length toy_client_hello <= length toy_client_hello)%nat).
  { split; [|reflexivity]. apply Nat.leb_le. vm_compute. reflexivity. }
  assert (Hok : match decode_client_hello toy_client_hello toy_hello_config ch_init 4 (length toy_client_hello) with Ok _ => true | _ => false end = true)
    by (vm_compute; reflexivity).
  pose proof (decode_client_hello_safe toy_client_hello toy_hello_config 4 (length toy_client_hello) Hb Hl) as H.
  destruct (decode_client_hello toy_client_hello toy_hello_config ch_init 4 (length toy_client_hello)) as [ch| |]; [|discriminate Hok..].
  destruct H as [bm H]. exists ch, bm. split; [reflexivity | exact H].
Defined.

Lemma decode_server_hello_safe_witness :
  exists sh c', decode_server_hello (toy_context false) toy_server_hello (toy_client <| c_tls := (c_tls toy_client) <| t_key_share := Some toy_kx |> |>) = Done sh c' /\
    (sh_is_retry_request sh = false -> sh_peerkey sh <> None \/ t_is_psk_handshake (c_tls c') = true).
Proof.
  set (c := toy_client <| c_tls := (c_tls toy_client) <| t_key_share := Some toy_kx |> |>).
  assert (Hb : is_bytes toy_server_hello) by (apply bytes_check; vm_compute; reflexivity).
  assert (Hl : (PTLS_HANDSHAKE_HEADER_SIZE <= length toy_server_hello)%nat) by (apply Nat.leb_le; vm_compute; reflexivity).
  assert (Hok : match decode_server_hello (toy_context false) toy_server_hello c with Done _ _ => true | _ => false end = true) by (vm_compute; reflexivity).
  pose proof (decode_server_hello_safe (toy_context false) toy_server_hello c Hb Hl eq_refl) as H.
  destruct (decode_server_hello (toy_context false) toy_server_hello c) as [sh c'| |]; [|discriminate Hok..].
  exists sh, c'. split; [reflexivity | exact (proj2 (proj2 (proj2 H)))].
Defined.

(** ** Compressed certificates *)
Definition toy_ecc : ptls_emit_compressed_certificate_t :=
  match ptls_init_compressed_certificate [[1; 2; 3]] [7; 7] with Ok self => self | _ => mk_ecc 0 empty_entry empty_entry end.
Definition toy_compressing_context : ptls_context_t :=
  mk_ctx toy_random (fun n => 1000000 + n) [toy_kx] [toy_cs] [[1; 2; 3]] None None
    (Some (fun context status algos => match emit_compressed_certificate toy_ecc context status algos with Ok x => x | _ => inl PTLS_ERROR_LIBRARY end))
    None (Some toy_verify_certificate) 0 0 0 None false true false false false None None None (Some ptls_decompress_certificate) None None.
Definition toy_started : conn :=
  let c0 := toy_conn RawEmitter (ptls_client_new toy_compressing_context 1) in
  match send_client_hello no_ipaddr toy_compressing_context None None c0 with Done _ c => c | _ => c0 end.

Lemma certificate_delivery_witness :
  exists body, certificate_message toy_compressing_context [] true [1; 2] toy_started =
    Done (PTLS_HANDSHAKE_TYPE_COMPRESSED_CERTIFICATE, body) toy_started /\
    carries true body (ptls_build_certificate_message [] [[1; 2; 3]] [7; 7]) /\
    let message := message_body PTLS_HANDSHAKE_TYPE_COMPRESSED_CERTIFICATE body in
    client_handle_compressed_certificate toy_compressing_context message toy_started =
    certificates_received toy_compressing_context [[1; 2; 3]] message toy_started.
Proof.
  refine (certificate_delivery [[1; 2; 3]] [7; 7] toy_ecc toy_compressing_context _ toy_compressing_context true [1; 2] toy_started toy_started
    _ _ _ eq_refl _ _ _); [by vm_compute | split; vm_compute; lia || done | done | | done | done].
  intros status algos. unfold emit_compressed_certificate. by destruct (existsb _ algos).
Defined.
Example certificate_delivery_run :
  match certificate_message toy_compressing_context [] true [1; 2] toy_started with
  | Done (type, body) _ =>
      match client_handle_compressed_certificate toy_compressing_context (message_body type body) toy_started with
      | Done r c => (r =? PTLS_ERROR_IN_PROGRESS) && existsb (fun e => match e with EvCertificates certs => bool_decide (certs = [[1; 2; 3]]) | _ => false end) (c_trace c)
      | _ => false
      end
  | _ => false
  end = true.
Proof. by vm_compute. Qed.
